(* ===== verification/_CoqProject ===== *)
-Q . S2P
Prelude.v
Json.v
Contract.v
Sessions.v
Invocations.v
Budget.v
Markers.v
Node.v
Validate.v
Telemetry.v
Workflow.v
QueuePark.v
LoopCombinator.v
Parallel.v
HeavyWork.v
Policy.v
Utf8.v
Text.v
ModelReply.v
Operator.v
OperatorQueue.v
LiveState.v
Effect.v
Disk.v
CoordWrite.v
CoordQueue.v
CoordRead.v
CoordExamples.v
ApprovalLedger.v
ApprovalExamples.v
Terminal.v
Escalate.v
Chain.v
Ledger.v
Execute.v
Inbox.v
Preflight.v
LaneLog.v
Integrate.v
ChainModel.v
IntegrateLogic.v
Lifecycle.v
Accounting.v
SdlcPolicy.v
SdlcState.v
SdlcContext.v
SdlcFeedback.v
SdlcClock.v
SdlcChecks.v
Calendar.v
TaskLoop.v
TaskLoopFacts.v
SdlcSetup.v
SdlcReview.v
SdlcWrapUp.v
SdlcClose.v
SdlcRun.v
SdlcExamples.v
SdlcRunExamples.v
SdlcSetupExamples.v
Examples.v
