(* ===== verification/Prelude.v ===== *)
(** * engine-rs: a verification library for the workflow engine

    engine-rs runs workflows: a declared graph of nodes, each an asynchronous
    function from a [TaskContext] to a [TaskContext], walked one node at a time
    by [Workflow] (crates/engine-core/src/workflow.rs).  The walk stops early on
    cancellation, on a budget cap, on an operator's pause or on a node's own
    request to suspend, and a suspended run is picked up again from its stored
    context.  Everything a run leaves behind (outputs, envelopes, ledgers,
    markers, telemetry) is in that context, whose [metadata] is free-form JSON.
    Around the engine sit a cross-process admission queue for heavy commands
    (coord/heavy_work.rs), the driver that parks a run on that queue
    (workflows/queue_park.rs), combinators for loops and parallel branches, a
    layered policy resolver, and the queue of items shown to a human operator.
    Two workflows carry most of the program's own logic.  ORCHESTRATION
    (workflows/orchestration) works off a chain of blocks, each one a child run
    behind a series of gates, with a checkpoint, a lane log and a verification
    ledger.  SDLC_FLOW (workflows/sdlc_flow) is the child: it implements the
    tasks of a spec one by one, testing, triaging and reviewing each attempt,
    with a state that survives the run.

    ** The files

    - Prelude: results, machine integers, binary64, stable sorting by a
      comparison ([sort_by], class [TotalCmp]), hash maps whose iteration order
      is a parameter (class [HashOrder]).
    - Json: [serde_json::Value], instants and uuids as the class [Extern] with
      the laws [ExternLaws] the engine relies on; the helpers every metadata
      writer uses; what serde's derive does with a struct ([de_struct]).
      [JsonModel] is an instance that satisfies the laws.
    - Contract: the records of crates/engine-contract.
    - Sessions, Invocations, Budget: the three ledgers of a run
      (engine-core/src/sessions.rs, invocations.rs, budget.rs).
    - Markers: what is stamped into [metadata] (suspend.rs, cancellation.rs,
      completion.rs and the stamps of workflow.rs) and [derive_terminal_status].
    - Node: nodes, identity overrides, input bindings, the registry, the schema
      and routing (node.rs, schema.rs, routing.rs); class [Runtime], the world a
      node acts on.  [RuntimeModel] is an instance.
    - Validate: [WorkflowValidator] (validate.rs).
    - Telemetry: the roll-ups stamped at the end of a run (policy/telemetry.rs).
    - Workflow: [node_context], the walk, [run], [run_with], [run_from]
      (workflow.rs) and the ledger engine-serve/src/resume.rs resumes with.
    - QueuePark: [drive] (workflows/queue_park.rs).
    - LoopCombinator, Parallel: loop_combinator.rs, parallel.rs.
    - HeavyWork: coord/heavy_work.rs.
    - Disk: a file system, its calls, what may fail and who may act between
      them, and the logic [wp] of the programs over it.  CoordWrite, CoordQueue:
      the coordination directory's registry, slots, leases and messages
      (coord/write.rs), over classes [CoordLibs], [CoordType].  CoordRead: the
      reader that joins it into a view (coord/mod.rs).  CoordExamples: a text
      format and codecs to run them with, witnesses.
    - Terminal: the lease of a tmux session, the operator's hold, the guarded
      sender (crates/term-core: lease.rs, hold.rs, driver.rs); class [Driver] is
      tmux.
    - Policy: policy/resolve.rs, policy/profiles.rs and the two operator-facing
      policies of operator/queue/policy.rs and operator/failure.rs.
    - Utf8: Rust strings as UTF-8 bytes, [u64::to_le_bytes].
    - Operator: operator/limits.rs, payload.rs, validate.rs and the renderer of
      operator/failure.rs.
    - OperatorQueue: operator/queue/mod.rs, item.rs and digest.rs.
    - ApprovalLedger: the file of the operator's decisions, its queries and routes
      (operator/ledger, crates/engine-serve/src/approvals.rs), over Disk; classes
      [JsonLine], [ChronoDate].  ApprovalExamples runs it.
    - LiveState: the live and completed runs of the service, and how a failed one
      becomes an item of the queue (crates/engine-serve/src/live_state.rs).
    - Text: what the workflows use of [str] (splitting, trimming, lines, parsing
      of integers); class [UnicodeCase].  ModelReply: finding and judging the
      JSON in a model's answer (workflows/mod.rs).
    - Effect: the monad [eff W E] of the two workflows (a world, a log of
      events) with its notations and inversion lemmas.

    The orchestration chain:

    - Escalate: escalation records (escalate.rs).  Chain: the chain's steps,
      permission profiles and gates, dependencies, the conductor's caps, the
      checkpoint file (chain.rs, gates.rs, checkpoint.rs, policy/permission.rs).
      Ledger: the verification ledger.  Execute: running one step (execute.rs,
      dispatch.rs, repo_registry.rs).  Inbox: messages to the chain
      (inbox_triage.rs).  Preflight: checking a block's claims with screened
      commands (preflight.rs).
    - LaneLog, Integrate: [integrate_chain_impl] (integrate.rs); class [Seams]
      holds what it calls outside of these files.
    - IntegrateLogic: a program logic for the loop (class [Bookkeeping]: an
      automaton over the log), Lifecycle and Accounting: its two instances.
    - ChainModel, Examples: concrete seams, a chain to compute with, witnesses.

    The SDLC run:

    - SdlcPolicy: policy.rs, profiles.rs.  SdlcState: schema.rs, with the
      committed state file.  SdlcContext: what each node writes, and the class
      [Host] (processes, the model, files, clock, the heavy-work queue).
    - SdlcFeedback, SdlcClock, SdlcChecks: the parts of task_loop.rs that render
      feedback, find the latest state, and test a task.
    - TaskLoop: the nodes and routers of task_loop.rs and the walk over them
      (graph.rs).  TaskLoopFacts: what the loop guarantees.
    - SdlcSetup: the nodes before the loop (setup.rs); class [SetupFs] holds the
      file system calls only they make.
    - SdlcReview: the documentation patch, the final validation and the end
      review (docs.rs, final_validation.rs, end_review.rs).  SdlcWrapUp: the
      terminal signal, the final state and the report (wrap_up.rs), dated by
      Calendar.  SdlcClose: closing the run's block, the pull request and the
      state emission (close_block.rs, pr.rs, emit_state.rs); class [MevLibs] is
      the state library of the brain.
    - SdlcRun: the walk from the task queue to the end (graph.rs), built of the
      loop's walk and [walk_tail].
    - SdlcExamples, SdlcRunExamples, SdlcSetupExamples: hosts, runs to compute
      with, witnesses.

    ** How state and effects correspond

    A [HashMap] is a [gmap]; a place where the code iterates one enumerates its
    keys with [hm_keys], about which only "a permutation of the keys" is known,
    so every theorem holds for every iteration order.  u64 and u32 values are
    [Z]s and every addition the code does unchecked wraps ([u64_add],
    [u32_add]); saturating operations saturate.  Costs are IEEE binary64
    ([spec_float]).

    The engine's own code is a program in the monad [Workflow.M]: it passes the
    world [W] through and writes a trace of what can be observed (contexts shown
    to the persistence callback, dispatches, log events).  A node is any
    function [TaskContext -> W -> result TaskContext NodeError * W]; the clock,
    uuids and the shared flags are read from the world and every read may
    advance it, so other tasks act between any two reads.  [?] is
    [result_bind]; a panic is [None] where the code can panic (writing through
    [IndexMut] into a marker that is neither an object nor null).

    The heavy-work store is a finite map of job records.  Each operation of a
    process (enqueue, one admission attempt, one heartbeat, finish) is a
    function on it; [StoreStep] interleaves them in any order, the code holding
    its lock directory around an attempt, and [SplitStep] separates a
    heartbeat's read from its write.  Writes may fail ([accepts]).

    The workflows are programs in [eff]: each call outside takes and returns the
    world, and the calls a theorem speaks of are also events of the log
    ([elog]).  A node of the SDLC run is a function of [SdlcCtx], a record with
    one field per identity of [ctx.nodes] that the nodes read, holding the
    record of what that node writes.

    ** What is shown

    - The walk: what is dispatched, in which order, and on which contexts the
      routers are asked and the usage recorded ([walk_conforms]); the
      priority of cancellation, budget and pause at a boundary
      ([boundary_order]) and what follows a dispatch ([after_dispatch]); the
      envelope around a node and its dispatch-ledger row
      ([node_context_envelope], [node_context_ledger]), and that the ledger of
      an ended run is its history ([run_ledger_complete]); how a run starts
      ([run_starts_seeded]), that a validated run without routers ends
      ([validated_run_terminates]); that a pause followed by a resume loses
      nothing, under a token that is not raised ([pause_then_resume]).  These rest on the step relation [Step]
      and [walk_step_sound].
    - The validator is total and exact ([validate_spec]).
    - Markers and ledgers round-trip, up to the values JSON cannot hold (a
      non-finite cost); terminal status is the documented precedence.
    - The gate halts exactly at a cap; a rebuilt ledger has the tokens of the
      original; a halt is permanent unless the counter wraps.
    - Admission never exceeds a class limit, is first come first served, and
      admits the head when it can; [heartbeat_race_exceeds_limit] shows the
      interleaving in which the limit is exceeded.
    - Loops run their body exactly as often as the cap says; branches merge as
      documented, and what that loses.
    - Policies resolve field by field; profiles never resolve to nothing.
    - Operator payloads: the validator's answer is exact, a digest binds what
      was rendered up to a collision of the hash, a failure always renders.
    - The operator queue delivers the first item in its total order, never
      holds more than its depth open, loses nothing and cannot be wedged.
    - The approval ledger: whichever calls fail or tear, a decision is recorded as
      an approval only when the digests agree, rows come back in order, each
      decision makes its own attempt at an append, and one that fails costs two
      rows at most ([ledger_history]); two appenders may lose
      both rows without a failure ([append_race]); a reader gets through passing
      errors ([read_lines_ends]) but not through a directory
      ([directory_never_read]); statistics and days are exact ([stats_spec],
      [per_day_spec]), a listing is a page of the matching rows, newest first
      ([list_ledger_spec], [pages_cover]).
    - The live run store: a run is found by any reader, however the sections of
      the calls ([Call]) interleave, until a hundred others have completed
      ([run_always_found]); the ring refines a bounded list ([ring_refines]); a
      failed run is notified once while its record is in the ring, with its failed
      nodes, and no other run's state is touched ([failure_notified]).
    - The coordination directory, whichever calls fail or tear: no record is lost
      ([record_survives]), a live lease stays with its holder
      ([foreign_lease_kept]), a category stays within its cap
      ([capacity_bounded]), no message is lost or doubled
      ([messages_conserved], [drain_exact]), none declares a priority
      ([send_screens]), and a view that reports [Live] hides nothing
      ([live_view_in_order]).
    - The terminal: a held lease is exclusive ([lease_exclusive]) but two racing
      acquirers may both be told they hold it ([readback_admits_two]); keys are
      typed only behind the lease and the hold, both stated call by call of tmux
      ([clear_to_send], [send_guarded]), and the hold is what the checks saw
      ([hold_history]).
    - The chain loop: every run refines the life cycle of a block
      ([chain_run_refines_lifecycle]): no child run without the gates, the
      permit and the lease, no close without a verified and logged run; a
      block closed by the chain ran ([closed_block_ran]), a child is run only in
      a turn whose gates, asked one after the other, let its step through
      ([let_through], [child_runs_cleared]), the report accounts for the chain's steps
      ([chain_report_accounts]), and the loop ends ([chain_terminates]).
    - A block's claims: only command lines of the screen's grammar reach the
      operating system, each with its directory and environment
      ([preflight_runs_screened]), and the screen is exact ([validate_argv_exact]).
      An escalation is what its schema asks for ([escalation_well_typed]).
    - The SDLC task loop ends within a number of steps computed from the state
      ([task_loop_ends]), accounts for every attempt and review
      ([loop_conserves]), and marks a task done only on green checks of that
      very attempt and, under per-task review, on its approval
      ([done_means_green]); green means the whole suite ran and the write guard
      was satisfied ([test_green_spec]).  These rest on [last_write_wins]: of
      the five copies of the state in a context the readers take the last one
      written.
    - The whole run: a block is closed only by a run of the whole spec whose loop
      left no task pending, whose validation ran every enabled check and whose
      end review passed ([closed_means_done]); the close itself is one status,
      validated again and rolled back when it broke something
      ([close_block_guarded]); a run that gives up is blocked and closes nothing
      ([bail_is_terminal]).  What the per-task checks leave out the final
      validation runs, and what neither runs ([reconcile_covers]).
    - Its start: which state it goes on with ([load_state_spec]), in which
      directories a worktree is set up and what is removed for it
      ([worktree_setup_spec]), and that a live checkout is touched only when clean
      ([live_checkout_guarded]); the planning context stays within its budget
      ([truncate_context_bounds]).
    - The state file reads back as it was saved ([committed_state_roundtrip]);
      policies resolve knob by knob ([sdlc_resolve_spec]); feedback stays within
      its budget ([feedback_block_bound]).

    ** Fuel

    [reach_loop] and [dfs_visit] take [worklist_fuel] and [dfs_fuel], one more
    than the number of names in the schema; [validate_spec] proves them enough.
    [walk_loop] takes the number of dispatches it may make: the engine itself
    has no bound (routers may loop), so theorems about whole runs hold for every
    amount of fuel, and [validated_run_terminates] gives an amount that is
    enough when there are no routers.  [drive_loop]'s fuel bounds the number of
    queue parks, [wait_for_admission]'s list of attempts the number of polls;
    [loop_runs_exactly] states the rounds needed.  [integrate_chain_impl] takes
    the number of turns: [chain_terminates] shows twice the length of the chain
    enough, since a step is put back once at most.  The SDLC loop takes the
    number of nodes: [steps_left] is ten for every attempt still allowed, plus
    the place in the attempt.  The nodes after it are [TAIL_LENGTH] at most, a
    walk along a line.  The archive of a superseded state tries [ARCHIVE_NAMES]
    names after the first, as many as the code.  The walk over the brain's
    directories takes one turn per directory ([wp_walk] shows it enough), the
    scan of a message for forbidden keys the depth of its value.  The reader of
    the approval ledger takes the times it may ask again after an error.

    ** What is not modelled

    The other nodes and workflows (model calls, HTTP, subprocesses), the tmux
    driver and the pty, the other handlers, event journal and recovery sweep of the
    HTTP service, and the store (SQL) are I/O around these parts.  The operator's
    queue source and channels, the conductor and its debriefs,
    cron and the roadmap reports are glue over the parts that are modelled, or
    text for display.  Within the modelled parts: a job record's file format and
    the lock file's takeover after 30 seconds, [tokio] task plumbing, tracing
    beyond the events listed, [chrono]'s range limits, serde_json's text,
    symbolic links in the coordination directory and path components that hold a
    separator.  SHA-256, the file system of the two workflows, [join_all]'s
    scheduling, the job lookup, TOML/JSON parsing, okf_core's records and the
    tmux driver are parameters; so are the event an SDLC run starts from, which
    serde reads, and the policy resolver that the setup node calls. *)

From Stdlib Require Export ZArith Lia.
From stdpp Require Export base gmap strings list sorting.
From Stdlib Require Import SpecFloat.

#[export] Set Default Goal Selector "!".

(** ** Results *)

(** Rust's [Result<A, E>]. *)
Inductive result (A E : Type) : Type :=
| Ok (a : A)
| Err (e : E).
Arguments Ok {A E} _.
Arguments Err {A E} _.

Definition is_ok {A E} (r : result A E) : bool :=
  match r with Ok _ => true | Err _ => false end.

Definition is_some {A} (o : option A) : bool := match o with Some _ => true | None => false end.

(** Early return with [?]: the rest of the body runs on [Ok] only. *)
Definition result_bind {A B E} (r : result A E) (k : A -> result B E) : result B E :=
  match r with Ok a => k a | Err e => Err e end.

Declare Scope engine_scope.
Delimit Scope engine_scope with engine.

Notation "x <-? e ; k" := (result_bind e (fun x => k))
  (at level 100, e at next level, right associativity) : engine_scope.

Lemma result_bind_Ok {A B E} (r : result A E) (k : A -> result B E) b :
  result_bind r k = Ok b <-> exists a, r = Ok a /\ k a = Ok b.
Proof. destruct r; simpl; naive_solver. Qed.

Lemma result_bind_Err {A B E} (r : result A E) (k : A -> result B E) e :
  result_bind r k = Err e <-> r = Err e \/ exists a, r = Ok a /\ k a = Err e.
Proof. destruct r; simpl; naive_solver. Qed.

(** Inverts a chain of option binds that ended in [Some]. *)
Ltac inv_bind H :=
  repeat (let x := fresh "x" in let Hx := fresh "Hx" in
          apply bind_Some in H; destruct H as (x & Hx & H)).

(** Replays a chain whose steps are known. *)
Ltac run_binds :=
  repeat match goal with
         | Hx : ?e = Some _ |- context [?e ≫= _] => rewrite Hx; simpl
         end.

(** ** Machine integers *)

(** Unsigned 64- and 32-bit integers are [Z]s in range.  The workspace's
    release profile leaves overflow checks off, so [+] and [+=] wrap. *)
Definition u64_modulus : Z := 2 ^ 64.
Definition u32_modulus : Z := 2 ^ 32.
Definition u64_ok (n : Z) : Prop := (0 <= n < u64_modulus)%Z.
Definition u64_max : Z := u64_modulus - 1.
Definition u32_max : Z := u32_modulus - 1.
Definition u64_add (a b : Z) : Z := ((a + b) mod u64_modulus)%Z.
Definition u32_add (a b : Z) : Z := ((a + b) mod u32_modulus)%Z.
Definition u64_sat_sub (a b : Z) : Z := Z.max 0 (a - b).
Definition u32_sat_add (a b : Z) : Z := Z.min u32_max (a + b).

Lemma u64_add_ok a b : u64_ok (u64_add a b).
Proof. unfold u64_ok, u64_add. apply Z.mod_pos_bound. reflexivity. Qed.

Lemma u64_add_exact a b :
  u64_ok a -> u64_ok b -> (a + b < u64_modulus)%Z -> u64_add a b = (a + b)%Z.
Proof. unfold u64_ok, u64_add. intros ???. apply Z.mod_small. lia. Qed.

Lemma u64_add_0_r a : u64_ok a -> u64_add a 0 = a.
Proof. intros ?. unfold u64_add. rewrite Z.add_0_r. by apply Z.mod_small. Qed.

(** ** IEEE 754 binary64 *)

Definition f64 : Type := spec_float.
Definition f64_add : f64 -> f64 -> f64 := SFadd 53 1024.
Definition f64_div : f64 -> f64 -> f64 := SFdiv 53 1024.
Definition f64_of_Z (n : Z) : f64 := binary_normalize 53 1024 n 0 false.
Definition f64_zero : f64 := S754_zero false.
Definition f64_neg_zero : f64 := S754_zero true.
(** [a >= b]; false when either side is NaN. *)
Definition f64_ge (a b : f64) : bool := SFleb b a.
Definition f64_is_finite (x : f64) : bool :=
  match x with S754_zero _ | S754_finite _ _ _ => true | _ => false end.

(** Rust's [Sum] for floats starts from [-0.0]. *)
Definition f64_sum (l : list f64) : f64 := foldl f64_add f64_neg_zero l.

#[export] Instance f64_eq_dec : EqDecision f64.
Proof. intros x y. unfold Decision. unfold f64 in *. decide equality; try apply Bool.bool_dec; try apply Z.eq_dec; apply Pos.eq_dec. Defined.

(** ** Stable sorting by a comparison *)

Section SortBy.
Context {A : Type} (cmp : A -> A -> comparison).

(** [slice::sort_by]: a stable sort. *)
Fixpoint insert_by (x : A) (l : list A) : list A :=
  match l with
  | [] => [x]
  | y :: l' => match cmp x y with
               | Gt => y :: insert_by x l'
               | _ => x :: y :: l'
               end
  end.
Definition sort_by (l : list A) : list A := foldr insert_by [] l.

Lemma insert_by_perm x l : insert_by x l ≡ₚ x :: l.
Proof.
  induction l as [|y l IH]; simpl; [done|].
  destruct (cmp x y); [done..|]. rewrite IH. apply Permutation_swap.
Qed.

Lemma sort_by_perm l : sort_by l ≡ₚ l.
Proof. induction l as [|x l IH]; simpl; [done|]. by rewrite insert_by_perm, IH. Qed.

(** What the comparison must satisfy to be a total preorder. *)
Class TotalCmp : Prop := {
  cmp_flip : forall x y, cmp y x = CompOpp (cmp x y);
  cmp_trans : forall x y z, cmp x y <> Gt -> cmp y z <> Gt -> cmp x z <> Gt
}.

Definition cmp_le (x y : A) : Prop := cmp x y <> Gt.

Lemma cmp_le_refl `{!TotalCmp} x : cmp_le x x.
Proof. unfold cmp_le. pose proof (cmp_flip x x). destruct (cmp x x); simpl in *; congruence. Qed.

Lemma cmp_le_flip `{!TotalCmp} x y : ~ cmp_le x y -> cmp_le y x.
Proof. unfold cmp_le. rewrite (cmp_flip x y). destruct (cmp x y); simpl; naive_solver. Qed.

Lemma insert_by_sorted `{!TotalCmp} x l :
  StronglySorted cmp_le l -> StronglySorted cmp_le (insert_by x l).
Proof.
  induction 1 as [|y l Hs IH Hall]; simpl; [repeat constructor|].
  assert (Hle : cmp x y <> Gt -> StronglySorted cmp_le (x :: y :: l)).
  { intros Hxy. constructor; [by constructor|]. constructor; [done|].
    eapply Forall_impl; [exact Hall|]. intros z Hz. by eapply cmp_trans. }
  destruct (cmp x y) eqn:E; [by apply Hle..|].
  constructor; [done|]. rewrite insert_by_perm. constructor; [|done].
  apply cmp_le_flip. unfold cmp_le. rewrite E. auto.
Qed.

Lemma sort_by_sorted `{!TotalCmp} l : StronglySorted cmp_le (sort_by l).
Proof. induction l; simpl; [constructor | by apply insert_by_sorted]. Qed.

(** The head of a sorted vector is a minimum of the input. *)
Lemma sort_by_head `{!TotalCmp} l x xs :
  sort_by l = x :: xs -> x ∈ l /\ forall y, y ∈ l -> cmp_le x y.
Proof.
  intros E. pose proof (sort_by_sorted l) as Hs. rewrite E in Hs.
  assert (Hp : x :: xs ≡ₚ l) by (rewrite <- E; apply sort_by_perm).
  split; [rewrite <- Hp; left|]. intros y. rewrite <- Hp, elem_of_cons.
  inversion Hs as [|? ? _ Hall]; subst.
  intros [->|Hy]; [apply cmp_le_refl|]. rewrite Forall_forall in Hall. auto.
Qed.

Lemma sort_by_nil l : sort_by l = [] <-> l = [].
Proof.
  split; [|by intros ->]. intros E. apply Permutation_nil.
  rewrite <- E. apply sort_by_perm.
Qed.
End SortBy.

#[export] Instance Z_compare_total : TotalCmp Z.compare.
Proof.
  constructor.
  - intros x y. apply Z.compare_antisym.
  - intros x y z. destruct (Z.compare_spec x y), (Z.compare_spec y z), (Z.compare_spec x z); lia || done.
Qed.

(** Elements with distinct keys are determined by their key. *)
Lemma nodup_key_inj {A B} (f : A -> B) (l : list A) x y :
  NoDup (map f l) -> x ∈ l -> y ∈ l -> f x = f y -> x = y.
Proof.
  intros Hnd Hx Hy E. apply list_elem_of_lookup in Hx as [i Hi], Hy as [j Hj].
  assert (i = j) as <-; [|congruence].
  eapply (NoDup_lookup (map f l)); [done|..]; rewrite list_lookup_fmap.
  - by rewrite Hi.
  - rewrite Hj. cbn. by rewrite E.
Qed.

(** Sorting by a key is sorting the keys' carriers. *)
Lemma sort_by_map {A B} (cmp : B -> B -> comparison) (h : A -> B) (l : list A) :
  sort_by cmp (map h l) = map h (sort_by (fun x y => cmp (h x) (h y)) l).
Proof.
  induction l as [|x l IH]; simpl; [done|]. rewrite IH. clear IH.
  generalize (sort_by (fun x y => cmp (h x) (h y)) l) as m. intros m.
  induction m as [|y m IH]; simpl; [done|]. destruct (cmp (h x) (h y)); simpl; by rewrite ?IH.
Qed.

#[export] Instance cmp_on_key_total {A B} (cmp : B -> B -> comparison) (h : A -> B) :
  TotalCmp cmp -> TotalCmp (fun x y => cmp (h x) (h y)).
Proof.
  intros Hc. constructor; [intros x y; by apply cmp_flip|intros x y z; by apply cmp_trans].
Qed.

(** A sorted list is its elements, when equal keys are equal elements. *)
Lemma sort_by_unique {A} (cmp : A -> A -> comparison) `{!TotalCmp cmp} (l m : list A) :
  (forall x y, x ∈ l -> y ∈ l -> cmp x y = Eq -> x = y) ->
  StronglySorted (cmp_le cmp) m -> m ≡ₚ l -> sort_by cmp l = m.
Proof.
  intros Heq Hs Hp. eapply (StronglySorted_unique_strong (cmp_le cmp)).
  - intros x y Hx Hy Hxy Hyx. rewrite sort_by_perm in Hx. rewrite Hp in Hy.
    apply Heq; [done..|]. unfold cmp_le in *. rewrite (cmp_flip cmp x y) in Hyx.
    by destruct (cmp x y).
  - apply sort_by_sorted; done.
  - done.
  - by rewrite sort_by_perm, Hp.
Qed.

(** ** HashMap *)

(** [HashMap<String, A>] is a [gmap string A]; the order of its iterators is
    unspecified, so it is a parameter, constrained to enumerate the keys. *)
Class HashOrder : Type := {
  hm_keys : forall {A : Type}, gmap string A -> list string;
  hm_keys_perm : forall {A : Type} (m : gmap string A), hm_keys m ≡ₚ (map_to_list m).*1
}.

Section HashMaps.
Context {HO : HashOrder} {A : Type}.
Implicit Types m : gmap string A.

(** [HashMap::values]. *)
Definition hm_values m : list A := omap (fun k => m !! k) (hm_keys m).
(** [HashMap::iter]. *)
Definition hm_iter m : list (string * A) :=
  omap (fun k => pair k <$> m !! k) (hm_keys m).

Lemma hm_keys_elem m k : k ∈ hm_keys m <-> is_Some (m !! k).
Proof.
  rewrite hm_keys_perm, list_elem_of_fmap. split.
  - intros ([k' a] & -> & H%elem_of_map_to_list). eauto.
  - intros [a H%elem_of_map_to_list]. by exists (k, a).
Qed.

Lemma hm_keys_NoDup m : NoDup (hm_keys m).
Proof. rewrite hm_keys_perm. apply NoDup_fst_map_to_list. Qed.

Lemma hm_values_elem m a : a ∈ hm_values m <-> exists k, m !! k = Some a.
Proof.
  unfold hm_values. rewrite list_elem_of_omap. setoid_rewrite hm_keys_elem.
  naive_solver eauto.
Qed.

Lemma hm_iter_elem m k a : (k, a) ∈ hm_iter m <-> m !! k = Some a.
Proof.
  unfold hm_iter. rewrite list_elem_of_omap. setoid_rewrite hm_keys_elem. split.
  - intros (k' & [b Hb] & H). rewrite Hb in H. by simplify_eq/=.
  - intros H. exists k. rewrite H. eauto.
Qed.

Lemma hm_keys_length m : length (hm_keys m) = size m.
Proof. by rewrite hm_keys_perm, length_fmap, length_map_to_list. Qed.
End HashMaps.

#[export] Instance hash_order_sorted : HashOrder | 100 :=
  {| hm_keys := fun A m => (map_to_list m).*1; hm_keys_perm := fun A m => reflexivity _ |}.
