(* ===== verification/Json.v ===== *)
(** * The interface to the third-party value types

    The workspace passes [serde_json::Value]s everywhere ([TaskContext.event],
    [.metadata], every [.nodes] entry) and stamps them with [uuid::Uuid]s and
    [chrono::DateTime<Utc>]s.  None of those crates is under src/, so they are
    the class [Extern] here: the operations the source calls, with the laws of
    their documentation in [ExternLaws].  Every definition of the development
    that touches a value is written against [Extern]; the concrete instance at
    the end of the file, [JsonModel], is what the witnesses compute with.

    The middle part is the reading side of [#[derive(Deserialize)]]: the struct
    visitor over an object (by key) or an array (by position), with serde's
    three treatments of a missing field. *)

From S2P Require Import Prelude.

Local Open Scope string_scope.
Local Open Scope list_scope.

(** The variants of [serde_json::Value]. *)
Inductive json_kind := KNull | KBool | KNumber | KString | KArray | KObject.

#[export] Instance json_kind_eq_dec : EqDecision json_kind.
Proof. solve_decision. Defined.

(** An instant of [DateTime<Utc>], in nanoseconds since the Unix epoch. *)
Definition instant : Type := Z.

Class Extern : Type := {
  value : Type;
  uuid : Type;
  kind : value -> json_kind;
  jnull : value;
  jbool : bool -> value;
  ju64 : Z -> value;
  jf64 : f64 -> value;
  jstr : string -> value;
  jarray : list value -> value;
  jempty : value;
  (** insertion into the map of a [Value::Object] *)
  jset : value -> string -> value -> value;
  (** [Value::get(&str)] *)
  jget : value -> string -> option value;
  as_bool : value -> option bool;
  as_u64 : value -> option Z;
  as_f64 : value -> option f64;
  as_str : value -> option string;
  as_array : value -> option (list value);
  (** the variant name a fieldless enum's [Deserialize] finds in a value *)
  enum_variant : value -> option string;
  (** [serde_json::to_vec(v).map(|b| b.len())] *)
  byte_len : value -> option Z;
  (** [to_rfc3339], and the serde representations of instants and uuids *)
  rfc3339 : instant -> string;
  instant_to_json : instant -> value;
  instant_of_json : value -> option instant;
  uuid_to_string : uuid -> string;
  uuid_to_json : uuid -> value;
  uuid_of_json : value -> option uuid
}.

Class ExternLaws (X : Extern) : Prop := {
  kind_null : kind jnull = KNull;
  kind_bool b : kind (jbool b) = KBool;
  kind_u64 n : kind (ju64 n) = KNumber;
  kind_f64 x : kind (jf64 x) = if f64_is_finite x then KNumber else KNull;
  kind_str s : kind (jstr s) = KString;
  kind_array l : kind (jarray l) = KArray;
  kind_empty : kind jempty = KObject;
  kind_set v k x : kind v = KObject -> kind (jset v k x) = KObject;
  jget_empty k : jget jempty k = None;
  jget_set v k k' x :
    kind v = KObject -> jget (jset v k x) k' = if String.eqb k k' then Some x else jget v k';
  jget_kind v k : kind v <> KObject -> jget v k = None;
  as_bool_bool b : as_bool (jbool b) = Some b;
  as_bool_kind v : kind v <> KBool -> as_bool v = None;
  as_u64_u64 n : u64_ok n -> as_u64 (ju64 n) = Some n;
  as_u64_kind v : kind v <> KNumber -> as_u64 v = None;
  as_u64_range v n : as_u64 v = Some n -> u64_ok n;
  as_f64_f64 x : f64_is_finite x = true -> as_f64 (jf64 x) = Some x;
  as_f64_kind v : kind v <> KNumber -> as_f64 v = None;
  as_str_str s : as_str (jstr s) = Some s;
  as_str_kind v : kind v <> KString -> as_str v = None;
  as_array_array l : as_array (jarray l) = Some l;
  as_array_kind v : kind v <> KArray -> as_array v = None;
  enum_variant_str s : enum_variant (jstr s) = Some s;
  enum_variant_kind v : kind v <> KString -> kind v <> KObject -> enum_variant v = None;
  instant_roundtrip t : instant_of_json (instant_to_json t) = Some t;
  instant_kind t : kind (instant_to_json t) = KString;
  uuid_roundtrip u : uuid_of_json (uuid_to_json u) = Some u
}.

Section Values.
Context {X : Extern}.

Definition is_object (v : value) : bool := bool_decide (kind v = KObject).
Definition is_null (v : value) : bool := bool_decide (kind v = KNull).

(** The [json!({...})] literal. *)
Definition json_object (kvs : list (string * value)) : value :=
  foldl (fun v kv => jset v kv.1 kv.2) jempty kvs.

(** [json!(o)] for an [Option]. *)
Definition json_opt {A} (f : A -> value) (o : option A) : value :=
  match o with Some a => f a | None => jnull end.

(** [v[k] = x] through [IndexMut<&str>]: an object gains the key, [null]
    becomes an object first, anything else panics ([None]). *)
Definition index_set (v : value) (k : string) (x : value) : option value :=
  match kind v with
  | KObject => Some (jset v k x)
  | KNull => Some (jset jempty k x)
  | _ => None
  end.

(** [if !metadata.is_object() { *metadata = json!({}) }], the guard every
    stamping function of the engine opens with. *)
Definition ensure_object (v : value) : value := if is_object v then v else jempty.

(** The append-only ledgers of [metadata]: push onto the array under [k], or
    start it when the key is absent or holds something else. *)
Definition push_entry (v : value) (k : string) (x : value) : value :=
  let v := ensure_object v in
  match jget v k ≫= as_array with
  | Some entries => jset v k (jarray (entries ++ [x]))
  | None => jset v k (jarray [x])
  end.

(** The entries of a ledger that parse, in order. *)
Definition read_entries {A} (dec : value -> option A) (v : value) (k : string) : list A :=
  match jget v k ≫= as_array with
  | Some entries => omap dec entries
  | None => []
  end.
End Values.

(** ** Derived deserializers *)

Section Derive.
Context {X : Extern}.

(** What the struct visitor finds for one field. *)
Inductive slot : Type :=
| Present (v : value)
| AbsentKey    (** an object without that key *)
| AbsentElem.  (** an array that is too short *)

Definition key_slot (v : value) (name : string) : slot :=
  match jget v name with Some x => Present x | None => AbsentKey end.

Definition de_struct (names : list string) (v : value) : option (list slot) :=
  match kind v with
  | KObject => Some (map (key_slot v) names)
  | KArray =>
      xs ← as_array v;
      if decide (length names < length xs)%nat then None
      else Some (map Present xs ++ replicate (length names - length xs) AbsentElem)
  | _ => None
  end.

(** A field with no attribute. *)
Definition de_req {A} (dec : value -> option A) (s : slot) : option A :=
  match s with Present x => dec x | _ => None end.

(** [Option<A>]: [null] is [None]. *)
Definition de_nullable {A} (dec : value -> option A) (x : value) : option (option A) :=
  if is_null x then Some None else Some <$> dec x.

(** An [Option<A>] field with no attribute: a missing key reads [None]. *)
Definition de_opt {A} (dec : value -> option A) (s : slot) : option (option A) :=
  match s with
  | Present x => de_nullable dec x
  | AbsentKey => Some None
  | AbsentElem => None
  end.

(** A field with [#[serde(default)]] (or [default = "f"]). *)
Definition de_default {A} (d : A) (dec : value -> option A) (s : slot) : option A :=
  match s with Present x => dec x | _ => Some d end.

Definition de_u32 (v : value) : option Z :=
  n ← as_u64 v; if decide (n < u32_modulus)%Z then Some n else None.
End Derive.

(** ** Facts about stamping *)

(** The binding of [k] in a [json!] literal: the last one written. *)
Definition assoc_last {A} (k : string) (kvs : list (string * A)) : option A :=
  foldl (fun acc kv => if String.eqb kv.1 k then Some kv.2 else acc) None kvs.

Section Laws.
Context {X : Extern} {HX : ExternLaws X}.

Lemma is_object_true v : is_object v = true <-> kind v = KObject.
Proof. unfold is_object. apply bool_decide_eq_true. Qed.

Lemma kind_ensure_object v : kind (ensure_object v) = KObject.
Proof.
  unfold ensure_object. destruct (is_object v) eqn:E; [by apply is_object_true|].
  apply kind_empty.
Qed.

Lemma ensure_object_id v : kind v = KObject -> ensure_object v = v.
Proof. intros H. unfold ensure_object. by rewrite (proj2 (is_object_true v) H). Qed.

Lemma jget_ensure_object v k : jget (ensure_object v) k = jget v k.
Proof.
  unfold ensure_object. destruct (is_object v) eqn:E; [done|].
  rewrite jget_empty, jget_kind; [done|]. rewrite <- is_object_true. congruence.
Qed.

Lemma kind_stamp v k x : kind (jset (ensure_object v) k x) = KObject.
Proof. apply kind_set, kind_ensure_object. Qed.

Lemma jget_stamp v k x : jget (jset (ensure_object v) k x) k = Some x.
Proof. rewrite jget_set by apply kind_ensure_object. by rewrite String.eqb_refl. Qed.

Lemma jget_stamp_ne v k k' x :
  k <> k' -> jget (jset (ensure_object v) k x) k' = jget v k'.
Proof.
  intros H. rewrite jget_set by apply kind_ensure_object.
  rewrite jget_ensure_object. by destruct (String.eqb_spec k k').
Qed.

Lemma kind_foldl_jset kvs v :
  kind v = KObject -> kind (foldl (fun v kv => jset v kv.1 kv.2) v kvs) = KObject.
Proof. revert v. induction kvs as [|kv kvs IH]; simpl; auto using kind_set. Qed.

Lemma kind_json_object kvs : kind (json_object kvs) = KObject.
Proof. apply kind_foldl_jset, kind_empty. Qed.

Lemma jget_json_object kvs k : jget (json_object kvs) k = assoc_last k kvs.
Proof.
  unfold json_object, assoc_last. rewrite <- (jget_empty k).
  assert (H : kind jempty = KObject) by apply kind_empty. revert H.
  generalize jempty as v. induction kvs as [|[k0 x] kvs IH]; intros v Hv; simpl; [done|].
  rewrite IH by by apply kind_set. by rewrite jget_set by done.
Qed.

Lemma is_object_kind v : is_object v = false -> kind v <> KObject.
Proof. rewrite <- is_object_true. congruence. Qed.

Lemma index_set_object v k x : kind v = KObject -> index_set v k x = Some (jset v k x).
Proof. unfold index_set. by intros ->. Qed.

Lemma is_null_false v : kind v <> KNull -> is_null v = false.
Proof. unfold is_null. by rewrite bool_decide_eq_false. Qed.

Lemma is_null_jnull : is_null jnull = true.
Proof. unfold is_null. apply bool_decide_eq_true, kind_null. Qed.

Lemma de_nullable_null {A} (dec : value -> option A) : de_nullable dec jnull = Some None.
Proof. unfold de_nullable. by rewrite is_null_jnull. Qed.

Lemma de_nullable_some {A} (dec : value -> option A) x a :
  kind x <> KNull -> dec x = Some a -> de_nullable dec x = Some (Some a).
Proof. intros Hk Hd. unfold de_nullable. by rewrite is_null_false, Hd. Qed.

Lemma de_opt_json_opt {A} (f : A -> value) (dec : value -> option A) o :
  (forall a, o = Some a -> kind (f a) <> KNull /\ dec (f a) = Some a) ->
  de_nullable dec (json_opt f o) = Some o.
Proof.
  destruct o as [a|]; simpl; intros H; [|apply de_nullable_null].
  destruct (H a eq_refl). by apply de_nullable_some.
Qed.

Lemma kind_push_entry v k x : kind (push_entry v k x) = KObject.
Proof. unfold push_entry. case_match; apply kind_set, kind_ensure_object. Qed.

Lemma jget_push_entry_ne v k k' x : k <> k' -> jget (push_entry v k x) k' = jget v k'.
Proof. intros H. unfold push_entry. case_match; by apply jget_stamp_ne. Qed.

Lemma read_entries_push {A} (dec : value -> option A) v k x :
  read_entries dec (push_entry v k x) k = read_entries dec v k ++ omap dec [x].
Proof.
  unfold read_entries, push_entry. rewrite jget_ensure_object.
  destruct (jget v k ≫= as_array) as [l|]; rewrite jget_stamp; simpl;
    rewrite as_array_array; [|done].
  by rewrite omap_app.
Qed.

Lemma read_entries_push_ne {A} (dec : value -> option A) v k k' x :
  k <> k' -> read_entries dec (push_entry v k x) k' = read_entries dec v k'.
Proof. intros H. unfold read_entries. by rewrite jget_push_entry_ne. Qed.

Lemma read_entries_stamp_ne {A} (dec : value -> option A) v k k' x :
  k <> k' -> read_entries dec (jset (ensure_object v) k x) k' = read_entries dec v k'.
Proof. intros H. unfold read_entries. by rewrite jget_stamp_ne. Qed.

Lemma read_entries_stamp_array {A} (dec : value -> option A) v k l :
  read_entries dec (jset (ensure_object v) k (jarray l)) k = omap dec l.
Proof. unfold read_entries. rewrite jget_stamp. simpl. by rewrite as_array_array. Qed.

Lemma de_struct_kind names v :
  kind v = KObject -> de_struct names v = Some (map (key_slot v) names).
Proof. unfold de_struct. by intros ->. Qed.

Lemma de_struct_object names kvs :
  de_struct names (json_object kvs)
  = Some (map (fun n => match assoc_last n kvs with
                        | Some x => Present x | None => AbsentKey end) names).
Proof.
  unfold de_struct. rewrite kind_json_object. f_equal.
  apply map_ext. intros n. unfold key_slot. by rewrite jget_json_object.
Qed.
End Laws.

Create Rewrite HintDb json.
#[export] Hint Rewrite @kind_null @kind_bool @kind_u64 @kind_str @kind_array @kind_empty
  @as_bool_bool @as_str_str @as_array_array @enum_variant_str @instant_roundtrip @instant_kind @uuid_roundtrip
  @jget_json_object @jget_stamp @kind_json_object @kind_stamp @jget_ensure_object
  @de_nullable_null using typeclasses eauto : json.

(** Reads of what was just written. *)
Ltac json_simpl :=
  autorewrite with json;
  repeat (rewrite jget_stamp_ne by done; autorewrite with json).

(** ** A concrete instance *)

Module JsonModel.
Inductive jval :=
| JNull
| JBool (b : bool)
| JU64 (n : Z)
| JF64 (x : f64)
| JStr (s : string)
| JTime (t : instant)   (** the text of an instant *)
| JArr (l : list jval)
| JObj (kvs : list (string * jval)).

Fixpoint assoc_get (k : string) (kvs : list (string * jval)) : option jval :=
  match kvs with
  | [] => None
  | (k', x) :: kvs' => if String.eqb k' k then Some x else assoc_get k kvs'
  end.

Fixpoint assoc_set (k : string) (x : jval) (kvs : list (string * jval)) :=
  match kvs with
  | [] => [(k, x)]
  | (k', y) :: kvs' => if String.eqb k' k then (k, x) :: kvs' else (k', y) :: assoc_set k x kvs'
  end.

Lemma assoc_get_set k k' x kvs :
  assoc_get k' (assoc_set k x kvs) = if String.eqb k k' then Some x else assoc_get k' kvs.
Proof.
  induction kvs as [|[k0 y] kvs IH]; simpl; [done|].
  destruct (String.eqb_spec k0 k) as [->|]; simpl; [by destruct (String.eqb_spec k k')|].
  destruct (String.eqb_spec k0 k') as [->|]; [|apply IH].
  by destruct (String.eqb_spec k k').
Qed.

Definition jkind (v : jval) : json_kind :=
  match v with
  | JNull => KNull | JBool _ => KBool | JU64 _ | JF64 _ => KNumber
  | JStr _ | JTime _ => KString | JArr _ => KArray | JObj _ => KObject
  end.

(** Bytes of the compact serialization (no character is escaped). *)
Fixpoint jlen (v : jval) : Z :=
  match v with
  | JNull => 4
  | JBool b => if b then 4 else 5
  | JU64 n => Z.max 1 (1 + Z.log2 n / 3)
  | JF64 _ => 8
  | JStr s => 2 + Z.of_nat (String.length s)
  | JTime _ => 22
  | JArr l => 2 + foldr (fun x n => jlen x + 1 + n)%Z 0%Z l
  | JObj kvs => 2 + foldr (fun kx n =>
      Z.of_nat (String.length kx.1) + 4 + jlen kx.2 + n)%Z 0%Z kvs
  end.

#[export] Instance extern : Extern := {|
  value := jval;
  uuid := string;
  kind := jkind;
  jnull := JNull;
  jbool := JBool;
  ju64 := JU64;
  jf64 := fun x => if f64_is_finite x then JF64 x else JNull;
  jstr := JStr;
  jarray := JArr;
  jempty := JObj [];
  jset := fun v k x => match v with JObj kvs => JObj (assoc_set k x kvs) | _ => v end;
  jget := fun v k => match v with JObj kvs => assoc_get k kvs | _ => None end;
  as_bool := fun v => match v with JBool b => Some b | _ => None end;
  as_u64 := fun v => match v with
                     | JU64 n => if decide (0 <= n < u64_modulus)%Z then Some n else None
                     | _ => None end;
  as_f64 := fun v => match v with
                     | JF64 x => Some x | JU64 n => Some (f64_of_Z n) | _ => None end;
  as_str := fun v => match v with
                     | JStr s => Some s | JTime _ => Some "1970-01-01T00:00:00Z" | _ => None end;
  as_array := fun v => match v with JArr l => Some l | _ => None end;
  enum_variant := fun v => match v with JStr s => Some s | JObj [(s, JNull)] => Some s | _ => None end;
  byte_len := fun v => Some (jlen v);
  rfc3339 := fun _ => "1970-01-01T00:00:00Z";
  instant_to_json := JTime;
  instant_of_json := fun v => match v with JTime t => Some t | _ => None end;
  uuid_to_string := fun u => u;
  uuid_to_json := JStr;
  uuid_of_json := fun v => match v with JStr s => Some s | _ => None end
|}.

#[export] Instance extern_laws : ExternLaws extern.
Proof.
  constructor; simpl; try done.
  - intros x. by destruct (f64_is_finite x).
  - by intros [].
  - intros v k k' y H; destruct v; try done. apply assoc_get_set.
  - by intros [].
  - by intros [].
  - intros n H. unfold u64_ok in *. by rewrite decide_True.
  - by intros [].
  - intros v m H; destruct v; try done. by case_decide; simplify_eq.
  - by intros ? ->.
  - by intros [].
  - by intros [].
  - by intros [].
  - by intros [].
Qed.
End JsonModel.

#[export] Existing Instance JsonModel.extern_laws.
