(* ===== verification/Contract.v ===== *)
(** * engine-contract: the data every component exchanges

    The records of crates/engine-contract/src: [TaskContext] and its [NodeRun]
    envelopes (task_context.rs), and the dispatch ledger's row [NodeInvocation]
    (node_invocation.rs) with the wire form serde derives for it. *)

From S2P Require Import Prelude Json.

Local Open Scope string_scope.
Local Open Scope list_scope.

Inductive NodeRunStatus := Pending | Running | Success | Failed.

#[export] Instance NodeRunStatus_eq_dec : EqDecision NodeRunStatus.
Proof. solve_decision. Defined.

Record Usage := mkUsage {
  input_tokens : option Z;
  output_tokens : option Z;
  usage_model : string
}.

Section Contract.
Context {X : Extern}.

Record NodeRun := mkNodeRun {
  status : NodeRunStatus;
  started_at : option instant;
  completed_at : option instant;
  error : option string;
  input : option value;
  usage : option Usage
}.

Record TaskContext := mkTaskContext {
  event : value;
  nodes : gmap string value;
  metadata : value;
  node_runs : gmap string NodeRun
}.

Definition set_nodes (f : gmap string value -> gmap string value) (c : TaskContext) :=
  mkTaskContext (event c) (f (nodes c)) (metadata c) (node_runs c).
Definition set_metadata (f : value -> value) (c : TaskContext) :=
  mkTaskContext (event c) (nodes c) (f (metadata c)) (node_runs c).
Definition set_node_runs (f : gmap string NodeRun -> gmap string NodeRun) (c : TaskContext) :=
  mkTaskContext (event c) (nodes c) (metadata c) (f (node_runs c)).

(** The envelope of a node that has not run. *)
Definition pending_run : NodeRun := mkNodeRun Pending None None None None None.

Inductive NodeInvocationStatus := InvSuccess | InvFailed.

Record NodeInvocation := mkNodeInvocation {
  inv_id : uuid;
  inv_run_id : option string;
  inv_campaign_id : option string;
  inv_node : string;
  inv_seq : Z;
  inv_started_at : instant;
  inv_completed_at : instant;
  inv_status : NodeInvocationStatus;
  inv_error : option string;
  inv_payload : option value;
  inv_payload_truncated : bool;
  inv_payload_cap_bytes : Z
}.

(** [#[serde(rename_all = "snake_case")]] *)
Definition inv_status_to_json (s : NodeInvocationStatus) : value :=
  jstr match s with InvSuccess => "success" | InvFailed => "failed" end.

Definition inv_status_of_json (v : value) : option NodeInvocationStatus :=
  s ← enum_variant v;
  if String.eqb s "success" then Some InvSuccess
  else if String.eqb s "failed" then Some InvFailed else None.

Definition invocation_fields : list string :=
  ["id"; "run_id"; "campaign_id"; "node"; "seq"; "started_at"; "completed_at"; "status";
   "error"; "payload"; "payload_truncated"; "payload_cap_bytes"].

Definition invocation_to_json (i : NodeInvocation) : value := json_object
  [("id", uuid_to_json (inv_id i));
   ("run_id", json_opt jstr (inv_run_id i));
   ("campaign_id", json_opt jstr (inv_campaign_id i));
   ("node", jstr (inv_node i));
   ("seq", ju64 (inv_seq i));
   ("started_at", instant_to_json (inv_started_at i));
   ("completed_at", instant_to_json (inv_completed_at i));
   ("status", inv_status_to_json (inv_status i));
   ("error", json_opt jstr (inv_error i));
   ("payload", json_opt id (inv_payload i));
   ("payload_truncated", jbool (inv_payload_truncated i));
   ("payload_cap_bytes", ju64 (inv_payload_cap_bytes i))].

(** The derived [Deserialize]: every optional field has [#[serde(default)]]. *)
Definition invocation_of_json (v : value) : option NodeInvocation :=
  s ← de_struct invocation_fields v;
  match s with
  | [fid; frun; fcamp; fnode; fseq; fstart; fend; fstat; ferr; fpay; ftrunc; fcap] =>
      id ← de_req uuid_of_json fid;
      run ← de_default None (de_nullable as_str) frun;
      camp ← de_default None (de_nullable as_str) fcamp;
      node ← de_req as_str fnode;
      seq ← de_req as_u64 fseq;
      start ← de_req instant_of_json fstart;
      fin ← de_req instant_of_json fend;
      stat ← de_req inv_status_of_json fstat;
      err ← de_default None (de_nullable as_str) ferr;
      pay ← de_default None (de_nullable Some) fpay;
      trunc ← de_default false as_bool ftrunc;
      cap ← de_default 0%Z as_u64 fcap;
      Some (mkNodeInvocation id run camp node seq start fin stat err pay trunc cap)
  | _ => None
  end.

(** What survives the wire: counters in range, and a retained payload that is
    not [null], which would read back as no payload. *)
Definition invocation_wire_ok (i : NodeInvocation) : Prop :=
  u64_ok (inv_seq i) /\ u64_ok (inv_payload_cap_bytes i) /\
  (forall p, inv_payload i = Some p -> kind p <> KNull).
End Contract.

Section ContractFacts.
Context {X : Extern} {HX : ExternLaws X}.

Lemma de_nullable_json_opt_str (o : option string) :
  de_nullable as_str (json_opt jstr o) = Some o.
Proof. apply de_opt_json_opt. intros s _. by json_simpl. Qed.

Lemma inv_status_roundtrip s : inv_status_of_json (inv_status_to_json s) = Some s.
Proof. unfold inv_status_of_json, inv_status_to_json. json_simpl. by destruct s. Qed.

Lemma invocation_roundtrip (i : NodeInvocation) :
  invocation_wire_ok i -> invocation_of_json (invocation_to_json i) = Some i.
Proof.
  intros (Hseq & Hcap & Hpay). unfold invocation_of_json, invocation_to_json.
  rewrite de_struct_object. cbn.
  json_simpl. rewrite !de_nullable_json_opt_str, inv_status_roundtrip, !as_u64_u64 by done.
  rewrite (de_opt_json_opt id Some) by eauto. by destruct i.
Qed.
End ContractFacts.
