(* ===== verification/Sessions.v ===== *)
(** * The run-scoped ledger of CLI sessions

    crates/engine-core/src/sessions.rs: one [ClaudeSession] per invocation,
    appended under [metadata.claude_sessions], read back by skipping malformed
    entries, and rolled up into [LedgerTotals]. *)

From S2P Require Import Prelude Json Contract.

Local Open Scope string_scope.
Local Open Scope list_scope.

Definition SESSIONS_METADATA_KEY : string := "claude_sessions".

Record ClaudeSession := mkClaudeSession {
  ses_node : string;
  session_id : option string;
  ses_ok : bool;
  ses_cost_usd : f64;
  ses_input_tokens : Z;
  ses_output_tokens : Z;
  cache_read_input_tokens : Z;
  cache_creation_input_tokens : Z;
  ses_model : string;
  ses_started_at : option string;
  cost_known : bool
}.

Definition default_cost_known : bool := true.

Record LedgerTotals := mkLedgerTotals {
  invocations : Z;
  lt_cost_usd : f64;
  lt_input_tokens : Z;
  lt_output_tokens : Z;
  lt_cache_read : Z;
  lt_cache_creation : Z;
  unknown_cost_invocations : Z
}.

Definition LedgerTotals_default : LedgerTotals := mkLedgerTotals 0 f64_zero 0 0 0 0 0.

(** The body of [ledger_totals]'s fold. *)
Definition ledger_add (acc : LedgerTotals) (s : ClaudeSession) : LedgerTotals :=
  mkLedgerTotals
    (u64_add (invocations acc) 1)
    (f64_add (lt_cost_usd acc) (ses_cost_usd s))
    (u64_add (lt_input_tokens acc) (ses_input_tokens s))
    (u64_add (lt_output_tokens acc) (ses_output_tokens s))
    (u64_add (lt_cache_read acc) (cache_read_input_tokens s))
    (u64_add (lt_cache_creation acc) (cache_creation_input_tokens s))
    (if cost_known s then unknown_cost_invocations acc
     else u64_add (unknown_cost_invocations acc) 1).

Section Sessions.
Context {X : Extern}.

Definition session_fields : list string :=
  ["node"; "session_id"; "ok"; "cost_usd"; "input_tokens"; "output_tokens";
   "cache_read_input_tokens"; "cache_creation_input_tokens"; "model"; "started_at";
   "cost_known"].

Definition session_to_json (s : ClaudeSession) : value := json_object
  [("node", jstr (ses_node s));
   ("session_id", json_opt jstr (session_id s));
   ("ok", jbool (ses_ok s));
   ("cost_usd", jf64 (ses_cost_usd s));
   ("input_tokens", ju64 (ses_input_tokens s));
   ("output_tokens", ju64 (ses_output_tokens s));
   ("cache_read_input_tokens", ju64 (cache_read_input_tokens s));
   ("cache_creation_input_tokens", ju64 (cache_creation_input_tokens s));
   ("model", jstr (ses_model s));
   ("started_at", json_opt jstr (ses_started_at s));
   ("cost_known", jbool (cost_known s))].

Definition session_of_json (v : value) : option ClaudeSession :=
  s ← de_struct session_fields v;
  match s with
  | [fnode; fsid; fok; fcost; fin; fout; fread; fcreate; fmodel; fstart; fknown] =>
      node ← de_req as_str fnode;
      sid ← de_default None (de_nullable as_str) fsid;
      ok ← de_req as_bool fok;
      cost ← de_default f64_zero as_f64 fcost;
      inp ← de_default 0%Z as_u64 fin;
      out ← de_default 0%Z as_u64 fout;
      rd ← de_default 0%Z as_u64 fread;
      cr ← de_default 0%Z as_u64 fcreate;
      model ← de_default "" as_str fmodel;
      start ← de_default None (de_nullable as_str) fstart;
      known ← de_default default_cost_known as_bool fknown;
      Some (mkClaudeSession node sid ok cost inp out rd cr model start known)
  | _ => None
  end.

Definition append_session (metadata : value) (s : ClaudeSession) : value :=
  push_entry metadata SESSIONS_METADATA_KEY (session_to_json s).

Definition seed_sessions (metadata : value) (ss : list ClaudeSession) : value :=
  jset (ensure_object metadata) SESSIONS_METADATA_KEY (jarray (map session_to_json ss)).

Definition read_sessions (metadata : value) : list ClaudeSession :=
  read_entries session_of_json metadata SESSIONS_METADATA_KEY.

Definition read_session_ids (metadata : value) : list string :=
  omap session_id (read_sessions metadata).

Definition ledger_totals (metadata : value) : LedgerTotals :=
  foldl ledger_add LedgerTotals_default (read_sessions metadata).

(** What survives the wire: token counts in range, a finite cost. *)
Definition session_wire_ok (s : ClaudeSession) : Prop :=
  f64_is_finite (ses_cost_usd s) = true /\
  u64_ok (ses_input_tokens s) /\ u64_ok (ses_output_tokens s) /\
  u64_ok (cache_read_input_tokens s) /\ u64_ok (cache_creation_input_tokens s).
End Sessions.

Section SessionFacts.
Context {X : Extern} {HX : ExternLaws X}.

Lemma session_roundtrip (s : ClaudeSession) :
  session_wire_ok s -> session_of_json (session_to_json s) = Some s.
Proof.
  intros (Hc & ? & ? & ? & ?). unfold session_of_json, session_to_json.
  rewrite de_struct_object. cbn. json_simpl.
  rewrite !de_nullable_json_opt_str, as_f64_f64, !as_u64_u64 by done. by destruct s.
Qed.

(** A cost that is not a number is written as [null], which no longer reads
    as an [f64]: the entry is malformed. *)
Lemma session_nonfinite_unreadable (s : ClaudeSession) :
  f64_is_finite (ses_cost_usd s) = false -> session_of_json (session_to_json s) = None.
Proof.
  intros Hc. unfold session_of_json, session_to_json. rewrite de_struct_object. cbn.
  json_simpl. rewrite !de_nullable_json_opt_str. cbn.
  rewrite as_f64_kind; [done|]. by rewrite kind_f64, Hc.
Qed.

Lemma read_sessions_append m s :
  session_wire_ok s -> read_sessions (append_session m s) = read_sessions m ++ [s].
Proof.
  intros Hs. unfold read_sessions, append_session. rewrite read_entries_push.
  simpl. by rewrite session_roundtrip.
Qed.

Lemma read_sessions_foldl_append m ss :
  Forall session_wire_ok ss ->
  read_sessions (foldl append_session m ss) = read_sessions m ++ ss.
Proof.
  intros H. revert m. induction H as [|s ss Hs _ IH]; intros m; simpl; [by rewrite app_nil_r|].
  rewrite IH, read_sessions_append by done. by rewrite <- app_assoc.
Qed.

Lemma read_sessions_seed m ss :
  Forall session_wire_ok ss -> read_sessions (seed_sessions m ss) = ss.
Proof.
  intros H. unfold read_sessions, seed_sessions. rewrite read_entries_stamp_array.
  induction H as [|s ss Hs _ IH]; simpl; [done|].
  rewrite session_roundtrip by done. f_equal. apply IH.
Qed.

Lemma kind_append_session m s : kind (append_session m s) = KObject.
Proof. apply kind_push_entry. Qed.

Lemma jget_append_session_ne m s k :
  k <> SESSIONS_METADATA_KEY -> jget (append_session m s) k = jget m k.
Proof. intros H. by apply jget_push_entry_ne. Qed.

Lemma jget_foldl_append_session_ne m ss k :
  k <> SESSIONS_METADATA_KEY -> jget (foldl append_session m ss) k = jget m k.
Proof.
  intros H. revert m. induction ss as [|s ss IH]; intros m; simpl; [done|].
  by rewrite IH, jget_append_session_ne.
Qed.
End SessionFacts.

(** ** The property *)

(** Token counts are [u64]s, which the type guarantees. *)
Definition session_u64_ok (s : ClaudeSession) : Prop :=
  u64_ok (ses_input_tokens s) /\ u64_ok (ses_output_tokens s) /\
  u64_ok (cache_read_input_tokens s) /\ u64_ok (cache_creation_input_tokens s).

Section SessionProperty.
Context {X : Extern} {HX : ExternLaws X}.

Definition survives (s : ClaudeSession) : bool := f64_is_finite (ses_cost_usd s).

Lemma read_sessions_append_any m s :
  session_u64_ok s ->
  read_sessions (append_session m s) = read_sessions m ++ (if survives s then [s] else []).
Proof.
  intros Hs. unfold survives. destruct (f64_is_finite (ses_cost_usd s)) eqn:E.
  - apply read_sessions_append. by split.
  - unfold read_sessions, append_session. rewrite read_entries_push. simpl.
    by rewrite session_nonfinite_unreadable.
Qed.

(** The session ledger is append-only and lossless for finite costs.
    After any sequence of appends to any [metadata] (an object or not) the
    ledger reads back what it held, then the appended sessions in order,
    minus those whose cost is not a finite number, which are silently
    skipped; the totals are the running sums of exactly what reads back, so
    they do not depend on how the appends are grouped. *)
Theorem sessions_ledger_spec m ss :
  Forall session_u64_ok ss ->
  let kept := filter (fun s => survives s = true) ss in
  read_sessions (foldl append_session m ss) = read_sessions m ++ kept /\
  read_session_ids (foldl append_session m ss) = read_session_ids m ++ omap session_id kept /\
  ledger_totals (foldl append_session m ss) = foldl ledger_add (ledger_totals m) kept.
Proof.
  intros H kept.
  assert (E : read_sessions (foldl append_session m ss) = read_sessions m ++ kept).
  { unfold kept. clear kept. revert m. induction H as [|s ss Hs _ IH]; intros m; simpl.
    { by rewrite app_nil_r. }
    rewrite IH, read_sessions_append_any, filter_cons by done.
    destruct (survives s); simpl; by rewrite <- app_assoc. }
  split; [done|]. unfold read_session_ids, ledger_totals. rewrite E.
  by rewrite omap_app, foldl_app.
Qed.
End SessionProperty.

Module SessionModel.
Definition session (id : string) (cost : f64) : ClaudeSession :=
  mkClaudeSession "Plan" (Some id) true cost 10 20 30 40 "model" None true.
End SessionModel.

Lemma sessions_ledger_spec_witness :
  read_session_ids (X := JsonModel.extern)
    (foldl append_session jnull
       [SessionModel.session "s1" (f64_of_Z 2); SessionModel.session "s2" SpecFloat.S754_nan;
        SessionModel.session "s3" f64_zero]) = ["s1"; "s3"].
Proof.
  destruct (sessions_ledger_spec (X := JsonModel.extern) jnull
       [SessionModel.session "s1" (f64_of_Z 2); SessionModel.session "s2" SpecFloat.S754_nan;
        SessionModel.session "s3" f64_zero]) as (_ & -> & _); [repeat constructor; simpl; done|].
  reflexivity.
Defined.
