(* ===== verification/Invocations.v ===== *)
(** * The run-scoped ledger of node dispatches

    crates/engine-core/src/invocations.rs: one [NodeInvocation] per dispatch
    under [metadata.node_invocations], the sequence number of the next row, and
    the per-payload retention cap. *)

From S2P Require Import Prelude Json Contract Sessions.

Local Open Scope string_scope.
Local Open Scope list_scope.

Definition INVOCATIONS_METADATA_KEY : string := "node_invocations".
Definition RESOLVED_POLICY_IDENTITY : string := "ResolvedPolicy".
Definition NODE_INVOCATION_PAYLOAD_CAP_BYTES_FIELD : string :=
  "node_invocation_payload_cap_bytes".
Definition DEFAULT_PAYLOAD_CAP_BYTES : Z := 65536.

Section Invocations.
Context {X : Extern}.

Definition payload_cap_from_resolved_policy (ctx : TaskContext) : Z :=
  default DEFAULT_PAYLOAD_CAP_BYTES
    (v ← nodes ctx !! RESOLVED_POLICY_IDENTITY;
     f ← jget v NODE_INVOCATION_PAYLOAD_CAP_BYTES_FIELD;
     as_u64 f).

Definition truncation_marker (cap_bytes : Z) : value :=
  json_object [("__truncated__", jbool true); ("cap_bytes", ju64 cap_bytes)].

Definition truncate_payload (v : value) (cap_bytes : Z) : value * bool :=
  match byte_len v with
  | Some len => if decide (len <= cap_bytes)%Z then (v, false)
                else (truncation_marker cap_bytes, true)
  | None => (truncation_marker cap_bytes, true)
  end.

Definition append_invocation (metadata : value) (i : NodeInvocation) : value :=
  push_entry metadata INVOCATIONS_METADATA_KEY (invocation_to_json i).

Definition read_invocations (metadata : value) : list NodeInvocation :=
  read_entries invocation_of_json metadata INVOCATIONS_METADATA_KEY.

Definition next_seq (metadata : value) : Z :=
  Z.of_nat (length (read_invocations metadata)).
End Invocations.

Section InvocationFacts.
Context {X : Extern} {HX : ExternLaws X}.

Lemma read_invocations_append m i :
  invocation_wire_ok i -> read_invocations (append_invocation m i) = read_invocations m ++ [i].
Proof.
  intros Hi. unfold read_invocations, append_invocation. rewrite read_entries_push.
  simpl. by rewrite invocation_roundtrip.
Qed.

Lemma kind_append_invocation m i : kind (append_invocation m i) = KObject.
Proof. apply kind_push_entry. Qed.

Lemma jget_append_invocation_ne m i k :
  k <> INVOCATIONS_METADATA_KEY -> jget (append_invocation m i) k = jget m k.
Proof. intros H. by apply jget_push_entry_ne. Qed.

Lemma read_invocations_append_session m s :
  read_invocations (append_session m s) = read_invocations m.
Proof. unfold read_invocations, append_session. by apply read_entries_push_ne. Qed.

Lemma read_invocations_append_sessions m ss :
  read_invocations (foldl append_session m ss) = read_invocations m.
Proof.
  revert m. induction ss as [|s ss IH]; intros m; simpl; [done|].
  by rewrite IH, read_invocations_append_session.
Qed.

Lemma read_sessions_append_invocation m i :
  read_sessions (append_invocation m i) = read_sessions m.
Proof. unfold read_sessions, append_invocation. by apply read_entries_push_ne. Qed.

Lemma payload_cap_range ctx : u64_ok (payload_cap_from_resolved_policy ctx).
Proof.
  unfold payload_cap_from_resolved_policy.
  destruct (nodes ctx !! RESOLVED_POLICY_IDENTITY) as [v|]; simpl; [|by split].
  destruct (jget v _) as [f|]; simpl; [|by split].
  destruct (as_u64 f) eqn:E; simpl; [by eapply as_u64_range | by split].
Qed.

(** A truncated payload is never one of the caller's own values in disguise:
    it is the marker, and it says which cap cut it. *)
Lemma truncate_payload_spec v cap :
  truncate_payload v cap = (v, false) \/
  truncate_payload v cap = (truncation_marker cap, true) /\
    (forall len, byte_len v = Some len -> (cap < len)%Z).
Proof.
  unfold truncate_payload. destruct (byte_len v) as [len|]; [|right; naive_solver].
  case_decide; [by left|]. right. split; [done|]. intros ? [= ->]. lia.
Qed.

Lemma truncate_payload_kind v cap p b :
  truncate_payload v cap = (p, b) -> kind v <> KNull -> kind p <> KNull.
Proof.
  intros E Hv. destruct (truncate_payload_spec v cap) as [H|[H _]]; rewrite H in E;
    simplify_eq; [done|]. unfold truncation_marker. by rewrite kind_json_object.
Qed.
End InvocationFacts.

(** ** The property *)

Section InvocationProperty.
Context {X : Extern} {HX : ExternLaws X}.

(** Appending a row under the sequence number the ledger would give it. *)
Definition with_seq (i : NodeInvocation) (seq : Z) : NodeInvocation :=
  mkNodeInvocation (inv_id i) (inv_run_id i) (inv_campaign_id i) (inv_node i) seq
    (inv_started_at i) (inv_completed_at i) (inv_status i) (inv_error i) (inv_payload i)
    (inv_payload_truncated i) (inv_payload_cap_bytes i).
Definition append_next (m : value) (i : NodeInvocation) : value :=
  append_invocation m (with_seq i (next_seq m)).

Definition row_ok (i : NodeInvocation) : Prop :=
  u64_ok (inv_payload_cap_bytes i) /\ (forall p, inv_payload i = Some p -> kind p <> KNull).

Lemma read_append_next rows m :
  Forall row_ok rows -> (Z.of_nat (length (read_invocations m) + length rows) < u64_modulus)%Z ->
  read_invocations (foldl append_next m rows) =
    read_invocations m ++ imap (fun k i => with_seq i (Z.of_nat (length (read_invocations m) + k))) rows.
Proof.
  intros H. revert m. induction H as [|i rows [Hcap Hpay] _ IH]; intros m Hl; simpl in *;
    [by rewrite app_nil_r|].
  assert (Ea : read_invocations (append_next m i) = read_invocations m ++ [with_seq i (next_seq m)]).
  { unfold append_next. rewrite read_invocations_append; [done|].
    split; [|by split]. unfold next_seq, u64_ok. simpl. lia. }
  rewrite IH; rewrite ?Ea, ?length_app; simpl; [|lia].
  rewrite <- app_assoc. simpl. f_equal. f_equal.
  - unfold next_seq. do 2 f_equal. lia.
  - apply imap_ext. intros k i' _. simpl. do 2 f_equal. lia.
Qed.

(** The dispatch ledger numbers its rows without gaps.  Rows appended
    under [next_seq] read back in order, each the row that was appended, and
    their sequence numbers are 0, 1, 2, ... in that order. *)
Theorem invocation_seq_dense m rows :
  read_invocations m = [] -> Forall row_ok rows -> (Z.of_nat (length rows) < u64_modulus)%Z ->
  let l := read_invocations (foldl append_next m rows) in
  map inv_seq l = map Z.of_nat (seq 0 (length rows)) /\
  map (fun i => with_seq i 0) l = map (fun i => with_seq i 0) rows.
Proof.
  intros Hm His Hlen l.
  unfold l. rewrite read_append_next by (rewrite ?Hm; done). rewrite Hm. simpl. clear.
  split; apply list_eq; intros k; rewrite !list_lookup_fmap, ?list_lookup_imap.
  - destruct (rows !! k) as [i|] eqn:Ek; simpl.
    + apply lookup_lt_Some in Ek. by rewrite lookup_seq_lt.
    + apply lookup_ge_None in Ek. by rewrite lookup_seq_ge.
  - by destruct (rows !! k).
Qed.
End InvocationProperty.

Lemma invocation_seq_dense_witness :
  let row n : @NodeInvocation JsonModel.extern :=
    mkNodeInvocation (X := JsonModel.extern) "id" None None n 7 0%Z 1%Z InvSuccess None
      (Some (jstr "out")) false 65536 in
  map inv_seq (read_invocations (foldl append_next jnull [row "a"; row "b"; row "c"])) = [0; 1; 2]%Z.
Proof.
  intros row.
  destruct (invocation_seq_dense (X := JsonModel.extern) jnull [row "a"; row "b"; row "c"])
    as [-> _]; [reflexivity| |done|reflexivity].
  repeat constructor; simpl; try done; by intros ? [= <-].
Defined.
