(* ===== verification/Budget.v ===== *)
(** * Spend accounting and the pre-dispatch budget gate

    crates/engine-core/src/budget.rs: [BudgetLedger] (one run, folded per node),
    [CampaignLedger] (one chain, folded per step) and their shared cap
    evaluation; with the two readers of crates/engine-core/src/workflow.rs that
    pull a node's cost and cache tokens out of its output. *)

From Stdlib Require Import SpecFloat.
From S2P Require Import Prelude Json Contract.

Local Open Scope string_scope.
Local Open Scope list_scope.

Record Budget := mkBudget {
  max_total_tokens : option Z;
  max_cost_usd : option f64
}.

Inductive BudgetHaltReason :=
| TotalTokens (spent limit : Z)
| CostUsd (spent limit : f64).

Definition cap_name (r : BudgetHaltReason) : string :=
  match r with TotalTokens _ _ => "max_total_tokens" | CostUsd _ _ => "max_cost_usd" end.

Inductive BudgetDecision := Allow | Halt (r : BudgetHaltReason).

Definition evaluate_budget (budget : option Budget) (total_tokens : Z) (total_cost_usd : f64)
  : BudgetDecision :=
  match budget with
  | None => Allow
  | Some b =>
      match max_total_tokens b with
      | Some limit =>
          if (limit <=? total_tokens)%Z then Halt (TotalTokens total_tokens limit)
          else match max_cost_usd b with
               | Some limit => if f64_ge total_cost_usd limit
                               then Halt (CostUsd total_cost_usd limit) else Allow
               | None => Allow
               end
      | None =>
          match max_cost_usd b with
          | Some limit => if f64_ge total_cost_usd limit
                          then Halt (CostUsd total_cost_usd limit) else Allow
          | None => Allow
          end
      end
  end.

Record BudgetLedger := mkBudgetLedger {
  total_tokens : Z;
  total_cost_usd : f64;
  has_unknown_cost_node : bool
}.

(** [BudgetLedger::default] *)
Definition ledger_new : BudgetLedger := mkBudgetLedger 0 f64_zero false.

Definition from_parts (tokens : Z) (cost : f64) : BudgetLedger := mkBudgetLedger tokens cost false.

(** [usage.input_tokens.unwrap_or(0) + usage.output_tokens.unwrap_or(0)] *)
Definition usage_total (u : Usage) : Z :=
  u64_add (default 0%Z (input_tokens u)) (default 0%Z (output_tokens u)).

Definition record (l : BudgetLedger) (u : option Usage) (cost_usd : option f64)
    (cache_tokens : option Z) : BudgetLedger :=
  let l := match u with
           | Some u => mkBudgetLedger (u64_add (total_tokens l) (usage_total u))
                         (total_cost_usd l) (has_unknown_cost_node l)
           | None => l end in
  let l := match cache_tokens with
           | Some c => mkBudgetLedger (u64_add (total_tokens l) c)
                         (total_cost_usd l) (has_unknown_cost_node l)
           | None => l end in
  match cost_usd with
  | Some c => mkBudgetLedger (total_tokens l) (f64_add (total_cost_usd l) c)
                (has_unknown_cost_node l)
  | None => l
  end.

Definition check (l : BudgetLedger) (budget : option Budget) : BudgetDecision :=
  evaluate_budget budget (total_tokens l) (total_cost_usd l).

Record CampaignLedger := mkCampaignLedger {
  camp_total_tokens : Z;
  camp_total_cost_usd : f64;
  has_unknown_cost_step : bool
}.

Definition campaign_new : CampaignLedger := mkCampaignLedger 0 f64_zero false.

Definition record_step (l : CampaignLedger) (cost_usd : option f64) (tokens : Z) : CampaignLedger :=
  let t := u64_add (camp_total_tokens l) tokens in
  match cost_usd with
  | Some c => mkCampaignLedger t (f64_add (camp_total_cost_usd l) c) (has_unknown_cost_step l)
  | None => mkCampaignLedger t (camp_total_cost_usd l) true
  end.

Definition campaign_check (l : CampaignLedger) (budget : option Budget) : BudgetDecision :=
  evaluate_budget budget (camp_total_tokens l) (camp_total_cost_usd l).

Section Budget.
Context {X : Extern} {HO : HashOrder}.

Definition halt_reason_to_json (r : BudgetHaltReason) : value :=
  match r with
  | TotalTokens spent limit => json_object
      [("cap", jstr (cap_name r)); ("spent", ju64 spent); ("limit", ju64 limit)]
  | CostUsd spent limit => json_object
      [("cap", jstr (cap_name r)); ("spent", jf64 spent); ("limit", jf64 limit)]
  end.

Definition node_cost_usd (ctx : TaskContext) (identity : string) : option f64 :=
  n ← nodes ctx !! identity; c ← jget n "cost_usd"; as_f64 c.

Definition node_cache_tokens (ctx : TaskContext) (identity : string) : option Z :=
  node ← nodes ctx !! identity;
  let cache_read := jget node "cache_read_input_tokens" ≫= as_u64 in
  let cache_creation := jget node "cache_creation_input_tokens" ≫= as_u64 in
  match cache_read, cache_creation with
  | None, None => None
  | a, b => Some (u64_add (default 0%Z a) (default 0%Z b))
  end.

Definition from_context (ctx : TaskContext) : BudgetLedger :=
  let usage_tokens :=
    foldl u64_add 0%Z (map usage_total (omap usage (hm_values (node_runs ctx)))) in
  let '(cost, cache, unknown) :=
    foldl (fun acc identity =>
      let '(cost, cache, unknown) := acc in
      let '(cost, unknown) :=
        match node_cost_usd ctx identity with
        | Some c => (f64_add cost c, unknown)
        | None => (cost, true)
        end in
      let cache := match node_cache_tokens ctx identity with
                   | Some t => u64_add cache t | None => cache end in
      (cost, cache, unknown)) (f64_zero, 0%Z, false) (hm_keys (nodes ctx)) in
  mkBudgetLedger (u64_add usage_tokens cache) cost unknown.

(** What [Workflow::walk] folds after a node has completed. *)
Definition record_node (ctx : TaskContext) (l : BudgetLedger) (identity : string) : BudgetLedger :=
  match node_runs ctx !! identity with
  | Some run => record l (usage run) (node_cost_usd ctx identity) (node_cache_tokens ctx identity)
  | None => l
  end.
End Budget.

(** ** Token arithmetic *)

(** Tokens folded in by one [record] call. *)
Definition record_tokens (u : option Usage) (cache : option Z) : Z :=
  from_option usage_total 0%Z u + default 0%Z cache.

Lemma u64_add_mod a b c : u64_add (u64_add a b) c = ((a + b + c) mod u64_modulus)%Z.
Proof. unfold u64_add. apply Zplus_mod_idemp_l. Qed.

Lemma foldl_u64_add ts a : foldl u64_add (a mod u64_modulus)%Z ts
  = ((a + foldr Z.add 0 ts) mod u64_modulus)%Z.
Proof.
  revert a. induction ts as [|t ts IH]; intros a; simpl; [by rewrite Z.add_0_r|].
  unfold u64_add at 2. rewrite Zplus_mod_idemp_l, IH. f_equal. lia.
Qed.

Lemma record_total_tokens l u c t :
  u64_ok (total_tokens l) ->
  total_tokens (record l u c t) = ((total_tokens l + record_tokens u t) mod u64_modulus)%Z.
Proof.
  intros H. unfold record, record_tokens.
  destruct u, t, c; simpl; rewrite ?u64_add_mod; unfold u64_add;
    rewrite ?Z.add_0_r; try (f_equal; lia); by rewrite Z.mod_small.
Qed.

Lemma record_u64_ok l u c t : u64_ok (total_tokens l) -> u64_ok (total_tokens (record l u c t)).
Proof.
  intros H. rewrite record_total_tokens by done. apply Z.mod_pos_bound. reflexivity.
Qed.

Lemma record_has_unknown l u c t : has_unknown_cost_node (record l u c t) = has_unknown_cost_node l.
Proof. by destruct u, t, c. Qed.

Lemma total_tokens_add_ok (a b : Z) :
  u64_ok a -> (0 <= b)%Z -> (a + b < u64_modulus)%Z -> ((a + b) mod u64_modulus)%Z = (a + b)%Z.
Proof. unfold u64_ok. intros. apply Z.mod_small. lia. Qed.

Definition halted (d : BudgetDecision) : bool := match d with Allow => false | Halt _ => true end.

(** ** Properties *)

Definition cap_tokens (b : option Budget) : option Z := b ≫= max_total_tokens.
Definition cap_cost (b : option Budget) : option f64 := b ≫= max_cost_usd.

(** The gate halts exactly when a declared cap is reached ([>=], not past
    it), reports the spend and the cap that stopped it, and looks at tokens
    before cost.  With no cap reached it allows; a cost or a cost cap that is
    not a number never halts. *)
Theorem budget_gate_spec l b :
  match check l b with
  | Allow =>
      (forall t, cap_tokens b = Some t -> (total_tokens l < t)%Z) /\
      (forall c, cap_cost b = Some c -> SFleb c (total_cost_usd l) = false)
  | Halt (TotalTokens spent limit) =>
      spent = total_tokens l /\ cap_tokens b = Some limit /\ (limit <= spent)%Z
  | Halt (CostUsd spent limit) =>
      spent = total_cost_usd l /\ cap_cost b = Some limit /\ SFleb limit spent = true /\
      spent <> S754_nan /\ limit <> S754_nan /\
      (forall t, cap_tokens b = Some t -> (total_tokens l < t)%Z)
  end.
Proof.
  assert (Hnan : forall x y, SFleb x y = true -> y <> S754_nan /\ x <> S754_nan).
  { intros x y H. split; intros ->; [destruct x as [| | |]|]; done. }
  unfold check, evaluate_budget, cap_tokens, cap_cost, f64_ge.
  destruct b as [[[t|] [c|]]|]; simpl;
    try (destruct (Z.leb_spec t (total_tokens l)));
    try (destruct (SFleb c (total_cost_usd l)) eqn:E); naive_solver lia.
Qed.

(** The folds of a list of [record] arguments. *)
Definition record_all (l : BudgetLedger) (rs : list (option Usage * option f64 * option Z)) : BudgetLedger :=
  foldl (fun l r => record l r.1.1 r.1.2 r.2) l rs.
Definition tokens_of (rs : list (option Usage * option f64 * option Z)) : Z :=
  foldr (fun r n => record_tokens r.1.1 r.2 + n)%Z 0%Z rs.

Lemma record_all_tokens l rs :
  u64_ok (total_tokens l) ->
  total_tokens (record_all l rs) = ((total_tokens l + tokens_of rs) mod u64_modulus)%Z.
Proof.
  revert l. induction rs as [|r rs IH]; intros l H; simpl.
  { rewrite Z.add_0_r. symmetry. by apply Z.mod_small. }
  change (record_all l (r :: rs)) with (record_all (record l r.1.1 r.1.2 r.2) rs).
  rewrite IH by by apply record_u64_ok. rewrite record_total_tokens by done.
  rewrite Zplus_mod_idemp_l. f_equal. lia.
Qed.

(** What a record brings in is never negative: usages are [u64]s. *)
Lemma usage_total_nonneg u : (0 <= usage_total u)%Z.
Proof. apply u64_add_ok. Qed.

Definition record_ok (r : option Usage * option f64 * option Z) : Prop :=
  from_option u64_ok True r.2.

Lemma tokens_of_nonneg rs : Forall record_ok rs -> (0 <= tokens_of rs)%Z.
Proof.
  induction 1 as [|[[u c] t] rs Hr _ IH]; simpl; [lia|].
  assert (0 <= from_option usage_total 0%Z u)%Z by (destruct u; simpl; [apply usage_total_nonneg|lia]).
  assert (0 <= default 0%Z t)%Z by (destruct t; simpl in *; [apply Hr|lia]).
  unfold record_tokens. lia.
Qed.

(** A token halt is permanent as long as the counter does not wrap.  Once
    the gate has halted on tokens it halts after every further sequence of
    records whose tokens keep the sum under 2^64; the counter itself is the sum
    modulo 2^64 whatever the order. *)
Theorem token_halt_permanent l rs limit cost :
  u64_ok (total_tokens l) -> Forall record_ok rs ->
  (limit <= total_tokens l)%Z -> (total_tokens l + tokens_of rs < u64_modulus)%Z ->
  total_tokens (record_all l rs) = (total_tokens l + tokens_of rs)%Z /\
  halted (check (record_all l rs) (Some (mkBudget (Some limit) cost))) = true.
Proof.
  intros Hl Hrs Hle Hsum.
  pose proof (tokens_of_nonneg rs Hrs) as Hn. unfold u64_ok in Hl.
  assert (E : total_tokens (record_all l rs) = (total_tokens l + tokens_of rs)%Z)
    by (rewrite record_all_tokens by done; apply Z.mod_small; lia).
  split; [done|]. unfold check, evaluate_budget. simpl. rewrite E.
  by rewrite (proj2 (Z.leb_le _ _)) by lia.
Qed.

Lemma token_halt_permanent_witness :
  halted (check (record_all (from_parts 100 f64_zero) [(Some (mkUsage (Some 7%Z) (Some 3%Z) "m"), None, Some 5%Z)])
            (Some (mkBudget (Some 100%Z) None))) = true.
Proof.
  apply (token_halt_permanent (from_parts 100 f64_zero)
           [(Some (mkUsage (Some 7%Z) (Some 3%Z) "m"), None, Some 5%Z)] 100 None).
  - by split.
  - repeat constructor; simpl; done.
  - simpl; lia.
  - vm_compute. reflexivity.
Defined.

(** Without the bound it is not: a halted ledger can be wrapped open again. *)
Example token_wrap_reopens :
  let l := from_parts u64_max f64_zero in
  let b := Some (mkBudget (Some 10%Z) None) in
  halted (check l b) = true /\
  check (record l (Some (mkUsage (Some 1%Z) None "m")) None None) b = Allow.
Proof. vm_compute. done. Qed.

(** ** A ledger rebuilt from a context *)

Section FromContext.
Context {X : Extern} {HO : HashOrder}.

Definition cache_of (ctx : TaskContext) (k : string) : Z := default 0%Z (node_cache_tokens ctx k).
Definition usage_of (ctx : TaskContext) (k : string) : Z :=
  from_option usage_total 0%Z (node_runs ctx !! k ≫= usage).

Definition zsum (l : list Z) : Z := foldr Z.add 0%Z l.

Lemma zsum_app l l' : zsum (l ++ l') = (zsum l + zsum l')%Z.
Proof. induction l as [|x l IH]; simpl; [done|]. rewrite IH. lia. Qed.

#[local] Instance zsum_perm : Proper (Permutation ==> eq) zsum.
Proof. intros l l' H. unfold zsum. induction H; simpl; lia. Qed.

(** The three accumulators of [from_context]'s loop over outputs. *)
Definition context_step (ctx : TaskContext) (acc : f64 * Z * bool) (identity : string) : f64 * Z * bool :=
  let '(cost, cache, unknown) := acc in
  let '(cost, unknown) :=
    match node_cost_usd ctx identity with
    | Some c => (f64_add cost c, unknown)
    | None => (cost, true)
    end in
  let cache := match node_cache_tokens ctx identity with
               | Some t => u64_add cache t | None => cache end in
  (cost, cache, unknown).

Lemma context_loop_cache ctx ks acc :
  u64_ok acc.1.2 ->
  (foldl (context_step ctx) acc ks).1.2 = ((acc.1.2 + zsum (map (cache_of ctx) ks)) mod u64_modulus)%Z.
Proof.
  revert acc. induction ks as [|k ks IH]; intros [[cost cache] unk] H;
    cbn [foldl map zsum foldr fst snd] in *.
  { rewrite Z.add_0_r. symmetry. by apply Z.mod_small. }
  assert (E : (context_step ctx (cost, cache, unk) k).1.2 = u64_add cache (cache_of ctx k)).
  { unfold context_step, cache_of. destruct (node_cost_usd ctx k), (node_cache_tokens ctx k);
      simpl; rewrite ?u64_add_0_r by done; done. }
  rewrite IH; rewrite E; [|apply u64_add_ok].
  unfold u64_add. rewrite Zplus_mod_idemp_l. unfold zsum. f_equal. lia.
Qed.

Lemma usage_sum_keys ctx ks :
  NoDup ks -> (forall k, k ∈ ks <-> is_Some (node_runs ctx !! k)) ->
  zsum (map usage_total (omap usage (hm_values (node_runs ctx)))) = zsum (map (usage_of ctx) ks).
Proof.
  intros Hnd Hks.
  assert (Hp : hm_keys (node_runs ctx) ≡ₚ ks).
  { apply NoDup_Permutation; [apply hm_keys_NoDup|done|]. intros k. by rewrite hm_keys_elem. }
  rewrite <- Hp. unfold hm_values. clear. induction (hm_keys (node_runs ctx)) as [|k l IH]; [done|].
  cbn [omap list_omap map zsum foldr]. fold (zsum (map (usage_of ctx) l)). rewrite <- IH.
  unfold usage_of. destruct (node_runs ctx !! k) as [r|]; simpl; [|done].
  by destruct (usage r).
Qed.

Lemma from_context_total ctx :
  total_tokens (from_context ctx) =
    ((zsum (map usage_total (omap usage (hm_values (node_runs ctx)))) +
      zsum (map (cache_of ctx) (hm_keys (nodes ctx)))) mod u64_modulus)%Z.
Proof.
  pose proof (context_loop_cache ctx (hm_keys (nodes ctx)) (f64_zero, 0%Z, false)) as H.
  unfold from_context. fold (context_step ctx).
  destruct (foldl _ _ _) as [[cost cache] unk]. simpl in *. rewrite H by done.
  pose proof (foldl_u64_add (map usage_total (omap usage (hm_values (node_runs ctx)))) 0) as Hf.
  rewrite Zmod_0_l in Hf. rewrite Hf. unfold u64_add. by rewrite <- Zplus_mod.
Qed.

Lemma cache_sum_keys ctx ks :
  NoDup ks -> (forall k, is_Some (nodes ctx !! k) -> k ∈ ks) ->
  zsum (map (cache_of ctx) (hm_keys (nodes ctx))) = zsum (map (cache_of ctx) ks).
Proof.
  intros Hnd Hks.
  assert (Hp : hm_keys (nodes ctx) ≡ₚ filter (fun k => is_Some (nodes ctx !! k)) ks).
  { apply NoDup_Permutation; [apply hm_keys_NoDup|by apply NoDup_filter|].
    intros k. rewrite hm_keys_elem, list_elem_of_filter. naive_solver. }
  rewrite Hp. clear. induction ks as [|k ks IH]; [done|]. rewrite filter_cons.
  case_decide as E; simpl; [by rewrite IH|]. rewrite IH.
  unfold cache_of at 2, node_cache_tokens. apply eq_None_not_Some in E. by rewrite E.
Qed.

Lemma record_node_tokens ctx l k :
  is_Some (node_runs ctx !! k) -> u64_ok (total_tokens l) ->
  total_tokens (record_node ctx l k) = ((total_tokens l + (usage_of ctx k + cache_of ctx k)) mod u64_modulus)%Z.
Proof.
  intros [r Hr] Hl. unfold record_node, usage_of, cache_of. rewrite Hr. simpl.
  by rewrite record_total_tokens.
Qed.

Lemma record_nodes_tokens ctx l ks :
  Forall (fun k => is_Some (node_runs ctx !! k)) ks -> u64_ok (total_tokens l) ->
  total_tokens (foldl (record_node ctx) l ks) =
    ((total_tokens l + (zsum (map (usage_of ctx) ks) + zsum (map (cache_of ctx) ks))) mod u64_modulus)%Z.
Proof.
  intros H. revert l. induction H as [|k ks Hk _ IH]; intros l Hl; simpl.
  { rewrite Z.add_0_r. symmetry. by apply Z.mod_small. }
  rewrite IH; rewrite record_node_tokens by done; [|apply Z.mod_pos_bound; reflexivity].
  rewrite Zplus_mod_idemp_l. unfold zsum. f_equal. lia.
Qed.

(** Rebuilding the ledger loses no tokens.  When every node of a context
    ran once and every output belongs to a node that ran, the token total
    [from_context] reconstructs is the one the walk had accumulated by
    recording the nodes one by one, in whatever order they ran and whatever
    order the hash maps iterate in. *)
Theorem from_context_tokens ctx ids :
  NoDup ids -> (forall k, k ∈ ids <-> is_Some (node_runs ctx !! k)) ->
  (forall k, is_Some (nodes ctx !! k) -> k ∈ ids) ->
  total_tokens (from_context ctx) = total_tokens (foldl (record_node ctx) ledger_new ids).
Proof.
  intros Hnd Hruns Hnodes. rewrite from_context_total.
  rewrite (usage_sum_keys ctx ids), (cache_sum_keys ctx ids) by done.
  rewrite record_nodes_tokens; [|by apply Forall_forall; intros k; rewrite Hruns|by split].
  done.
Qed.
End FromContext.

(** The concrete context of the witness: two nodes, the second with cache tokens. *)
Module BudgetModel.
Import JsonModel.
Definition run_of (i o : Z) : @NodeRun extern :=
  mkNodeRun Success None None None None (Some (mkUsage (Some i) (Some o) "m")).
Definition ctx : @TaskContext extern :=
  mkTaskContext jnull
    (<["b" := json_object [("cost_usd", jf64 f64_zero); ("cache_read_input_tokens", ju64 40)]]>
      (<["a" := jempty]> ∅))
    jempty (<["b" := run_of 3 4]> (<["a" := run_of 1 2]> ∅)).
End BudgetModel.

Lemma from_context_tokens_witness :
  total_tokens (from_context BudgetModel.ctx) = 50%Z.
Proof.
  rewrite (from_context_tokens BudgetModel.ctx ["b"; "a"]).
  - reflexivity.
  - repeat constructor; set_solver.
  - intros k. simpl. rewrite !lookup_insert_is_Some', lookup_empty. unfold is_Some. set_solver.
  - intros k. simpl. rewrite !lookup_insert_is_Some', lookup_empty. unfold is_Some. set_solver.
Defined.
