(* ===== verification/Markers.v ===== *)
(** * Run markers: the metadata spellings of a run's outcome

    - [CancellationToken], [stamp_cancelled]: crates/engine-core/src/cancellation.rs
    - [PauseSignal], the suspension marker: crates/engine-core/src/suspend.rs
    - completion and failure markers, [derive_terminal_status]:
      crates/engine-core/src/completion.rs
    - budget-halt and run-id stamps: crates/engine-core/src/workflow.rs

    Writers that index into an existing marker return an [option]: [None] is
    the panic of [IndexMut] on a value that is neither an object nor [null]. *)

From S2P Require Import Prelude Json Contract Budget.

Local Open Scope string_scope.
Local Open Scope list_scope.

Definition CANCELLATION_METADATA_KEY : string := "cancellation".
Definition SUSPENSION_METADATA_KEY : string := "suspension".
Definition COMPLETION_METADATA_KEY : string := "completion".
Definition FAILURE_METADATA_KEY : string := "failure".
Definition BUDGET_METADATA_KEY : string := "budget".
Definition RUN_ID_METADATA_KEY : string := "run_id".
(** [workflows::orchestration::graph::NODE_NAME] *)
Definition ORCHESTRATION_NODE_NAME : string := "OrchestrationRunNode".

(** ** Flags *)

(** The shared flag behind [CancellationToken]: every clone sees one value. *)
Module CancellationToken.
Definition t : Type := bool.
Definition new : t := false.
Definition cancel (_ : t) : t := true.
Definition is_cancelled (s : t) : bool := s.
End CancellationToken.

Module PauseSignal.
Definition t : Type := bool.
Definition new : t := false.
Definition pause (_ : t) : t := true.
Definition clear (_ : t) : t := false.
Definition is_paused (s : t) : bool := s.
End PauseSignal.

(** ** Suspension *)

Inductive SuspendReason := OperatorPause | SuspendNode | HeavyWorkQueue.

#[export] Instance SuspendReason_eq_dec : EqDecision SuspendReason.
Proof. solve_decision. Defined.

Record LedgerSnapshot := mkLedgerSnapshot { snap_total_tokens : Z; snap_total_cost_usd : f64 }.

Record Suspension := mkSuspension {
  s_resume_at : string;
  s_reason : SuspendReason;
  s_origin_identity : option string;
  s_ledger : BudgetLedger
}.

Record SuspensionState := mkSuspensionState {
  suspended : bool;
  resume_at : option string;
  reason : option SuspendReason;
  origin_identity : option string;
  ledger : option LedgerSnapshot;
  resume_count : Z;
  requested : bool
}.

Section Markers.
Context {X : Extern} {HO : HashOrder}.
Implicit Types metadata : value.

Definition stamp_cancelled (now : instant) metadata : value :=
  jset (ensure_object metadata) CANCELLATION_METADATA_KEY
    (json_object [("cancelled", jbool true); ("at", jstr (rfc3339 now))]).

Definition stamp_budget_halt metadata (r : BudgetHaltReason) : value :=
  jset (ensure_object metadata) BUDGET_METADATA_KEY
    (json_object [("halted", jbool true); ("reason", halt_reason_to_json r)]).

Definition stamp_run_id metadata (run_id : uuid) : value :=
  jset (ensure_object metadata) RUN_ID_METADATA_KEY (jstr (uuid_to_string run_id)).

Definition read_run_id metadata : option string :=
  v ← jget metadata RUN_ID_METADATA_KEY; as_str v.

Definition read_campaign_id (ctx : TaskContext) : option string :=
  match jget (event ctx) "campaign_id" ≫= as_str with
  | Some c => Some c
  | None => node ← nodes ctx !! ORCHESTRATION_NODE_NAME;
            v ← jget node "campaign_id"; as_str v
  end.

(** serde's [rename_all = "snake_case"] on [SuspendReason]. *)
Definition reason_to_json (r : SuspendReason) : value :=
  jstr match r with
       | OperatorPause => "operator_pause"
       | SuspendNode => "suspend_node"
       | HeavyWorkQueue => "heavy_work_queue"
       end.

Definition reason_of_json (v : value) : option SuspendReason :=
  s ← enum_variant v;
  if String.eqb s "operator_pause" then Some OperatorPause
  else if String.eqb s "suspend_node" then Some SuspendNode
  else if String.eqb s "heavy_work_queue" then Some HeavyWorkQueue else None.

Definition snapshot_to_json (l : LedgerSnapshot) : value := json_object
  [("total_tokens", ju64 (snap_total_tokens l)); ("total_cost_usd", jf64 (snap_total_cost_usd l))].

Definition snapshot_of_json (v : value) : option LedgerSnapshot :=
  s ← de_struct ["total_tokens"; "total_cost_usd"] v;
  match s with
  | [ft; fc] => t ← de_req as_u64 ft; c ← de_req as_f64 fc; Some (mkLedgerSnapshot t c)
  | _ => None
  end.

Definition suspension_fields : list string :=
  ["suspended"; "resume_at"; "reason"; "origin_identity"; "ledger"; "resume_count"; "requested"].

Definition suspension_of_json (v : value) : option SuspensionState :=
  s ← de_struct suspension_fields v;
  match s with
  | [fs; fat; freason; forigin; fledger; fcount; freq] =>
      sus ← de_req as_bool fs;
      at_ ← de_opt as_str fat;
      rsn ← de_opt reason_of_json freason;
      org ← de_opt as_str forigin;
      led ← de_opt snapshot_of_json fledger;
      cnt ← de_default 0%Z de_u32 fcount;
      req ← de_default false as_bool freq;
      Some (mkSuspensionState sus at_ rsn org led cnt req)
  | _ => None
  end.

Definition read_suspension metadata : option SuspensionState :=
  v ← jget metadata SUSPENSION_METADATA_KEY; suspension_of_json v.

Definition is_suspended metadata : bool :=
  from_option suspended false (read_suspension metadata).

Definition snapshot_of_ledger (l : BudgetLedger) : LedgerSnapshot :=
  mkLedgerSnapshot (total_tokens l) (total_cost_usd l).

Definition suspended_marker (now : instant) (count : Z) (s : Suspension) : value := json_object
  [("suspended", jbool true);
   ("at", jstr (rfc3339 now));
   ("resume_at", jstr (s_resume_at s));
   ("reason", reason_to_json (s_reason s));
   ("origin_identity", json_opt jstr (s_origin_identity s));
   ("ledger", snapshot_to_json (snapshot_of_ledger (s_ledger s)));
   ("resume_count", ju64 count);
   ("requested", jbool false)].

Definition stamp_suspended (now : instant) metadata (s : Suspension) : value :=
  let metadata := ensure_object metadata in
  let existing := from_option resume_count 0%Z (read_suspension metadata) in
  jset metadata SUSPENSION_METADATA_KEY (suspended_marker now existing s).

Definition stamp_resumed metadata : option value :=
  let metadata := ensure_object metadata in
  let count := from_option resume_count 0%Z (read_suspension metadata) in
  match jget metadata SUSPENSION_METADATA_KEY with
  | Some existing =>
      u ← index_set existing "suspended" (jbool false);
      u ← index_set u "requested" (jbool false);
      u ← index_set u "resume_count" (ju64 (u32_add count 1));
      Some (jset metadata SUSPENSION_METADATA_KEY u)
  | None => Some metadata
  end.

Definition fresh_request (pending : value) : value := json_object
  [("suspended", jbool false); ("at", jnull); ("resume_at", jnull); ("reason", jnull);
   ("origin_identity", jnull); ("ledger", jnull); ("resume_count", ju64 0);
   ("requested", jbool true); ("pending_reason", pending)].

Definition request_suspension metadata : option value :=
  let metadata := ensure_object metadata in
  match jget metadata SUSPENSION_METADATA_KEY with
  | Some existing =>
      u ← index_set existing "requested" (jbool true);
      u ← index_set u "pending_reason" jnull;
      Some (jset metadata SUSPENSION_METADATA_KEY u)
  | None => Some (jset metadata SUSPENSION_METADATA_KEY (fresh_request jnull))
  end.

Definition request_suspension_with_reason metadata (r : SuspendReason) : option value :=
  let metadata := ensure_object metadata in
  match jget metadata SUSPENSION_METADATA_KEY with
  | Some existing =>
      u ← index_set existing "requested" (jbool true);
      u ← index_set u "pending_reason" (reason_to_json r);
      Some (jset metadata SUSPENSION_METADATA_KEY u)
  | None => Some (jset metadata SUSPENSION_METADATA_KEY (fresh_request (reason_to_json r)))
  end.

Definition suspension_requested metadata : bool :=
  default false (v ← jget metadata SUSPENSION_METADATA_KEY; r ← jget v "requested"; as_bool r).

Definition requested_reason metadata : SuspendReason :=
  default SuspendNode
    (v ← jget metadata SUSPENSION_METADATA_KEY; r ← jget v "pending_reason"; reason_of_json r).

(** ** Completion *)

Definition stamp_completion (now : instant) metadata (st : string) : value :=
  jset (ensure_object metadata) COMPLETION_METADATA_KEY
    (json_object [("terminal", jbool true); ("status", jstr st); ("at", jstr (rfc3339 now))]).

Definition stamp_failure metadata (message : string) : value :=
  jset (ensure_object metadata) FAILURE_METADATA_KEY
    (json_object [("failed", jbool true); ("error", jstr message)]).

(** [metadata.get(k1).and_then(|v| v.get(k2)).and_then(as_bool).unwrap_or(false)] *)
Definition flag metadata (k1 k2 : string) : bool :=
  default false (v ← jget metadata k1; f ← jget v k2; as_bool f).

Definition is_complete metadata : bool := flag metadata COMPLETION_METADATA_KEY "terminal".

Definition derive_terminal_status (snapshot : TaskContext) : string :=
  if flag (metadata snapshot) CANCELLATION_METADATA_KEY "cancelled" then "cancelled"
  else if flag (metadata snapshot) BUDGET_METADATA_KEY "halted" then "budget_halted"
  else if flag (metadata snapshot) FAILURE_METADATA_KEY "failed"
          || existsb (fun run => bool_decide (status run = Failed))
               (hm_values (node_runs snapshot))
  then "failed"
  else "succeeded".
End Markers.

Arguments snapshot_of_ledger : simpl never.
Arguments snapshot_to_json : simpl never.
Arguments reason_to_json : simpl never.

(** ** Facts *)

Section MarkerFacts.
Context {X : Extern} {HX : ExternLaws X} {HO : HashOrder}.

Lemma reason_roundtrip r : reason_of_json (reason_to_json r) = Some r.
Proof. unfold reason_of_json, reason_to_json. json_simpl. by destruct r. Qed.

Lemma kind_reason_to_json r : kind (reason_to_json r) = KString.
Proof. apply kind_str. Qed.

Lemma snapshot_roundtrip l :
  u64_ok (snap_total_tokens l) -> f64_is_finite (snap_total_cost_usd l) = true ->
  snapshot_of_json (snapshot_to_json l) = Some l.
Proof.
  intros Ht Hc. unfold snapshot_of_json, snapshot_to_json. rewrite de_struct_object. cbn.
  rewrite as_u64_u64, as_f64_f64 by done. by destruct l.
Qed.

Lemma de_u32_ju64 n : (0 <= n < u32_modulus)%Z -> de_u32 (ju64 n) = Some n.
Proof.
  intros H. unfold de_u32. rewrite as_u64_u64; simpl.
  - rewrite decide_True by lia. done.
  - unfold u64_ok, u64_modulus, u32_modulus in *. lia.
Qed.

Lemma de_u32_range v n : de_u32 v = Some n -> (0 <= n < u32_modulus)%Z.
Proof.
  unfold de_u32. destruct (as_u64 v) as [m|] eqn:E; simpl; [|done].
  case_decide; intros; simplify_eq. apply as_u64_range in E. destruct E. lia.
Qed.

(** The typed marker a suspended run carries. *)
Definition state_of (count : Z) (s : Suspension) : SuspensionState :=
  mkSuspensionState true (Some (s_resume_at s)) (Some (s_reason s)) (s_origin_identity s)
    (Some (snapshot_of_ledger (s_ledger s))) count false.

Definition ledger_wire_ok (l : BudgetLedger) : Prop :=
  u64_ok (total_tokens l) /\ f64_is_finite (total_cost_usd l) = true.

Lemma de_snapshot_opt l :
  ledger_wire_ok l ->
  de_nullable snapshot_of_json (snapshot_to_json (snapshot_of_ledger l))
    = Some (Some (snapshot_of_ledger l)).
Proof.
  intros [Ht Hc]. apply de_nullable_some; [|by apply snapshot_roundtrip].
  unfold snapshot_to_json. by rewrite kind_json_object.
Qed.

Lemma de_reason_opt r : de_nullable reason_of_json (reason_to_json r) = Some (Some r).
Proof. apply de_nullable_some; [by rewrite kind_reason_to_json | apply reason_roundtrip]. Qed.

Lemma de_str_opt s : de_nullable as_str (jstr s) = Some (Some s).
Proof. apply (de_nullable_json_opt_str (Some s)). Qed.

Lemma suspended_marker_read now count s :
  ledger_wire_ok (s_ledger s) -> (0 <= count < u32_modulus)%Z ->
  suspension_of_json (suspended_marker now count s) = Some (state_of count s).
Proof.
  intros Hl Hc. unfold suspension_of_json, suspended_marker. rewrite de_struct_object. cbn.
  json_simpl. rewrite de_str_opt, de_reason_opt, de_nullable_json_opt_str.
  rewrite de_snapshot_opt, de_u32_ju64 by done. done.
Qed.

Lemma de_default_range dec s d n (P : Z -> Prop) :
  P d -> (forall v n, dec v = Some n -> P n) -> de_default d dec s = Some n -> P n.
Proof. intros Hd Hdec. destruct s; simpl; intros; simplify_eq; eauto. Qed.

Lemma suspension_count_range v st :
  suspension_of_json v = Some st -> (0 <= resume_count st < u32_modulus)%Z.
Proof.
  unfold suspension_of_json. destruct (de_struct _ v) as [l|]; simpl; [|done].
  do 8 (destruct l as [|? l]; simpl; try done).
  intros H. inv_bind H. injection H as <-. simpl.
  eapply (de_default_range de_u32 _ 0 _ (fun n => 0 <= n < u32_modulus)%Z); [by compute| |done].
  apply de_u32_range.
Qed.

Lemma existing_count_range m :
  (0 <= from_option resume_count 0 (read_suspension m) < u32_modulus)%Z.
Proof.
  unfold read_suspension. destruct (jget m _) as [v|]; simpl; [|by compute].
  destruct (suspension_of_json v) eqn:E; simpl; [by eapply suspension_count_range | by compute].
Qed.

Lemma read_suspension_ensure m : read_suspension (ensure_object m) = read_suspension m.
Proof. unfold read_suspension. by rewrite jget_ensure_object. Qed.

Lemma read_suspension_stamp m v :
  read_suspension (jset (ensure_object m) SUSPENSION_METADATA_KEY v) = suspension_of_json v.
Proof. unfold read_suspension. by rewrite jget_stamp. Qed.

Lemma kind_stamp_suspended now m s : kind (stamp_suspended now m s) = KObject.
Proof. apply kind_stamp. Qed.

(** The marker [stamp_resumed] leaves over a readable one. *)
Lemma stamp_resumed_marker m v st :
  jget m SUSPENSION_METADATA_KEY = Some v -> kind v = KObject ->
  suspension_of_json v = Some st ->
  exists u, stamp_resumed m = Some (jset (ensure_object m) SUSPENSION_METADATA_KEY u) /\
    suspension_of_json u = Some (mkSuspensionState false (resume_at st) (reason st)
      (origin_identity st) (ledger st) (u32_add (resume_count st) 1) false) /\
    jget u "requested" = Some (jbool false) /\ kind u = KObject.
Proof.
  intros Hget Hk Hst. unfold stamp_resumed.
  rewrite read_suspension_ensure, jget_ensure_object, Hget. unfold read_suspension.
  rewrite Hget. simpl. rewrite Hst. simpl.
  rewrite index_set_object by done. simpl.
  rewrite index_set_object by auto using kind_set. simpl.
  rewrite index_set_object by auto using kind_set. simpl. eexists. split; [done|].
  split; [|by rewrite !jget_set by auto using kind_set; auto using kind_set].
  revert Hst. unfold suspension_of_json.
  rewrite !de_struct_kind by auto using kind_set. simpl. unfold key_slot.
  rewrite !jget_set by auto using kind_set. cbn. json_simpl.
  assert (Hcnt : (0 <= u32_add (resume_count st) 1 < u32_modulus)%Z)
    by (apply Z.mod_pos_bound; reflexivity).
  intros H. inv_bind H. injection H as <-. simpl in *. run_binds.
  by rewrite de_u32_ju64.
Qed.
End MarkerFacts.

(** ** Properties *)

Section MarkerProperties.
Context {X : Extern} {HX : ExternLaws X} {HO : HashOrder}.

(** A marker written by [stamp_suspended] reads back, through the typed
    reader, as exactly the suspension that was stamped (resume pointer,
    reason, origin, ledger totals), carrying the resume count of whatever
    marker was there before; resuming it clears [suspended] and [requested],
    keeps the pointer and bumps the count, and neither touches a sibling key. *)
Theorem suspend_resume_roundtrip now m s :
  ledger_wire_ok (s_ledger s) ->
  let count := from_option resume_count 0%Z (read_suspension m) in
  let m1 := stamp_suspended now m s in
  read_suspension m1 = Some (state_of count s) /\
  is_suspended m1 = true /\ suspension_requested m1 = false /\
  exists m2, stamp_resumed m1 = Some m2 /\
    read_suspension m2 = Some (mkSuspensionState false (Some (s_resume_at s))
      (Some (s_reason s)) (s_origin_identity s) (Some (snapshot_of_ledger (s_ledger s)))
      (u32_add count 1) false) /\
    (forall k, k <> SUSPENSION_METADATA_KEY -> jget m2 k = jget m k).
Proof.
  intros Hl count m1.
  assert (Hread : read_suspension m1 = Some (state_of count s)).
  { unfold m1, stamp_suspended. rewrite read_suspension_stamp, read_suspension_ensure.
    apply suspended_marker_read; [done|]. apply existing_count_range. }
  split_and!; [done| | |].
  - unfold is_suspended. by rewrite Hread.
  - unfold suspension_requested, m1, stamp_suspended. rewrite jget_stamp. simpl.
    unfold suspended_marker. rewrite jget_json_object. cbn. by json_simpl.
  - edestruct (stamp_resumed_marker m1) as (u & Hu & Hst & _).
    { unfold m1, stamp_suspended. apply jget_stamp. }
    { unfold suspended_marker. apply kind_json_object. }
    { unfold read_suspension, m1, stamp_suspended in Hread. by rewrite jget_stamp in Hread. }
    eexists. split; [done|]. split; [by rewrite read_suspension_stamp|].
    intros k Hk. rewrite jget_stamp_ne by done. unfold m1, stamp_suspended.
    by rewrite jget_stamp_ne.
Qed.

(** When the accumulated cost is not finite the suspended marker is
    written with [null] for it, and the typed reader then rejects the whole
    marker: the run reads back as not suspended, with no resume pointer. *)
Theorem suspend_nonfinite_cost_unreadable now m s :
  f64_is_finite (total_cost_usd (s_ledger s)) = false ->
  read_suspension (stamp_suspended now m s) = None /\
  is_suspended (stamp_suspended now m s) = false.
Proof.
  intros Hc.
  assert (Hread : read_suspension (stamp_suspended now m s) = None).
  { unfold stamp_suspended. rewrite read_suspension_stamp.
    unfold suspension_of_json, suspended_marker. rewrite de_struct_object. cbn. json_simpl.
    rewrite de_str_opt, de_reason_opt, de_nullable_json_opt_str. simpl.
    unfold de_nullable at 1. rewrite is_null_false
      by (unfold snapshot_to_json; by rewrite kind_json_object).
    unfold snapshot_of_json, snapshot_to_json. rewrite de_struct_object. cbn.
    destruct (as_u64 _) as [?|]; simpl; [|done].
    rewrite as_f64_kind; [done|]. by rewrite kind_f64, Hc. }
  split; [done|]. unfold is_suspended. by rewrite Hread.
Qed.

(** The marker under [suspension], if any, can be indexed into. *)
Definition marker_indexable (m : value) : Prop :=
  forall v, jget m SUSPENSION_METADATA_KEY = Some v -> kind v = KObject \/ kind v = KNull.

Lemma request_marker m p :
  marker_indexable m ->
  exists u, (match jget m SUSPENSION_METADATA_KEY with
    | Some existing => u ← index_set existing "requested" (jbool true);
                       index_set u "pending_reason" p
    | None => Some (fresh_request p) end) = Some u /\
    jget u "requested" = Some (jbool true) /\ jget u "pending_reason" = Some p.
Proof.
  intros Hm. unfold marker_indexable in Hm.
  destruct (jget m SUSPENSION_METADATA_KEY) as [v|].
  - destruct (Hm v eq_refl) as [Hk|Hk]; unfold index_set; rewrite Hk; simpl;
      rewrite kind_set by auto using kind_empty; eexists; (split; [done|]);
      rewrite !jget_set by auto using kind_set, kind_empty; done.
  - eexists. split; [done|]. unfold fresh_request. rewrite !jget_json_object. done.
Qed.

(** Requesting a suspension panics exactly when [metadata.suspension] is
    present and is neither an object nor [null]; otherwise the request is
    visible to the walk with the reason that was asked for, the reason-less
    form clearing any reason left by an earlier request, and no sibling key
    of the metadata changes. *)
Theorem request_suspension_spec m r :
  (request_suspension m = None <-> ~ marker_indexable m) /\
  (forall m', request_suspension m = Some m' ->
     suspension_requested m' = true /\ requested_reason m' = SuspendNode /\
     forall k, k <> SUSPENSION_METADATA_KEY -> jget m' k = jget m k) /\
  (request_suspension_with_reason m r = None <-> ~ marker_indexable m) /\
  (forall m', request_suspension_with_reason m r = Some m' ->
     suspension_requested m' = true /\ requested_reason m' = r /\
     forall k, k <> SUSPENSION_METADATA_KEY -> jget m' k = jget m k).
Proof.
  assert (Hgen : forall p req, (forall m, req m =
      let m := ensure_object m in
      match jget m SUSPENSION_METADATA_KEY with
      | Some existing => u ← index_set existing "requested" (jbool true);
                         u ← index_set u "pending_reason" p;
                         Some (jset m SUSPENSION_METADATA_KEY u)
      | None => Some (jset m SUSPENSION_METADATA_KEY (fresh_request p)) end) ->
    (req m = None <-> ~ marker_indexable m) /\
    (forall m', req m = Some m' -> suspension_requested m' = true /\
       requested_reason m' = default SuspendNode (reason_of_json p) /\
       forall k, k <> SUSPENSION_METADATA_KEY -> jget m' k = jget m k)).
  { intros p req Hreq. specialize (Hreq m). simpl in Hreq. rewrite jget_ensure_object in Hreq.
    assert (Hsome : marker_indexable m -> exists u,
      req m = Some (jset (ensure_object m) SUSPENSION_METADATA_KEY u) /\
      jget u "requested" = Some (jbool true) /\ jget u "pending_reason" = Some p).
    { intros Hm. destruct (request_marker m p Hm) as (u & Hu & H1 & H2). exists u.
      split; [|done]. rewrite Hreq. destruct (jget m SUSPENSION_METADATA_KEY); [|by simplify_eq].
      apply bind_Some in Hu as (x & -> & Hx). simpl. by rewrite Hx. }
    assert (Hnone : req m <> None -> marker_indexable m).
    { intros Hn v Hv. rewrite Hreq, Hv in Hn. unfold index_set in Hn.
      destruct (kind v); simpl in Hn; auto; by destruct Hn. }
    split; [split|].
    - intros Hn Hm. destruct (Hsome Hm) as (u & ? & _). congruence.
    - intros Hm. destruct (req m) eqn:E; [|done]. destruct Hm. by apply Hnone.
    - intros m' Hm'. assert (Hm : marker_indexable m) by (apply Hnone; congruence).
      destruct (Hsome Hm) as (u & Hu & H1 & H2). rewrite Hu in Hm'. injection Hm' as <-.
      unfold suspension_requested, requested_reason. rewrite jget_stamp. simpl.
      rewrite H1, H2. simpl. rewrite as_bool_bool. split_and!; [done..|].
      intros k Hk. by apply jget_stamp_ne. }
  destruct (Hgen jnull request_suspension) as [Ha Hb]; [done|].
  destruct (Hgen (reason_to_json r) (fun m => request_suspension_with_reason m r)) as [Hc Hd];
    [done|].
  split_and!; [done| |done|].
  - intros m' H. destruct (Hb m' H) as (? & Hr & ?). split_and!; [done| |done].
    rewrite Hr. unfold reason_of_json. by rewrite enum_variant_kind by (rewrite kind_null; done).
  - intros m' H. destruct (Hd m' H) as (? & Hr & ?). split_and!; [done| |done].
    by rewrite Hr, reason_roundtrip.
Qed.

(** [derive_terminal_status] is the documented precedence, on every
    snapshot: cancellation beats a budget halt, which beats a failure (by
    marker or by any [Failed] node run), and [succeeded] is exactly the
    absence of all three. *)
Theorem terminal_status_spec ctx :
  let c := flag (metadata ctx) CANCELLATION_METADATA_KEY "cancelled" in
  let b := flag (metadata ctx) BUDGET_METADATA_KEY "halted" in
  let f := flag (metadata ctx) FAILURE_METADATA_KEY "failed" in
  let n := exists k run, node_runs ctx !! k = Some run /\ status run = Failed in
  (derive_terminal_status ctx = "cancelled" <-> c = true) /\
  (derive_terminal_status ctx = "budget_halted" <-> c = false /\ b = true) /\
  (derive_terminal_status ctx = "failed" <-> c = false /\ b = false /\ (f = true \/ n)) /\
  (derive_terminal_status ctx = "succeeded" <->
     c = false /\ b = false /\ f = false /\ ~ n).
Proof.
  intros c b f n.
  assert (Hn : existsb (fun run => bool_decide (status run = Failed))
                 (hm_values (node_runs ctx)) = true <-> n).
  { rewrite existsb_exists. setoid_rewrite <- list_elem_of_In.
    setoid_rewrite hm_values_elem. setoid_rewrite bool_decide_eq_true. unfold n. naive_solver. }
  unfold derive_terminal_status. fold c b f. clearbody c b f n.
  destruct (existsb _ _); destruct c, b, f; simpl; naive_solver.
Qed.

(** The stamps of the four terminal outcomes are seen by
    [derive_terminal_status] as written, and a completed run is complete
    whatever its metadata was. *)
Theorem stamps_observed now m r msg st :
  flag (stamp_cancelled now m) CANCELLATION_METADATA_KEY "cancelled" = true /\
  flag (stamp_budget_halt m r) BUDGET_METADATA_KEY "halted" = true /\
  flag (stamp_failure m msg) FAILURE_METADATA_KEY "failed" = true /\
  is_complete (stamp_completion now m st) = true /\
  (forall u, read_run_id (stamp_run_id m u) = Some (uuid_to_string u)).
Proof.
  unfold is_complete, flag, stamp_cancelled, stamp_budget_halt, stamp_failure,
    stamp_completion, read_run_id, stamp_run_id.
  split_and!; intros; rewrite jget_stamp; simpl; rewrite ?jget_json_object; cbn;
    by json_simpl.
Qed.
End MarkerProperties.

(** ** Witnesses *)

Module MarkerModel.
Import JsonModel.
Definition metadata0 : @value extern := JObj [("campaign_id", JStr "c-1")].
Definition bad_metadata : @value extern := JObj [("suspension", JU64 1)].
Definition suspension0 (cost : f64) : Suspension :=
  mkSuspension "Review" OperatorPause (Some "Draft") (mkBudgetLedger 42 cost false).
Definition failed_ctx : @TaskContext extern :=
  mkTaskContext JNull ∅ metadata0
    (<["Build" := mkNodeRun Failed None None (Some "no") None None]> ∅).
End MarkerModel.

Lemma suspend_resume_roundtrip_witness :
  let m1 := stamp_suspended 7%Z MarkerModel.metadata0 (MarkerModel.suspension0 f64_zero) in
  is_suspended m1 = true /\ exists m2, stamp_resumed m1 = Some m2 /\
    jget m2 "campaign_id" = Some (JsonModel.JStr "c-1").
Proof.
  intros m1.
  destruct (suspend_resume_roundtrip 7%Z MarkerModel.metadata0 (MarkerModel.suspension0 f64_zero))
    as (_ & H & _ & m2 & H2 & _ & H3); [by repeat split|].
  split; [exact H|]. exists m2. split; [exact H2|]. by rewrite H3.
Defined.

Lemma suspend_nonfinite_cost_unreadable_witness :
  is_suspended (stamp_suspended 7%Z MarkerModel.metadata0
                  (MarkerModel.suspension0 SpecFloat.S754_nan)) = false.
Proof.
  apply (suspend_nonfinite_cost_unreadable 7%Z MarkerModel.metadata0
           (MarkerModel.suspension0 SpecFloat.S754_nan)). reflexivity.
Defined.

Lemma request_suspension_spec_witness :
  request_suspension MarkerModel.bad_metadata = None /\
  forall m', request_suspension_with_reason MarkerModel.metadata0 HeavyWorkQueue = Some m' ->
    requested_reason m' = HeavyWorkQueue.
Proof.
  split.
  - apply (request_suspension_spec MarkerModel.bad_metadata OperatorPause). intros H.
    specialize (H _ eq_refl). by destruct H.
  - intros m' H.
    by apply (proj2 (proj2 (proj2 (request_suspension_spec MarkerModel.metadata0 HeavyWorkQueue))) m' H).
Defined.

Lemma terminal_status_spec_witness :
  derive_terminal_status MarkerModel.failed_ctx = "failed".
Proof.
  apply (terminal_status_spec MarkerModel.failed_ctx). split; [reflexivity|]. split; [reflexivity|].
  right. exists "Build". eexists. split; reflexivity.
Defined.

Lemma stamps_observed_witness :
  is_complete (stamp_completion 7%Z MarkerModel.bad_metadata "done") = true.
Proof.
  apply (stamps_observed 7%Z MarkerModel.bad_metadata (TotalTokens 5 5) "boom" "done").
Defined.
