(* ===== verification/Node.v ===== *)
(** * Nodes, the registry, the declared graph

    - [Node], [NodeError], [Identified], [InputBinding], [WithInput],
      [NodeRegistry]: crates/engine-core/src/node.rs
    - [NodeConfig], [WorkflowSchema]: crates/engine-core/src/schema.rs
    - [Router], [dispatch_route]: crates/engine-core/src/routing.rs

    What a node does to the world outside the [TaskContext] (files, sockets,
    other tasks) is a transformation of an abstract world [W].  The world also
    answers the clock, mints uuids and holds the shared flags behind
    [CancellationToken] and [PauseSignal]; every read may advance it, so other
    threads act between any two reads. *)

From S2P Require Import Prelude Json Contract Sessions.

Local Open Scope string_scope.
Local Open Scope list_scope.

Class Runtime {X : Extern} : Type := {
  W : Type;
  (** a clone of a token or signal: a reference to its shared flag *)
  flag_ref : Type;
  w_now : W -> instant * W;
  w_new_v4 : W -> uuid * W;
  w_read_flag : flag_ref -> W -> bool * W
}.

Section Node.
Context {X : Extern} {R : Runtime}.

Record NodeError := mkNodeError {
  message : string;
  sessions : list ClaudeSession;
  node_result : option value
}.

Definition NodeError_new (msg : string) : NodeError := mkNodeError msg [] None.
Definition with_sessions (e : NodeError) (ss : list ClaudeSession) : NodeError :=
  mkNodeError (message e) ss (node_result e).
Definition with_node_result (e : NodeError) (r : value) : NodeError :=
  mkNodeError (message e) (sessions e) (Some r).

(** A [dyn Node]: [as_router] carries the [route] method of a router. *)
Record Node := mkNode {
  name : string;
  process : TaskContext -> W -> result TaskContext NodeError * W;
  as_router : option (TaskContext -> W -> option string)
}.

Definition dispatch_route (route : TaskContext -> W -> option string) (ctx : TaskContext)
    (w : W) : option string := route ctx w.

(** [Identified::process]: the entry the wrapped node left under its default
    identity moves under the override. *)
Definition relabel (from to : string) (out : TaskContext) : TaskContext :=
  if String.eqb from to then out
  else match nodes out !! from with
       | Some v => set_nodes (fun ns => <[to := v]> (delete from ns)) out
       | None => out
       end.

Definition Identified (inner : Node) (identity : string) : Node := {|
  name := identity;
  process := fun ctx w =>
    match process inner ctx w with
    | (Ok out, w') => (Ok (relabel (name inner) identity out), w')
    | (Err e, w') => (Err e, w')
    end;
  as_router := as_router inner
|}.

Definition with_identity (n : Node) (identity : string) : Node := Identified n identity.

(** [InputBinding] *)
Definition InputBinding : Type := option string.
Definition unbound : InputBinding := None.
Definition bound (upstream : string) : InputBinding := Some upstream.
Definition is_bound (b : InputBinding) : bool := match b with Some _ => true | None => false end.
Definition resolve (b : InputBinding) (dflt : string) : string := default dflt b.

(** [WithInput] forwards [process], [name] and [as_router] and carries the
    binding beside the node. *)
Record WithInput := mkWithInput { wi_inner : Node; wi_binding : InputBinding }.
Definition WithInput_new (inner : Node) (upstream : string) : WithInput :=
  mkWithInput inner (bound upstream).
Definition WithInput_node (w : WithInput) : Node := {|
  name := name (wi_inner w);
  process := process (wi_inner w);
  as_router := as_router (wi_inner w)
|}.

(** [NodeRegistry] *)
Definition register (reg : gmap string Node) (n : Node) : gmap string Node :=
  <[name n := n]> reg.
Definition registry_get (reg : gmap string Node) (id : string) : option Node := reg !! id.
Definition contains (reg : gmap string Node) (id : string) : bool :=
  bool_decide (is_Some (reg !! id)).

(** Every node sits under its own name: what [register] maintains. *)
Definition registry_wf (reg : gmap string Node) : Prop :=
  forall id n, reg !! id = Some n -> name n = id.

Lemma registry_wf_empty : registry_wf ∅.
Proof. intros id n H. by rewrite lookup_empty in H. Qed.

Lemma registry_wf_register reg n : registry_wf reg -> registry_wf (register reg n).
Proof.
  intros Hwf id m. unfold register. rewrite lookup_insert.
  case_decide; [by intros; simplify_eq|]. apply Hwf.
Qed.
End Node.

(** ** The declared graph *)

Record NodeConfig := mkNodeConfig { identity : string; connections : list string }.

Definition next (c : NodeConfig) : option string := head (connections c).

Record WorkflowSchema := mkWorkflowSchema {
  workflow_type : string;
  start_node : string;
  schema_nodes : gmap string NodeConfig
}.

Definition start (s : WorkflowSchema) : option NodeConfig := schema_nodes s !! start_node s.

Definition next_after (s : WorkflowSchema) (id : string) : option string :=
  schema_nodes s !! id ≫= next.

Section NodeFacts.
Context {X : Extern} {R : Runtime}.

Lemma relabel_same id out : relabel id id out = out.
Proof. unfold relabel. by rewrite String.eqb_refl. Qed.

Lemma relabel_spec from to out :
  from <> to ->
  nodes (relabel from to out) !! to =
    (match nodes out !! from with Some v => Some v | None => nodes out !! to end) /\
  nodes (relabel from to out) !! from = None /\
  (forall k, k <> from -> k <> to -> nodes (relabel from to out) !! k = nodes out !! k) /\
  event (relabel from to out) = event out /\ metadata (relabel from to out) = metadata out /\
  node_runs (relabel from to out) = node_runs out.
Proof.
  intros Hne. unfold relabel. destruct (String.eqb_spec from to) as [|_]; [done|].
  destruct (nodes out !! from) as [v|] eqn:E; [|done]. simpl.
  split_and!; try done.
  - by rewrite lookup_insert_eq.
  - by rewrite lookup_insert_ne, lookup_delete_eq.
  - intros k Hf Ht. by rewrite lookup_insert_ne, lookup_delete_ne.
Qed.

(** An identity override is faithful to the wrapped node (same failure,
    same world, same routing) and relabels only its own output: when the
    wrapped node succeeds, what it left under its default identity is found
    under the override, the default key is vacated, and every other entry,
    the metadata and the run envelopes are the wrapped node's own. *)
Theorem identified_spec (n : Node) id ctx w :
  name n <> id ->
  name (with_identity n id) = id /\ as_router (with_identity n id) = as_router n /\
  match process n ctx w with
  | (Err e, w') => process (with_identity n id) ctx w = (Err e, w')
  | (Ok out, w') => exists out', process (with_identity n id) ctx w = (Ok out', w') /\
      nodes out' !! id = (match nodes out !! name n with
                          | Some v => Some v | None => nodes out !! id end) /\
      nodes out' !! name n = None /\
      (forall k, k <> name n -> k <> id -> nodes out' !! k = nodes out !! k) /\
      metadata out' = metadata out /\ node_runs out' = node_runs out
  end.
Proof.
  intros Hne. split_and!; [done..|]. unfold with_identity, Identified. simpl.
  destruct (process n ctx w) as [[out|e] w']; [|done].
  eexists. split; [done|].
  destruct (relabel_spec (name n) id out Hne) as (?&?&?&?&?&?). done.
Qed.

(** The relabelling does not look at who produced the entry.  When a
    plain instance of a node type has already stamped its output under the
    type's default identity, a later [Identified] instance of the same type
    that stamps nothing takes that output for its own and erases the plain
    instance's entry. *)
Theorem identified_takes_default_entry (n : Node) id ctx w w' v :
  name n <> id ->
  process n ctx w = (Ok ctx, w') ->
  nodes ctx !! name n = Some v ->
  exists out', process (with_identity n id) ctx w = (Ok out', w') /\
    nodes out' !! id = Some v /\ nodes out' !! name n = None.
Proof.
  intros Hne Hp Hv. unfold with_identity, Identified. simpl. rewrite Hp.
  eexists. split; [done|]. destruct (relabel_spec (name n) id ctx Hne) as (H1&H2&_).
  rewrite H1, H2, Hv. done.
Qed.
End NodeFacts.

(** ** A concrete runtime *)

Module RuntimeModel.
Import JsonModel.

(** The world is a clock that advances on every read; a flag is raised from
    the instant it names. *)
#[export] Instance runtime : @Runtime extern := {|
  W := Z;
  flag_ref := Z;
  w_now := fun w => (w, (w + 1)%Z);
  w_new_v4 := fun w => ("uuid", (w + 1)%Z);
  w_read_flag := fun f w => (Z.leb f w, (w + 1)%Z)
|}.

Definition silent (_ : @TaskContext extern) (w : @W extern runtime) : @W extern runtime := w.

(** A node that stamps an output, one that stamps nothing, one that fails
    with a session and a structured result. *)
Definition stamps (id : string) (v : jval) : Node :=
  mkNode id (fun ctx w => (Ok (set_nodes <[id := v]> ctx), (w + 10)%Z)) None.
Definition quiet (id : string) : Node := mkNode id (fun ctx w => (Ok ctx, w)) None.
Definition fails (id : string) : Node :=
  mkNode id (fun ctx w =>
    (Err (mkNodeError "boom"
            [mkClaudeSession id (Some "s1") false f64_zero 1 2 0 0 "m" None true]
            (Some (JStr "partial"))), w)) None.

Definition empty_ctx : @TaskContext extern := mkTaskContext JNull ∅ JNull ∅.
End RuntimeModel.

Lemma identified_spec_witness :
  exists out', process (with_identity (RuntimeModel.stamps "Plan" (JsonModel.JU64 1)) "PlanA")
                 RuntimeModel.empty_ctx 0%Z = (Ok out', 10%Z) /\
    nodes out' !! "PlanA" = Some (JsonModel.JU64 1) /\ nodes out' !! "Plan" = None.
Proof.
  destruct (identified_spec (RuntimeModel.stamps "Plan" (JsonModel.JU64 1)) "PlanA"
              RuntimeModel.empty_ctx 0%Z) as (_ & _ & out' & H & H1 & H2 & _); [done|].
  exists out'. split; [exact H|]. split; [exact H1|exact H2].
Defined.

Lemma identified_takes_default_entry_witness :
  let ctx := set_nodes <["Plan" := JsonModel.JU64 1]> RuntimeModel.empty_ctx in
  exists out', process (with_identity (RuntimeModel.quiet "Plan") "PlanA") ctx 0%Z = (Ok out', 0%Z) /\
    nodes out' !! "PlanA" = Some (JsonModel.JU64 1) /\ nodes out' !! "Plan" = None.
Proof.
  intros ctx.
  apply (identified_takes_default_entry (RuntimeModel.quiet "Plan") "PlanA" ctx 0%Z 0%Z
           (JsonModel.JU64 1)); [done|reflexivity|reflexivity].
Defined.
