(* ===== verification/Validate.v ===== *)
(** * WorkflowValidator: the structural guard over a declared graph

    crates/engine-core/src/validate.rs.  [check_reachability]'s worklist and
    [dfs_visit]'s recursion take fuel; [worklist_fuel] and [dfs_fuel] are
    computed from the schema and are always enough ([validate_spec]).

    [nr_edge] is the relation the cycle check is about: the declared edges that
    do not leave a router. *)

From S2P Require Import Prelude Json Contract Sessions Node.
From stdpp Require Import relations fin_sets.

Local Open Scope string_scope.
Local Open Scope list_scope.

Inductive ValidationError :=
| UnregisteredNode (identity : string)
| UnreachableNode (identity : string)
| NonRouterFanOut (identity : string) (connections : nat)
| Cycle (path : list string).

Inductive DfsMark := InProgress | Done.

#[export] Instance DfsMark_eq_dec : EqDecision DfsMark.
Proof. solve_decision. Defined.

Section Validate.
Context {X : Extern} {R : Runtime} {HO : HashOrder}.
Implicit Types (registry : gmap string Node) (schema : WorkflowSchema).

Definition is_router registry (id : string) : bool :=
  match registry_get registry id with
  | Some n => match as_router n with Some _ => true | None => false end
  | None => false
  end.

(** The declared nodes in the order of [declared.sort()]. *)
Definition declared_sorted schema : list string :=
  sort_by String.compare (hm_keys (schema_nodes schema)).

Definition declared_edges schema (id : string) : list string :=
  match schema_nodes schema !! id with Some c => connections c | None => [] end.

(** ** Fan-out arity *)

Fixpoint check_fan_out registry (l : list (string * NodeConfig)) : result unit ValidationError :=
  match l with
  | [] => Ok tt
  | (id, config) :: l' =>
      if (1 <? length (connections config))%nat && negb (is_router registry id)
      then Err (NonRouterFanOut id (length (connections config)))
      else check_fan_out registry l'
  end.

(** ** Reachability *)

(** [for next in &config.connections { if visited.insert(next) { queue.push(next) } }];
    the head of the list is the top of the [Vec] that [pop] takes from. *)
Definition push_unvisited (queue : list string) (visited : gset string) (nexts : list string)
  : list string * gset string :=
  foldl (fun qv n => if decide (n ∈ qv.2) then qv else (n :: qv.1, {[n]} ∪ qv.2))
    (queue, visited) nexts.

Fixpoint reach_loop schema (fuel : nat) (queue : list string) (visited : gset string)
  : option (gset string) :=
  match fuel with
  | O => None
  | S f =>
      match queue with
      | [] => Some visited
      | id :: queue =>
          let '(queue, visited) := push_unvisited queue visited (declared_edges schema id) in
          reach_loop schema f queue visited
      end
  end.

Definition all_targets schema : list string :=
  concat (map (fun kc => connections kc.2) (map_to_list (schema_nodes schema))).

Definition universe schema : gset string :=
  {[start_node schema]} ∪ dom (schema_nodes schema) ∪ list_to_set (all_targets schema).

Definition worklist_fuel schema : nat := S (size (universe schema)).

Fixpoint first_unvisited (visited : gset string) (l : list string) : result unit ValidationError :=
  match l with
  | [] => Ok tt
  | id :: l' => if decide (id ∈ visited) then first_unvisited visited l'
                else Err (UnreachableNode id)
  end.

Definition check_reachability schema : option (result unit ValidationError) :=
  visited ← reach_loop schema (worklist_fuel schema) [start_node schema] {[start_node schema]};
  Some (first_unvisited visited (declared_sorted schema)).

(** ** Cycles *)

Definition dfs_state : Type := gmap string DfsMark * list string.

(** The [for next in &config.connections] loop of [dfs_visit], the
    recursive call being [visit]. *)
Fixpoint visit_all (visit : string -> dfs_state -> option (result dfs_state ValidationError))
    (nexts : list string) (st : dfs_state) : option (result dfs_state ValidationError) :=
  match nexts with
  | [] => Some (Ok st)
  | n :: nexts' =>
      match st.1 !! n with
      | Some InProgress => Some (Err (Cycle (st.2 ++ [n])))
      | Some Done => visit_all visit nexts' st
      | None =>
          match visit n st with
          | Some (Ok st') => visit_all visit nexts' st'
          | r => r
          end
      end
  end.

(** [None] is fuel exhausted; the stack's last element is its top. *)
Fixpoint dfs_visit registry schema (fuel : nat) (id : string) (st : dfs_state)
  : option (result dfs_state ValidationError) :=
  match fuel with
  | O => None
  | S f =>
      let st := (<[id := InProgress]> st.1, st.2 ++ [id]) in
      match (if is_router registry id then Some (Ok st)
             else visit_all (dfs_visit registry schema f) (declared_edges schema id) st) with
      | Some (Ok st) => Some (Ok (<[id := Done]> st.1, removelast st.2))
      | r => r
      end
  end.

Definition dfs_fuel schema : nat := S (size (universe schema)).

Fixpoint check_cycles_from registry schema (starts : list string) (marks : gmap string DfsMark)
  : option (result unit ValidationError) :=
  match starts with
  | [] => Some (Ok tt)
  | s :: starts' =>
      match marks !! s with
      | Some _ => check_cycles_from registry schema starts' marks
      | None =>
          r ← dfs_visit registry schema (dfs_fuel schema) s (marks, []);
          match r with
          | Ok (marks', _) => check_cycles_from registry schema starts' marks'
          | Err e => Some (Err e)
          end
      end
  end.

Definition check_cycles registry schema : option (result unit ValidationError) :=
  check_cycles_from registry schema (declared_sorted schema) ∅.

Definition validate registry schema : option (result unit ValidationError) :=
  match check_fan_out registry (hm_iter (schema_nodes schema)) with
  | Err e => Some (Err e)
  | Ok _ =>
      r ← check_reachability schema;
      match r with
      | Err e => Some (Err e)
      | Ok _ => check_cycles registry schema
      end
  end.

(** ** The declared graph as relations *)

Definition edge schema (x y : string) : Prop := y ∈ declared_edges schema x.
Definition nr_edge registry schema (x y : string) : Prop :=
  is_router registry x = false /\ edge schema x y.
Definition reachable schema (x : string) : Prop := rtc (edge schema) (start_node schema) x.
Definition acyclic registry schema : Prop := forall x, ~ tc (nr_edge registry schema) x x.
End Validate.

(** ** The worklist computes the reachable set *)

Section Reach.
Context {X : Extern} {R : Runtime} {HO : HashOrder} (schema : WorkflowSchema).

Lemma size_minus (U v : gset string) : v ⊆ U -> (size (U ∖ v) + size v = size U)%nat.
Proof.
  intros H. rewrite size_difference by done. apply subseteq_size in H. lia.
Qed.

Lemma push_unvisited_spec ns q v q' v' :
  push_unvisited q v ns = (q', v') ->
  v' = v ∪ list_to_set ns /\
  (forall x, x ∈ q' <-> x ∈ q \/ (x ∈ ns /\ x ∉ v)) /\
  (length q' + size v = length q + size v')%nat.
Proof.
  unfold push_unvisited. revert q v. induction ns as [|n ns IH]; intros q v; simpl.
  - intros [= <- <-]. split_and!; [set_solver|set_solver|lia].
  - case_decide as Hn; intros H; apply IH in H as (-> & Hq & Hl).
    + split_and!; [set_solver|set_solver|done].
    + split_and!; [set_solver|..].
      * intros x. rewrite Hq, elem_of_cons. destruct (decide (x = n)); set_solver.
      * simpl in Hl. rewrite size_union, size_singleton in Hl by set_solver. lia.
Qed.

Lemma edge_universe x y : edge schema x y -> y ∈ universe schema.
Proof.
  unfold edge, declared_edges, universe, all_targets. intros H.
  apply elem_of_union_r. rewrite elem_of_list_to_set.
  destruct (schema_nodes schema !! x) as [c|] eqn:E; [|set_solver].
  rewrite list_elem_of_In, in_concat. exists (connections c).
  rewrite <- !list_elem_of_In. split; [|done]. rewrite list_elem_of_fmap.
  exists (x, c). split; [done|]. by rewrite elem_of_map_to_list.
Qed.

Lemma declared_edges_universe x y : y ∈ declared_edges schema x -> y ∈ universe schema.
Proof. apply edge_universe. Qed.

Record reach_inv (queue : list string) (visited : gset string) : Prop := {
  ri_start : start_node schema ∈ visited;
  ri_queue : forall x, x ∈ queue -> x ∈ visited;
  ri_sound : forall x, x ∈ visited -> reachable schema x;
  ri_universe : visited ⊆ universe schema;
  ri_closed : forall x y, x ∈ visited -> x ∉ queue -> edge schema x y -> y ∈ visited
}.

Lemma reach_inv_step id queue visited queue' visited' :
  reach_inv (id :: queue) visited ->
  push_unvisited queue visited (declared_edges schema id) = (queue', visited') ->
  reach_inv queue' visited'.
Proof.
  intros [H1 H2 H3 H4 H5] Hp. apply push_unvisited_spec in Hp as (-> & Hq & _).
  assert (Hid : id ∈ visited) by (apply H2; left).
  constructor.
  - set_solver.
  - intros x. rewrite Hq. set_solver.
  - intros x [?|Hx]%elem_of_union; [auto|]. rewrite elem_of_list_to_set in Hx.
    eapply rtc_r; [by apply H3, Hid|done].
  - apply union_subseteq. split; [done|]. intros x. rewrite elem_of_list_to_set.
    apply declared_edges_universe.
  - intros x y Hx Hnq He. rewrite Hq in Hnq. destruct (decide (x = id)) as [->|].
    + apply elem_of_union_r. by rewrite elem_of_list_to_set.
    + apply elem_of_union_l. destruct (decide (x ∈ visited)) as [Hv|Hv].
      * apply (H5 x y); [done| |done]. rewrite elem_of_cons. naive_solver.
      * exfalso. apply Hnq. right. split; [|done].
        apply elem_of_union in Hx as [?|Hx]; [done|]. by rewrite elem_of_list_to_set in Hx.
Qed.

Lemma reach_loop_spec fuel queue visited :
  reach_inv queue visited ->
  (length queue + size (universe schema ∖ visited) < fuel)%nat ->
  exists visited', reach_loop schema fuel queue visited = Some visited' /\
    forall x, x ∈ visited' <-> reachable schema x.
Proof.
  revert queue visited. induction fuel as [|f IH]; intros queue visited Hinv Hf; [lia|].
  simpl. destruct queue as [|id queue].
  - exists visited. split; [done|]. destruct Hinv as [H1 H2 H3 H4 H5].
    intros x. split; [apply H3|]. intros Hx. unfold reachable in Hx.
    revert H1. generalize (start_node schema), Hx. clear Hx. intros s Hx.
    induction Hx as [|a b c Hab _ IHx]; [done|]. intros Ha. apply IHx.
    eapply (H5 a b); [done|set_solver|done].
  - destruct (push_unvisited queue visited (declared_edges schema id)) as [q' v'] eqn:E.
    pose proof (reach_inv_step _ _ _ _ _ Hinv E) as Hinv'.
    apply push_unvisited_spec in E as (Hv & _ & Hlen).
    apply IH; [done|]. simpl in Hf.
    assert (size (universe schema ∖ v') + size v' = size (universe schema))%nat.
    { apply size_minus. by destruct Hinv'. }
    assert (size (universe schema ∖ visited) + size visited = size (universe schema))%nat.
    { apply size_minus. by destruct Hinv. }
    lia.
Qed.

Lemma check_reachability_visited :
  exists visited,
    reach_loop schema (worklist_fuel schema) [start_node schema] {[start_node schema]}
      = Some visited /\ forall x, x ∈ visited <-> reachable schema x.
Proof.
  apply reach_loop_spec.
  - constructor.
    + by apply elem_of_singleton.
    + intros x Hx. by apply elem_of_singleton, list_elem_of_singleton.
    + intros x ->%elem_of_singleton. apply rtc_refl.
    + unfold universe. set_solver.
    + intros x y Hx%elem_of_singleton Hn. set_solver.
  - unfold worklist_fuel. simpl.
    pose proof (size_minus (universe schema) {[start_node schema]}) as H.
    rewrite size_singleton in H. specialize (H ltac:(unfold universe; set_solver)). lia.
Qed.

Lemma declared_sorted_elem x : x ∈ declared_sorted schema <-> is_Some (schema_nodes schema !! x).
Proof. unfold declared_sorted. by rewrite sort_by_perm, hm_keys_elem. Qed.

Lemma first_unvisited_ok visited l :
  first_unvisited visited l = Ok tt <-> forall x, x ∈ l -> x ∈ visited.
Proof.
  induction l as [|id l IH]; simpl; [set_solver|]. case_decide; [set_solver|].
  split; [done|]. intros H'. destruct H. set_solver.
Qed.

Lemma first_unvisited_err visited l e :
  first_unvisited visited l = Err e -> exists x, e = UnreachableNode x /\ x ∈ l /\ x ∉ visited.
Proof.
  induction l as [|id l IH]; simpl; [done|]. case_decide.
  - intros H'%IH. set_solver.
  - intros [= <-]. exists id. set_solver.
Qed.

Lemma check_reachability_spec :
  (check_reachability schema = Some (Ok tt) /\
     forall x, is_Some (schema_nodes schema !! x) -> reachable schema x) \/
  (exists x, check_reachability schema = Some (Err (UnreachableNode x)) /\
     is_Some (schema_nodes schema !! x) /\ ~ reachable schema x).
Proof.
  unfold check_reachability.
  destruct check_reachability_visited as (visited & -> & Hv). simpl.
  destruct (first_unvisited visited (declared_sorted schema)) as [[]|e] eqn:E.
  - left. split; [done|]. rewrite first_unvisited_ok in E. intros x Hx.
    apply Hv, E. by apply declared_sorted_elem.
  - right. apply first_unvisited_err in E as (x & -> & Hx & Hn). exists x.
    rewrite declared_sorted_elem in Hx. rewrite Hv in Hn. done.
Qed.
End Reach.

(** ** The depth-first search decides acyclicity *)

Section Chains.
Context {A : Type} (E : A -> A -> Prop).

(** Consecutive elements are related. *)
Fixpoint chain (l : list A) : Prop :=
  match l with
  | x :: ((y :: _) as l') => E x y /\ chain l'
  | _ => True
  end.

Lemma chain_snoc l x y : chain (l ++ [x]) -> E x y -> chain ((l ++ [x]) ++ [y]).
Proof.
  induction l as [|a l IH]; simpl; [done|]. intros H Hxy.
  destruct l as [|b l]; simpl in *; naive_solver.
Qed.

Lemma chain_app_r l1 l2 : chain (l1 ++ l2) -> chain l2.
Proof.
  induction l1 as [|a l1 IH]; [done|]. simpl. destruct (l1 ++ l2) eqn:Eq.
  - apply app_eq_nil in Eq as [-> ->]. done.
  - intros [_ H]. auto.
Qed.

Lemma chain_tc x mid y : chain (x :: mid ++ [y]) -> tc E x y.
Proof.
  revert x. induction mid as [|z mid IH]; intros x; simpl.
  - intros [H _]. by apply tc_once.
  - intros [H Hc]. eapply tc_l; [exact H|]. by apply IH.
Qed.
End Chains.

Section Dfs.
Context {X : Extern} {R : Runtime} {HO : HashOrder}.
Context (registry : gmap string Node) (schema : WorkflowSchema).
Local Abbreviation nr := (nr_edge registry schema).

Record dfs_inv (st : dfs_state) : Prop := {
  di_closed : forall x y, st.1 !! x = Some Done -> nr x y -> st.1 !! y = Some Done;
  di_stack : forall x, st.1 !! x = Some InProgress <-> x ∈ st.2;
  di_acyclic : forall x, st.1 !! x = Some Done -> ~ tc nr x x
}.

(** The path of a [Cycle] error: a walk along non-router edges that ends on
    a node it already went through. *)
Definition cycle_path (path : list string) : Prop :=
  chain nr path /\ exists pre c mid, path = pre ++ c :: mid ++ [c].

Definition unmarked (marks : gmap string DfsMark) : nat := size (universe schema ∖ dom marks).

Lemma unmarked_mono m m' : dom m ⊆ dom m' -> (unmarked m' <= unmarked m)%nat.
Proof. intros H. unfold unmarked. apply subseteq_size. set_solver. Qed.

Lemma unmarked_insert m id mk :
  id ∈ universe schema -> m !! id = None -> (S (unmarked (<[id := mk]> m)) <= unmarked m)%nat.
Proof.
  intros Hu Hn. apply not_elem_of_dom in Hn. unfold unmarked.
  apply (subset_size (C := gset string)). rewrite dom_insert_L.
  split; [set_solver|]. intros H. specialize (H id). set_solver.
Qed.

Lemma cycle_path_back stack n : chain nr (stack ++ [n]) -> n ∈ stack -> cycle_path (stack ++ [n]).
Proof.
  intros Hc (pre & mid & ->)%list_elem_of_split. split; [done|].
  exists pre, n, mid. by rewrite <- app_assoc.
Qed.

Lemma cycle_path_cyclic path : cycle_path path -> exists x, tc nr x x.
Proof. intros (Hc & pre & c & mid & ->). exists c. eapply chain_tc, chain_app_r, Hc. Qed.

(** What a call of [dfs_visit] on an unmarked node (or the loop over its
    successors) returns. *)
Definition visited_ok (st : dfs_state) (targets : list string)
    (r : option (result dfs_state ValidationError)) : Prop :=
  (exists marks', r = Some (Ok (marks', st.2)) /\ dfs_inv (marks', st.2) /\
     dom st.1 ⊆ dom marks' /\ forall n, n ∈ targets -> marks' !! n = Some Done) \/
  (exists path, r = Some (Err (Cycle path)) /\ cycle_path path).

(** A finished mark is never taken back. *)
Lemma done_kept st st' : dfs_inv st -> dfs_inv st' -> st.2 = st'.2 -> dom st.1 ⊆ dom st'.1 ->
  forall x, st.1 !! x = Some Done -> st'.1 !! x = Some Done.
Proof.
  intros H H' Hs Hd x Hx.
  assert (is_Some (st'.1 !! x)) as [[] Hx'].
  { apply elem_of_dom, Hd, elem_of_dom. eauto. }
  - apply (di_stack _ H') in Hx'. rewrite <- Hs in Hx'. apply (di_stack _ H) in Hx'. congruence.
  - done.
Qed.

Lemma visit_all_spec visit nexts st :
  dfs_inv st ->
  (forall n, n ∈ nexts -> n ∈ universe schema /\ chain nr (st.2 ++ [n])) ->
  (forall n st', n ∈ universe schema -> dfs_inv st' -> st'.1 !! n = None ->
     chain nr (st'.2 ++ [n]) -> (unmarked st'.1 <= unmarked st.1)%nat ->
     visited_ok st' [n] (visit n st')) ->
  visited_ok st nexts (visit_all visit nexts st).
Proof.
  revert st. induction nexts as [|n nexts IH]; intros [marks stack] Hi Hn Hv; simpl.
  { left. exists marks. split_and!; [done..|]. set_solver. }
  destruct (Hn n ltac:(left)) as [Hu Hc].
  assert (Hn' : forall m, m ∈ nexts -> m ∈ universe schema /\ chain nr (stack ++ [m])).
  { intros m Hm. apply Hn. by right. }
  destruct (marks !! n) as [[]|] eqn:Em.
  - right. eexists. split; [done|]. apply cycle_path_back; [done|]. by apply (di_stack _ Hi).
  - destruct (IH (marks, stack) Hi Hn' Hv) as [(m' & -> & Hi' & Hd & Ht)|?]; [left|by right].
    exists m'. split_and!; [done..|]. intros x [->|Hx]%elem_of_cons; [|auto].
    by apply (done_kept (marks, stack) (m', stack)).
  - destruct (Hv n (marks, stack) Hu Hi Em Hc) as [(m' & -> & Hi' & Hd & Ht)|(p & -> & Hp)];
      [done| |right; eauto]. simpl in *.
    destruct (IH (m', stack) Hi' Hn') as [(m'' & -> & Hi'' & Hd' & Ht')|?]; [|left|by right].
    + intros k st' ???? Hle. apply Hv; [done..|]. pose proof (unmarked_mono _ _ Hd). simpl in *. lia.
    + exists m''. split_and!; [done|done|set_solver|]. intros x [->|Hx]%elem_of_cons; [|auto].
      apply (done_kept (m', stack) (m'', stack)); [done..|]. apply Ht. left.
Qed.

Lemma dfs_inv_enter marks stack id :
  dfs_inv (marks, stack) -> marks !! id = None ->
  dfs_inv (<[id := InProgress]> marks, stack ++ [id]).
Proof.
  intros [H1 H2 H3] Hn. simpl in *. constructor; simpl.
  - intros x y. rewrite !lookup_insert. repeat case_decide; subst; naive_solver.
  - intros x. rewrite elem_of_app, list_elem_of_singleton, lookup_insert, <- H2.
    case_decide; subst; naive_solver.
  - intros x. rewrite lookup_insert. case_decide; [done|]. apply H3.
Qed.

Lemma dfs_inv_leave marks stack id :
  dfs_inv (marks, stack ++ [id]) -> id ∉ stack ->
  (forall y, nr id y -> marks !! y = Some Done) ->
  dfs_inv (<[id := Done]> marks, stack).
Proof.
  intros [H1 H2 H3] Hns Hd. simpl in *.
  assert (Hid : marks !! id = Some InProgress) by (apply H2; set_solver).
  constructor; simpl.
  - intros x y. rewrite !lookup_insert. repeat case_decide; subst; naive_solver.
  - intros x. rewrite lookup_insert. case_decide; subst; [naive_solver|].
    rewrite H2. set_solver.
  - intros x. rewrite lookup_insert. case_decide; subst; [|apply H3]. intros _ Hc.
    assert (Hcl : forall a b, tc nr a b -> marks !! a = Some Done -> marks !! b = Some Done).
    { induction 1; eauto. }
    assert (marks !! x = Some Done); [|congruence].
    inversion Hc as [? ? He|? y ? He Hy]; subst; [by apply Hd|]. by eapply Hcl; [|apply Hd].
Qed.

Lemma removelast_snoc {A} (l : list A) x : removelast (l ++ [x]) = l.
Proof. by rewrite removelast_app, app_nil_r by done. Qed.

Lemma nr_edge_router x y : is_router registry x = true -> ~ nr x y.
Proof. intros H [H' _]. congruence. Qed.

(** Enough fuel is one level per unmarked node. *)
Lemma dfs_visit_spec fuel id st :
  (unmarked st.1 <= fuel)%nat -> id ∈ universe schema -> dfs_inv st ->
  st.1 !! id = None -> chain nr (st.2 ++ [id]) ->
  visited_ok st [id] (dfs_visit registry schema fuel id st).
Proof.
  revert id st. induction fuel as [|f IH]; intros id [marks stack] Hf Hu Hi Hn Hc; simpl in *.
  { pose proof (unmarked_insert marks id Done Hu Hn). lia. }
  pose proof (dfs_inv_enter marks stack id Hi Hn) as Hi1.
  assert (Hns : id ∉ stack) by (intros H%(di_stack _ Hi); simpl in H; congruence).
  assert (Hleave : forall m, dfs_inv (m, stack ++ [id]) -> dom (<[id:=InProgress]> marks) ⊆ dom m ->
    (forall y, nr id y -> m !! y = Some Done) ->
    visited_ok (marks, stack) [id] (Some (Ok (<[id:=Done]> m, removelast (stack ++ [id]))))).
  { intros m Hm Hd Hy. left. rewrite removelast_snoc. eexists. split_and!; [done|..].
    - by apply dfs_inv_leave.
    - simpl. set_solver.
    - intros n ->%list_elem_of_singleton. apply lookup_insert_eq. }
  destruct (is_router registry id) eqn:Er; simpl.
  { apply Hleave; [done..|]. intros y Hy. by destruct (nr_edge_router id y). }
  destruct (visit_all_spec (dfs_visit registry schema f) (declared_edges schema id)
    (<[id:=InProgress]> marks, stack ++ [id])) as [(m' & -> & Hi' & Hd & Ht)|(p & -> & Hp)];
    [done| | |simpl in *|right; eauto].
  - intros n Hn'. split; [by eapply edge_universe|]. simpl. apply chain_snoc; [done|]. by split.
  - intros n st' Hnu Hi' Hnm Hch Hle. apply IH; [|done..]. simpl in Hle.
    pose proof (unmarked_insert marks id InProgress Hu Hn). lia.
  - apply Hleave; [done..|]. intros y [_ Hy]. by apply Ht.
Qed.

Lemma declared_in_universe x : is_Some (schema_nodes schema !! x) -> x ∈ universe schema.
Proof. intros H%elem_of_dom. unfold universe. set_solver. Qed.

Lemma check_cycles_from_spec starts marks :
  (forall s, s ∈ starts -> s ∈ universe schema) -> dfs_inv (marks, []) ->
  (check_cycles_from registry schema starts marks = Some (Ok tt) /\
     forall s, s ∈ starts \/ marks !! s = Some Done -> ~ tc nr s s) \/
  (exists path, check_cycles_from registry schema starts marks = Some (Err (Cycle path)) /\
     cycle_path path).
Proof.
  revert marks. induction starts as [|s starts IH]; intros marks Hs Hi; cbn [check_cycles_from].
  { left. split; [done|]. intros x [?%not_elem_of_nil|Hx]; [done|]. by apply (di_acyclic _ Hi). }
  assert (Hs' : forall x, x ∈ starts -> x ∈ universe schema) by (intros x Hx; apply Hs; by right).
  destruct (marks !! s) as [mk|] eqn:Em.
  - assert (mk = Done) as ->.
    { destruct mk; [|done]. by apply (di_stack _ Hi), not_elem_of_nil in Em. }
    destruct (IH marks Hs' Hi) as [[-> H]|?]; [left|by right]. split; [done|].
    intros x [[->|Hx]%elem_of_cons|Hx]; apply H; auto.
  - destruct (dfs_visit_spec (dfs_fuel schema) s (marks, [])) as [(m' & -> & Hi' & Hd & Ht)|(p & -> & Hp)];
      [|apply Hs; left|done..| |right; by exists p].
    + unfold dfs_fuel, unmarked. simpl. etrans; [apply subseteq_size|apply Nat.le_succ_diag_r].
      set_solver.
    + simpl. destruct (IH m' Hs' Hi') as [[-> H]|?]; [left|by right]. split; [done|].
      intros x [[->|Hx]%elem_of_cons|Hx]; apply H; [|auto|].
      * right. apply Ht. left.
      * right. by apply (done_kept (marks, []) (m', [])).
Qed.

Lemma check_cycles_spec :
  (check_cycles registry schema = Some (Ok tt) /\ acyclic registry schema) \/
  (exists path, check_cycles registry schema = Some (Err (Cycle path)) /\ cycle_path path).
Proof.
  unfold check_cycles.
  destruct (check_cycles_from_spec (declared_sorted schema) ∅) as [[-> H]|?]; [|split|left|by right].
  - intros s Hs%declared_sorted_elem. by apply declared_in_universe.
  - intros x y. simpl. by rewrite lookup_empty.
  - intros x. simpl. rewrite lookup_empty. set_solver.
  - intros x. simpl. by rewrite lookup_empty.
  - split; [done|]. intros x Hx. apply (H x); [|done]. left. apply declared_sorted_elem.
    assert (exists y, nr x y) as [y [_ Hy]] by (inversion Hx; eauto).
    unfold edge, declared_edges in Hy. destruct (schema_nodes schema !! x); [eauto|].
    by apply not_elem_of_nil in Hy.
Qed.

Definition fan_out_ok : Prop :=
  forall id c, schema_nodes schema !! id = Some c ->
    (length (connections c) <= 1)%nat \/ is_router registry id = true.

Lemma check_fan_out_spec l :
  (check_fan_out registry l = Ok tt /\
     forall id c, (id, c) ∈ l -> (length (connections c) <= 1)%nat \/ is_router registry id = true) \/
  (exists id c, (id, c) ∈ l /\ (1 < length (connections c))%nat /\ is_router registry id = false /\
     check_fan_out registry l = Err (NonRouterFanOut id (length (connections c)))).
Proof.
  induction l as [|[id c] l IH]; simpl; [left; split; [done|]; set_solver|].
  destruct (Nat.ltb_spec 1 (length (connections c))) as [Hl|Hl]; simpl;
    [destruct (is_router registry id) eqn:Er; simpl|].
  2: { right. exists id, c. split_and!; [left|done..]. }
  all: destruct IH as [[-> H]|(id' & c' & ? & ? & ? & ->)];
    [left; split; [done|]; intros id' c' [[= -> ->]|Hx]%elem_of_cons; [auto with lia|by apply H]
    |right; exists id', c'; split_and!; [by right|done..]].
Qed.

(** C17: the validator always returns (the worklist and the recursion never
    run past the fuel computed from the schema), and its answer is exact:
    [Ok] means that every multi-edge node is a router, that every declared
    node is reachable from the start and that the non-router edges form no
    cycle; an error names a real offence: a non-router that fans out with
    its true arity, a declared node that no path from the start reaches, or
    a walk along non-router edges that comes back to a node on it. *)
Theorem validate_spec :
  (validate registry schema = Some (Ok tt) /\ fan_out_ok /\
     (forall x, is_Some (schema_nodes schema !! x) -> reachable schema x) /\
     acyclic registry schema) \/
  exists e, validate registry schema = Some (Err e) /\
    match e with
    | UnregisteredNode _ => False
    | NonRouterFanOut id n => exists c, schema_nodes schema !! id = Some c /\
        n = length (connections c) /\ (1 < n)%nat /\ is_router registry id = false
    | UnreachableNode x => is_Some (schema_nodes schema !! x) /\ ~ reachable schema x
    | Cycle path => cycle_path path /\ ~ acyclic registry schema
    end.
Proof.
  unfold validate.
  destruct (check_fan_out_spec (hm_iter (schema_nodes schema)))
    as [[-> Hf]|(id & c & Hin & Hl & Hr & ->)].
  2: { right. eexists. split; [done|]. apply hm_iter_elem in Hin.
       by exists c. }
  destruct (check_reachability_spec schema) as [[-> Hr]|(x & -> & Hx)]; simpl;
    [|right; by eexists].
  destruct check_cycles_spec as [[-> Ha]|(p & -> & Hp)].
  - left. split_and!; [done| |done..]. intros id c Hc. by apply Hf, hm_iter_elem.
  - right. eexists. split; [done|]. split; [done|]. intros Ha.
    destruct (cycle_path_cyclic _ Hp) as [x Hx]. by apply (Ha x).
Qed.

(** The guard accepts a graph exactly when it is structurally sound:
    fan-out is reserved to routers, nothing declared is unreachable and the
    non-router edges are acyclic. *)
Lemma validate_ok_iff :
  validate registry schema = Some (Ok tt) <->
  fan_out_ok /\ (forall x, is_Some (schema_nodes schema !! x) -> reachable schema x) /\
  acyclic registry schema.
Proof.
  unfold validate.
  destruct (check_fan_out_spec (hm_iter (schema_nodes schema)))
    as [[-> Hf]|(id & c & Hin & Hl & Hr & ->)].
  2: { split; [done|]. intros (Hf & _). apply hm_iter_elem in Hin.
       destruct (Hf _ _ Hin); [lia|congruence]. }
  destruct (check_reachability_spec schema) as [[-> Hr]|(x & -> & Hx & Hn)]; simpl.
  2: { split; [done|]. intros (_ & Hr & _). by destruct Hn; apply Hr. }
  destruct check_cycles_spec as [[-> Ha]|(p & -> & Hp)].
  - split; [|done]. intros _. split_and!; [|done..]. intros id c Hc. by apply Hf, hm_iter_elem.
  - split; [done|]. intros (_ & _ & Ha). destruct (cycle_path_cyclic _ Hp) as [x Hx].
    by destruct (Ha x).
Qed.
End Dfs.
