(* ===== verification/Telemetry.v ===== *)
(** * The run-telemetry snapshot

    crates/engine-core/src/policy/telemetry.rs: the token, cost, cache and
    verdict readers, [harvest], and the JSON that [stamp_run_telemetry]
    (crates/engine-core/src/workflow.rs) puts under [metadata.run_telemetry].

    A [BTreeMap<String, String>] is a [gmap]; [btree_iter] is its iteration
    order. *)

From S2P Require Import Prelude Json Contract Sessions Budget.

Local Open Scope string_scope.
Local Open Scope list_scope.

Definition RUN_TELEMETRY_METADATA_KEY : string := "run_telemetry".

Record RunTelemetry := mkRunTelemetry {
  rt_wall_clock_secs : f64;
  rt_total_attempts : Z;
  rt_total_retries : Z;
  rt_tasks_passed : Z;
  rt_tasks_failed : Z;
  rt_review_verdicts : list string;
  rt_total_input_tokens : Z;
  rt_total_output_tokens : Z;
  rt_total_cost_usd : f64;
  rt_total_cache_read_tokens : Z;
  rt_total_cache_creation_tokens : Z;
  rt_unknown_cost_invocations : Z;
  rt_model_tier_used : gmap string string;
  rt_backend_used : gmap string string
}.

Record RunTelemetryInputs := mkRunTelemetryInputs {
  start_node_identity : string;
  verdict_stages : list string;
  cost_bearing_stages : list string;
  in_total_attempts : Z;
  in_total_retries : Z;
  in_tasks_passed : Z;
  in_tasks_failed : Z;
  in_model_tier_used : gmap string string;
  model_stages : list string
}.

Section Telemetry.
Context {X : Extern} {HO : HashOrder}.
Implicit Types ctx : TaskContext.

(** [(now - started).num_milliseconds().max(0) as f64 / 1000.0] *)
Definition wall_clock_secs ctx (start_node_identity : string) (now : instant) : f64 :=
  default f64_zero
    (run ← node_runs ctx !! start_node_identity;
     started ← started_at run;
     Some (f64_div (f64_of_Z (Z.max 0 (Z.quot (now - started) 1000000))) (f64_of_Z 1000))).

Definition total_tokens ctx : Z * Z :=
  foldl (fun '(inp, out) run =>
      match usage run with
      | Some u => (u64_add inp (default 0%Z (input_tokens u)),
                   u64_add out (default 0%Z (output_tokens u)))
      | None => (inp, out)
      end) (0%Z, 0%Z) (hm_values (node_runs ctx)).

Definition total_cost_usd ctx (stages : list string) : f64 :=
  f64_sum (omap (fun stage =>
    v ← nodes ctx !! stage; c ← jget v "cost_usd"; as_f64 c) stages).

Definition total_cache_tokens ctx (stages : list string) : Z * Z :=
  foldl (fun '(rd, creation) v =>
      let stage_read := default 0%Z (jget v "cache_read_input_tokens" ≫= as_u64) in
      let stage_creation := default 0%Z (jget v "cache_creation_input_tokens" ≫= as_u64) in
      (u64_add rd stage_read, u64_add creation stage_creation))
    (0%Z, 0%Z) (omap (fun stage => nodes ctx !! stage) stages).

Definition review_verdicts ctx (stages : list string) : list string :=
  omap (fun stage =>
    v ← nodes ctx !! stage; x ← jget v "verdict"; verdict ← as_str x;
    Some (stage +:+ ":" +:+ verdict)) stages.

Definition transport_field ctx (field stage : string) : option string :=
  v ← nodes ctx !! stage; t ← jget v "transport"; f ← jget t field; as_str f.

Definition collect_stages ctx (field : string) (stages : list string) : gmap string string :=
  foldl (fun m stage => match transport_field ctx field stage with
                        | Some x => <[stage := x]> m | None => m end) ∅ stages.

Definition observed_model_tiers ctx (stages : list string) : gmap string string :=
  collect_stages ctx "tier" stages.

Definition observed_backends ctx (stages : list string) : gmap string string :=
  collect_stages ctx "backend" stages.

Definition harvest ctx (now : instant) (inputs : RunTelemetryInputs) : RunTelemetry :=
  let ledger := ledger_totals (metadata ctx) in
  let use_ledger := (0 <? invocations ledger)%Z in
  let '(inp, out) :=
    if use_ledger then (lt_input_tokens ledger, lt_output_tokens ledger)
    else total_tokens ctx in
  let '(rd, creation) :=
    if use_ledger then (lt_cache_read ledger, lt_cache_creation ledger)
    else total_cache_tokens ctx (cost_bearing_stages inputs) in
  let cost := if use_ledger then lt_cost_usd ledger
              else total_cost_usd ctx (cost_bearing_stages inputs) in
  let unknown := if use_ledger then Z.min u32_max (unknown_cost_invocations ledger) else 0%Z in
  let tiers := observed_model_tiers ctx (model_stages inputs) ∪ in_model_tier_used inputs in
  let backends := observed_backends ctx (model_stages inputs) in
  mkRunTelemetry (wall_clock_secs ctx (start_node_identity inputs) now)
    (in_total_attempts inputs) (in_total_retries inputs)
    (in_tasks_passed inputs) (in_tasks_failed inputs)
    (review_verdicts ctx (verdict_stages inputs))
    inp out cost rd creation unknown tiers backends.

Definition btree_iter {A} (m : gmap string A) : list (string * A) :=
  sort_by (fun a b => String.compare a.1 b.1) (map_to_list m).

Definition string_map_to_json (m : gmap string string) : value :=
  json_object (map (fun kv => (kv.1, jstr kv.2)) (btree_iter m)).

Definition telemetry_to_json (t : RunTelemetry) : value := json_object
  [("wall_clock_secs", jf64 (rt_wall_clock_secs t));
   ("total_attempts", ju64 (rt_total_attempts t));
   ("total_retries", ju64 (rt_total_retries t));
   ("tasks_passed", ju64 (rt_tasks_passed t));
   ("tasks_failed", ju64 (rt_tasks_failed t));
   ("review_verdicts", jarray (map jstr (rt_review_verdicts t)));
   ("total_input_tokens", ju64 (rt_total_input_tokens t));
   ("total_output_tokens", ju64 (rt_total_output_tokens t));
   ("total_cost_usd", jf64 (rt_total_cost_usd t));
   ("total_cache_read_tokens", ju64 (rt_total_cache_read_tokens t));
   ("total_cache_creation_tokens", ju64 (rt_total_cache_creation_tokens t));
   ("unknown_cost_invocations", ju64 (rt_unknown_cost_invocations t));
   ("model_tier_used", string_map_to_json (rt_model_tier_used t));
   ("backend_used", string_map_to_json (rt_backend_used t))].

(** [stamp_run_telemetry], the clock read being an argument. *)
Definition stamp_run_telemetry (now : instant) (start_node_identity : string) ctx : TaskContext :=
  let stages := hm_keys (nodes ctx) in
  let inputs := mkRunTelemetryInputs start_node_identity stages stages 0 0 0 0 ∅ stages in
  let telemetry := harvest ctx now inputs in
  set_metadata (fun m => jset (ensure_object m) RUN_TELEMETRY_METADATA_KEY
                           (telemetry_to_json telemetry)) ctx.
End Telemetry.

Section TelemetryFacts.
Context {X : Extern} {HX : ExternLaws X} {HO : HashOrder}.

Lemma stamp_run_telemetry_frame now start ctx :
  event (stamp_run_telemetry now start ctx) = event ctx /\
  nodes (stamp_run_telemetry now start ctx) = nodes ctx /\
  node_runs (stamp_run_telemetry now start ctx) = node_runs ctx /\
  forall k, k <> RUN_TELEMETRY_METADATA_KEY ->
    jget (metadata (stamp_run_telemetry now start ctx)) k = jget (metadata ctx) k.
Proof. split_and!; [done..|]. intros k Hk. simpl. by rewrite jget_stamp_ne. Qed.

Lemma collect_stages_lookup ctx field stages k :
  collect_stages ctx field stages !! k =
    if decide (k ∈ stages) then transport_field ctx field k else None.
Proof.
  unfold collect_stages.
  assert (Hgen : forall m : gmap string string, foldl (fun m stage => match transport_field ctx field stage with
      | Some x => <[stage := x]> m | None => m end) m stages !! k =
    if decide (k ∈ stages) then
      match transport_field ctx field k with Some x => Some x | None => m !! k end
    else m !! k).
  { induction stages as [|s stages IH]; intros m; [done|].
    cbn [foldl]. rewrite IH. destruct (decide (k = s)) as [->|Hne].
    - rewrite (decide_True (P := s ∈ s :: stages)) by left.
      destruct (transport_field ctx field s) eqn:E; rewrite ?lookup_insert_eq; by case_decide.
    - assert ((match transport_field ctx field s with
               | Some x => <[s:=x]> m | None => m end) !! k = m !! k) as ->.
      { destruct (transport_field ctx field s); [by rewrite lookup_insert_ne|done]. }
      destruct (decide (k ∈ stages)); [rewrite decide_True by (by right)|
        rewrite decide_False by (rewrite elem_of_cons; naive_solver)]; done. }
  rewrite Hgen, lookup_empty. case_decide; [|done]. by destruct (transport_field _ _ _).
Qed.

Lemma invocations_foldl ss acc :
  invocations (foldl ledger_add acc ss)
    = ((if decide (ss = []) then invocations acc
        else (invocations acc + Z.of_nat (length ss)) mod u64_modulus))%Z.
Proof.
  revert acc. induction ss as [|s ss IH]; intros acc; [done|].
  cbn [foldl]. rewrite IH. simpl. unfold u64_add.
  destruct ss as [|s' ss]; simpl; [done|]. rewrite Zplus_mod_idemp_l. f_equal. lia.
Qed.

Lemma ledger_nonempty m :
  (Z.of_nat (length (read_sessions m)) < u64_modulus)%Z ->
  (0 <? invocations (ledger_totals m))%Z = bool_decide (read_sessions m <> []).
Proof.
  intros Hlen. unfold ledger_totals. rewrite invocations_foldl. simpl.
  destruct (read_sessions m) as [|s ss] eqn:E; [done|].
  rewrite bool_decide_true by done.
  rewrite Z.mod_small by (simpl in *; lia). apply Z.ltb_lt. simpl. lia.
Qed.
End TelemetryFacts.

Section TelemetryProperties.
Context {X : Extern} {HX : ExternLaws X} {HO : HashOrder}.

(** The telemetry a run leaves behind prefers the per-invocation ledger:
    as soon as one session can be read, tokens, cache channels and cost are
    the ledger's roll-up of every invocation; only with no readable session
    do they come from the per-node scans, and then no invocation is counted
    as of unknown cost.  A stage whose transport stamp was observed reports
    the tier that was called whatever the caller supplied, and a stage with
    no stamp keeps the caller's entry. *)
Theorem harvest_spec ctx now inputs :
  (Z.of_nat (length (read_sessions (metadata ctx))) < u64_modulus)%Z ->
  let t := harvest ctx now inputs in
  let l := ledger_totals (metadata ctx) in
  (read_sessions (metadata ctx) <> [] ->
     (rt_total_input_tokens t, rt_total_output_tokens t) = (lt_input_tokens l, lt_output_tokens l) /\
     (rt_total_cache_read_tokens t, rt_total_cache_creation_tokens t)
       = (lt_cache_read l, lt_cache_creation l) /\
     rt_total_cost_usd t = lt_cost_usd l /\
     rt_unknown_cost_invocations t = Z.min u32_max (unknown_cost_invocations l)) /\
  (read_sessions (metadata ctx) = [] ->
     (rt_total_input_tokens t, rt_total_output_tokens t) = total_tokens ctx /\
     (rt_total_cache_read_tokens t, rt_total_cache_creation_tokens t)
       = total_cache_tokens ctx (cost_bearing_stages inputs) /\
     rt_total_cost_usd t = total_cost_usd ctx (cost_bearing_stages inputs) /\
     rt_unknown_cost_invocations t = 0%Z) /\
  (forall stage, rt_model_tier_used t !! stage =
     match (if decide (stage ∈ model_stages inputs) then transport_field ctx "tier" stage
            else None) with
     | Some tier => Some tier
     | None => in_model_tier_used inputs !! stage
     end).
Proof.
  intros Hlen t l. subst t l. unfold harvest. rewrite ledger_nonempty by done.
  destruct (total_tokens ctx) as [i o], (total_cache_tokens ctx _) as [r c].
  split_and!.
  - intros H. by rewrite bool_decide_true.
  - intros H. by rewrite H.
  - intros stage. destruct (bool_decide _); simpl; rewrite lookup_union;
      unfold observed_model_tiers; rewrite collect_stages_lookup;
      destruct (if decide _ then _ else _); simpl; by destruct (in_model_tier_used _ !! _).
Qed.
End TelemetryProperties.

Module TelemetryModel.
Import JsonModel.
Definition inputs : RunTelemetryInputs := mkRunTelemetryInputs "A" [] ["A"] 1 0 0 0 ∅ [].
Definition metadata1 : @value extern :=
  append_session (X := extern) jnull
    (mkClaudeSession "A" (Some "s1") true (f64_of_Z 3) 10 20 0 0 "m" None false).
Definition ctx : @TaskContext extern := mkTaskContext JNull ∅ metadata1 ∅.
End TelemetryModel.

Lemma harvest_spec_witness :
  rt_total_cost_usd (harvest TelemetryModel.ctx 5%Z TelemetryModel.inputs) =
    lt_cost_usd (ledger_totals TelemetryModel.metadata1) /\
  rt_unknown_cost_invocations (harvest TelemetryModel.ctx 5%Z TelemetryModel.inputs) = 1%Z.
Proof.
  destruct (harvest_spec TelemetryModel.ctx 5%Z TelemetryModel.inputs) as [H _]; [reflexivity|].
  destruct H as (_ & _ & H1 & H2); [discriminate|].
  split; [exact H1|]. rewrite H2. reflexivity.
Defined.
