(* ===== verification/Workflow.v ===== *)
(** * The pointer-walk runner

    crates/engine-core/src/workflow.rs.

    The runner's effects are a small monad [M]: it threads the world [W] (the
    clock, uuids, the shared flags and whatever nodes and the persistence
    callback do) and logs what happens in order as a trace of [Event]s.  Two
    events have no counterpart in the code and only name a point of it:
    [Dispatch], the call of [node_context] with the ledger the gate has just
    let through, and [Span], the recorded fields of the tracing span.

    [walk_step] is one turn of the [while let] of [Workflow::walk]; [walk] is
    the loop with fuel, [None] when the fuel runs out.  A router may route back
    to any node for ever, so no fuel is enough in general; [validated_run_terminates]
    gives the fuel for a graph without routers. *)

From S2P Require Import Prelude Json Contract Sessions Invocations Budget Markers Node Validate Telemetry.

Local Open Scope string_scope.
Local Open Scope list_scope.

Record WorkflowError := mkWorkflowError { we_message : string }.

Section Effects.
Context {X : Extern} {R : Runtime}.

Inductive Event :=
| Span (run_id campaign_id : option string)
| Progress (ctx : TaskContext)
| Dispatch (identity : string) (l : BudgetLedger)
| NodeDispatched (identity : string) (run_id campaign_id : option string)
| NodeFailed (identity : string) (run_id campaign_id : option string) (error : string).

Definition M (A : Type) : Type := W -> A * W * list Event.

Definition ret {A} (a : A) : M A := fun w => (a, w, []).
Definition bind {A B} (m : M A) (k : A -> M B) : M B := fun w =>
  let '(a, w1, t1) := m w in
  let '(b, w2, t2) := k a w1 in
  (b, w2, t1 ++ t2).

(** [Utc::now()], [Uuid::new_v4()], the load of a shared flag. *)
Definition now : M instant := fun w => (w_now w, []).
Definition new_v4 : M uuid := fun w => (w_new_v4 w, []).
Definition read_flag (f : flag_ref) : M bool := fun w => (w_read_flag f w, []).
Definition emit (e : Event) : M unit := fun w => (tt, w, [e]).
(** [node.process(ctx).await] *)
Definition call (n : Node) (ctx : TaskContext) : M (result TaskContext NodeError) :=
  fun w => (process n ctx w, []).
(** [router.route(ctx)], which has no access to mutate anything. *)
Definition ask {A} (f : W -> A) : M A := fun w => (f w, w, []).
End Effects.

Notation "x <-- e ;; k" := (bind e (fun x => k))
  (at level 100, e at next level, right associativity) : engine_scope.
Notation "e ;;; k" := (bind e (fun _ => k))
  (at level 100, right associativity) : engine_scope.
Local Open Scope engine_scope.

Section Workflow.
Context {X : Extern} {R : Runtime} {HO : HashOrder}.
(** the injected persistence seam *)
Variable on_progress : TaskContext -> W -> W.

Definition progress (ctx : TaskContext) : M unit :=
  fun w => (tt, on_progress ctx w, [Progress ctx]).

(** ** The framework's envelope around one [process] call *)

Definition enter_run (run : option NodeRun) (t : instant) : NodeRun :=
  match run with
  | Some r => mkNodeRun Running (Some t) (completed_at r) (error r) (input r) (usage r)
  | None => mkNodeRun Running (Some t) None None None None
  end.

Definition succeed_run (r : NodeRun) (t : instant) : NodeRun :=
  mkNodeRun Success (started_at r) (Some t) (error r) (input r) (usage r).

Definition fail_run (r : NodeRun) (t : instant) (msg : string) : NodeRun :=
  mkNodeRun Failed (started_at r) (Some t) (Some msg) (input r) (usage r).

Definition put_run (identity : string) (r : NodeRun) : TaskContext -> TaskContext :=
  set_node_runs <[identity := r]>.

(** [if let Some(run) = ctx.node_runs.get_mut(&identity) { .. Utc::now() .. }] *)
Definition leave_run (identity : string) (f : NodeRun -> instant -> NodeRun)
    (ctx : TaskContext) : M TaskContext :=
  match node_runs ctx !! identity with
  | Some run => t <-- now ;; ret (put_run identity (f run t) ctx)
  | None => ret ctx
  end.

(** The output payload of a dispatch as the ledger retains it. *)
Definition payload_of (ctx : TaskContext) (identity : string) (cap : Z) : option value * bool :=
  match nodes ctx !! identity with
  | Some raw => let '(capped, truncated) := truncate_payload raw cap in (Some capped, truncated)
  | None => (None, false)
  end.

(** The failed dispatch's context: the pre-call snapshot, the sessions the
    error carried out, its structured result. *)
Definition replay (identity : string) (err : NodeError) (ctx : TaskContext) : TaskContext :=
  let ctx := set_metadata (fun m => foldl append_session m (sessions err)) ctx in
  match node_result err with
  | Some r => set_nodes <[identity := r]> ctx
  | None => ctx
  end.

Definition node_context (node : Node) (ctx : TaskContext) : M (TaskContext * bool) :=
  let identity := name node in
  t <-- now ;;
  let pre := put_run identity (enter_run (node_runs ctx !! identity) t) ctx in
  progress pre ;;;
  let run_id := read_run_id (metadata pre) in
  let campaign_id := read_campaign_id pre in
  started_at <-- now ;;
  r <-- call node pre ;;
  match r with
  | Ok out =>
      out <-- leave_run identity succeed_run out ;;
      emit (NodeDispatched identity run_id campaign_id) ;;;
      let seq := next_seq (metadata out) in
      let cap := payload_cap_from_resolved_policy pre in
      let '(payload, truncated) := payload_of out identity cap in
      id <-- new_v4 ;;
      fin <-- now ;;
      let out := set_metadata (fun m => append_invocation m
        (mkNodeInvocation id run_id campaign_id identity seq started_at fin InvSuccess None
           payload truncated cap)) out in
      progress out ;;;
      ret (out, false)
  | Err err =>
      let cap := payload_cap_from_resolved_policy pre in
      err_ctx <-- leave_run identity (fun r t => fail_run r t (message err))
                    (replay identity err pre) ;;
      emit (NodeFailed identity run_id campaign_id (message err)) ;;;
      let seq := next_seq (metadata err_ctx) in
      id <-- new_v4 ;;
      fin <-- now ;;
      let err_ctx := set_metadata (fun m => append_invocation m
        (mkNodeInvocation id run_id campaign_id identity seq started_at fin InvFailed
           (Some (message err)) None false cap)) err_ctx in
      progress err_ctx ;;;
      ret (err_ctx, true)
  end.

(** ** Workflow *)

Record Workflow := mkWorkflow {
  registry : gmap string Node;
  schema : WorkflowSchema;
  seeded_nodes : gmap string value
}.

Definition Workflow_new (reg : gmap string Node) (s : WorkflowSchema) : Workflow :=
  mkWorkflow reg s ∅.

(** The outer [None] is the validator running out of fuel, which
    [validate_spec] excludes. *)
Definition new_validated (reg : gmap string Node) (s : WorkflowSchema)
  : option (result Workflow ValidationError) :=
  r ← validate reg s;
  Some match r with Ok _ => Ok (mkWorkflow reg s ∅) | Err e => Err e end.

Definition with_seeded_nodes (wf : Workflow) (seeded : gmap string value) : Workflow :=
  mkWorkflow (registry wf) (schema wf) seeded.
Definition without_seeded_nodes (wf : Workflow) : Workflow :=
  mkWorkflow (registry wf) (schema wf) ∅.
Definition has_node (wf : Workflow) (identity : string) : bool := contains (registry wf) identity.

Record RunOptions := mkRunOptions {
  cancellation_token : option flag_ref;
  opt_budget : option Budget;
  pause_signal : option flag_ref;
  run_id : option uuid
}.
Definition RunOptions_default : RunOptions := mkRunOptions None None None None.

Record ResumeState := mkResumeState {
  rs_ctx : TaskContext;
  at_identity : string;
  rs_ledger : BudgetLedger
}.

(** [for identity in self.schema.nodes.keys()] *)
Definition seed_missing_pending (wf : Workflow) (ctx : TaskContext) : TaskContext :=
  foldl (fun c id => match node_runs c !! id with
                     | Some _ => c
                     | None => put_run id pending_run c end)
    ctx (hm_keys (schema_nodes (schema wf))).

Definition seed_context (wf : Workflow) (event : value) : TaskContext :=
  foldl (fun c id => put_run id pending_run c)
    (mkTaskContext event (seeded_nodes wf) jempty ∅) (hm_keys (schema_nodes (schema wf))).

Definition finish_suspended (ctx : TaskContext) (resume_at : option string) (r : SuspendReason)
    (origin : option string) (l : BudgetLedger) : M TaskContext :=
  match resume_at with
  | None => ret ctx
  | Some at_ =>
      t <-- now ;;
      ret (set_metadata (fun m => stamp_suspended t m (mkSuspension at_ r origin l)) ctx)
  end.

Definition stamp_telemetry (wf : Workflow) (ctx : TaskContext) : M TaskContext :=
  t <-- now ;; ret (stamp_run_telemetry t (start_node (schema wf)) ctx).

(** What one turn of the loop decides. *)
Inductive Turn :=
| Return (r : result TaskContext WorkflowError)
| Break (ctx : TaskContext)
| Continue (ctx : TaskContext) (current : option string) (l : BudgetLedger).

(** [stamp_run_telemetry(..); on_progress(&ctx); return Ok(ctx)] *)
Definition halt_with (wf : Workflow) (ctx : TaskContext) : M Turn :=
  ctx <-- stamp_telemetry wf ctx ;;
  progress ctx ;;;
  ret (Return (Ok ctx)).

(** [if let Some(token) = .. { if token.is_cancelled() .. }] *)
Definition poll (f : option flag_ref) : M bool :=
  match f with Some f => read_flag f | None => ret false end.

Definition walk_step (wf : Workflow) (options : RunOptions) (ctx : TaskContext)
    (identity : string) (ledger : BudgetLedger) : M Turn :=
  cancelled <-- poll (cancellation_token options) ;;
  if (cancelled : bool) then
    t <-- now ;;
    halt_with wf (set_metadata (stamp_cancelled t) ctx)
  else
  match check ledger (opt_budget options) with
  | Halt r => halt_with wf (set_metadata (fun m => stamp_budget_halt m r) ctx)
  | Allow =>
      paused <-- poll (pause_signal options) ;;
      if (paused : bool) then
        ctx <-- finish_suspended ctx (Some identity) OperatorPause None ledger ;;
        halt_with wf ctx
      else
      match registry_get (registry wf) identity with
      | None => ret (Return (Err (mkWorkflowError
                  ("no node registered for identity '" +:+ identity +:+ "'"))))
      | Some node =>
          emit (Dispatch identity ledger) ;;;
          cf <-- node_context node ctx ;;
          let ctx := fst cf in
          if snd cf : bool then ret (Break ctx)
          else
          router_next <-- match as_router node with
                          | Some route => next <-- ask (dispatch_route route ctx) ;; ret (Some next)
                          | None => ret None
                          end ;;
          let ledger := record_node ctx ledger identity in
          let current := match router_next with
                         | Some next => next
                         | None => next_after (schema wf) identity
                         end in
          if suspension_requested (metadata ctx) && bool_decide (is_Some current) then
            let r := requested_reason (metadata ctx) in
            ctx <-- finish_suspended ctx current r (Some identity) ledger ;;
            halt_with wf ctx
          else ret (Continue ctx current ledger)
      end
  end.

Definition finish_walk (wf : Workflow) (ctx : TaskContext)
  : M (option (result TaskContext WorkflowError)) :=
  ctx <-- stamp_telemetry wf ctx ;; ret (Some (Ok ctx)).

(** The [while let Some(identity) = current] loop. *)
Fixpoint walk_loop (wf : Workflow) (options : RunOptions) (fuel : nat) (ctx : TaskContext)
    (current : option string) (ledger : BudgetLedger)
  : M (option (result TaskContext WorkflowError)) :=
  match current with
  | None => finish_walk wf ctx
  | Some identity =>
      match fuel with
      | O => ret None
      | S f =>
          turn <-- walk_step wf options ctx identity ledger ;;
          match turn with
          | Return r => ret (Some r)
          | Break ctx => finish_walk wf ctx
          | Continue ctx current ledger => walk_loop wf options f ctx current ledger
          end
      end
  end.

Definition walk (wf : Workflow) (options : RunOptions) (fuel : nat) (ctx : TaskContext)
    (current : option string) (ledger : BudgetLedger)
  : M (option (result TaskContext WorkflowError)) :=
  emit (Span (read_run_id (metadata ctx)) (read_campaign_id ctx)) ;;;
  progress ctx ;;;
  walk_loop wf options fuel ctx current ledger.

Definition stamp_opt_run_id (run_id : option uuid) (ctx : TaskContext) : TaskContext :=
  match run_id with
  | Some u => set_metadata (fun m => stamp_run_id m u) ctx
  | None => ctx
  end.

Definition run_with (wf : Workflow) (fuel : nat) (event : value) (options : RunOptions)
  : M (option (result TaskContext WorkflowError)) :=
  walk wf options fuel (stamp_opt_run_id (run_id options) (seed_context wf event))
    (Some (start_node (schema wf))) ledger_new.

Definition run (wf : Workflow) (fuel : nat) (event : value)
  : M (option (result TaskContext WorkflowError)) :=
  run_with wf fuel event RunOptions_default.

(** The outer [None] is [stamp_resumed]'s panic. *)
Definition run_from (wf : Workflow) (fuel : nat) (state : ResumeState) (options : RunOptions)
  : option (M (option (result TaskContext WorkflowError))) :=
  let ctx := seed_missing_pending wf (rs_ctx state) in
  m ← stamp_resumed (metadata ctx);
  Some (walk wf options fuel (stamp_opt_run_id (run_id options) (set_metadata (fun _ => m) ctx))
          (Some (at_identity state)) (rs_ledger state)).
End Workflow.

(** ** Reading a run of the monad backwards *)

Section EffectFacts.
Context {X : Extern} {R : Runtime}.

Lemma bind_inv {A B} (m : M A) (k : A -> M B) w b w' t :
  bind m k w = (b, w', t) ->
  exists a w1 t1 t2, m w = (a, w1, t1) /\ k a w1 = (b, w', t2) /\ t = t1 ++ t2.
Proof.
  unfold bind. destruct (m w) as [[a w1] t1]. destruct (k a w1) as [[b' w2] t2] eqn:E.
  intros [= <- <- <-]. eauto 10.
Qed.
End EffectFacts.

(** Splits every bind of a hypothesis [m w = (b, w', t)]. *)
Ltac inv_m H :=
  repeat match type of H with
  | bind _ _ _ = _ =>
      let a := fresh "a" in let w1 := fresh "w" in let t1 := fresh "t" in
      let t2 := fresh "t" in let Ha := fresh "Hm" in let Ht := fresh "Ht" in
      apply bind_inv in H; destruct H as (a & w1 & t1 & t2 & Ha & H & Ht)
  end.

Ltac inv_ret :=
  repeat match goal with
  | H : ret _ _ = _ |- _ => unfold ret in H; injection H as ? ? ?; subst
  | H : emit _ _ = _ |- _ => unfold emit in H; injection H as ? ? ?; subst
  | H : progress _ _ _ = _ |- _ => unfold progress in H; injection H as ? ? ?; subst
  | H : ask _ _ = _ |- _ => unfold ask in H; injection H as ? ? ?; subst
  | H : now _ = _ |- _ => unfold now in H; injection H as H ?; subst
  | H : new_v4 _ = _ |- _ => unfold new_v4 in H; injection H as H ?; subst
  | H : call _ _ _ = _ |- _ => unfold call in H; injection H as H ?; subst
  | H : read_flag _ _ = _ |- _ => unfold read_flag in H; injection H as H ?; subst
  end; simpl in *.

Section NodeContext.
Context {X : Extern} {R : Runtime}.
Variable on_progress : TaskContext -> W -> W.

(** A context with its own ledger row for a dispatch. *)
Definition with_row (row : NodeInvocation) : TaskContext -> TaskContext :=
  set_metadata (fun m => append_invocation m row).

Definition left_run (identity : string) (f : NodeRun -> instant -> NodeRun) (t : instant)
    (ctx : TaskContext) : TaskContext :=
  match node_runs ctx !! identity with
  | Some run => put_run identity (f run t) ctx
  | None => ctx
  end.

Lemma leave_run_inv id f ctx w ctx' w' tr :
  leave_run id f ctx w = (ctx', w', tr) -> tr = [] /\ exists t, ctx' = left_run id f t ctx.
Proof.
  unfold leave_run, left_run. intros H. destruct (node_runs ctx !! id).
  - inv_m H. inv_ret. eauto.
  - inv_ret. split; [done|]. by exists 0%Z.
Qed.

(** The whole envelope: the only thing that is not spelled out is which
    instants the clock gave for the closing stamps. *)
Lemma node_context_inv node ctx w ctx' failed w' tr :
  node_context on_progress node ctx w = ((ctx', failed), w', tr) ->
  let id := name node in
  exists t w1 ts w2,
    w_now w = (t, w1) /\
    let pre := put_run id (enter_run (node_runs ctx !! id) t) ctx in
    w_now (on_progress pre w1) = (ts, w2) /\
    let run := read_run_id (metadata pre) in
    let camp := read_campaign_id pre in
    let cap := payload_cap_from_resolved_policy pre in
    exists tend iid tfin,
    match (process node pre w2).1 with
    | Ok out =>
        let out := left_run id succeed_run tend out in
        failed = false /\
        ctx' = with_row (mkNodeInvocation iid run camp id (next_seq (metadata out)) ts tfin
                  InvSuccess None (payload_of out id cap).1 (payload_of out id cap).2 cap) out /\
        tr = [Progress pre; NodeDispatched id run camp; Progress ctx']
    | Err err =>
        let out := left_run id (fun r t => fail_run r t (message err)) tend (replay id err pre) in
        failed = true /\
        ctx' = with_row (mkNodeInvocation iid run camp id (next_seq (metadata out)) ts tfin
                  InvFailed (Some (message err)) None false cap) out /\
        tr = [Progress pre; NodeFailed id run camp (message err); Progress ctx']
    end.
Proof.
  intros H id. subst id. unfold node_context in H. inv_m H. inv_ret.
  exists a, w0, a1, w2. split; [done|]. split; [done|]. simpl. rewrite Hm2.
  destruct a2 as [out|err]; inv_m H; apply leave_run_inv in Hm0 as (-> & tend & ->).
  - destruct (payload_of _ _ _) as [p b] eqn:Ep. inv_m H. inv_ret.
    eexists tend, _, _. rewrite Ep. done.
  - inv_ret. eexists tend, _, _. done.
Qed.
End NodeContext.

(** ** The turns of the walk as a step relation *)

Section Steps.
Context {X : Extern} {R : Runtime} {HO : HashOrder}.
Variable on_progress : TaskContext -> W -> W.

Definition telemetered (wf : Workflow) (t : instant) (ctx : TaskContext) : TaskContext :=
  stamp_run_telemetry t (start_node (schema wf)) ctx.

Definition suspended_ctx (t : instant) (s : Suspension) (ctx : TaskContext) : TaskContext :=
  set_metadata (fun m => stamp_suspended t m s) ctx.

(** Where control goes after [identity] has completed in [ctx]. *)
Definition successor (wf : Workflow) (node : Node) (identity : string) (ctx : TaskContext) (w : W)
  : option string :=
  match as_router node with
  | Some route => dispatch_route route ctx w
  | None => next_after (schema wf) identity
  end.

(** [Step wf o ctx id l turn tr]: at the boundary before [id], with ledger
    [l], the walk decides [turn] and logs [tr].  The constructors are the
    turn's outcomes in the order the code tries them; each carries the
    negation of the earlier guards. *)
Inductive Step (wf : Workflow) (o : RunOptions) (ctx : TaskContext) (id : string)
    (l : BudgetLedger) : W -> Turn -> list Event -> Prop :=
| StepCancelled w t t' w1 :
    poll (cancellation_token o) w = (true, w1, []) ->
    let c := telemetered wf t' (set_metadata (stamp_cancelled t) ctx) in
    Step wf o ctx id l w (Return (Ok c)) [Progress c]
| StepBudget w r t' w1 :
    poll (cancellation_token o) w = (false, w1, []) ->
    check l (opt_budget o) = Halt r ->
    let c := telemetered wf t' (set_metadata (fun m => stamp_budget_halt m r) ctx) in
    Step wf o ctx id l w (Return (Ok c)) [Progress c]
| StepPaused w t t' w1 w2 :
    poll (cancellation_token o) w = (false, w1, []) ->
    check l (opt_budget o) = Allow ->
    poll (pause_signal o) w1 = (true, w2, []) ->
    let c := telemetered wf t' (suspended_ctx t (mkSuspension id OperatorPause None l) ctx) in
    Step wf o ctx id l w (Return (Ok c)) [Progress c]
| StepUnregistered w w1 w2 e :
    poll (cancellation_token o) w = (false, w1, []) ->
    check l (opt_budget o) = Allow ->
    poll (pause_signal o) w1 = (false, w2, []) ->
    registry wf !! id = None ->
    Step wf o ctx id l w (Return (Err e)) []
| StepFailed w w1 w2 w3 node c tr :
    poll (cancellation_token o) w = (false, w1, []) ->
    check l (opt_budget o) = Allow ->
    poll (pause_signal o) w1 = (false, w2, []) ->
    registry wf !! id = Some node ->
    node_context on_progress node ctx w2 = ((c, true), w3, tr) ->
    Step wf o ctx id l w (Break c) (Dispatch id l :: tr)
| StepContinue w w1 w2 w3 node c tr next :
    poll (cancellation_token o) w = (false, w1, []) ->
    check l (opt_budget o) = Allow ->
    poll (pause_signal o) w1 = (false, w2, []) ->
    registry wf !! id = Some node ->
    node_context on_progress node ctx w2 = ((c, false), w3, tr) ->
    next = successor wf node id c w3 ->
    suspension_requested (metadata c) = false \/ next = None ->
    Step wf o ctx id l w (Continue c next (record_node c l id)) (Dispatch id l :: tr)
| StepSuspended w w1 w2 w3 node c tr next t t' :
    poll (cancellation_token o) w = (false, w1, []) ->
    check l (opt_budget o) = Allow ->
    poll (pause_signal o) w1 = (false, w2, []) ->
    registry wf !! id = Some node ->
    node_context on_progress node ctx w2 = ((c, false), w3, tr) ->
    successor wf node id c w3 = Some next ->
    suspension_requested (metadata c) = true ->
    let c' := telemetered wf t' (suspended_ctx t (mkSuspension next
                (requested_reason (metadata c)) (Some id) (record_node c l id)) c) in
    Step wf o ctx id l w (Return (Ok c')) (Dispatch id l :: tr ++ [Progress c']).

Lemma poll_inv f w b w' t : poll f w = (b, w', t) -> t = [].
Proof.
  unfold poll. destruct f; unfold read_flag, ret; intros; by simplify_eq.
Qed.

Lemma halt_with_inv wf ctx w turn w' tr :
  halt_with on_progress wf ctx w = (turn, w', tr) ->
  exists t, turn = Return (Ok (telemetered wf t ctx)) /\ tr = [Progress (telemetered wf t ctx)].
Proof.
  unfold halt_with, stamp_telemetry. intros H. inv_m H. inv_m Hm. inv_ret. by exists a1.
Qed.

Lemma finish_suspended_inv ctx at_ r o l w c w' tr :
  finish_suspended ctx (Some at_) r o l w = (c, w', tr) ->
  tr = [] /\ exists t, c = suspended_ctx t (mkSuspension at_ r o l) ctx.
Proof.
  unfold finish_suspended. intros H. inv_m H. inv_ret. split; [done|]. by exists a.
Qed.

Lemma ask_router wf node id c w res w' tr :
  (router_next <-- match as_router node with
                   | Some route => next <-- ask (dispatch_route route c) ;; ret (Some next)
                   | None => ret None
                   end ;;
   ret match router_next with Some next => next | None => next_after (schema wf) id end) w
    = (res, w', tr) -> res = successor wf node id c w /\ tr = [] /\ w' = w.
Proof.
  unfold successor. intros H. inv_m H. destruct (as_router node).
  - inv_m Hm. inv_ret. done.
  - inv_ret. done.
Qed.

(** Every turn the code takes is a turn of the relation. *)
Lemma walk_step_sound wf o ctx id l w turn w' tr :
  walk_step on_progress wf o ctx id l w = (turn, w', tr) -> Step wf o ctx id l w turn tr.
Proof.
  intros H. unfold walk_step in H. inv_m H. subst tr.
  pose proof (poll_inv _ _ _ _ _ Hm). subst t. destruct a.
  { inv_m H. apply halt_with_inv in H as (t' & -> & ->). inv_ret. by eapply StepCancelled. }
  destruct (check l (opt_budget o)) as [|r] eqn:Ec.
  2: { apply halt_with_inv in H as (t' & -> & ->). by eapply StepBudget. }
  inv_m H. subst. pose proof (poll_inv _ _ _ _ _ Hm0). subst. destruct a.
  { inv_m H. subst. apply finish_suspended_inv in Hm1 as (-> & t & ->).
    apply halt_with_inv in H as (t' & -> & ->). by eapply StepPaused. }
  unfold registry_get in H. destruct (registry wf !! id) as [node|] eqn:Er.
  2: { inv_ret. by eapply StepUnregistered. }
  inv_m H. subst. unfold emit in Hm1. injection Hm1 as <- <- <-. destruct a0 as [c failed].
  simpl in *. destruct failed.
  { inv_ret. rewrite app_nil_r. by eapply StepFailed. }
  apply bind_inv in H as (rn & w4 & t4 & t5 & Hr & H & ->).
  assert (Hs : match rn with Some next => next | None => next_after (schema wf) id end
               = successor wf node id c w3 /\ t4 = [] /\ w4 = w3).
  { apply (ask_router wf node id c w3 _ w4). unfold bind at 1. rewrite Hr.
    unfold ret. by rewrite app_nil_r. }
  destruct Hs as (Hs & -> & ->). rewrite Hs in H. simpl.
  destruct (suspension_requested (metadata c)) eqn:Esr; simpl in H.
  - case_bool_decide as Hnext.
    + destruct Hnext as [next Hnext]. rewrite Hnext in H.
      apply bind_inv in H as (cs & w5 & t6 & t7 & Hf & H & ->).
      apply finish_suspended_inv in Hf as (-> & t & ->).
      apply halt_with_inv in H as (t' & -> & ->). by eapply StepSuspended.
    + inv_ret. rewrite app_nil_r. eapply StepContinue; eauto.
      right. by apply eq_None_not_Some.
  - inv_ret. rewrite app_nil_r. eapply StepContinue; eauto.
Qed.
End Steps.

(** ** Traces *)

Section Traces.
Context {X : Extern} {R : Runtime} {HO : HashOrder}.
Variable on_progress : TaskContext -> W -> W.

(** The dispatches of a trace, each with the ledger its gate saw. *)
Definition dispatches (tr : list Event) : list (string * BudgetLedger) :=
  omap (fun e => match e with Dispatch id l => Some (id, l) | _ => None end) tr.

Lemma dispatches_app t1 t2 : dispatches (t1 ++ t2) = dispatches t1 ++ dispatches t2.
Proof. apply omap_app. Qed.

Lemma node_context_no_dispatch node ctx w c failed w' tr :
  node_context on_progress node ctx w = ((c, failed), w', tr) -> dispatches tr = [].
Proof.
  intros H. apply node_context_inv in H as (t & w1 & ts & w2 & _ & _ & tend & iid & tfin & H).
  destruct (fst _); destruct H as (_ & _ & ->); done.
Qed.

(** One dispatch leads to the next: the node was registered, it or its router
    named the successor, and the gate saw the ledger with its usage folded. *)
Definition leads_to (wf : Workflow) (a b : string * BudgetLedger) : Prop :=
  exists node c w, registry wf !! a.1 = Some node /\
    successor wf node a.1 c w = Some b.1 /\ b.2 = record_node c a.2 a.1.

Definition dispatch_allowed (wf : Workflow) (o : RunOptions) (d : string * BudgetLedger) : Prop :=
  is_Some (registry wf !! d.1) /\ check d.2 (opt_budget o) = Allow.

Definition conforms (wf : Workflow) (o : RunOptions) (current : option string) (l : BudgetLedger)
    (ds : list (string * BudgetLedger)) : Prop :=
  chain (leads_to wf) ds /\ Forall (dispatch_allowed wf o) ds /\
  match ds with [] => True | d :: _ => current = Some d.1 /\ d.2 = l end.

Lemma conforms_one wf o id l node :
  registry wf !! id = Some node -> check l (opt_budget o) = Allow ->
  conforms wf o (Some id) l [(id, l)].
Proof.
  intros Hr Hc. split; [done|]. split; [|done]. apply Forall_singleton. split; [by eexists|done].
Qed.

Lemma conforms_nil wf o current l : conforms wf o current l [].
Proof. by split_and!. Qed.

Lemma step_dispatches wf o ctx id l w turn tr :
  Step on_progress wf o ctx id l w turn tr ->
  conforms wf o (Some id) l (dispatches tr) /\
  (forall c next l', turn = Continue c next l' ->
     dispatches tr = [(id, l)] /\ l' = record_node c l id /\
     forall b, next = Some b -> leads_to wf (id, l) (b, l')).
Proof.
  destruct 1; simpl; rewrite ?dispatches_app; simpl;
    try match goal with H : node_context _ _ _ _ = _ |- _ =>
          pose proof (node_context_no_dispatch _ _ _ _ _ _ _ H) as Hd; rewrite Hd; simpl end;
    (split; [first [by apply conforms_nil | by eapply conforms_one]|]); [done..| |done].
  intros c' next' l' Ht. injection Ht as <- <- <-. split_and!; [done..|].
  intros b Hb. exists node, c, w3. by subst.
Qed.

Lemma walk_loop_conforms wf o fuel ctx current l w r w' tr :
  walk_loop on_progress wf o fuel ctx current l w = (r, w', tr) ->
  conforms wf o current l (dispatches tr).
Proof.
  revert ctx current l w r w' tr.
  induction fuel as [|f IH]; intros ctx [id|] l w r w' tr H; cbn [walk_loop] in H.
  1: unfold ret in H; simplify_eq; apply conforms_nil.
  1,3: unfold finish_walk, stamp_telemetry in H; inv_m H; inv_m Hm; inv_ret; apply conforms_nil.
  apply bind_inv in H as (turn & w1 & t1 & t2 & Hs & H & ->).
  apply walk_step_sound, step_dispatches in Hs as [Hc Hn]. rewrite dispatches_app.
  destruct turn as [r'|c|c next l'].
  - unfold ret in H. simplify_eq. simpl. by rewrite app_nil_r.
  - unfold finish_walk, stamp_telemetry in H. inv_m H. inv_m Hm. inv_ret.
    by rewrite app_nil_r.
  - destruct (Hn _ _ _ eq_refl) as (Hd & -> & Hl). apply IH in H as (Hch & Hall & Hhd).
    rewrite Hd in Hc |- *. destruct Hc as (_ & Hone & _). simpl.
    destruct (dispatches t2) as [|d ds]; [done|]. destruct Hhd as [-> Hd2].
    split; [|split; [|done]].
    + split; [|done]. specialize (Hl _ eq_refl). destruct d; simpl in *; by subst.
    + constructor; [by inversion Hone|done].
Qed.

(** ** Termination on graphs without routers *)

Definition no_routers (wf : Workflow) : Prop :=
  forall id n, registry wf !! id = Some n -> as_router n = None.

Lemma leads_to_edge wf a b : no_routers wf -> leads_to wf a b -> nr_edge (registry wf) (schema wf) a.1 b.1.
Proof.
  intros Hnr (node & c & w & Hr & Hs & _). pose proof (Hnr _ _ Hr) as Hn. split.
  - unfold is_router, registry_get. by rewrite Hr, Hn.
  - unfold successor in Hs. rewrite Hn in Hs. unfold edge, declared_edges, next_after, next in *.
    destruct (schema_nodes (schema wf) !! a.1) as [cfg|]; simpl in *; [|done].
    destruct (connections cfg); simplify_eq/=. left.
Qed.

Lemma chain_fmap {A B} (f : A -> B) (P : A -> A -> Prop) (Q : B -> B -> Prop) l :
  (forall a b, P a b -> Q (f a) (f b)) -> chain P l -> chain Q (map f l).
Proof.
  intros H. induction l as [|a l IH]; [done|]. destruct l as [|b l]; [done|].
  intros [Hab Hc]. split; [auto|by apply IH].
Qed.

Lemma chain_app_l {A} (E : A -> A -> Prop) l1 l2 : chain E (l1 ++ l2) -> chain E l1.
Proof.
  induction l1 as [|a l1 IH]; [done|]. destruct l1 as [|b l1]; [done|].
  intros [Hab Hc]. split; [done|]. by apply IH.
Qed.

Lemma chain_NoDup {A} (E : A -> A -> Prop) l : (forall x, ~ tc E x x) -> chain E l -> NoDup l.
Proof.
  intros Hac. induction l as [|x l IH]; intros Hc; constructor.
  - intros (l1 & l2 & ->)%list_elem_of_split. apply (Hac x), (chain_tc E x l1 x).
    apply (chain_app_l E _ l2). simpl. by rewrite <- app_assoc.
  - apply IH. by destruct l as [|y l]; [|destruct Hc].
Qed.

Lemma chain_universe wf l :
  chain (nr_edge (registry wf) (schema wf)) l -> head l = Some (start_node (schema wf)) ->
  forall x, x ∈ l -> x ∈ universe (schema wf).
Proof.
  assert (Hgen : forall a l, chain (nr_edge (registry wf) (schema wf)) (a :: l) ->
    forall x, x ∈ l -> x ∈ universe (schema wf)).
  { intros a l'. revert a. induction l' as [|b l' IH]; intros a; [set_solver|].
    intros [[_ Hab] Hc] x [->|Hx]%elem_of_cons; [by eapply edge_universe|by eapply IH]. }
  destruct l as [|a l]; [done|]. intros Hc [= ->] x [->|Hx]%elem_of_cons; [|by eapply Hgen].
  unfold universe. set_solver.
Qed.

Lemma NoDup_universe_length (U : gset string) l :
  NoDup l -> (forall x, x ∈ l -> x ∈ U) -> (length l <= size U)%nat.
Proof.
  intros Hnd Hl. rewrite <- (size_list_to_set (C := gset string)) by done.
  apply subseteq_size. intros x Hx. apply Hl. by apply elem_of_list_to_set in Hx.
Qed.

(** The nodes walked so far, then the one about to run. *)
Lemma walk_loop_total wf o fuel ctx current l w visited :
  no_routers wf -> acyclic (registry wf) (schema wf) ->
  (forall id, current = Some id ->
     chain (nr_edge (registry wf) (schema wf)) (visited ++ [id]) /\
     head (visited ++ [id]) = Some (start_node (schema wf))) ->
  (size (universe (schema wf)) <= length visited + fuel)%nat ->
  exists r w' tr, walk_loop on_progress wf o fuel ctx current l w = (Some r, w', tr).
Proof.
  intros Hnr Hac. revert ctx current l w visited.
  induction fuel as [|f IH]; intros ctx [id|] l w visited Hcur Hf; cbn [walk_loop].
  1: { destruct (Hcur id eq_refl) as [Hch Hhd]. exfalso.
       pose proof (NoDup_universe_length (universe (schema wf)) (visited ++ [id])
         (chain_NoDup _ _ Hac Hch) (chain_universe _ _ Hch Hhd)) as H.
       rewrite length_app in H. simpl in H. lia. }
  1,3: unfold finish_walk, stamp_telemetry, bind, now, ret; destruct (w_now w); by eauto.
  destruct (walk_step on_progress wf o ctx id l w) as [[turn w1] t1] eqn:Es.
  unfold bind. rewrite Es. apply walk_step_sound, step_dispatches in Es as [_ Hn].
  destruct turn as [r'|c|c next l'].
  - unfold ret. eauto.
  - unfold finish_walk, stamp_telemetry, bind, now, ret. destruct (w_now w1). eauto.
  - destruct (Hcur id eq_refl) as [Hch Hhd]. destruct (Hn _ _ _ eq_refl) as (_ & _ & Hl).
    destruct (IH c next l' w1 (visited ++ [id])) as (r & w' & tr & ->); [| |eauto].
    + intros b ->. split.
      * apply chain_snoc; [done|]. by apply (leads_to_edge wf (id, l) (b, l')); [|apply Hl].
      * destruct visited; [done|]. by destruct (visited ++ [id]) eqn:E; rewrite ?E.
    + rewrite length_app. simpl. lia.
Qed.
End Traces.

(** ** Properties of one dispatch *)

Section NodeContextProperties.
Context {X : Extern} {HX : ExternLaws X} {R : Runtime}.
Variable on_progress : TaskContext -> W -> W.

Lemma left_run_frame id f t c :
  event (left_run id f t c) = event c /\ nodes (left_run id f t c) = nodes c /\
  metadata (left_run id f t c) = metadata c /\
  (forall k, k <> id -> node_runs (left_run id f t c) !! k = node_runs c !! k) /\
  node_runs (left_run id f t c) !! id = (fun r => f r t) <$> node_runs c !! id.
Proof.
  unfold left_run. destruct (node_runs c !! id) as [r|] eqn:E; simpl; [|by rewrite E].
  split_and!; [done..| |by rewrite lookup_insert_eq].
  intros k Hk. by rewrite lookup_insert_ne.
Qed.

Lemma replay_frame id err c :
  event (replay id err c) = event c /\ node_runs (replay id err c) = node_runs c /\
  metadata (replay id err c) = foldl append_session (metadata c) (sessions err) /\
  nodes (replay id err c) = match node_result err with
                            | Some r => <[id := r]> (nodes c) | None => nodes c end.
Proof. unfold replay. by destruct (node_result err). Qed.

(** C15: the framework's envelope around a node.  The callback sees the node
    RUNNING before [process] is called and sees the final context after it.
    When the node succeeds, its own context is kept and only its run is
    stamped SUCCESS.  When it fails, everything it did to the context is
    thrown away: what remains is the context as it was on entry, with that
    one run FAILED with the error's message, the sessions the error carried
    out appended to the session ledger, and the error's structured result,
    if any, under the node's identity. *)
Theorem node_context_envelope node ctx w :
  let id := name node in
  let '(t, w1) := w_now w in
  let entered := enter_run (node_runs ctx !! id) t in
  let pre := put_run id entered ctx in
  let '(_, w2) := w_now (on_progress pre w1) in
  let '((ctx', failed), _, tr) := node_context on_progress node ctx w in
  status entered = Running /\
  exists tend ev, tr = [Progress pre; ev; Progress ctx'] /\
  match fst (process node pre w2) with
  | Ok out => failed = false /\ event ctx' = event out /\ nodes ctx' = nodes out /\
      (forall k, k <> id -> node_runs ctx' !! k = node_runs out !! k) /\
      node_runs ctx' !! id = (fun r => succeed_run r tend) <$> node_runs out !! id /\
      (forall k, k <> INVOCATIONS_METADATA_KEY ->
         jget (metadata ctx') k = jget (metadata out) k)
  | Err err => failed = true /\ event ctx' = event ctx /\
      nodes ctx' = match node_result err with
                   | Some r => <[id := r]> (nodes ctx) | None => nodes ctx end /\
      (forall k, k <> id -> node_runs ctx' !! k = node_runs ctx !! k) /\
      node_runs ctx' !! id = Some (fail_run entered tend (message err)) /\
      (forall k, k <> INVOCATIONS_METADATA_KEY -> k <> SESSIONS_METADATA_KEY ->
         jget (metadata ctx') k = jget (metadata ctx) k) /\
      (Forall session_wire_ok (sessions err) ->
         read_sessions (metadata ctx') = read_sessions (metadata ctx) ++ sessions err)
  end.
Proof.
  intros id. destruct (w_now w) as [t w1] eqn:E1. intros entered pre.
  destruct (w_now (on_progress pre w1)) as [ts w2] eqn:E2.
  destruct (node_context on_progress node ctx w) as [[[ctx' failed] w'] tr] eqn:E.
  apply node_context_inv in E as (t_ & w1_ & ts_ & w2_ & H1 & H2 & tend & iid & tfin & H).
  rewrite E1 in H1. simplify_eq. fold id in H2, H. change (put_run id _ ctx) with pre in H2, H.
  rewrite E2 in H2. simplify_eq. split; [by unfold entered, enter_run; destruct (_ !! _)|].
  exists tend. destruct (fst (process node pre w2_)) as [out|err].
  - destruct H as (-> & -> & ->). eexists. split; [done|]. simpl.
    destruct (left_run_frame id succeed_run tend out) as (?&?&Hm&?&?).
    split_and!; try done. intros k Hk. by rewrite jget_append_invocation_ne, Hm.
  - destruct H as (-> & -> & ->). eexists. split; [done|]. simpl.
    destruct (left_run_frame id (fun r t => fail_run r t (message err)) tend
      (replay id err pre)) as (He & Hn & Hm & Hk & Hi).
    destruct (replay_frame id err pre) as (Re & Rr & Rm & Rn).
    split_and!; [done|by rewrite He, Re|by rewrite Hn, Rn|..].
    + intros k Hne. rewrite Hk, Rr by done. unfold pre. simpl. by rewrite lookup_insert_ne.
    + rewrite Hi, Rr. unfold pre. simpl. by rewrite lookup_insert_eq.
    + intros k H3 H4. rewrite jget_append_invocation_ne, Hm, Rm by done.
      by rewrite jget_foldl_append_session_ne.
    + intros Hw. rewrite read_sessions_append_invocation, Hm, Rm.
      by rewrite read_sessions_foldl_append.
Qed.

(** Rows are numbered 0, 1, 2, .. in append order. *)
Definition dense_ledger (m : value) : Prop :=
  map inv_seq (read_invocations m) = seqZ 0 (Z.of_nat (length (read_invocations m))).

Lemma dense_append m m' row :
  read_invocations m' = read_invocations m ++ [row] -> inv_seq row = next_seq m ->
  dense_ledger m -> dense_ledger m'.
Proof.
  unfold dense_ledger, next_seq. intros -> Hs Hd. rewrite map_app, Hd, length_app. simpl.
  rewrite Hs, Nat2Z.inj_add, seqZ_app by lia. done.
Qed.

(** The row a dispatch leaves, and what it is appended to. *)
Lemma dispatch_row node ctx w ctx' failed w' tr t w1 ts w2 :
  let id := name node in
  let pre := put_run id (enter_run (node_runs ctx !! id) t) ctx in
  let cap := payload_cap_from_resolved_policy pre in
  let r := fst (process node pre w2) in
  let base := match r with Ok out => metadata out | Err _ => metadata ctx end in
  node_context on_progress node ctx w = ((ctx', failed), w', tr) ->
  w_now w = (t, w1) -> w_now (on_progress pre w1) = (ts, w2) ->
  (next_seq base < u64_modulus)%Z ->
  (forall out v, r = Ok out -> nodes out !! id = Some v -> kind v <> KNull) ->
  failed = negb (is_ok r) /\
  exists row, read_invocations (metadata ctx') = read_invocations base ++ [row] /\
    inv_node row = id /\ inv_seq row = next_seq base /\ inv_started_at row = ts /\
    inv_run_id row = read_run_id (metadata ctx) /\ inv_payload_cap_bytes row = cap /\
    match r with
    | Ok out => inv_status row = InvSuccess /\ inv_error row = None /\
        inv_payload row = (fun v => fst (truncate_payload v cap)) <$> nodes out !! id
    | Err err => inv_status row = InvFailed /\ inv_error row = Some (message err) /\
        inv_payload row = None
    end.
Proof.
  intros id pre cap r base E E1 E2 Hb Hk.
  apply node_context_inv in E as (t_ & w1_ & ts_ & w2_ & H1 & H2 & tend & iid & tfin & H).
  rewrite E1 in H1. simplify_eq. fold id in H2, H. change (put_run id _ ctx) with pre in H2, H.
  rewrite E2 in H2. simplify_eq. fold cap in H. fold r in H.
  assert (Hseq : u64_ok (next_seq base)) by (unfold next_seq, u64_ok in *; lia).
  destruct r as [out|err] eqn:Er; destruct H as (-> & -> & ->); split; try done; simpl.
  - destruct (left_run_frame id succeed_run tend out) as (He & Hn & Hm & _).
    rewrite Hm in *. eexists. split; [apply read_invocations_append|].
    + split_and!; [done|apply payload_cap_range|]. simpl. unfold payload_of.
      rewrite Hn. destruct (nodes out !! id) as [v|] eqn:Ev; simpl; [|done].
      destruct (truncate_payload v cap) as [p b] eqn:Ep. simpl. intros ? [= <-].
      eapply truncate_payload_kind; [done|]. by eapply Hk.
    + split_and!; try done. simpl. unfold payload_of. rewrite Hn.
      destruct (nodes out !! id); [|done]. simpl. by destruct (truncate_payload _ _).
  - destruct (left_run_frame id (fun r t => fail_run r t (message err)) tend
      (replay id err pre)) as (He & Hn & Hm & _).
    destruct (replay_frame id err pre) as (_ & _ & Rm & _). rewrite Hm, Rm.
    assert (Hri : read_invocations (foldl append_session (metadata pre) (sessions err))
                  = read_invocations base).
    { by rewrite read_invocations_append_sessions. }
    assert (Hns : next_seq (foldl append_session (metadata pre) (sessions err)) = next_seq base).
    { unfold next_seq. by rewrite Hri. }
    rewrite Hns. eexists. rewrite read_invocations_append, Hri; [split; [done|by split_and!]|].
    split_and!; [done|apply payload_cap_range|done].
Qed.

(** One dispatch, one row.  Whatever the outcome, exactly one invocation
    is appended to the dispatch ledger, on top of the ledger as the node left
    it (on success) or as it was on entry (on failure): it names the node,
    carries the next sequence number, the outcome and the pre-call run id,
    and, on success, the node's output as capped by the retention policy read
    before the call.  A ledger numbered 0, 1, 2, .. stays so. *)
Theorem node_context_ledger node ctx w :
  let id := name node in
  let '(t, w1) := w_now w in
  let pre := put_run id (enter_run (node_runs ctx !! id) t) ctx in
  let '(ts, w2) := w_now (on_progress pre w1) in
  let cap := payload_cap_from_resolved_policy pre in
  let '((ctx', _), _, _) := node_context on_progress node ctx w in
  let base := match fst (process node pre w2) with
              | Ok out => metadata out | Err _ => metadata ctx end in
  (next_seq base < u64_modulus)%Z ->
  (forall out v, fst (process node pre w2) = Ok out -> nodes out !! id = Some v ->
     kind v <> KNull) ->
  exists row, read_invocations (metadata ctx') = read_invocations base ++ [row] /\
    inv_node row = id /\ inv_seq row = next_seq base /\ inv_started_at row = ts /\
    inv_run_id row = read_run_id (metadata ctx) /\ inv_payload_cap_bytes row = cap /\
    match fst (process node pre w2) with
    | Ok out => inv_status row = InvSuccess /\ inv_error row = None /\
        inv_payload row = (fun v => fst (truncate_payload v cap)) <$> nodes out !! id
    | Err err => inv_status row = InvFailed /\ inv_error row = Some (message err) /\
        inv_payload row = None
    end /\ (dense_ledger base -> dense_ledger (metadata ctx')).
Proof.
  intros id. destruct (w_now w) as [t w1] eqn:E1. intros pre.
  destruct (w_now (on_progress pre w1)) as [ts w2] eqn:E2. intros cap.
  destruct (node_context on_progress node ctx w) as [[[ctx' failed] w'] tr] eqn:E.
  intros base Hb Hk.
  destruct (dispatch_row node ctx w ctx' failed w' tr t w1 ts w2 E E1 E2 Hb Hk)
    as (_ & row & Hr & Hn & Hs & Ht & Hi & Hc & Hp).
  exists row. split_and!; try done.
  intros Hd. by eapply dense_append.
Qed.
End NodeContextProperties.

(** ** Properties of the walk *)

Section WalkProperties.
Context {X : Extern} {HX : ExternLaws X} {R : Runtime} {HO : HashOrder}.
Lemma telemetered_frame wf t c :
  nodes (telemetered wf t c) = nodes c /\ node_runs (telemetered wf t c) = node_runs c /\
  event (telemetered wf t c) = event c /\
  forall k, k <> RUN_TELEMETRY_METADATA_KEY ->
    jget (metadata (telemetered wf t c)) k = jget (metadata c) k.
Proof.
  destruct (stamp_run_telemetry_frame t (start_node (schema wf)) c) as (?&?&?&?). by split_and!.
Qed.

Lemma flag_stamp m k1 k2 kvs :
  flag (jset (ensure_object m) k1 (json_object kvs)) k1 k2
    = default false (assoc_last k2 kvs ≫= as_bool).
Proof. unfold flag. rewrite jget_stamp. simpl. by rewrite jget_json_object. Qed.

Lemma flag_telemetered wf t c k1 k2 :
  k1 <> RUN_TELEMETRY_METADATA_KEY ->
  flag (metadata (telemetered wf t c)) k1 k2 = flag (metadata c) k1 k2.
Proof. intros H. destruct (telemetered_frame wf t c) as (_&_&_&Hk). unfold flag. by rewrite Hk. Qed.

Lemma read_suspension_telemetered wf t c :
  read_suspension (metadata (telemetered wf t c)) = read_suspension (metadata c).
Proof.
  destruct (telemetered_frame wf t c) as (_&_&_&Hk). unfold read_suspension. by rewrite Hk.
Qed.

Lemma read_suspended_ctx t s c :
  ledger_wire_ok (s_ledger s) ->
  read_suspension (metadata (suspended_ctx t s c))
    = Some (state_of (from_option resume_count 0%Z (read_suspension (metadata c))) s).
Proof.
  intros Hl. unfold suspended_ctx, stamp_suspended. simpl.
  rewrite read_suspension_stamp, read_suspension_ensure.
  apply suspended_marker_read; [done|]. apply existing_count_range.
Qed.

Variable on_progress : TaskContext -> W -> W.

(** C14: the node boundary.  Before every node the walk looks, in this order,
    at the cancellation token, the budget gate and the pause signal; the
    first that fires ends the run with [Ok] without dispatching anything,
    with every node output and envelope untouched and the halt reported once
    through the callback: a cancelled run derives the status [cancelled], a
    run over a cap [budget_halted] (unless cancelled before) with the cap's
    own reason, and a paused run carries the pending node as its resume
    pointer with the ledger's totals.  When none fires and the node is
    registered, the node is dispatched. *)
Theorem boundary_order wf o ctx id l w :
  let '(cancelled, w1, _) := poll (cancellation_token o) w in
  let '(paused, _, _) := poll (pause_signal o) w1 in
  let '(turn, _, tr) := walk_step on_progress wf o ctx id l w in
  let halted_as P := exists c, turn = Return (Ok c) /\ tr = [Progress c] /\
    nodes c = nodes ctx /\ node_runs c = node_runs ctx /\ P c in
  match cancelled, check l (opt_budget o), paused with
  | true, _, _ => halted_as (fun c => derive_terminal_status c = "cancelled")
  | false, Halt r, _ => halted_as (fun c =>
      (flag (metadata ctx) CANCELLATION_METADATA_KEY "cancelled" = false ->
       derive_terminal_status c = "budget_halted") /\
      (v ← jget (metadata c) BUDGET_METADATA_KEY; jget v "reason") = Some (halt_reason_to_json r))
  | false, Allow, true => halted_as (fun c => ledger_wire_ok l ->
      read_suspension (metadata c) =
        Some (state_of (from_option resume_count 0%Z (read_suspension (metadata ctx)))
                (mkSuspension id OperatorPause None l)))
  | false, Allow, false =>
      if has_node wf id then head tr = Some (Dispatch id l)
      else tr = [] /\ exists e, turn = Return (Err e)
  end.
Proof.
  destruct (poll (cancellation_token o) w) as [[cancelled w1] t1] eqn:Ec.
  destruct (poll (pause_signal o) w1) as [[paused w2] t2] eqn:Ep.
  destruct (walk_step on_progress wf o ctx id l w) as [[turn w'] tr] eqn:Es.
  apply walk_step_sound in Es. unfold has_node, contains.
  inversion Es; subst; rewrite Ec in *; simplify_eq; try rewrite Ep in *; simplify_eq;
    repeat match goal with H : check _ _ = _ |- _ => rewrite H
                         | H : registry _ !! _ = _ |- _ => rewrite H end; [..|done|done|done].
  - subst c. eexists. split_and!; [done..|]. unfold derive_terminal_status.
    rewrite flag_telemetered by done. simpl. unfold stamp_cancelled. rewrite flag_stamp. simpl.
    by rewrite as_bool_bool.
  - subst c. eexists. split_and!; [done..| |].
    + intros Hc. unfold derive_terminal_status. rewrite !flag_telemetered by done. simpl.
      unfold stamp_budget_halt. rewrite flag_stamp. simpl. rewrite as_bool_bool.
      unfold flag at 1. rewrite jget_stamp_ne by done.
      unfold flag in Hc. by rewrite Hc.
    + destruct (telemetered_frame wf t' (set_metadata (fun m => stamp_budget_halt m r) ctx))
        as (_&_&_&Hk). rewrite Hk by done. simpl. unfold stamp_budget_halt.
      rewrite jget_stamp. simpl. by rewrite jget_json_object.
  - subst c. eexists. split_and!; [done..|]. intros Hl.
    by rewrite read_suspension_telemetered, read_suspended_ctx.
  - rewrite bool_decide_false by (by intros []). eauto.
Qed.

(** One dispatch of a walk: the node, the ledger the gate saw, the context and
    the world at the boundary before it, and what it left. *)
Record Hop := mkHop {
  h_id : string; h_ledger : BudgetLedger;
  h_before : TaskContext; h_world : W;
  h_after : TaskContext; h_left : W
}.

(** At its boundary the hop was not cancelled, within the budget and not paused,
    in this order, its node is registered, and [node_context] ran that node on
    the context of the boundary, failing or not. *)
Definition hop_ran (wf : Workflow) (o : RunOptions) (h : Hop) (failed : bool) : Prop :=
  exists w1 w2 node tr,
    poll (cancellation_token o) (h_world h) = (false, w1, []) /\
    check (h_ledger h) (opt_budget o) = Allow /\
    poll (pause_signal o) w1 = (false, w2, []) /\
    registry wf !! h_id h = Some node /\
    node_context on_progress node (h_before h) w2 = ((h_after h, failed), h_left h, tr).
(** Where the walk stands after its hops: the node to go to, and with what.  The
    successor is the router's answer to the context and the world the node
    left, or the first connection the schema declares; the node's usage, as that
    context records it, is in the ledger. *)
Definition stands (wf : Workflow) (current : option string) (ctx : TaskContext) (l : BudgetLedger) (w : W)
    (hops : list Hop) : option string * TaskContext * BudgetLedger * W :=
  match last hops with
  | None => (current, ctx, l, w)
  | Some h =>
      (match registry wf !! h_id h with
       | Some node => match as_router node with
                      | Some route => dispatch_route route (h_after h) (h_left h)
                      | None => next_after (schema wf) (h_id h)
                      end
       | None => None
       end, h_after h, record_node (h_after h) (h_ledger h) (h_id h), h_left h)
  end.
(** A hop from where the walk stands. *)
Definition hops_from (pos : option string * TaskContext * BudgetLedger * W) (h : Hop) : Prop :=
  pos = (Some (h_id h), h_before h, h_ledger h, h_world h).
(** Each hop starts where the ones before it left the walk, none of which failed
    or was followed by a suspension that could be honoured. *)
Definition hops_chain (wf : Workflow) (o : RunOptions) current ctx l w (hops : list Hop) : Prop :=
  forall pre h post, hops = pre ++ h :: post ->
    hops_from (stands wf current ctx l w pre) h /\ (exists failed, hop_ran wf o h failed) /\
    (post <> [] -> hop_ran wf o h false /\ suspension_requested (metadata (h_after h)) = false).

(** Why a walk that stands at [pos] after [hops] ends as it does. *)
Definition ends_with (wf : Workflow) (o : RunOptions) (fuel : nat) (hops : list Hop)
    (pos : option string * TaskContext * BudgetLedger * W)
    (r : option (result TaskContext WorkflowError)) : Prop :=
  let '(cur, c0, l0, w0) := pos in
  let open_until w2 := exists w1, poll (cancellation_token o) w0 = (false, w1, []) /\
    check l0 (opt_budget o) = Allow /\ poll (pause_signal o) w1 = (false, w2, []) in
  match r with
  | None => length hops = fuel /\ is_Some cur
  | Some (Err _) => exists id w2, cur = Some id /\ registry wf !! id = None /\ open_until w2
  | Some (Ok c) =>
      nodes c = nodes c0 /\ node_runs c = node_runs c0 /\ event c = event c0 /\
      (cur = None \/
       (exists h, last hops = Some h /\ hop_ran wf o h true) \/
       (exists h, last hops = Some h /\ hop_ran wf o h false /\ suspension_requested (metadata c0) = true /\ is_Some cur) \/
       (exists w1, poll (cancellation_token o) w0 = (true, w1, [])) \/
       (exists w1, poll (cancellation_token o) w0 = (false, w1, []) /\
          ((exists why, check l0 (opt_budget o) = Halt why) \/
           (check l0 (opt_budget o) = Allow /\ exists w2, poll (pause_signal o) w1 = (true, w2, [])))))
  end.

Lemma continue_world wf o ctx id l w c next l' w' tr :
  walk_step on_progress wf o ctx id l w = (Continue c next l', w', tr) ->
  exists trn, hop_ran wf o (mkHop id l ctx w c w') false /\ tr = Dispatch id l :: trn /\ dispatches trn = [] /\
    (exists node, registry wf !! id = Some node /\ next = successor wf node id c w') /\ l' = record_node c l id /\
    (suspension_requested (metadata c) = false \/ next = None).
Proof.
  intros E. pose proof E as Es. apply walk_step_sound in Es.
  inversion Es as [| | | | |? w1 w2 w3 node ? trn ? Hc Hk Hp Hr Hn Hnext Hs|]; subst.
  assert (w' = w3) as ->.
  { unfold walk_step, bind in E. rewrite Hc, Hk in E. rewrite Hp in E. unfold registry_get in E. rewrite Hr in E.
    unfold emit in E. rewrite Hn in E. cbn [fst snd] in E.
    unfold successor in *. destruct (as_router node); unfold ask, ret in E; cbn in E;
      destruct (suspension_requested (metadata c) && bool_decide _) eqn:Eb; cbn in E;
      try (by simplify_eq); exfalso; apply andb_true_iff in Eb as [Eb1 Eb2%bool_decide_eq_true];
      destruct Hs as [Hs|Hs]; first [congruence|rewrite Hs in Eb2; by destruct Eb2]. }
  exists trn. split; [by exists w1, w2, node, trn|]. split; [done|].
  split; [by eapply node_context_no_dispatch|]. split; [by exists node|done].
Qed.

Lemma stands_cons wf current ctx l w h hops :
  stands wf current ctx l w (h :: hops) =
  let '(cur, c, l', w') := stands wf current ctx l w [h] in stands wf cur c l' w' hops.
Proof.
  destruct hops as [|h' hops]; [done|]. cbn [stands last]. unfold stands. cbn [last].
  change (last (h' :: hops)) with (last (h' :: hops)). by destruct (last (h' :: hops)) eqn:E; [|by apply last_None in E].
Qed.

Lemma stands_one wf current ctx l w h node :
  registry wf !! h_id h = Some node ->
  stands wf current ctx l w [h] =
  (successor wf node (h_id h) (h_after h) (h_left h), h_after h, record_node (h_after h) (h_ledger h) (h_id h), h_left h).
Proof. unfold stands. cbn [last]. by intros ->. Qed.

Lemma chain_nil wf o current ctx l w : hops_chain wf o current ctx l w [].
Proof. by intros [|] h0 post [=]. Qed.
Lemma chain_cons wf o current ctx l w h hops cur c l' w' :
  hops_from (current, ctx, l, w) h -> stands wf current ctx l w [h] = (cur, c, l', w') ->
  (exists failed, hop_ran wf o h failed) ->
  (hops <> [] -> hop_ran wf o h false /\ suspension_requested (metadata (h_after h)) = false) ->
  hops_chain wf o cur c l' w' hops -> hops_chain wf o current ctx l w (h :: hops).
Proof.
  intros Hf Hs Hr Hg Hc [|h0 pre] h' post Hp; injection Hp as <- Hp.
  - subst post. split_and!; done.
  - rewrite stands_cons, Hs. by apply Hc.
Qed.

Lemma ends_frame wf c0 c t : nodes c = nodes c0 -> node_runs c = node_runs c0 -> event c = event c0 ->
  let c' := telemetered wf t c in nodes c' = nodes c0 /\ node_runs c' = node_runs c0 /\ event c' = event c0.
Proof. intros <- <- <-. by destruct (telemetered_frame wf t c) as (Hn & Hr & He & _). Qed.

(** A turn that ends the walk makes one hop or none. *)
Lemma last_turn_hops wf o fuel ctx id l w turn tr c :
  Step on_progress wf o ctx id l w turn tr ->
  (turn = Return (Ok c) \/ exists cb t, turn = Break cb /\ c = telemetered wf t cb) ->
  exists hops, dispatches tr = map (fun h => (h_id h, h_ledger h)) hops /\
    hops_chain wf o (Some id) ctx l w hops /\
    ends_with wf o fuel hops (stands wf (Some id) ctx l w hops) (Some (Ok c)).
Proof.
  intros Hs Hc. destruct Hs as [w t t' w1 Hp|w r t' w1 Hp Hk|w t t' w1 w2 Hp Hk Hq| |w w1 w2 w3 node cc tr Hp Hk Hq Hr Hn| |w w1 w2 w3 node cc tr next t t' Hp Hk Hq Hr Hn Hnext Hs].
  1, 2, 3: destruct Hc as [[= <-]|(? & ? & [=] & _)]; exists []; (split; [done|]); (split; [apply chain_nil|]);
    cbn [stands last ends_with]; apply and_assoc, and_assoc; (split; [apply and_assoc; by apply ends_frame|]); do 3 right.
  - left. by exists w1.
  - right. exists w1. split; [done|]. left. by exists r.
  - right. exists w1. split; [done|]. right. split; [done|]. by exists w2.
  - destruct Hc as [[=]|(? & ? & [=] & _)].
  - destruct Hc as [[=]|(cb & t & [= <-] & ->)]. exists [mkHop id l ctx w cc w3].
    pose proof (node_context_no_dispatch _ _ _ _ _ _ _ _ Hn) as Hd.
    assert (hop_ran wf o (mkHop id l ctx w cc w3) true) as Hran by (by exists w1, w2, node, tr).
    split; [change (dispatches (Dispatch id l :: tr)) with ((id, l) :: dispatches tr); by rewrite Hd|]. split.
    { eapply chain_cons; [done|by eapply stands_one|by exists true|done|apply chain_nil]. }
    rewrite (stands_one _ _ _ _ _ _ node) by done. cbn [h_after h_left h_ledger h_id ends_with last].
    apply and_assoc, and_assoc. split; [apply and_assoc; by apply ends_frame|]. right. left. by eexists.
  - destruct Hc as [[=]|(? & ? & [=] & _)].
  - destruct Hc as [[= <-]|(? & ? & [=] & _)]. exists [mkHop id l ctx w cc w3].
    pose proof (node_context_no_dispatch _ _ _ _ _ _ _ _ Hn) as Hd.
    assert (hop_ran wf o (mkHop id l ctx w cc w3) false) as Hran by (by exists w1, w2, node, tr).
    split; [match goal with |- dispatches (?e :: ?t1 ++ ?t2) = _ => change (e :: t1 ++ t2) with ([e] ++ t1 ++ t2) end;
      by rewrite !dispatches_app, Hd|]. split.
    { eapply chain_cons; [done|by eapply stands_one|by exists false|done|apply chain_nil]. }
    rewrite (stands_one _ _ _ _ _ _ node) by done. cbn [h_after h_left h_ledger h_id ends_with last].
    apply and_assoc, and_assoc. split; [apply and_assoc; by apply ends_frame|]. right. right. left. eexists. split_and!; [done..|by eexists].
Qed.

Lemma walk_loop_hops wf o fuel current ctx l w r w' tr :
  walk_loop on_progress wf o fuel ctx current l w = (r, w', tr) ->
  exists hops, dispatches tr = map (fun h => (h_id h, h_ledger h)) hops /\
    hops_chain wf o current ctx l w hops /\ ends_with wf o fuel hops (stands wf current ctx l w hops) r.
Proof.
  revert current ctx l w r w' tr. induction fuel as [|f IH]; intros [id|] ctx l w r w' tr H; cbn [walk_loop] in H.
  1: { unfold ret in H. simplify_eq. exists []. split; [done|]. split; [apply chain_nil|]. by split. }
  1,3: unfold finish_walk, stamp_telemetry in H; inv_m H; inv_m Hm; inv_ret; exists []; (split; [done|]);
    (split; [apply chain_nil|]); cbn [stands last ends_with]; apply and_assoc, and_assoc;
    (split; [apply and_assoc; by apply (ends_frame wf)|by left]).
  apply bind_inv in H as (turn & w1 & t1 & t2 & Hs & H & ->). rewrite dispatches_app.
  destruct turn as [[c|e]|c|c next l'].
  - unfold ret in H. simplify_eq. rewrite app_nil_r. apply walk_step_sound in Hs.
    eapply last_turn_hops; [exact Hs|by left].
  - unfold ret in H. simplify_eq. rewrite app_nil_r. apply walk_step_sound in Hs. exists [].
    inversion Hs; subst. split; [done|]. split; [apply chain_nil|]. cbn. eexists _, _. split_and!; [done..|].
    by eexists.
  - unfold finish_walk, stamp_telemetry in H. inv_m H. inv_m Hm. inv_ret. rewrite app_nil_r.
    apply walk_step_sound in Hs. eapply last_turn_hops; [exact Hs|]. right. by eexists _, _.
  - apply continue_world in Hs as (trn & Hran & -> & Hd & (node & Hr & Hnext) & -> & Hsus).
    apply IH in H as (hops & Hds & Hch & He). exists (mkHop id l ctx w c w1 :: hops).
    pose proof (stands_one wf (Some id) ctx l w (mkHop id l ctx w c w1) node Hr) as Hst.
    cbn [h_after h_left h_ledger h_id] in Hst. rewrite <- Hnext in Hst.
    split; [change (dispatches (Dispatch id l :: trn)) with ((id, l) :: dispatches trn); by rewrite Hd, Hds|]. split.
    + eapply chain_cons; [done|exact Hst|by exists false| |exact Hch]. intros Hne. split; [done|].
      destruct Hsus as [Hsus| ->]; [done|]. destruct hops as [|h hops]; [done|].
      destruct (Hch [] h hops eq_refl) as [Hf _]. discriminate Hf.
    + rewrite stands_cons, Hst. destruct (stands wf next c _ w1 hops) as [[[cur c0] l0] w0] eqn:Est.
      destruct r as [[c'|e]|]; cbn [ends_with length] in *; [|done|destruct He as [<- ?]; by split].
      destruct He as (E1 & E2 & E3 & He). split_and!; try done. destruct He as [?|[(h & Hh & ?)|[(h & Hh & ?)|?]]];
        [by left|right; left|do 2 right; left|by do 3 right].
      all: exists h; split; [|done]; destruct hops; [discriminate Hh|exact Hh].
Qed.

(** C1: what a run dispatches, hop by hop.  The walk starts with the given node,
    ledger and context, in the world the first call of the callback leaves.
    Each dispatch is made where the one before it left the walk: on the context
    and in the world that node left, to the router's own answer to that context
    and world, or without a router to the first connection the schema declares,
    with a ledger to which the usage that context records has been added.  At
    each boundary the run was not cancelled, the budget gate let that ledger
    through and the run was not paused, polled in this order and in that world,
    and the node is registered.  Nothing is dispatched after a node that failed
    or that asked for a suspension.  The walk ends only with its fuel spent, at
    an identity not registered, or, keeping the outputs and envelopes the last
    node left, at a node without successor, a failed node, an honoured
    suspension, or a boundary where one of the three polls fired. *)
Theorem walk_conforms wf o fuel ctx start l w :
  let '(r, _, tr) := walk on_progress wf o fuel ctx (Some start) l w in
  exists hops, dispatches tr = map (fun h => (h_id h, h_ledger h)) hops /\
    hops_chain wf o (Some start) ctx l (on_progress ctx w) hops /\
    ends_with wf o fuel hops (stands wf (Some start) ctx l (on_progress ctx w) hops) r.
Proof.
  destruct (walk on_progress wf o fuel ctx (Some start) l w) as [[r w'] tr] eqn:E.
  unfold walk in E. inv_m E. inv_ret. by eapply walk_loop_hops.
Qed.

(** C16: a run of a validated workflow without routers ends, whatever its
    nodes do, within as many dispatches as the schema names nodes, and no
    node is dispatched twice. *)
Theorem validated_run_terminates wf o fuel ev w :
  validate (registry wf) (schema wf) = Some (Ok tt) -> no_routers wf ->
  (size (universe (schema wf)) <= fuel)%nat ->
  exists r w' tr, run_with on_progress wf fuel ev o w = (Some r, w', tr) /\
    NoDup (map fst (dispatches tr)) /\
    (length (dispatches tr) <= size (universe (schema wf)))%nat.
Proof.
  intros Hv Hnr Hf. apply validate_ok_iff in Hv as (_ & _ & Hac).
  unfold run_with, walk. set (ctx := stamp_opt_run_id _ _).
  destruct (walk_loop_total on_progress wf o fuel ctx (Some (start_node (schema wf))) ledger_new
    (on_progress ctx w) []) as (r & w' & tr & E); [done..| |simpl; lia|].
  { intros id [= <-]. done. }
  unfold bind, emit, progress. rewrite E. eexists _, _, _. split; [done|]. simpl.
  apply walk_loop_conforms in E as (Hc & _ & Hh).
  assert (Hce : chain (nr_edge (registry wf) (schema wf)) (map fst (dispatches tr))).
  { eapply chain_fmap; [|exact Hc]. intros a b. by apply leads_to_edge. }
  assert (Hnd : NoDup (map fst (dispatches tr))) by (by eapply chain_NoDup).
  split; [done|]. destruct (dispatches tr) as [|d ds] eqn:Ed; [simpl; lia|].
  rewrite <- (length_map fst). apply NoDup_universe_length; [done|].
  apply (chain_universe wf); [done|]. destruct Hh as [Hh _]. simpl. by injection Hh as ->.
Qed.
(** What follows a dispatch.  A failed node ends the loop, keeping its
    context and asking no one for a successor.  After a node that succeeded,
    the successor is the router's answer or the first declared connection; a
    suspension the node requested is honoured only if there is a successor:
    the run then ends [Ok], outputs and envelopes as the node left them, its
    marker pointing at the successor with the reason and the node that asked
    and the totals including that node, and the snapshot shown once to the
    callback.  Otherwise the walk goes on with the node's usage folded into
    the ledger. *)
Theorem after_dispatch wf o ctx id l w w1 w2 node :
  poll (cancellation_token o) w = (false, w1, []) -> check l (opt_budget o) = Allow ->
  poll (pause_signal o) w1 = (false, w2, []) -> registry wf !! id = Some node ->
  let '((c, failed), w3, trn) := node_context on_progress node ctx w2 in
  let '(turn, _, tr) := walk_step on_progress wf o ctx id l w in
  let l' := record_node c l id in
  match failed, suspension_requested (metadata c), successor wf node id c w3 with
  | true, _, _ => turn = Break c /\ tr = Dispatch id l :: trn
  | false, true, Some next => exists c', turn = Return (Ok c') /\
      tr = Dispatch id l :: trn ++ [Progress c'] /\
      nodes c' = nodes c /\ node_runs c' = node_runs c /\
      (ledger_wire_ok l' -> read_suspension (metadata c') =
         Some (state_of (from_option resume_count 0%Z (read_suspension (metadata c)))
                 (mkSuspension next (requested_reason (metadata c)) (Some id) l')))
  | false, _, next => turn = Continue c next l' /\ tr = Dispatch id l :: trn
  end.
Proof.
  intros Hc Hl Hp Hr.
  destruct (node_context on_progress node ctx w2) as [[[c failed] w3] trn] eqn:En.
  destruct (walk_step on_progress wf o ctx id l w) as [[turn w'] tr] eqn:Es.
  apply walk_step_sound in Es.
  inversion Es; subst;
    repeat match goal with
    | H1 : poll ?f ?v = _, H2 : poll ?f ?v = _ |- _ => rewrite H1 in H2; simplify_eq
    | H1 : node_context _ _ _ ?v = _, H2 : node_context _ _ _ ?v = _ |- _ =>
        rewrite H1 in H2; simplify_eq
    end; simplify_eq; try congruence; try done.
  - match goal with H : _ \/ _ |- _ => destruct H as [-> | ->] end; [done|].
    by destruct (suspension_requested _).
  - match goal with H : suspension_requested _ = true |- _ => rewrite H end.
    match goal with H : successor _ _ _ _ _ = Some _ |- _ => rewrite H end.
    subst c'. eexists. split_and!; [done..|]. intros Hw.
    by rewrite read_suspension_telemetered, read_suspended_ctx.
Qed.
End WalkProperties.

(** ** Seeding and resuming *)

Section Resume.
Context {X : Extern} {HX : ExternLaws X} {R : Runtime} {HO : HashOrder}.
(** Step 4 of [resume_run] (crates/engine-serve/src/resume.rs): the ledger a
    suspended snapshot resumes with. *)
Definition resume_ledger (snapshot : TaskContext) : BudgetLedger :=
  match read_suspension (metadata snapshot) ≫= ledger with
  | Some snap => from_parts (snap_total_tokens snap) (snap_total_cost_usd snap)
  | None => from_context snapshot
  end.

Definition is_declared (wf : Workflow) (k : string) : bool :=
  bool_decide (is_Some (schema_nodes (schema wf) !! k)).

Lemma seed_fold_lookup (clobber : bool) keys c k :
  let f := fun c id => match node_runs c !! id with
                       | Some _ => if clobber then put_run id pending_run c else c
                       | None => put_run id pending_run c end in
  node_runs (foldl f c keys) !! k =
    (if decide (k ∈ keys) then
       match node_runs c !! k with
       | Some r => Some (if clobber then pending_run else r)
       | None => Some pending_run end
     else node_runs c !! k) /\
  nodes (foldl f c keys) = nodes c /\ event (foldl f c keys) = event c /\
  metadata (foldl f c keys) = metadata c.
Proof.
  intros f. revert c. induction keys as [|i keys IH]; intros c; [done|].
  cbn [foldl]. destruct (IH (f c i)) as (-> & -> & -> & ->).
  assert (Hf : node_runs (f c i) !! k = if decide (k = i) then
      match node_runs c !! k with
      | Some r => Some (if clobber then pending_run else r) | None => Some pending_run end
    else node_runs c !! k).
  { unfold f. destruct (decide (k = i)) as [->|Hk]; destruct (node_runs c !! i) eqn:E;
      [destruct clobber|..|destruct clobber|]; simpl;
      rewrite ?lookup_insert_eq, ?lookup_insert_ne by congruence; done. }
  rewrite Hf. split_and!; [|by (unfold f; destruct (node_runs c !! i), clobber)..].
  destruct (decide (k = i)) as [->|Hne].
  - rewrite (decide_True (P := i ∈ i :: keys)) by left.
    destruct (node_runs c !! i); destruct clobber; by case_decide.
  - destruct (decide (k ∈ keys)); [rewrite decide_True by (by right)|
      rewrite decide_False by (rewrite elem_of_cons; naive_solver)]; done.
Qed.

Lemma declared_keys wf k : k ∈ hm_keys (schema_nodes (schema wf)) <-> is_declared wf k = true.
Proof. unfold is_declared. rewrite hm_keys_elem. symmetry. apply bool_decide_eq_true. Qed.

Lemma seed_context_spec wf ev :
  (forall k, node_runs (seed_context wf ev) !! k
     = if is_declared wf k then Some pending_run else None) /\
  nodes (seed_context wf ev) = seeded_nodes wf /\ event (seed_context wf ev) = ev /\
  metadata (seed_context wf ev) = jempty.
Proof.
  set (c := mkTaskContext ev (seeded_nodes wf) jempty ∅).
  assert (Heq : seed_context wf ev = foldl (fun c id => match node_runs c !! id with
      | Some _ => if true then put_run id pending_run c else c
      | None => put_run id pending_run c end) c (hm_keys (schema_nodes (schema wf)))).
  { unfold seed_context. fold c. generalize c, (hm_keys (schema_nodes (schema wf))).
    intros c0 l. revert c0. induction l as [|i l IH]; intros c0; [done|]. cbn [foldl].
    rewrite IH. by destruct (node_runs c0 !! i). }
  rewrite Heq. split_and!; [|apply (seed_fold_lookup true _ c "")..].
  intros k. destruct (seed_fold_lookup true (hm_keys (schema_nodes (schema wf))) c k) as (-> & _).
  simpl. rewrite lookup_empty. pose proof (declared_keys wf k) as Hd.
  destruct (is_declared wf k); case_decide; naive_solver.
Qed.

Lemma seed_missing_spec wf c :
  (forall k, node_runs (seed_missing_pending wf c) !! k =
     match node_runs c !! k with
     | Some r => Some r
     | None => if is_declared wf k then Some pending_run else None end) /\
  nodes (seed_missing_pending wf c) = nodes c /\ event (seed_missing_pending wf c) = event c /\
  metadata (seed_missing_pending wf c) = metadata c.
Proof.
  unfold seed_missing_pending.
  split_and!; [|apply (seed_fold_lookup false _ c "")..].
  intros k. destruct (seed_fold_lookup false (hm_keys (schema_nodes (schema wf))) c k) as (-> & _).
  pose proof (declared_keys wf k) as Hd.
  destruct (is_declared wf k); case_decide; destruct (node_runs c !! k); naive_solver.
Qed.

Lemma stamp_opt_run_id_frame u c :
  nodes (stamp_opt_run_id u c) = nodes c /\ node_runs (stamp_opt_run_id u c) = node_runs c /\
  event (stamp_opt_run_id u c) = event c /\
  (forall k, k <> RUN_ID_METADATA_KEY ->
     jget (metadata (stamp_opt_run_id u c)) k = jget (metadata c) k) /\
  read_run_id (metadata (stamp_opt_run_id u c)) =
    match u with Some u => Some (uuid_to_string u) | None => read_run_id (metadata c) end.
Proof.
  destruct u as [u|]; [|done]. simpl. unfold stamp_run_id. split_and!; [done..| |].
  - intros k Hk. by rewrite jget_stamp_ne.
  - unfold read_run_id. rewrite jget_stamp. simpl. by json_simpl.
Qed.

Variable on_progress : TaskContext -> W -> W.

(** How a run starts.  Before any dispatch the callback is shown the
    seeded context: the trigger event, the nodes seeded by the dispatcher,
    one PENDING envelope for exactly the declared nodes, and the run id when
    the caller gave one; the walk then begins at the schema's start node with
    a zero ledger. *)
Theorem run_starts_seeded wf o fuel ev w :
  exists ctx0 tr,
    (let '(_, _, t) := run_with on_progress wf fuel ev o w in t)
      = Span (uuid_to_string <$> run_id o) (read_campaign_id ctx0) :: Progress ctx0 :: tr /\
    (forall d ds, dispatches tr = d :: ds -> d = (start_node (schema wf), ledger_new)) /\
    event ctx0 = ev /\ nodes ctx0 = seeded_nodes wf /\
    (forall k, node_runs ctx0 !! k = if is_declared wf k then Some pending_run else None) /\
    read_run_id (metadata ctx0) = uuid_to_string <$> run_id o.
Proof.
  destruct (run_with on_progress wf fuel ev o w) as [[r w'] t] eqn:E.
  unfold run_with, walk in E. set (ctx0 := stamp_opt_run_id (run_id o) (seed_context wf ev)) in *.
  inv_m E. inv_ret. apply walk_loop_conforms in E as (_ & _ & Hh).
  destruct (stamp_opt_run_id_frame (run_id o) (seed_context wf ev)) as (Hn & Hr & He & _ & Hi).
  destruct (seed_context_spec wf ev) as (Sr & Sn & Se & Sm).
  fold ctx0 in Hn, Hr, He, Hi.
  assert (Hid : read_run_id (metadata ctx0) = uuid_to_string <$> run_id o).
  { rewrite Hi, Sm. destruct (run_id o); [done|]. unfold read_run_id. by rewrite jget_empty. }
  exists ctx0. eexists. split; [by rewrite Hid|]. split_and!.
  - intros d ds Hd. rewrite Hd in Hh. destruct d, Hh. by simplify_eq/=.
  - by rewrite He.
  - by rewrite Hn.
  - intros k. by rewrite Hr.
  - done.
Qed.

(** ** The dispatch ledger of a whole run *)

Lemma read_invocations_frame m m' :
  jget m' INVOCATIONS_METADATA_KEY = jget m INVOCATIONS_METADATA_KEY ->
  read_invocations m' = read_invocations m.
Proof. unfold read_invocations, read_entries. by intros ->. Qed.

(** A node that leaves the dispatch ledger to the engine and does not store
    [null] as its output. *)
Definition leaves_ledger (n : Node) : Prop :=
  forall ctx w out w', process n ctx w = (Ok out, w') ->
    read_invocations (metadata out) = read_invocations (metadata ctx) /\
    forall v, nodes out !! name n = Some v -> kind v <> KNull.

(** The rows [new] after [old], for the dispatches [ds]. *)
Definition rows_for (old new : list NodeInvocation) (ds : list string) : Prop :=
  map inv_node new = ds /\
  map inv_seq new = seqZ (Z.of_nat (length old)) (Z.of_nat (length new)) /\
  forall pre r, new = pre ++ [r] -> Forall (fun i => inv_status i = InvSuccess) pre.

Lemma rows_for_nil old : rows_for old [] [].
Proof. split_and!; [done..|]. intros [|??] ? H; discriminate H. Qed.

Lemma rows_for_cons old r new d ds :
  inv_node r = d -> inv_seq r = Z.of_nat (length old) ->
  inv_status r = InvSuccess \/ new = [] ->
  rows_for (old ++ [r]) new ds -> rows_for old (r :: new) (d :: ds).
Proof.
  intros Hn Hs Hst (H1 & H2 & H3). split_and!.
  - simpl. by rewrite Hn, H1.
  - cbn [map length]. rewrite Nat2Z.inj_succ, seqZ_cons by lia. rewrite Hs, H2, length_app. simpl.
    do 2 f_equal; lia.
  - intros [|r' pre] q [= <- E]; [constructor|]. constructor; [|by eapply H3].
    destruct Hst as [| ->]; [done|]. by destruct pre.
Qed.

Lemma node_context_row node ctx w c failed w' tr :
  leaves_ledger node -> (next_seq (metadata ctx) < u64_modulus)%Z ->
  node_context on_progress node ctx w = ((c, failed), w', tr) ->
  exists row, read_invocations (metadata c) = read_invocations (metadata ctx) ++ [row] /\
    inv_node row = name node /\ inv_seq row = next_seq (metadata ctx) /\
    (failed = false -> inv_status row = InvSuccess).
Proof.
  intros Hn Hb E.
  destruct (w_now w) as [t w1] eqn:E1.
  set (pre := put_run (name node) (enter_run (node_runs ctx !! name node) t) ctx).
  destruct (w_now (on_progress pre w1)) as [ts w2] eqn:E2.
  pose proof (dispatch_row on_progress node ctx w c failed w' tr t w1 ts w2 E E1 E2) as H.
  change (put_run _ _ ctx) with pre in H.
  destruct (process node pre w2) as [[out|err] w3] eqn:Ep; cbn [fst] in H.
  - destruct (Hn pre w2 out w3 Ep) as [Hi Hk].
    change (metadata pre) with (metadata ctx) in Hi.
    assert (Hs : next_seq (metadata out) = next_seq (metadata ctx)) by (unfold next_seq; by rewrite Hi).
    rewrite Hs, Hi in H. destruct (H Hb) as (_ & row & Hr & Hname & Hseq & _ & _ & _ & Hst & _).
    { intros out' v [= <-]. apply Hk. }
    exists row. by split_and!.
  - destruct (H Hb) as (-> & row & Hr & Hname & Hseq & _); [done|]. exists row. by split_and!.
Qed.

Lemma rows_for_one old r d :
  inv_node r = d -> inv_seq r = Z.of_nat (length old) -> rows_for old [r] [d].
Proof.
  intros Hn Hs. apply rows_for_cons; [done|done|by right|apply rows_for_nil].
Qed.

(** Every node of the workflow sits under its own name and leaves the ledger alone. *)
Definition ledger_safe (wf : Workflow) : Prop :=
  registry_wf (registry wf) /\ forall id n, registry wf !! id = Some n -> leaves_ledger n.

Definition rows_added (ctx c : TaskContext) (ds : list string) : Prop :=
  exists new, read_invocations (metadata c) = read_invocations (metadata ctx) ++ new /\
    rows_for (read_invocations (metadata ctx)) new ds.

Lemma telemetered_rows wf t c :
  read_invocations (metadata (telemetered wf t c)) = read_invocations (metadata c).
Proof. apply read_invocations_frame. by apply telemetered_frame. Qed.

Lemma stamped_rows k v c :
  k <> INVOCATIONS_METADATA_KEY ->
  read_invocations (metadata (set_metadata (fun m => jset (ensure_object m) k v) c)) =
  read_invocations (metadata c).
Proof. intros Hk. apply read_invocations_frame. simpl. by rewrite jget_stamp_ne. Qed.

Lemma rows_added_none ctx c :
  read_invocations (metadata c) = read_invocations (metadata ctx) -> rows_added ctx c [].
Proof. intros E. exists []. rewrite E, app_nil_r. split; [done|apply rows_for_nil]. Qed.

Lemma step_rows wf o ctx id l w turn tr :
  ledger_safe wf -> (next_seq (metadata ctx) < u64_modulus)%Z ->
  Step on_progress wf o ctx id l w turn tr ->
  match turn with
  | Return (Ok c) | Break c => rows_added ctx c (map fst (dispatches tr))
  | Return (Err _) => True
  | Continue c _ _ => dispatches tr = [(id, l)] /\ exists row,
      read_invocations (metadata c) = read_invocations (metadata ctx) ++ [row] /\
      inv_node row = id /\ inv_seq row = next_seq (metadata ctx) /\ inv_status row = InvSuccess
  end.
Proof.
  intros [Hwf Hsafe] Hb Hs. destruct Hs; try done;
    try (apply rows_added_none; subst c; rewrite telemetered_rows; by apply stamped_rows);
    match goal with Hr : registry wf !! id = Some ?n, Hn : node_context _ _ _ _ = _ |- _ =>
      pose proof (node_context_no_dispatch _ _ _ _ _ _ _ _ Hn) as Hd;
      destruct (node_context_row _ _ _ _ _ _ _ (Hsafe _ _ Hr) Hb Hn) as (row & Hrow & Hname & Hseq & Hst);
      rewrite (Hwf _ _ Hr) in Hname end.
  - exists [row]. split; [done|]. simpl. rewrite Hd. by apply rows_for_one.
  - split; [by simpl; rewrite Hd|]. exists row. split_and!; [done..|by apply Hst].
  - exists [row]. subst c'. rewrite telemetered_rows. split.
    + rewrite <- Hrow. unfold suspended_ctx. by apply stamped_rows.
    + simpl. rewrite dispatches_app, Hd. by apply rows_for_one.
Qed.

Lemma walk_loop_rows wf o fuel ctx current l w r w' tr c :
  ledger_safe wf ->
  (Z.of_nat (length (read_invocations (metadata ctx)) + fuel) < u64_modulus)%Z ->
  walk_loop on_progress wf o fuel ctx current l w = (r, w', tr) -> r = Some (Ok c) ->
  rows_added ctx c (map fst (dispatches tr)).
Proof.
  intros Hsafe. revert ctx current l w r w' tr.
  induction fuel as [|f IH]; intros ctx [id|] l w r w' tr Hb H Hr; cbn [walk_loop] in H.
  1: unfold ret in H; simplify_eq.
  1,3: unfold finish_walk, stamp_telemetry in H; inv_m H; inv_m Hm; inv_ret; simplify_eq;
    apply rows_added_none; apply (telemetered_rows wf).
  apply bind_inv in H as (turn & w1 & t1 & t2 & Hs & H & ->).
  apply walk_step_sound, (step_rows _ _ _ _ _ _ _ _ Hsafe) in Hs;
    [|unfold next_seq; lia].
  rewrite dispatches_app.
  destruct turn as [[c'|e]|c'|c' next l'].
  - unfold ret in H. simplify_eq. simpl. by rewrite app_nil_r.
  - unfold ret in H. simplify_eq.
  - unfold finish_walk, stamp_telemetry in H. inv_m H. inv_m Hm. inv_ret. simplify_eq.
    rewrite app_nil_r. destruct Hs as (new & Hn & Hrows). exists new.
    split; [|done]. rewrite <- Hn. apply (telemetered_rows wf).
  - destruct Hs as (Hd & row & Hrow & Hname & Hseq & Hst). rewrite Hd.
    apply IH in H as (new & Hn & Hrows); [| |done].
    + exists (row :: new). rewrite Hn, Hrow, <- app_assoc. split; [done|].
      rewrite Hrow in Hrows. apply rows_for_cons; [done|done|by left|done].
    + rewrite Hrow, length_app. simpl. lia.
Qed.

(** A suspended snapshot, whichever path suspended it, is accepted. *)
Lemma resume_suspended wf t t' s ctx :
  ledger_wire_ok (s_ledger s) ->
  let c := telemetered wf t' (suspended_ctx t s ctx) in
  let count := from_option resume_count 0%Z (read_suspension (metadata ctx)) in
  read_suspension (metadata c) = Some (state_of count s) /\
  exists m, stamp_resumed (metadata c) = Some m /\
    read_suspension m = Some (mkSuspensionState false (Some (s_resume_at s)) (Some (s_reason s))
      (s_origin_identity s) (Some (snapshot_of_ledger (s_ledger s))) (u32_add count 1) false) /\
    suspension_requested m = false.
Proof.
  intros Hl c count.
  assert (Hread : read_suspension (metadata c) = Some (state_of count s)).
  { unfold c. by rewrite read_suspension_telemetered, read_suspended_ctx. }
  split; [done|].
  destruct (telemetered_frame wf t' (suspended_ctx t s ctx)) as (_ & _ & _ & Hk).
  edestruct (stamp_resumed_marker (metadata c)) as (u & Hu & Hst & Hreq & _).
  { unfold c. rewrite Hk by done. unfold suspended_ctx, stamp_suspended. simpl. apply jget_stamp. }
  { unfold suspended_marker. apply kind_json_object. }
  { apply suspended_marker_read; [done|]. apply existing_count_range. }
  eexists. split; [exact Hu|]. split.
  - rewrite read_suspension_stamp, Hst. by rewrite read_suspension_ensure.
  - unfold suspension_requested. rewrite jget_stamp. simpl. rewrite Hreq. simpl. by json_simpl.
Qed.

Lemma step_paused_inv wf o ctx id l w turn tr w1 w2 :
  Step on_progress wf o ctx id l w turn tr ->
  poll (cancellation_token o) w = (false, w1, []) -> check l (opt_budget o) = Allow ->
  poll (pause_signal o) w1 = (true, w2, []) ->
  exists t t', turn = Return (Ok (telemetered wf t'
    (suspended_ctx t (mkSuspension id OperatorPause None l) ctx))).
Proof.
  intros Hs Hcan Hchk Hpause.
  destruct Hs; repeat match goal with
    | H1 : poll ?f ?v = _, H2 : poll ?f ?v = _ |- _ => rewrite H1 in H2; simplify_eq end; try congruence; eauto.
Qed.

Lemma resume_ledger_check c st l b :
  read_suspension (metadata c) = Some st -> ledger st = Some (snapshot_of_ledger l) ->
  check (resume_ledger c) b = check l b.
Proof. intros H Hl. unfold resume_ledger. rewrite H. simpl. by rewrite Hl. Qed.

(** C21: a pause loses nothing.  Assumed is a boundary before node [id] where
    the cancellation token, if there is one, is polled first and is not raised,
    the budget gate lets the run through and the pause signal, polled next, is
    raised; and a ledger whose totals fit the wire format.  The snapshot the
    walk leaves resumes at [id] with a ledger no cap can tell from the
    interrupted one; [run_from] accepts it (no panic), never rewrites an
    envelope or an output the run already had, adds PENDING envelopes for nodes
    it had never heard of, clears the suspension and counts the resume. *)
Theorem pause_then_resume wf o o' ctx id l w w1 w2 w' c tr fuel :
  ledger_wire_ok l ->
  walk_step on_progress wf o ctx id l w = (Return (Ok c), w', tr) ->
  poll (cancellation_token o) w = (false, w1, []) -> check l (opt_budget o) = Allow ->
  poll (pause_signal o) w1 = (true, w2, []) ->
  (st ← read_suspension (metadata c); resume_at st) = Some id /\
  (forall b, check (resume_ledger c) b = check l b) /\
  exists c', run_from on_progress wf fuel (mkResumeState c id (resume_ledger c)) o'
      = Some (walk on_progress wf o' fuel c' (Some id) (resume_ledger c)) /\
    nodes c' = nodes ctx /\ event c' = event ctx /\
    (forall k r, node_runs ctx !! k = Some r -> node_runs c' !! k = Some r) /\
    (forall k, node_runs ctx !! k = None -> is_declared wf k = true ->
       node_runs c' !! k = Some pending_run) /\
    is_suspended (metadata c') = false /\ suspension_requested (metadata c') = false /\
    (st ← read_suspension (metadata c'); Some (resume_count st)) =
      Some (u32_add (from_option resume_count 0%Z (read_suspension (metadata ctx))) 1).
Proof.
  intros Hl Hs Hcan Hchk Hpause. apply walk_step_sound in Hs.
  destruct (step_paused_inv _ _ _ _ _ _ _ _ _ _ Hs Hcan Hchk Hpause) as (t & t' & [= ->]).
  set (c_ := telemetered wf t' _).
  destruct (resume_suspended wf t t' (mkSuspension id OperatorPause None l) ctx Hl)
    as (Hread & m & Hm & Hrm & Hreq). fold c_ in Hread, Hm.
  rewrite Hread. split; [done|]. split.
  { intros b. by eapply resume_ledger_check. }
  unfold run_from. simpl. destruct (seed_missing_spec wf c_) as (Sr & Sn & Se & Sm).
  rewrite Sm, Hm. simpl. eexists. split; [done|].
  set (base := set_metadata (fun _ => m) (seed_missing_pending wf c_)).
  destruct (stamp_opt_run_id_frame (run_id o') base) as (Fn & Fr & Fe & Fm & _).
  destruct (telemetered_frame wf t' (suspended_ctx t (mkSuspension id OperatorPause None l) ctx))
    as (Tn & Tr & Te & _). fold c_ in Tn, Tr, Te.
  assert (Hsus : read_suspension (metadata (stamp_opt_run_id (run_id o') base)) = read_suspension m).
  { unfold read_suspension. by rewrite Fm. }
  split_and!.
  - rewrite Fn. unfold base. simpl. by rewrite Sn, Tn.
  - rewrite Fe. unfold base. simpl. by rewrite Se, Te.
  - intros k r Hk. rewrite Fr. simpl. rewrite Sr, Tr. simpl. by rewrite Hk.
  - intros k Hk Hd. rewrite Fr. simpl. rewrite Sr, Tr. simpl. by rewrite Hk, Hd.
  - unfold is_suspended. by rewrite Hsus, Hrm.
  - unfold suspension_requested. rewrite Fm by done. exact Hreq.
  - by rewrite Hsus, Hrm.
Qed.

(** C30: the dispatch ledger of a run is its history.  Over nodes that leave
    the ledger to the engine, the snapshot any ended run leaves (completed,
    failed, halted or suspended) holds one row per dispatch, in dispatch
    order, numbered 0, 1, 2, ..., and every row but the last is a success. *)
Theorem run_ledger_complete wf o fuel ev w c w' tr :
  ledger_safe wf -> (Z.of_nat fuel < u64_modulus)%Z ->
  run_with on_progress wf fuel ev o w = (Some (Ok c), w', tr) ->
  let rows := read_invocations (metadata c) in
  map inv_node rows = map fst (dispatches tr) /\
  map inv_seq rows = seqZ 0 (Z.of_nat (length rows)) /\
  forall pre r, rows = pre ++ [r] -> Forall (fun i => inv_status i = InvSuccess) pre.
Proof.
  intros Hsafe Hf E rows. unfold run_with, walk in E. inv_m E. inv_ret.
  set (ctx0 := stamp_opt_run_id (run_id o) (seed_context wf ev)) in *.
  assert (H0 : read_invocations (metadata ctx0) = []).
  { destruct (stamp_opt_run_id_frame (run_id o) (seed_context wf ev)) as (_ & _ & _ & Hk & _).
    destruct (seed_context_spec wf ev) as (_ & _ & _ & Hm).
    unfold read_invocations, read_entries. fold ctx0 in Hk. rewrite Hk, Hm, jget_empty by done. done. }
  eapply walk_loop_rows in E as (new & Hn & Hrows); [|done|rewrite H0; simpl; lia|done].
  unfold rows. rewrite Hn, H0. rewrite H0 in Hrows. exact Hrows.
Qed.
End Resume.

(** ** Witnesses *)

Module WorkflowModel.
Import JsonModel RuntimeModel.

Definition two_nodes : gmap string Node :=
  register (register ∅ (stamps "A" (JU64 1))) (stamps "B" (JU64 2)).
Definition chain_schema : WorkflowSchema :=
  mkWorkflowSchema "demo" "A"
    (<["A" := mkNodeConfig "A" ["B"]]> (<["B" := mkNodeConfig "B" []]> ∅)).
Definition wf : @Workflow extern runtime := Workflow_new two_nodes chain_schema.
Definition ctx : @TaskContext extern := seed_context wf (JStr "go").
Definition budget : Budget := mkBudget (Some 100%Z) None.
(** Paused from the start; a budget that is not reached. *)
Definition paused : @RunOptions extern runtime :=
  mkRunOptions None (Some budget) (Some 0%Z : option (@flag_ref _ runtime)) None.
(** The same with a cancellation token that is raised much later. *)
Definition watched : @RunOptions extern runtime :=
  mkRunOptions (Some 1000%Z : option (@flag_ref _ runtime)) (Some budget) (Some 0%Z : option (@flag_ref _ runtime)) None.
Definition plain : @RunOptions extern runtime := mkRunOptions None None None (Some "run-1").
End WorkflowModel.

Import RuntimeModel.

Lemma node_context_envelope_witness :
  let '((ctx', failed), _, _) :=
    node_context silent (fails "A") WorkflowModel.ctx 5%Z in
  failed = true /\ nodes ctx' = <["A" := JsonModel.JStr "partial"]> ∅.
Proof.
  pose proof (node_context_envelope silent (fails "A") WorkflowModel.ctx 5%Z) as H.
  cbn [w_now runtime silent] in H.
  destruct (node_context silent (fails "A") WorkflowModel.ctx 5%Z) as [[[ctx' failed] w'] tr].
  destruct H as (_ & tend & ev & _ & Hf & _ & Hn & _). split; [exact Hf|exact Hn].
Defined.

Lemma node_context_ledger_witness :
  let '((ctx', _), _, _) := node_context silent (stamps "A" (JsonModel.JU64 1)) WorkflowModel.ctx 5%Z in
  exists row, read_invocations (metadata ctx') = [row] /\ inv_seq row = 0%Z /\
    inv_payload row = Some (JsonModel.JU64 1).
Proof.
  pose proof (node_context_ledger silent (stamps "A" (JsonModel.JU64 1)) WorkflowModel.ctx 5%Z) as H.
  cbn [w_now runtime silent] in H.
  destruct (node_context silent _ WorkflowModel.ctx 5%Z) as [[[ctx' failed] w'] tr].
  destruct H as (row & H1 & _ & H2 & _ & _ & _ & (_ & _ & H3) & _).
  - reflexivity.
  - intros out v [= <-] [= <-]. discriminate.
  - exists row. split; [exact H1|]. split; [exact H2|exact H3].
Defined.

Lemma boundary_order_witness :
  let '(turn, _, _) :=
    walk_step silent WorkflowModel.wf WorkflowModel.paused WorkflowModel.ctx "A"
      (from_parts 100 f64_zero) 5%Z in
  exists c, turn = Return (Ok c) /\ derive_terminal_status c = "budget_halted".
Proof.
  pose proof (boundary_order silent WorkflowModel.wf WorkflowModel.paused WorkflowModel.ctx "A"
    (from_parts 100 f64_zero) 5%Z) as H.
  cbn [poll cancellation_token pause_signal WorkflowModel.paused ret read_flag w_read_flag runtime] in H.
  destruct (walk_step _ _ _ _ _ _ _) as [[turn w'] tr].
  destruct H as (c & Ht & _ & _ & _ & Hs & _). exists c. split; [exact Ht|]. apply Hs. reflexivity.
Defined.

Lemma walk_conforms_witness :
  exists hops, map h_id hops = ["A"; "B"] /\
    hops_chain silent WorkflowModel.wf WorkflowModel.plain (Some "A") WorkflowModel.ctx ledger_new 5%Z hops.
Proof.
  pose proof (walk_conforms silent WorkflowModel.wf WorkflowModel.plain 5 WorkflowModel.ctx "A"
                ledger_new 5%Z) as H.
  assert (Hd : map fst (dispatches (walk silent WorkflowModel.wf WorkflowModel.plain 5 WorkflowModel.ctx
                 (Some "A") ledger_new 5%Z).2) = ["A"; "B"]) by reflexivity.
  destruct (walk _ _ _ _ _ _ _ _) as [[r w'] tr]. destruct H as (hops & Hh & Hc & _).
  exists hops. split; [|exact Hc]. cbn [snd] in Hd. rewrite Hh, map_map in Hd. exact Hd.
Defined.

Lemma validated_run_terminates_witness :
  exists r w' tr, run_with silent WorkflowModel.wf 2 (JsonModel.JStr "go") WorkflowModel.plain 0%Z
    = (Some r, w', tr) /\ NoDup (map fst (dispatches tr)).
Proof.
  destruct (validated_run_terminates silent WorkflowModel.wf WorkflowModel.plain 2
              (JsonModel.JStr "go") 0%Z) as (r & w' & tr & H & Hn & _).
  - reflexivity.
  - intros id n. simpl. unfold WorkflowModel.two_nodes, register. simpl.
    rewrite !lookup_insert. repeat case_decide; [by intros [= <-]..|done].
  - apply Nat.leb_le. reflexivity.
  - exists r, w', tr. split; [exact H|exact Hn].
Defined.

Lemma run_starts_seeded_witness :
  exists ctx0 : @TaskContext JsonModel.extern,
    event ctx0 = JsonModel.JStr "go" /\ read_run_id (metadata ctx0) = Some "run-1".
Proof.
  destruct (run_starts_seeded silent WorkflowModel.wf WorkflowModel.plain 2 (JsonModel.JStr "go") 0%Z)
    as (ctx0 & tr & _ & _ & H1 & _ & _ & H2).
  exists ctx0. split; [exact H1|exact H2].
Defined.

Lemma pause_then_resume_witness :
  exists c w' tr,
    walk_step silent WorkflowModel.wf WorkflowModel.watched WorkflowModel.ctx "B" ledger_new 5%Z
      = (Return (Ok c), w', tr) /\
    (st ← read_suspension (metadata c); resume_at st) = Some "B".
Proof.
  assert (H : exists c w' tr, walk_step silent WorkflowModel.wf WorkflowModel.watched WorkflowModel.ctx
                "B" ledger_new 5%Z = (Return (Ok c), w', tr)) by (do 3 eexists; reflexivity).
  destruct H as (c & w' & tr & E). exists c, w', tr. split; [exact E|].
  refine (proj1 (pause_then_resume silent WorkflowModel.wf WorkflowModel.watched WorkflowModel.plain
           WorkflowModel.ctx "B" ledger_new 5%Z 6%Z 7%Z w' c tr 5 _ E _ _ _)).
  - by repeat split.
  - reflexivity.
  - reflexivity.
  - reflexivity.
Defined.

(** The first node of the chain is dispatched and asks for nothing: the walk
    goes on at its successor. *)
Lemma after_dispatch_witness :
  let '(turn, _, _) :=
    walk_step silent WorkflowModel.wf WorkflowModel.plain WorkflowModel.ctx "A" ledger_new 5%Z in
  exists c, turn = Continue c (Some "B") (record_node c ledger_new "A").
Proof.
  pose proof (after_dispatch silent WorkflowModel.wf WorkflowModel.plain WorkflowModel.ctx "A"
    ledger_new 5%Z 5%Z 5%Z (stamps "A" (JsonModel.JU64 1))
    eq_refl eq_refl eq_refl eq_refl) as H.
  destruct (node_context _ _ _ _) as [[[c failed] w3] trn] eqn:E.
  assert (F : failed = false /\ suspension_requested (metadata c) = false /\
              successor WorkflowModel.wf (stamps "A" (JsonModel.JU64 1)) "A" c w3 = Some "B").
  { revert E. intros [= <- <- <- <-]. repeat split. }
  destruct F as (-> & Hs & Hn). rewrite Hs, Hn in H.
  destruct (walk_step _ _ _ _ _ _ _) as [[turn w'] tr]. exists c. exact (proj1 H).
Defined.

Lemma run_ledger_complete_witness :
  exists c : @TaskContext JsonModel.extern,
    map inv_node (read_invocations (metadata c)) = ["A"; "B"] /\
    map inv_seq (read_invocations (metadata c)) = [0; 1]%Z.
Proof.
  assert (H : exists c w' tr, run_with silent WorkflowModel.wf 5 (JsonModel.JStr "go")
      WorkflowModel.plain 0%Z = (Some (Ok c), w', tr) /\ map fst (dispatches tr) = ["A"; "B"])
    by (do 3 eexists; split; reflexivity).
  destruct H as (c & w' & tr & E & Hd). exists c.
  destruct (run_ledger_complete silent WorkflowModel.wf WorkflowModel.plain 5 (JsonModel.JStr "go")
              0%Z c w' tr) as (Hn & Hs & _); [| |exact E|].
  - split; intros id n; simpl; unfold WorkflowModel.two_nodes, register; simpl;
      rewrite !lookup_insert; repeat case_decide; try done; intros [= <-]; try done.
    all: intros ctx w out w'' [= <- <-]; split; [done|]; simpl; intros v.
    all: rewrite lookup_insert_eq; by intros [= <-].
  - reflexivity.
  - rewrite Hd in Hn. split; [exact Hn|]. rewrite Hs, <- (length_map inv_node), Hn. reflexivity.
Defined.
