(* ===== verification/QueuePark.v ===== *)
(** * Driving a run through its queue-park suspensions

    crates/engine-core/src/workflows/queue_park.rs: [drive] runs or resumes a
    workflow and, as long as the walk comes back suspended on the heavy-work
    queue, waits for the parked job, injects its outcome and resumes.

    [HeavyJobLookup] is the trait of the source: [await_outcome] here answers
    the [tokio::select!] race, [None] when cancellation wins it.  [parse_uuid]
    is [Uuid::parse_str]. *)

From S2P Require Import Prelude Json Contract Sessions Budget Markers Node Telemetry Workflow.

Local Open Scope string_scope.
Local Open Scope list_scope.
Local Open Scope engine_scope.

Definition TEST_TASK_NODE_IDENTITY : string := "TestTaskNode".
Definition HEAVY_WORK_METADATA_KEY : string := "heavy_work".

(** How a run of [drive] ends in the model. *)
Inductive drive_result (A : Type) := OutOfFuel | Panicked | Finished (a : A).
Arguments OutOfFuel {A}.
Arguments Panicked {A}.
Arguments Finished {A} _.

Section QueuePark.
Context {X : Extern} {R : Runtime} {HO : HashOrder}.
Variable on_progress : TaskContext -> W -> W.
Variable parse_uuid : string -> option uuid.

Class HeavyJobLookup : Type := {
  await_outcome : uuid -> W -> option value * W;
  cancel_if_queued : uuid -> W -> W
}.
Context {HL : HeavyJobLookup}.

Inductive RunStart :=
| Fresh (event : value)
| Resume (state : ResumeState).

Definition outcome : Type := drive_result (result TaskContext WorkflowError).

Definition read_job_id (ctx : TaskContext) : option uuid :=
  v ← jget (metadata ctx) HEAVY_WORK_METADATA_KEY; j ← jget v "job_id"; s ← as_str j;
  parse_uuid s.

Definition lift_walk (m : M (option (result TaskContext WorkflowError))) : M outcome :=
  r <-- m ;; ret match r with Some r => Finished r | None => OutOfFuel end.

Definition call_run_from (wf : Workflow) (fuel : nat) (state : ResumeState) (o : RunOptions)
  : M outcome :=
  match run_from on_progress wf fuel state o with
  | Some m => lift_walk m
  | None => ret Panicked
  end.

(** [ctx.metadata["heavy_work"]["state"] = json!("done")] *)
Definition mark_job_done (metadata : value) : option value :=
  let hw := default jnull (jget metadata HEAVY_WORK_METADATA_KEY) in
  hw ← index_set hw "state" (jstr "done");
  index_set metadata HEAVY_WORK_METADATA_KEY hw.

(** The branch of the [select!] where the job finished: the state the run is
    resumed from.  [None] is a panic of one of the marker writes. *)
Definition resume_after_job (ctx : TaskContext) (s : SuspensionState) (resume_at : string)
    (out : value) : option ResumeState :=
  let ctx := set_nodes <[TEST_TASK_NODE_IDENTITY := out]> ctx in
  m ← mark_job_done (metadata ctx);
  m ← stamp_resumed m;
  let ctx := set_metadata (fun _ => m) ctx in
  Some (mkResumeState ctx resume_at
    match ledger s with
    | Some snap => from_parts (snap_total_tokens snap) (snap_total_cost_usd snap)
    | None => from_context ctx
    end).

(** What the head of the loop reads off the walk's result: [None] when the
    result is the caller's to have. *)
Definition parked (ctx : TaskContext) : option (SuspensionState * string * uuid) :=
  s ← read_suspension (metadata ctx);
  if suspended s && bool_decide (reason s = Some HeavyWorkQueue) then
    at_ ← resume_at s; job ← read_job_id ctx; Some (s, at_, job)
  else None.

Fixpoint drive_loop (wf : Workflow) (o : RunOptions) (walk_fuel fuel : nat) (ctx : TaskContext)
  : M outcome :=
  match parked ctx with
  | None => ret (Finished (Ok ctx))
  | Some (s, at_, job) =>
      match fuel with
      | O => ret OutOfFuel
      | S f =>
          r <-- (fun w => (await_outcome job w, [])) ;;
          match r with
          | Some out =>
              match resume_after_job ctx s at_ out with
              | None => ret Panicked
              | Some state =>
                  r <-- call_run_from wf walk_fuel state o ;;
                  match r with
                  | Finished (Ok ctx) => drive_loop wf o walk_fuel f ctx
                  | r => ret r
                  end
              end
          | None =>
              (fun w => (tt, cancel_if_queued job w, [])) ;;;
              t <-- now ;;
              ret (Finished (Ok (set_metadata (stamp_cancelled t) ctx)))
          end
      end
  end.

Definition drive (wf : Workflow) (start : RunStart) (o : RunOptions) (walk_fuel fuel : nat)
  : M outcome :=
  r <-- match start with
        | Fresh event => lift_walk (run_with on_progress wf walk_fuel event o)
        | Resume state => call_run_from wf walk_fuel state o
        end ;;
  match r with
  | Finished (Ok ctx) => drive_loop wf o walk_fuel fuel ctx
  | r => ret r
  end.
End QueuePark.

Section QueueParkFacts.
Context {X : Extern} {HX : ExternLaws X} {R : Runtime} {HO : HashOrder}.
Variable on_progress : TaskContext -> W -> W.
Variable parse_uuid : string -> option uuid.
Context {HL : HeavyJobLookup}.

Lemma parked_inv ctx s at_ job :
  parked parse_uuid ctx = Some (s, at_, job) ->
  read_suspension (metadata ctx) = Some s /\ suspended s = true /\
  reason s = Some HeavyWorkQueue /\ resume_at s = Some at_ /\
  read_job_id parse_uuid ctx = Some job.
Proof.
  unfold parked. destruct (read_suspension (metadata ctx)) as [s'|]; simpl; [|done].
  destruct (suspended s') eqn:Es; simpl; [|done]. case_bool_decide; [|done].
  destruct (resume_at s') as [a|] eqn:Ea; simpl; [|done].
  destruct (read_job_id parse_uuid ctx) as [j|]; simpl; [|done]. intros [= <- <- <-]. done.
Qed.

(** The marker of a parked run, as the walk wrote it, is an object. *)
Definition marker_object (m : value) (k : string) : Prop :=
  exists v, jget m k = Some v /\ kind v = KObject.

Lemma job_marker_object ctx job :
  read_job_id parse_uuid ctx = Some job ->
  marker_object (metadata ctx) HEAVY_WORK_METADATA_KEY /\ kind (metadata ctx) = KObject.
Proof.
  unfold read_job_id, marker_object. intros H. apply bind_Some in H as (v & Hv & H).
  split.
  - exists v. split; [done|]. apply bind_Some in H as (j & Hj & _).
    destruct (decide (kind v = KObject)); [done|]. by rewrite jget_kind in Hj.
  - destruct (decide (kind (metadata ctx) = KObject)); [done|]. by rewrite jget_kind in Hv.
Qed.

Lemma mark_job_done_spec m :
  marker_object m HEAVY_WORK_METADATA_KEY -> kind m = KObject ->
  exists m', mark_job_done m = Some m' /\ kind m' = KObject /\
    (forall k, k <> HEAVY_WORK_METADATA_KEY -> jget m' k = jget m k) /\
    (v ← jget m' HEAVY_WORK_METADATA_KEY; jget v "state") = Some (jstr "done") /\
    (v ← jget m' HEAVY_WORK_METADATA_KEY; jget v "job_id")
      = (v ← jget m HEAVY_WORK_METADATA_KEY; jget v "job_id").
Proof.
  intros (v & Hv & Hk) Hm. unfold mark_job_done. rewrite Hv. simpl.
  rewrite index_set_object by done. simpl. rewrite index_set_object by done.
  eexists. split_and!; [done|by apply kind_set|..].
  - intros k Hne. rewrite jget_set by done. by destruct (String.eqb_spec HEAVY_WORK_METADATA_KEY k).
  - rewrite jget_set by done. simpl. by rewrite jget_set.
  - rewrite jget_set by done. simpl. by rewrite jget_set.
Qed.

Lemma resume_after_job_spec ctx s at_ job out :
  parked parse_uuid ctx = Some (s, at_, job) ->
  marker_object (metadata ctx) SUSPENSION_METADATA_KEY ->
  exists m l, resume_after_job ctx s at_ out
      = Some (mkResumeState (set_metadata (fun _ => m)
          (set_nodes <[TEST_TASK_NODE_IDENTITY := out]> ctx)) at_ l) /\
    marker_object m SUSPENSION_METADATA_KEY /\
    (exists st, read_suspension m = Some st /\ suspended st = false /\
       resume_count st = u32_add (resume_count s) 1) /\
    (v ← jget m HEAVY_WORK_METADATA_KEY; jget v "state") = Some (jstr "done") /\
    (forall k, k <> HEAVY_WORK_METADATA_KEY -> k <> SUSPENSION_METADATA_KEY ->
       jget m k = jget (metadata ctx) k) /\
    (forall snap b, ledger s = Some snap -> check l b =
       evaluate_budget b (snap_total_tokens snap) (snap_total_cost_usd snap)).
Proof.
  intros Hp (v & Hv & Hk). apply parked_inv in Hp as (Hs & Hsus & Hr & Hat & Hj).
  destruct (job_marker_object _ _ Hj) as [Hhw Hm].
  destruct (mark_job_done_spec _ Hhw Hm) as (m1 & E1 & Hk1 & Hne & Hst & _).
  assert (Hs1 : suspension_of_json v = Some s).
  { unfold read_suspension in Hs. by rewrite Hv in Hs. }
  destruct (stamp_resumed_marker m1 v s) as (u & E2 & Hu & _ & Hku); [by rewrite Hne|done..|].
  unfold resume_after_job. simpl. rewrite E1. simpl. rewrite E2. simpl.
  eexists _, _. split; [done|]. split_and!.
  - exists u. split; [apply jget_stamp|done].
  - eexists. rewrite read_suspension_stamp, Hu. split_and!; done.
  - by rewrite jget_stamp_ne.
  - intros k H1 H2. rewrite jget_stamp_ne by done. by apply Hne.
  - intros snap b ->. done.
Qed.

(** One turn of the loop.  A result that is not parked on the queue is
    the caller's, unchanged and without the queue being asked anything.  When
    cancellation beats the job, the job is cancelled in the queue, nothing is
    dispatched and the run is [Ok] with the status [cancelled] and its
    suspension marker still in place.  When the job finishes first, its
    outcome is found under [TestTaskNode], the job is marked done and the
    walk is resumed at the suspension's own pointer. *)
Theorem drive_turn wf o walk_fuel fuel ctx w :
  match parked parse_uuid ctx with
  | None => drive_loop on_progress parse_uuid wf o walk_fuel fuel ctx w
              = (Finished (Ok ctx), w, [])
  | Some (s, at_, job) =>
      marker_object (metadata ctx) SUSPENSION_METADATA_KEY ->
      match await_outcome job w with
      | (None, w1) => exists ctx',
          drive_loop on_progress parse_uuid wf o walk_fuel (S fuel) ctx w
            = (Finished (Ok ctx'), snd (w_now (cancel_if_queued job w1)), []) /\
          derive_terminal_status ctx' = "cancelled" /\ nodes ctx' = nodes ctx /\
          read_suspension (metadata ctx') = Some s
      | (Some out, w1) => exists state m,
          resume_after_job ctx s at_ out = Some state /\ at_identity state = at_ /\
          nodes (rs_ctx state) = <[TEST_TASK_NODE_IDENTITY := out]> (nodes ctx) /\
          node_runs (rs_ctx state) = node_runs ctx /\
          (v ← jget (metadata (rs_ctx state)) HEAVY_WORK_METADATA_KEY; jget v "state")
            = Some (jstr "done") /\
          run_from on_progress wf walk_fuel state o = Some m /\
          drive_loop on_progress parse_uuid wf o walk_fuel (S fuel) ctx w =
            (let '(r, w2, t) := m w1 in
             match r with
             | Some (Ok ctx') =>
                 let '(r', w3, t') :=
                   drive_loop on_progress parse_uuid wf o walk_fuel fuel ctx' w2 in (r', w3, t ++ t')
             | Some (Err e) => (Finished (Err e), w2, t)
             | None => (OutOfFuel, w2, t)
             end)
      end
  end.
Proof.
  destruct (parked parse_uuid ctx) as [[[s at_] job]|] eqn:Ep.
  2: { destruct fuel; cbn [drive_loop]; by rewrite Ep. }
  intros Hmark. destruct (await_outcome job w) as [[out|] w1] eqn:Ea.
  - destruct (resume_after_job_spec _ _ _ _ out Ep Hmark)
      as (m & l & Hres & Hmo & (st & Hst & _) & Hdone & _).
    assert (Hrun : exists m', run_from on_progress wf walk_fuel
      (mkResumeState (set_metadata (fun _ => m)
        (set_nodes <[TEST_TASK_NODE_IDENTITY := out]> ctx)) at_ l) o = Some m').
    { unfold run_from. simpl. destruct (seed_missing_spec wf (set_metadata (fun _ => m)
        (set_nodes <[TEST_TASK_NODE_IDENTITY := out]> ctx))) as (_ & _ & _ & Sm).
      rewrite Sm. simpl. destruct Hmo as (v & Hv & Hk).
      destruct (stamp_resumed_marker m v st) as (u & -> & _); [done..| |].
      - unfold read_suspension in Hst. by rewrite Hv in Hst.
      - simpl. eauto. }
    destruct Hrun as [m' Hrun]. eexists _, m'. split; [exact Hres|]. split_and!; [done..|].
    cbn [drive_loop]. rewrite Ep. unfold bind at 1. rewrite Ea, Hres.
    unfold call_run_from. rewrite Hrun. unfold lift_walk, bind, ret.
    destruct (m' w1) as [[[[ctx'|e]|] w2] t]; rewrite ?app_nil_r; [|done..].
    by destruct (drive_loop _ _ _ _ _ _ _ _) as [[r' w3] t'].
  - cbn [drive_loop]. rewrite Ep. unfold bind, ret. rewrite Ea. unfold now. simpl.
    destruct (w_now (cancel_if_queued job w1)) as [t w2]. eexists. split; [done|]. split_and!.
    + unfold derive_terminal_status. simpl. unfold stamp_cancelled. rewrite flag_stamp. simpl.
      by rewrite as_bool_bool.
    + done.
    + simpl. unfold stamp_cancelled, read_suspension. rewrite jget_stamp_ne by done.
      by apply parked_inv in Ep as [? _].
Qed.

(** Every queue park is counted as two resumes: [drive] stamps the
    resume itself and [run_from] stamps it again, so the context the resumed
    walk starts from carries the suspension's count plus two. *)
Theorem queue_park_counts_twice wf o walk_fuel ctx s at_ job out :
  parked parse_uuid ctx = Some (s, at_, job) ->
  marker_object (metadata ctx) SUSPENSION_METADATA_KEY ->
  exists state c', resume_after_job ctx s at_ out = Some state /\
    run_from on_progress wf walk_fuel state o
      = Some (walk on_progress wf o walk_fuel c' (Some at_) (rs_ledger state)) /\
    (st ← read_suspension (metadata c'); Some (resume_count st))
      = Some (u32_add (u32_add (resume_count s) 1) 1) /\
    is_suspended (metadata c') = false.
Proof.
  intros Ep Hmark. destruct (resume_after_job_spec _ _ _ _ out Ep Hmark)
    as (m & l & Hres & (v & Hv & Hk) & (st & Hst & _ & Hcnt) & _).
  eexists. assert (Hvs : suspension_of_json v = Some st).
  { unfold read_suspension in Hst. by rewrite Hv in Hst. }
  destruct (stamp_resumed_marker m v st) as (u & Hu & Hus & _); [done..|].
  eexists. split; [exact Hres|]. unfold run_from. simpl.
  destruct (seed_missing_spec wf (set_metadata (fun _ => m)
    (set_nodes <[TEST_TASK_NODE_IDENTITY := out]> ctx))) as (_ & _ & _ & Sm).
  rewrite Sm. simpl. rewrite Hu. simpl. split; [done|].
  match goal with |- context [stamp_opt_run_id ?u ?c] =>
    destruct (stamp_opt_run_id_frame u c) as (_ & _ & _ & Fm & _) end.
  unfold is_suspended, read_suspension. rewrite Fm by done. simpl.
  rewrite jget_stamp. simpl. rewrite Hus. simpl. by rewrite Hcnt.
Qed.
End QueueParkFacts.

(** ** Witnesses *)

Module ParkModel.
Import JsonModel RuntimeModel.

Definition parse (s : string) : option (@uuid extern) := Some s.
(** Job outcomes arrive; nobody cancels. *)
#[export] Instance lookup : @HeavyJobLookup extern runtime :=
  {| await_outcome := fun _ w => (Some (JStr "passed"), w); cancel_if_queued := fun _ w => w |}.
Definition parked_metadata : @value extern :=
  stamp_suspended (X := extern) 3%Z
    (JObj [("heavy_work", JObj [("job_id", JStr "job-1"); ("state", JStr "queued")])])
    (mkSuspension "B" HeavyWorkQueue (Some "A") (mkBudgetLedger 10 f64_zero false)).
Definition ctx : @TaskContext extern := mkTaskContext JNull ∅ parked_metadata ∅.
Definition state : SuspensionState := mkSuspensionState true (Some "B") (Some HeavyWorkQueue)
  (Some "A") (Some (mkLedgerSnapshot 10 f64_zero)) 0 false.
End ParkModel.

Import RuntimeModel ParkModel.

Lemma drive_turn_witness :
  exists r, resume_after_job ParkModel.ctx ParkModel.state "B" (JsonModel.JStr "passed") = Some r /\
    at_identity r = "B" /\ nodes (rs_ctx r) !! TEST_TASK_NODE_IDENTITY = Some (JsonModel.JStr "passed").
Proof.
  assert (Hp : parked (X := JsonModel.extern) parse ParkModel.ctx = Some (ParkModel.state, "B", "job-1"))
    by reflexivity.
  pose proof (drive_turn silent parse WorkflowModel.wf WorkflowModel.plain 5 1 ParkModel.ctx 0%Z) as H.
  rewrite Hp in H. cbn [await_outcome lookup] in H.
  destruct H as (r & m & H1 & H2 & H3 & _); [by eexists|].
  exists r. split; [exact H1|]. split; [exact H2|]. by rewrite H3.
Defined.

Lemma queue_park_counts_twice_witness :
  exists r (c' : @TaskContext JsonModel.extern), resume_after_job ParkModel.ctx ParkModel.state "B" (JsonModel.JStr "passed") = Some r /\
    (st ← read_suspension (metadata c'); Some (resume_count st)) = Some 2%Z.
Proof.
  destruct (queue_park_counts_twice silent parse WorkflowModel.wf WorkflowModel.plain 5 ParkModel.ctx
              ParkModel.state "B" "job-1" (JsonModel.JStr "passed")) as (r & c' & H1 & _ & H2 & _).
  - reflexivity.
  - by eexists.
  - exists r, c'. split; [exact H1|]. rewrite H2. reflexivity.
Defined.
