(* ===== verification/LoopCombinator.v ===== *)
(** * The bounded-loop cluster

    crates/engine-core/src/loop_combinator.rs: [build_loop] wires a guard
    router and an increment node around a body.  [loop_rounds] is what the
    walk does between entering the body and leaving the cluster: the body, the
    guard, and, when the guard routes to it, the increment node and its
    back-edge. *)

From S2P Require Import Prelude Json Contract Sessions Node Validate.
From stdpp Require Import relations.

Local Open Scope string_scope.
Local Open Scope list_scope.

Definition ITERATIONS_KEY : string := "iterations".
Definition GUARD_BASE_IDENTITY : string := "LoopGuardRouterNode".
Definition INCREMENT_BASE_IDENTITY : string := "LoopIncrementNode".

Section Loop.
Context {X : Extern} {R : Runtime}.

Record LoopSpec := mkLoopSpec {
  identity_prefix : string;
  max_iterations : Z;
  exit_predicate : TaskContext -> bool;
  body_entry : string;
  exit_to : string
}.

Definition guard_identity (s : LoopSpec) : string := identity_prefix s +:+ "Guard".
Definition increment_identity (s : LoopSpec) : string := identity_prefix s +:+ "Increment".

(** [ctx.nodes.get(id).and_then(..).and_then(as_u64).unwrap_or(0)] *)
Definition read_iterations (ctx : TaskContext) (id : string) : Z :=
  default 0%Z (v ← nodes ctx !! id; n ← jget v ITERATIONS_KEY; as_u64 n).

Definition guard_route (increment : string) (max : Z) (exit_pred : TaskContext -> bool)
    (exit_to : string) (ctx : TaskContext) : option string :=
  (* [as u32] *)
  let completed := (read_iterations ctx increment mod u32_modulus)%Z in
  let iterations_so_far := u32_sat_add completed 1 in
  if (max <=? iterations_so_far)%Z || exit_pred ctx then Some exit_to else Some increment.

Definition LoopGuardRouterNode (increment : string) (max : Z) (exit_pred : TaskContext -> bool)
    (exit_to : string) : Node := {|
  name := GUARD_BASE_IDENTITY;
  process := fun ctx w => (Ok ctx, w);
  as_router := Some (fun ctx _ => guard_route increment max exit_pred exit_to ctx)
|}.

Definition increment_process (self_identity : string) (ctx : TaskContext) : TaskContext :=
  let bumped := u64_add (read_iterations ctx self_identity) 1 in
  set_nodes <[self_identity := json_object [(ITERATIONS_KEY, ju64 bumped)]]> ctx.

Definition LoopIncrementNode (self_identity body_entry : string) : Node := {|
  name := INCREMENT_BASE_IDENTITY;
  process := fun ctx w => (Ok (increment_process self_identity ctx), w);
  as_router := Some (fun _ _ => Some body_entry)
|}.

Record LoopCluster := mkLoopCluster {
  lc_guard_identity : string;
  lc_increment_identity : string;
  lc_nodes : list Node;
  lc_connections : gmap string NodeConfig
}.

Definition build_loop (spec : LoopSpec) : LoopCluster :=
  let g := guard_identity spec in
  let i := increment_identity spec in
  let guard := with_identity
    (LoopGuardRouterNode i (max_iterations spec) (exit_predicate spec) (exit_to spec)) g in
  let increment := with_identity (LoopIncrementNode i (body_entry spec)) i in
  mkLoopCluster g i [guard; increment]
    (<[i := mkNodeConfig i [body_entry spec]]>
      (<[g := mkNodeConfig g [i; exit_to spec]]> ∅)).

(** [process] followed by [route], for the node a cluster has under [id]. *)
Definition visit (c : LoopCluster) (id : string) (ctx : TaskContext) (w : W)
  : option (TaskContext * W * option string) :=
  n ← list_find (fun n => name n = id) (lc_nodes c);
  match process n.2 ctx w with
  | (Ok ctx', w') => route ← as_router n.2; Some (ctx', w', dispatch_route route ctx' w')
  | (Err _, _) => None
  end.

(** How many times the body runs before the cluster is left at [exit_to];
    [None] when the fuel runs out or the route leads elsewhere. *)
Fixpoint loop_rounds (c : LoopCluster) (body_entry exit_to : string)
    (body : TaskContext -> W -> TaskContext * W) (fuel : nat) (ctx : TaskContext) (w : W)
  : option (nat * TaskContext) :=
  match fuel with
  | O => None
  | S f =>
      let '(ctx, w) := body ctx w in
      v ← visit c (lc_guard_identity c) ctx w;
      let '(ctx, w, next) := v in
      if bool_decide (next = Some (lc_increment_identity c)) then
        v ← visit c (lc_increment_identity c) ctx w;
        let '(ctx, w, next) := v in
        if bool_decide (next = Some body_entry) then
          r ← loop_rounds c body_entry exit_to body f ctx w; Some (S r.1, r.2)
        else None
      else if bool_decide (next = Some exit_to) then Some (1%nat, ctx)
      else None
  end.

(** Merging a cluster into a workflow under construction. *)
Definition merge_registry (reg : gmap string Node) (c : LoopCluster) : gmap string Node :=
  foldl register reg (lc_nodes c).
Definition merge_schema (s : WorkflowSchema) (c : LoopCluster) : WorkflowSchema :=
  mkWorkflowSchema (workflow_type s) (start_node s) (lc_connections c ∪ schema_nodes s).
End Loop.

Section LoopFacts.
Context {X : Extern} {HX : ExternLaws X} {R : Runtime}.

Lemma guard_not_increment s : guard_identity s <> increment_identity s.
Proof.
  unfold guard_identity, increment_identity. intros H. by apply (inj (String.append _)) in H.
Qed.

Lemma name_with_identity n id : name (with_identity n id) = id.
Proof. done. Qed.

(** No entry sits under the cluster's base type names, so the identity
    overrides have nothing to relabel. *)
Definition base_free (ctx : TaskContext) : Prop :=
  nodes ctx !! GUARD_BASE_IDENTITY = None /\ nodes ctx !! INCREMENT_BASE_IDENTITY = None.

Lemma relabel_absent from to out : nodes out !! from = None -> relabel from to out = out.
Proof. unfold relabel. intros ->. by destruct (String.eqb from to). Qed.

Lemma visit_guard s ctx w :
  base_free ctx ->
  visit (build_loop s) (guard_identity s) ctx w =
    Some (ctx, w, guard_route (increment_identity s) (max_iterations s) (exit_predicate s)
                    (exit_to s) ctx).
Proof.
  intros [Hg _]. unfold visit, build_loop. simpl.
  rewrite decide_True by done. simpl. by rewrite relabel_absent.
Qed.

Lemma visit_increment s ctx w :
  base_free ctx -> increment_identity s <> INCREMENT_BASE_IDENTITY ->
  visit (build_loop s) (increment_identity s) ctx w =
    Some (increment_process (increment_identity s) ctx, w, Some (body_entry s)).
Proof.
  intros [_ Hi] Hne. unfold visit, build_loop. simpl.
  rewrite decide_False by apply guard_not_increment. simpl.
  rewrite decide_True by done. simpl.
  rewrite relabel_absent by (simpl; by rewrite lookup_insert_ne). done.
Qed.

Lemma read_iterations_bumped id ctx :
  (0 <= read_iterations ctx id < u64_max)%Z ->
  read_iterations (increment_process id ctx) id = (read_iterations ctx id + 1)%Z.
Proof.
  intros H. unfold read_iterations at 1, increment_process. simpl.
  rewrite lookup_insert_eq. simpl. rewrite jget_json_object. simpl.
  unfold u64_max, u64_modulus in H.
  rewrite u64_add_exact by (unfold u64_ok, u64_modulus; lia).
  rewrite as_u64_u64 by (unfold u64_ok, u64_modulus; lia). done.
Qed.

Lemma guard_route_eq inc max p ex ctx :
  (0 <= read_iterations ctx inc < u32_max)%Z ->
  guard_route inc max p ex ctx =
    if (max <=? read_iterations ctx inc + 1)%Z || p ctx then Some ex else Some inc.
Proof.
  intros H. unfold guard_route, u32_sat_add. unfold u32_max, u32_modulus in *.
  rewrite Z.mod_small by lia. rewrite Z.min_r by lia. done.
Qed.

(** A body that succeeds, leaves the cluster's own entries alone and does not
    stamp anything under its base names. *)
Definition keeps_counter (s : LoopSpec) (body : TaskContext -> W -> TaskContext * W) : Prop :=
  forall ctx w, base_free ctx ->
    base_free (body ctx w).1 /\
    nodes (body ctx w).1 !! increment_identity s = nodes ctx !! increment_identity s.

Lemma base_free_increment s ctx :
  base_free ctx -> increment_identity s <> INCREMENT_BASE_IDENTITY ->
  increment_identity s <> GUARD_BASE_IDENTITY ->
  base_free (increment_process (increment_identity s) ctx).
Proof.
  intros [Hg Hi] H1 H2. unfold base_free, increment_process. simpl.
  by rewrite !lookup_insert_ne.
Qed.

Definition spec_ok (s : LoopSpec) : Prop :=
  (0 <= max_iterations s <= u32_max)%Z /\ exit_to s <> increment_identity s /\
  increment_identity s <> INCREMENT_BASE_IDENTITY /\ increment_identity s <> GUARD_BASE_IDENTITY.

(** Body runs left when the stored count is [count]. *)
Definition runs_left (s : LoopSpec) (count : Z) : nat := Z.to_nat (Z.max 1 (max_iterations s - count)).

Lemma loop_rounds_spec s body fuel ctx w :
  spec_ok s -> keeps_counter s body -> base_free ctx ->
  (0 <= read_iterations ctx (increment_identity s) < u32_max)%Z ->
  (runs_left s (read_iterations ctx (increment_identity s)) <= fuel)%nat ->
  exists n ctx', loop_rounds (build_loop s) (body_entry s) (exit_to s) body fuel ctx w
      = Some (n, ctx') /\
    (1 <= n <= runs_left s (read_iterations ctx (increment_identity s)))%nat /\
    (n = runs_left s (read_iterations ctx (increment_identity s)) \/ exit_predicate s ctx' = true).
Proof.
  intros (Hmax & Hex & Hi1 & Hi2) Hbody. revert ctx w.
  induction fuel as [|f IH]; intros ctx w Hbf Hcnt Hf.
  { unfold runs_left in Hf. lia. }
  cbn [loop_rounds]. destruct (Hbody ctx w Hbf) as [Hbf1 Hsame].
  destruct (body ctx w) as [ctx1 w1]. simpl in Hbf1, Hsame.
  assert (Hrd : read_iterations ctx1 (increment_identity s)
                = read_iterations ctx (increment_identity s)).
  { unfold read_iterations. by rewrite Hsame. }
  rewrite visit_guard by done. simpl. rewrite guard_route_eq by (by rewrite Hrd). rewrite Hrd.
  set (c := read_iterations ctx (increment_identity s)) in *.
  destruct (Z.leb_spec (max_iterations s) (c + 1)) as [Hle|Hgt]; simpl.
  { rewrite bool_decide_false by congruence. rewrite bool_decide_true by done.
    eexists _, _. split; [done|]. unfold runs_left. lia. }
  destruct (exit_predicate s ctx1) eqn:Ep.
  { rewrite bool_decide_false by congruence. rewrite bool_decide_true by done.
    eexists _, _. split; [done|]. split; [unfold runs_left; lia|by right]. }
  rewrite bool_decide_true by done. rewrite visit_increment by done. simpl.
  rewrite bool_decide_true by done.
  destruct (IH (increment_process (increment_identity s) ctx1) w1) as (n & ctx' & -> & Hn & Hor).
  - by apply base_free_increment.
  - rewrite read_iterations_bumped; rewrite Hrd; unfold u32_max, u64_max, u32_modulus, u64_modulus in *; lia.
  - rewrite read_iterations_bumped; rewrite Hrd; unfold runs_left in *;
      unfold u32_max, u64_max, u32_modulus, u64_modulus in *; lia.
  - simpl. rewrite read_iterations_bumped in Hn, Hor by (rewrite Hrd;
      unfold u32_max, u64_max, u32_modulus, u64_modulus in *; lia).
    rewrite Hrd in Hn, Hor. unfold runs_left in *.
    eexists _, _. split; [done|]. split; [lia|]. destruct Hor; [left; lia|by right].
Qed.

(** A loop cluster terminates and its cap is exact.  Entered with a
    stored count [c], over any body that does not touch the counter, the
    cluster is left at [exit_to] after at most [max 1 (max_iterations - c)]
    runs of the body, exactly that many unless the exit predicate held on
    leaving.  A fresh loop therefore runs its body [max_iterations] times
    (once when the cap is 0), and a loop entered again in the same run, whose
    counter nobody resets, goes through its body only once. *)
Theorem loop_runs_exactly s body fuel ctx w :
  spec_ok s -> keeps_counter s body -> base_free ctx ->
  let c := read_iterations ctx (increment_identity s) in
  (0 <= c < u32_max)%Z ->
  (runs_left s c <= fuel)%nat ->
  exists n ctx', loop_rounds (build_loop s) (body_entry s) (exit_to s) body fuel ctx w
      = Some (n, ctx') /\
    (1 <= n <= runs_left s c)%nat /\ (n = runs_left s c \/ exit_predicate s ctx' = true) /\
    (nodes ctx !! increment_identity s = None -> runs_left s c = Z.to_nat (Z.max 1 (max_iterations s))) /\
    ((max_iterations s <= c + 1)%Z -> n = 1%nat).
Proof.
  intros Hs Hb Hbf c Hc Hf.
  destruct (loop_rounds_spec s body fuel ctx w Hs Hb Hbf Hc Hf) as (n & ctx' & E & Hn & Hor).
  exists n, ctx'. split_and!; [done|lia|fold c in Hn; lia|done| |].
  - intros Hnone. unfold runs_left, c, read_iterations. rewrite Hnone. simpl. f_equal. lia.
  - intros Hle. fold c in Hn. unfold runs_left in Hn. lia.
Qed.

Lemma registered_cluster reg s :
  merge_registry reg (build_loop s) !! guard_identity s
    = Some (with_identity (LoopGuardRouterNode (increment_identity s) (max_iterations s)
              (exit_predicate s) (exit_to s)) (guard_identity s)) /\
  merge_registry reg (build_loop s) !! increment_identity s
    = Some (with_identity (LoopIncrementNode (increment_identity s) (body_entry s))
              (increment_identity s)).
Proof.
  unfold merge_registry, build_loop, register. simpl. split.
  - rewrite lookup_insert_ne by (intros H; by apply (guard_not_increment s)).
    by rewrite lookup_insert_eq.
  - by rewrite lookup_insert_eq.
Qed.

(** The cluster's back-edge is invisible to the structural guard: merging
    a cluster into a workflow adds no non-router edge, so a workflow
    whose non-router graph is acyclic stays acyclic with a loop in it. *)
Theorem loop_cluster_keeps_acyclic reg schema s :
  acyclic reg schema ->
  acyclic (merge_registry reg (build_loop s)) (merge_schema schema (build_loop s)).
Proof.
  intros Hac x Hx. apply (Hac x).
  assert (Hedge : forall a b, nr_edge (merge_registry reg (build_loop s))
    (merge_schema schema (build_loop s)) a b -> nr_edge reg schema a b).
  { intros a b [Hr He]. destruct (registered_cluster reg s) as [Eg Ei].
    unfold is_router, registry_get in Hr.
    destruct (decide (a = guard_identity s)) as [->|Hag]; [by rewrite Eg in Hr|].
    destruct (decide (a = increment_identity s)) as [->|Hai]; [by rewrite Ei in Hr|].
    split.
    - unfold is_router, registry_get.
      assert (merge_registry reg (build_loop s) !! a = reg !! a) as Heq; [|by rewrite <- Heq].
      unfold merge_registry, build_loop, register. cbn [lc_nodes foldl].
      rewrite !name_with_identity. by rewrite !lookup_insert_ne by congruence.
    - revert He. unfold edge, declared_edges, merge_schema, build_loop. simpl.
      rewrite lookup_union, !lookup_insert_ne, lookup_empty by congruence.
      by destruct (schema_nodes schema !! a). }
  clear Hac. revert Hx. generalize x at 2 4. intros y Hx.
  induction Hx as [a b H|a b c H _ IH]; [by apply tc_once, Hedge|].
  eapply tc_l; [by apply Hedge|done].
Qed.
End LoopFacts.

(** ** Witnesses *)

Module LoopModel.
Import JsonModel RuntimeModel.

Definition spec : @LoopSpec extern :=
  mkLoopSpec "Retry" 3 (fun _ => false) "Work" "Done".
Definition body (ctx : @TaskContext extern) (w : @W extern runtime)
  : @TaskContext extern * @W extern runtime :=
  (set_nodes <["Work" := JU64 1]> ctx, w).
End LoopModel.

Import RuntimeModel.

Lemma loop_runs_exactly_witness :
  exists ctx', loop_rounds (build_loop LoopModel.spec) "Work" "Done" LoopModel.body 3
                 RuntimeModel.empty_ctx 0%Z = Some (3%nat, ctx').
Proof.
  destruct (loop_runs_exactly LoopModel.spec LoopModel.body 3 RuntimeModel.empty_ctx 0%Z)
    as (n & ctx' & H & _ & Hn & _).
  - by repeat split.
  - intros ctx w [H1 H2]. unfold base_free. simpl. by rewrite !lookup_insert_ne.
  - by split.
  - by split.
  - reflexivity.
  - destruct Hn as [->|Hn]; [|discriminate]. exists ctx'. exact H.
Defined.

Lemma loop_cluster_keeps_acyclic_witness :
  let empty := mkWorkflowSchema "demo" "RetryGuard" ∅ in
  acyclic (R := runtime) (merge_registry ∅ (build_loop LoopModel.spec)) (merge_schema empty (build_loop LoopModel.spec)).
Proof.
  intros empty. apply (loop_cluster_keeps_acyclic ∅ empty LoopModel.spec).
  assert (H : forall x y, ~ nr_edge (R := runtime) ∅ empty x y).
  { intros x y [_ H]. by apply elem_of_nil in H. }
  intros x Hx. destruct Hx as [x y Hxy|x y z Hxy _]; by apply H in Hxy.
Defined.
