(* ===== verification/Parallel.v ===== *)
(** * Fan-out and merge

    crates/engine-core/src/parallel.rs.  [futures::future::join_all] is not
    under src/: the class [JoinAll] is the promise used of it, that the result
    list has one entry per branch, in order, and that each entry is what that
    branch's [process] returned on its own clone of the context, at some world
    (the branches interleave, so which world each of them started from is not
    determined). *)

From S2P Require Import Prelude Json Contract Sessions Node.

Local Open Scope string_scope.
Local Open Scope list_scope.

Inductive BranchFailure := FailRun | Tolerate.

Record BranchOutcome := mkBranchOutcome {
  branch : string;
  bo_ok : bool;
  bo_error : option string
}.

Section Parallel.
Context {X : Extern} {R : Runtime} {HO : HashOrder}.

Class JoinAll : Type := {
  join_all : list Node -> TaskContext -> W -> list (result TaskContext NodeError) * W;
  join_all_spec : forall ns ctx w,
    Forall2 (fun n r => exists w1, fst (process n ctx w1) = r) ns (fst (join_all ns ctx w))
}.
Context {J : JoinAll}.

Record ParallelNode := mkParallelNode {
  p_identity : string;
  branches : list Node;
  branch_failure : BranchFailure
}.

Definition ParallelNode_new (identity : string) (bs : list Node) : ParallelNode :=
  mkParallelNode identity bs FailRun.
Definition with_branch_failure (p : ParallelNode) (f : BranchFailure) : ParallelNode :=
  mkParallelNode (p_identity p) (branches p) f.

(** [extend]: the entries of [b], then what [a] has elsewhere. *)
Definition extend {A} (a b : gmap string A) : gmap string A := b ∪ a.

Definition merge_branch_outputs (base : TaskContext) (outs : list TaskContext) : TaskContext :=
  let '(ns, rs) := foldl (fun '(ns, rs) out => (extend ns (nodes out), extend rs (node_runs out)))
                     (∅, ∅) outs in
  set_node_runs (fun m => extend m rs) (set_nodes (fun m => extend m ns) base).

(** [for result in branch_results { .. Err(err) => return Err(err) }] *)
Fixpoint all_ok (rs : list (result TaskContext NodeError)) : result (list TaskContext) NodeError :=
  match rs with
  | [] => Ok []
  | Err e :: _ => Err e
  | Ok out :: rs => match all_ok rs with Ok outs => Ok (out :: outs) | Err e => Err e end
  end.

Definition outcome_of (n : Node) (r : result TaskContext NodeError) : BranchOutcome :=
  match r with
  | Ok _ => mkBranchOutcome (name n) true None
  | Err e => mkBranchOutcome (name n) false (Some (message e))
  end.

Definition oks (rs : list (result TaskContext NodeError)) : list TaskContext :=
  omap (fun r => match r with Ok out => Some out | Err _ => None end) rs.

(** [skip_serializing_if = "Option::is_none"] on [error]. *)
Definition outcome_to_json (o : BranchOutcome) : value := json_object
  ([("branch", jstr (branch o)); ("ok", jbool (bo_ok o))] ++
   match bo_error o with Some e => [("error", jstr e)] | None => [] end).

Definition parallel_process (p : ParallelNode) (ctx : TaskContext) (w : W)
  : result TaskContext NodeError * W :=
  let '(results, w) := join_all (branches p) ctx w in
  match branch_failure p with
  | FailRun =>
      match all_ok results with
      | Ok outs => (Ok (merge_branch_outputs ctx outs), w)
      | Err e => (Err e, w)
      end
  | Tolerate =>
      let merged := merge_branch_outputs ctx (oks results) in
      let outcomes := zip_with outcome_of (branches p) results in
      (Ok (set_nodes <[p_identity p := jarray (map outcome_to_json outcomes)]> merged), w)
  end.

Definition ParallelNode_node (p : ParallelNode) : Node := {|
  name := p_identity p;
  process := parallel_process p;
  as_router := None
|}.

(** ** What the merge keeps *)

(** The last of the outputs that has the key. *)
Definition last_with {A} (f : TaskContext -> gmap string A) (k : string)
    (outs : list TaskContext) : option A :=
  foldl (fun acc out => match f out !! k with Some v => Some v | None => acc end) None outs.

Lemma merge_fold outs : forall (ns : gmap string value) (rs : gmap string NodeRun) k,
  let m := foldl (fun '(ns, rs) out => (extend ns (nodes out), extend rs (node_runs out)))
             (ns, rs) outs in
  (m.1 !! k = foldl (fun acc out => match nodes out !! k with Some v => Some v | None => acc end)
               (ns !! k) outs) /\
  (m.2 !! k = foldl (fun acc out => match node_runs out !! k with Some v => Some v | None => acc end)
               (rs !! k) outs).
Proof.
  induction outs as [|out outs IH]; intros ns rs k m; [done|]. subst m. cbn [foldl].
  destruct (IH (extend ns (nodes out)) (extend rs (node_runs out)) k) as [-> ->].
  unfold extend. rewrite !lookup_union.
  by destruct (nodes out !! k), (node_runs out !! k), (ns !! k), (rs !! k).
Qed.

Lemma merge_lookup base outs k :
  nodes (merge_branch_outputs base outs) !! k =
    (match last_with nodes k outs with Some v => Some v | None => nodes base !! k end) /\
  node_runs (merge_branch_outputs base outs) !! k =
    (match last_with node_runs k outs with Some v => Some v | None => node_runs base !! k end).
Proof.
  unfold merge_branch_outputs, last_with.
  destruct (merge_fold outs ∅ ∅ k) as [H1 H2]. rewrite !lookup_empty in *.
  destruct (foldl _ (∅, ∅) outs) as [ns rs]. simpl in *. unfold extend.
  rewrite !lookup_union, H1, H2.
  split; destruct (foldl _ None outs);
    [by destruct (nodes base !! k)..|by destruct (node_runs base !! k)|
     by destruct (node_runs base !! k)].
Qed.

Lemma last_with_app {A} (f : TaskContext -> gmap string A) k o1 o2 :
  last_with f k (o1 ++ o2) =
    match last_with f k o2 with Some v => Some v | None => last_with f k o1 end.
Proof.
  unfold last_with. rewrite foldl_app. generalize (foldl (fun acc out =>
    match f out !! k with Some v => Some v | None => acc end) None o1).
  induction o2 as [|o o2 IH] using rev_ind; intros acc; [done|]. rewrite !foldl_app. simpl.
  destruct (f o !! k); [done|]. apply IH.
Qed.

Lemma last_with_none {A} (f : TaskContext -> gmap string A) k outs :
  (forall o, o ∈ outs -> f o !! k = None) -> last_with f k outs = None.
Proof.
  induction outs as [|o outs IH] using rev_ind; intros H; [done|].
  rewrite last_with_app. unfold last_with at 1. simpl. rewrite H by set_solver.
  apply IH. set_solver.
Qed.

Lemma all_ok_spec rs :
  (exists outs, all_ok rs = Ok outs /\ rs = map Ok outs) \/
  (exists pre e post, all_ok rs = Err e /\ rs = map Ok pre ++ Err e :: post).
Proof.
  induction rs as [|[out|e] rs IH]; simpl.
  - left. by exists [].
  - destruct IH as [(outs & -> & ->)|(pre & e & post & -> & ->)].
    + left. by exists (out :: outs).
    + right. by exists (out :: pre), e, post.
  - right. by exists [], e, rs.
Qed.

(** The fan-out node.  With [FailRun] it fails with the first error in
    declared order as soon as one branch failed, and otherwise merges every
    branch; with [Tolerate] it always succeeds, merges the branches that did,
    and leaves one outcome per branch, in declared order, under its own
    identity.  A merged key comes from the last branch that has it, else from
    the base; the event and the metadata are the base's, so nothing a branch
    wrote to the metadata survives. *)
Theorem parallel_spec p ctx w :
  let rs := fst (join_all (branches p) ctx w) in
  Forall2 (fun n r => exists w1, fst (process n ctx w1) = r) (branches p) rs /\
  match branch_failure p, fst (parallel_process p ctx w) with
  | FailRun, Err e => exists pre post, rs = map Ok pre ++ Err e :: post
  | FailRun, Ok out => exists outs, rs = map Ok outs /\
      event out = event ctx /\ metadata out = metadata ctx /\
      forall k, nodes out !! k = match last_with nodes k outs with
                                 | Some v => Some v | None => nodes ctx !! k end /\
                node_runs out !! k = match last_with node_runs k outs with
                                 | Some v => Some v | None => node_runs ctx !! k end
  | Tolerate, Err _ => False
  | Tolerate, Ok out =>
      event out = event ctx /\ metadata out = metadata ctx /\
      nodes out !! p_identity p =
        Some (jarray (map outcome_to_json (zip_with outcome_of (branches p) rs))) /\
      length (zip_with outcome_of (branches p) rs) = length (branches p) /\
      forall k, k <> p_identity p ->
        nodes out !! k = match last_with nodes k (oks rs) with
                         | Some v => Some v | None => nodes ctx !! k end
  end.
Proof.
  intros rs. split; [apply join_all_spec|]. unfold parallel_process.
  assert (Hlen : length rs = length (branches p)).
  { symmetry. eapply Forall2_length, join_all_spec. }
  subst rs. destruct (join_all (branches p) ctx w) as [rs w']. simpl in *.
  destruct (branch_failure p).
  - destruct (all_ok_spec rs) as [(outs & -> & Hrs)|(pre & e & post & -> & Hrs)]; simpl; [|eauto].
    exists outs. split_and!; [done| | |intros k; apply merge_lookup];
      unfold merge_branch_outputs; by destruct (foldl _ (∅, ∅) outs).
  - simpl. split_and!; [..|by rewrite lookup_insert_eq| |].
    1,2: unfold merge_branch_outputs; by destruct (foldl _ (∅, ∅) (oks rs)).
    + rewrite length_zip_with. lia.
    + intros k Hk. rewrite lookup_insert_ne by done. by apply merge_lookup.
Qed.

(** Because every branch hands back the whole context it was given, a
    later branch overwrites an earlier branch's update of an entry that was
    already there even when it never touched it: with two branches, the
    second of which leaves [k] as it found it, the first one's new value of
    [k] is lost. *)
Theorem parallel_lost_update ctx out1 out2 k v :
  nodes ctx !! k = Some v ->
  nodes out2 !! k = nodes ctx !! k ->
  nodes (merge_branch_outputs ctx [out1; out2]) !! k = Some v.
Proof.
  intros Hv H2. destruct (merge_lookup ctx [out1; out2] k) as [-> _].
  unfold last_with. simpl. by rewrite H2, Hv.
Qed.
End Parallel.

(** ** Witnesses *)

Module ParallelModel.
Import JsonModel RuntimeModel.

(** The branches run one after the other. *)
Fixpoint in_turn (ns : list Node) (ctx : @TaskContext extern) (w : @W extern runtime)
  : list (result TaskContext NodeError) * @W extern runtime :=
  match ns with
  | [] => ([], w)
  | n :: ns =>
      let '(r, w) := process n ctx w in
      let '(rs, w) := in_turn ns ctx w in (r :: rs, w)
  end.

Lemma in_turn_spec ns ctx w :
  Forall2 (fun n r => exists w1, fst (process n ctx w1) = r) ns (fst (in_turn ns ctx w)).
Proof.
  revert w. induction ns as [|n ns IH]; intros w; simpl; [constructor|].
  destruct (process n ctx w) as [r w1] eqn:E. specialize (IH w1).
  destruct (in_turn ns ctx w1) as [rs w2]. constructor; [exists w; by rewrite E|exact IH].
Qed.

#[export] Instance join : @JoinAll extern runtime := {| join_all := in_turn; join_all_spec := in_turn_spec |}.

Definition node (f : BranchFailure) : ParallelNode :=
  mkParallelNode "Fan" [stamps "A" (JU64 1); fails "B"; stamps "C" (JU64 3)] f.
End ParallelModel.

Import RuntimeModel ParallelModel.

Lemma parallel_spec_witness :
  match fst (parallel_process (ParallelModel.node Tolerate) empty_ctx 0%Z) with
  | Ok out => nodes out !! "C" = Some (JsonModel.JU64 3)
  | Err _ => False
  end.
Proof.
  destruct (parallel_spec (ParallelModel.node Tolerate) empty_ctx 0%Z) as [_ H].
  cbn [branch_failure ParallelModel.node] in H.
  destruct (parallel_process _ _ _) as [[out|e] w']; cbn [fst] in *; [|exact H].
  destruct H as (_ & _ & _ & _ & H). refine (H "C" _). done.
Defined.

Lemma parallel_lost_update_witness :
  let base := set_nodes <["k" := JsonModel.JU64 0]> empty_ctx in
  let out1 := set_nodes <["k" := JsonModel.JU64 1]> base in
  nodes (merge_branch_outputs base [out1; base]) !! "k" = Some (JsonModel.JU64 0).
Proof. intros base out1. by apply (parallel_lost_update base out1 base "k"). Defined.
