(* ===== verification/HeavyWork.v ===== *)
(** * The heavy-work queue

    crates/engine-core/src/coord/heavy_work.rs: the [[heavy_work]] table, the
    job store, FIFO admission per class under the admission lock, liveness-only
    reclaim, heartbeats and completion.

    The store is the map from job id to the readable record of that job's file;
    [write_job]'s rename makes each update of it atomic.  What the module asks
    of its surroundings is a parameter: [kill_0] is whether [kill -0 pid]
    succeeds, [accepts] whether a write of a record succeeds, [read_dir] the
    directory's iteration order.  [try_admit] is one attempt under the lock. *)

From S2P Require Import Prelude Json Contract.
From stdpp Require Import relations fin_sets.

Local Open Scope string_scope.
Local Open Scope list_scope.

Definition DEFAULT_HEARTBEAT_INTERVAL_SECS : Z := 30.
Definition DEFAULT_STALE_AFTER_SECS : Z := 300.
Definition DEFAULT_POLL_INTERVAL_MS : Z := 50.

Inductive JobState := Queued | JobRunning | JobDone | Cancelled | Abandoned.

#[export] Instance JobState_eq_dec : EqDecision JobState.
Proof. solve_decision. Defined.

(** ** Configuration *)

Record ClassLimit := mkClassLimit { limit : Z; min_free_mb : Z }.

Record HeavyWorkConfig := mkHeavyWorkConfig {
  enabled : bool;
  heartbeat_interval_secs : Z;
  stale_after_secs : Z;
  poll_interval_ms : Z;
  classes : gmap string ClassLimit
}.

(** The table as [toml] decodes it; [usize] and [u64] fields are in range. *)
Record RawHeavyWorkTable := mkRawHeavyWorkTable {
  raw_heartbeat_interval_secs : option Z;
  raw_stale_after_secs : option Z;
  raw_poll_interval_ms : option Z;
  raw_classes : gmap string ClassLimit
}.

Inductive HeavyWorkConfigError := InvalidClassLimit (key : string) (value : Z).

Definition config_disabled : HeavyWorkConfig := mkHeavyWorkConfig false 0 0 0 ∅.

Definition config_class (c : HeavyWorkConfig) (class : string) : option ClassLimit :=
  classes c !! class.

Section Config.
Context {HO : HashOrder}.

Fixpoint check_classes (l : list (string * ClassLimit)) (acc : gmap string ClassLimit)
  : result (gmap string ClassLimit) HeavyWorkConfigError :=
  match l with
  | [] => Ok acc
  | (name, raw) :: l' =>
      if (limit raw <? 1)%Z
      then Err (InvalidClassLimit ("heavy_work.classes." +:+ name +:+ ".limit") (limit raw))
      else check_classes l' (<[name := raw]> acc)
  end.

Definition config_parse (heavy_work : option RawHeavyWorkTable)
  : result HeavyWorkConfig HeavyWorkConfigError :=
  match heavy_work with
  | None => Ok config_disabled
  | Some raw =>
      match check_classes (hm_iter (raw_classes raw)) ∅ with
      | Err e => Err e
      | Ok classes =>
          Ok (mkHeavyWorkConfig true
                (default DEFAULT_HEARTBEAT_INTERVAL_SECS (raw_heartbeat_interval_secs raw))
                (default DEFAULT_STALE_AFTER_SECS (raw_stale_after_secs raw))
                (default DEFAULT_POLL_INTERVAL_MS (raw_poll_interval_ms raw))
                classes)
      end
  end.
End Config.

(** ** Jobs *)

Section Queue.
Context {X : Extern}.
(** Job ids, with [Uuid]'s order. *)
Context {J : Type} `{Countable J} (cmp_id : J -> J -> comparison) {Hcmp : TotalCmp cmp_id}.
Context (kill_0 : Z -> bool).

Record HeavyWorkJob := mkHeavyWorkJob {
  job_id : J;
  job_class : string;
  state : JobState;
  repo : string;
  cwd : string;
  commands : list string;
  job_run_id : option uuid;
  holder_pid : option Z;
  enqueued_at : instant;
  admitted_at : option instant;
  heartbeat_at : option instant;
  finished_at : option instant;
  passed : option bool;
  check_results : option value
}.

Record HeavyWorkJobResult := mkHeavyWorkJobResult { r_passed : bool; r_check_results : value }.

Record HeavyWorkSpec := mkHeavyWorkSpec {
  spec_class : string;
  spec_repo : string;
  spec_cwd : string;
  spec_commands : list string;
  spec_run_id : option uuid
}.

Local Abbreviation store := (gmap J HeavyWorkJob).
Context (accepts : store -> HeavyWorkJob -> bool).
Context (read_dir : store -> list J) (read_dir_perm : forall st, read_dir st ≡ₚ (map_to_list st).*1).

Inductive HeavyWorkStoreError := Io.

Definition write_job (st : store) (job : HeavyWorkJob) : result unit HeavyWorkStoreError * store :=
  if accepts st job then (Ok tt, <[job_id job := job]> st) else (Err Io, st).

Definition fifo_cmp (a b : HeavyWorkJob) : comparison :=
  match Z.compare (enqueued_at a) (enqueued_at b) with
  | Eq => cmp_id (job_id a) (job_id b)
  | c => c
  end.

Definition is_pid_running (pid : Z) : bool := if (pid =? 0)%Z then false else kill_0 pid.

(** Whole seconds of [now - heartbeat], toward zero. *)
Definition age_secs (now heartbeat : instant) : Z := Z.quot (now - heartbeat) 1000000000.

Definition is_reclaimable (pid : option Z) (heartbeat : option instant) (stale_after : Z)
    (now : instant) : bool :=
  let pid_alive := from_option is_pid_running false pid in
  if negb pid_alive then true
  else match heartbeat with
       | Some hb => (age_secs now hb <? 0)%Z || (stale_after <? age_secs now hb)%Z
       | None => false
       end.

Definition set_state (job : HeavyWorkJob) (s : JobState) (fin : option instant) : HeavyWorkJob :=
  mkHeavyWorkJob (job_id job) (job_class job) s (repo job) (cwd job) (commands job)
    (job_run_id job) (holder_pid job) (enqueued_at job) (admitted_at job) (heartbeat_at job) fin
    (passed job) (check_results job).

Definition abandon (now : instant) (job : HeavyWorkJob) : HeavyWorkJob :=
  set_state job Abandoned (Some now).

Definition admitted (now : instant) (pid : Z) (job : HeavyWorkJob) : HeavyWorkJob :=
  mkHeavyWorkJob (job_id job) (job_class job) JobRunning (repo job) (cwd job) (commands job)
    (job_run_id job) (Some pid) (enqueued_at job) (Some now) (Some now) (finished_at job)
    (passed job) (check_results job).

Definition beat (now : instant) (job : HeavyWorkJob) : HeavyWorkJob :=
  mkHeavyWorkJob (job_id job) (job_class job) (state job) (repo job) (cwd job) (commands job)
    (job_run_id job) (holder_pid job) (enqueued_at job) (admitted_at job) (Some now)
    (finished_at job) (passed job) (check_results job).

Definition finished (now : instant) (s : JobState) (res : option HeavyWorkJobResult)
    (job : HeavyWorkJob) : HeavyWorkJob :=
  let job := set_state job s (Some now) in
  match res with
  | Some r => mkHeavyWorkJob (job_id job) (job_class job) (state job) (repo job) (cwd job)
      (commands job) (job_run_id job) (holder_pid job) (enqueued_at job) (admitted_at job)
      (heartbeat_at job) (finished_at job) (Some (r_passed r)) (Some (r_check_results r))
  | None => job
  end.

(** The directory loop of [try_admit]: collects the class's queue, counts its
    live jobs, abandons the stale ones as it meets them. *)
Fixpoint scan (class : string) (stale_after : Z) (now : instant) (ids : list J) (st : store)
    (queued : list HeavyWorkJob) (running_live : Z)
  : result (list HeavyWorkJob * Z) HeavyWorkStoreError * store :=
  match ids with
  | [] => (Ok (queued, running_live), st)
  | id :: ids =>
      match st !! id with
      | None => scan class stale_after now ids st queued running_live
      | Some job =>
          if negb (String.eqb (job_class job) class)
          then scan class stale_after now ids st queued running_live
          else match state job with
          | Queued => scan class stale_after now ids st (queued ++ [job]) running_live
          | JobRunning =>
              if is_reclaimable (holder_pid job) (heartbeat_at job) stale_after now then
                match write_job st (abandon now job) with
                | (Ok _, st) => scan class stale_after now ids st queued running_live
                | (Err e, st) => (Err e, st)
                end
              else scan class stale_after now ids st queued (running_live + 1)
          | _ => scan class stale_after now ids st queued running_live
          end
      end
  end.

Definition try_admit (st : store) (id : J) (class : string) (lim : ClassLimit) (free_mb : Z)
    (now : instant) (pid : Z) (stale_after : Z)
  : result (option instant) HeavyWorkStoreError * store :=
  match scan class stale_after now (read_dir st) st [] 0 with
  | (Err e, st) => (Err e, st)
  | (Ok (queued, running_live), st) =>
      let is_head := bool_decide (job_id <$> head (sort_by fifo_cmp queued) = Some id) in
      if negb is_head || (limit lim <=? running_live)%Z || (free_mb <? min_free_mb lim)%Z
      then (Ok None, st)
      else match st !! id with
           | None => (Err Io, st)
           | Some job =>
               match write_job st (admitted now pid job) with
               | (Ok _, st) => (Ok (Some now), st)
               | (Err e, st) => (Err e, st)
               end
           end
  end.

Definition enqueue_with_id (st : store) (id : J) (spec : HeavyWorkSpec) (now : instant)
  : result HeavyWorkJob HeavyWorkStoreError * store :=
  let job := mkHeavyWorkJob id (spec_class spec) Queued (spec_repo spec) (spec_cwd spec)
    (spec_commands spec) (spec_run_id spec) None now None None None None None in
  match write_job st job with
  | (Ok _, st) => (Ok job, st)
  | (Err e, st) => (Err e, st)
  end.

(** One tick of [spawn_heartbeat]'s loop, when nothing comes between its read
    and its write. *)
Definition heartbeat_tick (st : store) (id : J) (now : instant) : store :=
  match st !! id with
  | Some job => if bool_decide (state job = JobRunning) then snd (write_job st (beat now job)) else st
  | None => st
  end.

Definition finish_job (st : store) (id : J) (s : JobState) (res : option HeavyWorkJobResult)
    (now : instant) : store :=
  match st !! id with
  | Some job => snd (write_job st (finished now s res job))
  | None => st
  end.

(** ** Submission *)

Inductive HeavyWorkMode := Disabled | Enabled.

#[export] Instance HeavyWorkMode_eq_dec : EqDecision HeavyWorkMode.
Proof. solve_decision. Defined.

Record HeavyWorkOutcome {T : Type} := mkHeavyWorkOutcome {
  mode : HeavyWorkMode;
  o_job_id : option J;
  o_class : string;
  waited_ms : Z;
  degraded : bool;
  output : T
}.
Arguments HeavyWorkOutcome T : clear implicits.

Definition run_inline {T} (m : HeavyWorkMode) (spec : HeavyWorkSpec) (out : T)
  : HeavyWorkOutcome T :=
  mkHeavyWorkOutcome _ m None (spec_class spec) 0 (bool_decide (m = Enabled)) out.

(** One pass of [wait_for_admission]'s loop: other processes have turned the
    store into [before]; the clock and the probe answer [now] and [free]. *)
Record attempt := mkAttempt { before : store; at_now : instant; at_free : Z }.

Fixpoint wait_for_admission (attempts : list attempt) (id : J) (class : string)
    (lim : ClassLimit) (pid stale_after : Z) : option (instant * store) :=
  match attempts with
  | [] => None
  | a :: attempts =>
      match try_admit (before a) id class lim (at_free a) (at_now a) pid stale_after with
      | (Ok (Some t), st) => Some (t, st)
      | _ => wait_for_admission attempts id class lim pid stale_after
      end
  end.

(** [None] when the attempts run out.  The work is [Err] when it panics, and
    then [expect] panics too: the outcome is [None] there, the store is as
    [finish_job] left it.  [meanwhile] is the store when the work returns. *)
Definition admit_and_run {T} (attempts : list attempt) (job : HeavyWorkJob) (lim : ClassLimit)
    (pid stale_after : Z) (work : result T unit) (to_result : option (T -> HeavyWorkJobResult))
    (meanwhile : store -> store) (fin : instant)
  : option (option (HeavyWorkOutcome T) * store) :=
  match wait_for_admission attempts (job_id job) (job_class job) lim pid stale_after with
  | None => None
  | Some (t, st) =>
      let waited := Z.max 0 (Z.quot (t - enqueued_at job) 1000000) in
      let res := match work, to_result with
                 | Ok out, Some extract => Some (extract out)
                 | _, _ => None end in
      let st := finish_job (meanwhile st) (job_id job)
                  (match work with Ok _ => JobDone | Err _ => Abandoned end) res fin in
      Some (match work with
            | Ok out => Some (mkHeavyWorkOutcome _ Enabled (Some (job_id job)) (job_class job)
                                waited false out)
            | Err _ => None
            end, st)
  end.

Definition run_to_completion_with_id {T} (cfg : HeavyWorkConfig) (st : store) (id : J)
    (spec : HeavyWorkSpec) (now : instant) (attempts : list attempt) (pid : Z)
    (work : result T unit) (to_result : option (T -> HeavyWorkJobResult))
    (meanwhile : store -> store) (fin : instant) : option (option (HeavyWorkOutcome T) * store) :=
  let inline m st :=
    Some (match work with Ok out => Some (run_inline m spec out) | Err _ => None end, st) in
  if negb (enabled cfg) then inline Disabled st
  else match config_class cfg (spec_class spec) with
  | None => inline Enabled st
  | Some lim =>
      match enqueue_with_id st id spec now with
      | (Err _, st) => inline Enabled st
      | (Ok job, st) =>
          admit_and_run attempts job lim pid (stale_after_secs cfg) work to_result meanwhile fin
      end
  end.
End Queue.

Arguments HeavyWorkOutcome {J} T.

(** ** Counting the running jobs of a class *)

Section Counting.
Context {X : Extern} {J : Type} `{Countable J}.
Local Abbreviation Job := (@HeavyWorkJob X J).
Implicit Types (st : gmap J Job).

Definition is_running (class : string) (j : Job) : bool :=
  String.eqb (job_class j) class && bool_decide (state j = JobRunning).

Definition running (class : string) st : nat :=
  length (filter (fun kv => is_running class kv.2 = true) (map_to_list st)).

Definition store_wf st : Prop := forall id j, st !! id = Some j -> job_id j = id.

Lemma running_fresh c st id j :
  st !! id = None -> running c (<[id := j]> st) = (Nat.b2n (is_running c j) + running c st)%nat.
Proof.
  intros Hn. unfold running. rewrite map_to_list_insert by done. rewrite filter_cons. simpl.
  by destruct (is_running c j).
Qed.

Lemma running_delete c st id j :
  st !! id = Some j -> running c st = (Nat.b2n (is_running c j) + running c (delete id st))%nat.
Proof.
  intros Hs. rewrite <- (insert_delete_id st id j) at 1 by done.
  apply running_fresh, lookup_delete_eq.
Qed.

Lemma running_update c st id j j' :
  st !! id = Some j ->
  (running c (<[id := j']> st) + Nat.b2n (is_running c j)
   = running c st + Nat.b2n (is_running c j'))%nat.
Proof.
  intros Hs. rewrite (running_delete c (<[id := j']> st) id j') by apply lookup_insert_eq.
  rewrite (running_delete c st id j), delete_insert_eq by done. lia.
Qed.

Lemma running_insert_not c st id j' :
  is_running c j' = false -> (running c (<[id := j']> st) <= running c st)%nat.
Proof.
  intros Hr. destruct (st !! id) as [j|] eqn:E.
  - pose proof (running_update c st id j j' E). rewrite Hr in *. simpl in *. lia.
  - rewrite running_fresh, Hr by done. done.
Qed.

Lemma store_wf_insert st j : store_wf st -> store_wf (<[job_id j := j]> st).
Proof.
  intros Hwf id j'. rewrite lookup_insert. case_decide; [by intros; simplify_eq|]. apply Hwf.
Qed.

Definition pick st (p : Job -> bool) (id : J) : option Job :=
  j ← st !! id; if p j then Some j else None.

Lemma omap_pick_cons st p id ids :
  omap (pick st p) (id :: ids) =
    match st !! id with Some j => if p j then [j] else [] | None => [] end ++ omap (pick st p) ids.
Proof.
  change (omap (pick st p) (id :: ids)) with
    (match pick st p id with Some y => y :: omap (pick st p) ids | None => omap (pick st p) ids end).
  unfold pick at 1. destruct (st !! id) as [j|]; simpl; [|done]. by destruct (p j).
Qed.

Lemma running_pick c st ids :
  ids ≡ₚ (map_to_list st).*1 -> running c st = length (omap (pick st (is_running c)) ids).
Proof.
  intros Hp. rewrite (omap_Permutation _ _ _ Hp). unfold running.
  assert (Hall : Forall (fun kv => st !! kv.1 = Some kv.2) (map_to_list st)).
  { apply Forall_forall. intros [k j] Hk. by apply elem_of_map_to_list. }
  clear Hp. induction Hall as [|[k j] l Hk _ IH]; [done|]. simpl in *.
  rewrite filter_cons. unfold pick at 1. rewrite Hk. simpl.
  destruct (is_running c j); simpl; by rewrite IH.
Qed.
End Counting.

Section Admission.
Context {X : Extern} {J : Type} `{Countable J} (cmp_id : J -> J -> comparison).
Context {Hcmp : TotalCmp cmp_id} (kill_0 : Z -> bool).
Local Abbreviation Job := (@HeavyWorkJob X J).
Context (accepts : gmap J Job -> Job -> bool).
Context (read_dir : gmap J Job -> list J)
  (read_dir_perm : forall st, read_dir st ≡ₚ (map_to_list st).*1).
Implicit Types (st : gmap J Job).

Definition in_class (class : string) (j : Job) : bool := String.eqb (job_class j) class.
Definition stale (class : string) (stale_after : Z) (now : instant) (j : Job) : bool :=
  is_running class j && is_reclaimable kill_0 (holder_pid j) (heartbeat_at j) stale_after now.
Definition live (class : string) (stale_after : Z) (now : instant) (j : Job) : bool :=
  is_running class j && negb (is_reclaimable kill_0 (holder_pid j) (heartbeat_at j) stale_after now).
Definition waiting (class : string) (j : Job) : bool :=
  in_class class j && bool_decide (state j = Queued).

(** What reclaim does to the store: the stale jobs of the class, only. *)
Definition reclaimed (class : string) (stale_after : Z) (now : instant) st (id : J) : option Job :=
  (fun j => if stale class stale_after now j then abandon now j else j) <$> st !! id.

Lemma is_running_abandon c now (j : Job) : is_running c (abandon now j) = false.
Proof. unfold is_running. simpl. by rewrite andb_false_r. Qed.

Lemma scan_shrinks class sa now ids st q l r st' :
  scan kill_0 accepts class sa now ids st q l = (r, st') -> store_wf st ->
  store_wf st' /\ (forall c, running c st' <= running c st)%nat.
Proof.
  revert st q l. induction ids as [|id ids IH]; intros st q l; simpl; [by intros [= <- <-]|].
  intros E Hwf. destruct (st !! id) as [j|] eqn:Ej; [|by apply (IH _ _ _ E)].
  destruct (String.eqb (job_class j) class); simpl in E; [|by apply (IH _ _ _ E)].
  destruct (state j); try (by apply (IH _ _ _ E)).
  destruct (is_reclaimable _ _ _ _ _); [|by apply (IH _ _ _ E)].
  unfold write_job in E. destruct (accepts st (abandon now j)); [|by simplify_eq].
  destruct (IH _ _ _ E) as [Hwf' Hle]; [by apply (store_wf_insert st (abandon now j))|].
  split; [done|]. intros c. specialize (Hle c).
  pose proof (running_insert_not c st (job_id j) (abandon now j) (is_running_abandon c now j)).
  simpl in *. lia.
Qed.

Lemma scan_ok class sa now ids st q l q' l' st' :
  scan kill_0 accepts class sa now ids st q l = (Ok (q', l'), st') -> store_wf st -> NoDup ids ->
  (forall id, st' !! id = if decide (id ∈ ids) then reclaimed class sa now st id else st !! id) /\
  q' = q ++ omap (pick st (waiting class)) ids /\
  l' = (l + Z.of_nat (length (omap (pick st (live class sa now)) ids)))%Z.
Proof.
  revert st q l. induction ids as [|id ids IH]; intros st q l; cbn [scan].
  { intros [= <- <- <-] _ _. simpl. rewrite app_nil_r. split_and!; [done..|lia]. }
  intros E Hwf [Hni Hnd]%NoDup_cons.
  assert (Hskip : (* the entry is left alone and not stale *)
    (forall j, st !! id = Some j -> stale class sa now j = false) ->
    forall q1 l1, scan kill_0 accepts class sa now ids st q1 l1 = (Ok (q', l'), st') ->
    (forall i, st' !! i = if decide (i ∈ id :: ids) then reclaimed class sa now st i else st !! i) /\
    q' = q1 ++ omap (pick st (waiting class)) ids /\
    l' = (l1 + Z.of_nat (length (omap (pick st (live class sa now)) ids)))%Z).
  { intros Hns q1 l1 E1. destruct (IH _ _ _ E1 Hwf Hnd) as (Hl & -> & ->).
    split_and!; [|done..]. intros i. rewrite Hl. destruct (decide (i = id)) as [->|Hne].
    - rewrite decide_False, decide_True by (done || left). unfold reclaimed.
      destruct (st !! id) as [j|]; simpl; [|done]. by rewrite (Hns j).
    - destruct (decide (i ∈ ids)); [rewrite decide_True by (by right)|
        rewrite decide_False by (rewrite elem_of_cons; naive_solver)]; done. }
  rewrite !omap_pick_cons. destruct (st !! id) as [j|] eqn:Ej; simpl; [|by apply Hskip].
  unfold waiting at 1, in_class, live at 1, is_running.
  destruct (String.eqb (job_class j) class) eqn:Ec; simpl in E |- *.
  2: { apply Hskip; [|done]. intros ? [= <-]. unfold stale, is_running. by rewrite Ec. }
  assert (Hst : state j <> JobRunning -> forall j', Some j = Some j' -> stale class sa now j' = false).
  { intros Hn j' [= <-]. unfold stale, is_running. rewrite Ec. by rewrite bool_decide_false. }
  destruct (state j) eqn:Es; simpl.
  1: { destruct Hskip with (q1 := q ++ [j]) (l1 := l) as (? & -> & ->); [by apply Hst|done|].
       split_and!; [done|by rewrite <- app_assoc|done]. }
  2,3,4: by apply Hskip; [apply Hst|].
  destruct (is_reclaimable _ _ _ _ _) eqn:Er; simpl in E |- *.
  - unfold write_job in E. destruct (accepts st (abandon now j)); [|done].
    change (job_id (abandon now j)) with (job_id j) in E. rewrite (Hwf id j Ej) in E.
    assert (Hwf1 : store_wf (<[id := abandon now j]> st)).
    { rewrite <- (Hwf id j Ej) at 1. by apply (store_wf_insert st (abandon now j)). }
    destruct (IH _ _ _ E Hwf1 Hnd) as (Hl & -> & ->).
    assert (Hpick : forall p, omap (pick (<[id := abandon now j]> st) p) ids = omap (pick st p) ids).
    { intros p. clear -Hni. induction ids as [|i ids IHi]; [done|]. rewrite !omap_pick_cons.
      apply not_elem_of_cons in Hni as [Hne Hni].
      rewrite lookup_insert_ne by done. by rewrite IHi. }
    rewrite !Hpick. split_and!; [|done..]. intros i. rewrite Hl. unfold reclaimed.
    destruct (decide (i = id)) as [->|Hne].
    + rewrite decide_False, decide_True by (done || left). rewrite lookup_insert_eq, Ej. simpl.
      unfold stale, is_running. by rewrite Ec, Es, Er.
    + rewrite lookup_insert_ne by done. destruct (decide (i ∈ ids));
        [rewrite decide_True by (by right)|
         rewrite decide_False by (rewrite elem_of_cons; naive_solver)]; done.
  - destruct Hskip with (q1 := q) (l1 := (l + 1)%Z) as (? & -> & ->); [|done|].
    + intros ? [= <-]. unfold stale, is_running. by rewrite Ec, Es, Er.
    + split_and!; [done..|]. simpl. lia.
Qed.
End Admission.

#[export] Instance fifo_total {X : Extern} {J : Type} (cmp_id : J -> J -> comparison)
  `{!TotalCmp cmp_id} : TotalCmp (@fifo_cmp X J cmp_id).
Proof.
  constructor; unfold fifo_cmp.
  - intros x y. rewrite (Z.compare_antisym (enqueued_at x) (enqueued_at y)).
    destruct (Z.compare (enqueued_at x) (enqueued_at y)); simpl; [apply (cmp_flip cmp_id)|done..].
  - intros x y z.
    destruct (Z.compare_spec (enqueued_at x) (enqueued_at y)) as [E1|E1|E1];
    destruct (Z.compare_spec (enqueued_at y) (enqueued_at z)) as [E2|E2|E2];
    destruct (Z.compare_spec (enqueued_at x) (enqueued_at z)) as [E3|E3|E3];
      try lia; try (intros; congruence); apply (cmp_trans cmp_id).
Qed.

Section AdmissionFacts.
Context {X : Extern} {J : Type} `{Countable J} (cmp_id : J -> J -> comparison).
Context {Hcmp : TotalCmp cmp_id} (kill_0 : Z -> bool).
Local Abbreviation Job := (@HeavyWorkJob X J).
Context (accepts : gmap J Job -> Job -> bool).
Context (read_dir : gmap J Job -> list J)
  (read_dir_perm : forall st, read_dir st ≡ₚ (map_to_list st).*1).
Implicit Types (st : gmap J Job).

Local Abbreviation scan_all class sa now st :=
  (scan kill_0 accepts class sa now (read_dir st) st [] 0).
Local Abbreviation attempt_admission := (try_admit cmp_id kill_0 accepts read_dir).

Definition live_count (class : string) (sa : Z) (now : instant) st : Z :=
  Z.of_nat (length (omap (pick st (live kill_0 class sa now)) (map_to_list st).*1)).

Lemma read_dir_elem st id : id ∈ read_dir st <-> is_Some (st !! id).
Proof.
  rewrite read_dir_perm, list_elem_of_fmap. split.
  - intros ([k j] & -> & Hk%elem_of_map_to_list). eauto.
  - intros [j Hj%elem_of_map_to_list]. by exists (id, j).
Qed.

Lemma read_dir_NoDup st : NoDup (read_dir st).
Proof. rewrite read_dir_perm. apply NoDup_fst_map_to_list. Qed.

Lemma length_omap_ext {A B C} (f : A -> option B) (g : A -> option C) l :
  (forall a, is_Some (f a) <-> is_Some (g a)) -> length (omap f l) = length (omap g l).
Proof.
  intros Hfg. induction l as [|a l IH]; [done|]. simpl. specialize (Hfg a).
  destruct (f a), (g a); simpl; try (by f_equal); unfold is_Some in *; naive_solver.
Qed.

(** What a completed scan leaves: only the stale jobs changed, and the class
    has as many running jobs as were found alive. *)
Lemma scan_all_ok class sa now st q l st' :
  scan_all class sa now st = (Ok (q, l), st') -> store_wf st ->
  (forall id, st' !! id = reclaimed kill_0 class sa now st id) /\
  (forall j, j ∈ q <-> st !! job_id j = Some j /\ waiting class j = true) /\
  l = live_count class sa now st /\ Z.of_nat (running class st') = l.
Proof.
  intros E Hwf. destruct (scan_ok _ _ _ _ _ _ _ _ _ _ _ _ E Hwf (read_dir_NoDup st))
    as (Hl & -> & ->).
  assert (Hlk : forall id, st' !! id = reclaimed kill_0 class sa now st id).
  { intros id. rewrite Hl. case_decide as Hin; [done|]. rewrite read_dir_elem in Hin.
    unfold reclaimed. destruct (st !! id); [by destruct Hin|done]. }
  assert (Hperm : read_dir st ≡ₚ (map_to_list st').*1).
  { apply NoDup_Permutation; [apply read_dir_NoDup|apply NoDup_fst_map_to_list|].
    intros id. rewrite <- read_dir_perm, !read_dir_elem, Hlk. unfold reclaimed.
    by rewrite fmap_is_Some. }
  split_and!; [done| | |].
  - intros j. simpl. rewrite list_elem_of_omap. unfold pick. split.
    + intros (id & _ & Hp). destruct (st !! id) as [j'|] eqn:Ej; simpl in Hp; [|done].
      destruct (waiting class j') eqn:Ew; simplify_eq. by rewrite (Hwf id j Ej).
    + intros [Hj Hw]. exists (job_id j). rewrite read_dir_elem, Hj. simpl. rewrite Hw. eauto.
  - simpl. unfold live_count. by rewrite (omap_Permutation _ _ _ (read_dir_perm st)).
  - rewrite (running_pick _ _ _ Hperm), Z.add_0_l. f_equal. apply length_omap_ext. intros id.
    unfold pick. rewrite Hlk. unfold reclaimed, stale, live.
    destruct (st !! id) as [j|]; simpl; [|done]. destruct (is_running class j) eqn:Er; simpl.
    + destruct (is_reclaimable _ _ _ _ _); simpl; [by rewrite is_running_abandon|by rewrite Er].
    + by rewrite Er.
Qed.

Lemma waiting_not_stale class sa now (j : Job) : waiting class j = true -> stale kill_0 class sa now j = false.
Proof.
  unfold waiting, stale, is_running. intros [_ Hw%bool_decide_eq_true]%andb_true_iff.
  rewrite Hw. by rewrite andb_false_r.
Qed.

Lemma queue_head (q : list Job) id :
  job_id <$> head (sort_by (fifo_cmp cmp_id) q) = Some id ->
  exists j, j ∈ q /\ job_id j = id /\ forall j', j' ∈ q -> cmp_le (fifo_cmp cmp_id) j j'.
Proof.
  destruct (sort_by (fifo_cmp cmp_id) q) as [|j js] eqn:E; simpl; [done|]. intros [= <-].
  destruct (sort_by_head _ _ _ _ E) as [Hin Hmin]. eauto.
Qed.

Lemma running_admitted class st now pid (j : Job) :
  st !! job_id j = Some j -> waiting class j = true ->
  running class (<[job_id j := admitted now pid j]> st) = S (running class st).
Proof.
  intros Hj Hw. pose proof (running_update class st (job_id j) j (admitted now pid j) Hj) as Hu.
  unfold waiting, in_class in Hw. apply andb_true_iff in Hw as [Hc Hq%bool_decide_eq_true].
  unfold is_running in Hu. simpl in Hu. rewrite Hc, Hq in Hu. simpl in Hu. lia.
Qed.

(** What one admission attempt does, in every outcome. *)
Definition admit_outcome (class : string) (lim : ClassLimit) (free : Z) (now : instant) (pid sa : Z)
    (id : J) st (r : result (option instant) HeavyWorkStoreError) st' : Prop :=
  match r with
  | Ok (Some t) => t = now /\ exists job,
      st !! id = Some job /\ waiting class job = true /\
      (forall job', st !! job_id job' = Some job' -> waiting class job' = true ->
         cmp_le (fifo_cmp cmp_id) job job') /\
      (live_count class sa now st < limit lim)%Z /\ (min_free_mb lim <= free)%Z /\
      st' !! id = Some (admitted now pid job) /\
      (forall i, i <> id -> st' !! i = reclaimed kill_0 class sa now st i) /\
      Z.of_nat (running class st') = (live_count class sa now st + 1)%Z
  | Ok None => (forall i, st' !! i = reclaimed kill_0 class sa now st i) /\
      (Z.of_nat (running class st') = live_count class sa now st)
  | Err _ => True
  end /\ store_wf st' /\
  (forall c, c <> class \/ r <> Ok (Some now) -> (running c st' <= running c st)%nat).

Lemma try_admit_outcome st id class lim free now pid sa r st' :
  store_wf st -> attempt_admission st id class lim free now pid sa = (r, st') ->
  admit_outcome class lim free now pid sa id st r st'.
Proof.
  intros Hwf E. unfold try_admit in E.
  destruct (scan_all class sa now st) as [rs st1] eqn:Es.
  destruct (scan_shrinks _ _ _ _ _ _ _ _ _ _ _ Es Hwf) as [Hwf1 Hle].
  destruct rs as [[q l]|e]; [|simplify_eq; by split_and!].
  destruct (scan_all_ok _ _ _ _ _ _ _ Es Hwf) as (Hlk & Hq & -> & Hrun).
  case_bool_decide as Hhead; simpl in E; [|simplify_eq; split_and!; auto].
  destruct (Z.leb_spec (limit lim) (live_count class sa now st)) as [Hl|Hl]; simpl in E;
    [simplify_eq; split_and!; auto|].
  destruct (Z.ltb_spec free (min_free_mb lim)) as [Hm|Hm]; [simplify_eq; split_and!; auto|].
  destruct (queue_head q id Hhead) as (j & Hj & <- & Hmin).
  apply Hq in Hj as [Hj Hw].
  assert (Hj1 : st1 !! job_id j = Some j).
  { rewrite Hlk. unfold reclaimed. rewrite Hj. simpl. by rewrite waiting_not_stale. }
  rewrite Hj1 in E. unfold write_job in E.
  destruct (accepts st1 (admitted now pid j)); [|simplify_eq; by split_and!].
  change (job_id (admitted now pid j)) with (job_id j) in E. simplify_eq.
  pose proof (running_admitted class st1 now pid j Hj1 Hw) as Hr.
  split; [|split].
  - split; [done|]. exists j. split_and!; try done.
    + intros j' Hj' Hw'. apply Hmin, Hq. done.
    + apply lookup_insert_eq.
    + intros i Hi. by rewrite lookup_insert_ne.
    + rewrite Hr. lia.
  - by apply (store_wf_insert st1 (admitted now pid j)).
  - intros c [Hc|Hc]; [|done]. etrans; [|apply Hle]. apply running_insert_not.
    unfold is_running. simpl. unfold waiting, in_class in Hw.
    apply andb_true_iff in Hw as [Hcl%String.eqb_eq _]. rewrite Hcl.
    destruct (String.eqb_spec class c); [congruence|done].
Qed.

Lemma scan_total class sa now ids st q l :
  (forall s j, accepts s j = true) ->
  exists q' l' st', scan kill_0 accepts class sa now ids st q l = (Ok (q', l'), st').
Proof.
  intros Hacc. revert st q l. induction ids as [|id ids IH]; intros st q l; simpl; [eauto|].
  destruct (st !! id) as [j|]; [|apply IH]. destruct (String.eqb _ _); simpl; [|apply IH].
  destruct (state j); try apply IH. destruct (is_reclaimable _ _ _ _ _); [|apply IH].
  unfold write_job. rewrite Hacc. apply IH.
Qed.
End AdmissionFacts.

(** ** The store under many writers *)

Section Concurrency.
Context {X : Extern} {J : Type} `{Countable J} (cmp_id : J -> J -> comparison).
Context {Hcmp : TotalCmp cmp_id} (kill_0 : Z -> bool).
Local Abbreviation Job := (@HeavyWorkJob X J).
Context (accepts : gmap J Job -> Job -> bool).
Context (read_dir : gmap J Job -> list J)
  (read_dir_perm : forall st, read_dir st ≡ₚ (map_to_list st).*1).
Context (cfg : HeavyWorkConfig).
Implicit Types (st : gmap J Job).

(** One operation of one of the processes sharing the lock directory, each
    taken as a whole: the queue of any of them enqueues, attempts an
    admission, restamps a heartbeat or finishes a job. *)
Inductive StoreStep : gmap J Job -> gmap J Job -> Prop :=
| StepEnqueue st id spec now :
    StoreStep st (snd (enqueue_with_id accepts st id spec now))
| StepAdmit st id class lim free now pid :
    config_class cfg class = Some lim ->
    StoreStep st (snd (try_admit cmp_id kill_0 accepts read_dir st id class lim free now pid
                         (stale_after_secs cfg)))
| StepBeat st id now : StoreStep st (heartbeat_tick accepts st id now)
| StepFinish st id s res now :
    s = JobDone \/ s = Abandoned -> StoreStep st (finish_job accepts st id s res now).

(** The same with a heartbeat task's read and write apart: [p] holds the
    records heartbeat tasks have read and not yet written back. *)
Inductive SplitStep : gmap J Job * list Job -> gmap J Job * list Job -> Prop :=
| SplitStore st st' p : StoreStep st st' -> SplitStep (st, p) (st', p)
| SplitBeatRead st p id job now :
    st !! id = Some job -> state job = JobRunning -> SplitStep (st, p) (st, beat now job :: p)
| SplitBeatWrite st p1 p2 job :
    SplitStep (st, p1 ++ job :: p2) (snd (write_job accepts st job), p1 ++ p2).

Definition within_limits st : Prop :=
  store_wf st /\
  forall class lim, config_class cfg class = Some lim ->
    (Z.of_nat (running class st) <= Z.max 0 (limit lim))%Z.

Lemma within_limits_write st job :
  within_limits st ->
  (forall class, is_running class job = true ->
     exists j, st !! job_id job = Some j /\ is_running class j = true) ->
  within_limits (snd (write_job accepts st job)).
Proof.
  intros [Hwf Hlim] Hj. unfold write_job. destruct (accepts st job); [|by split]. simpl.
  split; [by apply store_wf_insert|]. intros class lim Hc. specialize (Hlim class lim Hc).
  enough (running class (<[job_id job := job]> st) <= running class st)%nat by lia.
  destruct (is_running class job) eqn:Er; [|by apply running_insert_not].
  destruct (Hj class Er) as (j & Hj1 & Hj2).
  pose proof (running_update class st _ _ job Hj1) as Hu. rewrite Er, Hj2 in Hu. simpl in Hu. lia.
Qed.

Lemma store_step_within st st' : StoreStep st st' -> within_limits st -> within_limits st'.
Proof.
  destruct 1 as [st id spec now|st id class lim free now pid Hc|st id now|st id s res now Hs];
    intros Hi.
  - unfold enqueue_with_id. match goal with |- context [write_job accepts st ?j] =>
      pose proof (within_limits_write st j Hi) as Hw; destruct (write_job accepts st j) as [[] st1] end;
      simpl in *; apply Hw; intros class; unfold is_running; simpl; by rewrite andb_false_r.
  - destruct Hi as [Hwf Hlim].
    destruct (try_admit _ _ _ _ _ _ _ _ _ _ _ _) as [r st1] eqn:E. simpl.
    apply (try_admit_outcome cmp_id kill_0 accepts read_dir read_dir_perm) in E
      as (Hr & Hwf1 & Hle); [|done].
    split; [done|]. intros c l Hl. specialize (Hlim c l Hl).
    destruct (decide (c = class)) as [->|Hne]; [|specialize (Hle c (or_introl Hne)); lia].
    destruct r as [[t|]|e].
    + destruct Hr as (-> & j & _ & _ & _ & Hlt & _ & _ & _ & ->). simplify_eq. lia.
    + specialize (Hle class ltac:(by right)). lia.
    + specialize (Hle class ltac:(by right)). lia.
  - unfold heartbeat_tick. destruct (st !! id) as [j|] eqn:Ej; [|done].
    case_bool_decide as Hr; [|done]. apply within_limits_write; [done|]. intros class Hcl.
    exists j. destruct Hi as [Hwf _]. simpl. rewrite (Hwf id j Ej). done.
  - unfold finish_job. destruct (st !! id) as [j|] eqn:Ej; [|done].
    apply within_limits_write; [done|]. intros class.
    unfold is_running, finished. destruct res; simpl; destruct Hs as [-> | ->]; simpl;
      by rewrite andb_false_r.
Qed.

(** C31: the admission bound.  Whatever enqueues, admission attempts,
    heartbeats and completions the processes sharing a lock directory
    perform, in any order and with any write failing, no class ever has more
    running records than its limit, as long as each operation's read and
    write of a record are not separated by another's. *)
Theorem running_bounded st class lim :
  rtc StoreStep ∅ st -> config_class cfg class = Some lim ->
  (Z.of_nat (running class st) <= Z.max 0 (limit lim))%Z.
Proof.
  intros Hr Hc. assert (Hi : within_limits st); [|by apply Hi].
  revert Hr. apply (rtc_ind_r (fun st => within_limits st)).
  - split; [by intros ? ?; rewrite lookup_empty|]. intros c l Hl.
    unfold running. rewrite map_to_list_empty. simpl. lia.
  - intros s1 s2 _ Hs. by apply store_step_within.
Qed.

(** One attempt.  A job is admitted only if it is still queued, no queued
    job of its class precedes it in (enqueued_at, job_id) order, the live
    running jobs of the class are fewer than the limit, and the probe reads
    enough memory; it is then stamped running under this process.  In every
    completed attempt the only other change to the store is that the class's
    running jobs whose holder is dead or whose heartbeat is stale become
    abandoned: a job with a live holder and a fresh heartbeat keeps its slot
    however long ago it was enqueued or admitted. *)
Theorem try_admit_spec st id class lim free now pid sa :
  store_wf st ->
  match try_admit cmp_id kill_0 accepts read_dir st id class lim free now pid sa with
  | (Ok (Some t), st') => t = now /\ exists job,
      st !! id = Some job /\ waiting class job = true /\
      (forall job', st !! job_id job' = Some job' -> waiting class job' = true ->
         cmp_le (fifo_cmp cmp_id) job job') /\
      (live_count kill_0 class sa now st < limit lim)%Z /\ (min_free_mb lim <= free)%Z /\
      st' !! id = Some (admitted now pid job) /\
      (forall i, i <> id -> st' !! i = reclaimed kill_0 class sa now st i) /\
      (Z.of_nat (running class st') <= limit lim)%Z
  | (Ok None, st') => forall i, st' !! i = reclaimed kill_0 class sa now st i
  | (Err _, st') => forall c, (running c st' <= running c st)%nat
  end.
Proof.
  intros Hwf. destruct (try_admit _ _ _ _ _ _ _ _ _ _ _ _) as [r st'] eqn:E.
  apply (try_admit_outcome cmp_id kill_0 accepts read_dir read_dir_perm) in E
    as (Hr & Hwf1 & Hle); [|done].
  destruct r as [[t|]|e].
  - destruct Hr as (-> & j & ? & ? & ? & ? & ? & ? & ? & Hrun). split; [done|]. exists j.
    split_and!; try done. lia.
  - by destruct Hr.
  - intros c. apply Hle. by right.
Qed.

(** C32: no starvation at the head.  When the store takes writes, the earliest
    queued job of a class with a free slot and enough memory is admitted by
    its next attempt. *)
Theorem head_is_admitted st id job class lim free now pid sa :
  (forall s j, accepts s j = true) -> store_wf st ->
  (forall a b, cmp_id a b = Eq -> a = b) ->
  st !! id = Some job -> waiting class job = true ->
  (forall job', st !! job_id job' = Some job' -> waiting class job' = true ->
     cmp_le (fifo_cmp cmp_id) job job') ->
  (live_count kill_0 class sa now st < limit lim)%Z -> (min_free_mb lim <= free)%Z ->
  exists st', try_admit cmp_id kill_0 accepts read_dir st id class lim free now pid sa
    = (Ok (Some now), st').
Proof.
  intros Hacc Hwf Heq Hid Hw Hmin Hl Hm. unfold try_admit.
  destruct (scan_total kill_0 accepts class sa now (read_dir st) st [] 0 Hacc)
    as (q & l & st1 & Es). rewrite Es.
  destruct (scan_all_ok _ _ _ read_dir_perm _ _ _ _ _ _ _ Es Hwf) as (Hlk & Hq & -> & _).
  pose proof (Hwf id job Hid) as Hjid.
  assert (Hjq : job ∈ q) by (apply Hq; by rewrite Hjid).
  assert (Hhead : job_id <$> head (sort_by (fifo_cmp cmp_id) q) = Some id).
  { destruct (sort_by (fifo_cmp cmp_id) q) as [|h hs] eqn:E.
    { apply sort_by_nil in E. subst. by apply not_elem_of_nil in Hjq. }
    destruct (sort_by_head _ _ _ _ E) as [Hin Hle]. simpl. f_equal. rewrite <- Hjid.
    apply Hq in Hin as [Hh Hhw]. specialize (Hle job Hjq). specialize (Hmin h Hh Hhw).
    unfold cmp_le in *. pose proof (cmp_flip (fifo_cmp cmp_id) h job) as Hf.
    destruct (fifo_cmp cmp_id h job) eqn:Ec; [|rewrite Hf in Hmin; by destruct Hmin|done].
    unfold fifo_cmp in Ec. destruct (Z.compare _ _); try done. by apply Heq. }
  rewrite bool_decide_true by done. simpl.
  destruct (Z.leb_spec (limit lim) (live_count kill_0 class sa now st)); [lia|].
  destruct (Z.ltb_spec free (min_free_mb lim)); [lia|]. simpl.
  rewrite Hlk. unfold reclaimed. rewrite Hid. simpl. rewrite waiting_not_stale by done.
  unfold write_job. rewrite Hacc. eauto.
Qed.
End Concurrency.

(** ** A heartbeat that comes back *)


(** A lock directory of numbered jobs on a disk that takes every write, under a
    configuration with one slot for the class [test]. *)
Module QueueModel.
Import JsonModel.

Definition config : HeavyWorkConfig :=
  mkHeavyWorkConfig true 30 300 50 {["test" := mkClassLimit 1 0]}.
Definition alive (_ : Z) : bool := true.
Definition job : Type := @HeavyWorkJob JsonModel.extern Z.
Definition takes_all (_ : gmap Z job) (_ : job) : bool := true.
Definition listing (st : gmap Z job) : list Z := (map_to_list st).*1.
Definition listing_perm (st : gmap Z job) : listing st ≡ₚ (map_to_list st).*1 := reflexivity _.
Definition spec : HeavyWorkSpec := mkHeavyWorkSpec "test" "repo" "/cwd" ["cargo test"] None.
Definition secs (n : Z) : instant := (n * 1000000000)%Z.

Definition enqueue (st : gmap Z job) (id now : Z) : gmap Z job :=
  snd (enqueue_with_id takes_all st id spec (secs now)).
Definition admit_at (st : gmap Z job) (id now pid : Z) : gmap Z job :=
  snd (try_admit Z.compare alive takes_all listing st id "test" (mkClassLimit 1 0) 0 (secs now) pid
         (stale_after_secs config)).

(** Job 1 is admitted; its heartbeat reads the record and is held up for
    longer than the staleness threshold; job 2 is admitted in its place. *)
Definition st1 : gmap Z job := admit_at (enqueue ∅ 1 0) 1 0 11.
Definition st2 : gmap Z job := admit_at (enqueue st1 2 100) 2 400 12.
Definition job1 : job :=
  mkHeavyWorkJob 1%Z "test" JobRunning "repo" "/cwd" ["cargo test"] None (Some 11%Z) (secs 0)
    (Some (secs 0)) (Some (secs 0)) None None None.
Definition st3 : gmap Z job := snd (write_job takes_all st2 (beat (secs 390) job1)).

Lemma st1_job1 : st1 !! 1%Z = Some job1.
Proof. reflexivity. Qed.
Lemma st3_running : running "test" st3 = 2%nat.
Proof. reflexivity. Qed.
Lemma st3_live : live_count alive "test" (stale_after_secs config) (secs 401) st3 = 2%Z.
Proof. reflexivity. Qed.
End QueueModel.

Section Race.
Import JsonModel QueueModel.

Lemma step_enqueue st id now :
  StoreStep Z.compare alive takes_all listing config st (enqueue st id now).
Proof. apply StepEnqueue. Qed.

Lemma step_admit st id now pid :
  StoreStep Z.compare alive takes_all listing config st (admit_at st id now pid).
Proof. by apply StepAdmit. Qed.

(** The bound of [running_bounded] needs the heartbeat to be one step.  A
    heartbeat task reads the record, then writes it back whole; when a reclaim
    and an admission fall in between, the write brings the abandoned job back
    to running, and a class with one slot has two running jobs, both of which
    the next attempt counts as alive. *)
Theorem heartbeat_race_exceeds_limit :
  exists st, rtc (SplitStep Z.compare alive takes_all listing config) (∅, []) (st, []) /\
    config_class config "test" = Some (mkClassLimit 1 0) /\
    running "test" st = 2%nat /\
    live_count alive "test" (stale_after_secs config) (secs 401) st = 2%Z.
Proof.
  exists st3. split; [|split; [done|split; [apply st3_running|apply st3_live]]].
  eapply rtc_l; [apply SplitStore, (step_enqueue ∅ 1 0)|].
  eapply rtc_l; [apply SplitStore, (step_admit _ 1 0 11)|].
  eapply rtc_l; [apply (SplitBeatRead _ _ _ _ _ _ _ 1%Z job1 (secs 390) st1_job1 eq_refl)|].
  eapply rtc_l; [apply SplitStore, (step_enqueue st1 2 100)|].
  eapply rtc_l; [apply SplitStore, (step_admit _ 2 400 12)|].
  eapply rtc_l; [apply (SplitBeatWrite _ _ _ _ _ _ [] [] (beat (secs 390) job1))|]. apply rtc_refl.
Qed.
End Race.

(** ** Configuration and submission *)

Section Submission.
Context {HO : HashOrder}.

Lemma check_classes_spec l acc :
  (exists m, check_classes l acc = Ok m /\ (forall n c, (n, c) ∈ l -> (1 <= limit c)%Z) /\
     forall n c, m !! n = Some c -> (n, c) ∈ l \/ acc !! n = Some c) \/
  (exists n c, check_classes l acc =
     Err (InvalidClassLimit ("heavy_work.classes." +:+ n +:+ ".limit") (limit c)) /\
     (n, c) ∈ l /\ (limit c < 1)%Z).
Proof.
  revert acc. induction l as [|[n c] l IH]; intros acc; simpl.
  { left. exists acc. split_and!; [done|set_solver|auto]. }
  destruct (Z.ltb_spec (limit c) 1) as [Hlt|Hge].
  { right. exists n, c. split_and!; [done|left|done]. }
  destruct (IH (<[n := c]> acc)) as [(m & -> & Hall & Hm)|(n' & c' & -> & Hin & Hlt)].
  - left. exists m. split_and!; [done| |].
    + intros n' c' [[= -> ->]|Hin]%elem_of_cons; [done|by eapply Hall].
    + intros n' c' [Hin|Hacc]%Hm; [by left; right|]. rewrite lookup_insert in Hacc.
      case_decide; simplify_eq; [by left; left|by right].
  - right. exists n', c'. split_and!; [done|by right|done].
Qed.

(** An absent table is the disabled queue; a present one is accepted
    exactly when every class has a limit of at least one, and the error names
    the dotted key and value of a class that has not. *)
Theorem config_parse_spec t :
  match config_parse t with
  | Ok c => match t with
            | None => c = config_disabled
            | Some raw => enabled c = true /\
                (forall n l, raw_classes raw !! n = Some l -> (1 <= limit l)%Z) /\
                forall n l, config_class c n = Some l -> raw_classes raw !! n = Some l
            end
  | Err (InvalidClassLimit key v) => exists raw n l, t = Some raw /\
      raw_classes raw !! n = Some l /\ v = limit l /\ (v < 1)%Z /\
      key = "heavy_work.classes." +:+ n +:+ ".limit"
  end.
Proof.
  destruct t as [raw|]; [|done]. unfold config_parse.
  destruct (check_classes_spec (hm_iter (raw_classes raw)) ∅)
    as [(m & -> & Hall & Hm)|(n & c & -> & Hin & Hlt)].
  - split_and!; [done| |].
    + intros n l Hl. by apply (Hall n l), hm_iter_elem.
    + intros n l [Hin|Hn]%Hm; [by apply hm_iter_elem|]. by rewrite lookup_empty in Hn.
  - exists raw, n, c. apply hm_iter_elem in Hin. done.
Qed.

Context {X : Extern} {J : Type} `{Countable J} (cmp_id : J -> J -> comparison)
  (kill_0 : Z -> bool).
Local Abbreviation Job := (@HeavyWorkJob X J).
Context (accepts : gmap J Job -> Job -> bool) (read_dir : gmap J Job -> list J).

(** What a submission reports.  Without a table the work runs inline, the
    store is not touched and the outcome says [Disabled], no job id, and
    [degraded = false]; an unconfigured class or an unwritable store runs
    inline too but is degraded.  A job that went through the queue reports
    its own id, not degraded, after some attempt admitted it, and its record
    is then done with the verdict the caller's extractor gave, holder and
    last heartbeat still on it. *)
Theorem submission_spec {T} cfg st id spec now attempts pid (out : T) to_result fin :
  let run := run_to_completion_with_id cmp_id kill_0 accepts read_dir cfg st id spec now attempts
               pid (Ok out) to_result (fun st => st) fin in
  (enabled cfg = false ->
     run = Some (Some (mkHeavyWorkOutcome _ Disabled None (spec_class spec) 0 false out), st)) /\
  (enabled cfg = true -> config_class cfg (spec_class spec) = None ->
     run = Some (Some (mkHeavyWorkOutcome _ Enabled None (spec_class spec) 0 true out), st)) /\
  (forall lim o st', enabled cfg = true -> config_class cfg (spec_class spec) = Some lim ->
     run = Some (Some o, st') ->
     degraded o = bool_decide (o_job_id o = None) /\ mode o = Enabled /\ output o = out /\
     (o_job_id o = None -> st' = st) /\
     (forall i, o_job_id o = Some i -> i = id /\ exists t st1,
        wait_for_admission cmp_id kill_0 accepts read_dir attempts id (spec_class spec) lim pid
          (stale_after_secs cfg) = Some (t, st1) /\
        st' = finish_job accepts st1 id JobDone (match to_result with
                | Some f => Some (f out) | None => None end) fin)).
Proof.
  intros run. subst run. unfold run_to_completion_with_id. split_and!.
  - intros ->. done.
  - intros -> ->. done.
  - intros lim o st' -> ->. simpl. unfold enqueue_with_id, write_job.
    destruct (accepts st _); simpl.
    + unfold admit_and_run. simpl.
      destruct (wait_for_admission _ _ _ _ _ _ _ _ _ _) as [[t st1]|] eqn:Ew; [|done].
      intros [= <- <-]. simpl. split_and!; [done..|]. intros i [= <-]. split; [done|].
      exists t, st1. done.
    + intros [= <- <-]. simpl. by split_and!.
Qed.
End Submission.

(** ** Witnesses *)

Import JsonModel QueueModel.

Lemma running_bounded_witness : (Z.of_nat (running "test" st2) <= 1)%Z.
Proof.
  apply (running_bounded Z.compare alive takes_all listing listing_perm config st2 "test"
           (mkClassLimit 1 0)); [|reflexivity].
  eapply rtc_l; [apply (step_enqueue ∅ 1 0)|].
  eapply rtc_l; [apply (step_admit _ 1 0 11)|].
  eapply rtc_l; [apply (step_enqueue st1 2 100)|].
  eapply rtc_l; [apply (step_admit _ 2 400 12)|]. apply rtc_refl.
Defined.

Lemma store_wf_one : store_wf (QueueModel.enqueue ∅ 1 0).
Proof.
  intros id j. unfold QueueModel.enqueue, enqueue_with_id, write_job. simpl.
  rewrite lookup_insert. case_decide; [by intros [= <-]|done].
Qed.

Lemma try_admit_spec_witness :
  match try_admit Z.compare alive takes_all listing (QueueModel.enqueue ∅ 1 0) 1%Z "test"
          (mkClassLimit 1 0) 0 (secs 5) 11 300 with
  | (Ok (Some t), st') => t = secs 5 /\ (Z.of_nat (running "test" st') <= 1)%Z
  | _ => False
  end.
Proof.
  pose proof (try_admit_spec Z.compare alive takes_all listing listing_perm
    (QueueModel.enqueue ∅ 1 0) 1%Z "test" (mkClassLimit 1 0) 0 (secs 5) 11 300 store_wf_one) as H.
  assert (E : exists st', try_admit Z.compare alive takes_all listing (QueueModel.enqueue ∅ 1 0) 1%Z
    "test" (mkClassLimit 1 0) 0 (secs 5) 11 300 = (Ok (Some (secs 5)), st')) by (eexists; reflexivity).
  destruct E as [st' E]. rewrite E in *. destruct H as (Ht & job & _ & _ & _ & _ & _ & _ & _ & Hr).
  split; [exact Ht|exact Hr].
Defined.

Lemma head_is_admitted_witness :
  exists st', try_admit Z.compare alive takes_all listing (QueueModel.enqueue ∅ 1 0) 1%Z "test"
    (mkClassLimit 1 0) 0 (secs 5) 11 300 = (Ok (Some (secs 5)), st').
Proof.
  apply (head_is_admitted Z.compare alive takes_all listing listing_perm (QueueModel.enqueue ∅ 1 0) 1%Z
    (mkHeavyWorkJob 1%Z "test" Queued "repo" "/cwd" ["cargo test"] None None (secs 0)
      None None None None None)).
  - reflexivity.
  - apply store_wf_one.
  - intros a b H. by apply Z.compare_eq_iff.
  - reflexivity.
  - reflexivity.
  - intros j Hj _. unfold QueueModel.enqueue, enqueue_with_id, write_job in Hj. simpl in Hj.
    rewrite lookup_insert in Hj. case_decide; [|done]. injection Hj as <-. apply cmp_le_refl.
    apply _.
  - reflexivity.
  - reflexivity.
Defined.
