(* ===== verification/Policy.v ===== *)
(** * Run-policy resolution

    - [Policy], [resolve], [merge_opt]: crates/engine-core/src/policy/resolve.rs
    - [PolicyConfigSource] and the harness.json readers:
      crates/engine-core/src/policy/profiles.rs
    - the two operator-facing policies:
      crates/engine-core/src/operator/queue/policy.rs and
      crates/engine-core/src/operator/failure.rs

    The file system and [serde_json::from_str] are the parameters [exists_] and
    [read_harness]; a policy type's derived [Deserialize] is the parameter
    [dec].  Errors are the kinds of the code's messages, third-party text
    included as a string. *)

From S2P Require Import Prelude Json Contract Invocations.

Local Open Scope string_scope.
Local Open Scope list_scope.
Local Open Scope engine_scope.

(** ** The four layers *)

Definition merge_opt {T} (lower : T) (higher : option T) : T := default lower higher.

(** The trait, with the law its documentation states: a layer that sets
    nothing changes nothing. *)
Class Policy (P : Type) : Type := {
  Partial : Type;
  apply : P -> Partial -> P;
  no_override : Partial;
  apply_no_override : forall p, apply p no_override = p
}.

Definition resolve {P} `{Policy P} (builtin : P)
    (harness_defaults profile event_override : option Partial) : P :=
  let resolved := builtin in
  let resolved := match harness_defaults with Some h => apply resolved h | None => resolved end in
  let resolved := match profile with Some p => apply resolved p | None => resolved end in
  match event_override with Some e => apply resolved e | None => resolved end.

Record OperatorQueuePolicy := mkOperatorQueuePolicy {
  operator_queue_depth : Z;
  answer_timeout_secs : Z;
  suppression_window_secs : Z;
  digest_schedule_secs : Z
}.

Definition OperatorQueuePolicy_default : OperatorQueuePolicy := mkOperatorQueuePolicy 1 900 60 3600.

Record PartialOperatorQueuePolicy := mkPartialOperatorQueuePolicy {
  p_operator_queue_depth : option Z;
  p_answer_timeout_secs : option Z;
  p_suppression_window_secs : option Z;
  p_digest_schedule_secs : option Z
}.

Definition queue_policy_apply (self : OperatorQueuePolicy) (over : PartialOperatorQueuePolicy)
  : OperatorQueuePolicy :=
  mkOperatorQueuePolicy
    (merge_opt (operator_queue_depth self) (p_operator_queue_depth over))
    (merge_opt (answer_timeout_secs self) (p_answer_timeout_secs over))
    (merge_opt (suppression_window_secs self) (p_suppression_window_secs over))
    (merge_opt (digest_schedule_secs self) (p_digest_schedule_secs over)).

#[export] Instance queue_policy : Policy OperatorQueuePolicy.
Proof.
  refine {| apply := queue_policy_apply;
            no_override := mkPartialOperatorQueuePolicy None None None None |}.
  by intros [].
Defined.

Definition queue_baseline := mkPartialOperatorQueuePolicy (Some 1%Z) (Some 900%Z) (Some 60%Z) (Some 3600%Z).
Definition queue_cheap_fast := mkPartialOperatorQueuePolicy (Some 1%Z) (Some 300%Z) (Some 120%Z) (Some 7200%Z).
Definition queue_thorough := mkPartialOperatorQueuePolicy (Some 1%Z) (Some 1800%Z) (Some 30%Z) (Some 1800%Z).

Definition queue_profile_by_name (name : string) : option PartialOperatorQueuePolicy :=
  if String.eqb name "baseline" then Some queue_baseline
  else if String.eqb name "cheap-fast" then Some queue_cheap_fast
  else if String.eqb name "thorough" then Some queue_thorough
  else None.

Record NotifyOnStatuses := mkNotifyOnStatuses {
  n_failed : bool; n_budget_halted : bool; n_cancelled : bool; n_succeeded : bool
}.

Definition NotifyOnStatuses_default : NotifyOnStatuses := mkNotifyOnStatuses true true false false.

Record PartialNotifyOnStatuses := mkPartialNotifyOnStatuses {
  p_failed : option bool; p_budget_halted : option bool;
  p_cancelled : option bool; p_succeeded : option bool
}.

Definition merge_notify_on_statuses (base : NotifyOnStatuses) (over : PartialNotifyOnStatuses)
  : NotifyOnStatuses :=
  mkNotifyOnStatuses
    (default (n_failed base) (p_failed over))
    (default (n_budget_halted base) (p_budget_halted over))
    (default (n_cancelled base) (p_cancelled over))
    (default (n_succeeded base) (p_succeeded over)).

Record FailureNotifyPolicy := mkFailureNotifyPolicy {
  notify_on_statuses : NotifyOnStatuses;
  failure_item_priority : Z
}.

Definition FailureNotifyPolicy_default : FailureNotifyPolicy :=
  mkFailureNotifyPolicy NotifyOnStatuses_default 0.

Record PartialFailureNotifyPolicy := mkPartialFailureNotifyPolicy {
  p_notify_on_statuses : option PartialNotifyOnStatuses;
  p_failure_item_priority : option Z
}.

Definition failure_policy_apply (self : FailureNotifyPolicy) (over : PartialFailureNotifyPolicy)
  : FailureNotifyPolicy :=
  mkFailureNotifyPolicy
    match p_notify_on_statuses over with
    | Some partial => merge_notify_on_statuses (notify_on_statuses self) partial
    | None => notify_on_statuses self
    end
    (merge_opt (failure_item_priority self) (p_failure_item_priority over)).

#[export] Instance failure_policy : Policy FailureNotifyPolicy.
Proof.
  refine {| apply := failure_policy_apply; no_override := mkPartialFailureNotifyPolicy None None |}.
  by intros [].
Defined.

Definition notify_defaults : PartialNotifyOnStatuses :=
  mkPartialNotifyOnStatuses (Some true) (Some true) (Some false) (Some false).
Definition failure_baseline := mkPartialFailureNotifyPolicy (Some notify_defaults) (Some 0%Z).
Definition failure_cheap_fast := mkPartialFailureNotifyPolicy (Some notify_defaults) (Some (-5)%Z).
Definition failure_thorough := mkPartialFailureNotifyPolicy (Some notify_defaults) (Some 5%Z).

Definition failure_profile_by_name (name : string) : option PartialFailureNotifyPolicy :=
  if String.eqb name "baseline" then Some failure_baseline
  else if String.eqb name "cheap-fast" then Some failure_cheap_fast
  else if String.eqb name "thorough" then Some failure_thorough
  else None.

Definition should_notify (terminal_status : string) (policy : FailureNotifyPolicy) : bool :=
  let s := notify_on_statuses policy in
  if String.eqb terminal_status "failed" then n_failed s
  else if String.eqb terminal_status "budget_halted" then n_budget_halted s
  else if String.eqb terminal_status "cancelled" then n_cancelled s
  else if String.eqb terminal_status "succeeded" then n_succeeded s
  else false.

(** ** Where the layers are read from *)

Inductive PolicyConfigSource :=
| Worktree (worktree : string)
| HarnessFile (path : string)
| Builtin.

(** [worktree.join("planning").join("harness.json")] *)
Definition harness_path (s : PolicyConfigSource) : option string :=
  match s with
  | Worktree w => Some (w +:+ "/planning/harness.json")
  | HarnessFile p => Some p
  | Builtin => None
  end.

Inductive PolicyError :=
| ReadFailed (path detail : string)
| ParseFailed (path detail : string)
| SectionFailed (path section detail : string)
| UnknownProfile (name workflow_key : string).

Section Profiles.
Context {X : Extern}.
Context (exists_ : string -> bool).
(** [read_to_string] then [from_str]: [inl] is a read error, [inr] a parse error. *)
Context (read_harness : string -> result value (string + string)).
(** The entries of a [Value::Object]. *)
Context (as_object : value -> option (list (string * value))).
Context {P : Type} (dec : value -> result P string) (expected_map : value -> string).

Definition load_harness (path : string) : result value PolicyError :=
  match read_harness path with
  | Ok v => Ok v
  | Err (inl e) => Err (ReadFailed path e)
  | Err (inr e) => Err (ParseFailed path e)
  end.

Definition section_of (harness : value) (workflow_key section : string) : option value :=
  v ← jget harness workflow_key; jget v section.

Definition read_harness_policy_defaults_from (source : PolicyConfigSource) (workflow_key : string)
  : result (option P) PolicyError :=
  match harness_path source with
  | None => Ok None
  | Some path =>
      if negb (exists_ path) then Ok None
      else
        harness <-? load_harness path;
        match section_of harness workflow_key "policy" with
        | None => Ok None
        | Some v => match dec v with
                    | Ok p => Ok (Some p)
                    | Err e => Err (SectionFailed path (workflow_key +:+ ".policy") e)
                    end
        end
  end.

(** [HashMap<String, P>]'s [Deserialize]: every entry must parse. *)
Fixpoint dec_entries (kvs : list (string * value)) (acc : gmap string P)
  : result (gmap string P) string :=
  match kvs with
  | [] => Ok acc
  | (k, v) :: kvs => match dec v with
                     | Ok p => dec_entries kvs (<[k := p]> acc)
                     | Err e => Err e end
  end.

Definition read_harness_profiles_from (source : PolicyConfigSource) (workflow_key : string)
  : result (option (gmap string P)) PolicyError :=
  match harness_path source with
  | None => Ok None
  | Some path =>
      if negb (exists_ path) then Ok None
      else
        harness <-? load_harness path;
        match section_of harness workflow_key "profiles" with
        | None => Ok None
        | Some v =>
            let fail e := Err (SectionFailed path (workflow_key +:+ ".profiles") e) in
            match as_object v with
            | None => fail (expected_map v)
            | Some kvs =>
                let kvs := filter (fun kv => negb (String.prefix "_comment" kv.1) = true) kvs in
                match dec_entries kvs ∅ with
                | Ok m => Ok (Some m)
                | Err e => fail e
                end
            end
        end
  end.

Definition resolve_profile_from (profile_name : option string) (source : PolicyConfigSource)
    (workflow_key : string) (builtin_profile_by_name : string -> option P)
  : result (option P) PolicyError :=
  match profile_name with
  | None => Ok None
  | Some name =>
      profiles <-? read_harness_profiles_from source workflow_key;
      match profiles ≫= (fun m => m !! name) with
      | Some p => Ok (Some p)
      | None => match builtin_profile_by_name name with
                | Some p => Ok (Some p)
                | None => Err (UnknownProfile name workflow_key)
                end
      end
  end.
End Profiles.

Section RunPolicy.
Context {X : Extern} (exists_ : string -> bool)
  (read_harness : string -> result value (string + string))
  (as_object : value -> option (list (string * value)))
  (expected_map : value -> string).
Context {P : Type} {HP : Policy P} (dec : value -> result Partial string).

(** The body [operator::queue::policy] and [operator::failure] share. *)
Definition resolve_policy_for_run_from (workflow_key : string) (builtin : P)
    (profile_by_name : string -> option Partial) (source : PolicyConfigSource)
    (profile_name : option string) (event_override : option Partial) : result P PolicyError :=
  harness_defaults <-? read_harness_policy_defaults_from exists_ read_harness dec source workflow_key;
  profile <-? resolve_profile_from exists_ read_harness as_object dec expected_map profile_name
                source workflow_key profile_by_name;
  Ok (resolve builtin harness_defaults profile event_override).
End RunPolicy.

(** ** Facts *)

Section PolicyFacts.
(** The first layer, from the top, that sets a field. *)
Definition first_set {A B} (f : A -> option B) (layers : list (option A)) (dflt : B) : B :=
  default dflt (head (omap (fun l => l ≫= f) layers)).

Lemma merge_layers {A B} (f : A -> option B) (h p e : option A) (d : B) :
  first_set f [e; p; h] d =
    default (default (default d (h ≫= f)) (p ≫= f)) (e ≫= f).
Proof.
  unfold first_set. simpl.
  destruct e as [e|]; simpl; [destruct (f e); [done|]|];
  (destruct p as [p|]; simpl; [destruct (f p); [done|]|]);
  (destruct h as [h|]; simpl; [by destruct (f h)|done]).
Qed.

Definition notify_field {B} (f : PartialNotifyOnStatuses -> option B)
  : PartialFailureNotifyPolicy -> option B := fun l => p_notify_on_statuses l ≫= f.
End PolicyFacts.

Section PolicyProperties.
(** The four layers merge field by field: each knob of the operator-queue
    policy, and each status flag and the priority of the failure-notification
    policy, takes the value of the highest layer that sets it, event override
    over profile over harness.json over the built-in, and an override that
    flips one notification status leaves the other three to lower layers. *)
Theorem resolve_precedence (bq : OperatorQueuePolicy) (hq pq eq : option PartialOperatorQueuePolicy)
    (bf : FailureNotifyPolicy) (hf pf ef : option PartialFailureNotifyPolicy) :
  let q := resolve bq hq pq eq in
  let f := notify_on_statuses (resolve bf hf pf ef) in
  operator_queue_depth q = first_set p_operator_queue_depth [eq; pq; hq] (operator_queue_depth bq) /\
  answer_timeout_secs q = first_set p_answer_timeout_secs [eq; pq; hq] (answer_timeout_secs bq) /\
  suppression_window_secs q
    = first_set p_suppression_window_secs [eq; pq; hq] (suppression_window_secs bq) /\
  digest_schedule_secs q = first_set p_digest_schedule_secs [eq; pq; hq] (digest_schedule_secs bq) /\
  n_failed f = first_set (notify_field p_failed) [ef; pf; hf] (n_failed (notify_on_statuses bf)) /\
  n_budget_halted f = first_set (notify_field p_budget_halted) [ef; pf; hf]
                        (n_budget_halted (notify_on_statuses bf)) /\
  n_cancelled f = first_set (notify_field p_cancelled) [ef; pf; hf]
                    (n_cancelled (notify_on_statuses bf)) /\
  n_succeeded f = first_set (notify_field p_succeeded) [ef; pf; hf]
                    (n_succeeded (notify_on_statuses bf)) /\
  failure_item_priority (resolve bf hf pf ef)
    = first_set p_failure_item_priority [ef; pf; hf] (failure_item_priority bf).
Proof.
  intros q f. subst q f. rewrite !merge_layers. unfold notify_field.
  split_and!; try (by destruct eq, pq, hq).
  all: destruct ef as [[[] ]|], pf as [[[] ]|], hf as [[[] ]|]; done.
Qed.

Context {X : Extern} (exists_ : string -> bool)
  (read_harness : string -> result value (string + string))
  (as_object : value -> option (list (string * value)))
  (expected_map : value -> string).

Lemma dec_entries_lookup {P} (dec : value -> result P string) kvs acc m k :
  dec_entries dec kvs acc = Ok m -> NoDup kvs.*1 ->
  m !! k = match list_find (fun kv => kv.1 = k) kvs with
           | Some (_, (_, v)) => match dec v with Ok p => Some p | Err _ => None end
           | None => acc !! k
           end.
Proof.
  revert acc. induction kvs as [|[k' v] kvs IH]; intros acc; simpl; [by intros [= <-] _|].
  destruct (dec v) as [p|e] eqn:Ed; [|done]. intros H [Hni Hnd]%NoDup_cons.
  rewrite (IH _ H Hnd). destruct (decide (k' = k)) as [->|Hne]; simpl.
  - destruct (list_find _ kvs) as [[i [k2 v2]]|] eqn:Ef; simpl.
    + apply list_find_Some in Ef as (Hl & Hk & _). simpl in Hk. subst k2.
      destruct Hni. apply list_elem_of_fmap. exists (k, v2). split; [done|].
      by eapply list_elem_of_lookup_2.
    + by rewrite lookup_insert_eq, Ed.
  - destruct (list_find _ kvs) as [[i [k2 v2]]|]; simpl; [done|]. by rewrite lookup_insert_ne.
Qed.

(** Resolving a named profile.  No name means no profile layer; a
    [Builtin] source never fails on a canonical name and consults no file; a
    harness.json entry under the name shadows the built-in bundle, a
    [_comment] entry is not a profile even when asked for by name, and a name
    found nowhere is an error, never a silent no-op. *)
Theorem resolve_profile_spec {P} (dec : value -> result P string) name source key by_name :
  let resolve_name n := resolve_profile_from exists_ read_harness as_object dec expected_map n
                          source key by_name in
  resolve_name None = Ok None /\
  (source = Builtin -> resolve_name (Some name) =
     match by_name name with Some p => Ok (Some p) | None => Err (UnknownProfile name key) end) /\
  (forall path h v kvs m, harness_path source = Some path -> exists_ path = true ->
     read_harness path = Ok h -> section_of h key "profiles" = Some v ->
     as_object v = Some kvs -> NoDup kvs.*1 ->
     dec_entries dec (filter (fun kv => negb (String.prefix "_comment" kv.1) = true) kvs) ∅ = Ok m ->
     resolve_name (Some name) =
       match (if String.prefix "_comment" name then None else
              '(_, kv) ← list_find (fun kv => kv.1 = name) kvs;
              match dec kv.2 with Ok p => Some p | Err _ => None end) with
       | Some p => Ok (Some p)
       | None => match by_name name with
                 | Some p => Ok (Some p) | None => Err (UnknownProfile name key) end
       end).
Proof.
  intros resolve_name. subst resolve_name. split_and!; [done|by intros ->|].
  intros path h v kvs m Hp He Hr Hs Ho Hnd Hm. unfold resolve_profile_from,
    read_harness_profiles_from, load_harness. rewrite Hp, He, Hr. simpl. rewrite Hs, Ho, Hm.
  simpl. assert (Hf : NoDup (filter (fun kv : string * value =>
    negb (String.prefix "_comment" kv.1) = true) kvs).*1).
  { clear -Hnd. induction kvs as [|kv kvs IH]; [constructor|].
    apply NoDup_cons in Hnd as [Hni Hnd]. rewrite filter_cons. case_decide; [|by apply IH].
    simpl. apply NoDup_cons. split; [|by apply IH]. intros Hin. apply Hni.
    apply list_elem_of_fmap in Hin as (y & -> & [_ Hy]%list_elem_of_filter).
    apply list_elem_of_fmap. by exists y. }
  assert (Hlook : m !! name = if String.prefix "_comment" name then None else
              '(_, kv) ← list_find (fun kv => kv.1 = name) kvs;
              match dec kv.2 with Ok p => Some p | Err _ => None end).
  { rewrite (dec_entries_lookup dec _ _ _ name Hm Hf), lookup_empty. clear.
    induction kvs as [|[k v] kvs IH]; simpl; [by destruct (String.prefix _ _)|].
    rewrite filter_cons. simpl. destruct (decide (k = name)) as [->|Hne].
    - destruct (String.prefix "_comment" name) eqn:Ep; simpl.
      + rewrite IH. by rewrite ?Ep.
      + by rewrite decide_True by done.
    - assert (Hgen : forall l : list (string * value),
        match list_find (fun kv => kv.1 = name) ((k, v) :: l) with
        | Some (_, (_, v0)) => match dec v0 with Ok p => Some p | Err _ => None end
        | None => None end =
        match list_find (fun kv => kv.1 = name) l with
        | Some (_, (_, v0)) => match dec v0 with Ok p => Some p | Err _ => None end
        | None => None end).
      { intros l. simpl. rewrite decide_False by done. by destruct (list_find _ l) as [[? [? ?]]|]. }
      case_decide; [rewrite Hgen|]; rewrite IH; destruct (String.prefix "_comment" name); try done;
        by destruct (list_find _ kvs) as [[? [? ?]]|]. }
  rewrite Hlook. done.
Qed.
End PolicyProperties.
