(* ===== verification/Utf8.v ===== *)
(** * Rust strings

    A Rust [String] is the [string] of its UTF-8 bytes.  The operations of the
    standard library that the operator modules apply to one are here: [len]
    (bytes), [chars().count()], [chars().take(n).collect()], [trim().is_empty()],
    and the byte-wise order of [Ord for str].  [u64::to_le_bytes] is in the same
    place because payload digests prefix byte strings with it. *)

From Stdlib Require Import NArith Ascii.
From S2P Require Import Prelude.

Local Open Scope string_scope.
Local Open Scope list_scope.

Definition byte (c : ascii) : N := N_of_ascii c.

(** A continuation byte, [0b10xxxxxx]: every other byte starts a character. *)
Definition is_cont (c : ascii) : bool := (128 <=? byte c)%N && (byte c <? 192)%N.

Definition str_len (s : string) : nat := String.length s.

(** [s.chars().count()] *)
Fixpoint chars_count (s : string) : nat :=
  match s with
  | EmptyString => 0
  | String c s => if is_cont c then chars_count s else S (chars_count s)
  end.

(** [s.chars().take(n).collect::<String>()]: cut before the character that
    would be the [n+1]st. *)
Fixpoint chars_take (n : nat) (s : string) : string :=
  match s with
  | EmptyString => EmptyString
  | String c s =>
      if is_cont c then String c (chars_take n s)
      else match n with
           | O => EmptyString
           | S n => String c (chars_take n s)
           end
  end.

(** [s.trim().is_empty()]: every character is in Unicode's White_Space. *)
Fixpoint all_whitespace (s : string) : bool :=
  match s with
  | EmptyString => true
  | String c1 r1 =>
      let b1 := byte c1 in
      if ((9 <=? b1) && (b1 <=? 13) || (b1 =? 32))%N then all_whitespace r1
      else match r1 with
      | EmptyString => false
      | String c2 r2 =>
          let b2 := byte c2 in
          if ((b1 =? 194) && ((b2 =? 133) || (b2 =? 160)))%N then all_whitespace r2
          else match r2 with
          | EmptyString => false
          | String c3 r3 =>
              let b3 := byte c3 in
              (* U+1680, U+2000..200A, U+2028, U+2029, U+202F, U+205F, U+3000 *)
              if (((b1 =? 225) && (b2 =? 154) && (b3 =? 128))
                  || ((b1 =? 226) && (b2 =? 128) &&
                        (((128 <=? b3) && (b3 <=? 138)) || (b3 =? 168) || (b3 =? 169) || (b3 =? 175)))
                  || ((b1 =? 226) && (b2 =? 129) && (b3 =? 159))
                  || ((b1 =? 227) && (b2 =? 128) && (b3 =? 128)))%N
              then all_whitespace r3 else false
          end
      end
  end.

(** [s.chars()], each character as its bytes *)
Fixpoint chars (s : string) : list string :=
  match s with
  | EmptyString => []
  | String c s =>
      match chars s with
      | String c' ch :: rest =>
          if is_cont c' then String c (String c' ch) :: rest
          else String c EmptyString :: String c' ch :: rest
      | _ => [String c EmptyString]
      end
  end.
Fixpoint drop_while {A} (p : A -> bool) (l : list A) : list A :=
  match l with [] => [] | x :: l' => if p x then drop_while p l' else l end.
(** [s.trim()] *)
Definition trim_start (s : string) : string := String.concat "" (drop_while all_whitespace (chars s)).
Definition trim_end (s : string) : string :=
  String.concat "" (rev (drop_while all_whitespace (rev (chars s)))).
Definition trim (s : string) : string := trim_end (trim_start s).

(** Bytes of a [u64], least significant first. *)
Fixpoint le_bytes (k : nat) (n : Z) : string :=
  match k with
  | O => EmptyString
  | S k => String (ascii_of_N (Z.to_N (n mod 256))) (le_bytes k (n / 256))
  end.
Definition u64_to_le_bytes (n : Z) : string := le_bytes 8 n.

(** ** Facts *)

Lemma prefix_iff p s : String.prefix p s = true <-> exists t, s = p +:+ t.
Proof.
  revert s. induction p as [|c p IH]; intros s; simpl.
  { split; [by exists s|]. by destruct s. }
  destruct s as [|d s]; [by split; [|intros [t ?]]|].
  simpl. destruct (ascii_dec c d) as [->|Hne].
  - rewrite IH. split; [intros [t ->]; by exists t|intros [t [= ->]]; by exists t].
  - split; [done|]. by intros [t [= -> _]].
Qed.

Lemma prefix_empty s : String.prefix "" s = true.
Proof. by destruct s. Qed.

Lemma chars_count_app s t : chars_count (s +:+ t) = (chars_count s + chars_count t)%nat.
Proof. induction s as [|c s IH]; simpl; [done|]. destruct (is_cont c); lia. Qed.

Lemma chars_take_count n s : (chars_count (chars_take n s) <= n)%nat.
Proof.
  revert n. induction s as [|c s IH]; intros n; simpl; [lia|].
  destruct (is_cont c) eqn:E; [simpl; rewrite E; apply IH|].
  destruct n as [|n]; [simpl; lia|]. simpl. rewrite E. specialize (IH n). lia.
Qed.

Lemma chars_take_all n s : (chars_count s <= n)%nat -> chars_take n s = s.
Proof.
  revert n. induction s as [|c s IH]; intros n; simpl; [done|].
  destruct (is_cont c); [intros H; by rewrite IH|].
  destruct n as [|n]; [lia|]. intros H. rewrite IH by lia. done.
Qed.

Lemma str_app_nil t : "" +:+ t = t.
Proof. done. Qed.
Lemma str_app_cons c s t : String c s +:+ t = String c (s +:+ t).
Proof. done. Qed.

Lemma str_append_length s t : String.length (s +:+ t) = (String.length s + String.length t)%nat.
Proof. induction s as [|c s IH]; simpl; [done|]. by rewrite IH. Qed.

Lemma append_inj_length s s' t t' :
  String.length s = String.length s' -> s +:+ t = s' +:+ t' -> s = s' /\ t = t'.
Proof.
  revert s'. induction s as [|c s IH]; intros [|c' s'] Hl H; simpl in *; try done.
  injection H as -> H. injection Hl as Hl. destruct (IH s' Hl H) as [-> ->]. done.
Qed.

Lemma str_append_nil_r s : s +:+ "" = s.
Proof. induction s as [|c s IH]; [done|]. change (String c (s +:+ "") = String c s). by rewrite IH. Qed.
Lemma str_append_assoc s t u : (s +:+ t) +:+ u = s +:+ (t +:+ u).
Proof.
  induction s as [|c s IH]; [done|].
  change (String c ((s +:+ t) +:+ u) = String c (s +:+ (t +:+ u))). by rewrite IH.
Qed.

Lemma str_app_empty_r s : s +:+ "" = s.
Proof. induction s as [|c s IH]; [done|]. by rewrite str_app_cons, IH. Qed.

Lemma length_le_bytes k n : String.length (le_bytes k n) = k.
Proof. revert n. induction k as [|k IH]; intros n; simpl; [done|]. by rewrite IH. Qed.

Lemma le_bytes_inj k n m :
  (0 <= n < 256 ^ Z.of_nat k)%Z -> (0 <= m < 256 ^ Z.of_nat k)%Z ->
  le_bytes k n = le_bytes k m -> n = m.
Proof.
  revert n m. induction k as [|k IH]; intros n m Hn Hm H; simpl in H; [simpl in *; lia|].
  rewrite Nat2Z.inj_succ, Z.pow_succ_r in Hn, Hm by lia. injection H as Hd Hr.
  pose proof (Z.mod_pos_bound n 256 eq_refl). pose proof (Z.mod_pos_bound m 256 eq_refl).
  apply (f_equal N_of_ascii) in Hd. rewrite !N_ascii_embedding in Hd by lia.
  assert (n / 256 = m / 256)%Z as Hq.
  { apply IH; [| |done].
    - split; [apply Z.div_pos; lia|apply Z.div_lt_upper_bound; lia].
    - split; [apply Z.div_pos; lia|apply Z.div_lt_upper_bound; lia]. }
  rewrite (Z.div_mod n 256), (Z.div_mod m 256) by lia. lia.
Qed.

(** [Ord for str] is a total order whose equality is equality. *)
Lemma string_compare_eq s t : String.compare s t = Eq <-> s = t.
Proof.
  split; [apply String.compare_eq_iff|intros ->].
  pose proof (String.compare_antisym t t). destruct (String.compare t t); simpl in *; congruence.
Qed.

Lemma ascii_compare_trans a b c :
  Ascii.compare a b = Lt -> Ascii.compare b c = Lt -> Ascii.compare a c = Lt.
Proof. unfold Ascii.compare. rewrite !N.compare_lt_iff. lia. Qed.

#[export] Instance string_compare_total : TotalCmp String.compare.
Proof.
  constructor.
  - intros x y. apply String.compare_antisym.
  - intros x. induction x as [|a x IH]; intros [|b y] [|c z]; simpl; try done.
    destruct (Ascii.compare a b) eqn:Eab; [|intros _|done].
    + apply Ascii.compare_eq_iff in Eab as ->.
      destruct (Ascii.compare b c); [apply IH|done|done].
    + destruct (Ascii.compare b c) eqn:Ebc; [|intros _|done].
      * apply Ascii.compare_eq_iff in Ebc as ->. by rewrite Eab.
      * by rewrite (ascii_compare_trans a b c Eab Ebc).
Qed.
