(* ===== verification/Text.v ===== *)
(** * Text

    The operations of Rust's [str] that parse: splitting, searching, lines,
    white space, and reading an integer, with the facts the components share. *)

From Stdlib Require Import NArith Ascii.
From stdpp Require Import pretty.
From S2P Require Import Prelude Utf8.

Local Open Scope string_scope.
Local Open Scope list_scope.

(** [s.split(c)], [c] an ASCII character *)

Fixpoint split_at (c : ascii) (s : string) : list string :=
  match s with
  | EmptyString => [""]
  | String d s =>
      if Ascii.eqb c d then "" :: split_at c s
      else match split_at c s with
           | [] => [String d ""]
           | w :: ws => String d w :: ws
           end
  end.
(** [split_once] *)
Fixpoint split_once (c : ascii) (s : string) : option (string * string) :=
  match s with
  | EmptyString => None
  | String d s =>
      if Ascii.eqb c d then Some ("", s)
      else match split_once c s with Some (a, b) => Some (String d a, b) | None => None end
  end.
Fixpoint contains_char (c : ascii) (s : string) : bool :=
  match s with EmptyString => false | String d s => Ascii.eqb c d || contains_char c s end.
Definition is_ascii_digit (c : ascii) : bool := (48 <=? byte c)%N && (byte c <=? 57)%N.
(** [stdout.windows(n).any(|w| w == needle)]: the needle occurs. *)
Fixpoint occurs (needle s : string) : bool :=
  String.prefix needle s || match s with EmptyString => false | String _ s => occurs needle s end.

Definition dquote : string := String (ascii_of_nat 34) EmptyString.

(** [str::parse] at an unsigned type with [m] values *)
Fixpoint parse_digits (m acc : Z) (s : string) : option Z :=
  match s with
  | EmptyString => Some acc
  | String c s =>
      let d := (Z.of_N (byte c) - 48)%Z in
      if ((0 <=? d) && (d <=? 9) && (acc * 10 + d <? m))%Z
      then parse_digits m (acc * 10 + d) s else None
  end.
Definition parse_unsigned (m : Z) (s : string) : option Z :=
  match s with
  | EmptyString => None
  | String c rest =>
      if Ascii.eqb c "+"%char then
        match rest with EmptyString => None | _ => parse_digits m 0 rest end
      else parse_digits m 0 s
  end.
Definition parse_u32 : string -> option Z := parse_unsigned u32_modulus.
Definition parse_u64 : string -> option Z := parse_unsigned u64_modulus.

(** [str::parse::<i64>] *)
Fixpoint digits_value (acc : Z) (s : string) : option Z :=
  match s with
  | EmptyString => Some acc
  | String c s => if is_ascii_digit c then digits_value (acc * 10 + (Z.of_N (byte c) - 48)) s else None
  end.
Definition parse_i64 (s : string) : option Z :=
  let '(sign, digits) :=
    match s with
    | String "-"%char rest => ((-1)%Z, rest)
    | String "+"%char rest => (1%Z, rest)
    | _ => (1%Z, s)
    end in
  match digits with
  | EmptyString => None
  | _ =>
      match digits_value 0 digits with
      | Some n => let v := (sign * n)%Z in
                  if ((- 2 ^ 63 <=? v) && (v <? 2 ^ 63))%Z then Some v else None
      | None => None
      end
  end.

(** [s.strip_prefix(p)], [&s[n..]] *)
Definition str_drop (n : nat) (s : string) : string := String.substring n (String.length s - n) s.
Definition strip_prefix (p s : string) : option string :=
  if String.prefix p s then Some (str_drop (String.length p) s) else None.

(** The text around the last occurrence of a nonempty needle: [rfind], and
    [rsplit(needle).next()] is its second part. *)
Fixpoint split_last (needle s : string) : option (string * string) :=
  match s with
  | EmptyString => None
  | String c s' =>
      match split_last needle s' with
      | Some (a, b) => Some (String c a, b)
      | None => if String.prefix needle s then Some ("", str_drop (String.length needle) s) else None
      end
  end.
Definition after_last (needle s : string) : string :=
  match split_last needle s with Some (_, b) => b | None => s end.

Definition newline_char : ascii := ascii_of_nat 10.
Definition nl : string := String newline_char EmptyString.

(** [s.lines()]: split after each newline, a carriage return before it
    dropped, no line for what follows the last newline when that is empty. *)
Definition strip_cr (s : string) : string :=
  match split_last (String (ascii_of_nat 13) EmptyString) s with
  | Some (a, EmptyString) => a
  | _ => s
  end.
Fixpoint drop_last_empty (l : list string) : list string :=
  match l with
  | [] => []
  | [w] => if String.eqb w "" then [] else [w]
  | w :: l => strip_cr w :: drop_last_empty l
  end.
Definition lines (s : string) : list string := drop_last_empty (split_at newline_char s).

(** [s.split_whitespace()] *)
Fixpoint words (acc : string) (cs : list string) : list string :=
  match cs with
  | [] => if String.eqb acc "" then [] else [acc]
  | c :: cs =>
      if all_whitespace c then
        if String.eqb acc "" then words "" cs else acc :: words "" cs
      else words (acc +:+ c) cs
  end.
Definition split_whitespace (s : string) : list string := words "" (chars s).

(** [s.trim_matches(c)], [c] an ASCII character *)
Definition trim_matches (c : ascii) (s : string) : string :=
  let is_c ch := String.eqb ch (String c EmptyString) in
  String.concat "" (rev (drop_while is_c (rev (drop_while is_c (chars s))))).

(** [s.trim_end_matches(c)] *)
Definition trim_end_matches (c : ascii) (s : string) : string :=
  let is_c ch := String.eqb ch (String c EmptyString) in
  String.concat "" (rev (drop_while is_c (rev (chars s)))).

(** Case mappings follow Unicode tables. *)
Class UnicodeCase : Type := {
  to_lowercase : string -> string;
  to_uppercase : string -> string
}.

(** The words of a split, joined again. *)
Lemma concat_split_at c s : String.concat (String c "") (split_at c s) = s.
Proof.
  induction s as [|d s IH]; [done|]. simpl. destruct (Ascii.eqb_spec c d) as [->|].
  - destruct (split_at d s) eqn:E; [by destruct s; simpl in E; repeat case_match|]. simpl in *. by rewrite IH.
  - destruct (split_at c s) as [|w ws] eqn:E; [by rewrite <- IH|].
    destruct ws; simpl in *; by rewrite <- IH.
Qed.

Lemma split_once_Some c s a b : split_once c s = Some (a, b) -> s = a +:+ String c b.
Proof.
  revert a b. induction s as [|d s IH]; intros a b; simpl; [done|].
  destruct (Ascii.eqb_spec c d) as [->|]; [by intros [= <- <-]|].
  destruct (split_once c s) as [[a' b']|]; [|done]. intros [= <- <-]. by rewrite (IH a' b' eq_refl).
Qed.


(** What does not hold the character is not split. *)
Lemma split_at_free c s t :
  contains_char c s = false -> split_at c (s +:+ String c t) = s :: split_at c t.
Proof.
  induction s as [|d s IH]; cbn [contains_char]; intros Hc.
  - rewrite str_app_nil. cbn [split_at]. by rewrite Ascii.eqb_refl.
  - apply orb_false_iff in Hc as [Hd Hs]. rewrite str_app_cons. cbn [split_at].
    by rewrite Hd, (IH Hs).
Qed.
Lemma split_at_whole c s : contains_char c s = false -> split_at c s = [s].
Proof.
  induction s as [|d s IH]; cbn; [done|]. intros [Hd Hs]%orb_false_iff. by rewrite Hd, (IH Hs).
Qed.
(** The parts of a text are one more than the characters it is split at. *)
Fixpoint count_char (c : ascii) (s : string) : nat :=
  match s with EmptyString => 0 | String d s => (if Ascii.eqb c d then 1 else 0) + count_char c s end.
Lemma split_at_length c s : length (split_at c s) = S (count_char c s).
Proof.
  induction s as [|d s IH]; cbn [split_at count_char]; [done|].
  destruct (Ascii.eqb c d); cbn [length]; [by rewrite IH|].
  destruct (split_at c s) as [|w ws]; [done|]. exact IH.
Qed.
Lemma count_char_app c s t : count_char c (s +:+ t) = (count_char c s + count_char c t)%nat.
Proof. induction s as [|d s IH]; [done|]. rewrite str_app_cons. cbn [count_char]. rewrite IH. lia. Qed.
Lemma count_char_0 c s : count_char c s = 0%nat <-> contains_char c s = false.
Proof.
  induction s as [|d s IH]; cbn; [done|]. destruct (Ascii.eqb c d); cbn; [done|exact IH].
Qed.

Lemma contains_app c s t : contains_char c (s +:+ t) = contains_char c s || contains_char c t.
Proof.
  induction s as [|d s IH]; [done|]. rewrite str_app_cons. cbn. by rewrite IH, orb_assoc.
Qed.
Lemma contains_prefix c n s : contains_char c s = false -> contains_char c (String.substring 0 n s) = false.
Proof.
  revert n. induction s as [|d s IH]; intros [|n]; cbn; try done. intros [-> H]%orb_false_iff. by apply IH.
Qed.
Lemma split_once_free c s t : contains_char c s = false -> split_once c (s +:+ String c t) = Some (s, t).
Proof.
  induction s as [|d s IH]; intros H.
  - rewrite str_app_nil. cbn. by rewrite Ascii.eqb_refl.
  - cbn in H. apply orb_false_iff in H as [Hd H].
    rewrite str_app_cons. cbn. by rewrite Hd, IH.
Qed.
Lemma split_once_none c s : contains_char c s = false -> split_once c s = None.
Proof. induction s as [|d s IH]; cbn; [done|]. intros [-> H]%orb_false_iff. by rewrite IH. Qed.

(** *** Reading back a number *)

Lemma parse_digits_pretty m n s :
  (Z.of_N n < m)%Z ->
  parse_digits m 0 (pretty_N_go n s) = parse_digits m (Z.of_N n) s.
Proof.
  revert s. induction (N.lt_wf_0 n) as [n _ IH]. intros s Hn.
  destruct (decide (n = 0)%N) as [->|H0]; [by rewrite pretty_N_go_0|].
  rewrite pretty_N_go_step by lia.
  rewrite IH by (try apply N.div_lt; lia || (rewrite N2Z.inj_div; apply Z.div_lt_upper_bound; lia)).
  cbn [parse_digits].
  assert (Hd : (n `mod` 10 < 10)%N) by (apply N.mod_lt; lia).
  assert (Hb : byte (pretty_N_char (n `mod` 10)) = (48 + n `mod` 10)%N).
  { revert Hd. generalize (n `mod` 10)%N as d. intros d Hd.
    assert (d ∈ [0;1;2;3;4;5;6;7;8;9]%N) as Hin by (rewrite !elem_of_cons; lia).
    repeat (apply elem_of_cons in Hin as [->|Hin]; [reflexivity|]). by apply elem_of_nil in Hin. }
  rewrite Hb. pose proof (N.div_mod n 10 ltac:(done)) as Hdm.
  replace (Z.of_N (n / 10) * 10 + (Z.of_N (48 + n `mod` 10) - 48))%Z with (Z.of_N n) by lia.
  replace ((0 <=? Z.of_N (48 + n `mod` 10) - 48) && (Z.of_N (48 + n `mod` 10) - 48 <=? 9)
    && (Z.of_N n <? m))%Z with true; [done|].
  symmetry. rewrite !andb_true_iff, !Z.leb_le, Z.ltb_lt.
  clear IH Hdm Hb. revert Hd. generalize (n `mod` 10)%N. intros d Hd. split_and!; [lia..|done].
Qed.

Lemma parse_unsigned_digits m s n : s <> "" -> parse_digits m 0 s = Some n -> parse_unsigned m s = Some n.
Proof.
  destruct s as [|c s]; [done|]. intros _ H. unfold parse_unsigned.
  destruct (Ascii.eqb_spec c "+"%char) as [->|]; [done|exact H].
Qed.

(** A printed number reads back. *)
Lemma parse_unsigned_pretty (m n : Z) : (0 <= n < m)%Z -> parse_unsigned m (pretty n) = Some n.
Proof.
  intros Hn. destruct n as [|p|p]; [|idtac|lia].
  { apply parse_unsigned_digits; [done|].
    change (parse_digits m 0 (pretty 0%Z)) with (if (true && (0 <? m))%Z then Some 0%Z else None).
    by rewrite (proj2 (Z.ltb_lt 0 m)) by lia. }
  change (pretty (Z.pos p)) with (pretty (N.pos p)). unfold pretty, pretty_N.
  rewrite decide_False by done.
  assert (H : parse_digits m 0 (pretty_N_go (N.pos p) "") = Some (Z.pos p)).
  { rewrite parse_digits_pretty by (simpl; lia). done. }
  apply parse_unsigned_digits; [|done]. intros He. rewrite He in H. by injection H.
Qed.
Lemma parse_u32_pretty (n : Z) : (0 <= n < u32_modulus)%Z -> parse_u32 (pretty n) = Some n.
Proof. apply parse_unsigned_pretty. Qed.
Lemma parse_u64_pretty (n : Z) : u64_ok n -> parse_u64 (pretty n) = Some n.
Proof. apply parse_unsigned_pretty. Qed.
