(* ===== verification/ModelReply.v ===== *)
(** * Reading a model's reply

    The helpers of crates/engine-core/src/workflows/mod.rs that turn a reply
    into a value: the structured output when the transport parsed one, else the
    text with a Markdown fence removed, else the first balanced JSON object or
    array inside it.  serde_json's parsers are parameters. *)

From Stdlib Require Import Ascii.
From S2P Require Import Prelude Json Utf8 Text.

Local Open Scope string_scope.
Local Open Scope list_scope.

Definition backtick_fence : string := "```".

Definition strip_json_fence (text : string) : string :=
  let trimmed := trim text in
  match strip_prefix backtick_fence trimmed with
  | None => trimmed
  | Some after_open =>
      let after_lang := match split_once newline_char after_open with
                        | Some (_, rest) => rest
                        | None => after_open
                        end in
      match split_last backtick_fence after_lang with
      | Some (body, _) => trim body
      | None => trimmed
      end
  end.

Definition is_open (c : ascii) : bool := Ascii.eqb c "{" || Ascii.eqb c "[".
Definition is_close (c : ascii) : bool := Ascii.eqb c "}" || Ascii.eqb c "]".
Definition is_quote (c : ascii) : bool := Ascii.eqb c (ascii_of_nat 34).
Definition is_backslash (c : ascii) : bool := Ascii.eqb c (ascii_of_nat 92).

(** The loop over the bytes from the first bracket on: the span up to the
    bracket that brings the depth back to zero.  The depth, an i32, is a [Z]: the
    two differ from 2^31 brackets open at once on. *)
Fixpoint balanced_span (depth : Z) (in_string escaped : bool) (s : string) : option string :=
  match s with
  | EmptyString => None
  | String c s =>
      if in_string then
        String c <$>
          (if escaped then balanced_span depth true false s
           else if is_backslash c then balanced_span depth true true s
           else if is_quote c then balanced_span depth false false s
           else balanced_span depth true false s)
      else if is_quote c then String c <$> balanced_span depth true escaped s
      else if is_open c then String c <$> balanced_span (depth + 1) false escaped s
      else if is_close c then
        if (depth - 1 =? 0)%Z then Some (String c EmptyString)
        else if (depth - 1 <? 0)%Z then None
        else String c <$> balanced_span (depth - 1) false escaped s
      else String c <$> balanced_span depth false escaped s
  end.

(** [&text[start..]], [start] the first bracket *)
Fixpoint from_first_open (s : string) : option string :=
  match s with
  | EmptyString => None
  | String c s' => if is_open c then Some s else from_first_open s'
  end.

Definition extract_balanced_json (text : string) : option string :=
  from_first_open text ≫= balanced_span 0 false false.

Definition RAW_OUTPUT_PREVIEW_MAX_CHARS : nat := Z.to_nat 2000.
Definition truncate_for_diagnostics (text : string) : string :=
  if (chars_count text <=? RAW_OUTPUT_PREVIEW_MAX_CHARS)%nat then text
  else chars_take RAW_OUTPUT_PREVIEW_MAX_CHARS text +:+ "... [truncated]".

Inductive ModelVerdict (T : Type) :=
| Parsed (v : T)
| Unparseable (raw_preview reason : string).
Arguments Parsed {T} v.
Arguments Unparseable {T} raw_preview reason.

Section Parse.
Context {X : Extern} {T : Type}.
Variable from_value : value -> result T string.
Variable from_str : string -> result T string.

(** [structured] is the entry of that name under the node's identity. *)
Definition parse_structured_or_fenced (structured : option value) (content : string)
    : result T string :=
  let fenced :=
    let fence_stripped := strip_json_fence content in
    match from_str fence_stripped with
    | Ok parsed => Ok parsed
    | Err strict_err =>
        match extract_balanced_json fence_stripped with
        | Some candidate =>
            if String.eqb candidate fence_stripped then Err strict_err
            else match from_str candidate with Ok parsed => Ok parsed | Err _ => Err strict_err end
        | None => Err strict_err
        end
    end in
  match structured with
  | Some v => if is_null v then fenced else from_value v
  | None => fenced
  end.

Definition parse_model_verdict (structured : option value) (content : string) : ModelVerdict T :=
  match parse_structured_or_fenced structured content with
  | Ok v => Parsed v
  | Err reason => Unparseable (truncate_for_diagnostics content) reason
  end.
End Parse.

Definition normalize_pass_fail_partial_synonym (verdict : string) : string :=
  if String.eqb verdict "MET" then "PASS"
  else if String.eqb verdict "NOT_MET" || String.eqb verdict "UNMET" then "FAIL"
  else if String.eqb verdict "PARTIAL_MET" || String.eqb verdict "PARTIALLY_MET" then "PARTIAL"
  else verdict.

(** * Facts *)

Definition quote : ascii := ascii_of_nat 34.

(** Text between brackets: characters that are neither brackets nor quotes,
    string literals, and bracketed groups. *)
Inductive literal_body : string -> Prop :=
| lit_nil : literal_body ""
| lit_char c s : is_quote c = false -> is_backslash c = false -> literal_body s -> literal_body (String c s)
| lit_escape b c s : is_backslash b = true -> literal_body s -> literal_body (String b (String c s)).

Inductive items : string -> Prop :=
| it_nil : items ""
| it_char c s : is_quote c = false -> is_open c = false -> is_close c = false -> items s -> items (String c s)
| it_string b s : literal_body b -> items s -> items (String quote (b +:+ String quote s))
| it_group o g c s : is_open o = true -> items g -> is_close c = true -> items s ->
    items (String o (g +:+ String c s)).

Inductive group : string -> Prop :=
| group_intro o g c : is_open o = true -> items g -> is_close c = true ->
    group (String o (g +:+ String c EmptyString)).

Fixpoint no_open (s : string) : bool :=
  match s with EmptyString => true | String c s => negb (is_open c) && no_open s end.

Lemma quote_class c : is_quote c = true -> c = quote.
Proof. apply Ascii.eqb_eq. Qed.
Lemma open_class c : is_open c = true -> is_quote c = false /\ is_close c = false.
Proof.
  unfold is_open. rewrite orb_true_iff, !Ascii.eqb_eq. by intros [-> | ->].
Qed.
Lemma close_class c : is_close c = true -> is_quote c = false /\ is_open c = false.
Proof. unfold is_close. rewrite orb_true_iff, !Ascii.eqb_eq. by intros [-> | ->]. Qed.
Lemma backslash_class c : is_backslash c = true -> is_quote c = false.
Proof. unfold is_backslash. rewrite Ascii.eqb_eq. by intros ->. Qed.

(** The loop inside a string literal. *)
Lemma span_literal b d s :
  literal_body b ->
  balanced_span d true false (b +:+ String quote s)
  = (fun u => b +:+ String quote u) <$> balanced_span d false false s.
Proof.
  induction 1 as [|c b Hq Hb _ IH|e c b He _ IH]; rewrite ?str_app_nil, ?str_app_cons;
    cbn [balanced_span]; rewrite ?He, ?Hb, ?Hq, ?IH; by destruct (balanced_span d false false s).
Qed.

(** The loop over complete items. *)
Lemma span_items g d s :
  (0 < d)%Z -> items g ->
  balanced_span d false false (g +:+ s) = (fun u => g +:+ u) <$> balanced_span d false false s.
Proof.
  intros Hd Hg. revert d s Hd.
  induction Hg as [|c g Hq Ho Hc _ IH|b g Hb _ IH|o g c g' Ho _ IHg Hc _ IH]; intros d s Hd;
    rewrite ?str_app_nil, ?str_app_cons, ?str_append_assoc, ?str_app_cons; cbn [balanced_span].
  - by destruct (balanced_span d false false s).
  - rewrite Hq, Ho, Hc, IH by done. by destruct (balanced_span d false false s).
  - rewrite span_literal, IH by done. destruct (balanced_span d false false s); [|done]. cbn.
    f_equal. by rewrite !str_app_cons, str_append_assoc, !str_app_cons.
  - destruct (open_class o Ho) as [Hoq _]. destruct (close_class c Hc) as [Hcq Hco].
    rewrite Hoq, Ho, IHg by lia. cbn [balanced_span]. rewrite Hcq, Hco, Hc.
    rewrite (proj2 (Z.eqb_neq _ _)) by lia. rewrite (proj2 (Z.ltb_ge _ _)) by lia.
    replace (d + 1 - 1)%Z with d by lia. rewrite IH by done.
    destruct (balanced_span d false false s); [|done]. cbn.
    f_equal. by rewrite !str_app_cons, str_append_assoc, !str_app_cons.
Qed.

(** [n] groups are still open: what closes them. *)
Fixpoint closes (n : nat) (s : string) : Prop :=
  match n with
  | O => s = ""
  | S n => exists g c rest, s = g +:+ String c rest /\ items g /\ is_close c = true /\ closes n rest
  end.

Lemma closes_cons_char c n s :
  is_quote c = false -> is_open c = false -> is_close c = false ->
  closes (S n) s -> closes (S n) (String c s).
Proof.
  intros Hq Ho Hc (g & k & rest & -> & Hg & Hk & Hr). exists (String c g), k, rest.
  split_and!; [done|by constructor|done|done].
Qed.

Lemma closes_cons_open o n s :
  is_open o = true -> closes (S (S n)) s -> closes (S n) (String o s).
Proof.
  intros Ho (g & c & rest & -> & Hg & Hc & (g' & c' & rest' & -> & Hg' & Hc' & Hr)).
  exists (String o (g +:+ String c g')), c', rest'. split_and!; [|by constructor|done|done].
  by rewrite str_app_cons, str_append_assoc, str_app_cons.
Qed.

Lemma span_sound s n sp :
  (forall esc, balanced_span (Z.of_nat (S n)) true esc s = Some sp ->
     exists post, s = sp +:+ post /\
       exists b rest, sp = b +:+ String quote rest /\ closes (S n) rest /\
         if esc then exists c b', b = String c b' /\ literal_body b' else literal_body b) /\
  (balanced_span (Z.of_nat (S n)) false false s = Some sp ->
     exists post, s = sp +:+ post /\ closes (S n) sp).
Proof.
  revert n sp. induction s as [|c s IH]; intros n sp; [split; done|]. split.
  - intros esc. cbn -[is_quote is_backslash Z.of_nat]. destruct esc.
    + intros H. apply fmap_Some in H as (u & H & ->).
      apply IH in H as (post & -> & b & rest & -> & Hcl & Hb). exists post. split; [done|].
      exists (String c b), rest. eauto 6.
    + destruct (is_backslash c) eqn:Eb; [|destruct (is_quote c) eqn:Eq].
      * intros H. apply fmap_Some in H as (u & H & ->).
        apply IH in H as (post & -> & b & rest & -> & Hcl & k & b' & -> & Hb).
        exists post. split; [done|]. exists (String c (String k b')), rest.
        split_and!; [done..|by constructor].
      * intros H. apply fmap_Some in H as (u & H & ->). apply IH in H as (post & -> & Hcl).
        exists post. split; [done|]. apply quote_class in Eq as ->. exists "", u.
        split_and!; [done..|constructor].
      * intros H. apply fmap_Some in H as (u & H & ->).
        apply IH in H as (post & -> & b & rest & -> & Hcl & Hb). exists post. split; [done|].
        exists (String c b), rest. split_and!; [done..|by constructor].
  - cbn -[is_quote is_open is_close Z.of_nat]. destruct (is_quote c) eqn:Eq; [|destruct (is_open c) eqn:Eo;
      [|destruct (is_close c) eqn:Ec]].
    + intros H. apply fmap_Some in H as (u & H & ->).
      apply IH in H as (post & -> & b & rest & -> & Hcl & Hb). exists post. split; [done|].
      apply quote_class in Eq as ->. destruct Hcl as (g & k & r & -> & Hg & Hk & Hr).
      exists (String quote (b +:+ String quote g)), k, r. split_and!; [|by constructor|done|done].
      by rewrite str_app_cons, str_append_assoc, str_app_cons.
    + replace (Z.of_nat (S n) + 1)%Z with (Z.of_nat (S (S n))) by lia.
      intros H. apply fmap_Some in H as (u & H & ->). apply IH in H as (post & -> & Hcl).
      exists post. split; [done|]. by apply closes_cons_open.
    + destruct (Z.of_nat (S n) - 1 =? 0)%Z eqn:E0.
      * intros [= <-]. exists s. split; [done|]. apply Z.eqb_eq in E0.
        assert (n = 0)%nat as -> by lia. exists "", c, "". split_and!; [done|constructor|done|done].
      * rewrite (proj2 (Z.ltb_ge _ _)) by lia. apply Z.eqb_neq in E0. destruct n as [|n]; [lia|].
        replace (Z.of_nat (S (S n)) - 1)%Z with (Z.of_nat (S n)) by lia.
        intros H. apply fmap_Some in H as (u & H & ->). apply IH in H as (post & -> & Hcl).
        exists post. split; [done|]. exists "", c, u. split_and!; [done|constructor|done|done].
    + intros H. apply fmap_Some in H as (u & H & ->). apply IH in H as (post & -> & Hcl).
      exists post. split; [done|]. by apply closes_cons_char.
Qed.

Lemma no_open_first pre o rest :
  no_open pre = true -> is_open o = true ->
  from_first_open (pre +:+ String o rest) = Some (String o rest).
Proof.
  intros Hp Ho. induction pre as [|c pre IH]; rewrite ?str_app_nil, ?str_app_cons; cbn in *.
  - by rewrite Ho.
  - apply andb_true_iff in Hp as [Hc Hp]. apply negb_true_iff in Hc. rewrite Hc. auto.
Qed.

Lemma from_first_open_Some s t :
  from_first_open s = Some t ->
  exists pre o rest, s = pre +:+ t /\ t = String o rest /\ is_open o = true /\ no_open pre = true.
Proof.
  induction s as [|c s IH]; cbn; [done|]. destruct (is_open c) eqn:Ec.
  - intros [= <-]. by exists "", c, s.
  - intros H. destruct (IH H) as (pre & o & rest & -> & -> & Ho & Hp).
    exists (String c pre), o, rest. split_and!; [done..|]. cbn. by rewrite Ec.
Qed.

Lemma closes_1 s : closes 1 s <-> exists g c, s = g +:+ String c "" /\ items g /\ is_close c = true.
Proof.
  split.
  - intros (g & c & rest & -> & Hg & Hc & ->). eauto.
  - intros (g & c & -> & Hg & Hc). by exists g, c, "".
Qed.

(** C37: The JSON that extract_balanced_json finds in a reply is exactly the
    first bracketed group of the text: it returns a span precisely when the text
    is some prose without an opening bracket, then a group (an opening bracket,
    items, a closing bracket, where items are ordinary characters, string
    literals with their escapes and nested groups, so brackets inside a literal
    count for nothing), then anything, and the span is that group, unchanged. *)
Theorem extract_balanced_exact text span :
  extract_balanced_json text = Some span <->
  exists pre post, text = pre +:+ (span +:+ post) /\ no_open pre = true /\ group span.
Proof.
  unfold extract_balanced_json. split.
  - intros H. apply bind_Some in H as (t & Ht & Hs).
    apply from_first_open_Some in Ht as (pre & o & rest & -> & -> & Ho & Hp).
    destruct (open_class o Ho) as [Hq _]. cbn [balanced_span] in Hs. rewrite Hq, Ho in Hs.
    apply fmap_Some in Hs as (u & Hs & ->).
    apply (proj2 (span_sound rest 0 u)) in Hs as (post & -> & (g & c & -> & Hg & Hc)%closes_1).
    exists pre, post. split_and!; [done..|by constructor].
  - intros (pre & post & -> & Hp & Hg). destruct Hg as [o g c Ho Hg Hc].
    rewrite str_app_cons, (no_open_first _ _ _ Hp Ho). cbn [mbind option_bind balanced_span].
    destruct (open_class o Ho) as [Hq _]. destruct (close_class c Hc) as [Hcq Hco].
    rewrite Hq, Ho, str_append_assoc, str_app_cons, span_items by (lia || done).
    cbn [balanced_span]. by rewrite Hcq, Hco, Hc.
Qed.

(** A reply that wraps its JSON in prose is read as that JSON. *)
Lemma prose_is_recovered {X : Extern} {T} (from_value : value -> result T string)
    (from_str : string -> result T string) content pre span post e v :
  strip_json_fence content = pre +:+ (span +:+ post) -> no_open pre = true -> group span ->
  pre +:+ (span +:+ post) <> span ->
  from_str (strip_json_fence content) = Err e -> from_str span = Ok v ->
  parse_model_verdict from_value from_str None content = Parsed v.
Proof.
  intros Hc Hp Hg Hne He Hv. unfold parse_model_verdict, parse_structured_or_fenced.
  rewrite He, (proj2 (extract_balanced_exact _ span)) by (rewrite Hc; eauto).
  rewrite Hc. destruct (String.eqb_spec span (pre +:+ (span +:+ post))) as [E|]; [by rewrite <- E in Hne|].
  by rewrite Hv.
Qed.
