(* ===== verification/Operator.v ===== *)
(** * The operator payload

    - [OperatorPayloadLimits]: crates/engine-core/src/operator/limits.rs
    - [OperatorPayload] and its digest: crates/engine-core/src/operator/payload.rs
    - [validate_payload]: crates/engine-core/src/operator/validate.rs
    - [render_failure_payload]: crates/engine-core/src/operator/failure.rs, whose
      policy half is in file Policy

    SHA-256 printed in lower-case hex is the parameter [sha256_hex]; nothing is
    assumed of it, so a theorem about digests says "or here is a collision".
    Strings are their UTF-8 bytes (file Utf8). *)

From Stdlib Require Import NArith Ascii.
From stdpp Require Import pretty.
From S2P Require Import Prelude Policy Utf8.

Local Open Scope string_scope.
Local Open Scope list_scope.

(** ** Limits *)

Definition WHATSAPP_MAX_REPLY_BUTTONS : nat := 3.
Definition OPERATOR_MIN_RESPONSE_OPTIONS : nat := 2.
Definition WHATSAPP_MAX_BUTTON_LABEL_CHARS : nat := 20.
Definition WHATSAPP_MAX_BODY_CHARS : nat := Z.to_nat 1024.

Record OperatorPayloadLimits := mkLimits {
  max_options : nat;
  min_options : nat;
  max_label_chars : nat;
  max_summary_chars : nat
}.

Definition OperatorPayloadLimits_default : OperatorPayloadLimits :=
  mkLimits WHATSAPP_MAX_REPLY_BUTTONS OPERATOR_MIN_RESPONSE_OPTIONS
    WHATSAPP_MAX_BUTTON_LABEL_CHARS WHATSAPP_MAX_BODY_CHARS.

(** ** Payload *)

Record OperatorResponseOption := mkOption { opt_key : string; opt_label : string }.

#[export] Instance OperatorResponseOption_eq_dec : EqDecision OperatorResponseOption.
Proof. solve_decision. Defined.

Record OperatorPayload := mkOperatorPayload {
  gate_id : string;
  rendered_summary : string;
  options : list OperatorResponseOption;
  digest : string
}.

#[export] Instance OperatorPayload_eq_dec : EqDecision OperatorPayload.
Proof. solve_decision. Defined.

(** [hasher.update((s.len() as u64).to_le_bytes()); hasher.update(s.as_bytes())] *)
Definition put_str (s : string) : string :=
  u64_to_le_bytes (Z.of_nat (str_len s)) +:+ s.

Fixpoint put_options (opts : list OperatorResponseOption) : string :=
  match opts with
  | [] => EmptyString
  | o :: opts => put_str (opt_key o) +:+ (put_str (opt_label o) +:+ put_options opts)
  end.

(** The bytes [digest_of] feeds the hasher, in order. *)
Definition digest_input (summary : string) (opts : list OperatorResponseOption) : string :=
  put_str summary +:+ (u64_to_le_bytes (Z.of_nat (length opts)) +:+ put_options opts).

(** ** Validation *)

Inductive OperatorValidationError :=
| MissingRenderedSummary
| RenderedSummaryTooLong (chars max : nat)
| TooFewOptions (count min : nat)
| TooManyOptions (count max : nat)
| OptionLabelTooLong (key : string) (chars max : nat).

#[export] Instance OperatorValidationError_eq_dec : EqDecision OperatorValidationError.
Proof. solve_decision. Defined.

(** The newtype whose only constructor call is in [validate]. *)
Record ValidatedOperatorPayload := mkValidated { into_payload : OperatorPayload }.

Fixpoint check_labels (max : nat) (opts : list OperatorResponseOption)
  : option OperatorValidationError :=
  match opts with
  | [] => None
  | o :: opts =>
      let label_chars := chars_count (opt_label o) in
      if (max <? label_chars)%nat then Some (OptionLabelTooLong (opt_key o) label_chars max)
      else check_labels max opts
  end.

Definition validate_payload (payload : OperatorPayload) (limits : OperatorPayloadLimits)
  : result ValidatedOperatorPayload OperatorValidationError :=
  if all_whitespace (rendered_summary payload) then Err MissingRenderedSummary else
  let summary_chars := chars_count (rendered_summary payload) in
  if (max_summary_chars limits <? summary_chars)%nat
  then Err (RenderedSummaryTooLong summary_chars (max_summary_chars limits)) else
  let option_count := length (options payload) in
  if (option_count <? min_options limits)%nat
  then Err (TooFewOptions option_count (min_options limits)) else
  if (max_options limits <? option_count)%nat
  then Err (TooManyOptions option_count (max_options limits)) else
  match check_labels (max_label_chars limits) (options payload) with
  | Some e => Err e
  | None => Ok (mkValidated payload)
  end.

(** ** Run-failure notifications *)

Definition TRUNCATION_MARKER : string := "…[truncated]".

Record FailedNode := mkFailedNode { fn_name : string; fn_error : string }.

Definition newline : string := String (ascii_of_N 10) EmptyString.

Definition failure_header (run_id workflow_type terminal_status : string) : string :=
  let status_line :=
    if String.eqb terminal_status "budget_halted" then "Run halted: budget limit reached"
    else "Run failed" in
  status_line +:+ newline +:+ "Workflow: " +:+ workflow_type +:+ newline +:+ "Run: " +:+ run_id +:+ newline.

Definition failure_node_line (failed_nodes : list FailedNode) : string :=
  match failed_nodes with
  | [first] => "Failing node: " +:+ fn_name first +:+ " — " +:+ fn_error first
  | first :: rest =>
      "Failing node: " +:+ fn_name first +:+ " — " +:+ fn_error first +:+ " (+" +:+
      pretty (length rest) +:+ " more failed node" +:+
      (if (length rest =? 1)%nat then "" else "s") +:+ ")"
  | [] => "No specific node failure recorded."
  end.

Definition failure_options : list OperatorResponseOption :=
  [mkOption "acknowledge" "Acknowledge"; mkOption "view_run" "View run"].

(** The summary text: the node line is cut to what the header leaves, then the
    whole is cut to the limit. *)
Definition failure_summary (header node_line : string) (max_chars : nat) : string :=
  let header_chars := chars_count header in
  let available_for_node_line := (max_chars - header_chars)%nat in
  let final_node_line :=
    if (chars_count node_line <=? available_for_node_line)%nat then node_line
    else
      let marker_chars := chars_count TRUNCATION_MARKER in
      let keep := (available_for_node_line - marker_chars)%nat in
      chars_take keep node_line +:+ TRUNCATION_MARKER in
  let rendered_summary := header +:+ final_node_line in
  if (max_chars <? chars_count rendered_summary)%nat
  then chars_take max_chars rendered_summary else rendered_summary.

Section Digest.
(** [format!("{:x}", Sha256::digest(bytes))] *)
Variable sha256_hex : string -> string.

Definition digest_of (summary : string) (opts : list OperatorResponseOption) : string :=
  sha256_hex (digest_input summary opts).

Definition OperatorPayload_new (gate summary : string) (opts : list OperatorResponseOption)
  : OperatorPayload :=
  mkOperatorPayload gate summary opts (digest_of summary opts).

Definition recomputed_digest (p : OperatorPayload) : string :=
  digest_of (rendered_summary p) (options p).

Definition digest_matches (p : OperatorPayload) : bool :=
  String.eqb (digest p) (recomputed_digest p).

Definition render_failure_payload (gate run_id workflow_type terminal_status : string)
    (failed_nodes : list FailedNode) (limits : OperatorPayloadLimits)
  : result ValidatedOperatorPayload OperatorValidationError :=
  let header := failure_header run_id workflow_type terminal_status in
  let node_line := failure_node_line failed_nodes in
  let rendered_summary := failure_summary header node_line (max_summary_chars limits) in
  let payload := OperatorPayload_new gate rendered_summary failure_options in
  validate_payload payload limits.
End Digest.

(** ** The digest's input determines what was rendered *)

(** What a [usize] length guarantees. *)
Definition str_fits (s : string) : Prop := u64_ok (Z.of_nat (str_len s)).
Definition rendered_fits (s : string) (opts : list OperatorResponseOption) : Prop :=
  str_fits s /\ u64_ok (Z.of_nat (length opts)) /\
  Forall (fun o => str_fits (opt_key o) /\ str_fits (opt_label o)) opts.

Lemma u64_to_le_bytes_app_inj n m s t :
  u64_ok n -> u64_ok m -> u64_to_le_bytes n +:+ s = u64_to_le_bytes m +:+ t -> n = m /\ s = t.
Proof.
  intros Hn Hm H. apply append_inj_length in H as [H ->].
  - split; [|done]. by apply (le_bytes_inj 8).
  - unfold u64_to_le_bytes. by rewrite !length_le_bytes.
Qed.

Lemma put_str_app_inj s s' t t' :
  str_fits s -> str_fits s' -> put_str s +:+ t = put_str s' +:+ t' -> s = s' /\ t = t'.
Proof.
  intros Hs Hs' H. unfold put_str in H. rewrite !str_append_assoc in H.
  apply u64_to_le_bytes_app_inj in H as [Hl H]; [|done..].
  apply append_inj_length in H; [done|]. unfold str_len in Hl. lia.
Qed.

Lemma put_options_inj opts opts' :
  length opts = length opts' ->
  Forall (fun o => str_fits (opt_key o) /\ str_fits (opt_label o)) opts ->
  Forall (fun o => str_fits (opt_key o) /\ str_fits (opt_label o)) opts' ->
  put_options opts = put_options opts' -> opts = opts'.
Proof.
  revert opts'. induction opts as [|[k l] opts IH]; intros [|[k' l'] opts'] Hlen H H' E;
    try done; simpl in *.
  apply Forall_cons in H as [[Hk Hl] H]. apply Forall_cons in H' as [[Hk' Hl'] H'].
  simpl in *. apply put_str_app_inj in E as [-> E]; [|done..].
  apply put_str_app_inj in E as [-> E]; [|done..].
  f_equal. apply IH; [lia|done..].
Qed.

Lemma digest_input_inj s s' opts opts' :
  rendered_fits s opts -> rendered_fits s' opts' ->
  digest_input s opts = digest_input s' opts' -> s = s' /\ opts = opts'.
Proof.
  intros (Hs & Hn & Ho) (Hs' & Hn' & Ho') E. unfold digest_input in E.
  apply put_str_app_inj in E as [-> E]; [|done..]. split; [done|].
  apply u64_to_le_bytes_app_inj in E as [El E]; [|done..].
  apply put_options_inj; [lia|done..].
Qed.

(** ** Validation *)

Lemma check_labels_None max opts :
  check_labels max opts = None <-> Forall (fun o => (chars_count (opt_label o) <= max)%nat) opts.
Proof.
  induction opts as [|o opts IH]; simpl; [done|]. rewrite Forall_cons.
  destruct (Nat.ltb_spec max (chars_count (opt_label o))); [|naive_solver].
  split; [done|]. intros [? _]. lia.
Qed.

Lemma check_labels_Some max opts e :
  check_labels max opts = Some e <-> exists pre o post,
    opts = pre ++ o :: post /\ e = OptionLabelTooLong (opt_key o) (chars_count (opt_label o)) max /\
    (max < chars_count (opt_label o))%nat /\
    Forall (fun o => (chars_count (opt_label o) <= max)%nat) pre.
Proof.
  induction opts as [|o opts IH]; simpl.
  { split; [done|]. intros ([|??] & ? & ? & ? & _); done. }
  destruct (Nat.ltb_spec max (chars_count (opt_label o))) as [Hlt|Hle].
  - split.
    + intros [= <-]. exists [], o, opts. by repeat split.
    + intros ([|o' pre] & o0 & post & [= -> ->] & -> & ? & Hpre); [done|].
      apply Forall_cons in Hpre as [? _]. lia.
  - rewrite IH. split.
    + intros (pre & o0 & post & -> & -> & ? & ?). exists (o :: pre), o0, post.
      repeat split; [done|]. by constructor.
    + intros ([|o' pre] & o0 & post & [= -> ->] & -> & ? & Hpre); [lia|].
      apply Forall_cons in Hpre as [_ ?]. by exists pre, o0, post.
Qed.

(** The five checks, as what each one demands. *)
Definition summary_present (p : OperatorPayload) : Prop := all_whitespace (rendered_summary p) = false.
Definition summary_fits (p : OperatorPayload) (l : OperatorPayloadLimits) : Prop :=
  (chars_count (rendered_summary p) <= max_summary_chars l)%nat.
Definition enough_options (p : OperatorPayload) (l : OperatorPayloadLimits) : Prop :=
  (min_options l <= length (options p))%nat.
Definition few_options (p : OperatorPayload) (l : OperatorPayloadLimits) : Prop :=
  (length (options p) <= max_options l)%nat.
Definition labels_fit (p : OperatorPayload) (l : OperatorPayloadLimits) : Prop :=
  Forall (fun o => (chars_count (opt_label o) <= max_label_chars l)%nat) (options p).

Lemma validate_payload_Ok p l v :
  validate_payload p l = Ok v <->
  v = mkValidated p /\ summary_present p /\ summary_fits p l /\ enough_options p l /\
  few_options p l /\ labels_fit p l.
Proof.
  unfold validate_payload, summary_present, summary_fits, enough_options, few_options, labels_fit.
  rewrite <- check_labels_None.
  destruct (all_whitespace _); [naive_solver|].
  repeat (case_match; rewrite ?Nat.ltb_lt, ?Nat.ltb_ge in *;
          try (split; [done|intros (_ & _ & ? & ? & ? & ?); first [lia|congruence]])).
  split; [intros [= <-]; by repeat split|by intros [-> _]].
Qed.

(** ** Failure summaries *)

Lemma chars_take_min n s : chars_count (chars_take n s) = (n `min` chars_count s)%nat.
Proof.
  revert n. induction s as [|c s IH]; intros n; simpl; [lia|].
  destruct (is_cont c) eqn:E; simpl; [rewrite E; apply IH|].
  destruct n as [|n]; simpl; [done|]. by rewrite E, IH.
Qed.

Lemma chars_take_0 s c : is_cont c = false -> chars_take 0 (String c s) = "".
Proof. intros E. simpl. by rewrite E. Qed.

Lemma failure_header_chars run wf st :
  exists rest, failure_header run wf st = String "R" rest /\ is_cont "R" = false.
Proof. unfold failure_header. destruct (String.eqb st _); eexists; by split. Qed.

Lemma all_whitespace_R s : all_whitespace (String "R" s) = false.
Proof. by destruct s as [|? [|? ?]]. Qed.

Lemma failure_node_line_head nodes :
  exists c rest, failure_node_line nodes = String c rest /\ is_cont c = false.
Proof. destruct nodes as [|? [|??]]; do 2 eexists; by split. Qed.

Lemma failure_summary_cases header c rest max :
  is_cont c = false ->
  let node_line := String c rest in
  let h := chars_count header in
  failure_summary header node_line max =
    if (h + chars_count node_line <=? max)%nat then header +:+ node_line
    else if (h + 12 <=? max)%nat
    then header +:+ (chars_take (max - h - 12) node_line +:+ TRUNCATION_MARKER)
    else chars_take max (header +:+ TRUNCATION_MARKER).
Proof.
  intros Hc node_line h. unfold failure_summary. fold h.
  change (chars_count TRUNCATION_MARKER) with 12%nat.
  assert (1 <= chars_count node_line)%nat by (simpl; rewrite Hc; lia).
  destruct (Nat.leb_spec (h + chars_count node_line) max).
  { rewrite (proj2 (Nat.leb_le (chars_count node_line) (max - h))) by lia.
    rewrite chars_count_app. fold h. by rewrite (proj2 (Nat.ltb_ge _ _)) by lia. }
  rewrite (proj2 (Nat.leb_gt (chars_count node_line) (max - h))) by lia.
  rewrite !chars_count_app. fold h. rewrite chars_take_min.
  change (chars_count TRUNCATION_MARKER) with 12%nat.
  destruct (Nat.leb_spec (h + 12) max).
  - by rewrite (proj2 (Nat.ltb_ge _ _)) by lia.
  - replace (max - h - 12)%nat with 0%nat by lia.
    rewrite (proj2 (Nat.ltb_lt _ _)) by (simpl; lia).
    unfold node_line. by rewrite (chars_take_0 _ _ Hc).
Qed.

Lemma failure_summary_fits header node_line max :
  (chars_count (failure_summary header node_line max) <= max)%nat.
Proof.
  unfold failure_summary. case_match eqn:E; [apply chars_take_count|].
  by apply Nat.ltb_ge in E.
Qed.

Lemma failure_summary_prefix header node_line max c rest :
  header = String c rest -> is_cont c = false -> (1 <= max)%nat ->
  exists rest', failure_summary header node_line max = String c rest'.
Proof.
  intros -> Hc Hm. unfold failure_summary.
  case_match; [|by eexists]. destruct max as [|max]; [lia|].
  eexists. change (?a +:+ ?b) with (String.append a b). simpl. by rewrite Hc.
Qed.

(** ** Properties *)

(** The stored digest binds a payload to what was rendered.  Take a payload
    built by [new] and any later state of it that still carries the same
    digest: if the summary and the options are the ones it was built with,
    [digest_matches] holds; and if it holds, either they are, or SHA-256 gave
    two different inputs the same output.  The gate id plays no part. *)
Theorem digest_binds (sha256_hex : string -> string) gate s opts p :
  rendered_fits s opts -> rendered_fits (rendered_summary p) (options p) ->
  digest p = digest (OperatorPayload_new sha256_hex gate s opts) ->
  (rendered_summary p = s /\ options p = opts -> digest_matches sha256_hex p = true) /\
  (digest_matches sha256_hex p = true ->
   (rendered_summary p = s /\ options p = opts) \/
   exists x y, x <> y /\ sha256_hex x = sha256_hex y).
Proof.
  intros H H' Hd. unfold digest_matches, recomputed_digest.
  rewrite String.eqb_eq, Hd. simpl. unfold digest_of. split; [by intros [-> ->]|].
  intros E. destruct (decide (digest_input s opts = digest_input (rendered_summary p) (options p)))
    as [Ei|Hne]; [left|right; eauto].
  apply digest_input_inj in Ei as [-> ->]; done.
Qed.

(** [validate] accepts exactly the payloads that have a visible summary of
    at most [max_summary_chars] characters, between [min_options] and
    [max_options] options, and no label over [max_label_chars], and returns
    them unchanged.  Otherwise it reports the first demand that fails, in the
    documented order, with the counts that failed it; for labels, the first
    label that is too long. *)
Theorem validate_payload_spec p l :
  match validate_payload p l with
  | Ok v => into_payload v = p /\ summary_present p /\ summary_fits p l /\
            enough_options p l /\ few_options p l /\ labels_fit p l
  | Err MissingRenderedSummary => ~ summary_present p
  | Err (RenderedSummaryTooLong n m) =>
      summary_present p /\ ~ summary_fits p l /\
      n = chars_count (rendered_summary p) /\ m = max_summary_chars l
  | Err (TooFewOptions n m) =>
      summary_present p /\ summary_fits p l /\ ~ enough_options p l /\
      n = length (options p) /\ m = min_options l
  | Err (TooManyOptions n m) =>
      summary_present p /\ summary_fits p l /\ enough_options p l /\ ~ few_options p l /\
      n = length (options p) /\ m = max_options l
  | Err (OptionLabelTooLong k n m) =>
      summary_present p /\ summary_fits p l /\ enough_options p l /\ few_options p l /\
      m = max_label_chars l /\ (m < n)%nat /\
      exists pre o post, options p = pre ++ o :: post /\
        k = opt_key o /\ n = chars_count (opt_label o) /\
        Forall (fun o => (chars_count (opt_label o) <= m)%nat) pre
  end.
Proof.
  unfold validate_payload, summary_present, summary_fits, enough_options, few_options, labels_fit.
  destruct (all_whitespace _) eqn:Ew; [congruence|].
  destruct (Nat.ltb_spec (max_summary_chars l) (chars_count (rendered_summary p)));
    [repeat split; lia|].
  destruct (Nat.ltb_spec (length (options p)) (min_options l)); [repeat split; lia|].
  destruct (Nat.ltb_spec (max_options l) (length (options p))); [repeat split; lia|].
  destruct (check_labels _ _) as [e|] eqn:El.
  - apply check_labels_Some in El as (pre & o & post & E & -> & Hlt & Hpre).
    repeat split; try lia. by exists pre, o, post.
  - apply check_labels_None in El. by repeat split.
Qed.

(** A failed run always yields a payload: with limits that admit two
    options, an 11-character label and at least one character of summary,
    rendering succeeds whatever the ids, the errors and their lengths.  The
    summary is the header and the node line when they fit; when they do not
    and the header leaves room for the marker, the node line is cut and the
    marker ends the summary, which is exactly as long as allowed; when the
    header leaves no room, the header itself (with the marker) is cut, so the
    summary need not end with the marker. *)
Theorem render_failure_spec (sha256_hex : string -> string) gate run wf st nodes l :
  (min_options l <= 2 <= max_options l)%nat -> (11 <= max_label_chars l)%nat ->
  (1 <= max_summary_chars l)%nat ->
  let header := failure_header run wf st in
  let node_line := failure_node_line nodes in
  let max := max_summary_chars l in
  let h := chars_count header in
  exists summary,
    render_failure_payload sha256_hex gate run wf st nodes l =
      Ok (mkValidated (OperatorPayload_new sha256_hex gate summary failure_options)) /\
    (chars_count summary <= max)%nat /\
    ((h + chars_count node_line <= max)%nat -> summary = header +:+ node_line) /\
    ((max < h + chars_count node_line)%nat -> (h + 12 <= max)%nat ->
      summary = header +:+ (chars_take (max - h - 12) node_line +:+ TRUNCATION_MARKER) /\
      chars_count summary = max) /\
    ((max < h + chars_count node_line)%nat -> (max < h + 12)%nat ->
      summary = chars_take max (header +:+ TRUNCATION_MARKER)).
Proof.
  intros Ho Hl Hm header node_line max h.
  exists (failure_summary header node_line max).
  destruct (failure_header_chars run wf st) as (rest & Eh & Hc).
  destruct (failure_node_line_head nodes) as (c & nrest & En & Hcn).
  split_and!.
  - unfold render_failure_payload. apply validate_payload_Ok. split; [done|].
    unfold summary_present, summary_fits, enough_options, few_options, labels_fit.
    cbn [OperatorPayload_new rendered_summary options]. split_and!; [| | |simpl; lia|].
    + destruct (failure_summary_prefix _ node_line _ _ _ Eh Hc Hm) as [r Hr].
      change (all_whitespace (failure_summary header node_line max) = false).
      unfold header, node_line, max in *. rewrite Hr. apply all_whitespace_R.
    + apply failure_summary_fits.
    + simpl; lia.
    + repeat constructor; simpl; lia.
  - apply failure_summary_fits.
  - unfold node_line. rewrite En. rewrite failure_summary_cases by done. intros H.
    fold h. by rewrite (proj2 (Nat.leb_le _ _) H).
  - unfold node_line. rewrite En. rewrite failure_summary_cases by done. fold h. intros H1 H2.
    rewrite (proj2 (Nat.leb_gt _ _) H1), (proj2 (Nat.leb_le _ _) H2). split; [done|].
    rewrite !chars_count_app, chars_take_min. fold h.
    change (chars_count TRUNCATION_MARKER) with 12%nat. lia.
  - unfold node_line. rewrite En. rewrite failure_summary_cases by done. fold h. intros H1 H2.
    by rewrite (proj2 (Nat.leb_gt _ _) H1), (proj2 (Nat.leb_gt _ _) H2).
Qed.

(** ** Witnesses *)

Module OperatorModel.
(** A hash that is the identity, so that no collision exists. *)
Definition sha (s : string) : string := s.
Definition opts : list OperatorResponseOption := [mkOption "approve" "Approve"; mkOption "reject" "Reject"].
Definition built : OperatorPayload := OperatorPayload_new sha "gate-1" "original" opts.
Definition mutated : OperatorPayload :=
  mkOperatorPayload "gate-1" "mutated" opts (digest built).
Definition tight : OperatorPayloadLimits := mkLimits 3 2 20 40.
End OperatorModel.

Lemma digest_binds_witness :
  digest_matches OperatorModel.sha OperatorModel.built = true /\
  digest_matches OperatorModel.sha OperatorModel.mutated = false.
Proof.
  assert (H : forall s, String.eqb s "original" || String.eqb s "mutated" = true ->
              rendered_fits s OperatorModel.opts).
  { intros s Hs. apply orb_true_iff in Hs as [->%String.eqb_eq | ->%String.eqb_eq];
      unfold rendered_fits, str_fits, u64_ok; simpl; split_and!; try done;
      repeat constructor; simpl; done. }
  split.
  - apply (digest_binds OperatorModel.sha "gate-1" "original" OperatorModel.opts OperatorModel.built);
      [by apply H|by apply H|reflexivity|by split].
  - destruct (digest_matches _ _) eqn:E; [|done]. exfalso.
    destruct (digest_binds OperatorModel.sha "gate-1" "original" OperatorModel.opts
                OperatorModel.mutated) as [_ Hm]; [by apply H|by apply H|reflexivity|].
    destruct (Hm E) as [[? _]|(x & y & Hxy & ?)]; done.
Defined.

Lemma render_failure_spec_witness :
  exists summary,
    render_failure_payload OperatorModel.sha "g" "run-7" "wf" "failed"
      [mkFailedNode "FetchNode" "connection refused"] OperatorModel.tight =
      Ok (mkValidated (OperatorPayload_new OperatorModel.sha "g" summary failure_options)) /\
    chars_count summary = 40%nat.
Proof.
  destruct (render_failure_spec OperatorModel.sha "g" "run-7" "wf" "failed"
              [mkFailedNode "FetchNode" "connection refused"] OperatorModel.tight)
    as (s & H & _ & _ & _ & Hs); [simpl; lia|simpl; lia|simpl; lia|].
  exists s. split; [exact H|].
  rewrite Hs; [reflexivity|vm_compute; lia|vm_compute; lia].
Defined.
