(* ===== verification/OperatorQueue.v ===== *)
(** * The operator queue

    - items and their order: crates/engine-core/src/operator/queue/item.rs
    - [OperatorQueue]: crates/engine-core/src/operator/queue/mod.rs
    - [QueueDigest]: crates/engine-core/src/operator/queue/digest.rs

    Instants are nanoseconds, as in file Json.  The level predicate is a Rust
    closure that may read anything; what it reads is the argument [w] of
    [next_deliverable], so the same item may pass in one call and fail in the
    next.  [chrono]'s limits on the size of a duration are not modelled. *)

From S2P Require Import Prelude Json Policy Utf8 Operator.

Local Open Scope string_scope.
Local Open Scope list_scope.

(** ** Items *)

Inductive ItemSource := BlockedEdge | GateApproval.

#[export] Instance ItemSource_eq_dec : EqDecision ItemSource.
Proof. solve_decision. Defined.

Record OperatorQueueItem := mkItem {
  item_id : string;
  payload : OperatorPayload;
  effective_priority : Z;
  enqueued_at : instant;
  source : ItemSource
}.

#[export] Instance OperatorQueueItem_eq_dec : EqDecision OperatorQueueItem.
Proof. solve_decision. Defined.

(** [Ordering::then_with] *)
Definition then_with (c d : comparison) : comparison := match c with Eq => d | _ => c end.

Definition compare_items (a b : OperatorQueueItem) : comparison :=
  then_with (then_with (Z.compare (effective_priority b) (effective_priority a))
                       (Z.compare (enqueued_at a) (enqueued_at b)))
            (String.compare (item_id a) (item_id b)).

(** ** The queue *)

Record OpenItem := mkOpenItem { open_of : OperatorQueueItem; opened_at : instant }.

(** [chrono::Duration::seconds] in nanoseconds. *)
Definition seconds (s : Z) : Z := s * 1000000000.

Section Queue.
Context {W : Type}.

Record OperatorQueue := mkQueue {
  pending : list OperatorQueueItem;
  opened : list OpenItem;
  policy : OperatorQueuePolicy;
  level_predicate : W -> OperatorQueueItem -> bool
}.

Definition OperatorQueue_new (p : OperatorQueuePolicy) : OperatorQueue :=
  mkQueue [] [] p (fun _ _ => true).

Definition with_level_predicate (self : OperatorQueue) (predicate : W -> OperatorQueueItem -> bool)
  : OperatorQueue :=
  mkQueue (pending self) (opened self) (policy self) predicate.

Definition open_count (self : OperatorQueue) : nat := length (opened self).
Definition pending_count (self : OperatorQueue) : nat := length (pending self).

Definition enqueue (self : OperatorQueue) (item : OperatorQueueItem) : OperatorQueue :=
  mkQueue (pending self ++ [item]) (opened self) (policy self) (level_predicate self).

Definition timed_out (p : OperatorQueuePolicy) (now : instant) (o : OpenItem) : bool :=
  (seconds (Z.max (answer_timeout_secs p) 0) <=? now - opened_at o)%Z.

(** The [drain] loop: each open item goes to the end of one of two vectors. *)
Fixpoint release_loop (p : OperatorQueuePolicy) (now : instant) (os still : list OpenItem)
    (pend : list OperatorQueueItem) : list OperatorQueueItem * list OpenItem :=
  match os with
  | [] => (pend, still)
  | o :: os =>
      if timed_out p now o then release_loop p now os still (pend ++ [open_of o])
      else release_loop p now os (still ++ [o]) pend
  end.

Definition release_timed_out (self : OperatorQueue) (now : instant) : OperatorQueue :=
  let '(pend, still) := release_loop (policy self) now (opened self) [] (pending self) in
  mkQueue pend still (policy self) (level_predicate self).

Definition drop_stale (w : W) (self : OperatorQueue) : OperatorQueue :=
  mkQueue (filter (fun item => level_predicate self w item = true) (pending self))
    (opened self) (policy self) (level_predicate self).

Definition next_deliverable (w : W) (self : OperatorQueue) (now : instant)
  : option OperatorQueueItem * OperatorQueue :=
  let self := release_timed_out self now in
  let self := drop_stale w self in
  let depth := Z.to_nat (operator_queue_depth (policy self)) in
  if (depth <=? length (opened self))%nat || (length (pending self) =? 0)%nat
  then (None, self)
  else
    match sort_by compare_items (pending self) with
    | [] => (None, self)
    | item :: rest =>
        (Some item,
         mkQueue rest (opened self ++ [mkOpenItem item now]) (policy self) (level_predicate self))
    end.

Definition has_id (id : string) (o : OpenItem) : bool := String.eqb (item_id (open_of o)) id.

Definition answer (self : OperatorQueue) (id : string) : bool * OperatorQueue :=
  let before := length (opened self) in
  let kept := filter (fun o => has_id id o = false) (opened self) in
  (negb (length kept =? before)%nat,
   mkQueue (pending self) kept (policy self) (level_predicate self)).

Definition open_item (self : OperatorQueue) (id : string) : option (OperatorQueueItem * instant) :=
  (fun o => (open_of o, opened_at o)) <$> List.find (has_id id) (opened self).
End Queue.
Arguments OperatorQueue : clear implicits.

(** ** Digests *)

Record QueueDigest := mkQueueDigest {
  top : OperatorQueueItem;
  total_count : nat;
  generated_at : instant
}.

(** [Iterator::min_by]: the first of the least elements. *)
Definition min_by {A} (cmp : A -> A -> comparison) (l : list A) : option A :=
  match l with
  | [] => None
  | x :: l => Some (foldl (fun a b => match cmp a b with Gt => b | _ => a end) x l)
  end.

Definition build_digest (items : list OperatorQueueItem) (now : instant) : option QueueDigest :=
  (fun t => mkQueueDigest t (length items) now) <$> min_by compare_items items.

Definition in_window (secs : Z) (now : instant) (item : OperatorQueueItem) : bool :=
  let age := (now - enqueued_at item)%Z in
  ((0 <=? age) && (age <=? seconds (Z.max secs 0)))%Z.

Definition storm_digest (items : list OperatorQueueItem) (suppression_window_secs : Z) (now : instant)
  : option QueueDigest :=
  build_digest (filter (fun item => in_window suppression_window_secs now item = true) items) now.

(** ** The order *)

Lemma then_with_flip c d c' d' :
  c' = CompOpp c -> d' = CompOpp d -> then_with c' d' = CompOpp (then_with c d).
Proof. by intros -> ->; destruct c. Qed.

Lemma compare_items_Eq a b :
  compare_items a b = Eq <->
  effective_priority a = effective_priority b /\ enqueued_at a = enqueued_at b /\
  item_id a = item_id b.
Proof.
  unfold compare_items, then_with.
  destruct (Z.compare_spec (effective_priority b) (effective_priority a));
    [|split; [done|lia]..].
  destruct (Z.compare_spec (enqueued_at a) (enqueued_at b)); [|split; [done|lia]..].
  rewrite string_compare_eq. naive_solver.
Qed.

Lemma compare_items_le a b :
  cmp_le compare_items a b <->
  (effective_priority b < effective_priority a)%Z \/
  effective_priority a = effective_priority b /\
    ((enqueued_at a < enqueued_at b)%Z \/
     enqueued_at a = enqueued_at b /\ cmp_le String.compare (item_id a) (item_id b)).
Proof.
  unfold cmp_le, compare_items, then_with.
  destruct (Z.compare_spec (effective_priority b) (effective_priority a)) as [E|E|E];
    destruct (Z.compare_spec (enqueued_at a) (enqueued_at b)) as [F|F|F];
    destruct (String.compare (item_id a) (item_id b)); naive_solver lia.
Qed.

#[export] Instance compare_items_total : TotalCmp compare_items.
Proof.
  constructor.
  - intros x y. unfold compare_items.
    repeat apply then_with_flip; [apply Z.compare_antisym..|apply (cmp_flip String.compare)].
  - intros x y z. change (cmp_le compare_items x y -> cmp_le compare_items y z ->
                          cmp_le compare_items x z).
    rewrite !compare_items_le.
    assert (H : cmp_le String.compare (item_id x) (item_id y) ->
            cmp_le String.compare (item_id y) (item_id z) ->
            cmp_le String.compare (item_id x) (item_id z)) by apply (cmp_trans String.compare).
    naive_solver lia.
Qed.

(** ** [min_by] is the head of the stable sort *)

Section MinBy.
Context {A : Type} (cmp : A -> A -> comparison) `{!TotalCmp cmp}.

Definition pick (a b : A) : A := match cmp a b with Gt => b | _ => a end.

Lemma head_insert_by x l :
  head (insert_by cmp x l) = Some (match head l with Some y => pick x y | None => x end).
Proof. destruct l as [|y l]; simpl; [done|]. unfold pick. by destruct (cmp x y). Qed.

Lemma pick_assoc a b c : pick (pick a b) c = pick a (pick b c).
Proof.
  unfold pick.
  pose proof (cmp_trans cmp a b c). pose proof (cmp_trans cmp c b a).
  pose proof (cmp_trans cmp b a c). pose proof (cmp_trans cmp a c b).
  pose proof (cmp_flip cmp a b). pose proof (cmp_flip cmp b c). pose proof (cmp_flip cmp a c).
  destruct (cmp a b) eqn:Eab, (cmp b c) eqn:Ebc; simpl in *; rewrite ?Eab, ?Ebc;
    try done; destruct (cmp a c) eqn:Eac; simpl in *; naive_solver congruence.
Qed.

Lemma foldl_pick x y l : foldl pick (pick x y) l = pick x (foldl pick y l).
Proof. revert y. induction l as [|z l IH]; intros y; simpl; [done|]. by rewrite pick_assoc, IH. Qed.

Lemma min_by_head l : min_by cmp l = head (sort_by cmp l).
Proof.
  destruct l as [|x l]; [done|]. simpl. rewrite head_insert_by. f_equal.
  change (foldl pick x l = match head (sort_by cmp l) with Some y => pick x y | None => x end).
  revert x. induction l as [|y l IH]; intros x; [done|]. cbn [foldl sort_by foldr].
  change (foldr (insert_by cmp) [] l) with (sort_by cmp l).
  rewrite head_insert_by, foldl_pick, IH. done.
Qed.
End MinBy.

(** ** Operations *)

Section QueueFacts.
Context {W : Type}.
Implicit Types q : OperatorQueue W.

Lemma release_loop_spec p now os still pend :
  release_loop p now os still pend =
    (pend ++ (open_of <$> filter (fun o => timed_out p now o = true) os),
     still ++ filter (fun o => timed_out p now o = false) os).
Proof.
  revert still pend. induction os as [|o os IH]; intros still pend; simpl.
  { by rewrite !app_nil_r. }
  destruct (timed_out p now o) eqn:E; rewrite IH.
  - rewrite (filter_cons_True _ o) by done. rewrite (filter_cons_False _ o) by congruence.
    by rewrite fmap_cons, <- app_assoc.
  - rewrite (filter_cons_False _ o) by congruence. rewrite (filter_cons_True _ o) by done.
    by rewrite <- app_assoc.
Qed.

(** The items a call has to choose from: those that are still valid among
    the pending ones and the ones whose time has run out. *)
Definition waiting q (now : instant) : list OperatorQueueItem :=
  pending q ++ (open_of <$> filter (fun o => timed_out (policy q) now o = true) (opened q)).
Definition candidates (w : W) q now : list OperatorQueueItem :=
  filter (fun i => level_predicate q w i = true) (waiting q now).
Definition stale (w : W) q now : list OperatorQueueItem :=
  filter (fun i => level_predicate q w i = false) (waiting q now).
Definition still_open q (now : instant) : list OpenItem :=
  filter (fun o => timed_out (policy q) now o = false) (opened q).

Lemma released_stale w q now :
  drop_stale w (release_timed_out q now) =
    mkQueue (candidates w q now) (still_open q now) (policy q) (level_predicate q).
Proof. unfold release_timed_out. by rewrite release_loop_spec. Qed.

Definition depth q : nat := Z.to_nat (operator_queue_depth (policy q)).

Lemma next_deliverable_cases w q now :
  (((depth q <= length (still_open q now))%nat \/ candidates w q now = []) /\
   next_deliverable w q now =
     (None, mkQueue (candidates w q now) (still_open q now) (policy q) (level_predicate q))) \/
  exists i rest,
    (length (still_open q now) < depth q)%nat /\
    sort_by compare_items (candidates w q now) = i :: rest /\
    next_deliverable w q now =
      (Some i, mkQueue rest (still_open q now ++ [mkOpenItem i now]) (policy q) (level_predicate q)).
Proof.
  unfold next_deliverable. rewrite released_stale. cbn [policy opened pending level_predicate].
  fold (depth q).
  destruct (Nat.leb_spec (depth q) (length (still_open q now))); [left; by eauto|].
  destruct (candidates w q now) as [|c cs] eqn:Ec; [left; by eauto|].
  destruct (sort_by compare_items (c :: cs)) as [|i rest] eqn:Es.
  { by apply sort_by_nil in Es. }
  right. exists i, rest. split; [done|]. split; [done|]. done.
Qed.

Lemma filter_partition {A} (f : A -> bool) (l : list A) :
  filter (fun x => f x = true) l ++ filter (fun x => f x = false) l ≡ₚ l.
Proof.
  induction l as [|x l IH]; [done|]. destruct (f x) eqn:E.
  - rewrite (filter_cons_True _ x), (filter_cons_False _ x) by congruence. simpl. by rewrite IH.
  - rewrite (filter_cons_False _ x), (filter_cons_True _ x) by congruence.
    rewrite <- Permutation_middle. by rewrite IH.
Qed.

Definition open_items q : list OperatorQueueItem := open_of <$> opened q.

(** One call moves items about and loses only the stale ones. *)
Lemma next_deliverable_perm w q now :
  pending q ++ open_items q ≡ₚ
  pending (next_deliverable w q now).2 ++ open_items (next_deliverable w q now).2 ++ stale w q now.
Proof.
  assert (H : pending q ++ open_items q ≡ₚ
              candidates w q now ++ (open_of <$> still_open q now) ++ stale w q now).
  { rewrite (Permutation_app_comm (open_of <$> _)), app_assoc.
    unfold candidates, stale. rewrite filter_partition. unfold waiting, still_open, open_items.
    rewrite <- app_assoc, <- fmap_app. by rewrite filter_partition. }
  destruct (next_deliverable_cases w q now) as [[_ ->]|(i & rest & _ & Es & ->)]; [done|].
  rewrite H. unfold open_items. simpl. rewrite fmap_app. simpl.
  rewrite <- (sort_by_perm compare_items (candidates w q now)), Es. simpl.
  rewrite <- (app_assoc (_ <$> _)). simpl. by rewrite <- !Permutation_middle.
Qed.
End QueueFacts.

(** ** Histories *)

Section Histories.
Context {W : Type}.
Implicit Types q : OperatorQueue W.

(** What a client does to a queue. *)
Inductive QueueOp :=
| Enqueue (item : OperatorQueueItem)
| Next (w : W) (now : instant)
| Answer (id : string).

Definition queue_step q (op : QueueOp) : OperatorQueue W :=
  match op with
  | Enqueue item => enqueue q item
  | Next w now => (next_deliverable w q now).2
  | Answer id => (answer q id).2
  end.
Definition queue_run q (ops : list QueueOp) : OperatorQueue W := foldl queue_step q ops.

(** The items that entered, were answered, and were dropped. *)
Definition op_entered (op : QueueOp) : list OperatorQueueItem :=
  match op with Enqueue item => [item] | _ => [] end.
Definition op_answered q (op : QueueOp) : list OperatorQueueItem :=
  match op with Answer id => open_of <$> filter (fun o => has_id id o = true) (opened q) | _ => [] end.
Definition op_dropped q (op : QueueOp) : list OperatorQueueItem :=
  match op with Next w now => stale w q now | _ => [] end.

Fixpoint run_collect (f : OperatorQueue W -> QueueOp -> list OperatorQueueItem) q
    (ops : list QueueOp) : list OperatorQueueItem :=
  match ops with
  | [] => []
  | op :: ops => f q op ++ run_collect f (queue_step q op) ops
  end.

Lemma queue_step_policy q op : policy (queue_step q op) = policy q.
Proof.
  destruct op as [?|w now|?]; simpl; [done| |done].
  by destruct (next_deliverable_cases w q now) as [[_ ->]|(? & ? & _ & _ & ->)].
Qed.

Lemma queue_step_depth q op :
  (open_count q <= depth q)%nat -> (open_count (queue_step q op) <= depth q)%nat.
Proof.
  unfold open_count. intros H. destruct op as [?|w now|?]; simpl; [done| |].
  - assert (length (still_open q now) <= length (opened q))%nat by apply length_filter.
    destruct (next_deliverable_cases w q now) as [[_ ->]|(? & ? & ? & _ & ->)]; simpl; [lia|].
    rewrite length_app. simpl. lia.
  - etrans; [apply length_filter|done].
Qed.

Lemma queue_step_perm q op :
  op_entered op ++ pending q ++ open_items q ≡ₚ
  pending (queue_step q op) ++ open_items (queue_step q op) ++
    op_answered q op ++ op_dropped q op.
Proof.
  destruct op as [i|w now|id]; simpl.
  - rewrite app_nil_r. change (open_items (enqueue q i)) with (open_items q).
    rewrite <- app_assoc. simpl. by rewrite <- Permutation_middle.
  - apply next_deliverable_perm.
  - rewrite app_nil_r. f_equiv. unfold open_items. simpl. rewrite <- fmap_app.
    rewrite (Permutation_app_comm (filter _ _)). by rewrite filter_partition.
Qed.

Lemma queue_run_perm q ops :
  (ops ≫= op_entered) ++ pending q ++ open_items q ≡ₚ
  pending (queue_run q ops) ++ open_items (queue_run q ops) ++
    run_collect op_answered q ops ++ run_collect op_dropped q ops.
Proof.
  revert q. induction ops as [|op ops IH]; intros q; [simpl; by rewrite app_nil_r|].
  rewrite bind_cons. cbn [run_collect].
  pose proof (queue_step_perm q op) as Hop. specialize (IH (queue_step q op)).
  change (queue_run q (op :: ops)) with (queue_run (queue_step q op) ops).
  rewrite (Permutation_app_comm (op_entered op)), <- app_assoc, Hop.
  rewrite (app_assoc (pending (queue_step q op))), (app_assoc (ops ≫= op_entered)), IH.
  rewrite <- !app_assoc. do 2 f_equiv. solve_Permutation.
Qed.
End Histories.

(** ** Properties *)

(** [next_deliverable].  Items whose answer timed out compete again; items
    whose predicate no longer holds are dropped.  If the items still open fill
    the depth, or nothing is left, the call delivers nothing.  Otherwise it
    delivers an item that no remaining item precedes: highest priority, then
    oldest, then least id; that item alone moves from pending to open. *)
Theorem next_deliverable_spec {W} (w : W) (q : OperatorQueue W) now :
  let '(r, q') := next_deliverable w q now in
  match r with
  | None =>
      ((depth q <= length (still_open q now))%nat \/ candidates w q now = []) /\
      pending q' = candidates w q now /\ opened q' = still_open q now
  | Some i =>
      (length (still_open q now) < depth q)%nat /\
      i ∈ candidates w q now /\
      (forall j, j ∈ candidates w q now ->
         (effective_priority j < effective_priority i)%Z \/
         effective_priority i = effective_priority j /\
           ((enqueued_at i < enqueued_at j)%Z \/
            enqueued_at i = enqueued_at j /\ String.compare (item_id i) (item_id j) <> Gt)) /\
      i :: pending q' ≡ₚ candidates w q now /\
      opened q' = still_open q now ++ [mkOpenItem i now]
  end.
Proof.
  destruct (next_deliverable_cases w q now) as [[H ->]|(i & rest & H & Es & ->)]; [done|].
  destruct (sort_by_head compare_items _ _ _ Es) as [Hi Hmin].
  split_and!; [done|done| | |done].
  - intros j Hj. by apply compare_items_le, Hmin.
  - simpl. rewrite <- Es. apply sort_by_perm.
Qed.

(** C35: over any history of a new queue, at most [operator_queue_depth] items
    are open, and nothing is lost: every item that was enqueued is pending,
    open, answered, or was dropped by a call at which its predicate was
    false — each exactly as often as it was enqueued. *)
Theorem queue_history {W} p (f : W -> OperatorQueueItem -> bool) (ops : list (@QueueOp W)) :
  let q0 := with_level_predicate (OperatorQueue_new p) f in
  let q := queue_run q0 ops in
  (open_count q <= Z.to_nat (operator_queue_depth p))%nat /\
  ops ≫= op_entered ≡ₚ
    pending q ++ open_items q ++ run_collect op_answered q0 ops ++ run_collect op_dropped q0 ops.
Proof.
  intros q0 q. split.
  - assert (H : forall q, (open_count q <= depth q)%nat ->
        (open_count (queue_run q ops) <= depth q)%nat).
    { clear. induction ops as [|op ops IH]; intros q Hq; [done|].
      unfold depth in *. rewrite <- (queue_step_policy q op). apply IH.
      rewrite queue_step_policy. by apply queue_step_depth. }
    apply (H q0). simpl. unfold open_count. simpl. lia.
  - pose proof (queue_run_perm q0 ops) as H. simpl in H. by rewrite app_nil_r in H.
Qed.

(** An unanswered item cannot wedge the queue.  With a positive depth, once
    every open item has been open for the timeout, the next call delivers
    something as soon as one waiting item is still valid. *)
Theorem queue_never_wedges {W} (w : W) (q : OperatorQueue W) now i :
  (0 < operator_queue_depth (policy q))%Z ->
  Forall (fun o => (seconds (Z.max (answer_timeout_secs (policy q)) 0) <= now - opened_at o)%Z)
    (opened q) ->
  i ∈ pending q ++ open_items q -> level_predicate q w i = true ->
  is_Some (next_deliverable w q now).1.
Proof.
  intros Hd Hall Hi Hp.
  assert (Hto : forall o, o ∈ opened q -> timed_out (policy q) now o = true).
  { intros o Ho. rewrite Forall_forall in Hall. apply Z.leb_le. by apply Hall. }
  assert (still_open q now = []) as Hs.
  { apply elem_of_nil_inv. intros o [Hf Ho]%list_elem_of_filter. by rewrite Hto in Hf. }
  assert (i ∈ candidates w q now) as Hc.
  { apply list_elem_of_filter. split; [done|]. unfold waiting.
    apply elem_of_app in Hi as [Hi|Hi]; apply elem_of_app; [by left|right].
    apply list_elem_of_fmap in Hi as (o & -> & Ho). apply list_elem_of_fmap.
    exists o. split; [done|]. apply list_elem_of_filter. auto. }
  destruct (next_deliverable_cases w q now) as [[[H|H] _]|(? & ? & _ & _ & ->)]; [| |done].
  - rewrite Hs in H. simpl in H. unfold depth in H. lia.
  - rewrite H in Hc. by apply elem_of_nil in Hc.
Qed.

(** [answer id] closes every open item with that id and no other, reports
    whether there was one, and afterwards no item with that id is open. *)
Theorem answer_spec {W} (q : OperatorQueue W) id :
  let '(b, q') := answer q id in
  (b = true <-> is_Some (open_item q id)) /\
  open_item q' id = None /\
  (forall id', id' <> id -> open_item q' id' = open_item q id') /\
  pending q' = pending q.
Proof.
  unfold answer, open_item. simpl. split_and!; [| | |done].
  - rewrite negb_true_iff, Nat.eqb_neq, fmap_is_Some.
    induction (opened q) as [|o os IH]; simpl; [split; [done|by intros [? ?]]|].
    destruct (has_id id o) eqn:E.
    + rewrite filter_cons_False by congruence. split; [eauto|]. intros _.
      pose proof (length_filter (fun o => has_id id o = false) os). lia.
    + rewrite filter_cons_True by done. simpl. rewrite <- IH. lia.
  - induction (opened q) as [|o os IH]; [done|]. rewrite filter_cons.
    case_decide as E; [|done]. simpl. by rewrite E.
  - intros id' Hne. f_equal. induction (opened q) as [|o os IH]; [done|]. rewrite filter_cons.
    case_decide as E; simpl; [by destruct (has_id id' o)|].
    destruct (has_id id' o) eqn:E'; [|done]. exfalso. apply Hne.
    unfold has_id in *. apply String.eqb_eq in E' as <-.
    by destruct (String.eqb_spec (item_id (open_of o)) id).
Qed.

(** A digest announces the item the queue would deliver: its top is the
    head of the items in delivery order, no item precedes it, and it counts
    them all; there is a digest exactly when there is an item. *)
Theorem build_digest_spec items now :
  build_digest items now =
    (fun t => mkQueueDigest t (length items) now) <$> head (sort_by compare_items items) /\
  (build_digest items now = None <-> items = []) /\
  forall d, build_digest items now = Some d ->
    top d ∈ items /\ forall j, j ∈ items -> cmp_le compare_items (top d) j.
Proof.
  unfold build_digest. rewrite (min_by_head compare_items). split; [done|].
  destruct (sort_by compare_items items) as [|t rest] eqn:Es; simpl.
  - apply sort_by_nil in Es as ->. done.
  - split; [|intros d [= <-]; exact (sort_by_head compare_items _ _ _ Es)].
    split; [done|]. intros ->. done.
Qed.

(** Storm suppression folds in exactly the items enqueued at most
    [suppression_window_secs] before [now] and never one from the future; a
    window that is zero or negative keeps only those enqueued at [now]. *)
Theorem storm_digest_spec items secs now :
  storm_digest items secs now =
    build_digest (filter (fun i => (now - Z.max secs 0 * 1000000000 <= enqueued_at i <= now)%Z) items) now /\
  ((secs <= 0)%Z ->
   storm_digest items secs now = build_digest (filter (fun i => enqueued_at i = now) items) now).
Proof.
  unfold storm_digest, in_window, seconds.
  split; [|intros Hs]; f_equal; apply list_filter_iff; intros i;
    rewrite andb_true_iff, !Z.leb_le; lia.
Qed.

(** ** Witnesses *)

Module QueueModelItems.
Definition item (id : string) (prio : Z) : OperatorQueueItem :=
  mkItem id (mkOperatorPayload "gate" "summary" [] "d") prio 0%Z GateApproval.
(** One open item, unanswered for fifteen minutes, and one waiting. *)
Definition queue : OperatorQueue unit :=
  mkQueue [item "low" 1] [mkOpenItem (item "high" 5) 0%Z] OperatorQueuePolicy_default (fun _ _ => true).
End QueueModelItems.

Lemma queue_never_wedges_witness :
  is_Some (next_deliverable () QueueModelItems.queue (seconds 900)).1.
Proof.
  apply (queue_never_wedges () QueueModelItems.queue (seconds 900) (QueueModelItems.item "low" 1)).
  - done.
  - repeat constructor; simpl; done.
  - left.
  - reflexivity.
Defined.
