(* ===== verification/LiveState.v ===== *)
(** * The live run store

    crates/engine-serve/src/live_state.rs: the latest snapshot of every live
    run, a ring of the last completed ones, and the single place where the
    failure of a run is turned into an item of the operator's queue.

    A run id is its canonical text.  The store's maps have a lock each, so the
    unit of interleaving is a section under one lock ([Section_]); a call is a
    tree of them ([Call]), [mark_terminal] four in order, and [interleaved] runs
    any number of calls side by side.  A [HashMap]'s iteration order is [hm_keys]. *)

From stdpp Require Import gmap pretty.
From S2P Require Import Prelude Json Contract Markers Utf8 Policy Operator OperatorQueue.

Local Open Scope string_scope.
Local Open Scope list_scope.

Definition COMPLETED_RUN_RETENTION : nat := Z.to_nat 100.
Definition ORCHESTRATION_NODE_NAME : string := "OrchestrationRunNode".
Abbreviation RunId := string.

Section Live.
Context {X : Extern} {HO : HashOrder}.
(** [Uuid::parse_str], to the canonical text *)
Variable parse_str : string -> option RunId.
Variable sha256_hex : string -> string.

Record RunRecord := mkRunRecord {
  snapshot : TaskContext;
  workflow_type : string;
  created_at : instant;
  updated_at : instant;
  terminal : bool;
  campaign_id : option RunId
}.
Record CampaignRun := mkCampaignRun {
  cr_run_id : RunId;
  cr_snapshot : TaskContext;
  cr_workflow_type : option string;
  ordering_key : instant;
  cr_terminal : bool
}.
Record CampaignLookup := mkCampaignLookup { runs : list CampaignRun; possibly_truncated : bool }.

(** ** The ring *)

Record CompletedRing := mkRing { entries : gmap string RunRecord; order : list RunId }.
Definition CompletedRing_default : CompletedRing := mkRing ∅ [].

(** [while self.order.len() > COMPLETED_RUN_RETENTION] *)
Fixpoint evict (fuel : nat) (r : CompletedRing) : CompletedRing :=
  if (COMPLETED_RUN_RETENTION <? length (order r))%nat then
    match fuel, order r with
    | S fuel, oldest :: rest => evict fuel (mkRing (delete oldest (entries r)) rest)
    | _, _ => r
    end
  else r.
Definition ring_insert (run_id : RunId) (record : RunRecord) (r : CompletedRing) : CompletedRing :=
  let order := match entries r !! run_id with None => order r ++ [run_id] | Some _ => order r end in
  evict (length order) (mkRing (<[run_id := record]> (entries r)) order).

(** ** The store *)

Record LiveStateStore := mkStore {
  inner : gmap string (TaskContext * instant);
  completed : CompletedRing;
  operator_queue : OperatorQueue unit;
  alarmed_runs : gset string
}.
Definition LiveStateStore_default : LiveStateStore :=
  mkStore ∅ CompletedRing_default (OperatorQueue_new OperatorQueuePolicy_default) ∅.

Definition set_inner f (s : LiveStateStore) := mkStore (f (inner s)) (completed s) (operator_queue s) (alarmed_runs s).
Definition set_completed f (s : LiveStateStore) := mkStore (inner s) (f (completed s)) (operator_queue s) (alarmed_runs s).
Definition set_queue f (s : LiveStateStore) := mkStore (inner s) (completed s) (f (operator_queue s)) (alarmed_runs s).
Definition set_alarmed f (s : LiveStateStore) := mkStore (inner s) (completed s) (operator_queue s) (f (alarmed_runs s)).

Definition record (run_id : RunId) (snap : TaskContext) (now : instant) : LiveStateStore -> LiveStateStore :=
  set_inner <[run_id := (snap, now)]>.

(** [get] reads the live map, releases it, then reads the ring: [s1] and [s2]
    are the store at the two reads. *)
Definition get_between (s1 s2 : LiveStateStore) (run_id : RunId) : option TaskContext :=
  match inner s1 !! run_id with
  | Some (snap, _) => Some snap
  | None => snapshot <$> entries (completed s2) !! run_id
  end.
Definition get (s : LiveStateStore) (run_id : RunId) : option TaskContext := get_between s s run_id.
Definition get_record (s : LiveStateStore) (run_id : RunId) : option RunRecord := entries (completed s) !! run_id.

Definition parse_campaign_id_value (v : option value) : option RunId :=
  json ← v; s ← as_str json; parse_str s.
Definition read_campaign_id (snap : TaskContext) : option RunId :=
  match parse_campaign_id_value (jget (event snap) "campaign_id") with
  | Some id => Some id
  | None =>
      node ← nodes snap !! ORCHESTRATION_NODE_NAME;
      parse_campaign_id_value (jget node "campaign_id")
  end.

Definition live_in_campaign (campaign : RunId) (kv : string * (TaskContext * instant)) : option CampaignRun :=
  let '(run_id, (snap, recorded_at)) := kv in
  if bool_decide (read_campaign_id snap = Some campaign)
  then Some (mkCampaignRun run_id snap None recorded_at false) else None.
Definition completed_in_campaign (campaign : RunId) (kv : string * RunRecord) : option CampaignRun :=
  let '(run_id, r) := kv in
  if bool_decide (campaign_id r = Some campaign)
  then Some (mkCampaignRun run_id (snapshot r) (Some (workflow_type r)) (created_at r) true) else None.
(** The two maps are read one after the other. *)
Definition campaign_between (s1 s2 : LiveStateStore) (campaign : RunId) : CampaignLookup :=
  mkCampaignLookup
    (sort_by (fun a b => Z.compare (ordering_key a) (ordering_key b))
       (omap (live_in_campaign campaign) (hm_iter (inner s1))
        ++ omap (completed_in_campaign campaign) (hm_iter (entries (completed s2)))))
    (COMPLETED_RUN_RETENTION <=? length (order (completed s2)))%nat.
Definition list_campaign_runs (s : LiveStateStore) : RunId -> CampaignLookup := campaign_between s s.

Definition list_active (s : LiveStateStore) : list RunId := hm_keys (inner s).
Definition remove (run_id : RunId) (s : LiveStateStore) : option TaskContext * LiveStateStore :=
  (fst <$> inner s !! run_id, set_inner (delete run_id) s).
Definition list_live_records (s : LiveStateStore) : list (RunId * TaskContext * instant) :=
  map (fun '(run_id, (snap, updated_at)) => (run_id, snap, updated_at)) (hm_iter (inner s)).
Definition mark_alarmed (run_id : RunId) (s : LiveStateStore) : bool * LiveStateStore :=
  (bool_decide (run_id ∉ alarmed_runs s), set_alarmed (union {[run_id]}) s).

(** ** Failure notification *)

Definition collect_failed_nodes (snap : TaskContext) : list FailedNode :=
  map (fun '(name, run) => mkFailedNode name (default "unknown error" (error run)))
    (sort_by (fun a b => String.compare a.1 b.1)
       (List.filter (fun kv => bool_decide (status kv.2 = Failed)) (hm_iter (node_runs snap)))).

Definition failure_gate_id (run_id : RunId) : string := "run-failure:" +:+ run_id.
(** [PolicyConfigSource::Builtin] without a profile or an override resolves to
    the built-in policy. *)
Definition builtin_failure_policy : FailureNotifyPolicy :=
  resolve FailureNotifyPolicy_default None None None.
Definition maybe_enqueue_failure_notification (run_id : RunId) (snap : TaskContext) (workflow_type : string)
    (now : instant) (q : OperatorQueue unit) : OperatorQueue unit :=
  let terminal_status := derive_terminal_status snap in
  let policy := builtin_failure_policy in
  if negb (should_notify terminal_status policy) then q
  else
    match render_failure_payload sha256_hex (failure_gate_id run_id) run_id workflow_type terminal_status
            (collect_failed_nodes snap) OperatorPayloadLimits_default with
    | Err _ => q
    | Ok validated =>
        enqueue q (mkItem (failure_gate_id run_id) (into_payload validated)
                     (failure_item_priority policy) now GateApproval)
    end.

(** ** Sections *)

Inductive Section_ :=
| Record_ (run_id : RunId) (snap : TaskContext) (now : instant)
| Complete (run_id : RunId) (r : RunRecord)
| DropLive (run_id : RunId)
| ClearAlarm (run_id : RunId)
| Notify (run_id : RunId) (snap : TaskContext) (workflow_type : string) (now : instant)
| Remove_ (run_id : RunId)
| MarkAlarmed (run_id : RunId).
Definition enter (s : LiveStateStore) (o : Section_) : LiveStateStore :=
  match o with
  | Record_ run_id snap now => record run_id snap now s
  | Complete run_id r => set_completed (ring_insert run_id r) s
  | DropLive run_id => set_inner (delete run_id) s
  | ClearAlarm run_id => set_alarmed (fun a => a ∖ {[run_id]}) s
  | Notify run_id snap wf now => set_queue (maybe_enqueue_failure_notification run_id snap wf now) s
  | Remove_ run_id => (remove run_id s).2
  | MarkAlarmed run_id => (mark_alarmed run_id s).2
  end.
Definition enter_all : LiveStateStore -> list Section_ -> LiveStateStore := foldl enter.

Definition terminal_record (snap : TaskContext) (workflow_type : string) (created_at updated_at : instant) : RunRecord :=
  mkRunRecord snap workflow_type created_at updated_at true (read_campaign_id snap).

(** *** Calls, section by section

    A call enters sections one after the other; the answer of one decides how
    it goes on. *)
Inductive Call := Returned | Enter (o : Section_) (k : bool -> Call).
Definition answers (s : LiveStateStore) (o : Section_) : bool :=
  match o with
  | Complete run_id _ => is_some (entries (completed s) !! run_id)
  | MarkAlarmed run_id => (mark_alarmed run_id s).1
  | _ => false
  end.
(** Nothing else runs. *)
Fixpoint alone (c : Call) (s : LiveStateStore) : LiveStateStore :=
  match c with Returned => s | Enter o k => alone (k (answers s o)) (enter s o) end.

(** The ring before the live map, so that no reader misses the run. *)
Definition mark_terminal_call (run_id : RunId) (snap : TaskContext) (workflow_type : string)
    (created_at updated_at now : instant) : Call :=
  Enter (Complete run_id (terminal_record snap workflow_type created_at updated_at)) (fun already_terminal =>
  Enter (DropLive run_id) (fun _ =>
  Enter (ClearAlarm run_id) (fun _ =>
  if already_terminal then Returned
  else Enter (Notify run_id snap workflow_type now) (fun _ => Returned)))).
Definition mark_terminal (run_id : RunId) (snap : TaskContext) (workflow_type : string)
    (created_at updated_at now : instant) : LiveStateStore -> LiveStateStore :=
  alone (mark_terminal_call run_id snap workflow_type created_at updated_at now).

(** The calls that change the store. *)
Inductive Request :=
| RecordRequest (run_id : RunId) (snap : TaskContext) (now : instant)
| TerminalRequest (run_id : RunId) (snap : TaskContext) (workflow_type : string) (created_at updated_at now : instant)
| RemoveRequest (run_id : RunId)
| AlarmRequest (run_id : RunId).
Definition call_of (r : Request) : Call :=
  match r with
  | RecordRequest run_id snap now => Enter (Record_ run_id snap now) (fun _ => Returned)
  | TerminalRequest run_id snap wf created updated now => mark_terminal_call run_id snap wf created updated now
  | RemoveRequest run_id => Enter (Remove_ run_id) (fun _ => Returned)
  | AlarmRequest run_id => Enter (MarkAlarmed run_id) (fun _ => Returned)
  end.

(** Calls in progress, interleaved section by section: [tr] are the sections
    entered, by whichever call, from [cs] and [s] to [cs'] and [s']. *)
Inductive interleaved : list Call -> LiveStateStore -> list Section_ -> list Call -> LiveStateStore -> Prop :=
| interleaved_now cs s : interleaved cs s [] cs s
| interleaved_enter l o k l' s tr cs s' :
    interleaved (l ++ k (answers s o) :: l') (enter s o) tr cs s' ->
    interleaved (l ++ Enter o k :: l') s (o :: tr) cs s'.

End Live.

Section Ring.
Context {X : Extern}.

(** ** The ring is the list of its last insertions *)

Record ring_ok (r : CompletedRing) : Prop := {
  ring_nodup : NoDup (order r);
  ring_dom k : k ∈ order r <-> is_Some (entries r !! k);
  ring_bound : (length (order r) <= COMPLETED_RUN_RETENTION)%nat
}.
(** Oldest first. *)
Definition ring_list (r : CompletedRing) : list (RunId * RunRecord) :=
  omap (fun k => pair k <$> entries r !! k) (order r).
Definition last_n {A} (n : nat) (l : list A) : list A := drop (length l - n) l.
Definition ring_spec (k : RunId) (rec : RunRecord) (l : list (RunId * RunRecord)) : list (RunId * RunRecord) :=
  if bool_decide (k ∈ l.*1) then map (fun kr => if String.eqb kr.1 k then (k, rec) else kr) l
  else last_n COMPLETED_RUN_RETENTION (l ++ [(k, rec)]).

Lemma ring_default_ok : ring_ok CompletedRing_default.
Proof.
  split; cbn; [constructor| |lia]. intros k. rewrite lookup_empty, elem_of_nil.
  split; [done|]. by intros [? [=]].
Qed.

Lemma evict_spec r : (length (order r) <= S COMPLETED_RUN_RETENTION)%nat ->
  evict (length (order r)) r
  = if (COMPLETED_RUN_RETENTION <? length (order r))%nat
    then match order r with k :: rest => mkRing (delete k (entries r)) rest | [] => r end else r.
Proof.
  intros Hl. destruct (order r) as [|k rest] eqn:Eo.
  - cbn [length evict]. by rewrite Eo.
  - cbn [length] in *. cbn [evict]. rewrite Eo. cbn [length].
    destruct (Nat.ltb_spec COMPLETED_RUN_RETENTION (S (length rest))); [|done].
    destruct (length rest) as [|n] eqn:En; cbn [evict order]; rewrite En;
      rewrite (proj2 (Nat.ltb_ge _ _)) by lia; done.
Qed.

Lemma ring_list_fst r : ring_ok r -> (ring_list r).*1 = order r.
Proof.
  intros [_ Hd _]. unfold ring_list. assert (Forall (fun k => is_Some (entries r !! k)) (order r)) as Hf
    by (apply Forall_forall; intros k; apply Hd).
  clear Hd. induction Hf as [|k ks [rec Hk] Hf IH]; [done|]. cbn. rewrite Hk. cbn. f_equal. exact IH.
Qed.

Lemma omap_ext_in {A B} (f g : A -> option B) (l : list A) : (forall x, x ∈ l -> f x = g x) -> omap f l = omap g l.
Proof.
  induction l as [|x l IH]; intros Hfg; [done|]. cbn. rewrite (Hfg x) by left.
  pose proof (IH ltac:(intros y Hy; apply Hfg; by right)) as E. destruct (g x); [f_equal|]; exact E.
Qed.

Lemma ring_insert_spec r k rec :
  ring_ok r -> ring_ok (ring_insert k rec r) /\ ring_list (ring_insert k rec r) = ring_spec k rec (ring_list r).
Proof.
  intros Hok. pose proof (ring_list_fst r Hok) as Hfst. destruct Hok as [Hn Hd Hb]. unfold ring_insert, ring_spec. rewrite Hfst.
  destruct (entries r !! k) as [old|] eqn:Ek.
  - pose proof (evict_spec (mkRing (<[k:=rec]> (entries r)) (order r))) as He. cbn [order] in He.
    rewrite He by lia. clear He.
    rewrite (proj2 (Nat.ltb_ge _ _) Hb), bool_decide_eq_true_2 by (apply Hd; eauto). split.
    + split; cbn; [done| |done]. intros k'. rewrite Hd. destruct (decide (k' = k)) as [->|];
        [rewrite lookup_insert_eq, Ek|rewrite lookup_insert_ne by done]; split; eauto.
    + unfold ring_list. cbn [order entries]. clear - Ek. induction (order r) as [|k' ks IH]; [done|]. cbn.
      destruct (decide (k' = k)) as [->|Hne].
      * rewrite lookup_insert_eq, Ek. cbn. rewrite String.eqb_refl. by f_equal.
      * rewrite lookup_insert_ne by done. destruct (entries r !! k') as [x|]; cbn; [|exact IH].
        rewrite (proj2 (String.eqb_neq _ _) Hne). by f_equal.
  - assert (Hk : k ∉ order r) by (rewrite Hd, Ek; by intros [? [=]]).
    pose proof (evict_spec (mkRing (<[k:=rec]> (entries r)) (order r ++ [k]))) as He. cbn [order entries] in He.
    rewrite He by (rewrite length_app; cbn; lia). clear He.
    rewrite bool_decide_eq_false_2 by done. rewrite length_app. cbn [length].
    assert (Hn' : NoDup (order r ++ [k])).
    { apply NoDup_app. split_and!; [done| |apply NoDup_singleton]. intros k' ? ->%list_elem_of_singleton. done. }
    assert (Hd' : forall k', k' ∈ order r ++ [k] <-> is_Some (<[k:=rec]> (entries r) !! k')).
    { intros k'. rewrite elem_of_app, list_elem_of_singleton, Hd. destruct (decide (k' = k)) as [->|];
        [rewrite lookup_insert_eq; naive_solver|rewrite lookup_insert_ne by done; naive_solver]. }
    assert (Hl' : ring_list (mkRing (<[k:=rec]> (entries r)) (order r ++ [k])) = ring_list r ++ [(k, rec)]).
    { unfold ring_list. cbn [order entries]. rewrite omap_app. cbn. rewrite lookup_insert_eq. f_equal.
      apply omap_ext_in. intros k' Hk'. rewrite lookup_insert_ne; [done|]. intros ->. apply Hk, Hk'. }
    assert (Hlen : length (ring_list r) = length (order r)) by (by rewrite <- Hfst, length_fmap).
    unfold last_n. rewrite length_app, Hlen. cbn [length].
    destruct (Nat.ltb_spec COMPLETED_RUN_RETENTION (length (order r) + 1)) as [Hbig|Hsmall].
    + assert (Hex : length (order r) = COMPLETED_RUN_RETENTION) by lia.
      replace (length (order r) + 1 - COMPLETED_RUN_RETENTION)%nat with 1%nat by lia.
      rewrite <- Hl'. destruct (order r) as [|k0 rest] eqn:Eo; [by rewrite <- Hex in Hbig|].
      cbn [app] in *. apply NoDup_cons in Hn' as [Hk0 Hn']. split.
      * split; cbn [order entries]; [done| |rewrite length_app; cbn in *; lia]. intros k'.
        destruct (decide (k' = k0)) as [->|]; [rewrite lookup_delete_eq|rewrite lookup_delete_ne by done].
        -- split; [done|by intros [? [=]]].
        -- rewrite <- Hd', elem_of_cons. naive_solver.
      * unfold ring_list. cbn [order entries omap list_omap].
        destruct (proj1 (Hd' k0) ltac:(by left)) as [x0 Hx0]. rewrite Hx0. cbn [fmap option_fmap option_map drop].
        apply omap_ext_in. intros k' Hk'. rewrite lookup_delete_ne; [done|]. by intros ->.
    + split; [split; cbn; [done|done|rewrite length_app; cbn; lia]|].
      replace (length (order r) + 1 - COMPLETED_RUN_RETENTION)%nat with 0%nat by lia. exact Hl'.
Qed.

(** The ring holds exactly the last completed runs.  It stays consistent
    (its order lists the keys of its map, once each, within the bound), and an
    insertion does what it would do to a list of records: a run already there is
    replaced where it stands, a new one goes to the end, and the oldest leaves
    when there are too many. *)
Theorem ring_refines r k rec :
  ring_ok r -> ring_ok (ring_insert k rec r) /\ ring_list (ring_insert k rec r) = ring_spec k rec (ring_list r).
Proof. apply ring_insert_spec. Qed.

(** What an insertion does to the order alone. *)
Lemma ring_insert_order r k rec :
  ring_ok r ->
  ring_ok (ring_insert k rec r) /\
  order (ring_insert k rec r)
  = if bool_decide (k ∈ order r) then order r else last_n COMPLETED_RUN_RETENTION (order r ++ [k]).
Proof.
  intros Hok. destruct (ring_insert_spec r k rec Hok) as [Hok' Hl]. split; [done|].
  rewrite <- (ring_list_fst _ Hok'), Hl. unfold ring_spec. rewrite (ring_list_fst _ Hok).
  destruct (bool_decide (k ∈ order r)).
  - rewrite <- (ring_list_fst _ Hok). clear. induction (ring_list r) as [|[k' x] l IH]; [done|]. cbn.
    rewrite IH. destruct (String.eqb_spec k' k) as [->|]; done.
  - unfold last_n. rewrite fmap_drop, fmap_app, !length_app, (ring_list_fst _ Hok).
    pose proof (f_equal length (ring_list_fst _ Hok)) as El. rewrite length_fmap in El. by rewrite El.
Qed.

End Ring.

Section History.
Context {X : Extern} {HO : HashOrder}.
Variable sha256_hex : string -> string.
#[local] Abbreviation enter_all := (enter_all sha256_hex).
#[local] Abbreviation enter := (enter sha256_hex).

(** ** Over any interleaving *)

Definition completes (r : RunId) (o : Section_) : bool :=
  match o with Complete k _ => String.eqb k r | _ => false end.
Definition completes_other (r : RunId) (o : Section_) : bool :=
  match o with Complete k _ => negb (String.eqb k r) | _ => false end.
(** The sections after the run's first completion. *)
Fixpoint since (r : RunId) (tr : list Section_) : list Section_ :=
  match tr with [] => [] | o :: tr => if completes r o then tr else since r tr end.
Definition others_since (r : RunId) (tr : list Section_) : nat := length (List.filter (completes_other r) (since r tr)).
(** A run leaves the live map through [mark_terminal] only after its record is
    in the ring. *)
Definition disciplined (tr : list Section_) : Prop :=
  forall pre r post, tr = pre ++ DropLive r :: post -> existsb (completes r) pre = true.

Lemma since_app r tr1 tr2 :
  since r (tr1 ++ tr2) = if existsb (completes r) tr1 then since r tr1 ++ tr2 else since r tr2.
Proof.
  induction tr1 as [|o tr1 IH]; [done|]. cbn. destruct (completes r o); [done|exact IH].
Qed.
Lemma disciplined_prefix tr1 tr2 : disciplined (tr1 ++ tr2) -> disciplined tr1.
Proof. intros Hd pre r post ->. apply (Hd pre r (post ++ tr2)). by rewrite <- app_assoc. Qed.
Lemma enter_all_snoc s tr o : enter_all s (tr ++ [o]) = enter (enter_all s tr) o.
Proof. unfold enter_all. by rewrite foldl_app. Qed.

Lemma live_until_completed tr r :
  disciplined tr -> (exists snap now, Record_ r snap now ∈ tr) -> Remove_ r ∉ tr ->
  existsb (completes r) tr = false -> is_Some (inner (enter_all LiveStateStore_default tr) !! r).
Proof.
  intros Hd Hrec Hrem Hc. induction tr as [|o tr IH] using rev_ind.
  { destruct Hrec as (? & ? & []%elem_of_nil). }
  rewrite existsb_app in Hc. apply orb_false_iff in Hc as [Hc Ho]. cbn in Ho. rewrite orb_false_r in Ho.
  rewrite elem_of_app, list_elem_of_singleton in Hrem. rewrite enter_all_snoc.
  assert (Hkeep : (exists snap now, Record_ r snap now ∈ tr) -> is_Some (inner (enter_all LiveStateStore_default tr) !! r)).
  { intros Hr. apply IH; [by eapply disciplined_prefix|done| |done]. naive_solver. }
  destruct Hrec as (snap & now & [Hin|Hin%list_elem_of_singleton]%elem_of_app).
  - destruct (Hkeep (ex_intro _ snap (ex_intro _ now Hin))) as [x Hx].
    destruct o as [k sn nw|k rc|k|k|k sn wf nw|k|k]; cbn -[ring_insert]; eauto.
    + destruct (decide (k = r)) as [->|]; [rewrite lookup_insert_eq|rewrite lookup_insert_ne by done]; eauto.
    + destruct (decide (k = r)) as [->|]; [|rewrite lookup_delete_ne by done; eauto].
      specialize (Hd tr r []). rewrite Hd in Hc by done. done.
    + destruct (decide (k = r)) as [->|]; [|rewrite lookup_delete_ne by done; eauto].
      exfalso. apply Hrem. by right.
  - subst o. cbn. rewrite lookup_insert_eq. eauto.
Qed.

Lemma enter_ring_ok s o : ring_ok (completed s) -> ring_ok (completed (enter s o)).
Proof. intros Hs. destruct o; cbn -[ring_insert]; try done. by apply ring_insert_spec. Qed.
Lemma enter_all_ring_ok tr : ring_ok (completed (enter_all LiveStateStore_default tr)).
Proof.
  induction tr as [|o tr IH] using rev_ind; [apply ring_default_ok|]. rewrite enter_all_snoc. by apply enter_ring_ok.
Qed.

Lemma only_completed_ring tr r :
  r ∈ order (completed (enter_all LiveStateStore_default tr)) -> existsb (completes r) tr = true.
Proof.
  induction tr as [|o tr IH] using rev_ind; [by intros []%elem_of_nil|].
  rewrite enter_all_snoc, existsb_app. pose proof (enter_all_ring_ok tr) as Hok. cbn [existsb].
  destruct o as [k sn nw|k rc|k|k|k sn wf nw|k|k]; cbn -[ring_insert]; rewrite ?orb_false_r; try exact IH.
  rewrite (proj2 (ring_insert_order _ k rc Hok)). case_bool_decide.
  - intros Hr. by rewrite (IH Hr).
  - intros Hr. unfold last_n in Hr. match type of Hr with _ ∈ drop ?n ?l => assert (r ∈ l) as Hr'
      by (rewrite <- (take_drop n l), elem_of_app; by right) end.
    apply elem_of_app in Hr' as [Hr'| ->%list_elem_of_singleton]; [by rewrite (IH Hr')|].
    by rewrite String.eqb_refl, orb_true_r.
Qed.

(** A completed run is at a place in the ring with no more runs behind it than
    were completed since. *)
Lemma completed_place tr r :
  existsb (completes r) tr = true -> (others_since r tr < COMPLETED_RUN_RETENTION)%nat ->
  exists l1 l2, order (completed (enter_all LiveStateStore_default tr)) = l1 ++ r :: l2 /\
    (length l2 <= others_since r tr)%nat.
Proof.
  induction tr as [|o tr IH] using rev_ind; [done|]. intros Hc Hn. rewrite enter_all_snoc.
  pose proof (enter_all_ring_ok tr) as Hok. unfold others_since in *. rewrite since_app in *.
  rewrite existsb_app in Hc. destruct (existsb (completes r) tr) eqn:Ec.
  - rewrite List.filter_app, length_app in Hn. destruct IH as (l1 & l2 & Ho & Hl); [done|lia|].
    rewrite List.filter_app, length_app.
    destruct o as [k sn nw|k rc|k|k|k sn wf nw|k|k]; cbn -[ring_insert]; try (exists l1, l2; split; [exact Ho|lia]).
    destruct (ring_insert_order _ k rc Hok) as [_ Hord]. rewrite Hord.
    case_bool_decide as Hin; [exists l1, l2; split; [done|lia]|].
    assert (Hk : String.eqb k r = false).
    { apply String.eqb_neq. intros ->. apply Hin. rewrite Ho, elem_of_app, elem_of_cons. tauto. }
    cbn in Hn. rewrite Hk in *. cbn in *. rewrite Ho. unfold last_n.
    exists (drop (length ((l1 ++ r :: l2) ++ [k]) - COMPLETED_RUN_RETENTION) l1), (l2 ++ [k]).
    rewrite <- app_assoc. cbn [app]. rewrite drop_app_le by (rewrite !length_app in *; cbn; rewrite ?length_app; cbn; lia).
    split; [done|]. rewrite length_app. cbn. lia.
  - cbn in Hc. rewrite orb_false_r in Hc. destruct o as [| k rc| | | | |]; try done. cbn in Hc.
    apply String.eqb_eq in Hc as ->. cbn -[ring_insert].
    destruct (ring_insert_order _ r rc Hok) as [_ Hord]. rewrite Hord.
    rewrite String.eqb_refl. cbn.
    case_bool_decide as Hin; [apply only_completed_ring in Hin; congruence|].
    unfold last_n. exists (drop (length (order (completed (enter_all LiveStateStore_default tr)) ++ [r]) - COMPLETED_RUN_RETENTION)
      (order (completed (enter_all LiveStateStore_default tr)))), [].
    rewrite drop_app_le; [split; [done|cbn; lia]|]. pose proof (ring_bound _ Hok). rewrite length_app.
    assert (1 <= COMPLETED_RUN_RETENTION)%nat by (apply Nat.leb_le; reflexivity). cbn. lia.
Qed.

(** *** Every interleaving of the calls is disciplined *)

#[local] Abbreviation interleaved := (interleaved sha256_hex).

Lemma interleaved_store cs s tr cs' s' : interleaved cs s tr cs' s' -> s' = enter_all s tr.
Proof. induction 1 as [|l o k l' s tr cs s' _ IH]; [done|]. exact IH. Qed.
Lemma interleaved_app cs1 s1 tr1 cs2 s2 tr2 cs3 s3 :
  interleaved cs1 s1 tr1 cs2 s2 -> interleaved cs2 s2 tr2 cs3 s3 -> interleaved cs1 s1 (tr1 ++ tr2) cs3 s3.
Proof. induction 1; intros H2; [done|]. cbn. constructor. auto. Qed.

(** The call drops no run from the live map but those in [gone], or that it
    completes first. *)
Fixpoint safe (gone : gset RunId) (c : Call) : Prop :=
  match c with
  | Returned => True
  | Enter o k =>
      (forall r, o = DropLive r -> r ∈ gone) /\
      forall b, safe (match o with Complete r _ => {[r]} ∪ gone | _ => gone end) (k b)
  end.
Lemma safe_mono gone gone' c : gone ⊆ gone' -> safe gone c -> safe gone' c.
Proof.
  revert gone gone'. induction c as [|o k IH]; intros gone gone' Hs; [done|]. intros [Hd Hk]. split; [set_solver|].
  intros b. eapply IH, Hk. destruct o; set_solver.
Qed.
Lemma call_safe parse_str r : safe ∅ (call_of parse_str r).
Proof. destruct r; cbn; repeat (split || intros); simplify_eq; try done; try set_solver. destruct b; cbn; naive_solver. Qed.

Lemma interleaved_disciplined gone cs s tr cs' s' pre r post :
  interleaved cs s tr cs' s' -> Forall (safe gone) cs -> tr = pre ++ DropLive r :: post ->
  r ∈ gone \/ existsb (completes r) pre = true.
Proof.
  intros H. revert gone pre. induction H as [cs s|l o k l' s tr cs s' _ IH]; intros gone pre Hs E; [by destruct pre|].
  apply Forall_app in Hs as [Hl Hs]. apply Forall_cons in Hs as [[Hd Hk] Hl'].
  destruct pre as [|o' pre]; [injection E as -> ->; left; by apply Hd|]. injection E as -> ->.
  destruct (IH (match o' with Complete r _ => {[r]} ∪ gone | _ => gone end) pre) as [Hin|Hin]; [|done| |].
  - apply Forall_app. split; [|apply Forall_cons; split; [apply Hk|]];
      (eapply Forall_impl; [eassumption|]; intros c; apply safe_mono; destruct o'; set_solver).
  - destruct o' as [| k' rc| | | | |]; auto. apply elem_of_union in Hin as [->%elem_of_singleton|Hin]; [|auto].
    right. cbn. by rewrite String.eqb_refl.
  - right. cbn. rewrite Hin. by rewrite orb_true_r.
Qed.

Lemma calls_disciplined parse_str reqs s tr cs' s' :
  interleaved (map (call_of parse_str) reqs) s tr cs' s' -> disciplined tr.
Proof.
  intros H pre r post E.
  assert (Hs : Forall (safe ∅) (map (call_of parse_str) reqs)).
  { apply Forall_forall. intros c Hc. apply list_elem_of_In, in_map_iff in Hc as (q & <- & _). apply call_safe. }
  destruct (interleaved_disciplined ∅ _ _ _ _ _ _ _ _ H Hs E); [set_solver|done].
Qed.

(** What is found was recorded, or came with a completion. *)
Lemma live_was_recorded tr r snap now :
  inner (enter_all LiveStateStore_default tr) !! r = Some (snap, now) -> Record_ r snap now ∈ tr.
Proof.
  induction tr as [|o tr IH] using rev_ind; [done|]. rewrite enter_all_snoc, elem_of_app, list_elem_of_singleton.
  destruct o as [k sn nw|k rc|k|k|k sn wf nw|k|k]; cbn -[ring_insert]; auto.
  - destruct (decide (k = r)) as [->|]; [rewrite lookup_insert_eq; intros [= <- <-]; auto|rewrite lookup_insert_ne by done; auto].
  - destruct (decide (k = r)) as [->|]; [by rewrite lookup_delete_eq|rewrite lookup_delete_ne by done; auto].
  - destruct (decide (k = r)) as [->|]; [by rewrite lookup_delete_eq|rewrite lookup_delete_ne by done; auto].
Qed.
Lemma ring_list_lookup rg k rec : ring_ok rg -> entries rg !! k = Some rec <-> (k, rec) ∈ ring_list rg.
Proof.
  intros Hok. unfold ring_list. rewrite list_elem_of_omap. split.
  - intros Hk. exists k. rewrite Hk. split; [|done]. apply (ring_dom _ Hok). eauto.
  - intros (k' & _ & Hk). destruct (entries rg !! k') eqn:E; [|done]. cbn in Hk. by simplify_eq.
Qed.
Lemma ring_was_completed tr r rec :
  entries (completed (enter_all LiveStateStore_default tr)) !! r = Some rec -> Complete r rec ∈ tr.
Proof.
  rewrite (ring_list_lookup _ _ _ (enter_all_ring_ok tr)).
  induction tr as [|o tr IH] using rev_ind; [by intros ?%elem_of_nil|].
  pose proof (enter_all_ring_ok tr) as Hok. rewrite enter_all_snoc, elem_of_app, list_elem_of_singleton.
  destruct o as [k sn nw|k rc|k|k|k sn wf nw|k|k]; cbn -[ring_insert]; auto.
  rewrite (proj2 (ring_insert_spec _ k rc Hok)). unfold ring_spec. case_bool_decide; intros Hin.
  - apply list_elem_of_In, in_map_iff in Hin as ([k' rc'] & Heq & Hin). cbn in Heq.
    destruct (String.eqb k' k); simplify_eq; [auto|]. left. apply IH. by apply list_elem_of_In.
  - unfold last_n in Hin. match type of Hin with _ ∈ drop ?n ?l => assert ((r, rec) ∈ l) as Hin'
      by (rewrite <- (take_drop n l), elem_of_app; by right) end.
    apply elem_of_app in Hin' as [Hin'|Hin']; [auto|]. apply list_elem_of_singleton in Hin'. simplify_eq. auto.
Qed.

(** C28: a reader never misses a run that is being completed.  Take any number
    of calls of [record], [mark_terminal], [remove] and [mark_alarmed] on a new
    store, interleaved in any way at the granularity of the store's locks, and a
    reader that takes its two locks any number of sections apart.  A run that
    was recorded by the time of the first and not removed by then is found, with
    a snapshot that was recorded for it or came with its completion, until a
    hundred other runs have been completed since it first was. *)
Theorem run_always_found parse_str reqs tr1 cs1 s1 tr2 cs2 s2 r snap now :
  interleaved (map (call_of parse_str) reqs) LiveStateStore_default tr1 cs1 s1 ->
  interleaved cs1 s1 tr2 cs2 s2 ->
  Record_ r snap now ∈ tr1 -> Remove_ r ∉ tr1 ->
  (others_since r (tr1 ++ tr2) < 100)%nat ->
  exists found, get_between s1 s2 r = Some found /\
    ((exists at_, Record_ r found at_ ∈ tr1) \/
     exists rec, Complete r rec ∈ tr1 ++ tr2 /\ snapshot rec = found).
Proof.
  intros H1 H2 Hrec Hrem Hn. pose proof (interleaved_app _ _ _ _ _ _ _ _ H1 H2) as H12.
  pose proof (calls_disciplined _ _ _ _ _ _ H12) as Hd.
  apply interleaved_store in H1 as ->. apply interleaved_store in H12 as ->. clear H2.
  unfold get_between.
  destruct (inner (enter_all LiveStateStore_default tr1) !! r) as [[found at_]|] eqn:El.
  { exists found. split; [done|]. left. exists at_. by apply live_was_recorded. }
  destruct (existsb (completes r) tr1) eqn:Ec; cycle 1.
  { destruct (live_until_completed tr1 r) as [x Hx]; [by eapply disciplined_prefix|eauto|done..|]. congruence. }
  destruct (completed_place (tr1 ++ tr2) r) as (l1 & l2 & Ho & _); [by rewrite existsb_app, Ec|done|].
  destruct (proj1 (ring_dom _ (enter_all_ring_ok (tr1 ++ tr2)) r)) as [rec Hr].
  { rewrite Ho, elem_of_app, elem_of_cons. tauto. }
  exists (snapshot rec). rewrite Hr. split; [done|]. right. exists rec. split; [|done]. by apply ring_was_completed.
Qed.

(** ** What a lookup by campaign gives *)

Lemma untruncated_keeps_all tr :
  (length (order (completed (enter_all LiveStateStore_default tr))) < COMPLETED_RUN_RETENTION)%nat ->
  forall r, existsb (completes r) tr = true -> r ∈ order (completed (enter_all LiveStateStore_default tr)).
Proof.
  induction tr as [|o tr IH] using rev_ind; [done|]. rewrite enter_all_snoc. intros Hl r.
  rewrite existsb_app. cbn [existsb]. rewrite orb_false_r. pose proof (enter_all_ring_ok tr) as Hok.
  destruct o as [k sn nw|k rc|k|k|k sn wf nw|k|k]; cbn -[ring_insert] in *; rewrite ?orb_false_r; try by apply IH.
  destruct (ring_insert_order _ k rc Hok) as [_ Hord]. rewrite Hord in *.
  case_bool_decide as Hin.
  - intros [Hr| ->%String.eqb_eq]%orb_true_iff; [by apply IH|done].
  - unfold last_n in *. rewrite length_drop, length_app in Hl. cbn [length] in Hl.
    pose proof (ring_bound _ Hok).
    replace (length (order (completed (enter_all LiveStateStore_default tr)) ++ [k]) - COMPLETED_RUN_RETENTION)%nat with 0%nat
      by (rewrite length_app; cbn [length]; lia). rewrite drop_0.
    rewrite elem_of_app, list_elem_of_singleton.
    intros [Hr| ->%String.eqb_eq]%orb_true_iff; [left; apply IH; [lia|done]|by right].
Qed.

(** A lookup by campaign is complete when it says so.  Its runs are the live
    runs and the retained records of the campaign, in the order of their times; and when the lookup does not report that it may be truncated,
    no run completed so far has been forgotten, whatever came before. *)
Theorem campaign_lookup_spec (parse_str : string -> option RunId) tr campaign :
  let s := enter_all LiveStateStore_default tr in
  let l := list_campaign_runs parse_str s campaign in
  (forall c, c ∈ runs l <->
     (exists snap now, inner s !! cr_run_id c = Some (snap, now) /\ read_campaign_id parse_str snap = Some campaign /\
        c = mkCampaignRun (cr_run_id c) snap None now false) \/
     (exists rec, entries (completed s) !! cr_run_id c = Some rec /\ campaign_id rec = Some campaign /\
        c = mkCampaignRun (cr_run_id c) (snapshot rec) (Some (workflow_type rec)) (created_at rec) true)) /\
  StronglySorted (fun a b => ordering_key a <= ordering_key b)%Z (runs l) /\
  (possibly_truncated l = false -> forall r, existsb (completes r) tr = true -> is_Some (get_record s r)).
Proof.
  cbv zeta. set (s := enter_all LiveStateStore_default tr). split; [|split].
  - intros c. unfold list_campaign_runs, campaign_between. cbn [runs].
    rewrite sort_by_perm, elem_of_app, !list_elem_of_omap. split.
    + intros [([k [snap now]] & Hin & Hc)|([k rec] & Hin & Hc)]; apply hm_iter_elem in Hin; cbn in Hc;
        case_bool_decide; simplify_eq; cbn; [left|right]; eauto 6.
    + intros [(snap & now & Hin & Hc & ->)|(rec & Hin & Hc & ->)]; cbn in *; [left|right].
      * exists (cr_run_id c, (snap, now)). rewrite hm_iter_elem. split; [done|]. cbn. by rewrite bool_decide_eq_true_2.
      * exists (cr_run_id c, rec). rewrite hm_iter_elem. split; [done|]. cbn. by rewrite bool_decide_eq_true_2.
  - unfold list_campaign_runs, campaign_between. cbn [runs].
    exact (sort_by_sorted (fun a b => Z.compare (ordering_key a) (ordering_key b)) _).
  - unfold list_campaign_runs, campaign_between. cbn [possibly_truncated].
    intros Hl%Nat.leb_gt r Hr. apply (ring_dom _ (enter_all_ring_ok tr)). by apply untruncated_keeps_all.
Qed.

(** ** Failures *)

(** The failed nodes, by name. *)
Lemma collect_failed_spec snap name err :
  mkFailedNode name err ∈ collect_failed_nodes snap <->
  exists run, node_runs snap !! name = Some run /\ status run = Failed /\ err = default "unknown error" (error run).
Proof.
  unfold collect_failed_nodes. rewrite list_elem_of_In, in_map_iff. split.
  - intros ([k run] & [= <- <-] & Hin). rewrite <- list_elem_of_In, sort_by_perm, list_elem_of_In, filter_In in Hin.
    destruct Hin as [Hin Hf]. apply bool_decide_eq_true in Hf. apply list_elem_of_In, hm_iter_elem in Hin. eauto.
  - intros (run & Hin & Hf & ->). exists (name, run). split; [done|].
    rewrite <- list_elem_of_In, sort_by_perm, list_elem_of_In, filter_In. split; [|by apply bool_decide_eq_true].
    by apply list_elem_of_In, hm_iter_elem.
Qed.

Lemma collect_failed_sorted snap :
  StronglySorted (fun a b => String.compare (fn_name a) (fn_name b) <> Gt) (collect_failed_nodes snap).
Proof.
  unfold collect_failed_nodes. eapply StronglySorted_fmap, (sort_by_sorted (fun a b => String.compare a.1 b.1)).
  by intros [] [].
Qed.

(** The message about a failed run, before it is cut. *)
Definition failure_head (run wf st : string) : string :=
  (if String.eqb st "budget_halted" then "Run halted: budget limit reached" else "Run failed")
  +:+ newline +:+ "Workflow: " +:+ wf +:+ newline +:+ "Run: " +:+ run +:+ newline.
Definition failure_tail (nodes : list FailedNode) : string :=
  match nodes with
  | [] => "No specific node failure recorded."
  | n :: more => "Failing node: " +:+ fn_name n +:+ " — " +:+ fn_error n +:+
      match length more with
      | O => ""
      | 1%nat => " (+1 more failed node)"
      | k => " (+" +:+ pretty k +:+ " more failed nodes)"
      end
  end.
(** What of it fits in 1024 characters. *)
Definition failure_message (head tail summary : string) : Prop :=
  let h := chars_count head in
  (chars_count summary <= 1024)%nat /\
  ((h + chars_count tail <= 1024)%nat -> summary = head +:+ tail) /\
  ((1024 < h + chars_count tail)%nat -> (h <= 1012)%nat ->
     summary = head +:+ (chars_take (1012 - h) tail +:+ "…[truncated]")).

Lemma failure_tail_line nodes : failure_node_line nodes = failure_tail nodes.
Proof.
  destruct nodes as [|n [|m [|l nodes]]]; try reflexivity; cbn; by rewrite str_append_nil_r.
Qed.

(** The message always renders. *)
Lemma failure_renders gate run wf st nodes :
  exists summary, render_failure_payload sha256_hex gate run wf st nodes OperatorPayloadLimits_default
      = Ok (mkValidated (OperatorPayload_new sha256_hex gate summary failure_options)) /\
    failure_message (failure_head run wf st) (failure_tail nodes) summary.
Proof.
  destruct (render_failure_spec sha256_hex gate run wf st nodes OperatorPayloadLimits_default)
    as (summary & E & H1 & H2 & H3 & _);
    [by apply (bool_decide_unpack _); vm_compute|by apply Nat.leb_le; vm_compute|by apply Nat.leb_le; vm_compute|].
  rewrite failure_tail_line in H2, H3. change (failure_header run wf st) with (failure_head run wf st) in H2, H3.
  exists summary. split; [exact E|]. split; [exact H1|]. split; [exact H2|]. intros Hlong Hh.
  destruct H3 as [-> _]; [exact Hlong| |]; change (max_summary_chars OperatorPayloadLimits_default) with 1024%nat.
  - lia.
  - replace (1024 - chars_count (failure_head run wf st) - 12)%nat with (1012 - chars_count (failure_head run wf st))%nat by lia.
    reflexivity.
Qed.

(** When the queue gets an item, and which. *)
Lemma enqueue_failure run snap wf now q :
  let st := derive_terminal_status snap in
  (st ∉ ["failed"; "budget_halted"] -> maybe_enqueue_failure_notification sha256_hex run snap wf now q = q) /\
  (st ∈ ["failed"; "budget_halted"] -> exists summary,
     failure_message (failure_head run wf st) (failure_tail (collect_failed_nodes snap)) summary /\
     maybe_enqueue_failure_notification sha256_hex run snap wf now q = enqueue q (mkItem ("run-failure:" +:+ run)
       (OperatorPayload_new sha256_hex ("run-failure:" +:+ run) summary failure_options) 0 now GateApproval)).
Proof.
  cbv zeta. unfold maybe_enqueue_failure_notification.
  assert (Hn : should_notify (derive_terminal_status snap) builtin_failure_policy
    = bool_decide (derive_terminal_status snap ∈ ["failed"; "budget_halted"])).
  { unfold should_notify. destruct (String.eqb_spec (derive_terminal_status snap) "failed") as [->|N1].
    { symmetry. apply bool_decide_eq_true. set_solver. }
    destruct (String.eqb_spec (derive_terminal_status snap) "budget_halted") as [->|N2].
    { symmetry. apply bool_decide_eq_true. set_solver. }
    rewrite bool_decide_eq_false_2 by set_solver.
    destruct (String.eqb _ "cancelled"); [done|]. by destruct (String.eqb _ "succeeded"). }
  rewrite Hn. split; intros Hst.
  - by rewrite bool_decide_eq_false_2.
  - rewrite bool_decide_eq_true_2 by done. cbn [negb].
    destruct (failure_renders (failure_gate_id run) run wf (derive_terminal_status snap) (collect_failed_nodes snap))
      as (summary & E & Hm). exists summary. split; [exact Hm|]. by rewrite E.
Qed.

End History.

(** ** A run to compute with *)

Module LiveModel.
#[local] Existing Instance JsonModel.extern.
Definition snap : TaskContext := mkTaskContext jnull ∅ jnull ∅.
Definition rec : RunRecord := mkRunRecord snap "wf" 0%Z 1%Z true None.
Definition failed : TaskContext :=
  mkTaskContext jnull ∅ (JsonModel.JObj [("failure", JsonModel.JObj [("failed", JsonModel.JBool true)])]) ∅.
Definition sha (s : string) : string := s.
Definition parse (_ : string) : option RunId := None.
Definition reqs : list Request := [RecordRequest "r" snap 0%Z; TerminalRequest "r" snap "wf" 0%Z 1%Z 2%Z].
Definition first : LiveStateStore := enter sha LiveStateStore_default (Record_ "r" snap 0%Z).
Definition second : LiveStateStore := enter sha first (Complete "r" rec).
Definition third : LiveStateStore := enter sha second (DropLive "r").
(** The second call, from its second section on. *)
Definition ending (already_terminal : bool) : Call :=
  Enter (ClearAlarm "r") (fun _ =>
    if already_terminal then Returned else Enter (Notify "r" snap "wf" 2%Z) (fun _ => Returned)).
Definition dropping (already_terminal : bool) : Call := Enter (DropLive "r") (fun _ => ending already_terminal).

Lemma to_second :
  interleaved sha (map (call_of parse) reqs) LiveStateStore_default [Record_ "r" snap 0%Z; Complete "r" rec]
    [Returned; dropping false] second.
Proof.
  apply (interleaved_enter sha [] (Record_ "r" snap 0%Z) (fun _ => Returned) [Enter (Complete "r" rec) dropping]).
  apply (interleaved_enter sha [Returned] (Complete "r" rec) dropping []). apply interleaved_now.
Qed.
Lemma to_third : interleaved sha [Returned; dropping false] second [DropLive "r"] [Returned; ending false] third.
Proof.
  apply (interleaved_enter sha [Returned] (DropLive "r") (fun _ => ending false) []). apply interleaved_now.
Qed.
End LiveModel.

Lemma ring_refines_witness :
  ring_list (ring_insert "r" LiveModel.rec CompletedRing_default) = [("r", LiveModel.rec)].
Proof.
  destruct (ring_refines CompletedRing_default "r" LiveModel.rec ring_default_ok) as [_ E].
  rewrite E. reflexivity.
Defined.

(** The reader's first lock is taken before [mark_terminal] drops the run, its
    second after. *)
Lemma run_always_found_witness :
  inner LiveModel.third !! "r" = None /\ is_Some (get_between LiveModel.second LiveModel.third "r").
Proof.
  split; [exact (lookup_delete_eq (inner LiveModel.second) "r")|].
  destruct (run_always_found LiveModel.sha LiveModel.parse LiveModel.reqs _ _ _ _ _ _ "r" LiveModel.snap 0%Z
    LiveModel.to_second LiveModel.to_third) as (f & Hf & _).
  - left.
  - rewrite !elem_of_cons, elem_of_nil. naive_solver.
  - apply Nat.ltb_lt. vm_compute. reflexivity.
  - exists f. exact Hf.
Defined.

