(* ===== verification/Effect.v ===== *)
(** * Effectful programs

    A program over a state [S] that logs events of type [E]: the shape of the
    parts of the engine that call out through injected seams.  [S] is whatever
    the seams act on (files, clocks, other tasks), the log is what an observer
    of the calls sees, in order.

    A program that may leave early returns [result A B]; [try_bind] is the
    code's [?] and, with [B] the outcome of a loop iteration, its [continue],
    [break] and [return]. *)

From S2P Require Import Prelude.

Local Open Scope list_scope.

Definition eff (S E A : Type) : Type := S -> A * S * list E.

Section Effect.
Context {S E : Type}.

Definition eret {A} (a : A) : eff S E A := fun s => (a, s, []).
Definition ebind {A B} (m : eff S E A) (k : A -> eff S E B) : eff S E B := fun s =>
  let '(a, s1, t1) := m s in
  let '(b, s2, t2) := k a s1 in
  (b, s2, t1 ++ t2).
Definition elog (e : E) : eff S E unit := fun s => (tt, s, [e]).
(** a read of the state, or a seam that acts on it silently *)
Definition esilent {A} (f : S -> A * S) : eff S E A := fun s => (f s, []).

(** [m?] *)
Definition try_bind {A B C} (m : eff S E (result A C)) (k : A -> eff S E (result B C))
    : eff S E (result B C) :=
  ebind m (fun r => match r with Ok a => k a | Err c => eret (Err c) end).

(** [for x in l { body(x) }] *)
Fixpoint efold {A B} (f : B -> A -> eff S E B) (l : list A) (b : B) : eff S E B :=
  match l with
  | [] => eret b
  | x :: l => ebind (f b x) (efold f l)
  end.

Lemma ebind_inv {A B} (m : eff S E A) (k : A -> eff S E B) s b s' t :
  ebind m k s = (b, s', t) ->
  exists a s1 t1 t2, m s = (a, s1, t1) /\ k a s1 = (b, s', t2) /\ t = t1 ++ t2.
Proof.
  unfold ebind. destruct (m s) as [[a s1] t1] eqn:E1. destruct (k a s1) as [[b' s2] t2] eqn:E2.
  intros [= <- <- <-]. by exists a, s1, t1, t2.
Qed.

Lemma eret_inv {A} (a b : A) (s s' : S) (t : list E) :
  eret a s = (b, s', t) -> b = a /\ s' = s /\ t = [].
Proof. by intros [= <- <- <-]. Qed.

Lemma elog_inv (e : E) u s s' t : elog e s = (u, s', t) -> s' = s /\ t = [e].
Proof. by intros [= <- <- <-]. Qed.

Lemma esilent_inv {A} (f : S -> A * S) a s s' t :
  esilent f s = (a, s', t) -> f s = (a, s') /\ t = [].
Proof. unfold esilent. by intros [= -> <-]. Qed.

Lemma try_bind_inv {A B C} (m : eff S E (result A C)) (k : A -> eff S E (result B C)) s r s' t :
  try_bind m k s = (r, s', t) ->
  (exists c, m s = (Err c, s', t) /\ r = Err c) \/
  (exists a s1 t1 t2, m s = (Ok a, s1, t1) /\ k a s1 = (r, s', t2) /\ t = t1 ++ t2).
Proof.
  intros H. apply ebind_inv in H as ([a|c] & s1 & t1 & t2 & H1 & H2 & ->).
  - right. by exists a, s1, t1, t2.
  - left. apply eret_inv in H2 as (-> & -> & ->). rewrite app_nil_r. by exists c.
Qed.

(** What a sequence does, from what its first part does. *)
Lemma ebind_eq {A B} (m : eff S E A) (k : A -> eff S E B) s a s1 t1 :
  m s = (a, s1, t1) -> ebind m k s = (let '(b, s2, t2) := k a s1 in (b, s2, t1 ++ t2)).
Proof. unfold ebind. by intros ->. Qed.
Lemma try_bind_Ok_eq {A B C} (m : eff S E (result A C)) (k : A -> eff S E (result B C)) s a s1 t1 :
  m s = (Ok a, s1, t1) -> try_bind m k s = (let '(b, s2, t2) := k a s1 in (b, s2, t1 ++ t2)).
Proof. intros Hm. unfold try_bind. by rewrite (ebind_eq _ _ _ _ _ _ Hm). Qed.
Lemma try_bind_Err_eq {A B C} (m : eff S E (result A C)) (k : A -> eff S E (result B C)) s c s1 t1 :
  m s = (Err c, s1, t1) -> try_bind m k s = (Err c, s1, t1).
Proof. intros Hm. unfold try_bind. rewrite (ebind_eq _ _ _ _ _ _ Hm). cbn. by rewrite app_nil_r. Qed.

(** A failing step after a sequence is one sequence, pointwise. *)
Lemma try_ebind_assoc {A B C D} (m : eff S E A) (k : A -> eff S E (result B D)) (f : B -> eff S E (result C D)) s :
  try_bind (ebind m k) f s = ebind m (fun a => try_bind (k a) f) s.
Proof.
  unfold try_bind, ebind. destruct (m s) as [[a s1] t1]. destruct (k a s1) as [[[b|d] s2] t2].
  - destruct (f b s2) as [[c s3] t3]. by rewrite app_assoc.
  - cbn. by rewrite app_assoc.
Qed.
Lemma try_try_assoc {A B C D} (m : eff S E (result A D)) (k : A -> eff S E (result B D)) (f : B -> eff S E (result C D)) s :
  try_bind (try_bind m k) f s = try_bind m (fun a => try_bind (k a) f) s.
Proof.
  unfold try_bind, ebind. destruct (m s) as [[[a|d] s1] t1]; [|cbn; by rewrite app_nil_r].
  destruct (k a s1) as [[[b|d] s2] t2].
  - destruct (f b s2) as [[c s3] t3]. by rewrite app_assoc.
  - cbn. by rewrite app_assoc.
Qed.

(** [x?] for a value *)
Lemma try_eret_inv {A B C} (x : result A C) (k : A -> eff S E (result B C)) s r s' t :
  try_bind (eret x) k s = (r, s', t) ->
  (exists c, x = Err c /\ r = Err c) \/ (exists a, x = Ok a /\ k a s = (r, s', t)).
Proof.
  intros H. apply try_bind_inv in H as [(c & H & ->)|(a & s1 & t1 & t2 & H1 & H2 & ->)].
  - apply eret_inv in H as (<- & _ & _). left. eauto.
  - apply eret_inv in H1 as (<- & -> & ->). right. eauto.
Qed.

(** An invariant of a fold, relative to the elements read so far. *)
Lemma efold_ind {A B} (I : list A -> B -> Prop) (f : B -> A -> eff S E B) l b s b' s' t :
  efold f l b s = (b', s', t) -> I [] b ->
  (forall seen b x s b' s' t, I seen b -> f b x s = (b', s', t) -> I (seen ++ [x]) b') ->
  I l b'.
Proof.
  intros E0 Hb Hf. change l with ([] ++ l). revert b s t E0 Hb. generalize (@nil A) as seen.
  induction l as [|x l IH]; intros seen b s t E0 Hb; cbn [efold] in E0.
  { apply eret_inv in E0 as (-> & _ & _). by rewrite app_nil_r. }
  apply ebind_inv in E0 as (b1 & s1 & t1 & t2 & E1 & E2 & ->).
  replace (seen ++ x :: l) with ((seen ++ [x]) ++ l) by (by rewrite <- app_assoc).
  eapply IH; [exact E2|]. by eapply Hf.
Qed.
End Effect.

(** ** A program logic over automata

    [arun q t]: the automaton [step] reads the log [t] from state [q].
    [ewp m q Q s]: started in [s], [m] ends in a result and a state, and the
    automaton, started in [q], accepts its log and ends in a state, that are
    related by [Q].  With the automaton [any] this is a logic of results. *)
Section Logic.
Context {S E Q : Type} (step : Q -> E -> option Q).

Fixpoint arun (q : Q) (t : list E) : option Q :=
  match t with
  | [] => Some q
  | e :: t => match step q e with Some q' => arun q' t | None => None end
  end.

Definition ewp {A} (m : eff S E A) (q : Q) (post : A -> S -> Q -> Prop) (s : S) : Prop :=
  let '(a, s', t) := m s in exists q', arun q t = Some q' /\ post a s' q'.

Lemma arun_app q t1 t2 :
  arun q (t1 ++ t2) = match arun q t1 with Some q' => arun q' t2 | None => None end.
Proof. revert q. induction t1 as [|e t1 IH]; intros q; simpl; [done|]. by destruct (step q e). Qed.

Lemma ewp_run {A} (m : eff S E A) q post s a s' t :
  ewp m q post s -> m s = (a, s', t) -> exists q', arun q t = Some q' /\ post a s' q'.
Proof. unfold ewp. by intros H Hm; rewrite Hm in H. Qed.

Lemma ewp_ret {A} (a : A) q (post : A -> S -> Q -> Prop) s : post a s q -> ewp (eret a) q post s.
Proof. intros H. by exists q. Qed.

Lemma ewp_bind {A B} (m : eff S E A) (k : A -> eff S E B) q (post : B -> S -> Q -> Prop) s :
  ewp m q (fun a s' q' => ewp (k a) q' post s') s -> ewp (ebind m k) q post s.
Proof.
  unfold ewp, ebind. destruct (m s) as [[a s1] t1]. intros (q1 & H1 & H).
  destruct (k a s1) as [[b s2] t2]. destruct H as (q2 & H2 & H). exists q2.
  by rewrite arun_app, H1.
Qed.

Lemma ewp_conseq {A} (m : eff S E A) q (post post' : A -> S -> Q -> Prop) s :
  ewp m q post s -> (forall a s' q', post a s' q' -> post' a s' q') -> ewp m q post' s.
Proof.
  unfold ewp. destruct (m s) as [[a s'] t]. intros (q' & H & Hp) Himp. exists q'. auto.
Qed.

(** The result may be related to the program itself. *)
Lemma ewp_self {A} (m : eff S E A) q (post : A -> S -> Q -> Prop) s :
  ewp m q post s -> ewp m q (fun a s' q' => (exists t, m s = (a, s', t)) /\ post a s' q') s.
Proof.
  unfold ewp. destruct (m s) as [[a s'] t]. intros (q' & H & Hp). exists q'. eauto.
Qed.

Lemma ewp_log e q q' (post : unit -> S -> Q -> Prop) s :
  step q e = Some q' -> post tt s q' -> ewp (elog e) q post s.
Proof. intros H Hp. exists q'. simpl. by rewrite H. Qed.

Lemma ewp_silent {A} (f : S -> A * S) q (post : A -> S -> Q -> Prop) s :
  (forall a s', f s = (a, s') -> post a s' q) -> ewp (esilent f) q post s.
Proof. intros H. unfold ewp, esilent. destruct (f s) as [a s'] eqn:E'. exists q. split; [done|by apply H]. Qed.

Lemma ewp_try {A B C} (m : eff S E (result A C)) (k : A -> eff S E (result B C)) q post s :
  ewp m q (fun r s' q' => match r with Ok a => ewp (k a) q' post s' | Err c => post (Err c) s' q' end) s ->
  ewp (try_bind m k) q post s.
Proof.
  intros H. apply ewp_bind. eapply ewp_conseq; [exact H|]. intros [a|c] s' q' H'; [done|].
  by apply ewp_ret.
Qed.

Lemma ewp_fold {A B} (f : B -> A -> eff S E B) l (I : B -> Q -> Prop) b q s :
  I b q -> (forall b x q s, x ∈ l -> I b q -> ewp (f b x) q (fun b' _ q' => I b' q') s) ->
  ewp (efold f l b) q (fun b' _ q' => I b' q') s.
Proof.
  revert b q s. induction l as [|x l IH]; intros b q s Hb Hf; simpl; [by apply ewp_ret|].
  apply ewp_bind. eapply ewp_conseq; [apply Hf; [left|exact Hb]|].
  intros b' s' q' Hb'. apply IH; [done|]. intros ??????. apply Hf; [by right|done].
Qed.
End Logic.

(** The automaton that accepts every log. *)
Definition any {E} (_ : unit) (_ : E) : option unit := Some tt.

(** ** Programs that log certain events only *)

Section Emits.
Context {S E : Type}.

Definition emits (P : E -> Prop) {A} (m : eff S E A) : Prop :=
  forall s a s' t, m s = (a, s', t) -> Forall P t.

Variable P : E -> Prop.
Lemma emits_ret {A} (a : A) : emits P (eret a).
Proof. intros s b s' t (_ & _ & ->)%eret_inv. constructor. Qed.
Lemma emits_silent {A} (f : S -> A * S) : emits P (esilent f).
Proof. intros s b s' t (_ & ->)%esilent_inv. constructor. Qed.
Lemma emits_log e : P e -> emits P (elog e).
Proof. intros He s b s' t (_ & ->)%elog_inv. by constructor. Qed.
Lemma emits_bind {A B} (m : eff S E A) (k : A -> eff S E B) :
  emits P m -> (forall a, emits P (k a)) -> emits P (ebind m k).
Proof.
  intros Hm Hk s b s' t (a & s1 & t1 & t2 & E1 & E2 & ->)%ebind_inv.
  apply Forall_app. split; [by eapply Hm|by eapply Hk].
Qed.
Lemma emits_try {A B C} (m : eff S E (result A C)) (k : A -> eff S E (result B C)) :
  emits P m -> (forall a, emits P (k a)) -> emits P (try_bind m k).
Proof. intros Hm Hk. apply emits_bind; [done|]. intros [a|c]; [apply Hk|apply emits_ret]. Qed.
Lemma emits_fold {A B} (f : B -> A -> eff S E B) l b : (forall b a, emits P (f b a)) -> emits P (efold f l b).
Proof.
  intros Hf. revert b. induction l as [|a l IH]; intros b; [apply emits_ret|].
  apply emits_bind; [apply Hf|intros; apply IH].
Qed.
Lemma emits_weaken (Q : E -> Prop) {A} (m : eff S E A) :
  emits Q m -> (forall e, Q e -> P e) -> emits P m.
Proof. intros Hm Hi s a s' t Em. eapply Forall_impl; [by eapply Hm|done]. Qed.
End Emits.

(** The same for a test on events. *)
Section Only.
Context {S E : Type} (ok : E -> bool).

Definition only {A} (m : eff S E A) : Prop :=
  forall s a s' t, m s = (a, s', t) -> forallb ok t = true.

Lemma only_emits {A} (m : eff S E A) : only m <-> emits (fun e => ok e = true) m.
Proof.
  split; intros Hm s a s' t Em; [apply Forall_forall; intros e He|apply forallb_forall; intros e He].
  - exact (proj1 (forallb_forall ok t) (Hm _ _ _ _ Em) e (proj1 (list_elem_of_In _ _) He)).
  - exact (proj1 (Forall_forall _ _) (Hm _ _ _ _ Em) e (proj2 (list_elem_of_In _ _) He)).
Qed.
Lemma only_ret {A} (a : A) : only (eret a).
Proof. apply only_emits, emits_ret. Qed.
Lemma only_silent {A} (f : S -> A * S) : only (esilent f).
Proof. apply only_emits, emits_silent. Qed.
Lemma only_log e : ok e = true -> only (elog e).
Proof. intros He. by apply only_emits, emits_log. Qed.
Lemma only_bind {A B} (m : eff S E A) (k : A -> eff S E B) :
  only m -> (forall a, only (k a)) -> only (ebind m k).
Proof. intros Hm Hk. apply only_emits, emits_bind; [|intros a]; by apply only_emits. Qed.
Lemma only_try {A B C} (m : eff S E (result A C)) (k : A -> eff S E (result B C)) :
  only m -> (forall a, only (k a)) -> only (try_bind m k).
Proof. intros Hm Hk. apply only_emits, emits_try; [|intros a]; by apply only_emits. Qed.
Lemma only_fold {A B} (f : B -> A -> eff S E B) l b : (forall b a, only (f b a)) -> only (efold f l b).
Proof. intros Hf. apply only_emits, emits_fold. intros. by apply only_emits. Qed.
End Only.

Create HintDb only.
#[export] Hint Resolve emits_ret emits_silent : only.
#[export] Hint Resolve only_ret only_silent : only.
#[export] Hint Extern 1 (only _ (elog _)) => apply only_log; reflexivity : only.

(** Walks through the binds and matches of a program. *)
Ltac only_step :=
  match goal with
  | |- only _ (ebind _ _) => apply only_bind; [|intros]
  | |- only _ (try_bind _ _) => apply only_try; [|intros]
  | |- only _ (efold _ _ _) => apply only_fold; intros
  | |- only _ (match ?x with _ => _ end) => destruct x
  | |- emits _ (ebind _ _) => apply emits_bind; [|intros]
  | |- emits _ (try_bind _ _) => apply emits_try; [|intros]
  | |- emits _ (efold _ _ _) => apply emits_fold; intros
  | |- emits _ (match ?x with _ => _ end) => destruct x
  end.
Ltac only_go := repeat first [progress eauto 1 with only nocore | only_step].

Declare Scope effect_scope.
Notation "x <~ e ;; k" := (ebind e (fun x => k))
  (at level 100, e at next level, right associativity) : effect_scope.
Notation "e ;~ k" := (ebind e (fun _ => k))
  (at level 100, right associativity) : effect_scope.
Notation "x <~? e ;; k" := (try_bind e (fun x => k))
  (at level 100, e at next level, right associativity) : effect_scope.

(** Invert an equation about a program, one bind at a time. *)
Ltac inv_eff H :=
  lazymatch type of H with
  | ebind _ _ _ = _ =>
      let a := fresh "a" in let s := fresh "s" in let t1 := fresh "t" in let t2 := fresh "t" in
      let H1 := fresh "Hm" in
      apply ebind_inv in H as (a & s & t1 & t2 & H1 & H & ->)
  | eret _ _ = _ => apply eret_inv in H as (-> & -> & ->)
  | elog _ _ = _ => apply elog_inv in H as (-> & ->)
  | esilent _ _ = _ => apply esilent_inv in H as (H & ->)
  end.

Ltac inv_effs := repeat match goal with H : _ = (_, _, _) |- _ => inv_eff H end.

(** One step of a program under [ewp]. *)
Ltac ewp_step :=
  cbv beta;
  lazymatch goal with
  | |- ewp _ (ebind _ _) _ _ _ => apply ewp_bind
  | |- ewp _ (try_bind _ _) _ _ _ => apply ewp_try
  | |- ewp _ (eret _) _ _ _ => apply ewp_ret
  | |- ewp _ (elog _) _ _ _ => eapply ewp_log; [try reflexivity|]
  | |- ewp _ (esilent _) _ _ _ => apply ewp_silent; intros ?a ?s ?Hs
  end.
