(* ===== verification/Disk.v ===== *)
(** * A file system

    What the coordination writes use of std::fs, as programs over a [Disk].  A
    path is the list of its components: a name that holds a separator is outside
    of the model.  Each call consumes a [Tick]: first other processes act on the
    files ([meanwhile]), then the call fails or is carried out, by the tick's
    answer to a read or to a write.  A failing write may have written the
    beginning of its text ([CutShort]).  Asking whether a path exists does not fail.  Past the end of the list of ticks nothing
    interferes and nothing fails but for what is on the disk.

    [wp] is the logic of these programs for a process that is [alone]: others
    leave the disk as it is, calls may fail. *)

From stdpp Require Import gmap.
From S2P Require Import Prelude Utf8 Text Effect.

Local Open Scope string_scope.
Local Open Scope list_scope.
Local Open Scope effect_scope.

Abbreviation path := (list string).
Definition path_eq_dec : EqDecision path := _.
Definition path_countable : Countable path := _.
Abbreviation Files := (@gmap path path_eq_dec path_countable string).
Abbreviation Dirs := (@gset path path_eq_dec path_countable).

Inductive Fault := NoTrace (source : string) | CutShort (source : string) (n : nat).
Record Tick := mkTick { meanwhile : Files -> Files; read_fault : option string; fault : option Fault }.
Record Disk := mkDisk { files : Files; dirs : Dirs; ticks : list Tick }.

Definition fault_source (f : Fault) : string := match f with NoTrace e | CutShort e _ => e end.
Definition set_files (f : Files -> Files) (d : Disk) : Disk := mkDisk (f (files d)) (dirs d) (ticks d).
Definition set_dirs (f : Dirs -> Dirs) (d : Disk) : Disk := mkDisk (files d) (f (dirs d)) (ticks d).

(** ** Paths *)

Definition parent (p : path) : option path := match p with [] => None | _ => Some (removelast p) end.
Definition file_name (p : path) : option string := last p.
Fixpoint strip_dir (dir p : path) : option path :=
  match dir, p with
  | [], _ => Some p
  | d :: dir, c :: p => if String.eqb d c then strip_dir dir p else None
  | _, _ => None
  end.
Definition extension (name : string) : option string :=
  match split_last "." name with
  | Some (stem, ext) => if String.eqb stem "" then None else Some ext
  | None => None
  end.
Definition file_stem (name : string) : string :=
  match split_last "." name with
  | Some (stem, _) => if String.eqb stem "" then name else stem
  | None => name
  end.
Definition is_json (name : string) : bool := bool_decide (extension name = Some "json").

(** The ancestors of a path, and itself. *)
Definition prefixes (p : path) : list path := map (fun n => take n p) (seq 0 (S (length p))).

(** The name of [q], when it is an entry of [dir]. *)
Definition entry_of (dir q : path) : option string :=
  match strip_dir dir q with Some [name] => Some name | _ => None end.

(** ** Calls *)

Section Calls.
Context {HO : HashOrder}.

Definition FS (A : Type) : Type := eff Disk Empty_set A.
Definition quiet : Tick := mkTick (fun m => m) None None.
Definition call {A} (f : Tick -> Disk -> A * Disk) : FS A :=
  esilent (fun d =>
    match ticks d with
    | [] => f quiet d
    | t :: ts => f t (mkDisk (meanwhile t (files d)) (dirs d) ts)
    end).
Definition reading {A} (f : option string -> Disk -> A) : FS A := call (fun t d => (f (read_fault t) d, d)).
Definition writing {A} (f : option Fault -> Disk -> A * Disk) : FS A := call (fun t => f (fault t)).

Definition fs_exists (p : path) : FS bool :=
  reading (fun _ d => bool_decide (is_Some (files d !! p)) || bool_decide (p ∈ dirs d)).
Definition fs_is_file (p : path) : FS bool := reading (fun _ d => bool_decide (is_Some (files d !! p))).
Definition fs_is_dir (p : path) : FS bool := reading (fun _ d => bool_decide (p ∈ dirs d)).

Definition not_found : string := "No such file or directory".
Definition dir_names (dir : path) (d : Disk) : gmap string unit :=
  list_to_map (map (fun n => (n, tt))
    (omap (entry_of dir) ((map_to_list (files d)).*1 ++ elements (dirs d)))).
(** The names of a directory's entries, in any order. *)
Definition fs_read_dir (p : path) : FS (result (list string) string) :=
  reading (fun f d =>
    match f with
    | Some e => Err e
    | None => if bool_decide (p ∈ dirs d) then Ok (hm_keys (dir_names p d)) else Err not_found
    end).
Definition fs_read (p : path) : FS (result string string) :=
  reading (fun f d =>
    match f with
    | Some e => Err e
    | None => match files d !! p with Some text => Ok text | None => Err not_found end
    end).

Definition fs_create_dir_all (p : path) : FS (result unit string) :=
  writing (fun f d =>
    match f with
    | Some f => (Err (fault_source f), d)
    | None =>
        if existsb (fun q => bool_decide (is_Some (files d !! q))) (prefixes p) then (Err "Not a directory", d)
        else (Ok tt, set_dirs (union (list_to_set (prefixes p))) d)
    end).

(** May a file be put at [p]? *)
Definition writable (p : path) (ds : Dirs) : bool :=
  match parent p with
  | Some dir => bool_decide (dir ∈ ds) && bool_decide (p ∉ ds)
  | None => false
  end.
(** Puts [text] at [p], where [old] is kept in front of it. *)
Definition put (p : path) (old text : string) (f : option Fault) (d : Disk) : result unit string * Disk :=
  if writable p (dirs d) then
    match f with
    | None => (Ok tt, set_files <[p := old +:+ text]> d)
    | Some (NoTrace e) => (Err e, d)
    | Some (CutShort e n) =>
        (Err e, if (n <? String.length text)%nat then set_files <[p := old +:+ String.substring 0 n text]> d else d)
    end
  else (Err not_found, d).
Definition fs_write (p : path) (text : string) : FS (result unit string) := writing (put p "" text).
Definition fs_append (p : path) (text : string) : FS (result unit string) :=
  writing (fun f d => put p (default "" (files d !! p)) text f d).
Definition fs_copy (p q : path) : FS (result unit string) :=
  writing (fun f d =>
    match files d !! p with
    | Some text => put q "" text f d
    | None => (Err not_found, d)
    end).
Definition fs_remove_file (p : path) : FS (result unit string) :=
  writing (fun f d =>
    match f, files d !! p with
    | Some f, _ => (Err (fault_source f), d)
    | None, Some _ => (Ok tt, set_files (delete p) d)
    | None, None => (Err not_found, d)
    end).
Definition fs_rename (p q : path) : FS (result unit string) :=
  writing (fun f d =>
    match f, files d !! p with
    | Some f, _ => (Err (fault_source f), d)
    | None, Some text =>
        if writable q (dirs d) then (Ok tt, set_files (fun m => <[q := text]> (delete p m)) d) else (Err not_found, d)
    | None, None => (Err not_found, d)
    end).
End Calls.

(** ** Facts on paths *)

Lemma substring_full s : String.substring 0 (String.length s) s = s.
Proof. induction s as [|c s IH]; cbn; [done|by rewrite IH]. Qed.

Lemma strip_dir_app dir p : strip_dir dir (dir ++ p) = Some p.
Proof. induction dir as [|d dir IH]; cbn; [done|]. by rewrite String.eqb_refl. Qed.
Lemma strip_dir_Some dir p q : strip_dir dir p = Some q <-> p = dir ++ q.
Proof.
  split; [|intros ->; apply strip_dir_app]. revert p.
  induction dir as [|d dir IH]; intros p; cbn; [by intros [= ->]|].
  destruct p as [|c p]; [done|]. destruct (String.eqb_spec d c) as [->|]; [|done].
  by intros ->%IH.
Qed.
Lemma entry_of_Some dir q n : entry_of dir q = Some n <-> q = dir ++ [n].
Proof.
  unfold entry_of. destruct (strip_dir dir q) as [r|] eqn:E.
  - apply strip_dir_Some in E as ->. split.
    + destruct r as [|c [|]]; try discriminate. by intros [= ->].
    + by intros ->%app_inv_head.
  - split; [done|]. intros ->. by rewrite strip_dir_app in E.
Qed.
Lemma parent_snoc p n : parent (p ++ [n]) = Some p.
Proof. unfold parent. destruct (p ++ [n]) eqn:E; [by destruct p|]. by rewrite <- E, removelast_last. Qed.
Lemma stage_parent q (s n : string) : parent (q ++ [s; n]) = Some (q ++ [s]).
Proof. change (q ++ [s; n]) with (q ++ [s] ++ [n]). rewrite app_assoc. apply parent_snoc. Qed.
Lemma file_name_snoc p n : file_name (p ++ [n]) = Some n.
Proof. unfold file_name. apply last_snoc. Qed.
Lemma prefixes_self p : p ∈ prefixes p.
Proof.
  unfold prefixes. apply list_elem_of_In, in_map_iff. exists (length p). split; [apply firstn_all|].
  apply in_seq. lia.
Qed.
Lemma prefixes_spec p q : q ∈ prefixes p <-> exists r, p = q ++ r.
Proof.
  unfold prefixes. rewrite list_elem_of_In, in_map_iff. split.
  - intros (n & <- & _). exists (drop n p). by rewrite take_drop.
  - intros [r ->]. exists (length q). rewrite take_app_length, in_seq, length_app. split; [done|lia].
Qed.

(** Every file is in a directory. *)
Definition tree_ok (fs : Files) (ds : Dirs) : Prop :=
  forall p dir, is_Some (fs !! p) -> parent p = Some dir -> dir ∈ ds.
Lemma writable_parent p ds dir : writable p ds = true -> parent p = Some dir -> dir ∈ ds.
Proof. unfold writable. intros H Hp. rewrite Hp in H. by apply andb_true_iff in H as [H%bool_decide_eq_true _]. Qed.
Lemma tree_ok_dirs fs ds ds' : ds ⊆ ds' -> tree_ok fs ds -> tree_ok fs ds'.
Proof. intros Hd Ht p dir Hp Hq. apply Hd. by eapply Ht. Qed.
Lemma tree_ok_insert p text fs ds : writable p ds = true -> tree_ok fs ds -> tree_ok (<[p := text]> fs) ds.
Proof.
  intros Hw Ht q dir Hq Hdir. destruct (decide (q = p)) as [->|Hne]; [by eapply writable_parent|].
  rewrite lookup_insert_ne in Hq by done. by eapply Ht.
Qed.
Lemma tree_ok_delete p fs ds : tree_ok fs ds -> tree_ok (delete p fs) ds.
Proof. intros Ht q dir [text [_ Hq]%lookup_delete_Some] Hdir. eapply Ht; [by eexists|done]. Qed.

(** ** The logic *)

Section Logic.
Context {HO : HashOrder}.
(** May reads and writes fail for reasons of their own? *)
Variables blind faulty : bool.

Definition alone (ts : list Tick) : Prop :=
  Forall (fun t => (forall m, meanwhile t m = m) /\ (blind = true \/ read_fault t = None) /\
                   (faulty = true \/ fault t = None)) ts.
Definition wp {A} (m : FS A) (Q : A -> Files -> Dirs -> Prop) (fs : Files) (ds : Dirs) : Prop :=
  forall ts, alone ts ->
    let '(a, d, _) := m (mkDisk fs ds ts) in alone (ticks d) /\ Q a (files d) (dirs d).

Lemma wp_run {A} (m : FS A) Q d a d' t :
  wp m Q (files d) (dirs d) -> alone (ticks d) -> m d = (a, d', t) -> alone (ticks d') /\ Q a (files d') (dirs d').
Proof. intros H Hal E. specialize (H (ticks d) Hal). destruct d. cbn in *. by rewrite E in H. Qed.
Lemma wp_ret {A} (a : A) (Q : A -> Files -> Dirs -> Prop) fs ds : Q a fs ds -> wp (eret a) Q fs ds.
Proof. intros HQ ts Hal. by split. Qed.
Lemma wp_bind {A B} (m : FS A) (k : A -> FS B) Q fs ds :
  wp m (fun a fs ds => wp (k a) Q fs ds) fs ds -> wp (ebind m k) Q fs ds.
Proof.
  intros H ts Hal. specialize (H ts Hal). unfold ebind. destruct (m _) as [[a d] t]. destruct H as [Hal' H].
  destruct d as [fs' ds' ts']. specialize (H ts' Hal'). cbn in *. by destruct (k a _) as [[b d''] t''].
Qed.
Lemma wp_try {A B C} (m : FS (result A C)) (k : A -> FS (result B C)) Q fs ds :
  wp m (fun r fs ds => match r with Ok a => wp (k a) Q fs ds | Err c => Q (Err c) fs ds end) fs ds ->
  wp (try_bind m k) Q fs ds.
Proof.
  intros H. apply wp_bind. intros ts Hal. specialize (H ts Hal). destruct (m _) as [[[a|c] d] t]; [done|].
  destruct H as [Hal' H]. split; [done|]. by apply wp_ret.
Qed.
Lemma wp_conseq {A} (m : FS A) (Q Q' : A -> Files -> Dirs -> Prop) fs ds :
  wp m Q fs ds -> (forall a fs' ds', Q a fs' ds' -> Q' a fs' ds') -> wp m Q' fs ds.
Proof.
  intros H Hi ts Hal. specialize (H ts Hal). destruct (m _) as [[a d] t]. destruct H. split; auto.
Qed.
Lemma wp_fold {A B} (f : B -> A -> FS B) (I : list A -> B -> Files -> Dirs -> Prop) l b fs ds :
  I [] b fs ds ->
  (forall seen x rest b fs ds, l = seen ++ x :: rest -> I seen b fs ds -> wp (f b x) (I (seen ++ [x])) fs ds) ->
  wp (efold f l b) (I l) fs ds.
Proof.
  intros Hb Hf.
  assert (forall rest seen b fs ds, l = seen ++ rest -> I seen b fs ds -> wp (efold f rest b) (I l) fs ds) as Hgo.
  { clear b fs ds Hb. induction rest as [|x rest IH]; intros seen b fs ds -> Hb; cbn [efold].
    { apply wp_ret. by rewrite app_nil_r. }
    apply wp_bind. eapply wp_conseq; [by eapply Hf|]. cbn. intros b' fs' ds' Hb'.
    apply (IH (seen ++ [x])); [by rewrite <- app_assoc|done]. }
  by apply (Hgo l []).
Qed.

Lemma wp_call {A} (f : Tick -> Disk -> A * Disk) (Q : A -> Files -> Dirs -> Prop) fs ds :
  (forall k ts, blind = true \/ read_fault k = None -> faulty = true \/ fault k = None ->
     let '(a, d) := f k (mkDisk fs ds ts) in ticks d = ts /\ Q a (files d) (dirs d)) -> wp (call f) Q fs ds.
Proof.
  intros H ts Hal. unfold call, esilent. cbn [ticks files dirs]. destruct ts as [|t ts].
  - specialize (H quiet [] (or_intror eq_refl) (or_intror eq_refl)). destruct (f quiet _) as [a d].
    destruct H as [Ht H]. by rewrite Ht.
  - apply Forall_cons in Hal as [(Hm & Hr & Hf) Hal]. rewrite Hm. specialize (H t ts Hr Hf).
    destruct (f t _) as [a d]. destruct H as [Ht H]. by rewrite Ht.
Qed.
Lemma wp_reading {A} (f : option string -> Disk -> A) (Q : A -> Files -> Dirs -> Prop) fs ds :
  (forall o ts, blind = true \/ o = None -> Q (f o (mkDisk fs ds ts)) fs ds) -> wp (reading f) Q fs ds.
Proof. intros H. apply wp_call. intros k ts Hr _. split; [done|]. by apply H. Qed.
Lemma wp_writing {A} (f : option Fault -> Disk -> A * Disk) (Q : A -> Files -> Dirs -> Prop) fs ds :
  (forall o ts, faulty = true \/ o = None -> let '(a, d) := f o (mkDisk fs ds ts) in
     ticks d = ts /\ Q a (files d) (dirs d)) -> wp (writing f) Q fs ds.
Proof. intros H. apply wp_call. intros k ts _ Hf. by apply H. Qed.

(** A look at the disk that takes no call. *)
Lemma wp_measure {A} (f : Disk -> A) (Q : A -> Files -> Dirs -> Prop) fs ds :
  (forall ts, Q (f (mkDisk fs ds ts)) fs ds) -> wp (esilent (fun d => (f d, d))) Q fs ds.
Proof. intros H ts Hal. by split. Qed.

Lemma wp_exists (p : path) (Q : bool -> Files -> Dirs -> Prop) fs ds :
  Q (bool_decide (is_Some (fs !! p)) || bool_decide (p ∈ ds)) fs ds -> wp (fs_exists p) Q fs ds.
Proof. intros H. apply wp_reading. by intros o ts _. Qed.
Lemma wp_is_file (p : path) (Q : bool -> Files -> Dirs -> Prop) fs ds :
  Q (bool_decide (is_Some (fs !! p))) fs ds -> wp (fs_is_file p) Q fs ds.
Proof. intros H. apply wp_reading. by intros o ts _. Qed.
Lemma wp_is_dir (p : path) (Q : bool -> Files -> Dirs -> Prop) fs ds :
  Q (bool_decide (p ∈ ds)) fs ds -> wp (fs_is_dir p) Q fs ds.
Proof. intros H. apply wp_reading. by intros o ts _. Qed.

Lemma dir_names_spec (p : path) fs ds ts n :
  n ∈ hm_keys (dir_names p (mkDisk fs ds ts)) <-> is_Some (fs !! (p ++ [n])) \/ p ++ [n] ∈ ds.
Proof.
  rewrite hm_keys_elem. unfold dir_names. rewrite <- elem_of_dom, dom_list_to_map_L, elem_of_list_to_set.
  rewrite <- list_fmap_compose, list_fmap_id, list_elem_of_omap. cbn. split.
  - intros (q & Hq & ->%entry_of_Some). rewrite elem_of_app, elem_of_elements in Hq. destruct Hq as [Hq|Hq]; [left|by right].
    apply list_elem_of_fmap in Hq as ([q t] & Hq & Hin). cbn in Hq. subst q.
    apply elem_of_map_to_list in Hin. by exists t.
  - intros H. exists (p ++ [n]). rewrite entry_of_Some. split; [|done]. rewrite elem_of_app, elem_of_elements.
    destruct H as [[t Ht]|]; [left|by right]. apply list_elem_of_fmap. exists (p ++ [n], t). split; [done|].
    by apply elem_of_map_to_list.
Qed.

Lemma wp_read_dir (p : path) (Q : result (list string) string -> Files -> Dirs -> Prop) fs ds :
  (forall e, blind = true \/ p ∉ ds -> Q (Err e) fs ds) ->
  (forall names, p ∈ ds -> NoDup names ->
     (forall n, n ∈ names <-> is_Some (fs !! (p ++ [n])) \/ p ++ [n] ∈ ds) -> Q (Ok names) fs ds) ->
  wp (fs_read_dir p) Q fs ds.
Proof.
  intros He Ho. apply wp_reading. intros [o|] ts Hf; cbn.
  { apply He. destruct Hf as [|]; [by left|done]. }
  case_bool_decide as Hp; [|apply He; by right].
  apply Ho; [done|apply hm_keys_NoDup|]. intros n. apply dir_names_spec.
Qed.
Lemma wp_read (p : path) (Q : result string string -> Files -> Dirs -> Prop) fs ds :
  (forall e, blind = true \/ fs !! p = None -> Q (Err e) fs ds) ->
  (forall text, fs !! p = Some text -> Q (Ok text) fs ds) ->
  wp (fs_read p) Q fs ds.
Proof.
  intros He Ho. apply wp_reading. intros [o|] ts Hf; cbn.
  { apply He. destruct Hf as [|]; [by left|done]. }
  destruct (fs !! p) eqn:Hp; [by apply Ho|apply He; by right].
Qed.
Lemma wp_create_dir_all (p : path) (Q : result unit string -> Files -> Dirs -> Prop) fs ds :
  (forall e, faulty = true \/ (exists q, q ∈ prefixes p /\ is_Some (fs !! q)) -> Q (Err e) fs ds) ->
  Q (Ok tt) fs (list_to_set (prefixes p) ∪ ds) ->
  wp (fs_create_dir_all p) Q fs ds.
Proof.
  intros He Ho. apply wp_writing. intros [o|] ts Hf; cbn -[prefixes existsb].
  { split; [done|]. apply He. destruct Hf as [|]; [by left|done]. }
  destruct (existsb _ _) eqn:Hx; cbn -[prefixes existsb]; (split; [done|]); [|done].
  apply He. right. apply existsb_exists in Hx as (q & Hq & Hs%bool_decide_eq_true). exists q.
  split; [by apply list_elem_of_In|done].
Qed.

(** What a put that fails may leave behind. *)
Definition torn (p : path) (old text : string) (fs : Files) (ds : Dirs) (fs' : Files) : Prop :=
  fs' = fs \/ exists n, (n < String.length text)%nat /\ writable p ds = true /\ fs' = <[p := old +:+ String.substring 0 n text]> fs.

Lemma tree_ok_torn p old text fs ds fs' : torn p old text fs ds fs' -> tree_ok fs ds -> tree_ok fs' ds.
Proof. intros [->|(n & _ & Hw & ->)]; [done|by apply tree_ok_insert]. Qed.

Lemma put_cases (p : path) (old text : string) (Q : result unit string -> Files -> Dirs -> Prop) fs ds ts o :
  (forall e fs', faulty = true \/ (fs' = fs /\ writable p ds = false) ->
     torn p old text fs ds fs' -> Q (Err e) fs' ds) ->
  (writable p ds = true -> Q (Ok tt) (<[p := old +:+ text]> fs) ds) ->
  faulty = true \/ o = None ->
  let '(a, d) := put p old text o (mkDisk fs ds ts) in ticks d = ts /\ Q a (files d) (dirs d).
Proof.
  intros He Ho Hf. unfold put.
  cbn [dirs].
  destruct (writable p _) eqn:Hw; cbn -[Nat.ltb].
  2:{ split; [done|]. apply He; [by right|by left]. }
  destruct o as [[e|e n]|]; [| |split; [done|by apply Ho]]; (destruct Hf as [Hf|]; [|done]).
  - split; [done|]. apply He; [by left|by left].
  - destruct (n <? String.length text)%nat eqn:Hn; (split; [done|]); apply He; try (by left).
    right. exists n. split; [by apply Nat.ltb_lt|done].
Qed.
Lemma wp_write (p : path) (text : string) (Q : result unit string -> Files -> Dirs -> Prop) fs ds :
  (forall e fs', faulty = true \/ (fs' = fs /\ writable p ds = false) ->
     torn p "" text fs ds fs' -> Q (Err e) fs' ds) ->
  (writable p ds = true -> Q (Ok tt) (<[p := text]> fs) ds) ->
  wp (fs_write p text) Q fs ds.
Proof. intros He Ho. apply wp_writing. intros o ts Hf. by apply (put_cases p "" text Q). Qed.
Lemma wp_append (p : path) (text : string) (Q : result unit string -> Files -> Dirs -> Prop) fs ds :
  (forall e fs', faulty = true \/ (fs' = fs /\ writable p ds = false) ->
     torn p (default "" (fs !! p)) text fs ds fs' -> Q (Err e) fs' ds) ->
  (writable p ds = true -> Q (Ok tt) (<[p := default "" (fs !! p) +:+ text]> fs) ds) ->
  wp (fs_append p text) Q fs ds.
Proof. intros He Ho. apply wp_writing. intros o ts Hf. by apply (put_cases p (default "" (fs !! p)) text Q). Qed.
Lemma wp_copy (p q : path) (Q : result unit string -> Files -> Dirs -> Prop) fs ds :
  (forall e fs', faulty = true \/ (fs' = fs /\ (fs !! p = None \/ writable q ds = false)) ->
     torn q "" (default "" (fs !! p)) fs ds fs' -> Q (Err e) fs' ds) ->
  (forall text, fs !! p = Some text -> writable q ds = true -> Q (Ok tt) (<[q := text]> fs) ds) ->
  wp (fs_copy p q) Q fs ds.
Proof.
  intros He Ho. apply wp_writing. intros o ts Hf. cbn. destruct (fs !! p) as [text|] eqn:Hp; cbn.
  - apply (put_cases q "" text Q); [|by apply Ho|done]. intros e fs' H. apply He. tauto.
  - split; [done|]. apply He; [right; tauto|by left].
Qed.
Lemma wp_remove_file (p : path) (Q : result unit string -> Files -> Dirs -> Prop) fs ds :
  (forall e, faulty = true \/ fs !! p = None -> Q (Err e) fs ds) ->
  (is_Some (fs !! p) -> Q (Ok tt) (delete p fs) ds) ->
  wp (fs_remove_file p) Q fs ds.
Proof.
  intros He Ho. apply wp_writing. intros [o|] ts Hf; cbn.
  { split; [done|]. apply He. destruct Hf as [|]; [by left|done]. }
  destruct (fs !! p) eqn:Hp; cbn; (split; [done|]); [by apply Ho|apply He; by right].
Qed.
Lemma wp_rename (p q : path) (Q : result unit string -> Files -> Dirs -> Prop) fs ds :
  (forall e, faulty = true \/ fs !! p = None \/ writable q ds = false -> Q (Err e) fs ds) ->
  (forall text, fs !! p = Some text -> writable q ds = true ->
     Q (Ok tt) (<[q := text]> (delete p fs)) ds) ->
  wp (fs_rename p q) Q fs ds.
Proof.
  intros He Ho. apply wp_writing. intros [o|] ts Hf; cbn.
  { split; [done|]. apply He. destruct Hf as [|]; [by left|done]. }
  destruct (fs !! p) eqn:Hp; cbn; [|split; [done|apply He; tauto]].
  destruct (writable q _) eqn:Hw; cbn; (split; [done|]); [by apply Ho|apply He; tauto].
Qed.
End Logic.

(** One step of a program under [wp]. *)
Ltac wp_step :=
  cbv beta;
  lazymatch goal with
  | |- wp _ _ (ebind _ _) _ _ _ => apply wp_bind
  | |- wp _ _ (try_bind _ _) _ _ _ => apply wp_try
  | |- wp _ _ (eret _) _ _ _ => apply wp_ret
  | |- wp _ _ (fs_exists _) _ _ _ => apply wp_exists
  | |- wp _ _ (fs_is_file _) _ _ _ => apply wp_is_file
  | |- wp _ _ (fs_is_dir _) _ _ _ => apply wp_is_dir
  | |- wp _ _ (fs_read_dir _) _ _ _ => apply wp_read_dir
  | |- wp _ _ (fs_read _) _ _ _ => apply wp_read
  | |- wp _ _ (fs_create_dir_all _) _ _ _ => apply wp_create_dir_all
  | |- wp _ _ (fs_write _ _) _ _ _ => apply wp_write
  | |- wp _ _ (fs_append _ _) _ _ _ => apply wp_append
  | |- wp _ _ (fs_copy _ _) _ _ _ => apply wp_copy
  | |- wp _ _ (fs_remove_file _) _ _ _ => apply wp_remove_file
  | |- wp _ _ (fs_rename _ _) _ _ _ => apply wp_rename
  end.
