(* ===== verification/CoordWrite.v ===== *)
(** * Coordination writes

    crates/engine-core/src/coord/write.rs: the one seam every write of the shared
    coordination directory goes through, and its verbs on the registry of lanes,
    the capacity slots and the leases.  CoordQueue holds the verbs on messages.

    The record types, their [Coord] wrapper and their serde are okf_core's, the
    JSON text is serde_json's and RFC 3339 is chrono's: classes [CoordLibs] and
    [CoordType].  The records are declared with the fields the code's literals
    give them. *)

From Stdlib Require Import Ascii.
From stdpp Require Import gmap pretty.
From S2P Require Import Prelude Json Utf8 Text Effect Disk.

Local Open Scope string_scope.
Local Open Scope list_scope.
Local Open Scope effect_scope.

(** ** What the crates outside of the repository provide *)

Class CoordLibs (X : Extern) : Type := {
  to_string_pretty : value -> result string string;
  to_text : value -> result string string;
  from_text : string -> option value;
  entries_of_object : value -> option (list (string * value));
  (** a [Value] is a finite tree *)
  value_depth : value -> nat;
  parse_from_rfc3339 : string -> option instant;
  LeaseKind : Type;
  LeaseScope : Type;
  PidSource : Type;
  OwnProcess : PidSource;
  MessageRecord : Type;
  HeartbeatValue : Type;
  heartbeat_to_raw : HeartbeatValue -> string
}.

(** serde of a record type, and of [Coord<T>]: [None] is [Coord::Legacy]. *)
Class CoordType {X : Extern} (T : Type) : Type := {
  to_value : T -> result value string;
  coord_of_value : value -> result (option T) string;
  coord_of_str : string -> option (option T)
}.
Arguments CoordType X T : clear implicits.

Section Records.
Context {X : Extern} {CL : CoordLibs X}.

Record SlotRecord := mkSlotRecord {
  sl_repo : string;
  sl_pid : Z;
  sl_pid_source : PidSource;
  sl_agent : option string;
  category : string;
  sl_started_at : f64;
  sl_host : option string
}.
Record RegistryClaim := mkRegistryClaim {
  cm_agent_name : string;
  cm_repo : string;
  cm_lane : string;
  cm_roadmap : string;
  cm_started_at : string;
  cm_heartbeat : string;
  cm_current_block : option string;
  cm_block_started_at : option string;
  cm_host : option string
}.
Record LeaseRecord := mkLeaseRecord {
  ls_repo : string;
  ls_lane : string;
  ls_agent : string;
  ls_acquired_at : string;
  ls_kind : LeaseKind;
  ls_heartbeat : option string;
  ls_scope : option LeaseScope;
  ls_host : option string
}.
End Records.

Inductive CoordWriteError :=
| Invalid (p : path) (reason : string)
| Io (p : path) (source : string)
| LeaseHeld (p : path) (repo holder_agent holder_lane : string).

(** The status the service answers an error with. *)
Definition coord_write_error_response (e : CoordWriteError) : Z :=
  match e with Invalid _ _ => 400 | Io _ _ => 500 | LeaseHeld _ _ _ _ => 409 end.

(** ** The seam *)

Definition PREV_SUBDIR : string := ".prev".

Section Seam.
Context {X : Extern} {HO : HashOrder} {CL : CoordLibs X}.
Variable lock_dir : path.

(** [map_err] to [Io] at a path *)
Definition io_at {A} (p : path) (m : FS (result A string)) : FS (result A CoordWriteError) :=
  r <~ m ;; eret (match r with Ok a => Ok a | Err e => Err (Io p e) end).

Definition write_text (p : path) (text : string) : FS (result unit CoordWriteError) :=
  _ <~? match parent p with
        | Some dir => io_at p (fs_create_dir_all dir)
        | None => eret (Ok tt)
        end ;;
  io_at p (fs_write p text).

Definition prev_path (p : path) : path :=
  lock_dir ++ PREV_SUBDIR :: match strip_dir lock_dir p with
                             | Some rel => rel
                             | None => match file_name p with Some name => [name] | None => p end
                             end.
Definition snapshot_existing (p : path) : FS (result unit CoordWriteError) :=
  there <~ fs_exists p ;;
  if negb there then eret (Ok tt)
  else
    let prev := prev_path p in
    _ <~? match parent prev with
          | Some dir => io_at prev (fs_create_dir_all dir)
          | None => eret (Ok tt)
          end ;;
    _ <~? io_at prev (fs_copy p prev) ;;
    eret (Ok tt).

Definition stamp_host (host : option string) (v : value) : value :=
  match host with
  | Some h => if is_object v then jset v "host" (jstr h) else v
  | None => v
  end.

Definition write_coord_json (T : Type) {CT : CoordType X T} (p : path) (v : value) (host : option string)
    : FS (result unit CoordWriteError) :=
  match coord_of_value (T := T) v with
  | Err e => eret (Err (Invalid p ("record does not deserialize into its typed shape: " +:+ e)))
  | Ok None => eret (Err (Invalid p "record did not match its strict typed shape (legacy/unrecognized format)"))
  | Ok (Some _) =>
      let v := stamp_host host v in
      _ <~? snapshot_existing p ;;
      match to_string_pretty v with
      | Err e => eret (Err (Invalid p ("record failed to serialize: " +:+ e)))
      | Ok text => write_text p text
      end
  end.

Definition write_heartbeat_file (p : path) (v : HeartbeatValue) : FS (result unit CoordWriteError) :=
  _ <~? snapshot_existing p ;;
  write_text p (heartbeat_to_raw v).

(** ** Names *)

Definition MAX_LANES_BY_CATEGORY : list (string * nat) := [("browser-automation", 2%nat); ("native-build", 4%nat)].
Definition cap_for_category (category : string) : nat :=
  match List.find (fun nc => String.eqb nc.1 category) MAX_LANES_BY_CATEGORY with
  | Some (_, cap) => cap
  | None => match MAX_LANES_BY_CATEGORY with (_, cap) :: _ => cap | [] => 0 end
  end.

Definition is_safe_char (c : string) : bool :=
  match c with
  | String a "" =>
      let n := byte a in
      (is_ascii_digit a || ((65 <=? n) && (n <=? 90)) || ((97 <=? n) && (n <=? 122)))%N
      || Ascii.eqb a "-" || Ascii.eqb a "_" || Ascii.eqb a "."
  | _ => false
  end.
Definition safe_component (raw : string) : string :=
  String.concat "" (map (fun c => if is_safe_char c then c else "_") (chars raw)).

Definition registry_claim_path (agent_name : string) : path :=
  lock_dir ++ ["lane-agents"; "agent-" +:+ safe_component agent_name +:+ ".json"].
Definition slot_path (repo agent_name : string) : path :=
  lock_dir ++ [safe_component repo +:+ "__agent-" +:+ safe_component agent_name +:+ ".json"].
Definition lease_path (repo : string) : path :=
  lock_dir ++ ["leases"; "lease-" +:+ safe_component repo +:+ ".json"].

Definition read_typed (T : Type) {CT : CoordType X T} (p : path) : FS (option T) :=
  r <~ fs_read p ;;
  eret (match r with
        | Ok text => match coord_of_str (T := T) text with Some typed => typed | None => None end
        | Err _ => None
        end).

(** ** The registry and the capacity slots *)

Context {CS : CoordType X SlotRecord} {CR : CoordType X RegistryClaim} {CE : CoordType X LeaseRecord}.

Definition read_slot (category' : string) (acc : list (string * SlotRecord)) (name : string)
    : FS (list (string * SlotRecord)) :=
  let p := lock_dir ++ [name] in
  file <~ fs_is_file p ;;
  if negb file || negb (is_json name) then eret acc
  else
    slot <~ read_typed SlotRecord p ;;
    eret (match slot with
          | Some slot => if String.eqb (category slot) category' then acc ++ [(name, slot)] else acc
          | None => acc
          end).
(** The slots by file name; every path is in the lock directory itself. *)
Definition category_slot_entries (category : string) : FS (list (string * SlotRecord)) :=
  r <~ fs_read_dir lock_dir ;;
  match r with
  | Err _ => eret []
  | Ok names =>
      out <~ efold (read_slot category) names [] ;;
      eret (sort_by (fun a b => String.compare a.1 b.1) out)
  end.

Record RegisterRequest := mkRegisterRequest {
  rg_agent_name : string;
  rg_repo : string;
  rg_lane : string;
  rg_roadmap : string;
  rg_host : option string;
  rg_category : option string;
  rg_now_iso : string;
  rg_now_epoch : f64;
  rg_pid : Z
}.
Record RegisterOutcome := mkRegisterOutcome { allowed : bool; reason : option string; active : list string }.

(** [serde_json::to_value], then the seam *)
Definition write_record {T : Type} {CT : CoordType X T} (what : string) (p : path) (r : T) (host : option string)
    : FS (result unit CoordWriteError) :=
  match to_value r with
  | Err e => eret (Err (Invalid p (what +:+ " failed to serialize: " +:+ e)))
  | Ok v => write_coord_json T p v host
  end.

Definition capacity_reason (category : string) (active_repos : list string) (cap : nat) : string :=
  "fleet at capacity for '" +:+ category +:+ "' (" +:+ pretty (length active_repos) +:+ "/" +:+ pretty cap
  +:+ " lanes active): " +:+ String.concat ", " active_repos.
(** Refused with the active lanes, or the slot is written. *)
Definition take_slot (req : RegisterRequest) (category : string) : FS (result (option RegisterOutcome) CoordWriteError) :=
  let this_slot_path := slot_path (rg_repo req) (rg_agent_name req) in
  let cap := cap_for_category category in
  survivors <~ category_slot_entries category ;;
  let already_registered := existsb (fun e => bool_decide (lock_dir ++ [e.1] = this_slot_path)) survivors in
  let active_repos := map (fun e => sl_repo e.2) survivors in
  if negb already_registered && (cap <=? length active_repos)%nat
  then eret (Ok (Some (mkRegisterOutcome false (Some (capacity_reason category active_repos cap)) active_repos)))
  else
    _ <~? write_record "slot record" this_slot_path
            (mkSlotRecord (rg_repo req) (rg_pid req) OwnProcess (Some (rg_agent_name req)) category
               (rg_now_epoch req) None) (rg_host req) ;;
    eret (Ok None).
Definition register (req : RegisterRequest) : FS (result RegisterOutcome CoordWriteError) :=
  refused <~? match rg_category req with
              | Some category => take_slot req category
              | None => eret (Ok None)
              end ;;
  match refused with
  | Some outcome => eret (Ok outcome)
  | None =>
      let claim_path := registry_claim_path (rg_agent_name req) in
      existing_claim <~ read_typed RegistryClaim claim_path ;;
      _ <~? write_record "registry claim" claim_path
              (mkRegistryClaim (rg_agent_name req) (rg_repo req) (rg_lane req) (rg_roadmap req)
                 (match existing_claim with Some c => cm_started_at c | None => rg_now_iso req end)
                 (rg_now_iso req)
                 (existing_claim ≫= cm_current_block) (existing_claim ≫= cm_block_started_at) None)
              (rg_host req) ;;
      eret (Ok (mkRegisterOutcome true None []))
  end.

Record HeartbeatRequest := mkHeartbeatRequest {
  hb_agent_name : string;
  hb_host : option string;
  hb_now_iso : string;
  hb_current_block : option string;
  hb_block_started_at : option string
}.
Definition heartbeat (req : HeartbeatRequest) : FS (result unit CoordWriteError) :=
  let claim_path := registry_claim_path (hb_agent_name req) in
  existing <~ read_typed RegistryClaim claim_path ;;
  match existing with
  | None => eret (Err (Invalid claim_path ("no existing registry claim for agent `" +:+ hb_agent_name req +:+ "` to heartbeat")))
  | Some c =>
      write_record "registry claim" claim_path
        (mkRegistryClaim (cm_agent_name c) (cm_repo c) (cm_lane c) (cm_roadmap c) (cm_started_at c) (hb_now_iso req)
           (match hb_current_block req with Some b => Some b | None => cm_current_block c end)
           (match hb_block_started_at req with Some b => Some b | None => cm_block_started_at c end) None)
        (hb_host req)
  end.

(** [release] and [unlease]: the file goes, if it is there. *)
Definition remove_if_there (p : path) : FS (result bool CoordWriteError) :=
  existed <~ fs_exists p ;;
  if existed : bool then _ <~? io_at p (fs_remove_file p) ;; eret (Ok existed) else eret (Ok existed).
Definition release (agent_name : string) : FS (result bool CoordWriteError) :=
  remove_if_there (registry_claim_path agent_name).

(** ** Leases *)

Definition LEASE_STALE_THRESHOLD_SECONDS : Z := 180 * 60.
(** [num_milliseconds] rounds toward zero; the quotient by a thousand is compared
    as a binary64, whose rounding keeps the order with the threshold. *)
Definition lease_is_stale (existing : LeaseRecord) (now_iso : string) : bool :=
  match parse_from_rfc3339 now_iso with
  | None => false
  | Some now =>
      match parse_from_rfc3339 (default (ls_acquired_at existing) (ls_heartbeat existing)) with
      | None => false
      | Some then_ => (LEASE_STALE_THRESHOLD_SECONDS * 1000 <? Z.quot (now - then_) 1000000)%Z
      end
  end.

Record LeaseRequest := mkLeaseRequest {
  lq_repo : string;
  lq_lane : string;
  lq_agent : string;
  lq_kind : LeaseKind;
  lq_scope : option LeaseScope;
  lq_host : option string;
  lq_now_iso : string;
  lq_window : option (list string);
  lq_lane_blocks : list string
}.
Definition outside_window (req : LeaseRequest) : option string :=
  List.find (fun block => negb (bool_decide (block ∈ lq_lane_blocks req))) (default [] (lq_window req)).
Definition lease_record (req : LeaseRequest) (existing : option LeaseRecord) : LeaseRecord :=
  mkLeaseRecord (lq_repo req) (lq_lane req) (lq_agent req)
    (match existing with
     | Some l => if String.eqb (ls_agent l) (lq_agent req) then ls_acquired_at l else lq_now_iso req
     | None => lq_now_iso req
     end)
    (lq_kind req) (Some (lq_now_iso req)) (lq_scope req) None.
Definition lease (req : LeaseRequest) : FS (result unit CoordWriteError) :=
  let p := lease_path (lq_repo req) in
  match outside_window req with
  | Some block =>
      eret (Err (Invalid p ("lease window names block `" +:+ block +:+ "`, which is absent from the lane's blocks[]")))
  | None =>
      existing <~ read_typed LeaseRecord p ;;
      match existing with
      | Some l =>
          if negb (String.eqb (ls_agent l) (lq_agent req)) && negb (lease_is_stale l (lq_now_iso req))
          then eret (Err (LeaseHeld p (lq_repo req) (ls_agent l) (ls_lane l)))
          else write_record "lease record" p (lease_record req (Some l)) (lq_host req)
      | None => write_record "lease record" p (lease_record req None) (lq_host req)
      end
  end.

Definition unlease (repo : string) : FS (result bool CoordWriteError) := remove_if_there (lease_path repo).

Inductive UnleaseOutcome := NotHeld | Removed | HeldByOther (agent : string) | Unreadable (p : path).
Definition unlease_own (repo agent : string) : FS (result UnleaseOutcome CoordWriteError) :=
  let p := lease_path repo in
  there <~ fs_exists p ;;
  if negb there then eret (Ok NotHeld)
  else
    record <~ read_typed LeaseRecord p ;;
    match record with
    | None => eret (Ok (Unreadable p))
    | Some l =>
        if negb (String.eqb (ls_agent l) agent) then eret (Ok (HeldByOther (ls_agent l)))
        else _ <~? io_at p (fs_remove_file p) ;; eret (Ok Removed)
    end.
End Seam.

(** ** The seam loses no record *)

Section SeamFacts.
Context {X : Extern} {HO : HashOrder} {CL : CoordLibs X}.
Variable lock_dir : path.
Variables blind faulty : bool.
#[local] Abbreviation wp := (wp blind faulty).
#[local] Abbreviation prev_path := (prev_path lock_dir).

Lemma strip_dir_length dir p rel : strip_dir dir p = Some rel -> length p = (length dir + length rel)%nat.
Proof. intros ->%strip_dir_Some. apply length_app. Qed.
Lemma prev_path_ne p : prev_path p <> p.
Proof.
  intros Heq. unfold CoordWrite.prev_path in Heq. destruct (strip_dir lock_dir p) as [rel|] eqn:E.
  - apply strip_dir_length in E. apply (f_equal length) in Heq. rewrite length_app in Heq. cbn in Heq. lia.
  - rewrite <- Heq, strip_dir_app in E. done.
Qed.
Lemma prev_path_under rel : prev_path (lock_dir ++ rel) = lock_dir ++ PREV_SUBDIR :: rel.
Proof. unfold CoordWrite.prev_path. by rewrite strip_dir_app. Qed.

Lemma wp_io_at {A} (p : path) (m : FS (result A string)) (Q : result A CoordWriteError -> Files -> Dirs -> Prop) fs ds :
  wp m (fun r => Q (match r with Ok a => Ok a | Err e => Err (Io p e) end)) fs ds -> wp (io_at p m) Q fs ds.
Proof. intros H. apply wp_bind. eapply wp_conseq; [exact H|]. intros r fs' ds' HQ. by apply wp_ret. Qed.

Lemma wp_parent (p q : path) (Q : result unit CoordWriteError -> Files -> Dirs -> Prop) fs ds :
  (forall e, Q (Err (Io q e)) fs ds) -> (forall ds', ds ⊆ ds' -> Q (Ok tt) fs ds') ->
  wp (match parent p with Some dir => io_at q (fs_create_dir_all dir) | None => eret (Ok tt) end) Q fs ds.
Proof.
  intros He Ho. destruct (parent p); [|apply wp_ret; by apply Ho].
  apply wp_io_at. wp_step; [intros; apply He|]. apply Ho. set_solver.
Qed.

Lemma wp_write_text (p : path) (text : string) (Q : result unit CoordWriteError -> Files -> Dirs -> Prop) fs ds :
  (forall e fs' ds', ds ⊆ ds' -> torn p "" text fs ds' fs' -> Q (Err (Io p e)) fs' ds') ->
  (forall ds', ds ⊆ ds' -> writable p ds' = true -> Q (Ok tt) (<[p := text]> fs) ds') ->
  wp (write_text p text) Q fs ds.
Proof.
  intros He Ho. apply wp_try, wp_parent; [intros e; apply He; [done|by left]|].
  intros ds' Hd. apply wp_io_at. wp_step; [intros e fs' _; by apply He|by apply Ho].
Qed.

Lemma wp_snapshot (p : path) (Q : result unit CoordWriteError -> Files -> Dirs -> Prop) fs ds :
  (forall e fs' ds', ds ⊆ ds' -> fs' = fs \/ torn (prev_path p) "" (default "" (fs !! p)) fs ds' fs' -> Q (Err (Io (prev_path p) e)) fs' ds') ->
  (fs !! p = None -> Q (Ok tt) fs ds) ->
  (forall text ds', ds ⊆ ds' -> fs !! p = Some text -> writable (prev_path p) ds' = true ->
     Q (Ok tt) (<[prev_path p := text]> fs) ds') ->
  wp (snapshot_existing lock_dir p) Q fs ds.
Proof.
  intros He Hn Ho. apply wp_bind. wp_step. destruct (_ || _) eqn:Hx; cbn [negb].
  2:{ apply wp_ret, Hn. apply orb_false_iff in Hx as [Hx%bool_decide_eq_false _].
      destruct (fs !! p); [|done]. destruct Hx. by eexists. }
  apply wp_try, wp_parent; [intros e; apply He; [done|by left]|].
  intros ds' Hd. apply wp_try, wp_io_at. wp_step.
  - intros e fs' _ Ht. apply He; [done|by right].
  - intros text Hp Hw. apply wp_ret. by apply Ho.
Qed.

(** What a write of [v] at [p] does. *)
Definition seam_effect (T : Type) {CT : CoordType X T} (p : path) (v : value) (host : option string)
    (fs : Files) (ds : Dirs) (r : result unit CoordWriteError) (fs' : Files) (ds' : Dirs) : Prop :=
  ds ⊆ ds' /\ (tree_ok fs ds -> tree_ok fs' ds') /\
  (forall q, q <> p -> q <> prev_path p -> fs' !! q = fs !! q) /\
  match r with
  | Ok _ => exists text typed, coord_of_value (T := T) v = Ok (Some typed) /\
      to_string_pretty (stamp_host host v) = Ok text /\ fs' !! p = Some text /\
      fs' !! prev_path p = match fs !! p with Some old => Some old | None => fs !! prev_path p end
  | Err e =>
      ((exists typed, coord_of_value (T := T) v = Ok (Some typed)) \/
         (fs' = fs /\ exists reason, e = Invalid p reason)) /\
      (forall old, fs !! p = Some old -> fs' !! p = Some old \/ fs' !! prev_path p = Some old) /\
      (fs' !! p = fs !! p \/
         exists text n, to_string_pretty (stamp_host host v) = Ok text /\ (n < String.length text)%nat /\
           fs' !! p = Some (String.substring 0 n text)) /\
      match e with LeaseHeld _ _ _ _ => False | _ => True end
  end.

Lemma torn_lookup_ne p old text fs ds fs' q : torn p old text fs ds fs' -> q <> p -> fs' !! q = fs !! q.
Proof. intros [->|(n & _ & _ & ->)] Hq; [done|by rewrite lookup_insert_ne]. Qed.

Lemma wp_write_coord_json (T : Type) {CT : CoordType X T} (p : path) (v : value) host fs ds :
  wp (write_coord_json lock_dir T p v host) (seam_effect T p v host fs ds) fs ds.
Proof.
  assert (Hne := prev_path_ne p). unfold write_coord_json, seam_effect.
  destruct (coord_of_value v) as [[typed|]|e]; cycle 1.
  1,2: apply wp_ret; split_and!; try done; [right; split; [done|by eexists]|by left|by left].
  apply wp_try, wp_snapshot.
  - intros e fs' ds' Hd Ht. destruct Ht as [->|Ht].
    { split_and!; [done|by apply tree_ok_dirs|done|by left; eexists|by left|by left|done]. }
    assert (fs' !! p = fs !! p) as Hp by (by eapply torn_lookup_ne).
    split_and!; [done| |intros; by eapply torn_lookup_ne|by left; eexists|rewrite Hp; by left|by left|done].
    intros Htree. eapply tree_ok_torn; [done|by eapply tree_ok_dirs].
  - intros Hn. destruct (to_string_pretty (stamp_host host v)) as [text|e] eqn:Et.
    2:{ apply wp_ret. split_and!; [done|done|done|by left; eexists|by left|by left|done]. }
    apply wp_write_text.
    + intros e fs' ds' Hd Ht. split_and!; [done| |intros; by eapply torn_lookup_ne|by left; eexists|by rewrite Hn| |done].
      { intros Htree. eapply tree_ok_torn; [done|by eapply tree_ok_dirs]. }
      destruct Ht as [->|(n & Hlt & _ & ->)]; [by left|right]. exists text, n. by rewrite lookup_insert_eq.
    + intros ds' Hd Hw. split_and!; [done| |intros; by rewrite lookup_insert_ne|].
      { intros Htree. apply tree_ok_insert; [done|by eapply tree_ok_dirs]. }
      exists text, typed. rewrite lookup_insert_eq, lookup_insert_ne, Hn by done. by split_and!.
  - intros old ds' Hd Ho Hwp. set (fs1 := <[prev_path p := old]> fs).
    assert (fs1 !! p = fs !! p) as Hp by (by unfold fs1; rewrite lookup_insert_ne).
    assert (tree_ok fs ds -> tree_ok fs1 ds') as Htree1.
    { intros Htree. apply tree_ok_insert; [done|by eapply tree_ok_dirs]. }
    destruct (to_string_pretty (stamp_host host v)) as [text|e] eqn:Et.
    2:{ apply wp_ret. split_and!; [done|done|intros; by unfold fs1; rewrite lookup_insert_ne|by left; eexists| |by left|done].
        rewrite Hp. by left. }
    apply wp_write_text.
    + intros e fs' ds2 Hd2 Ht.
      assert (fs' !! prev_path p = Some old) as Hprev.
      { erewrite torn_lookup_ne by done. by unfold fs1; rewrite lookup_insert_eq. }
      split_and!; [set_solver| | |by left; eexists| | |done].
      * intros Htree. eapply tree_ok_torn; [done|eapply tree_ok_dirs; [done|auto]].
      * intros q Hq1 Hq2. erewrite torn_lookup_ne by done. by unfold fs1; rewrite lookup_insert_ne.
      * intros old' Ho'. right. by simplify_eq.
      * destruct Ht as [->|(n & Hlt & _ & ->)]; [by left|right]. exists text, n. by rewrite lookup_insert_eq.
    + intros ds2 Hd2 Hw. split_and!; [set_solver| | |].
      * intros Htree. apply tree_ok_insert; [done|eapply tree_ok_dirs; [done|auto]].
      * intros q Hq1 Hq2. by unfold fs1; rewrite !lookup_insert_ne.
      * exists text, typed. rewrite lookup_insert_eq, lookup_insert_ne by done. unfold fs1.
        by rewrite lookup_insert_eq, Ho.
Qed.

(** C24: the seam loses no record.  Whatever calls fail, and however: a value that
    is not a record of its type touches nothing; a write that succeeds leaves the
    record, with its host, at the path, and what was there before in the snapshot;
    after a write that fails, what was there before is at the path or in the
    snapshot, whole; and no other file is touched. *)
Theorem record_survives (T : Type) {CT : CoordType X T} (p : path) (v : value) host d r d' t :
  alone blind faulty (ticks d) -> write_coord_json lock_dir T p v host d = (r, d', t) ->
  (forall q, q <> p -> q <> prev_path p -> files d' !! q = files d !! q) /\
  ((forall typed, coord_of_value (T := T) v <> Ok (Some typed)) ->
     files d' = files d /\ exists reason, r = Err (Invalid p reason)) /\
  (r = Ok tt -> (exists text, to_string_pretty (stamp_host host v) = Ok text /\ files d' !! p = Some text) /\
     forall old, files d !! p = Some old -> files d' !! prev_path p = Some old) /\
  (forall e, r = Err e -> forall old, files d !! p = Some old ->
     files d' !! p = Some old \/ files d' !! prev_path p = Some old).
Proof.
  intros Hal E. destruct (wp_run _ _ _ _ _ _ _ _ (wp_write_coord_json T p v host (files d) (dirs d)) Hal E)
    as [_ (_ & _ & Hq & H)].
  split; [done|]. destruct r as [[]|e].
  - destruct H as (text & typed & Hc & Ht & Hp & Hprev). split_and!; [intros Hn; by destruct (Hn typed)| |done].
    intros _. split; [eauto|]. intros old Ho. by rewrite Hprev, Ho.
  - destruct H as ([[typed Hc]|[Hf [reason ->]]] & Hold & _ & _).
    + split_and!; [intros Hn; by destruct (Hn typed)|done|by intros ? _].
    + split_and!; [intros _; split; [done|by eexists]|done|by intros ? _].
Qed.
End SeamFacts.

(** ** A live lease is not taken *)

Section Leases.
Context {X : Extern} {HO : HashOrder} {CL : CoordLibs X}.
Context {CS : CoordType X SlotRecord} {CR : CoordType X RegistryClaim} {CE : CoordType X LeaseRecord}.
Variable lock_dir : path.
Variable faulty : bool.
#[local] Abbreviation wp := (wp false faulty).
#[local] Abbreviation lease_path := (lease_path lock_dir).

Lemma wp_read_typed (T : Type) {CT : CoordType X T} (p : path) (Q : option T -> Files -> Dirs -> Prop) fs ds :
  Q (text ← fs !! p; mjoin (coord_of_str (T := T) text)) fs ds -> wp (read_typed T p) Q fs ds.
Proof.
  intros H. apply wp_bind. wp_step.
  - intros e [|Hp]; [done|]. apply wp_ret. by rewrite Hp in H.
  - intros text Hp. apply wp_ret. rewrite Hp in H. cbn in H. by destruct (coord_of_str text).
Qed.

Lemma wp_write_record {T : Type} {CT : CoordType X T} what (p : path) (r : T) host fs ds :
  wp (write_record lock_dir what p r host)
    (fun res fs' ds' => (ds ⊆ ds' /\ (tree_ok fs ds -> tree_ok fs' ds')) /\
       (forall q, q <> p -> q <> prev_path lock_dir p -> fs' !! q = fs !! q) /\
       (fs' !! p = fs !! p \/ exists v text n, to_value r = Ok v /\ to_string_pretty (stamp_host host v) = Ok text /\
          (n <= String.length text)%nat /\ fs' !! p = Some (String.substring 0 n text)) /\
       (res = Ok tt -> exists v text, to_value r = Ok v /\ to_string_pretty (stamp_host host v) = Ok text /\
          fs' !! p = Some text)) fs ds.
Proof.
  unfold write_record. destruct (to_value r) as [v|e] eqn:Ev.
  2:{ apply wp_ret. split_and!; [done|done|done|by left|done]. }
  eapply wp_conseq; [apply wp_write_coord_json|]. intros [[]|e] fs' ds' (Hd & Htree & Hq & H).
  - destruct H as (text & typed & _ & Ht & Hp & _). split_and!; [done..| |intros _; eauto].
    right. exists v, text, (String.length text). rewrite substring_full. by split_and!.
  - destruct H as (_ & _ & H & _). split_and!; [done..| |done].
    destruct H as [H|(text & n & Ht & Hn & H)]; [by left|right]. exists v, text, n. split_and!; [done|done|lia|done].
Qed.

Lemma lease_path_not_prev p q : lease_path p <> prev_path lock_dir (lease_path q).
Proof. unfold CoordWrite.lease_path. rewrite prev_path_under. by intros ?%app_inv_head. Qed.

Inductive LeaseOp := OpLease (req : LeaseRequest) | OpUnleaseOwn (repo agent : string).
Definition op_repo (o : LeaseOp) : string := match o with OpLease req => lq_repo req | OpUnleaseOwn repo _ => repo end.
Definition op_agent (o : LeaseOp) : string := match o with OpLease req => lq_agent req | OpUnleaseOwn _ agent => agent end.
(** Did the operation take, or give back, the lease? *)
Definition attempt (o : LeaseOp) : FS bool :=
  match o with
  | OpLease req => r <~ lease lock_dir req ;; eret (is_ok r)
  | OpUnleaseOwn repo agent =>
      r <~ unlease_own lock_dir repo agent ;; eret (match r with Ok Removed => true | _ => false end)
  end.
Fixpoint attempts (os : list LeaseOp) : FS (list bool) :=
  match os with
  | [] => eret []
  | o :: os => b <~ attempt o ;; bs <~ attempts os ;; eret (b :: bs)
  end.
Definition shut_out (l : LeaseRecord) (o : LeaseOp) : Prop :=
  op_agent o <> ls_agent l /\
  match o with OpLease req => lease_is_stale l (lq_now_iso req) = false | OpUnleaseOwn _ _ => True end.

Lemma attempt_kept repo l text o fs ds :
  fs !! lease_path repo = Some text -> coord_of_str (T := LeaseRecord) text = Some (Some l) ->
  (lease_path (op_repo o) = lease_path repo -> shut_out l o) ->
  wp (attempt o) (fun b fs' _ => fs' !! lease_path repo = Some text /\
     (lease_path (op_repo o) = lease_path repo -> b = false)) fs ds.
Proof.
  intros Hp Hc Hout. destruct o as [req|repo' agent]; cbn [op_repo attempt] in *; apply wp_bind.
  - assert (forall r, lease_path (lq_repo req) <> lease_path repo ->
      wp (write_record lock_dir "lease record" (lease_path (lq_repo req)) r (lq_host req))
        (fun a fs' ds' => wp (eret (is_ok a)) (fun b fs'' _ => fs'' !! lease_path repo = Some text /\
           (lease_path (lq_repo req) = lease_path repo -> b = false)) fs' ds') fs ds) as Hw.
    { intros r Hne. eapply wp_conseq; [apply wp_write_record|]. intros res fs' ds' (_ & Hq & _). apply wp_ret.
      rewrite Hq; [done|done|apply lease_path_not_prev]. }
    unfold lease. destruct (outside_window req); [by do 2 apply wp_ret|].
    apply wp_bind, wp_read_typed. destruct (decide (lease_path (lq_repo req) = lease_path repo)) as [He|Hne].
    + rewrite He, Hp. cbn. rewrite Hc. cbn. destruct (Hout He) as [Ha Hs]. cbn in Ha, Hs.
      destruct (String.eqb_spec (ls_agent l) (lq_agent req)); [by destruct Ha|]. rewrite Hs. cbn. by do 2 apply wp_ret.
    + destruct (_ ≫= _) as [l'|]; [|by apply Hw]. destruct (_ && _); [by do 2 apply wp_ret|by apply Hw].
  - unfold unlease_own. apply wp_bind. wp_step. destruct (_ || _); cbn [negb]; [|by do 2 apply wp_ret].
    apply wp_bind, wp_read_typed. destruct (decide (lease_path repo' = lease_path repo)) as [He|Hne].
    + rewrite He, Hp. cbn. rewrite Hc. cbn. destruct (Hout He) as [Ha _]. cbn in Ha.
      destruct (String.eqb_spec (ls_agent l) agent); [by destruct Ha|]. cbn. by do 2 apply wp_ret.
    + destruct (_ ≫= _) as [l'|]; [|by do 2 apply wp_ret]. destruct (negb _); [by do 2 apply wp_ret|].
      apply wp_try, wp_io_at. wp_step; [intros; by apply wp_ret|]. intros _. do 2 apply wp_ret.
      by rewrite lookup_delete_ne.
Qed.

(** C25: a live lease stays with its holder.  Whatever other agents do, one
    operation at a time (leases of any repository and releases of their own), and
    whichever writes fail: a lease whose last sign of life is at most three hours
    before the clock of each request, or cannot be read as a time, stays on disk
    byte for byte, and none of their operations on its file takes effect.  Reads of
    the file must answer. *)
Theorem foreign_lease_kept repo l text os d bs d' t :
  alone false faulty (ticks d) ->
  files d !! lease_path repo = Some text -> coord_of_str (T := LeaseRecord) text = Some (Some l) ->
  Forall (fun o => lease_path (op_repo o) = lease_path repo -> shut_out l o) os ->
  attempts os d = (bs, d', t) ->
  files d' !! lease_path repo = Some text /\
  Forall2 (fun o b => lease_path (op_repo o) = lease_path repo -> b = false) os bs.
Proof.
  intros Hal Hp Hc Hos E. revert d bs t Hal Hp E. induction os as [|o os IH]; intros d bs t Hal Hp E; cbn in E.
  { apply eret_inv in E as (-> & -> & _). by split; [|constructor]. }
  apply Forall_cons in Hos as [Ho Hos]. inv_effs.
  destruct (wp_run _ _ _ _ _ _ _ _ (attempt_kept repo l text o _ _ Hp Hc Ho) Hal Hm) as [Hal1 [Hp1 Hb]].
  edestruct IH as [Hp2 Hbs]; [done|exact Hal1|exact Hp1|eassumption|]. split; [done|by constructor].
Qed.

(** A file that does not read as a lease, whatever it holds, refuses no one: only
    failing calls keep a request within its window from replacing it. *)
Lemma unreadable_lease_replaced req text d r d' t :
  alone false faulty (ticks d) -> files d !! lease_path (lq_repo req) = Some text ->
  mjoin (coord_of_str (T := LeaseRecord) text) = None -> outside_window req = None ->
  lease lock_dir req d = (r, d', t) ->
  (forall e, r = Err e -> forall repo agent lane, e <> LeaseHeld (lease_path (lq_repo req)) repo agent lane) /\
  (r = Ok tt -> files d' !! lease_path (lq_repo req) <> None /\
     files d' !! prev_path lock_dir (lease_path (lq_repo req)) = Some text).
Proof.
  intros Hal Hp Hc Hw E. eapply (wp_run false faulty _ (fun r fs' _ =>
    (forall e, r = Err e -> forall repo agent lane, e <> LeaseHeld (lease_path (lq_repo req)) repo agent lane) /\
    (r = Ok tt -> fs' !! lease_path (lq_repo req) <> None /\
      fs' !! prev_path lock_dir (lease_path (lq_repo req)) = Some text))) in E; [by destruct E| |done].
  unfold lease. rewrite Hw. apply wp_bind, wp_read_typed. rewrite Hp. cbn. rewrite Hc. cbn.
  unfold write_record. destruct (to_value _) as [v|e]; [|apply wp_ret; by split; [intros ? [= <-]|]].
  eapply wp_conseq; [apply wp_write_coord_json|]. intros [[]|e] fs' ds' (_ & _ & _ & H).
  - destruct H as (new & typed & _ & _ & Hnew & Hprev). split; [done|]. intros _.
    by rewrite Hnew, Hprev, Hp.
  - destruct H as (_ & _ & _ & H). split; [|done]. intros e' [= <-] repo agent lane ->. by destruct H.
Qed.
End Leases.

(** ** The capacity of a category *)

Section Capacity.
Context {X : Extern} {HO : HashOrder} {CL : CoordLibs X}.
Context {CS : CoordType X SlotRecord} {CR : CoordType X RegistryClaim} {CE : CoordType X LeaseRecord}.
Variable lock_dir : path.
Variable faulty : bool.
#[local] Abbreviation wp := (wp false faulty).

(** Is the text at [p] a slot of [c]?  Slots are files of the lock directory itself. *)
Definition is_slot (c : string) (p : path) (text : string) : bool :=
  match entry_of lock_dir p with
  | Some name =>
      is_json name && match mjoin (coord_of_str (T := SlotRecord) text) with
                      | Some s => String.eqb (category s) c
                      | None => false
                      end
  | None => false
  end.
Definition slots (c : string) (fs : Files) : Files := filter (fun pt => is_slot c pt.1 pt.2 = true) fs.

Lemma slots_lookup c fs p : slots c fs !! p = (text ← fs !! p; if is_slot c p text then Some text else None).
Proof.
  unfold slots. destruct (fs !! p) as [text|] eqn:Hp; cbn.
  - destruct (is_slot c p text) eqn:Hs; [by apply map_lookup_filter_Some|].
    apply map_lookup_filter_None. right. intros text' Ht. by simplify_eq/=; rewrite Hs.
  - apply map_lookup_filter_None. by left.
Qed.
Lemma slots_frame c fs fs' : (forall n, fs' !! (lock_dir ++ [n]) = fs !! (lock_dir ++ [n])) -> slots c fs' = slots c fs.
Proof.
  intros H. apply map_eq. intros p. rewrite !slots_lookup.
  destruct (entry_of lock_dir p) as [n|] eqn:He; [apply entry_of_Some in He as ->; by rewrite H|].
  unfold is_slot. rewrite He. by destruct (fs !! p), (fs' !! p).
Qed.
(** One file of the lock directory changes. *)
Lemma slots_change c fs fs' p text :
  (forall n, lock_dir ++ [n] <> p -> fs' !! (lock_dir ++ [n]) = fs !! (lock_dir ++ [n])) -> fs' !! p = Some text ->
  slots c fs' = if is_slot c p text then <[p := text]> (slots c fs) else delete p (slots c fs).
Proof.
  intros H Hp. apply map_eq. intros q. destruct (decide (q = p)) as [->|Hne].
  - rewrite slots_lookup, Hp. cbn. by destruct (is_slot c p text); rewrite ?lookup_insert_eq, ?lookup_delete_eq.
  - transitivity (slots c fs !! q); [|by destruct (is_slot c p text); rewrite ?lookup_insert_ne, ?lookup_delete_ne].
    rewrite !slots_lookup. destruct (entry_of lock_dir q) as [n|] eqn:He; [apply entry_of_Some in He as ->; by rewrite H|].
    unfold is_slot. rewrite He. by destruct (fs !! q), (fs' !! q).
Qed.

Lemma slots_name c fs n : is_Some (slots c fs !! (lock_dir ++ [n])) <->
  exists text, fs !! (lock_dir ++ [n]) = Some text /\ is_slot c (lock_dir ++ [n]) text = true.
Proof.
  rewrite slots_lookup. split.
  - intros [text H]. destruct (fs !! _) as [text'|] eqn:E; [|done]. cbn in H. destruct (is_slot _ _ text') eqn:Hs; [eauto|done].
  - intros (text & -> & Hs). cbn. rewrite Hs. by eexists.
Qed.
Lemma slots_size c fs (l : list string) :
  NoDup l -> (forall n, n ∈ l <-> is_Some (slots c fs !! (lock_dir ++ [n]))) -> size (slots c fs) = length l.
Proof.
  intros Hnd Hl. rewrite <- size_dom, <- (length_fmap (fun n => lock_dir ++ [n]) l), <- (size_list_to_set (C := Dirs)).
  - f_equal. apply set_eq. intros p. rewrite elem_of_dom, elem_of_list_to_set, list_elem_of_fmap. split.
    + intros [text Hp]. assert (exists n, p = lock_dir ++ [n]) as [n ->].
      { rewrite slots_lookup in Hp. destruct (fs !! p) as [text'|]; [|done]. cbn in Hp. unfold is_slot in Hp.
        destruct (entry_of lock_dir p) as [n|] eqn:He; [|done]. exists n. by apply entry_of_Some. }
      exists n. split; [done|]. apply Hl. by eexists.
    + intros (n & -> & Hn). by apply Hl.
  - apply NoDup_fmap_2; [|done]. intros n m [= ->]%app_inv_head. done.
Qed.

Lemma wp_category_slots (c : string) (fs : Files) (ds : Dirs) (Q : list (string * SlotRecord) -> Files -> Dirs -> Prop) :
  tree_ok fs ds ->
  (forall out, length out = size (slots c fs) ->
     (forall n, n ∈ out.*1 <-> is_Some (slots c fs !! (lock_dir ++ [n]))) -> Q out fs ds) ->
  wp (category_slot_entries lock_dir c) Q fs ds.
Proof.
  intros Htree HQ. apply wp_bind. wp_step.
  - intros e [|Hn]; [done|]. apply wp_ret.
    assert (forall n, n ∈ [] <-> is_Some (slots c fs !! (lock_dir ++ [n]))) as Hl.
    { intros n. rewrite slots_name. split; [by intros ?%elem_of_nil|]. intros (text & Hp & _). destruct Hn.
      eapply Htree; [by eexists|apply parent_snoc]. }
    apply HQ; [|done]. symmetry. apply (slots_size c fs []); [constructor|done].
  - intros names _ Hnd Hnames. apply wp_bind.
    set (here := fun n => is_some (slots c fs !! (lock_dir ++ [n]))).
    eapply wp_conseq; [apply (wp_fold _ _ _ (fun seen acc fs' ds' => fs' = fs /\ ds' = ds /\ acc.*1 = List.filter here seen)); [done|]|].
    + intros seen n rest acc fs0 ds0 Heq (-> & -> & Hacc). unfold read_slot. apply wp_bind. wp_step.
      rewrite List.filter_app. cbn [List.filter].
      assert (forall b, here n = b -> b = is_some (slots c fs !! (lock_dir ++ [n]))) as Hhere by (by intros ? <-).
      destruct (negb _ || negb (is_json n)) eqn:Hno.
      { apply wp_ret. split_and!; [done|done|]. rewrite Hacc. unfold here. rewrite slots_lookup.
        destruct (fs !! (lock_dir ++ [n])) as [text|] eqn:Hp; cbn; [|by rewrite app_nil_r].
        rewrite bool_decide_eq_true_2 in Hno by (by eexists). cbn in Hno. unfold is_slot, entry_of.
        rewrite strip_dir_app. apply negb_true_iff in Hno. rewrite Hno. cbn. by rewrite app_nil_r. }
      apply orb_false_iff in Hno as [[text Hp]%negb_false_iff%bool_decide_eq_true Hj%negb_false_iff].
      apply wp_bind, wp_read_typed. apply wp_ret. split_and!; [done|done|]. unfold here.
      rewrite slots_lookup, Hp. cbn. unfold is_slot, entry_of. rewrite strip_dir_app, Hj. cbn.
      destruct (mjoin (coord_of_str text)) as [s|]; [|by rewrite app_nil_r].
      destruct (String.eqb (category s) c); cbn; rewrite ?app_nil_r; [|done]. by rewrite fmap_app, Hacc.
    + intros acc fs' ds' (-> & -> & Hacc). apply wp_ret.
      assert (forall n, n ∈ acc.*1 <-> is_Some (slots c fs !! (lock_dir ++ [n]))) as Hl.
      { intros n. rewrite Hacc, list_elem_of_In, filter_In, <- list_elem_of_In, Hnames. unfold here.
        destruct (slots c fs !! _) as [text|] eqn:Hs; cbn.
        - split; [by eexists|]. intros _. split; [left|done]. rewrite slots_lookup in Hs.
          destruct (fs !! _); [by eexists|done].
        - split; [by intros [_ ?]|by intros [? ?]]. }
      apply HQ.
      * rewrite (Permutation_length (sort_by_perm _ _)). symmetry.
        rewrite <- (length_fmap fst acc). apply slots_size; [|done]. rewrite Hacc. by apply NoDup_ListNoDup, List.NoDup_filter, NoDup_ListNoDup.
      * intros n. by rewrite sort_by_perm.
Qed.

(** What the text of a slot reads back as: its category, or nothing when cut. *)
Class SlotText : Prop := {
  slot_reads_back (s s' : SlotRecord) v host text :
    to_value s = Ok v -> to_string_pretty (stamp_host host v) = Ok text ->
    coord_of_str (T := SlotRecord) text = Some (Some s') -> category s' = category s;
  cut_slot_unreadable (s : SlotRecord) v host text n :
    to_value s = Ok v -> to_string_pretty (stamp_host host v) = Ok text -> (n < String.length text)%nat ->
    mjoin (coord_of_str (T := SlotRecord) (String.substring 0 n text)) = None
}.
Context {ST : SlotText}.

Inductive Verb :=
| VRegister (req : RegisterRequest)
| VHeartbeat (req : HeartbeatRequest)
| VRelease (agent_name : string)
| VLease (req : LeaseRequest)
| VUnlease (repo : string)
| VUnleaseOwn (repo agent : string).
Definition run_verb (v : Verb) : FS unit :=
  match v with
  | VRegister req => register lock_dir req ;~ eret tt
  | VHeartbeat req => heartbeat lock_dir req ;~ eret tt
  | VRelease agent_name => release lock_dir agent_name ;~ eret tt
  | VLease req => lease lock_dir req ;~ eret tt
  | VUnlease repo => unlease lock_dir repo ;~ eret tt
  | VUnleaseOwn repo agent => unlease_own lock_dir repo agent ;~ eret tt
  end.
Fixpoint run_verbs (vs : list Verb) : FS unit :=
  match vs with [] => eret tt | v :: vs => run_verb v ;~ run_verbs vs end.

(** Nothing in the lock directory itself changes. *)
Definition above (fs : Files) (ds : Dirs) (fs' : Files) (ds' : Dirs) : Prop :=
  (tree_ok fs ds -> tree_ok fs' ds') /\ forall n, fs' !! (lock_dir ++ [n]) = fs !! (lock_dir ++ [n]).
Definition within_caps (fs : Files) (ds : Dirs) (fs' : Files) (ds' : Dirs) : Prop :=
  tree_ok fs ds -> tree_ok fs' ds' /\
  forall c, (size (slots c fs) <= cap_for_category c)%nat -> (size (slots c fs') <= cap_for_category c)%nat.
Lemma above_within fs ds fs' ds' : above fs ds fs' ds' -> within_caps fs ds fs' ds'.
Proof. intros [Ht Hn] Htree. split; [auto|]. intros c. by rewrite (slots_frame c fs fs'). Qed.

Lemma wp_above_write {T : Type} {CT : CoordType X T} (what a b : string) (r : T) (host : option string) (fs : Files) (ds : Dirs) :
  wp (write_record lock_dir what (lock_dir ++ [a; b]) r host) (fun _ => above fs ds) fs ds.
Proof.
  eapply wp_conseq; [apply wp_write_record|]. intros res fs' ds' ([_ Ht] & Hq & _). split; [done|].
  intros n. apply Hq; [by intros ?%app_inv_head|rewrite prev_path_under; by intros ?%app_inv_head].
Qed.
Lemma wp_above_remove (a b : string) (fs : Files) (ds : Dirs) :
  wp (remove_if_there (lock_dir ++ [a; b])) (fun _ => above fs ds) fs ds.
Proof.
  apply wp_bind. wp_step. destruct (_ || _); [|by apply wp_ret]. apply wp_try, wp_io_at. wp_step.
  - intros e _. by split.
  - intros _. apply wp_ret. split; [apply tree_ok_delete|]. intros n.
    rewrite lookup_delete_ne; [done|]. by intros ?%app_inv_head.
Qed.

Lemma wp_slot_write (s : SlotRecord) (repo agent : string) (host : option string) (fs : Files) (ds : Dirs) :
  wp (write_record lock_dir "slot record" (slot_path lock_dir repo agent) s host)
    (fun _ fs' ds' => (tree_ok fs ds -> tree_ok fs' ds') /\ forall c,
       (size (slots c fs') <= if String.eqb (category s) c && negb (is_some (slots c fs !! slot_path lock_dir repo agent))
                              then S (size (slots c fs)) else size (slots c fs))%nat) fs ds.
Proof.
  eapply wp_conseq; [apply wp_write_record|]. intros res fs' ds' ([_ Ht] & Hq & Hp & _). split; [done|]. intros c.
  assert (forall n, lock_dir ++ [n] <> slot_path lock_dir repo agent -> fs' !! (lock_dir ++ [n]) = fs !! (lock_dir ++ [n])) as Hn.
  { intros n Hne. apply Hq; [done|]. unfold slot_path. rewrite prev_path_under. by intros ?%app_inv_head. }
  destruct Hp as [Hp|(v & text & n & Hv & Htext & Hle & Hp)].
  { rewrite (slots_frame c fs fs'); [by case_match; lia|]. intros n.
    destruct (decide (lock_dir ++ [n] = slot_path lock_dir repo agent)) as [->|]; auto. }
  rewrite (slots_change c fs fs' _ _ Hn Hp). destruct (is_slot c _ _) eqn:Hs; cycle 1.
  { rewrite map_size_delete. unfold id. destruct (slots c fs !! _), (String.eqb _ _); cbn [negb andb is_some]; lia. }
  rewrite map_size_insert. unfold is_slot, slot_path, entry_of in Hs. rewrite strip_dir_app in Hs.
  apply andb_true_iff in Hs as [_ Hs]. destruct (mjoin (coord_of_str _)) as [s'|] eqn:Hr; [|done].
  destruct (decide (n = String.length text)) as [->|Hne].
  2:{ erewrite cut_slot_unreadable in Hr; [done|done|done|lia]. }
  rewrite substring_full in Hr. destruct (coord_of_str text) as [[s0|]|] eqn:Hc; [|done..].
  cbn in Hr. injection Hr as ->. rewrite <- (slot_reads_back s s' v host text), Hs by done.
  by destruct (slots c fs !! slot_path lock_dir repo agent).
Qed.

Lemma wp_take_slot (req : RegisterRequest) (c : string) (fs : Files) (ds : Dirs) :
  tree_ok fs ds -> wp (take_slot lock_dir req c) (fun _ => within_caps fs ds) fs ds.
Proof.
  intros Htree. unfold take_slot. cbv zeta. apply wp_bind, wp_category_slots; [done|]. intros out Hlen Hout.
  destruct (negb (existsb _ _) && _) eqn:Hfull; [by apply wp_ret|].
  apply wp_try. eapply wp_conseq; [apply wp_slot_write|]. intros res fs' ds' [Ht Hsz].
  assert (within_caps fs ds fs' ds') as Hin.
  { intros _. split; [auto|]. intros c' Hcap. specialize (Hsz c'). cbn [category] in Hsz.
    destruct (String.eqb_spec c c') as [Hcc|]; cbn [andb] in Hsz; [subst c'|lia].
    destruct (slots c fs !! slot_path lock_dir _ _) eqn:Hown; cbn in Hsz; [lia|].
    apply andb_false_iff in Hfull as [Hreg%negb_false_iff|Hfull%Nat.leb_gt].
    - apply existsb_exists in Hreg as ([n s] & Hin & He%bool_decide_eq_true). cbn in He.
      assert (n ∈ out.*1) as [text Hx]%Hout.
      { apply list_elem_of_fmap. exists (n, s). split; [done|]. by apply list_elem_of_In. }
      by rewrite He, Hown in Hx.
    - rewrite length_map, Hlen in Hfull. lia. }
  destruct res; [by apply wp_ret|done].
Qed.
Lemma within_caps_above fs ds fs1 ds1 fs2 ds2 :
  within_caps fs ds fs1 ds1 -> above fs1 ds1 fs2 ds2 -> within_caps fs ds fs2 ds2.
Proof.
  intros H1 H2%above_within Htree. destruct (H1 Htree) as [Ht1 Hc1]. destruct (H2 Ht1) as [Ht2 Hc2]. split; auto.
Qed.

Lemma wp_verb (v : Verb) (fs : Files) (ds : Dirs) : tree_ok fs ds -> wp (run_verb v) (fun _ => within_caps fs ds) fs ds.
Proof.
  intros Htree.
  assert (forall {A} (m : FS A), wp m (fun _ => above fs ds) fs ds -> wp (m ;~ eret tt) (fun _ => within_caps fs ds) fs ds) as Habove.
  { intros A m Hm. apply wp_bind. eapply wp_conseq; [exact Hm|]. intros a fs' ds' H. by apply wp_ret, above_within. }
  destruct v as [req|req|agent|req|repo|repo agent]; cbn [run_verb].
  - apply wp_bind, wp_try.
    eapply (wp_conseq _ _ _ (fun _ => within_caps fs ds)).
    { destruct (rg_category req); [by apply wp_take_slot|by apply wp_ret]. }
    intros [[o|]|e] fs1 ds1 H1; [by do 2 apply wp_ret| |by apply wp_ret].
    apply wp_bind, wp_read_typed, wp_try. eapply wp_conseq; [apply wp_above_write|].
    intros [[]|e] fs2 ds2 H2; [apply wp_ret|]; apply wp_ret; by eapply within_caps_above.
  - apply Habove, wp_bind, wp_read_typed. destruct (_ ≫= _) as [c|]; [apply wp_above_write|by apply wp_ret].
  - apply Habove, wp_above_remove.
  - apply Habove. unfold lease. destruct (outside_window req); [by apply wp_ret|]. apply wp_bind, wp_read_typed.
    destruct (_ ≫= _) as [l|]; [destruct (_ && _); [by apply wp_ret|]|]; apply wp_above_write.
  - apply Habove, wp_above_remove.
  - apply Habove, wp_bind. wp_step. destruct (_ || _); cbn [negb]; [|by apply wp_ret].
    apply wp_bind, wp_read_typed. destruct (_ ≫= _) as [l|]; [|by apply wp_ret]. destruct (negb _); [by apply wp_ret|].
    apply wp_try, wp_io_at. wp_step; [by intros|]. intros _. apply wp_ret. split; [apply tree_ok_delete|].
    intros n. rewrite lookup_delete_ne; [done|]. by intros ?%app_inv_head.
Qed.

(** C34: a category never has more lanes than its cap.  Over any sequence of the
    verbs on the registry and the leases, whichever writes fail and wherever they
    tear, if no category was over its cap, none is: counting the slot files of the
    category in the lock directory, those of other agents and repositories
    included. *)
Theorem capacity_bounded vs d u d' t :
  alone false faulty (ticks d) -> tree_ok (files d) (dirs d) ->
  (forall c, size (slots c (files d)) <= cap_for_category c)%nat ->
  run_verbs vs d = (u, d', t) ->
  forall c, (size (slots c (files d')) <= cap_for_category c)%nat.
Proof.
  intros Hal Htree Hcap E. revert d t Hal Htree Hcap E. induction vs as [|v vs IH]; intros d t Hal Htree Hcap E; cbn in E.
  { by apply eret_inv in E as (_ & -> & _). }
  inv_effs. destruct (wp_run _ _ _ _ _ _ _ _ (wp_verb v _ _ Htree) Hal Hm) as [Hal1 H1].
  destruct (H1 Htree) as [Htree1 Hcap1]. eapply IH; [exact Hal1|exact Htree1| |eassumption]. auto.
Qed.

(** Releasing a lane keeps its slot: it counts until something else removes the file. *)
Lemma release_keeps_slot agent d r d' t c :
  alone false faulty (ticks d) -> release lock_dir agent d = (r, d', t) -> slots c (files d') = slots c (files d).
Proof.
  intros Hal E. destruct (wp_run _ _ _ _ _ _ _ _ (wp_above_remove _ _ _ _) Hal E) as [_ [_ H]]. by apply slots_frame.
Qed.
End Capacity.
