(* ===== verification/CoordQueue.v ===== *)
(** * Coordination messages

    The verbs on messages of crates/engine-core/src/coord/write.rs.  A lane's queue
    is a directory: a message is a file that moves from inbox to processing to
    done, and every move appends a line to receipts.jsonl. *)

From Stdlib Require Import Ascii.
From stdpp Require Import gmap.
From S2P Require Import Prelude Json Utf8 Text Effect Disk CoordWrite.

Local Open Scope string_scope.
Local Open Scope list_scope.
Local Open Scope effect_scope.

Definition FORBIDDEN_MESSAGE_KEYS : list string := ["priority"; "urgency"].

(** [Iterator::find_map] *)
Fixpoint find_map {A B} (f : A -> option B) (l : list A) : option B :=
  match l with [] => None | x :: l => match f x with Some b => Some b | None => find_map f l end end.
Lemma find_map_spec {A B} (f : A -> option B) l :
  match find_map f l with
  | Some b => exists x, x ∈ l /\ f x = Some b
  | None => forall x, x ∈ l -> f x = None
  end.
Proof.
  induction l as [|x l IH]; cbn; [by intros ? ?%elem_of_nil|]. destruct (f x) as [b|] eqn:E.
  - exists x. split; [left|done].
  - destruct (find_map f l) as [b|]; [destruct IH as (y & Hy & Hb); exists y; split; [by right|done]|].
    by intros y [->|Hy]%elem_of_cons; [|apply IH].
Qed.

Section Queue.
Context {X : Extern} {HO : HashOrder} {CL : CoordLibs X} {CM : CoordType X MessageRecord}.
Variable lock_dir : path.

Definition queue_dir (repo lane : string) : path := lock_dir ++ ["queue"; repo; lane].

(** The recursion is on the depth of the value. *)
Fixpoint find_key (fuel : nat) (v : value) : option string :=
  match fuel with
  | O => None
  | S fuel =>
      match kind v with
      | KObject =>
          find_map (fun '(key, x) =>
              match List.find (fun f => String.eqb f key) FORBIDDEN_MESSAGE_KEYS with
              | Some forbidden => Some forbidden
              | None => find_key fuel x
              end) (default [] (entries_of_object v))
      | KArray => find_map (find_key fuel) (default [] (as_array v))
      | _ => None
      end
  end.
Definition find_forbidden_message_key (v : value) : option string := find_key (S (value_depth v)) v.

Definition forbidden_message_key_reason (key : string) : string :=
  "field `" +:+ key +:+ "` is not allowed anywhere in a message envelope -- priority is deliberately absent from message.schema.json: a sender-declared priority inflates to always-urgent and forks a second rubric alongside D43, which owns priority in this fleet".

Fixpoint filename_timestamp (sent_at : string) : string :=
  match sent_at with
  | EmptyString => ""
  | String c s => if Ascii.eqb c "-" || Ascii.eqb c ":" then filename_timestamp s else String c (filename_timestamp s)
  end.

Definition receipt_value (message_id from to now_iso : string) : value :=
  json_object [("message_id", jstr message_id); ("from", jstr from); ("to", jstr to); ("ts", jstr now_iso)].
Definition receipts_path (q_dir : path) : path := q_dir ++ ["receipts.jsonl"].
Definition append_receipt (q_dir : path) (message_id from to now_iso : string) : FS (result unit CoordWriteError) :=
  let p := receipts_path q_dir in
  _ <~? io_at p (fs_create_dir_all q_dir) ;;
  match to_text (receipt_value message_id from to now_iso) with
  | Err e => eret (Err (Invalid p ("receipt failed to serialize: " +:+ e)))
  | Ok text => io_at p (fs_append p (text +:+ nl))
  end.

Definition str_field (v : value) (k : string) : option string := jget v k ≫= as_str.
Definition send (repo lane : string) (v : value) (host : option string) : FS (result path CoordWriteError) :=
  let inbox_dir := queue_dir repo lane ++ ["inbox"] in
  match find_forbidden_message_key v with
  | Some key => eret (Err (Invalid inbox_dir (forbidden_message_key_reason key)))
  | None =>
      match str_field v "message_id" with
      | None => eret (Err (Invalid inbox_dir "message envelope is missing a string `message_id`"))
      | Some message_id =>
          match str_field v "sent_at" with
          | None => eret (Err (Invalid inbox_dir "message envelope is missing a string `sent_at`"))
          | Some sent_at =>
              let p := inbox_dir ++ [filename_timestamp sent_at +:+ "-" +:+ message_id +:+ ".json"] in
              _ <~? write_coord_json lock_dir MessageRecord p v host ;;
              eret (Ok p)
          end
      end
  end.

(** The [.json] entries of a directory by name; [None] where it cannot be read. *)
Definition json_files (dir : path) : FS (option (list string)) :=
  r <~ fs_read_dir dir ;;
  eret (match r with Ok names => Some (sort_by String.compare (List.filter is_json names)) | Err _ => None end).

(** Move one message on; [None] when it is skipped. *)
Definition message_id_of (text : string) : option string := v ← from_text text; str_field v "message_id".
Fixpoint drain_files (q_dir : path) (now_iso : string) (names : list string) (moved : list string)
    : FS (result (list string) CoordWriteError) :=
  match names with
  | [] => eret (Ok moved)
  | name :: names =>
      text <~ fs_read (q_dir ++ ["inbox"; name]) ;;
      match text with
      | Err _ => drain_files q_dir now_iso names moved
      | Ok text =>
          match message_id_of text with
          | None => drain_files q_dir now_iso names moved
          | Some message_id =>
              renamed <~ fs_rename (q_dir ++ ["inbox"; name]) (q_dir ++ ["processing"; name]) ;;
              match renamed with
              | Err _ => drain_files q_dir now_iso names moved
              | Ok _ =>
                  _ <~? append_receipt q_dir message_id "inbox" "processing" now_iso ;;
                  drain_files q_dir now_iso names (moved ++ [message_id])
              end
          end
      end
  end.
Definition drain (repo lane now_iso : string) : FS (result (list string) CoordWriteError) :=
  let q_dir := queue_dir repo lane in
  files <~ json_files (q_dir ++ ["inbox"]) ;;
  match files with
  | None => eret (Ok [])
  | Some files =>
      _ <~? io_at (q_dir ++ ["processing"]) (fs_create_dir_all (q_dir ++ ["processing"])) ;;
      drain_files q_dir now_iso files []
  end.

(** Is the file [<ts>-<message_id>.json]? *)
Definition names_message (message_id name : string) : bool :=
  is_json name && match split_once "-" (file_stem name) with Some (_, id) => String.eqb id message_id | None => false end.
Definition complete (repo lane message_id now_iso : string) : FS (result bool CoordWriteError) :=
  let q_dir := queue_dir repo lane in
  entries <~ fs_read_dir (q_dir ++ ["processing"]) ;;
  match entries with
  | Err _ => eret (Ok false)
  | Ok names =>
      match List.find (names_message message_id) names with
      | None => eret (Ok false)
      | Some name =>
          _ <~? io_at (q_dir ++ ["done"]) (fs_create_dir_all (q_dir ++ ["done"])) ;;
          _ <~? io_at (q_dir ++ ["done"; name]) (fs_rename (q_dir ++ ["processing"; name]) (q_dir ++ ["done"; name])) ;;
          _ <~? append_receipt q_dir message_id "processing" "done" now_iso ;;
          eret (Ok true)
      end
  end.

Fixpoint requeue_files (q_dir : path) (names : list string) (requeued : list string) : FS (list string) :=
  match names with
  | [] => eret requeued
  | name :: names =>
      text <~ fs_read (q_dir ++ ["processing"; name]) ;;
      match text with
      | Err _ => requeue_files q_dir names requeued
      | Ok text =>
          match message_id_of text with
          | None => requeue_files q_dir names requeued
          | Some message_id =>
              there <~ fs_exists (q_dir ++ ["inbox"; name]) ;;
              if there : bool then requeue_files q_dir names requeued
              else
                renamed <~ fs_rename (q_dir ++ ["processing"; name]) (q_dir ++ ["inbox"; name]) ;;
                match renamed with
                | Err _ => requeue_files q_dir names requeued
                | Ok _ => requeue_files q_dir names (requeued ++ [message_id])
                end
          end
      end
  end.
Definition requeue_processing (repo lane : string) : FS (result (list string) CoordWriteError) :=
  let q_dir := queue_dir repo lane in
  files <~ json_files (q_dir ++ ["processing"]) ;;
  match files with
  | None => eret (Ok [])
  | Some files =>
      _ <~? io_at (q_dir ++ ["inbox"]) (fs_create_dir_all (q_dir ++ ["inbox"])) ;;
      requeued <~ requeue_files q_dir files [] ;;
      eret (Ok requeued)
  end.

(** The directories of a directory by name; [None] where it cannot be read. *)
Definition keep_dir (dir : path) (acc : list string) (name : string) : FS (list string) :=
  d <~ fs_is_dir (dir ++ [name]) ;; eret (if d : bool then acc ++ [name] else acc).
Definition sub_dirs (dir : path) : FS (option (list string)) :=
  r <~ fs_read_dir dir ;;
  match r with
  | Err _ => eret None
  | Ok names => ds <~ efold (keep_dir dir) names [] ;; eret (Some (sort_by String.compare ds))
  end.
Fixpoint requeue_lanes (repo : string) (lanes : list string) (requeued : list (string * string * string))
    : FS (result (list (string * string * string)) CoordWriteError) :=
  match lanes with
  | [] => eret (Ok requeued)
  | lane :: lanes =>
      ids <~? requeue_processing repo lane ;;
      requeue_lanes repo lanes (requeued ++ map (fun id => (repo, lane, id)) ids)
  end.
Fixpoint requeue_repos (repos : list string) (requeued : list (string * string * string))
    : FS (result (list (string * string * string)) CoordWriteError) :=
  match repos with
  | [] => eret (Ok requeued)
  | repo :: repos =>
      lanes <~ sub_dirs (lock_dir ++ ["queue"; repo]) ;;
      match lanes with
      | None => requeue_repos repos requeued
      | Some lanes =>
          requeued <~? requeue_lanes repo lanes requeued ;;
          requeue_repos repos requeued
      end
  end.
Definition requeue_all_processing : FS (result (list (string * string * string)) CoordWriteError) :=
  repos <~ sub_dirs (lock_dir ++ ["queue"]) ;;
  match repos with
  | None => eret (Ok [])
  | Some repos => requeue_repos repos []
  end.
End Queue.

(** ** No message is lost *)

Section Conservation.
Context {X : Extern} {HO : HashOrder} {CL : CoordLibs X}.
Variable lock_dir : path.
Variables blind faulty : bool.
#[local] Abbreviation wp := (wp blind faulty).
#[local] Abbreviation queue_dir := (queue_dir lock_dir).

Definition STAGES : list string := ["inbox"; "processing"; "done"].
(** The message file [name] of a lane is at a stage, with this text. *)
Definition stands (fs : Files) (repo lane name text : string) : Prop :=
  exists stage, stage ∈ STAGES /\ fs !! (queue_dir repo lane ++ [stage; name]) = Some text.
Definition once (fs : Files) (repo lane name : string) : Prop :=
  forall s1 s2, s1 ∈ STAGES -> s2 ∈ STAGES -> is_Some (fs !! (queue_dir repo lane ++ [s1; name])) ->
    is_Some (fs !! (queue_dir repo lane ++ [s2; name])) -> s1 = s2.

(** No message appears, changes or is gone, none is doubled, and the receipts only grow. *)
Record conserves (fs fs' : Files) : Prop := {
  cv_kept repo lane name text : stands fs repo lane name text -> exists text', stands fs' repo lane name text';
  cv_source repo lane name text : stands fs' repo lane name text -> stands fs repo lane name text;
  cv_once repo lane name : once fs repo lane name -> once fs' repo lane name;
  cv_receipts repo lane text : fs !! receipts_path (queue_dir repo lane) = Some text ->
    exists more, fs' !! receipts_path (queue_dir repo lane) = Some (text +:+ more)
}.

#[export] Instance conserves_refl : Reflexive conserves.
Proof. intros fs. split; try done; eauto. intros repo lane text H. exists "". by rewrite H, str_append_nil_r. Qed.
#[export] Instance conserves_trans : Transitive conserves.
Proof.
  intros fs1 fs2 fs3 [K1 S1 O1 R1] [K2 S2 O2 R2]. split; auto.
  - intros repo lane name text H. destruct (K1 _ _ _ _ H) as [text' H']. eauto.
  - intros repo lane text H. destruct (R1 _ _ _ H) as [m1 H1]. destruct (R2 _ _ _ H1) as [m2 H2].
    exists (m1 +:+ m2). by rewrite <- str_append_assoc.
Qed.

Lemma queue_path_inj repo lane s name repo' lane' s' name' :
  queue_dir repo lane ++ [s; name] = queue_dir repo' lane' ++ [s'; name'] ->
  repo = repo' /\ lane = lane' /\ s = s' /\ name = name'.
Proof. unfold CoordQueue.queue_dir. rewrite <- !app_assoc. intros H%app_inv_head. cbn in H. by simplify_eq. Qed.
Lemma receipts_not_message repo lane repo' lane' s name :
  receipts_path (queue_dir repo lane) <> queue_dir repo' lane' ++ [s; name].
Proof.
  unfold receipts_path, CoordQueue.queue_dir. rewrite <- !app_assoc. intros H%app_inv_head. cbn in H. by simplify_eq.
Qed.

Lemma append_conserves repo lane text fs :
  conserves fs (<[receipts_path (queue_dir repo lane) := default "" (fs !! receipts_path (queue_dir repo lane)) +:+ text]> fs).
Proof.
  assert (forall repo' lane' s name, <[receipts_path (queue_dir repo lane) :=
      default "" (fs !! receipts_path (queue_dir repo lane)) +:+ text]> fs !! (queue_dir repo' lane' ++ [s; name])
      = fs !! (queue_dir repo' lane' ++ [s; name])) as Hm.
  { intros. rewrite lookup_insert_ne; [done|]. apply receipts_not_message. }
  split.
  - intros r l n t (s & Hs & H). exists t, s. by rewrite Hm.
  - intros r l n t (s & Hs & H). exists s. by rewrite Hm in H.
  - intros r l n Ho s1 s2 H1 H2. rewrite !Hm. by apply Ho.
  - intros r l t H. destruct (decide (receipts_path (queue_dir r l) = receipts_path (queue_dir repo lane))) as [He|Hne].
    + exists text. by rewrite He, lookup_insert_eq, <- He, H.
    + exists "". rewrite lookup_insert_ne by done. by rewrite H, str_append_nil_r.
Qed.
Lemma move_conserves repo lane name s s' text fs :
  s ∈ STAGES -> s' ∈ STAGES -> s <> s' -> fs !! (queue_dir repo lane ++ [s; name]) = Some text ->
  conserves fs (<[queue_dir repo lane ++ [s'; name] := text]> (delete (queue_dir repo lane ++ [s; name]) fs)).
Proof.
  intros Hs Hs' Hne Ht. set (fs' := <[_ := _]> _).
  assert (fs' !! (queue_dir repo lane ++ [s'; name]) = Some text) as Hto by (unfold fs'; by rewrite lookup_insert_eq).
  assert (fs' !! (queue_dir repo lane ++ [s; name]) = None) as Hfrom.
  { unfold fs'. rewrite lookup_insert_ne, lookup_delete_eq; [done|]. by intros (_ & _ & ? & _)%queue_path_inj. }
  assert (forall p, p <> queue_dir repo lane ++ [s'; name] -> p <> queue_dir repo lane ++ [s; name] -> fs' !! p = fs !! p) as Ho.
  { intros p H1 H2. unfold fs'. by rewrite lookup_insert_ne, lookup_delete_ne. }
  split.
  - intros r l n t (k & Hk & H).
    destruct (decide (queue_dir r l ++ [k; n] = queue_dir repo lane ++ [s; name])) as [(-> & -> & -> & ->)%queue_path_inj|H1].
    { exists text, s'. done. }
    destruct (decide (queue_dir r l ++ [k; n] = queue_dir repo lane ++ [s'; name])) as [(-> & -> & -> & ->)%queue_path_inj|H2].
    { exists text, s'. done. }
    exists t, k. by rewrite Ho.
  - intros r l n t (k & Hk & H).
    destruct (decide (queue_dir r l ++ [k; n] = queue_dir repo lane ++ [s'; name])) as [(-> & -> & -> & ->)%queue_path_inj|H2].
    { exists s. simplify_eq. split; [done|congruence]. }
    destruct (decide (queue_dir r l ++ [k; n] = queue_dir repo lane ++ [s; name])) as [He|H1]; [congruence|].
    exists k. by rewrite <- Ho.
  - intros r l n Honce s1 s2 H1 H2 [t1 E1] [t2 E2].
    assert (forall k t, k ∈ STAGES -> fs' !! (queue_dir r l ++ [k; n]) = Some t ->
      (r = repo /\ l = lane /\ n = name /\ k = s') \/
      (queue_dir r l ++ [k; n] <> queue_dir repo lane ++ [s; name] /\ fs !! (queue_dir r l ++ [k; n]) = Some t)) as Hcase.
    { intros k t Hk E. destruct (decide (queue_dir r l ++ [k; n] = queue_dir repo lane ++ [s'; name])) as [He|H3].
      - left. by apply queue_path_inj in He as (-> & -> & -> & ->).
      - right. destruct (decide (queue_dir r l ++ [k; n] = queue_dir repo lane ++ [s; name])) as [He|H4]; [congruence|].
        by rewrite <- Ho. }
    destruct (Hcase _ _ H1 E1) as [(-> & -> & -> & ->)|[N1 F1]], (Hcase _ _ H2 E2) as [(? & ? & ? & ->)|[N2 F2]]; subst; try done.
    + destruct N2. by rewrite (Honce s2 s).
    + destruct N1. by rewrite (Honce s1 s).
    + by apply Honce.
  - intros r l t H. exists "". rewrite Ho, str_append_nil_r; [done|apply receipts_not_message..].
Qed.

Lemma wp_append_receipt repo lane id from to now (Q : result unit CoordWriteError -> Files -> Dirs -> Prop) fs ds :
  (forall r fs' ds', conserves fs fs' -> Q r fs' ds') ->
  wp (append_receipt (queue_dir repo lane) id from to now) Q fs ds.
Proof.
  intros HQ. apply wp_try, wp_io_at. wp_step; [intros; by apply HQ|].
  destruct (to_text _); [|by apply wp_ret, HQ]. apply wp_io_at. wp_step.
  - intros e fs' _ [->|(n & _ & _ & ->)]; [by apply HQ|]. apply HQ, append_conserves.
  - intros _. apply HQ, append_conserves.
Qed.
(** A message file moves between two stages. *)
Lemma wp_move repo lane name s s' (Q : result unit string -> Files -> Dirs -> Prop) fs ds :
  s ∈ STAGES -> s' ∈ STAGES -> s <> s' ->
  (forall r fs', conserves fs fs' -> Q r fs' ds) ->
  wp (fs_rename (queue_dir repo lane ++ [s; name]) (queue_dir repo lane ++ [s'; name])) Q fs ds.
Proof.
  intros Hs Hs' Hne HQ. wp_step; [intros; by apply HQ|]. intros text Ht _. by apply HQ, move_conserves.
Qed.
#[local] Hint Extern 1 (_ ∈ STAGES) => (unfold STAGES; set_solver) : core.

Lemma wp_drain_files repo lane now names moved (fs : Files) (ds : Dirs) :
  wp (drain_files (queue_dir repo lane) now names moved) (fun _ fs' _ => conserves fs fs') fs ds.
Proof.
  revert moved fs ds. induction names as [|name names IH]; intros moved fs ds; cbn [drain_files]; [by apply wp_ret|].
  apply wp_bind. wp_step; [intros; apply IH|]. intros text _. destruct (message_id_of text) as [id|]; [|apply IH].
  apply wp_bind, wp_move; [auto..|done|]. intros [[]|e] fs1 H1.
  - apply wp_try, wp_append_receipt. intros [[]|e] fs2 ds2 H2; [|by transitivity fs1].
    eapply wp_conseq; [apply IH|]. intros r fs3 ds3 H3. transitivity fs1; [done|]. by transitivity fs2.
  - eapply wp_conseq; [apply IH|]. intros r fs3 ds3 H3. by transitivity fs1.
Qed.
Lemma wp_json_files dir (Q : option (list string) -> Files -> Dirs -> Prop) fs ds :
  (forall names, Q names fs ds) -> wp (json_files dir) Q fs ds.
Proof. intros HQ. apply wp_bind. wp_step; intros; apply wp_ret; apply HQ. Qed.
Lemma wp_drain repo lane now (fs : Files) (ds : Dirs) :
  wp (drain lock_dir repo lane now) (fun _ fs' _ => conserves fs fs') fs ds.
Proof.
  apply wp_bind, wp_json_files. intros [names|]; [|by apply wp_ret].
  apply wp_try, wp_io_at. wp_step; [by intros|]. apply wp_drain_files.
Qed.
Lemma wp_complete repo lane id now (fs : Files) (ds : Dirs) :
  wp (complete lock_dir repo lane id now) (fun _ fs' _ => conserves fs fs') fs ds.
Proof.
  apply wp_bind. wp_step; [intros; by apply wp_ret|]. intros names _ _ _.
  destruct (List.find _ _) as [name|]; [|by apply wp_ret].
  apply wp_try, wp_io_at. wp_step; [by intros|].
  apply wp_try, wp_io_at, wp_move; [auto..|done|]. intros [[]|e] fs1 H1; [|done].
  apply wp_try, wp_append_receipt. intros [[]|e] fs2 ds2 H2; [apply wp_ret|]; by transitivity fs1.
Qed.
Lemma wp_requeue_files repo lane names requeued (fs : Files) (ds : Dirs) :
  wp (requeue_files (queue_dir repo lane) names requeued) (fun _ fs' _ => conserves fs fs') fs ds.
Proof.
  revert requeued fs ds. induction names as [|name names IH]; intros requeued fs ds; cbn [requeue_files]; [by apply wp_ret|].
  apply wp_bind. wp_step; [intros; apply IH|]. intros text _. destruct (message_id_of text) as [id|]; [|apply IH].
  apply wp_bind. wp_step. destruct (_ || _); [apply IH|].
  apply wp_bind, wp_move; [auto..|done|]. intros [[]|e] fs1 H1;
    (eapply wp_conseq; [apply IH|]; intros r fs3 ds3 H3; by transitivity fs1).
Qed.
Lemma wp_requeue repo lane (fs : Files) (ds : Dirs) :
  wp (requeue_processing lock_dir repo lane) (fun _ fs' _ => conserves fs fs') fs ds.
Proof.
  apply wp_bind, wp_json_files. intros [names|]; [|by apply wp_ret].
  apply wp_try, wp_io_at. wp_step; [by intros|]. apply wp_bind.
  eapply wp_conseq; [apply wp_requeue_files|]. intros r fs' ds' H. by apply wp_ret.
Qed.
Lemma wp_sub_dirs dir (Q : option (list string) -> Files -> Dirs -> Prop) fs ds :
  (forall names, Q names fs ds) -> wp (sub_dirs dir) Q fs ds.
Proof.
  intros HQ. apply wp_bind. wp_step; intros; [apply wp_ret; apply HQ|]. apply wp_bind.
  eapply wp_conseq; [apply (wp_fold _ _ _ (fun _ _ fs' ds' => fs' = fs /\ ds' = ds)); [done|]|].
  - intros seen x rest b fs' ds' _ [-> ->]. apply wp_bind. wp_step. by apply wp_ret.
  - intros b fs' ds' [-> ->]. apply wp_ret, HQ.
Qed.
Lemma wp_requeue_lanes repo lanes requeued (fs : Files) (ds : Dirs) :
  wp (requeue_lanes lock_dir repo lanes requeued) (fun _ fs' _ => conserves fs fs') fs ds.
Proof.
  revert requeued fs ds. induction lanes as [|lane lanes IH]; intros requeued fs ds; cbn [requeue_lanes]; [by apply wp_ret|].
  apply wp_try. eapply wp_conseq; [apply wp_requeue|]. intros [ids|e] fs1 ds1 H1; [|done].
  eapply wp_conseq; [apply IH|]. intros r fs3 ds3 H3. by transitivity fs1.
Qed.
Lemma wp_requeue_all (fs : Files) (ds : Dirs) :
  wp (requeue_all_processing lock_dir) (fun _ fs' _ => conserves fs fs') fs ds.
Proof.
  apply wp_bind, wp_sub_dirs. intros [repos|]; [|by apply wp_ret]. generalize (@nil (string * string * string)).
  revert fs ds. induction repos as [|repo repos IH]; intros fs ds requeued; cbn [requeue_repos]; [by apply wp_ret|].
  apply wp_bind, wp_sub_dirs. intros [lanes|]; [|apply IH].
  apply wp_try. eapply wp_conseq; [apply wp_requeue_lanes|]. intros [r|e] fs1 ds1 H1; [|done].
  eapply wp_conseq; [apply IH|]. intros r' fs3 ds3 H3. by transitivity fs1.
Qed.

Inductive QueueOp :=
| QDrain (repo lane now_iso : string)
| QComplete (repo lane message_id now_iso : string)
| QRequeue (repo lane : string)
| QRequeueAll.
Definition run_queue_op (o : QueueOp) : FS unit :=
  match o with
  | QDrain repo lane now_iso => drain lock_dir repo lane now_iso ;~ eret tt
  | QComplete repo lane message_id now_iso => complete lock_dir repo lane message_id now_iso ;~ eret tt
  | QRequeue repo lane => requeue_processing lock_dir repo lane ;~ eret tt
  | QRequeueAll => requeue_all_processing lock_dir ;~ eret tt
  end.
Fixpoint run_queue_ops (os : list QueueOp) : FS unit :=
  match os with [] => eret tt | o :: os => run_queue_op o ;~ run_queue_ops os end.

(** C26: a message is never lost.  Over any sequence of drains, completions and
    requeues of any lanes, whichever calls fail: a message file that stood at a
    stage of its lane still stands at one; every message file has a text that a
    file of its name had before; a message that stood at one stage only stands at
    one only; and the receipts of every lane keep their text and only grow. *)
Theorem messages_conserved os d u d' t :
  alone blind faulty (ticks d) -> run_queue_ops os d = (u, d', t) -> conserves (files d) (files d').
Proof.
  revert d t. induction os as [|o os IH]; intros d t Hal E; cbn in E; [by apply eret_inv in E as (_ & -> & _)|].
  inv_effs. eapply (wp_run _ _ _ (fun _ fs' _ => conserves (files d) fs')) in Hm as [Hal1 H1]; [| |done].
  { etransitivity; [exact H1|]. by eapply IH. }
  destruct o; apply wp_bind; (eapply wp_conseq; [first [apply wp_drain|apply wp_complete|apply wp_requeue|apply wp_requeue_all]|];
    intros r fs' ds' H; by apply wp_ret).
Qed.
End Conservation.

(** ** What a drain does *)

Section Drain.
Context {X : Extern} {HO : HashOrder} {CL : CoordLibs X}.
Variable lock_dir : path.
Variables blind faulty : bool.
#[local] Abbreviation wp := (wp blind faulty).
#[local] Abbreviation queue_dir := (queue_dir lock_dir).

Definition receipt_line (now id line : string) : Prop := to_text (receipt_value id "inbox" "processing" now) = Ok line.
Definition receipts_after (old : option string) (lines : list string) : option string :=
  match lines with [] => old | _ => Some (default "" old +:+ String.concat "" (map (fun l => l +:+ nl) lines)) end.
Lemma receipts_after_cons old l lines :
  receipts_after (Some (default "" old +:+ (l +:+ nl))) lines = receipts_after old (l :: lines).
Proof.
  destruct lines as [|l' lines]; cbn; [done|]. f_equal. by rewrite str_append_assoc.
Qed.

(** The files [names], of these ids, have gone from the inbox to processing. *)
Record drained (q : path) (now : string) (names ids : list string) (fs fs' : Files) : Prop := {
  dr_ids : Forall2 (fun name id => exists text, fs !! (q ++ ["inbox"; name]) = Some text /\ message_id_of text = Some id) names ids;
  dr_moved name : name ∈ names ->
    fs' !! (q ++ ["inbox"; name]) = None /\ fs' !! (q ++ ["processing"; name]) = fs !! (q ++ ["inbox"; name]);
  dr_receipts : exists lines, Forall2 (receipt_line now) ids lines /\
    fs' !! receipts_path q = receipts_after (fs !! receipts_path q) lines;
  dr_frame p : p <> receipts_path q ->
    (forall name, name ∈ names -> p <> q ++ ["inbox"; name] /\ p <> q ++ ["processing"; name]) -> fs' !! p = fs !! p
}.

Lemma wp_append_exact q id now (Q : result unit CoordWriteError -> Files -> Dirs -> Prop) fs ds :
  (forall e fs' ds', Q (Err e) fs' ds') ->
  (forall line ds', receipt_line now id line -> ds' = list_to_set (prefixes q) ∪ ds ->
     Q (Ok tt) (<[receipts_path q := default "" (fs !! receipts_path q) +:+ (line +:+ nl)]> fs) ds') ->
  wp (append_receipt q id "inbox" "processing" now) Q fs ds.
Proof.
  intros He Ho. apply wp_try, wp_io_at. wp_step; [intros; apply He|].
  destruct (to_text _) as [line|] eqn:El; [|by apply wp_ret, He]. apply wp_io_at. wp_step; [intros; apply He|].
  intros _. by apply Ho.
Qed.

(** Nothing on the disk keeps a message from being moved. *)
Definition unobstructed (q : path) (ds : Dirs) : Prop :=
  q ++ ["processing"] ∈ ds /\ forall name, q ++ ["processing"; name] ∉ ds.
Definition overlooks (q : path) (names ns : list string) (fs : Files) : Prop :=
  exists name text id, name ∈ names /\ name ∉ ns /\ fs !! (q ++ ["inbox"; name]) = Some text /\ message_id_of text = Some id.

Lemma stage_path_inj q (s n s' n' : string) : q ++ [s; n] = q ++ [s'; n'] -> s = s' /\ n = n'.
Proof. intros H%app_inv_head. by simplify_eq. Qed.
Lemma stage_not_receipts q (s n : string) : q ++ [s; n] <> receipts_path q.
Proof. unfold receipts_path. intros H%app_inv_head. by simplify_eq. Qed.

Lemma moved_elsewhere q name text x fs (p : path) :
  p <> receipts_path q -> p <> q ++ ["inbox"; name] -> p <> q ++ ["processing"; name] ->
  (<[receipts_path q := x]> (<[q ++ ["processing"; name] := text]> (delete (q ++ ["inbox"; name]) fs)) : Files) !! p = fs !! p.
Proof. intros H1 H2 H3. by rewrite !lookup_insert_ne, lookup_delete_ne. Qed.
Lemma moved_other q name text x fs n :
  n <> name -> (<[receipts_path q := x]> (<[q ++ ["processing"; name] := text]> (delete (q ++ ["inbox"; name]) fs)) : Files)
    !! (q ++ ["inbox"; n]) = fs !! (q ++ ["inbox"; n]).
Proof.
  intros Hn. apply moved_elsewhere; [apply stage_not_receipts|by intros [_ ->]%stage_path_inj|by intros [? _]%stage_path_inj].
Qed.

Lemma drained_cons q now name names text id line ids fs fs' :
  (forall n, n ∈ names -> n <> name) ->
  fs !! (q ++ ["inbox"; name]) = Some text -> message_id_of text = Some id -> receipt_line now id line ->
  let fs1 := <[q ++ ["processing"; name] := text]> (delete (q ++ ["inbox"; name]) fs) in
  drained q now names ids (<[receipts_path q := default "" (fs1 !! receipts_path q) +:+ (line +:+ nl)]> fs1) fs' ->
  drained q now (name :: names) (id :: ids) fs fs'.
Proof.
  intros Hne Hin Hid Hline. cbv zeta. set (fs1 := <[q ++ ["processing"; name] := text]> _). set (fs2 := <[receipts_path q := _]> fs1).
  assert (forall p, p <> receipts_path q -> p <> q ++ ["inbox"; name] -> p <> q ++ ["processing"; name] -> fs2 !! p = fs !! p) as Hsame.
  { intros p. apply moved_elsewhere. }
  assert (fs2 !! (q ++ ["inbox"; name]) = None /\ fs2 !! (q ++ ["processing"; name]) = Some text) as [Hgone Harrived].
  { unfold fs2, fs1. split.
    - rewrite lookup_insert_ne by (by intros He; symmetry in He; apply stage_not_receipts in He).
      rewrite lookup_insert_ne by (by intros [? _]%stage_path_inj). by rewrite lookup_delete_eq.
    - rewrite lookup_insert_ne by (by intros He; symmetry in He; apply stage_not_receipts in He). by rewrite lookup_insert_eq. }
  assert (fs1 !! receipts_path q = fs !! receipts_path q) as Hr1.
  { unfold fs1. rewrite lookup_insert_ne, lookup_delete_ne; [done|by intros ?%stage_not_receipts..]. }
  intros [Hids Hmoved (lines & Hlines & Hrec) Hframe].
  assert (forall n, n ∈ names -> fs2 !! (q ++ ["inbox"; n]) = fs !! (q ++ ["inbox"; n])) as Hold.
  { intros n Hn. by apply moved_other, Hne. }
  split.
  - constructor; [by exists text|].
    clear -Hids Hold. induction Hids as [|n i ns js (t & Ht & Hi) Hids IH]; constructor.
    + exists t. rewrite <- Hold; [done|left].
    + apply IH. intros n' Hn'. apply Hold. by right.
  - intros n [->|Hn]%elem_of_cons.
    + assert (forall s, fs' !! (q ++ [s; name]) = fs2 !! (q ++ [s; name])) as Hs.
      { intros s. apply Hframe; [apply stage_not_receipts|]. intros n Hn.
        split; intros [_ ->]%stage_path_inj; by destruct (Hne n). }
      by rewrite !Hs, Hin.
    + rewrite <- (Hold n Hn). by apply Hmoved.
  - exists (line :: lines). split; [by constructor|]. rewrite Hrec. unfold fs2 at 1.
    by rewrite lookup_insert_eq, Hr1, receipts_after_cons.
  - intros p Hp Hn. rewrite Hframe; [|done|intros n H; apply Hn; by right].
    apply Hsame; [done|apply Hn; left..].
Qed.

Lemma sublist_sorted {A} (R : A -> A -> Prop) l l' : StronglySorted R l' -> sublist l l' -> StronglySorted R l.
Proof.
  intros Hs Hl. revert Hs. induction Hl as [|x l l' Hl IH|x l l' Hl IH]; intros Hs; [constructor| |].
  - apply StronglySorted_inv in Hs as [Hs Hx]. constructor; [by apply IH|].
    rewrite List.Forall_forall in *. intros y Hy. apply Hx. rewrite <- list_elem_of_In in *. by eapply elem_of_sublist.
  - apply StronglySorted_inv in Hs as [Hs _]. by apply IH.
Qed.
Lemma drained_nil q now fs : drained q now [] [] fs fs.
Proof.
  split; [constructor|by intros ? ?%elem_of_nil| |done]. exists []. split; [constructor|done].
Qed.
Lemma not_prefix (p r : path) : (length r < length p)%nat -> p ∉ prefixes r.
Proof. intros H [x ->]%prefixes_spec. rewrite length_app in H. lia. Qed.
Lemma unobstructed_more q ds : unobstructed q ds -> unobstructed q (list_to_set (prefixes q) ∪ ds).
Proof.
  intros [H1 H2]. split; [set_solver|]. intros name [Hp%elem_of_list_to_set|Hp]%elem_of_union; [|by apply (H2 name)].
  revert Hp. apply not_prefix. rewrite length_app. cbn. lia.
Qed.

Lemma wp_drain_exact q now names moved (fs : Files) (ds : Dirs) :
  NoDup names ->
  wp (drain_files q now names moved) (fun r fs' ds' => forall ids, r = Ok ids ->
    exists ns js, sublist ns names /\ ids = moved ++ js /\ drained q now ns js fs fs' /\
      (blind = false -> faulty = false -> unobstructed q ds -> ~ overlooks q names ns fs)) fs ds.
Proof.
  revert moved fs ds. induction names as [|name names IH]; intros moved fs ds Hnd; cbn [drain_files].
  { apply wp_ret. intros ids [= <-]. exists [], []. split_and!; [constructor|by rewrite app_nil_r|apply drained_nil|].
    intros _ _ _ (n & _ & _ & Hn & _). by apply elem_of_nil in Hn. }
  apply NoDup_cons in Hnd as [Hni Hnd].
  assert ((blind = false -> faulty = false -> unobstructed q ds -> forall text id,
      fs !! (q ++ ["inbox"; name]) = Some text -> message_id_of text <> Some id) ->
    wp (drain_files q now names moved) (fun r fs' ds' => forall ids, r = Ok ids ->
      exists ns js, sublist ns (name :: names) /\ ids = moved ++ js /\ drained q now ns js fs fs' /\
        (blind = false -> faulty = false -> unobstructed q ds -> ~ overlooks q (name :: names) ns fs)) fs ds) as Hskip.
  { intros Hno. eapply wp_conseq; [by apply IH|]. intros r fs' ds' H ids Hr.
    destruct (H ids Hr) as (ns & js & Hsub & -> & Hd & Hall). exists ns, js. split_and!; [by constructor|done|done|].
    intros Hb Hf Hu (n & text & id & [->|Hn]%elem_of_cons & Hn' & Ht & Hi); [by eapply Hno|].
    destruct (Hall Hb Hf Hu). by exists n, text, id. }
  apply wp_bind. wp_step.
  { intros e He. apply Hskip. intros Hb _ _ text id Ht. destruct He as [|He]; congruence. }
  intros text Ht. destruct (message_id_of text) as [id|] eqn:Hid.
  2:{ apply Hskip. intros _ _ _ text' id Ht'. simplify_eq. by rewrite Hid. }
  apply wp_bind. wp_step.
  { intros e He. apply Hskip. intros _ Hf [Hu1 Hu2]. destruct He as [|[|He]]; [congruence..|].
    unfold writable in He. rewrite stage_parent, !bool_decide_eq_true_2 in He by done. done. }
  intros text' Ht' _. assert (text' = text) as -> by congruence.
  apply wp_try, wp_append_exact; [done|]. intros line ds' Hline ->.
  eapply wp_conseq; [by apply IH|]. intros r fs' ds'' H ids Hr.
  destruct (H ids Hr) as (ns & js & Hsub & -> & Hd & Hall).
  assert (forall n, n ∈ names -> n <> name) as Hne by (by intros n Hn ->).
  exists (name :: ns), (id :: js). split_and!; [by constructor|by rewrite <- app_assoc| |].
  - eapply drained_cons; [|done..]. intros n Hn. apply Hne. by eapply elem_of_sublist.
  - intros Hb Hf Hu (n & t & i & Hn & Hn' & Hnt & Hi). apply not_elem_of_cons in Hn' as [Hnn Hn'].
    apply elem_of_cons in Hn as [->|Hn]; [done|]. destruct (Hall Hb Hf (unobstructed_more q ds Hu)).
    exists n, t, i. by rewrite moved_other.
Qed.

(** A drain hands over each message it took, and no other.  Whichever calls
    fail, when a drain returns ids: they are those of message files that stood in
    the lane's inbox, in the order of their names; each such file is now in
    processing with its text; the lane's receipts have gained one line for each, in
    that order; and nothing else has changed.  When no call fails, no readable
    message of the inbox is left out, unless a directory of its name stands in its way. *)
Theorem drain_exact repo lane now d ids d' t :
  let q := queue_dir repo lane in
  alone blind faulty (ticks d) -> drain lock_dir repo lane now d = (Ok ids, d', t) ->
  exists names, StronglySorted (fun a b => String.compare a b <> Gt) names /\ NoDup names /\
    Forall (fun name => is_json name = true) names /\
    drained q now names ids (files d) (files d') /\
    (blind = false -> faulty = false -> q ++ ["inbox"] ∈ dirs d -> (forall name, q ++ ["processing"; name] ∉ dirs d) ->
       forall name text id, is_json name = true -> files d !! (q ++ ["inbox"; name]) = Some text ->
         message_id_of text = Some id -> name ∈ names).
Proof.
  cbv zeta. intros Hal E. eapply (wp_run _ _ _ (fun r fs' _ => forall ids, r = Ok ids -> exists names,
    StronglySorted (fun a b => String.compare a b <> Gt) names /\ NoDup names /\
    Forall (fun name => is_json name = true) names /\ drained (queue_dir repo lane) now names ids (files d) fs' /\
    (blind = false -> faulty = false -> queue_dir repo lane ++ ["inbox"] ∈ dirs d ->
       (forall name, queue_dir repo lane ++ ["processing"; name] ∉ dirs d) ->
       forall name text id, is_json name = true -> files d !! (queue_dir repo lane ++ ["inbox"; name]) = Some text ->
         message_id_of text = Some id -> name ∈ names))) in E as [_ H]; [by apply H| |done].
  clear Hal E. unfold drain. cbv zeta. set (q := queue_dir repo lane). apply wp_bind, wp_bind. wp_step.
  - intros e He. do 2 apply wp_ret. intros ids' [= <-]. exists [].
    split; [constructor|]. split; [constructor|]. split; [constructor|]. split; [apply drained_nil|].
    intros Hb _ Hin. by destruct He; [congruence|].
  - intros names _ Hnd Hnames. apply wp_ret. apply wp_try, wp_io_at. wp_step; [done|].
    set (sorted := sort_by String.compare (List.filter is_json names)).
    assert (NoDup sorted) as Hnds.
    { unfold sorted. rewrite sort_by_perm. by apply NoDup_ListNoDup, List.NoDup_filter, NoDup_ListNoDup. }
    assert (StronglySorted (fun a b => String.compare a b <> Gt) sorted) as Hsorted by apply (sort_by_sorted String.compare).
    assert (forall n, n ∈ sorted <-> n ∈ names /\ is_json n = true) as Hin.
    { intros n. unfold sorted. rewrite sort_by_perm, list_elem_of_In, filter_In, <- list_elem_of_In. done. }
    eapply wp_conseq; [by apply wp_drain_exact|]. intros r fs' ds' H ids' Hr.
    destruct (H ids' Hr) as (ns & js & Hsub & -> & Hd & Hall). exists ns. split_and!.
    + by eapply sublist_sorted.
    + by eapply sublist_NoDup.
    + apply Forall_forall. intros n Hn. apply Hin. by eapply elem_of_sublist.
    + done.
    + intros Hb Hf Hinb Hobs name text id Hj Ht Hid. destruct (decide (name ∈ ns)) as [|Hno]; [done|].
      destruct (Hall Hb Hf).
      * split; [rewrite elem_of_union, elem_of_list_to_set; left; apply prefixes_self|].
        intros n [Hp%elem_of_list_to_set|Hp]%elem_of_union; [|by apply (Hobs n)].
        revert Hp. apply not_prefix. rewrite !length_app. cbn. lia.
      * exists name, text, id. split_and!; [|done|done|done]. apply Hin. split; [|done]. apply Hnames. left. rewrite <- app_assoc. by exists text.
Qed.
End Drain.

(** ** What a send admits *)

Section Send.
Context {X : Extern} {HO : HashOrder} {CL : CoordLibs X} {CM : CoordType X MessageRecord}.
Variable lock_dir : path.
Variables blind faulty : bool.

(** [value_depth] bounds the nesting. *)
Class TreeLaws : Prop := {
  depth_object v kvs key x : entries_of_object v = Some kvs -> (key, x) ∈ kvs -> (value_depth x < value_depth v)%nat;
  depth_array v items x : as_array v = Some items -> x ∈ items -> (value_depth x < value_depth v)%nat
}.
Context {TL : TreeLaws}.

(** [k] is a key of an object somewhere in the value. *)
Inductive has_key (k : string) : value -> Prop :=
| has_here v kvs x : kind v = KObject -> entries_of_object v = Some kvs -> (k, x) ∈ kvs -> has_key k v
| has_member v kvs key x : kind v = KObject -> entries_of_object v = Some kvs -> (key, x) ∈ kvs ->
    has_key k x -> has_key k v
| has_item v items x : kind v = KArray -> as_array v = Some items -> x ∈ items -> has_key k x -> has_key k v.

Definition finds_exactly (v : value) (o : option string) : Prop :=
  match o with
  | Some k => k ∈ FORBIDDEN_MESSAGE_KEYS /\ has_key k v
  | None => forall k, k ∈ FORBIDDEN_MESSAGE_KEYS -> ~ has_key k v
  end.
Lemma forbidden_find key :
  match List.find (fun f => String.eqb f key) FORBIDDEN_MESSAGE_KEYS with
  | Some k => k ∈ FORBIDDEN_MESSAGE_KEYS /\ k = key
  | None => key ∉ FORBIDDEN_MESSAGE_KEYS
  end.
Proof.
  destruct (List.find _ _) as [k|] eqn:E.
  - apply List.find_some in E as [Hin He%String.eqb_eq]. by rewrite list_elem_of_In.
  - intros Hin. apply list_elem_of_In in Hin. eapply List.find_none in E; [|exact Hin]. by rewrite String.eqb_refl in E.
Qed.

Lemma find_key_spec fuel v : (value_depth v < fuel)%nat -> finds_exactly v (find_key fuel v).
Proof.
  revert v. induction fuel as [|fuel IH]; intros v Hd; [lia|]. cbn [find_key].
  destruct (kind v) eqn:Hk; try (intros k _ Hh; inversion Hh; congruence).
  - destruct (as_array v) as [items|] eqn:Ha; [|intros k _ Hh; inversion Hh; congruence].
    change (default [] (Some items)) with items.
    assert (forall x, x ∈ items -> finds_exactly x (find_key fuel x)) as Hx.
    { intros x Hx. apply IH. pose proof (depth_array v items x Ha Hx). lia. }
    pose proof (find_map_spec (find_key fuel) items) as Hm. destruct (find_map _ _) as [k|].
    + destruct Hm as (x & Hin & Hfound). specialize (Hx x Hin). rewrite Hfound in Hx. destruct Hx as [Hf Hh].
      split; [done|]. by eapply has_item.
    + intros k Hf Hh. inversion Hh as [| |? items' x ? Ha' Hin Hbelow]; [congruence..|]. simplify_eq.
      specialize (Hx x Hin). rewrite (Hm x Hin) in Hx. by apply (Hx k).
  - destruct (entries_of_object v) as [kvs|] eqn:Ha; [|intros k _ Hh; inversion Hh; congruence].
    change (default [] (Some kvs)) with kvs.
    assert (forall key x, (key, x) ∈ kvs -> finds_exactly x (find_key fuel x)) as Hx.
    { intros key x Hx. apply IH. pose proof (depth_object v kvs key x Ha Hx). lia. }
    match goal with |- finds_exactly v (find_map ?f kvs) => pose proof (find_map_spec f kvs) as Hm end.
    destruct (find_map _ kvs) as [k|].
    + destruct Hm as ([key x] & Hin & Hfound). pose proof (forbidden_find key) as Hkey.
      destruct (List.find _ _) as [k'|]; simplify_eq.
      * destruct Hkey as [Hf ->]. split; [done|]. by eapply has_here.
      * specialize (Hx key x Hin). rewrite Hfound in Hx. destruct Hx as [Hf Hh]. split; [done|]. by eapply has_member.
    + intros k Hf Hh. inversion Hh as [? kvs' x ? Ha' Hin|? kvs' key x ? Ha' Hin Hbelow|]; [..|congruence]; simplify_eq.
      * specialize (Hm _ Hin). cbn beta iota in Hm. pose proof (forbidden_find k) as Hkey. by destruct (List.find _ _).
      * specialize (Hm _ Hin). cbn beta iota in Hm. destruct (List.find _ _); [done|].
        specialize (Hx key x Hin). rewrite Hm in Hx. by apply (Hx k).
Qed.

(** No message declares its own priority.  An envelope that has a key
    [priority] or [urgency] at any depth, in objects or arrays, is refused for that
    key and nothing is written; one that is sent has no such key, is a message by
    its schema, and stands whole in the recipient's inbox, under its time and id. *)
Theorem send_screens repo lane v host d r d' t :
  alone blind faulty (ticks d) -> send lock_dir repo lane v host d = (r, d', t) ->
  let inbox := queue_dir lock_dir repo lane ++ ["inbox"] in
  ((exists k, k ∈ FORBIDDEN_MESSAGE_KEYS /\ has_key k v) ->
     files d' = files d /\ exists k, k ∈ FORBIDDEN_MESSAGE_KEYS /\ has_key k v /\
       r = Err (Invalid inbox (forbidden_message_key_reason k))) /\
  (forall p, r = Ok p ->
     (forall k, k ∈ FORBIDDEN_MESSAGE_KEYS -> ~ has_key k v) /\
     exists id sent_at text typed, str_field v "message_id" = Some id /\ str_field v "sent_at" = Some sent_at /\
       coord_of_value (T := MessageRecord) v = Ok (Some typed) /\
       p = inbox ++ [filename_timestamp sent_at +:+ "-" +:+ id +:+ ".json"] /\
       to_string_pretty (stamp_host host v) = Ok text /\ files d' !! p = Some text).
Proof.
  cbv zeta. intros Hal E. unfold send in E.
  assert (Hf := find_key_spec (S (value_depth v)) v (Nat.lt_succ_diag_r _)).
  change (find_key (S (value_depth v)) v) with (find_forbidden_message_key v) in Hf.
  destruct (find_forbidden_message_key v) as [k|].
  { apply eret_inv in E as (-> & -> & _). split; [|done]. intros _. split; [done|]. exists k. by destruct Hf. }
  split; [intros (k & Hk & Hh); by destruct (Hf k)|]. intros p ->. split; [done|].
  destruct (str_field v "message_id") as [id|]; [|by apply eret_inv in E as (? & _)].
  destruct (str_field v "sent_at") as [sent_at|]; [|by apply eret_inv in E as (? & _)].
  apply try_bind_inv in E as [(c & _ & ?)|([] & d1 & t1 & t2 & E1 & E & _)]; [done|].
  apply eret_inv in E as ([= ->] & -> & _).
  destruct (wp_run _ _ _ _ _ _ _ _ (wp_write_coord_json _ _ _ MessageRecord _ _ _ _ _) Hal E1) as [_ (_ & _ & _ & H)].
  destruct H as (text & typed & Hc & Ht & Hp & _). by exists id, sent_at, text, typed.
Qed.
End Send.
