(* ===== verification/CoordRead.v ===== *)
(** * The coordination view

    crates/engine-core/src/coord/mod.rs: one reader that joins the registry, the
    leases, the slots, the messages, the heartbeats, the escalations and the
    lanes' own run records, and says whether they agree.  A program over [Disk]
    that writes nothing.

    The [Coord::Legacy] variant is [None]: the raw value it carries is for display. *)

From Stdlib Require Import Ascii.
From stdpp Require Import gmap pretty.
From S2P Require Import Prelude Json Utf8 Text Effect Disk CoordWrite.

Local Open Scope string_scope.
Local Open Scope list_scope.
Local Open Scope effect_scope.

Inductive CoordinationStatus := Live | Degraded.
Record DegradationReason := mkReason { dg_path : string; dg_reason : string }.

Definition LOCK_SUBDIR : string := ".fleet-locks".
Definition path_of_string (s : string) : path := List.filter (fun c => negb (String.eqb c "")) (split_at "/" s).
(** [env]: FLEET_LOCK_DIR, when it is set *)
Definition resolve_lock_dir (env : option string) (brain_root : path) : path :=
  match env with
  | Some raw => if String.eqb (trim raw) "" then brain_root ++ [LOCK_SUBDIR] else path_of_string raw
  | None => brain_root ++ [LOCK_SUBDIR]
  end.
Definition display (p : path) : string := String.concat "" (map (fun c => "/" +:+ c) p).

Fixpoint path_cmp (p q : path) : comparison :=
  match p, q with
  | [], [] => Eq
  | [], _ => Lt
  | _, [] => Gt
  | a :: p, b :: q => match String.compare a b with Eq => path_cmp p q | c => c end
  end.

(** What a record that is read stands for. *)
Record Entry (T : Type) := mkEntry { en_path : path; en_record : T }.
Arguments mkEntry {T} _ _.
Arguments en_path {T} _.
Arguments en_record {T} _.

Record RunRecordEntry := mkRunRecordEntry {
  rr_path : path;
  rr_repo : string;
  rr_roadmap : string;
  rr_lifecycle : option string
}.

Definition SKIP_DIR_NAMES : list string := ["target"; "node_modules"; ".git"; "dist"; "build"].
Definition RUN_RECORD_MAX_DEPTH : nat := 8.

(** The text around the first occurrence. *)
Fixpoint split_first (needle s : string) : option (string * string) :=
  if String.prefix needle s then Some ("", str_drop (String.length needle) s)
  else match s with
       | EmptyString => None
       | String c s => '(a, b) ← split_first needle s; Some (String c a, b)
       end.
Fixpoint lifecycle_line (ls : list string) : option string :=
  match ls with
  | [] => None
  | l :: ls =>
      match split_once ":" l with
      | Some (key, v) => if String.eqb (trim key) "lifecycle" then Some (trim_matches (ascii_of_nat 34) (trim v)) else lifecycle_line ls
      | None => lifecycle_line ls
      end
  end.
Definition parse_frontmatter_lifecycle (text : string) : option string :=
  rest ← strip_prefix ("---" +:+ nl) text;
  '(frontmatter, _) ← split_first (nl +:+ "---") rest;
  lifecycle_line (lines frontmatter).

(** The component before the first [planning]; an absolute path begins with [/]. *)
Fixpoint before_planning (prev : string) (p : path) : option string :=
  match p with
  | [] => None
  | c :: p => if String.eqb c "planning" then Some prev else before_planning c p
  end.
Definition repo_from_path (p : path) : option string := before_planning "/" p.

Section Reader.
Context {X : Extern} {HO : HashOrder} {CL : CoordLibs X}.
(** okf_core's escalation record, the reader of a heartbeat's scalar, serde's error text *)
Variable EscalationRecord : Type.
Variable parse_raw : string -> HeartbeatValue.
Variable json_error : string -> string.
Context {CS : CoordType X SlotRecord} {CR : CoordType X RegistryClaim} {CE : CoordType X LeaseRecord}.
Context {CM : CoordType X MessageRecord} {CX : CoordType X EscalationRecord}.

Abbreviation Reasons := (list DegradationReason).

Record EscalationEntry := mkEscalationEntry {
  ee_path : path;
  ee_roadmap : string;
  ee_escalation : option EscalationRecord
}.
Record CoordinationView := mkView {
  status : CoordinationStatus;
  degradation_reasons : Reasons;
  registry : list (Entry (option RegistryClaim));
  leases : list (Entry (option LeaseRecord));
  slots : list (Entry (option SlotRecord));
  messages : list (Entry (option MessageRecord));
  heartbeats : list (Entry HeartbeatValue);
  escalations : list EscalationEntry;
  run_records : list RunRecordEntry
}.

(** Entries of a directory that pass a test on what they are, sorted. *)
Definition keep (test : path -> FS bool) (acc : list path) (p : path) : FS (list path) :=
  b <~ test p ;; eret (if b : bool then acc ++ [p] else acc).
Definition list_entries (dir : path) (ok : string -> bool) (test : path -> FS bool) : FS (list path) :=
  r <~ fs_read_dir dir ;;
  match r with
  | Err _ => eret []
  | Ok names =>
      out <~ efold (keep test) (map (fun n => dir ++ [n]) (List.filter ok names)) [] ;;
      eret (sort_by path_cmp out)
  end.
Definition list_files_with_extension (dir : path) (ext : string) : FS (list path) :=
  list_entries dir (fun n => bool_decide (extension n = Some ext)) fs_is_file.
Definition list_subdirs (dir : path) : FS (list path) := list_entries dir (fun _ => true) fs_is_dir.

Definition could_not_read (p : path) (e : string) : DegradationReason :=
  mkReason (display p) ("could not read file: " +:+ e).
Definition LEGACY_REASON : string := "record did not match its strict typed shape (legacy/unrecognized format)".
Definition read_coord_json (T : Type) {CT : CoordType X T} (p : path) (reasons : Reasons)
    : FS (option (option T) * Reasons) :=
  text <~ fs_read p ;;
  eret (match text with
        | Err e => (None, reasons ++ [could_not_read p e])
        | Ok text =>
            match coord_of_str (T := T) text with
            | Some (Some t) => (Some (Some t), reasons)
            | Some None => (Some None, reasons ++ [mkReason (display p) LEGACY_REASON])
            | None => (None, reasons ++ [mkReason (display p) ("invalid JSON: " +:+ json_error text)])
            end
        end).

(** [filter_map] over the files, the reasons threaded through. *)
Definition read_entry (T : Type) {CT : CoordType X T} (acc : list (Entry (option T)) * Reasons) (p : path)
    : FS (list (Entry (option T)) * Reasons) :=
  r <~ read_coord_json T p acc.2 ;;
  eret (match r.1 with Some record => (acc.1 ++ [mkEntry p record], r.2) | None => (acc.1, r.2) end).
Definition read_entries (T : Type) {CT : CoordType X T} (paths : list path) (reasons : Reasons)
    : FS (list (Entry (option T)) * Reasons) := efold (read_entry T) paths ([], reasons).

Definition read_registry (lock_dir : path) (reasons : Reasons) : FS (list (Entry (option RegistryClaim)) * Reasons) :=
  paths <~ list_files_with_extension (lock_dir ++ ["lane-agents"]) "json" ;; read_entries RegistryClaim paths reasons.
Definition read_leases (lock_dir : path) (reasons : Reasons) : FS (list (Entry (option LeaseRecord)) * Reasons) :=
  paths <~ list_files_with_extension (lock_dir ++ ["leases"]) "json" ;; read_entries LeaseRecord paths reasons.
Definition read_slots (lock_dir : path) (reasons : Reasons) : FS (list (Entry (option SlotRecord)) * Reasons) :=
  paths <~ list_files_with_extension lock_dir "json" ;; read_entries SlotRecord paths reasons.

Definition lane_inbox (acc : list path) (lane_dir : path) : FS (list path) :=
  ps <~ list_files_with_extension (lane_dir ++ ["inbox"]) "json" ;; eret (acc ++ ps).
Definition repo_inboxes (acc : list path) (repo_dir : path) : FS (list path) :=
  lane_dirs <~ list_subdirs repo_dir ;; efold lane_inbox lane_dirs acc.
Definition read_messages (lock_dir : path) (reasons : Reasons) : FS (list (Entry (option MessageRecord)) * Reasons) :=
  repo_dirs <~ list_subdirs (lock_dir ++ ["queue"]) ;;
  paths <~ efold repo_inboxes repo_dirs [] ;;
  read_entries MessageRecord (sort_by path_cmp paths) reasons.

Definition read_heartbeat (acc : list (Entry HeartbeatValue) * Reasons) (p : path)
    : FS (list (Entry HeartbeatValue) * Reasons) :=
  text <~ fs_read p ;;
  eret (match text with
        | Ok text => (acc.1 ++ [mkEntry p (parse_raw text)], acc.2)
        | Err e => (acc.1, acc.2 ++ [could_not_read p e])
        end).
Definition read_heartbeats (lock_dir : path) (reasons : Reasons) : FS (list (Entry HeartbeatValue) * Reasons) :=
  paths <~ list_files_with_extension (lock_dir ++ ["commander-heartbeats"]) "heartbeat" ;;
  efold read_heartbeat paths ([], reasons).

(** The lines of one roadmap's file. *)
Fixpoint escalation_lines (p : path) (roadmap : string) (line_no : nat) (ls : list string)
    (acc : list EscalationEntry * Reasons) : list EscalationEntry * Reasons :=
  match ls with
  | [] => acc
  | l :: ls =>
      let line := trim l in
      let acc :=
        if String.eqb line "" then acc
        else match coord_of_str (T := EscalationRecord) line with
             | Some escalation => (acc.1 ++ [mkEscalationEntry p roadmap escalation], acc.2)
             | None => (acc.1, acc.2 ++ [mkReason (display p +:+ ":" +:+ pretty (line_no + 1)%nat)
                                           ("invalid JSON: " +:+ json_error line)])
             end in
      escalation_lines p roadmap (S line_no) ls acc
  end.
Definition read_roadmap (acc : list EscalationEntry * Reasons) (roadmap_dir : path) : FS (list EscalationEntry * Reasons) :=
  match file_name roadmap_dir with
  | None => eret acc
  | Some roadmap =>
      let p := roadmap_dir ++ ["escalations.jsonl"] in
      text <~ fs_read p ;;
      eret (match text with Ok text => escalation_lines p roadmap 0 (lines text) acc | Err _ => acc end)
  end.
Definition read_escalations (brain_root : path) (reasons : Reasons) : FS (list EscalationEntry * Reasons) :=
  roadmap_dirs <~ list_subdirs (brain_root ++ ["planning"; "roadmaps"]) ;;
  efold read_roadmap roadmap_dirs ([], reasons).

(** ** Run records *)

Definition read_roadmap_run_record (orchestration_run_dir : path) (out : list RunRecordEntry) (roadmap : string)
    : FS (list RunRecordEntry) :=
  let roadmap_dir := orchestration_run_dir ++ [roadmap] in
  dir <~ fs_is_dir roadmap_dir ;;
  if negb dir then eret out
  else
    let notes_path := roadmap_dir ++ ["notes.md"] in
    text <~ fs_read notes_path ;;
    eret (match text with
          | Err _ => out
          | Ok text =>
              match repo_from_path notes_path with
              | None => out
              | Some repo => out ++ [mkRunRecordEntry notes_path repo roadmap (parse_frontmatter_lifecycle text)]
              end
          end).
Definition read_roadmap_run_records (orchestration_run_dir : path) : FS (list RunRecordEntry) :=
  r <~ fs_read_dir orchestration_run_dir ;;
  match r with
  | Err _ => eret []
  | Ok names => efold (read_roadmap_run_record orchestration_run_dir) names []
  end.

Abbreviation Stack := (list (path * nat)).
(** One entry of a directory on the walk: what is found, what is pushed. *)
Definition walk_entry (dir : path) (depth : nat) (acc : list RunRecordEntry * Stack) (name : string)
    : FS (list RunRecordEntry * Stack) :=
  let p := dir ++ [name] in
  d <~ fs_is_dir p ;;
  if negb d then eret acc
  else if bool_decide (name ∈ SKIP_DIR_NAMES) then eret acc
  else if String.eqb name "orchestration-run" then
    found <~ read_roadmap_run_records p ;; eret (acc.1 ++ found, acc.2)
  else eret (acc.1, (p, S depth) :: acc.2).
(** [while let Some((dir, depth)) = stack.pop()]; the stack's top is its head. *)
Fixpoint walk_run_records (fuel : nat) (stack : Stack) (out : list RunRecordEntry) : FS (option (list RunRecordEntry)) :=
  match stack with
  | [] => eret (Some out)
  | (dir, depth) :: stack =>
      match fuel with
      | O => eret None
      | S fuel =>
          if (RUN_RECORD_MAX_DEPTH <? depth)%nat then walk_run_records fuel stack out
          else
            r <~ fs_read_dir dir ;;
            match r with
            | Err _ => walk_run_records fuel stack out
            | Ok names =>
                acc <~ efold (walk_entry dir depth) names (out, stack) ;;
                walk_run_records fuel acc.2 acc.1
            end
      end
  end.
(** No directory is visited twice: as many turns as there are directories, and the root. *)
Definition read_run_records (brain_root : path) : FS (option (list RunRecordEntry)) :=
  fuel <~ esilent (fun d => (S (size (dirs d)), d)) ;;
  out <~ walk_run_records fuel [(brain_root, 0%nat)] [] ;;
  eret (sort_by (fun a b => path_cmp (rr_path a) (rr_path b)) <$> out).

(** ** The view *)

Definition claims_run (r : RunRecordEntry) (e : Entry (option RegistryClaim)) : bool :=
  match en_record e with
  | Some claim => String.eqb (cm_repo claim) (rr_repo r) && String.eqb (cm_roadmap claim) (rr_roadmap r)
  | None => false
  end.
Definition is_active (r : RunRecordEntry) : bool := bool_decide (rr_lifecycle r = Some "active").
Definition unclaimed_reason (r : RunRecordEntry) : DegradationReason :=
  mkReason (rr_repo r +:+ ":" +:+ rr_roadmap r)
    ("run record at " +:+ display (rr_path r) +:+ " reports lifecycle: active but no matching registry claim exists for repo '"
     +:+ rr_repo r +:+ "' roadmap '" +:+ rr_roadmap r +:+ "'").
Definition check_active_run_records_against_registry (run_records : list RunRecordEntry)
    (registry : list (Entry (option RegistryClaim))) (reasons : Reasons) : Reasons :=
  reasons ++ map unclaimed_reason
    (List.filter (fun r => is_active r && negb (existsb (claims_run r) registry)) run_records).

Definition read_coordination_view (env : option string) (brain_root : path) : FS (option CoordinationView) :=
  let lock_dir := resolve_lock_dir env brain_root in
  registry <~ read_registry lock_dir [] ;;
  leases <~ read_leases lock_dir registry.2 ;;
  slots <~ read_slots lock_dir leases.2 ;;
  messages <~ read_messages lock_dir slots.2 ;;
  heartbeats <~ read_heartbeats lock_dir messages.2 ;;
  escalations <~ read_escalations brain_root heartbeats.2 ;;
  run_records <~ read_run_records brain_root ;;
  eret (run_records ← run_records;
        let reasons := check_active_run_records_against_registry run_records registry.1 escalations.2 in
        Some (mkView (match reasons with [] => Live | _ => Degraded end) reasons registry.1 leases.1 slots.1
                messages.1 heartbeats.1 escalations.1 run_records)).
End Reader.

(** ** The walk ends *)

Section Walk.
Context {X : Extern} {HO : HashOrder} {CL : CoordLibs X}.
Variables blind faulty : bool.
#[local] Abbreviation wp := (wp blind faulty).

(** One for the directory, one for each below it. *)
Definition weight (ds : Dirs) (s : path) : nat := S (size (filter (fun q => s `prefix_of` q /\ q <> s) ds)).
Definition stack_weight (ds : Dirs) (stack : list (path * nat)) : nat := sum_list (map (fun s => weight ds s.1) stack).

Lemma weight_child ds s : s ∈ ds -> weight ds s = size (filter (fun q => s `prefix_of` q) ds).
Proof.
  intros Hs. unfold weight.
  replace (filter (fun q => s `prefix_of` q) ds) with ({[s]} ∪ filter (fun q => s `prefix_of` q /\ q <> s) ds).
  - rewrite size_union, size_singleton; [done|]. rewrite disjoint_singleton_l, elem_of_filter. tauto.
  - apply set_eq. intros q. rewrite elem_of_union, elem_of_singleton, !elem_of_filter.
    destruct (decide (q = s)) as [->|]; [|tauto]. split; [|tauto]. intros _. split; [reflexivity|done].
Qed.
(** Directories of different names have nothing below them in common. *)
Lemma children_weight ds dir (names : list string) :
  NoDup names -> Forall (fun n => dir ++ [n] ∈ ds) names ->
  (sum_list (map (fun n => weight ds (dir ++ [n])) names) < weight ds dir)%nat.
Proof.
  intros Hnd Hin. unfold weight at 2. apply Nat.lt_succ_r.
  transitivity (size (filter (fun q => Exists (fun n => dir ++ [n] `prefix_of` q) names) ds)).
  - induction Hnd as [|n names Hn Hnd IH]; [apply Nat.le_0_l|]. apply Forall_cons in Hin as [Hd Hin]. cbn [map sum_list sum_list_with].
    rewrite weight_child by done. specialize (IH Hin).
    replace (filter (fun q => Exists (fun n => dir ++ [n] `prefix_of` q) (n :: names)) ds)
      with (filter (fun q => dir ++ [n] `prefix_of` q) ds ∪ filter (fun q => Exists (fun n => dir ++ [n] `prefix_of` q) names) ds).
    + rewrite size_union; [apply Nat.add_le_mono_l, IH|]. intros q.
      rewrite !elem_of_filter. intros [[r ->] _] [Hex _]. apply Exists_exists in Hex as (m & Hm & [r' Hr]).
      rewrite <- !app_assoc in Hr. apply app_inv_head in Hr. by simplify_eq.
    + apply set_eq. intros q. rewrite elem_of_union, !elem_of_filter, Exists_cons. tauto.
  - apply subseteq_size. intros q. rewrite !elem_of_filter. intros [Hex Hq]. split; [|done].
    apply Exists_exists in Hex as (n & _ & [r ->]). rewrite <- app_assoc. split; [by eexists|].
    intros He. apply (f_equal length) in He. rewrite !length_app in He. cbn in He. lia.
Qed.

Definition walkable (ds : Dirs) (dir : path) (n : string) : bool :=
  bool_decide (dir ++ [n] ∈ ds) && negb (bool_decide (n ∈ SKIP_DIR_NAMES)) && negb (String.eqb n "orchestration-run").
Definition pushed (ds : Dirs) (dir : path) (depth : nat) (names : list string) : list (path * nat) :=
  map (fun n => (dir ++ [n], S depth)) (rev (List.filter (walkable ds dir) names)).

(** Every readable run record of the directory [o] is among [out]. *)
Definition collected (fs : Files) (ds : Dirs) (o : path) (out : list RunRecordEntry) : Prop :=
  forall roadmap text repo, o ++ [roadmap] ∈ ds -> fs !! (o ++ [roadmap; "notes.md"]) = Some text ->
    repo_from_path (o ++ [roadmap; "notes.md"]) = Some repo ->
    mkRunRecordEntry (o ++ [roadmap; "notes.md"]) repo roadmap (parse_frontmatter_lifecycle text) ∈ out.
Lemma collected_more fs ds o out out' :
  (forall r, r ∈ out -> r ∈ out') -> collected fs ds o out -> collected fs ds o out'.
Proof. intros Hi Hc roadmap text repo H1 H2 H3. apply Hi. by apply Hc. Qed.

Lemma wp_roadmap_records o (fs : Files) (ds : Dirs) :
  wp (read_roadmap_run_records o) (fun out fs' ds' => fs' = fs /\ ds' = ds /\
    (blind = false -> o ∈ ds -> collected fs ds o out)) fs ds.
Proof.
  apply wp_bind. wp_step.
  { intros e He. apply wp_ret. split_and!; [done|done|]. intros Hb Ho. by destruct He; [congruence|]. }
  intros names _ Hnd Hnames.
  eapply wp_conseq; [apply (wp_fold _ _ _ (fun seen out fs' ds' => fs' = fs /\ ds' = ds /\
    (blind = false -> forall roadmap text repo, roadmap ∈ seen -> o ++ [roadmap] ∈ ds ->
       fs !! (o ++ [roadmap; "notes.md"]) = Some text -> repo_from_path (o ++ [roadmap; "notes.md"]) = Some repo ->
       mkRunRecordEntry (o ++ [roadmap; "notes.md"]) repo roadmap (parse_frontmatter_lifecycle text) ∈ out)))|].
  - split_and!; [done|done|]. by intros _ ? ? ? ?%elem_of_nil.
  - intros seen n rest out fs0 ds0 _ (-> & -> & Hout).
    assert ((o ++ [n]) ++ ["notes.md"] = o ++ [n; "notes.md"]) as Hpath by (by rewrite <- app_assoc).
    unfold read_roadmap_run_record. cbv zeta. rewrite Hpath. apply wp_bind. wp_step.
    case_bool_decide as Hd; cbn [negb]; cycle 1.
    { apply wp_ret. split_and!; [done|done|]. intros Hb r text repo Hr Hdr. apply elem_of_app in Hr as [Hr| ->%list_elem_of_singleton]; [|done].
      by apply Hout. }
    apply wp_bind. wp_step.
    + intros e He. apply wp_ret. split_and!; [done|done|]. intros Hb r text repo Hr Hdr Ht Hrepo.
      apply elem_of_app in Hr as [Hr| ->%list_elem_of_singleton]; [by apply Hout|]. by destruct He; congruence.
    + intros text Ht. apply wp_ret. split_and!; [done|done|]. intros Hb r text' repo Hr Hdr Ht' Hrepo.
      apply elem_of_app in Hr as [Hr| ->%list_elem_of_singleton].
      * destruct (repo_from_path (o ++ [n; "notes.md"])); [apply elem_of_app; left|]; by apply Hout.
      * rewrite Hrepo. apply elem_of_app. right. simplify_eq. by left.
  - intros out fs' ds' (-> & -> & Hout). split_and!; [done|done|]. intros Hb Ho r text repo Hd Ht Hrepo.
    apply (Hout Hb r text repo); [|done..]. apply Hnames. by right.
Qed.

Definition RUN_DIR : string := "orchestration-run".
(** What a turn over [names] does to the stack and to what is found. *)
Definition turned (fs : Files) (ds : Dirs) (dir : path) (depth : nat) (out : list RunRecordEntry) (stack : list (path * nat))
    (names : list string) (acc : list RunRecordEntry * list (path * nat)) : Prop :=
  acc.2 = pushed ds dir depth names ++ stack /\ (forall r, r ∈ out -> r ∈ acc.1) /\
  (blind = false -> RUN_DIR ∈ names -> dir ++ [RUN_DIR] ∈ ds -> collected fs ds (dir ++ [RUN_DIR]) acc.1).

Lemma turned_snoc fs ds dir depth out stack seen n found stack' found' :
  turned fs ds dir depth out stack seen (found, stack') -> (forall r, r ∈ found -> r ∈ found') ->
  (n = RUN_DIR -> blind = false -> dir ++ [RUN_DIR] ∈ ds -> collected fs ds (dir ++ [RUN_DIR]) found') ->
  turned fs ds dir depth out stack (seen ++ [n])
    (found', if walkable ds dir n then (dir ++ [n], S depth) :: stack' else stack').
Proof.
  intros (Hstack & Hkeep & Hall) Hmore Hnew. cbn in *. split_and!.
  - cbn. rewrite Hstack. unfold pushed. rewrite List.filter_app. cbn [List.filter].
    by destruct (walkable ds dir n); rewrite rev_app_distr.
  - cbn. auto.
  - cbn. intros Hb [Hin|Hn%list_elem_of_singleton]%elem_of_app Hd; [|by apply Hnew].
    eapply collected_more; [exact Hmore|by apply Hall].
Qed.

Lemma wp_walk_entries dir depth names out stack (fs : Files) (ds : Dirs) :
  wp (efold (walk_entry dir depth) names (out, stack)) (fun acc fs' ds' =>
    fs' = fs /\ ds' = ds /\ turned fs ds dir depth out stack names acc) fs ds.
Proof.
  apply (wp_fold _ _ _ (fun seen acc fs' ds' => fs' = fs /\ ds' = ds /\ turned fs ds dir depth out stack seen acc)).
  { split_and!; [done|done|]. split_and!; [done|done|]. by intros _ ?%elem_of_nil. }
  intros seen n rest [found stack'] fs0 ds0 _ (-> & -> & Hturn).
  assert (forall found', (forall r, r ∈ found -> r ∈ found') -> walkable ds dir n = false ->
    (n = RUN_DIR -> blind = false -> dir ++ [RUN_DIR] ∈ ds -> collected fs ds (dir ++ [RUN_DIR]) found') ->
    turned fs ds dir depth out stack (seen ++ [n]) (found', stack')) as Hstay.
  { intros found' Hmore Hw Hnew. pose proof (turned_snoc _ _ _ _ _ _ _ _ _ _ _ Hturn Hmore Hnew) as H. by rewrite Hw in H. }
  unfold walk_entry. cbv zeta. apply wp_bind. wp_step. case_bool_decide as Hd; cbn [negb]; cycle 1.
  { apply wp_ret. split; [done|]. split; [done|]. apply Hstay; [done|unfold walkable; by rewrite bool_decide_eq_false_2|].
    intros -> _ Hx. by destruct Hd. }
  case_bool_decide as Hs.
  { apply wp_ret. split; [done|]. split; [done|].
    apply Hstay; [done|unfold walkable; by rewrite bool_decide_eq_true_2, (bool_decide_eq_true_2 (n ∈ SKIP_DIR_NAMES))|].
    intros ->. exfalso. revert Hs. unfold SKIP_DIR_NAMES, RUN_DIR. rewrite !elem_of_cons, elem_of_nil. naive_solver. }
  destruct (String.eqb_spec n "orchestration-run") as [->|Hne].
  - apply wp_bind. eapply wp_conseq; [apply wp_roadmap_records|]. intros more fs' ds' (-> & -> & Hmore). apply wp_ret.
    cbn [fst snd]. split; [done|]. split; [done|].
    apply Hstay; [intros r Hr; apply elem_of_app; by left|unfold walkable; cbn; by rewrite andb_false_r|].
    intros _ Hb Ho. eapply collected_more; [|by apply Hmore]. intros r Hr. apply elem_of_app. by right.
  - apply wp_ret. cbn [fst snd]. split; [done|]. split; [done|].
    assert (walkable ds dir n = true) as Hw.
    { unfold walkable. rewrite bool_decide_eq_true_2, bool_decide_eq_false_2 by done. cbn. by apply negb_true_iff, String.eqb_neq. }
    pose proof (turned_snoc _ _ _ _ _ _ _ n _ _ found Hturn (fun r H => H)) as H. rewrite Hw in H. by apply H.
Qed.

Definition closed (ds : Dirs) : Prop := forall p n, p ++ [n] ∈ ds -> p ∈ ds.
Lemma closed_app ds p r : closed ds -> p ++ r ∈ ds -> p ∈ ds.
Proof.
  intros Hc. induction r as [|n r IH] using rev_ind; [by rewrite app_nil_r|]. rewrite app_assoc. intros H%Hc. auto.
Qed.
(** A directory of the stack leads to [t], within the depth and past no skipped name. *)
Definition leads (stack : list (path * nat)) (t : path) : Prop :=
  exists s k mid, (s, k) ∈ stack /\ t = s ++ mid /\ (k + length mid <= RUN_RECORD_MAX_DEPTH)%nat /\
    Forall (fun c => c ∉ SKIP_DIR_NAMES /\ c <> RUN_DIR) mid.

Lemma pushed_weight ds dir depth names stack :
  NoDup names -> (stack_weight ds (pushed ds dir depth names ++ stack) < stack_weight ds ((dir, depth) :: stack))%nat.
Proof.
  intros Hnd. unfold stack_weight, pushed. rewrite map_app, map_map. cbn [map fst].
  rewrite sum_list_with_app. cbn [sum_list_with]. apply Nat.add_lt_mono_r.
  apply (children_weight ds dir (rev (List.filter (walkable ds dir) names))).
  - by apply NoDup_ListNoDup, List.NoDup_rev, List.NoDup_filter, NoDup_ListNoDup.
  - apply Forall_forall. intros n Hn. rewrite list_elem_of_In, <- in_rev, filter_In in Hn. destruct Hn as [_ Hn].
    unfold walkable in Hn. by apply andb_true_iff in Hn as [[Hn%bool_decide_eq_true _]%andb_true_iff _].
Qed.

Lemma leads_turn ds dir depth names stack t :
  closed ds -> t ++ [RUN_DIR] ∈ ds -> (forall n, dir ++ [n] ∈ ds -> n ∈ names) ->
  leads ((dir, depth) :: stack) t -> t = dir \/ leads (pushed ds dir depth names ++ stack) t.
Proof.
  intros Hc Ht Hnames (s & k & mid & [[= -> ->]|Hin]%elem_of_cons & -> & Hk & Hmid); cycle 1.
  { right. exists s, k, mid. split_and!; [apply elem_of_app; by right|done..]. }
  destruct mid as [|c mid]; [left; by rewrite app_nil_r|right]. apply Forall_cons in Hmid as [[Hskip Hrun] Hmid].
  exists (dir ++ [c]), (S depth), mid. split_and!; [|by rewrite <- app_assoc|cbn in Hk; lia|done].
  apply elem_of_app. left. assert (dir ++ [c] ∈ ds) as Hd.
  { apply (closed_app ds _ (mid ++ [RUN_DIR])); [done|]. rewrite <- app_assoc. by rewrite <- app_assoc in Ht. }
  unfold pushed. apply list_elem_of_In, in_map_iff. exists c. split; [done|]. apply in_rev. rewrite rev_involutive.
  apply filter_In. split; [by apply list_elem_of_In, Hnames|]. unfold walkable.
  rewrite bool_decide_eq_true_2, bool_decide_eq_false_2 by done. cbn. by apply negb_true_iff, String.eqb_neq.
Qed.

Lemma wp_walk fuel stack out (fs : Files) (ds : Dirs) :
  (stack_weight ds stack <= fuel)%nat ->
  wp (walk_run_records fuel stack out) (fun r fs' ds' => fs' = fs /\ ds' = ds /\ exists out', r = Some out' /\
    (forall x, x ∈ out -> x ∈ out') /\
    (blind = false -> closed ds -> forall t, t ++ [RUN_DIR] ∈ ds -> leads stack t ->
       collected fs ds (t ++ [RUN_DIR]) out')) fs ds.
Proof.
  revert stack out. induction fuel as [|fuel IH]; intros [|[dir depth] stack] out Hw; cbn [walk_run_records].
  1,3: apply wp_ret; split_and!; [done|done|]; exists out; split_and!; [done|done|];
    by intros _ _ t _ (s & k & mid & ?%elem_of_nil & _).
  { unfold stack_weight, weight in Hw. cbn in Hw. lia. }
  assert ((stack_weight ds stack <= fuel)%nat) as Hw' by (unfold stack_weight, weight in *; cbn in *; lia).
  assert ((blind = false -> closed ds -> forall t, t ++ [RUN_DIR] ∈ ds -> leads ((dir, depth) :: stack) t -> leads stack t) ->
    wp (walk_run_records fuel stack out) (fun r fs' ds' => fs' = fs /\ ds' = ds /\ exists out', r = Some out' /\
      (forall x, x ∈ out -> x ∈ out') /\
      (blind = false -> closed ds -> forall t, t ++ [RUN_DIR] ∈ ds -> leads ((dir, depth) :: stack) t ->
         collected fs ds (t ++ [RUN_DIR]) out')) fs ds) as Hskip.
  { intros Hlead. eapply wp_conseq; [by apply IH|]. intros r fs' ds' (-> & -> & out' & -> & Hmore & Hall).
    split_and!; [done|done|]. exists out'. split_and!; [done|done|]. intros Hb Hc t Ht Hl. apply Hall; auto. }
  destruct (Nat.ltb_spec RUN_RECORD_MAX_DEPTH depth) as [Hdeep|Hdepth].
  { apply Hskip. intros _ _ t _ (s & k & mid & [[= -> ->]|Hin]%elem_of_cons & -> & Hk & Hmid); [lia|].
    by exists s, k, mid. }
  apply wp_bind. wp_step.
  { intros e He. apply Hskip. intros Hb Hc t Ht (s & k & mid & [[= -> ->]|Hin]%elem_of_cons & -> & Hk & Hmid).
    - destruct He as [|He]; [congruence|]. destruct He. apply (closed_app ds _ (mid ++ [RUN_DIR])); [done|]. by rewrite app_assoc.
    - by exists s, k, mid. }
  intros names _ Hnd Hnames. apply wp_bind. eapply wp_conseq; [apply wp_walk_entries|].
  intros [found stack'] fs' ds' (-> & -> & Hstack & Hkeep & Hrun). cbn [fst snd] in *. subst stack'.
  eapply wp_conseq; [apply IH; pose proof (pushed_weight ds dir depth names stack Hnd); lia|].
  intros r fs' ds' (-> & -> & out' & -> & Hmore & Hall). split_and!; [done|done|]. exists out'. split_and!; [done|auto|].
  intros Hb Hc t Ht Hl.
  destruct (leads_turn ds dir depth names stack t Hc Ht) as [->|Hl']; [intros n Hn; apply Hnames; by right|done| |by apply Hall].
  eapply collected_more; [exact Hmore|]. apply Hrun; [done| |done]. apply Hnames. by right.
Qed.

Lemma wp_run_records root (fs : Files) (ds : Dirs) :
  wp (read_run_records root) (fun r fs' ds' => fs' = fs /\ ds' = ds /\ exists out, r = Some out /\
    (blind = false -> closed ds -> forall mid, (length mid <= RUN_RECORD_MAX_DEPTH)%nat ->
       Forall (fun c => c ∉ SKIP_DIR_NAMES /\ c <> RUN_DIR) mid -> (root ++ mid) ++ [RUN_DIR] ∈ ds ->
       collected fs ds ((root ++ mid) ++ [RUN_DIR]) out)) fs ds.
Proof.
  apply wp_bind, wp_measure. intros ts. cbn [dirs]. apply wp_bind. eapply wp_conseq; [apply wp_walk|].
  { unfold stack_weight. cbn [map sum_list_with fst]. unfold weight. rewrite Nat.add_0_r. apply le_n_S, subseteq_size.
    intros q. rewrite elem_of_filter. tauto. }
  intros r fs' ds' (-> & -> & out & -> & _ & Hall). apply wp_ret. split_and!; [done|done|].
  eexists. split; [done|]. intros Hb Hc mid Hlen Hmid Ht. eapply collected_more; [intros x Hx; rewrite sort_by_perm; exact Hx|].
  apply Hall; [done..|]. exists root, 0%nat, mid. by split_and!; [left| | |].
Qed.
End Walk.

(** ** A view that is live *)

Section View.
Context {X : Extern} {HO : HashOrder} {CL : CoordLibs X}.
Variable EscalationRecord : Type.
Variable parse_raw : string -> HeartbeatValue.
Variable json_error : string -> string.
Context {CS : CoordType X SlotRecord} {CR : CoordType X RegistryClaim} {CE : CoordType X LeaseRecord}.
Context {CM : CoordType X MessageRecord} {CX : CoordType X EscalationRecord}.
Variables blind faulty : bool.
#[local] Abbreviation wp := (wp blind faulty).

Lemma wp_list_entries dir ok test (holds : path -> bool) (fs : Files) (ds : Dirs) :
  (forall p (Q : bool -> Files -> Dirs -> Prop), Q (holds p) fs ds -> wp (test p) Q fs ds) ->
  wp (list_entries dir ok test) (fun out fs' ds' => fs' = fs /\ ds' = ds /\
    (blind = false -> dir ∈ ds -> forall n, ok n = true -> is_Some (fs !! (dir ++ [n])) \/ dir ++ [n] ∈ ds ->
       holds (dir ++ [n]) = true -> dir ++ [n] ∈ out)) fs ds.
Proof.
  intros Htest. apply wp_bind. wp_step.
  { intros e He. apply wp_ret. split_and!; [done|done|]. intros Hb Hd. by destruct He; [congruence|]. }
  intros names _ _ Hnames. apply wp_bind.
  eapply wp_conseq; [apply (wp_fold _ _ _ (fun seen out fs' ds' => fs' = fs /\ ds' = ds /\
    forall p, p ∈ seen -> holds p = true -> p ∈ out))|].
  - split_and!; [done|done|]. by intros p ?%elem_of_nil.
  - intros seen p rest out fs0 ds0 _ (-> & -> & Hout). apply wp_bind, Htest, wp_ret. split_and!; [done|done|].
    intros p' [Hp'| ->%list_elem_of_singleton]%elem_of_app Hh.
    + destruct (holds p); [apply elem_of_app; left|]; by apply Hout.
    + rewrite Hh. apply elem_of_app. right. by left.
  - intros out fs' ds' (-> & -> & Hout). apply wp_ret. split_and!; [done|done|].
    intros Hb Hd n Hok Hin Hh. rewrite sort_by_perm. apply Hout; [|done].
    apply list_elem_of_In, in_map_iff. exists n. split; [done|]. apply filter_In. split; [|done].
    by apply list_elem_of_In, Hnames.
Qed.
Lemma wp_list_files dir ext (fs : Files) (ds : Dirs) :
  wp (list_files_with_extension dir ext) (fun out fs' ds' => fs' = fs /\ ds' = ds /\
    (blind = false -> tree_ok fs ds -> forall n, extension n = Some ext -> is_Some (fs !! (dir ++ [n])) ->
       dir ++ [n] ∈ out)) fs ds.
Proof.
  eapply wp_conseq; [apply (wp_list_entries _ _ _ (fun p => bool_decide (is_Some (fs !! p))))|].
  { intros p Q HQ. by apply wp_is_file. }
  intros out fs' ds' (-> & -> & H). split_and!; [done|done|]. intros Hb Ht n He Hn.
  apply H; [done| |by apply bool_decide_eq_true_2|by left|by apply bool_decide_eq_true_2].
  eapply Ht; [exact Hn|apply parent_snoc].
Qed.
Lemma wp_list_subdirs dir (fs : Files) (ds : Dirs) :
  wp (list_subdirs dir) (fun out fs' ds' => fs' = fs /\ ds' = ds /\
    (blind = false -> closed ds -> forall n, dir ++ [n] ∈ ds -> dir ++ [n] ∈ out)) fs ds.
Proof.
  eapply wp_conseq; [apply (wp_list_entries _ _ _ (fun p => bool_decide (p ∈ ds)))|].
  { intros p Q HQ. by apply wp_is_dir. }
  intros out fs' ds' (-> & -> & H). split_and!; [done|done|]. intros Hb Hc n Hn.
  apply H; [done|by eapply Hc|done|by right|by apply bool_decide_eq_true_2].
Qed.

(** The file at [p] reads as a record, which the entries hold. *)
Definition shown (T : Type) {CT : CoordType X T} (fs : Files) (p : path) (entries : list (Entry (option T))) : Prop :=
  exists text t, fs !! p = Some text /\ coord_of_str (T := T) text = Some (Some t) /\ mkEntry p (Some t) ∈ entries.

Lemma wp_read_entries (T : Type) {CT : CoordType X T} paths reasons (fs : Files) (ds : Dirs) :
  wp (read_entries json_error T paths reasons) (fun r fs' ds' => fs' = fs /\ ds' = ds /\
    exists new, r.2 = reasons ++ new /\ (new = [] -> forall p, p ∈ paths -> shown T fs p r.1)) fs ds.
Proof.
  apply (wp_fold _ _ _ (fun seen r fs' ds' => fs' = fs /\ ds' = ds /\
    exists new, r.2 = reasons ++ new /\ (new = [] -> forall p, p ∈ seen -> shown T fs p r.1))).
  { split_and!; [done|done|]. exists []. split; [by rewrite app_nil_r|]. by intros _ p ?%elem_of_nil. }
  intros seen p rest [out rs] fs0 ds0 _ (-> & -> & new & Hrs & Hall). cbn [fst snd] in *. subst rs.
  assert (forall more out', more <> [] -> exists new', (reasons ++ new) ++ more = reasons ++ new' /\
    (new' = [] -> forall q, q ∈ seen ++ [p] -> shown T fs q out')) as Hbad.
  { intros more out' Hmore. exists (new ++ more). split; [by rewrite app_assoc|]. intros [_ ?]%app_eq_nil. done. }
  apply wp_bind, wp_bind. wp_step.
  - intros e _. apply wp_ret, wp_ret. split_and!; [done|done|]. by apply Hbad.
  - intros text Ht. apply wp_ret, wp_ret. split_and!; [done|done|].
    destruct (coord_of_str text) as [[t|]|] eqn:Hc; cbn [fst snd]; [|by apply Hbad..].
    exists new. split; [done|]. intros Hnew q [Hq| ->%list_elem_of_singleton]%elem_of_app.
    + destruct (Hall Hnew q Hq) as (text' & t' & H1 & H2 & H3). exists text', t'. split_and!; [done..|].
      apply elem_of_app. by left.
    + exists text, t. split_and!; [done..|]. apply elem_of_app. right. by left.
Qed.

Lemma wp_read_messages lock reasons (fs : Files) (ds : Dirs) :
  wp (read_messages json_error lock reasons) (fun r fs' ds' => fs' = fs /\ ds' = ds /\
    exists new, r.2 = reasons ++ new /\ (new = [] -> blind = false -> tree_ok fs ds -> closed ds ->
      forall repo lane n, is_json n = true -> is_Some (fs !! (lock ++ ["queue"; repo; lane; "inbox"; n])) ->
        shown MessageRecord fs (lock ++ ["queue"; repo; lane; "inbox"; n]) r.1)) fs ds.
Proof.
  set (wanted := fun (dir : path) (acc : list path) => blind = false -> tree_ok fs ds -> closed ds -> forall n,
    is_json n = true -> is_Some (fs !! (dir ++ ["inbox"; n])) -> dir ++ ["inbox"; n] ∈ acc).
  assert (forall lanes acc, wp (efold lane_inbox lanes acc) (fun acc' fs' ds' => fs' = fs /\ ds' = ds /\
    (forall p, p ∈ acc -> p ∈ acc') /\ forall dir, dir ∈ lanes -> wanted dir acc') fs ds) as Hlanes.
  { intros lanes acc. apply (wp_fold _ _ _ (fun seen acc' fs' ds' => fs' = fs /\ ds' = ds /\
      (forall p, p ∈ acc -> p ∈ acc') /\ forall dir, dir ∈ seen -> wanted dir acc')).
    { split_and!; [done..|]. by intros dir ?%elem_of_nil. }
    intros seen dir rest acc' fs0 ds0 _ (-> & -> & Hacc & Hseen). apply wp_bind.
    eapply wp_conseq; [apply wp_list_files|]. intros ps fs' ds' (-> & -> & Hps). apply wp_ret. split_and!; [done|done| |].
    - intros p Hp. apply elem_of_app. left. auto.
    - intros dir' [Hdir| ->%list_elem_of_singleton]%elem_of_app Hb Ht Hc n Hj Hn; apply elem_of_app.
      + left. by apply Hseen.
      + right. change (dir ++ ["inbox"; n]) with (dir ++ ["inbox"] ++ [n]) in *. rewrite app_assoc in *.
        apply Hps; [done|done| |done]. by apply bool_decide_eq_true in Hj. }
  apply wp_bind. eapply wp_conseq; [apply wp_list_subdirs|]. intros repos fs' ds' (-> & -> & Hrepos). apply wp_bind.
  eapply wp_conseq; [apply (wp_fold _ _ _ (fun seen acc fs' ds' => fs' = fs /\ ds' = ds /\
    forall dir, dir ∈ seen -> forall lane, dir ++ [lane] ∈ ds -> wanted (dir ++ [lane]) acc))|].
  - split_and!; [done|done|]. by intros dir ?%elem_of_nil.
  - intros seen dir rest acc fs0 ds0 _ (-> & -> & Hseen). apply wp_bind.
    eapply wp_conseq; [apply wp_list_subdirs|]. intros lanes fs' ds' (-> & -> & Hsub).
    eapply wp_conseq; [apply Hlanes|]. intros acc' fs' ds' (-> & -> & Hacc & Hw). split_and!; [done|done|].
    intros dir' [Hdir| ->%list_elem_of_singleton]%elem_of_app lane Hl Hb Ht Hc n Hj Hn.
    + by apply Hacc, Hseen.
    + by apply Hw; [apply Hsub|..].
  - intros acc fs' ds' (-> & -> & Hacc). eapply wp_conseq; [apply wp_read_entries|].
    intros r fs' ds' (-> & -> & new & Hr & Hall). split_and!; [done|done|]. exists new. split; [done|].
    intros Hnew Hb Ht Hc repo lane n Hj Hn. apply Hall; [done|]. rewrite sort_by_perm.
    change (lock ++ ["queue"; repo; lane; "inbox"; n]) with (lock ++ ["queue"] ++ [repo] ++ [lane] ++ ["inbox"; n]) in *.
    rewrite !app_assoc in *.
    assert ((((lock ++ ["queue"]) ++ [repo]) ++ [lane]) ++ ["inbox"] ∈ ds) as Hd.
    { eapply Ht; [exact Hn|]. apply stage_parent. }
    apply Hc in Hd. apply Hacc; [|done..]. apply Hrepos; [done..|]. by apply Hc in Hd.
Qed.

Lemma wp_read_heartbeats lock reasons (fs : Files) (ds : Dirs) :
  wp (read_heartbeats parse_raw lock reasons) (fun r fs' ds' => fs' = fs /\ ds' = ds /\ exists new, r.2 = reasons ++ new) fs ds.
Proof.
  apply wp_bind. eapply wp_conseq; [apply wp_list_files|]. intros ps fs' ds' (-> & -> & _).
  apply (wp_fold _ _ _ (fun _ r fs' ds' => fs' = fs /\ ds' = ds /\ exists new, r.2 = reasons ++ new)).
  { split_and!; [done|done|]. exists []. by rewrite app_nil_r. }
  intros seen p rest r fs0 ds0 _ (-> & -> & new & Hr). apply wp_bind. wp_step.
  - intros e _. apply wp_ret. split_and!; [done|done|]. cbn [snd]. rewrite Hr, <- app_assoc. by eexists.
  - intros text _. apply wp_ret. split_and!; [done|done|]. by exists new.
Qed.
Lemma escalation_lines_reasons p roadmap n ls acc :
  exists new, (escalation_lines EscalationRecord json_error p roadmap n ls acc).2 = acc.2 ++ new.
Proof.
  revert n acc. induction ls as [|l ls IH]; intros n acc; cbn [escalation_lines]; [exists []; by rewrite app_nil_r|].
  match goal with |- exists new, (escalation_lines _ _ _ _ _ _ ?a).2 = _ => destruct (IH (S n) a) as [new ->] end.
  destruct (String.eqb _ ""); [by eexists|]. destruct (coord_of_str _); cbn [snd]; [by eexists|].
  rewrite <- app_assoc. by eexists.
Qed.
Lemma wp_read_escalations root reasons (fs : Files) (ds : Dirs) :
  wp (read_escalations EscalationRecord json_error root reasons)
    (fun r fs' ds' => fs' = fs /\ ds' = ds /\ exists new, r.2 = reasons ++ new) fs ds.
Proof.
  apply wp_bind. eapply wp_conseq; [apply wp_list_subdirs|]. intros dirs fs' ds' (-> & -> & _).
  apply (wp_fold _ _ _ (fun _ r fs' ds' => fs' = fs /\ ds' = ds /\ exists new, r.2 = reasons ++ new)).
  { split_and!; [done|done|]. exists []. by rewrite app_nil_r. }
  intros seen p rest r fs0 ds0 _ (-> & -> & new & Hr). unfold read_roadmap.
  destruct (file_name p); [|apply wp_ret; by split_and!; [| |exists new]]. apply wp_bind. wp_step.
  - intros e _. apply wp_ret. split_and!; [done|done|]. by exists new.
  - intros text _. apply wp_ret. split_and!; [done|done|].
    destruct (escalation_lines_reasons (p ++ ["escalations.jsonl"]) s 0 (lines text) r) as [more ->].
    rewrite Hr, <- app_assoc. by eexists.
Qed.

(** A lane's claim of a run. *)
Definition claimed (v : CoordinationView EscalationRecord) (repo roadmap : string) : Prop :=
  exists p c, mkEntry p (Some c) ∈ registry _ v /\ cm_repo c = repo /\ cm_roadmap c = roadmap.
(** Everything the view is about is in it, and agrees. *)
Record in_order (lock root : path) (fs : Files) (ds : Dirs) (v : CoordinationView EscalationRecord) : Prop := {
  io_registry n : is_json n = true -> is_Some (fs !! (lock ++ ["lane-agents"; n])) ->
    shown RegistryClaim fs (lock ++ ["lane-agents"; n]) (registry _ v);
  io_leases n : is_json n = true -> is_Some (fs !! (lock ++ ["leases"; n])) ->
    shown LeaseRecord fs (lock ++ ["leases"; n]) (leases _ v);
  io_slots n : is_json n = true -> is_Some (fs !! (lock ++ [n])) -> shown SlotRecord fs (lock ++ [n]) (slots _ v);
  io_messages repo lane n : is_json n = true -> is_Some (fs !! (lock ++ ["queue"; repo; lane; "inbox"; n])) ->
    shown MessageRecord fs (lock ++ ["queue"; repo; lane; "inbox"; n]) (messages _ v);
  io_runs mid roadmap text repo :
    (length mid <= RUN_RECORD_MAX_DEPTH)%nat -> Forall (fun c => c ∉ SKIP_DIR_NAMES /\ c <> RUN_DIR) mid ->
    fs !! (((root ++ mid) ++ [RUN_DIR]) ++ [roadmap; "notes.md"]) = Some text ->
    repo_from_path (((root ++ mid) ++ [RUN_DIR]) ++ [roadmap; "notes.md"]) = Some repo ->
    parse_frontmatter_lifecycle text = Some "active" -> claimed v repo roadmap
}.

Lemma unclaimed_nil runs reg reasons :
  check_active_run_records_against_registry runs reg reasons = [] ->
  reasons = [] /\ forall r, r ∈ runs -> is_active r = true ->
    exists p c, mkEntry p (Some c) ∈ reg /\ cm_repo c = rr_repo r /\ cm_roadmap c = rr_roadmap r.
Proof.
  intros [-> Hm]%app_eq_nil. split; [done|]. intros r Hr Ha.
  destruct (existsb (claims_run r) reg) eqn:Hex.
  - apply existsb_exists in Hex as ([p [c|]] & Hin & Hc); [|done]. unfold claims_run in Hc. cbn in Hc.
    apply andb_true_iff in Hc as [H1%String.eqb_eq H2%String.eqb_eq]. exists p, c.
    by split_and!; [apply list_elem_of_In| |].
  - exfalso. assert (r ∈ List.filter (fun r => is_active r && negb (existsb (claims_run r) reg)) runs) as Hin.
    { apply list_elem_of_In, filter_In. split; [by apply list_elem_of_In|]. by rewrite Ha, Hex. }
    destruct (List.filter _ runs); [by apply elem_of_nil in Hin|done].
Qed.

Lemma wp_view env root (fs : Files) (ds : Dirs) :
  wp (read_coordination_view EscalationRecord parse_raw json_error env root) (fun r fs' ds' => fs' = fs /\ ds' = ds /\
    exists v, r = Some v /\ (status _ v = Live -> blind = false -> tree_ok fs ds -> closed ds ->
      in_order (resolve_lock_dir env root) root fs ds v)) fs ds.
Proof.
  unfold read_coordination_view. cbv zeta. set (lock := resolve_lock_dir env root).
  apply wp_bind, wp_bind. eapply wp_conseq; [apply wp_list_files|]. intros p1 fs' ds' (-> & -> & H1).
  eapply wp_conseq; [apply wp_read_entries|]. intros reg fs' ds' (-> & -> & n1 & R1 & S1). cbn [app] in R1.
  apply wp_bind, wp_bind. eapply wp_conseq; [apply wp_list_files|]. intros p2 fs' ds' (-> & -> & H2).
  eapply wp_conseq; [apply wp_read_entries|]. intros ls fs' ds' (-> & -> & n2 & R2 & S2).
  apply wp_bind, wp_bind. eapply wp_conseq; [apply wp_list_files|]. intros p3 fs' ds' (-> & -> & H3).
  eapply wp_conseq; [apply wp_read_entries|]. intros sl fs' ds' (-> & -> & n3 & R3 & S3).
  apply wp_bind. eapply wp_conseq; [apply wp_read_messages|]. intros ms fs' ds' (-> & -> & n4 & R4 & S4).
  apply wp_bind. eapply wp_conseq; [apply wp_read_heartbeats|]. intros hb fs' ds' (-> & -> & n5 & R5).
  apply wp_bind. eapply wp_conseq; [apply wp_read_escalations|]. intros es fs' ds' (-> & -> & n6 & R6).
  apply wp_bind. eapply wp_conseq; [apply wp_run_records|]. intros rr fs' ds' (-> & -> & runs & -> & Hruns).
  apply wp_ret. split_and!; [done|done|]. eexists. split; [reflexivity|]. cbn [status].
  destruct (check_active_run_records_against_registry runs reg.1 es.2) eqn:Hck; [|done]. intros _ Hb Ht Hc.
  apply unclaimed_nil in Hck as [Hes Hclaims].
  rewrite R6, R5, R4, R3, R2, R1 in Hes. repeat apply app_eq_nil in Hes as [Hes ?]. subst.
  split; cbn [registry leases slots messages].
  - intros n Hj Hn. apply S1; [done|]. change (lock ++ ["lane-agents"; n]) with (lock ++ ["lane-agents"] ++ [n]) in *.
    rewrite app_assoc in *. apply H1; [done..| |done]. by apply bool_decide_eq_true in Hj.
  - intros n Hj Hn. apply S2; [done|]. change (lock ++ ["leases"; n]) with (lock ++ ["leases"] ++ [n]) in *.
    rewrite app_assoc in *. apply H2; [done..| |done]. by apply bool_decide_eq_true in Hj.
  - intros n Hj Hn. apply S3; [done|]. apply H3; [done..| |done]. by apply bool_decide_eq_true in Hj.
  - intros repo lane n Hj Hn. by apply S4.
  - intros mid roadmap text repo Hlen Hmid Htext Hrepo Hl.
    assert (((root ++ mid) ++ [RUN_DIR]) ++ [roadmap] ∈ ds) as Hd.
    { eapply Ht; [by eexists|]. apply stage_parent. }
    destruct (Hclaims (mkRunRecordEntry (((root ++ mid) ++ [RUN_DIR]) ++ [roadmap; "notes.md"]) repo roadmap
      (parse_frontmatter_lifecycle text))) as (p & c & Hin & Hr & Hm).
    + apply Hruns; try done. by eapply Hc.
    + unfold is_active. cbn. by apply bool_decide_eq_true_2.
    + by exists p, c.
Qed.

(** C27: a view that is live hides nothing.  The reader always answers, and changes
    nothing.  When it reports [Live], and calls did answer: every claim, lease and
    slot file and every message of an inbox reads as a record of its type, which
    the view holds; and every run record that says a lane is active, wherever it is
    within eight levels and outside of the skipped directories, has a claim of its
    repository and roadmap in the view. *)
Theorem live_view_in_order env root d r d' t :
  alone blind faulty (ticks d) ->
  read_coordination_view EscalationRecord parse_raw json_error env root d = (r, d', t) ->
  files d' = files d /\ dirs d' = dirs d /\ exists v, r = Some v /\
    (status _ v = Live -> blind = false -> tree_ok (files d) (dirs d) -> closed (dirs d) ->
     in_order (resolve_lock_dir env root) root (files d) (dirs d) v).
Proof. intros Hal E. by destruct (wp_run _ _ _ _ _ _ _ _ (wp_view env root (files d) (dirs d)) Hal E) as [_ H]. Qed.
End View.
