(* ===== verification/CoordExamples.v ===== *)
(** * Coordination, computed

    A text format and record codecs the coordination verbs can be run with, and
    the witnesses of their theorems.  An object of strings is printed as its
    fields, each closed by a semicolon, and a closing brace; a value with another
    shape, or a string that holds one of the separators, does not serialize. *)

From Stdlib Require Import Ascii.
From stdpp Require Import gmap pretty.
From S2P Require Import Prelude Json Utf8 Text Effect Disk CoordWrite CoordQueue CoordRead.
Import JsonModel.

Local Open Scope string_scope.
Local Open Scope list_scope.
Local Open Scope effect_scope.
#[local] Existing Instance extern.

(** ** Text *)

Definition plain (s : string) : bool := negb (contains_char ";" s || contains_char "=" s || contains_char "}" s).
Definition field_ok (kx : string * jval) : bool :=
  match kx with (k, JStr s) => plain k && plain s | _ => false end.
Definition field_text (kx : string * jval) : string :=
  match kx with (k, JStr s) => k +:+ String "=" s | _ => "" end.
Fixpoint fields_text (kvs : list (string * jval)) : string :=
  match kvs with [] => "" | kx :: kvs => field_text kx +:+ String ";" (fields_text kvs) end.
Definition print (v : jval) : result string string :=
  match v with
  | JObj kvs => if forallb field_ok kvs then Ok (fields_text kvs +:+ "}") else Err "unsupported"
  | _ => Err "unsupported"
  end.
Fixpoint read_fields (ws : list string) : option (list (string * jval)) :=
  match ws with
  | [] => None
  | [w] => if String.eqb w "" then Some [] else None
  | w :: ws => '(k, s) ← split_once "=" w; kvs ← read_fields ws; Some ((k, JStr s) :: kvs)
  end.
Definition scan (t : string) : option jval :=
  match split_once "}" t with
  | Some (body, "") => JObj <$> read_fields (split_at ";" body)
  | _ => None
  end.

Lemma fields_free kvs : forallb field_ok kvs = true -> contains_char "}" (fields_text kvs) = false.
Proof.
  induction kvs as [|[k x] kvs IH]; [done|]. cbn [forallb fields_text]. intros [Hf H]%andb_true_iff.
  rewrite contains_app. cbn [contains_char Ascii.eqb Bool.eqb orb]. rewrite IH by done.
  destruct x; try discriminate Hf. cbn in Hf. apply andb_true_iff in Hf as [Hk Hs].
  apply negb_true_iff, orb_false_iff in Hk as [_ Hk], Hs as [_ Hs].
  cbn [field_text]. rewrite contains_app, Hk. cbn [contains_char]. by rewrite Hs.
Qed.
Lemma read_fields_text kvs : forallb field_ok kvs = true -> read_fields (split_at ";" (fields_text kvs)) = Some kvs.
Proof.
  induction kvs as [|[k x] kvs IH]; [done|]. cbn [forallb fields_text]. intros [Hf H]%andb_true_iff.
  destruct x; try discriminate Hf. cbn in Hf. apply andb_true_iff in Hf as [Hk Hs].
  apply negb_true_iff, orb_false_iff in Hk as [[Hk1 Hk2]%orb_false_iff _], Hs as [[Hs1 _]%orb_false_iff _].
  rewrite split_at_free.
  2:{ cbn [field_text]. rewrite contains_app, Hk1. cbn [contains_char]. by rewrite Hs1. }
  cbn [field_text]. destruct (split_at ";" (fields_text kvs)) as [|w ws] eqn:Ew; [by specialize (IH H)|].
  change (read_fields ((k +:+ String "=" s) :: w :: ws)) with
    ('(k, s) ← split_once "=" (k +:+ String "=" s); kvs ← read_fields (w :: ws); Some ((k, JStr s) :: kvs)).
  rewrite split_once_free by done. specialize (IH H). revert IH. generalize (read_fields (w :: ws)). by intros ? ->.
Qed.
(** What is printed reads back, and a beginning of it does not. *)
Lemma scan_print v t : print v = Ok t -> scan t = Some v.
Proof.
  destruct v; try discriminate. cbn. destruct (forallb field_ok kvs) eqn:H; [|done]. intros [= <-]. unfold scan.
  rewrite split_once_free by (by apply fields_free). by rewrite read_fields_text.
Qed.
Lemma scan_cut v t n : print v = Ok t -> (n < String.length t)%nat -> scan (String.substring 0 n t) = None.
Proof.
  destruct v; try discriminate. cbn. destruct (forallb field_ok kvs) eqn:H; [|done]. intros [= <-] Hn. unfold scan.
  rewrite split_once_none; [done|].
  assert (forall s n, (n < String.length (s +:+ "}"))%nat -> String.substring 0 n (s +:+ "}") = String.substring 0 n s) as Hcut.
  { clear. induction s as [|c s IH]; intros [|n] Hn; try done; [change (S n < 1)%nat in Hn; lia|].
    rewrite str_app_cons in Hn |- *. change (S n < S (String.length (s +:+ "}")))%nat in Hn.
    change (String c (String.substring 0 n (s +:+ "}")) = String c (String.substring 0 n s)). rewrite IH; [done|lia]. }
  rewrite Hcut by done. by apply contains_prefix, fields_free.
Qed.

(** ** Records *)

Fixpoint depth (v : jval) : nat :=
  match v with
  | JArr l => S (foldr (fun x n => Nat.max (depth x) n) 0 l)
  | JObj kvs => S (foldr (fun kx n => Nat.max (depth kx.2) n) 0 kvs)
  | _ => 0
  end.
#[local] Instance coord_libs : CoordLibs extern := {|
  to_string_pretty := print;
  to_text := print;
  from_text := scan;
  entries_of_object := fun v : jval => match v with JObj kvs => Some kvs | _ => None end;
  value_depth := depth;
  parse_from_rfc3339 := fun s => (fun n => n * 1000000000)%Z <$> parse_u64 s;
  LeaseKind := unit; LeaseScope := unit; PidSource := unit; OwnProcess := tt;
  MessageRecord := string;
  HeartbeatValue := string;
  heartbeat_to_raw := fun s => s
|}.
Definition str_at (k : string) (v : jval) : option string :=
  match v with JObj kvs => match assoc_get k kvs with Some (JStr s) => Some s | _ => None end | _ => None end.
Definition str_opt (k : string) (o : option string) : list (string * jval) :=
  match o with Some s => [(k, JStr s)] | None => [] end.
Definition codec {T : Type} (enc : T -> list (string * jval)) (dec : jval -> option T) : CoordType extern T := {|
  to_value := fun t => Ok (JObj (enc t));
  coord_of_value := fun v => Ok (dec v);
  coord_of_str := fun s => dec <$> scan s
|}.
Definition slot_of (v : jval) : option SlotRecord :=
  repo ← str_at "repo" v; category ← str_at "category" v;
  Some (mkSlotRecord repo 0 tt (str_at "agent" v) category f64_zero (str_at "host" v)).
#[local] Instance slot_codec : CoordType extern SlotRecord :=
  codec (fun s => [("repo", JStr (sl_repo s)); ("category", JStr (category s))] ++ str_opt "agent" (sl_agent s))
    slot_of.
#[local] Instance claim_codec : CoordType extern RegistryClaim :=
  codec (fun c => [("agent_name", JStr (cm_agent_name c)); ("repo", JStr (cm_repo c)); ("roadmap", JStr (cm_roadmap c));
                   ("started_at", JStr (cm_started_at c))])
    (fun v => agent_name ← str_at "agent_name" v; repo ← str_at "repo" v; roadmap ← str_at "roadmap" v;
              started_at ← str_at "started_at" v;
              Some (mkRegistryClaim agent_name repo "" roadmap started_at "" None None None)).
#[local] Instance lease_codec : CoordType extern LeaseRecord :=
  codec (fun l => [("repo", JStr (ls_repo l)); ("agent", JStr (ls_agent l)); ("acquired_at", JStr (ls_acquired_at l))]
                  ++ str_opt "heartbeat" (ls_heartbeat l))
    (fun v => repo ← str_at "repo" v; agent ← str_at "agent" v; acquired_at ← str_at "acquired_at" v;
              Some (mkLeaseRecord repo "" agent acquired_at tt (str_at "heartbeat" v) None None)).
#[local] Instance message_codec : CoordType extern (MessageRecord (CoordLibs := coord_libs)) :=
  codec (fun m : string => [("message_id", JStr m)]) (fun v => str_at "message_id" v).

Lemma stamped_category (s : SlotRecord) v host :
  to_value s = Ok v -> str_at "category" (stamp_host host v) = Some (category s).
Proof. intros [= <-]. destruct host, (sl_agent s); reflexivity. Qed.
#[local] Instance slot_text : SlotText.
Proof.
  split.
  - intros s s' v host text Hv Hp Hs. change (slot_of <$> scan text = Some (Some s')) in Hs.
    rewrite (scan_print _ _ Hp) in Hs. cbn [fmap option_fmap option_map] in Hs. unfold slot_of in Hs.
    rewrite (stamped_category s v host Hv) in Hs. destruct (str_at "repo" _); [|done]. cbn in Hs. by injection Hs as <-.
  - intros s v host text n _ Hp Hn. cbn. by rewrite (scan_cut _ _ _ Hp Hn).
Qed.
Lemma depth_below {A} (f : A -> jval) (l : list A) x : x ∈ l -> (depth (f x) <= foldr (fun y n => Nat.max (depth (f y)) n) 0 l)%nat.
Proof. induction l as [|y l IH]; [by intros ?%elem_of_nil|]. cbn. intros [->|Hx%IH]%elem_of_cons; lia. Qed.
#[local] Instance tree_laws : TreeLaws.
Proof.
  split.
  - intros v kvs key x Hv Hx. destruct v; try discriminate Hv. injection Hv as ->. cbn.
    apply (depth_below snd) in Hx. cbn in Hx. lia.
  - intros v items x Hv Hx. destruct v; try discriminate Hv. injection Hv as ->. cbn.
    apply (depth_below (fun y => y)) in Hx. lia.
Qed.

(** ** A directory *)

Definition lock : path := ["brain"; ".fleet-locks"].
Definition bare : Disk := mkDisk ∅ (list_to_set (prefixes lock)) [].
Definition with_file (p : path) (text : string) (d : Disk) : Disk :=
  mkDisk (<[p := text]> (files d)) (list_to_set (prefixes (removelast p)) ∪ dirs d) (ticks d).
Definition with_ticks (ts : list Tick) (d : Disk) : Disk := mkDisk (files d) (dirs d) ts.
Definition steady : Tick := quiet.
Definition tears : Tick := mkTick (fun m => m) None (Some (CutShort "No space left on device" 3)).

Definition held_text : string := "repo=core;agent=a;acquired_at=1000;}".
Definition held : LeaseRecord := mkLeaseRecord "core" "" "a" "1000" tt None None None.
Definition leased_disk : Disk := with_file (lease_path lock "core") held_text bare.
Lemma no_fault_alone b f : alone b f [].
Proof. constructor. Qed.

(** The write of the new record tears: the old one is in the snapshot. *)
Definition torn_disk : Disk := with_ticks [steady; steady; steady; steady; tears] leased_disk.
Definition renewal : jval := JObj [("repo", JStr "core"); ("agent", JStr "a"); ("acquired_at", JStr "2000")].
Lemma record_survives_witness :
  let '(r, d', _) := write_coord_json lock LeaseRecord (lease_path lock "core") renewal (Some "h1") torn_disk in
  is_ok r = false /\
  (files d' !! lease_path lock "core" = Some held_text \/
   files d' !! prev_path lock (lease_path lock "core") = Some held_text).
Proof.
  assert (is_ok (write_coord_json lock LeaseRecord (lease_path lock "core") renewal (Some "h1") torn_disk).1.1 = false) as Hr
    by (vm_compute; reflexivity).
  destruct (write_coord_json _ _ _ _ _ _) as [[r d'] t] eqn:E. split; [exact Hr|].
  assert (alone false true (ticks torn_disk)) as Hal.
  { repeat constructor; by right. }
  destruct (record_survives lock false true _ _ _ _ _ _ _ _ Hal E) as (_ & _ & _ & H).
  destruct r as [|e]; [discriminate Hr|]. apply (H e eq_refl). vm_compute. reflexivity.
Defined.

(** Another agent asks for the lease of a while ago and tries to give it back. *)
Definition rival (now : string) : LeaseRequest := mkLeaseRequest "core" "" "b" tt None None now None [].
Definition rival_ops : list LeaseOp := [OpLease (rival "11800"); OpUnleaseOwn "core" "b"].
Lemma foreign_lease_kept_witness :
  let '(bs, d', _) := attempts lock rival_ops leased_disk in
  files d' !! lease_path lock "core" = Some held_text /\ bs = [false; false].
Proof.
  destruct (attempts lock rival_ops leased_disk) as [[bs d'] t] eqn:E.
  destruct (foreign_lease_kept lock false "core" held held_text rival_ops leased_disk bs d' t) as [H Hbs].
  - apply no_fault_alone.
  - vm_compute. reflexivity.
  - reflexivity.
  - apply Forall_cons. split; [|apply Forall_cons; split; [|constructor]]; intros _; (split; [discriminate|]);
      [vm_compute; reflexivity|exact I].
  - exact E.
  - split; [exact H|]. inversion Hbs as [|? b1 ? ? H1 Hbs1]; subst. inversion Hbs1 as [|? b2 ? ? H2 Hbs2]; subst.
    inversion Hbs2; subst. by rewrite (H1 eq_refl), (H2 eq_refl).
Defined.

(** Three lanes ask for a category of two; one write tears. *)
Definition lane (n : string) : Verb :=
  VRegister (mkRegisterRequest n "core" "" "" None (Some "browser-automation") "1000" f64_zero 7).
Definition tearing_disk : Disk := with_ticks (replicate 4 steady ++ [tears]) bare.
Lemma capacity_bounded_witness :
  let '(_, d', _) := run_verbs lock [lane "a"; lane "b"; VRelease "a"; lane "c"; lane "d"] tearing_disk in
  (size (CoordWrite.slots lock "browser-automation" (files d')) <= 2)%nat.
Proof.
  destruct (run_verbs _ _ _) as [[u d'] t] eqn:E.
  refine (capacity_bounded lock true _ tearing_disk u d' t _ _ _ E "browser-automation").
  - repeat constructor; by (left + right).
  - intros p dir [x Hx]. discriminate Hx.
  - intros c. vm_compute. lia.
Defined.

(** A message is sent, handed over, and handed over again after a restart. *)
Definition envelope : jval := JObj [("message_id", JStr "m1"); ("sent_at", JStr "2026-01-01T10:00:00Z"); ("note", JStr "hi")].
Definition inbox_name : string := "20260101T100000Z-m1.json".
Definition sent_disk : Disk := (send lock "core" "l1" envelope None bare).1.2.
Lemma send_screens_witness :
  let '(r, d', _) := send lock "core" "l1" (JObj [("sender", JObj [("priority", JStr "high")])]) None bare in
  files d' = files bare /\ is_ok r = false.
Proof.
  destruct (send _ _ _ _ _ _) as [[r d'] t] eqn:E.
  destruct (send_screens lock false false _ _ _ _ bare _ _ _ (no_fault_alone _ _) E) as [[Hf (k & _ & _ & ->)] _]; [|by split].
  exists "priority". split; [by left|]. eapply has_member; [reflexivity|reflexivity|left|].
  eapply has_here; [reflexivity|reflexivity|left].
Defined.

Lemma drain_exact_witness :
  let '(r, d', _) := drain lock "core" "l1" "now" sent_disk in
  files d' !! (queue_dir lock "core" "l1" ++ ["processing"; inbox_name])
    = files sent_disk !! (queue_dir lock "core" "l1" ++ ["inbox"; inbox_name]).
Proof.
  assert ((drain lock "core" "l1" "now" sent_disk).1.1 = Ok ["m1"]) as Hr by (vm_compute; reflexivity).
  destruct (drain _ _ _ _ _) as [[r d'] t] eqn:E. cbn in Hr. subst r.
  destruct (drain_exact lock false false "core" "l1" "now" sent_disk ["m1"] d' t) as (names & _ & _ & _ & Hd & Hall).
  - vm_compute. constructor.
  - exact E.
  - destruct Hd as [_ Hmoved _ _]. apply Hmoved. eapply Hall; [reflexivity|reflexivity| | |reflexivity| |].
    + apply (bool_decide_unpack _). vm_compute. reflexivity.
    + intros name Hin. assert (forallb (fun p : path => (length p <=? 6)%nat) (elements (dirs sent_disk)) = true) as Hlen
        by (vm_compute; reflexivity).
      apply elem_of_elements, list_elem_of_In in Hin. apply (proj1 (forallb_forall _ _) Hlen) in Hin. discriminate Hin.
    + vm_compute. reflexivity.
    + vm_compute. reflexivity.
Defined.

Lemma messages_conserved_witness :
  let '(_, d', _) := run_queue_ops lock [QDrain "core" "l1" "t1"; QRequeueAll; QDrain "core" "l1" "t2";
                                         QComplete "core" "l1" "m1" "t3"] sent_disk in
  exists text, stands lock (files d') "core" "l1" inbox_name text.
Proof.
  destruct (run_queue_ops _ _ _) as [[u d'] t] eqn:E.
  assert (stands lock (files sent_disk) "core" "l1" inbox_name
    (default "" (files sent_disk !! (queue_dir lock "core" "l1" ++ ["inbox"; inbox_name])))) as Hs.
  { exists "inbox". split; [by left|]. vm_compute. reflexivity. }
  refine (cv_kept _ _ _ (messages_conserved lock false false _ sent_disk u d' t _ E) _ _ _ _ Hs).
  vm_compute. constructor.
Defined.

(** The receipts then show the one message taken from the inbox twice. *)
Lemma requeue_doubles_receipt :
  let '(_, d', _) := run_queue_ops lock [QDrain "core" "l1" "t1"; QRequeueAll; QDrain "core" "l1" "t1"] sent_disk in
  match to_text (receipt_value "m1" "inbox" "processing" "t1") with
  | Ok line => files d' !! receipts_path (queue_dir lock "core" "l1") = Some (line +:+ nl +:+ line +:+ nl)
  | Err _ => False
  end.
Proof. vm_compute. reflexivity. Qed.

(** Two agents read that no lease is there; the second writes; so does the first. *)
Definition rival_writes : Tick :=
  mkTick <[lease_path lock "core" := "repo=core;agent=b;acquired_at=1000;heartbeat=1000;}"]> None None.
Definition contested : Disk := with_ticks [steady; rival_writes] bare.
Lemma lease_race :
  let '(r, d', _) := lease lock (mkLeaseRequest "core" "" "a" tt None None "1000" None []) contested in
  is_ok r = true /\
  files d' !! lease_path lock "core" = Some "repo=core;agent=a;acquired_at=1000;heartbeat=1000;}".
Proof. vm_compute. by split. Qed.

(** A lane has registered, and its run record says it is active. *)
Definition notes_path : path := ["brain"; "core"; "planning"; "orchestration-run"; "rm"; "notes.md"].
Definition notes : string := "---" +:+ nl +:+ "lifecycle: active" +:+ nl +:+ "---" +:+ nl.
Definition active_disk : Disk :=
  with_file notes_path notes
    (register lock (mkRegisterRequest "a" "core" "l1" "rm" None None "1000" f64_zero 7) bare).1.2.
Definition files_in_dirs (d : Disk) : bool :=
  forallb (fun pt : path * string => match parent pt.1 with Some dir => bool_decide (dir ∈ dirs d) | None => true end)
    (map_to_list (files d)).
Definition dirs_in_dirs (d : Disk) : bool :=
  forallb (fun p => match parent p with Some dir => bool_decide (dir ∈ dirs d) | None => true end) (elements (dirs d)).
Lemma files_in_dirs_ok d : files_in_dirs d = true -> tree_ok (files d) (dirs d).
Proof.
  intros H p dir [text Hp] Hdir. apply elem_of_map_to_list, list_elem_of_In in Hp.
  apply (proj1 (forallb_forall _ _) H) in Hp. cbn in Hp. rewrite Hdir in Hp. by apply bool_decide_eq_true in Hp.
Qed.
Lemma dirs_in_dirs_ok d : dirs_in_dirs d = true -> closed (dirs d).
Proof.
  intros H p n Hp. apply elem_of_elements, list_elem_of_In in Hp.
  apply (proj1 (forallb_forall _ _) H) in Hp. rewrite parent_snoc in Hp. by apply bool_decide_eq_true in Hp.
Qed.
Definition escalation_codec : CoordType extern string := message_codec.
Definition view : FS (option (CoordinationView string)) :=
  read_coordination_view (CX := escalation_codec) string (fun s => s) (fun _ => "bad json") None ["brain"].
Lemma live_view_in_order_witness :
  match view active_disk with
  | (Some v, _, _) => status _ v = Live /\ claimed string v "core" "rm"
  | _ => False
  end.
Proof.
  assert ((match (view active_disk).1.1 with
           | Some v => match status _ v with Live => true | Degraded => false end | None => false end) = true) as Hlive
    by (vm_compute; reflexivity).
  destruct (view active_disk) as [[r d'] t] eqn:E.
  destruct (live_view_in_order (CL := coord_libs) string (CX := escalation_codec) (fun s => s) (fun _ => "bad json") false false None ["brain"]
    active_disk r d' t) as (_ & _ & v & -> & H).
  - vm_compute. constructor.
  - exact E.
  - cbn in Hlive. destruct (status _ v) eqn:Hs; [|discriminate Hlive]. split; [reflexivity|].
    refine (io_runs _ _ _ _ _ _ (H eq_refl eq_refl _ _) ["core"; "planning"] "rm" notes "core" _ _ _ _ _).
    + apply files_in_dirs_ok. vm_compute. reflexivity.
    + apply dirs_in_dirs_ok. vm_compute. reflexivity.
    + apply Nat.leb_le. reflexivity.
    + apply Forall_forall. intros c Hc. apply (bool_decide_unpack _). revert Hc. rewrite !elem_of_cons, elem_of_nil.
      intros [->|[->|[]]]; vm_compute; reflexivity.
    + vm_compute. reflexivity.
    + reflexivity.
    + vm_compute. reflexivity.
Defined.
