(* ===== verification/ApprovalLedger.v ===== *)
(** * The approval ledger

    crates/engine-core/src/operator/ledger: the decision of an operator on an
    item of the queue becomes one row (record.rs, [record_decision] of mod.rs), a
    line of JSON appended to a file (store.rs); the queries over the rows
    (query.rs), and the two routes that serve them
    (crates/engine-serve/src/approvals.rs).

    serde_json's text is the class [JsonLine], chrono's dates are [ChronoDate].  A
    line that repeats a key, which the derived reader refuses, is outside of the
    model, and a file is read in one call. *)

From Stdlib Require Import NArith Ascii.
From stdpp Require Import gmap list.
From S2P Require Import Prelude Json Utf8 Text Effect Disk.

Local Open Scope string_scope.
Local Open Scope list_scope.
Local Open Scope effect_scope.

(** ** Rows: record.rs *)

Inductive LedgerDecision := Approved | Skipped | RoutedToSession | Requeued.
#[export] Instance LedgerDecision_eq_dec : EqDecision LedgerDecision.
Proof. solve_decision. Defined.

Definition decision_wire (d : LedgerDecision) : string :=
  match d with
  | Approved => "approved"
  | Skipped => "skipped"
  | RoutedToSession => "routed_to_session"
  | Requeued => "requeued"
  end.
Definition decision_of_wire (s : string) : option LedgerDecision :=
  find (fun d => String.eqb (decision_wire d) s) [Approved; Skipped; RoutedToSession; Requeued].

Record ApprovalLedgerRow := mkApprovalLedgerRow {
  item_id : string;
  digest : string;
  decision : LedgerDecision;
  who : string;
  delivered_at : instant;
  decided_at : instant;
  rendered_diff : string
}.
#[export] Instance ApprovalLedgerRow_eq_dec : EqDecision ApprovalLedgerRow.
Proof. solve_decision. Defined.

(** [serde_json::to_string], [serde_json::from_str] *)
Class JsonLine (X : Extern) : Type := {
  to_line : value -> result string string;
  from_line : string -> option value
}.

(** ** Strings from bytes *)

(** What may follow the first byte [n] of a character of three or four bytes. *)
Definition second_ok (n : N) (b : ascii) : bool :=
  is_cont b &&
  (if (n =? 224)%N then (160 <=? byte b)%N
   else if (n =? 237)%N then (byte b <? 160)%N
   else if (n =? 240)%N then (144 <=? byte b)%N
   else if (n =? 244)%N then (byte b <? 144)%N
   else true).
Fixpoint valid_utf8 (s : string) : bool :=
  match s with
  | EmptyString => true
  | String a s1 =>
      let n := byte a in
      if (n <? 128)%N then valid_utf8 s1
      else if ((194 <=? n) && (n <=? 223))%N then
        match s1 with String b s2 => is_cont b && valid_utf8 s2 | _ => false end
      else if ((224 <=? n) && (n <=? 239))%N then
        match s1 with
        | String b (String c s3) => second_ok n b && is_cont c && valid_utf8 s3
        | _ => false
        end
      else if ((240 <=? n) && (n <=? 244))%N then
        match s1 with
        | String b (String c (String d s4)) => second_ok n b && is_cont c && is_cont d && valid_utf8 s4
        | _ => false
        end
      else false
  end.

(** ** The file: store.rs *)

Section Store.
Context {X : Extern} {HO : HashOrder} {JL : JsonLine X}.

Definition row_to_json (r : ApprovalLedgerRow) : value :=
  json_object [("item_id", jstr (item_id r)); ("digest", jstr (digest r));
               ("decision", jstr (decision_wire (decision r))); ("who", jstr (who r));
               ("delivered_at", instant_to_json (delivered_at r));
               ("decided_at", instant_to_json (decided_at r)); ("rendered_diff", jstr (rendered_diff r))].
Definition row_fields : list string :=
  ["item_id"; "digest"; "decision"; "who"; "delivered_at"; "decided_at"; "rendered_diff"].
Definition row_of_json (v : value) : option ApprovalLedgerRow :=
  slots ← de_struct row_fields v;
  match slots with
  | [a; b; c; d; e; f; g] =>
      item_id ← de_req as_str a;
      digest ← de_req as_str b;
      decision ← de_req (fun v => enum_variant v ≫= decision_of_wire) c;
      who ← de_req as_str d;
      delivered_at ← de_req instant_of_json e;
      decided_at ← de_req instant_of_json f;
      rendered_diff ← de_req as_str g;
      Some (mkApprovalLedgerRow item_id digest decision who delivered_at decided_at rendered_diff)
  | _ => None
  end.

Variable ledger : path.

(** [open] with [create] and [append] makes the file when there is none;
    [writeln!(file, ...)] writes the line, then the newline. *)
Definition append (row : ApprovalLedgerRow) : FS unit :=
  match parent ledger with
  | Some dir => if bool_decide (dir = []) then eret (Ok tt) else fs_create_dir_all dir
  | None => eret (Ok tt)
  end ;~
  match to_line (row_to_json row) with
  | Err _ => eret tt
  | Ok line =>
      opened <~ fs_append ledger "" ;;
      match opened with
      | Err _ => eret tt
      | Ok tt => (_ <~? fs_append ledger line ;; fs_append ledger nl) ;~ eret tt
      end
  end.

(** [File::open] opens a directory as well. *)
Definition fs_open (p : path) : FS (result unit string) :=
  reading (fun f d =>
    match f with
    | Some e => Err e
    | None => if bool_decide (is_Some (files d !! p)) || bool_decide (p ∈ dirs d) then Ok tt else Err not_found
    end).

(** An item of [reader.lines()] that was read *)
Definition line_row (raw : string) : option ApprovalLedgerRow :=
  if valid_utf8 raw then
    let trimmed := trim raw in
    if String.eqb trimmed "" then None else from_line trimmed ≫= row_of_json
  else None.
Definition rows_of_text (text : string) : list ApprovalLedgerRow := omap line_row (lines text).

(** The loop over [reader.lines()]: an error is skipped and the reader asked
    again.  [None]: still asking when the fuel is used up. *)
Fixpoint read_lines (fuel : nat) : FS (option (list ApprovalLedgerRow)) :=
  match fuel with
  | 0 => eret None
  | S fuel =>
      r <~ fs_read ledger ;;
      match r with
      | Err _ => read_lines fuel
      | Ok text => eret (Some (rows_of_text text))
      end
  end.
Definition read_all (fuel : nat) : FS (option (list ApprovalLedgerRow)) :=
  opened <~ fs_open ledger ;;
  match opened with
  | Err _ => eret (Some [])
  | Ok _ => read_lines fuel
  end.
Definition rows_for (fuel : nat) (item : string) : FS (option (list ApprovalLedgerRow)) :=
  rows <~ read_all fuel ;;
  eret (filter (fun row => item_id row = item) <$> rows).
End Store.

Definition default_ledger_path (xdg_state_home home : option path) : option path :=
  match xdg_state_home with
  | Some xdg => Some (xdg ++ ["engine-rs"; "approval-ledger.jsonl"])
  | None => (fun h => h ++ [".local"; "state"; "engine-rs"; "approval-ledger.jsonl"]) <$> home
  end.

(** ** Recording a decision: mod.rs *)

Record RecordDecisionOutcome := mkRecordDecisionOutcome { out_row : ApprovalLedgerRow; should_execute : bool }.

(** The arguments of a call *)
Record Ask := mkAsk {
  ask_item : string;
  delivered_digest : string;
  presented_digest : string;
  ask_diff : string;
  requested_decision : LedgerDecision;
  ask_who : string;
  ask_delivered_at : instant;
  ask_decided_at : instant
}.

Definition enforced_decision (a : Ask) : LedgerDecision :=
  if String.eqb (delivered_digest a) (presented_digest a) then requested_decision a else Requeued.
Definition decided_row (a : Ask) : ApprovalLedgerRow :=
  mkApprovalLedgerRow (ask_item a) (delivered_digest a) (enforced_decision a) (ask_who a)
    (ask_delivered_at a) (ask_decided_at a) (ask_diff a).
Definition record_decision {X : Extern} {HO : HashOrder} {JL : JsonLine X} (ledger : path) (a : Ask)
    : FS RecordDecisionOutcome :=
  let digest_matches := String.eqb (delivered_digest a) (presented_digest a) in
  append ledger (decided_row a) ;~
  eret (mkRecordDecisionOutcome (decided_row a)
          (digest_matches && bool_decide (enforced_decision a = Approved))).

(** ** Queries: query.rs *)

Definition time_to_approval (row : ApprovalLedgerRow) : Z := (decided_at row - delivered_at row)%Z.

Record TimeToApprovalStats := mkTimeToApprovalStats { count : nat; median : option Z; max : option Z }.

Definition time_to_approval_stats (rows : list ApprovalLedgerRow) : TimeToApprovalStats :=
  match sort_by Z.compare (map time_to_approval (filter (fun row => decision row <> Requeued) rows)) with
  | [] => mkTimeToApprovalStats 0 None None
  | durations =>
      mkTimeToApprovalStats (length durations) (durations !! (length durations / 2)%nat) (last durations)
  end.

(** [NaiveDate], [DateTime::date_naive] and the date's [to_string] *)
Class ChronoDate : Type := {
  NaiveDate : Type;
  #[global] NaiveDate_eq_dec :: EqDecision NaiveDate;
  #[global] NaiveDate_countable :: Countable NaiveDate;
  date_naive : instant -> NaiveDate;
  date_to_string : NaiveDate -> string;
  #[global] date_to_string_inj :: Inj (=) (=) date_to_string
}.

Definition decisions_per_day {CD : ChronoDate} (rows : list ApprovalLedgerRow) : gmap NaiveDate nat :=
  foldl (fun counts row =>
    let date := date_naive (decided_at row) in
    <[date := S (default 0 (counts !! date))]> counts) ∅ rows.

(** ** The routes: approvals.rs *)

Definition DEFAULT_LIMIT : nat := 100.
Definition MAX_LIMIT : nat := 1000.

Record ListLedgerQuery := mkListLedgerQuery {
  q_item_id : option string; q_limit : option nat; q_offset : option nat }.

Inductive ApprovalsResponse :=
| Unauthorized
| LedgerNotConfigured
| FailedToRead
| LedgerRows (rows : list ApprovalLedgerRow) (total limit offset : nat)
| LedgerStats (count : nat) (median_seconds max_seconds : option Z) (per_day : gmap string nat).

(** [header]: the [X-API-Key] header, when it is text. *)
Definition check_api_key (header : option string) (expected : string) : bool :=
  match header with Some value => String.eqb value expected | None => false end.

(** [Duration::num_seconds] of a number of nanoseconds *)
Definition num_seconds (d : Z) : Z := Z.quot d 1000000000.

Section Routes.
Context {X : Extern} {HO : HashOrder} {JL : JsonLine X} {CD : ChronoDate}.
Variables (header : option string) (api_key : string) (ledger : option path).
(** did [web::block] run the read? *)
Variable unblocked : bool.

Definition page (limit offset : nat) (rows : list ApprovalLedgerRow) : list ApprovalLedgerRow :=
  take limit (drop offset rows).

Definition list_ledger (fuel : nat) (query : ListLedgerQuery) : FS (option ApprovalsResponse) :=
  if negb (check_api_key header api_key) then eret (Some Unauthorized)
  else
    match ledger with
    | None => eret (Some LedgerNotConfigured)
    | Some ledger =>
        if negb unblocked then eret (Some FailedToRead)
        else
          rows <~ match q_item_id query with
                  | Some item => rows_for ledger fuel item
                  | None => read_all ledger fuel
                  end ;;
          eret ((fun rows =>
            let rows := rev rows in
            let total := length rows in
            let limit := Nat.min (default DEFAULT_LIMIT (q_limit query)) MAX_LIMIT in
            let offset := default 0 (q_offset query) in
            LedgerRows (page limit offset rows) total limit offset) <$> rows)
    end.

Definition ledger_stats (fuel : nat) : FS (option ApprovalsResponse) :=
  if negb (check_api_key header api_key) then eret (Some Unauthorized)
  else
    match ledger with
    | None => eret (Some LedgerNotConfigured)
    | Some ledger =>
        if negb unblocked then eret (Some FailedToRead)
        else
          rows <~ read_all ledger fuel ;;
          eret ((fun rows =>
            let stats := time_to_approval_stats rows in
            LedgerStats (count stats) (num_seconds <$> median stats) (num_seconds <$> max stats)
              (kmap date_to_string (decisions_per_day rows))) <$> rows)
    end.
End Routes.

(** ** What a ledger holds

    [joined done last]: the finished lines of a text, and what follows the last
    newline. *)

Definition joined (done : list string) (last : string) : string :=
  foldr (fun l t => l +:+ String newline_char t) last done.
Definition glue (pieces : list string) : string := foldr String.append "" pieces.
Definition cr_char : ascii := ascii_of_nat 13.

Lemma joined_app done last s : joined done last +:+ s = joined done (last +:+ s).
Proof.
  induction done as [|l done IH]; [done|].
  change (joined (l :: done) last) with (l +:+ String newline_char (joined done last)).
  by rewrite str_append_assoc, str_app_cons, IH.
Qed.
Lemma joined_end done l : joined done (l +:+ nl) = joined (done ++ [l]) "".
Proof. unfold joined. by rewrite foldr_app. Qed.
Lemma glue_snoc ps s : glue (ps ++ [s]) = glue ps +:+ s.
Proof.
  induction ps as [|p ps IH]; [by apply str_append_nil_r|].
  change (p +:+ glue (ps ++ [s]) = (p +:+ glue ps) +:+ s). by rewrite IH, str_append_assoc.
Qed.
Lemma split_last_free c s : contains_char c s = false -> split_last (String c "") s = None.
Proof.
  induction s as [|d s IH]; cbn -[String.prefix]; [done|]. intros [Hd H]%orb_false_iff. rewrite IH by done. cbn.
  destruct (ascii_dec c d) as [->|]; [by rewrite Ascii.eqb_refl in Hd|done].
Qed.
Lemma strip_cr_free s : contains_char cr_char s = false -> strip_cr s = s.
Proof. intros H. unfold strip_cr. by rewrite split_last_free. Qed.
Lemma free_prefix c s t : String.prefix s t = true -> contains_char c t = false -> contains_char c s = false.
Proof. intros [u ->]%prefix_iff. rewrite contains_app. by intros [-> _]%orb_false_iff. Qed.
Lemma free_glue c ps : Forall (fun s => contains_char c s = false) ps -> contains_char c (glue ps) = false.
Proof.
  induction 1 as [|s ps Hs _ IH]; [done|]. change (glue (s :: ps)) with (s +:+ glue ps).
  by rewrite contains_app, Hs, IH.
Qed.
Lemma prefix_substring n s : String.prefix (String.substring 0 n s) s = true.
Proof.
  revert n. induction s as [|c s IH]; intros [|n]; cbn; try done. destruct (ascii_dec c c); [apply IH|done].
Qed.
Lemma substring_length n s : (String.length (String.substring 0 n s) <= n)%nat.
Proof. revert n. induction s as [|c s IH]; intros [|n]; cbn; [lia..|]. specialize (IH n). lia. Qed.

Lemma lines_joined done last :
  Forall (fun l => contains_char newline_char l = false) done -> contains_char newline_char last = false ->
  lines (joined done last) = map strip_cr done ++ (if String.eqb last "" then [] else [last]).
Proof.
  intros Hd Hl. unfold lines. induction Hd as [|l done Hfree Hd IH]; cbn [joined foldr map].
  { by rewrite split_at_whole. }
  rewrite split_at_free by done. fold (joined done last).
  destruct (split_at newline_char (joined done last)) eqn:E; [by pose proof (split_at_length newline_char (joined done last)) as HL; rewrite E in HL|].
  cbn [drop_last_empty app]. by rewrite <- IH.
Qed.

(** What follows the last newline: nothing, a whole row, or what is no row. *)
Inductive Tail := Clean | Whole (r : ApprovalLedgerRow) | Junk.
Definition LedgerState : Type := list ApprovalLedgerRow * Tail.
Definition readable (st : LedgerState) : list ApprovalLedgerRow :=
  st.1 ++ match st.2 with Whole r => [r] | _ => [] end.

(** How far an append got. *)
Inductive Extent := NotWritten | Cut | Unended | Written.
#[export] Instance Extent_eq_dec : EqDecision Extent.
Proof. solve_decision. Defined.
Definition unended (st : LedgerState) (r : ApprovalLedgerRow) : LedgerState :=
  (st.1, match st.2 with Clean => Whole r | _ => Junk end).
Definition step (st : LedgerState) (r : ApprovalLedgerRow) (x : Extent) : LedgerState :=
  match x with
  | NotWritten => st
  | Cut => (st.1, Junk)
  | Unended => unended st r
  | Written => (readable (unended st r), Clean)
  end.
Fixpoint replay (st : LedgerState) (rs : list ApprovalLedgerRow) (xs : list Extent) : LedgerState :=
  match rs, xs with
  | r :: rs, x :: xs => replay (step st r x) rs xs
  | _, _ => st
  end.
Definition is_written (x : Extent) : bool := match x with Written => true | _ => false end.
Definition failures (xs : list Extent) : nat := foldr (fun x n => (if is_written x then 0 else 1) + n)%nat 0%nat xs.
(** The rows an append that succeeds may yet cost *)
Definition debt (st : LedgerState) : nat := match st.2 with Clean => 0 | Whole _ => 2 | Junk => 1 end.

Lemma replay_snoc st rs xs r x :
  length rs = length xs -> replay st (rs ++ [r]) (xs ++ [x]) = step (replay st rs xs) r x.
Proof.
  revert st xs. induction rs as [|r' rs IH]; intros st [|x' xs] Hl; try done. cbn. apply IH. by injection Hl.
Qed.
(** Finished lines stay. *)
Lemma step_keeps st r x : st.1 `prefix_of` (step st r x).1.
Proof. destruct x; cbn; [done..|]. unfold readable. cbn. by apply prefix_app_r. Qed.
Lemma replay_keeps rs xs st : st.1 `prefix_of` (replay st rs xs).1.
Proof.
  revert st xs. induction rs as [|r rs IH]; intros st [|x xs]; try done. cbn.
  etrans; [apply step_keeps|apply IH].
Qed.
(** Nothing but what was appended is read, in order. *)
Lemma step_sublist st r x : readable (step st r x) `sublist_of` readable st ++ [r].
Proof.
  destruct st as [rows []], x; cbn; unfold readable, unended; cbn; rewrite ?app_nil_r;
    try done; try (by apply sublist_inserts_r); rewrite <- ?app_assoc; by apply sublist_inserts_r.
Qed.
Lemma replay_sublist rs xs st :
  length rs = length xs -> readable (replay st rs xs) `sublist_of` readable st ++ rs.
Proof.
  revert st xs. induction rs as [|r rs IH]; intros st [|x xs] Hl; try done; [by rewrite app_nil_r|]. cbn.
  etrans; [apply IH; by injection Hl|]. rewrite (cons_middle r), app_assoc.
  apply sublist_app; [apply step_sublist|done].
Qed.
(** An append that fails costs two rows at most. *)
Lemma step_count st r x :
  (S (length (readable st)) + debt (step st r x) <= length (readable (step st r x)) + 2 * failures [x] + debt st)%nat.
Proof.
  destruct st as [rows []], x; cbn; unfold readable, unended; cbn; rewrite ?length_app; cbn; lia.
Qed.
Lemma replay_count rs xs st : length rs = length xs ->
  (length rs + length (readable st) <= length (readable (replay st rs xs)) + 2 * failures xs + debt st)%nat.
Proof.
  revert st xs. induction rs as [|r rs IH]; intros st [|x xs] Hl; try done; cbn [length replay]; [cbn; lia|].
  injection Hl as Hl. specialize (IH (step st r x) xs Hl). pose proof (step_count st r x) as Hs.
  change (failures (x :: xs)) with ((if is_written x then 0 else 1) + failures xs)%nat.
  change (failures [x]) with ((if is_written x then 0 else 1) + 0)%nat in Hs. lia.
Qed.
Lemma replay_written rs rows :
  replay (rows, Clean) rs (replicate (length rs) Written) = (rows ++ rs, Clean).
Proof.
  revert rows. induction rs as [|r rs IH]; intros rows; cbn; [by rewrite app_nil_r|].
  unfold readable. cbn. by rewrite IH, <- app_assoc.
Qed.

(** ** The text of rows *)

Definition row_text {X : Extern} {JL : JsonLine X} (r : ApprovalLedgerRow) (t : string) : Prop :=
  to_line (row_to_json r) = Ok t.
(** The beginning of a row's text, of one character at least *)
Definition beginning {X : Extern} {JL : JsonLine X} (s : string) : Prop :=
  s <> "" /\ exists r t, row_text r t /\ String.prefix s t = true.

(** serde_json prints an object on one line, between its braces, and a reader
    refuses what is cut short or joined. *)
Class JsonLineLaws (X : Extern) (JL : JsonLine X) : Prop := {
  line_read r t : row_text r t -> from_line (trim t) = Some (row_to_json r);
  line_shape r t : row_text r t ->
    trim t <> "" /\ valid_utf8 t = true /\ contains_char newline_char t = false /\ contains_char cr_char t = false;
  line_cut r t s : row_text r t -> String.prefix s t = true -> s <> t -> from_line (trim s) = None;
  line_joined ps : Forall beginning ps -> (2 <= length ps)%nat -> from_line (trim (glue ps)) = None
}.

Section Facts.
Context {X : Extern} {HX : ExternLaws X} {HO : HashOrder} {JL : JsonLine X} {HL : JsonLineLaws X JL}.

Lemma decision_roundtrip d : decision_of_wire (decision_wire d) = Some d.
Proof. by destruct d. Qed.
Lemma row_roundtrip r : row_of_json (row_to_json r) = Some r.
Proof.
  unfold row_of_json, row_to_json, row_fields. rewrite de_struct_object. cbn -[decision_of_wire].
  rewrite !as_str_str, !instant_roundtrip, enum_variant_str. cbn -[decision_of_wire]. rewrite decision_roundtrip. by destruct r.
Qed.

Definition tail_is (last : string) (tl : Tail) : Prop :=
  match tl with
  | Clean => last = ""
  | Whole r => row_text r last
  | Junk => exists ps, Forall beginning ps /\ last = glue ps /\
      ((2 <= length ps)%nat \/ length ps = 1%nat /\ exists r t, row_text r t /\ String.prefix last t = true /\ last <> t)
  end.
Definition file_is (text : string) (st : LedgerState) : Prop :=
  exists done last, text = joined done last /\ Forall (fun l => contains_char newline_char l = false) done /\
    omap (fun l => line_row (strip_cr l)) done = st.1 /\ tail_is last st.2.
Definition tail_row (tl : Tail) : option ApprovalLedgerRow := match tl with Whole r => Some r | _ => None end.
Lemma readable_eq st : readable st = st.1 ++ option_list (tail_row st.2).
Proof. unfold readable. by destruct st as [rows []]. Qed.

Lemma row_nonempty r t : row_text r t -> t <> "".
Proof. intros H. destruct (line_shape r t H) as [Ht _]. by intros ->. Qed.
Lemma beginning_free s : beginning s -> contains_char newline_char s = false /\ contains_char cr_char s = false.
Proof.
  intros [_ (r & t & Ht & Hp)]. destruct (line_shape r t Ht) as (_ & _ & Hn & Hc).
  split; by eapply free_prefix.
Qed.
Lemma tail_free last tl :
  tail_is last tl -> contains_char newline_char last = false /\ contains_char cr_char last = false.
Proof.
  destruct tl; cbn; [by intros ->| |].
  - intros H. destruct (line_shape _ _ H) as (_ & _ & Hn & Hc). by split.
  - intros (ps & Hps & -> & _).
    split; apply free_glue; (eapply Forall_impl; [exact Hps|]); intros s Hs; by destruct (beginning_free s Hs).
Qed.
Lemma tail_line last tl : tail_is last tl -> line_row last = tail_row tl.
Proof.
  unfold line_row. destruct tl; cbn -[String.eqb].
  - by intros ->.
  - intros H. destruct (line_shape _ _ H) as (Hne & Hv & _ & _). rewrite Hv, (line_read _ _ H).
    destruct (String.eqb_spec (trim last) ""); [done|]. apply row_roundtrip.
  - intros (ps & Hps & -> & Hc). destruct (valid_utf8 _); [|done]. destruct (String.eqb _ _); [done|].
    destruct Hc as [H|(_ & r & t & Ht & Hp & Hne)]; [by rewrite line_joined|by rewrite (line_cut r t)].
Qed.

Lemma file_empty : file_is "" ([], Clean).
Proof. by exists [], "". Qed.
Lemma file_reads text st : file_is text st -> rows_of_text text = readable st.
Proof.
  intros (done & last & -> & Hd & Hr & Hl). destruct (tail_free _ _ Hl) as [Hn _].
  unfold rows_of_text. rewrite lines_joined by done. rewrite omap_app, readable_eq. f_equal.
  - rewrite <- Hr. clear. induction done as [|l done IH]; [done|]. cbn. destruct (line_row _); cbn; by rewrite IH.
  - apply tail_line in Hl as <-. destruct (String.eqb_spec last "") as [->|]; [done|].
    cbn. by destruct (line_row last).
Qed.
Lemma file_ends text st : file_is text st -> file_is (text +:+ nl) (readable st, Clean).
Proof.
  intros (done & last & -> & Hd & Hr & Hl). destruct (tail_free _ _ Hl) as [Hn Hc].
  exists (done ++ [last]), "". rewrite joined_app, joined_end. split_and!; [done|by apply Forall_app_2; [|constructor]| |done].
  cbn [fst snd]. rewrite omap_app, Hr, readable_eq. f_equal. cbn. rewrite strip_cr_free by done.
  apply tail_line in Hl as ->. by destruct (tail_row _).
Qed.


(** The pieces of an unfinished line *)
Lemma tail_pieces last tl : tail_is last tl ->
  exists ps, Forall beginning ps /\ last = glue ps /\ (tl = Clean /\ ps = [] \/ tl <> Clean /\ 1 <= length ps)%nat.
Proof.
  destruct tl; cbn.
  - intros ->. exists []. split_and!; [done|done|by left].
  - intros H. exists [last]. split_and!; [|symmetry; apply str_append_nil_r|by right].
    constructor; [|done]. split; [by eapply row_nonempty|]. exists r, last. split; [done|].
    apply prefix_iff. exists "". by rewrite str_append_nil_r.
  - intros (ps & Hps & -> & H). exists ps. split_and!; [done|done|right].
    split; [done|]. by destruct H as [|[-> _]]; [lia|].
Qed.
(** A piece of a row's text after what is there *)
Lemma file_grows text st r t s :
  file_is text st -> row_text r t -> String.prefix s t = true -> s <> "" ->
  file_is (text +:+ s) (if String.eqb s t then unended st r else (st.1, Junk)).
Proof.
  intros (done & last & -> & Hd & Hr & Hl) Ht Hp Hs. destruct st as [rows tl]. cbn [fst snd] in *.
  exists done, (last +:+ s). rewrite joined_app. split_and!; [done|done|by destruct (String.eqb s t)|].
  assert (Hb : beginning s) by (split; [done|by exists r, t]).
  destruct (tail_pieces _ _ Hl) as (ps & Hps & -> & [[-> ->]|[Hne Hlen]]).
  - rewrite str_app_nil. destruct (String.eqb_spec s t) as [->|Hst]; cbn; [done|].
    exists [s]. split_and!; [by constructor|symmetry; apply str_append_nil_r|right]. split; [done|]. eauto.
  - assert (tail_is (glue ps +:+ s) Junk) as HJ.
    { exists (ps ++ [s]). split_and!; [by apply Forall_app_2; [|constructor]|by rewrite glue_snoc|left].
      rewrite length_app. cbn. lia. }
    destruct (String.eqb s t); [|done]. by destruct tl.
Qed.

(** *** The file *)

Variables (dir : path) (name : string).
Notation ledger := (dir ++ [name]).

Definition ledger_is (fs : Files) (st : LedgerState) : Prop :=
  match fs !! ledger with Some text => file_is text st | None => st = ([], Clean) end.
(** The directory exists or can be made, and the ledger's path is not one. *)
Definition room (fs : Files) (ds : Dirs) : Prop :=
  ledger ∉ ds /\ dir <> [] /\ forall q, q ∈ prefixes dir -> fs !! q = None.

Lemma ledger_text fs st : ledger_is fs st -> file_is (default "" (fs !! ledger)) st.
Proof. unfold ledger_is. destruct (fs !! ledger); [done|]. intros ->. apply file_empty. Qed.
Lemma ledger_insert fs text st : file_is text st -> ledger_is (<[ledger := text]> fs) st.
Proof. intros H. unfold ledger_is. by rewrite lookup_insert_eq. Qed.
Lemma prefixes_below q : q ∈ prefixes dir -> q <> ledger.
Proof. intros [r Hr]%prefixes_spec ->. apply (f_equal length) in Hr. rewrite !length_app in Hr. cbn in Hr. lia. Qed.
Lemma room_insert fs ds text : room fs ds -> room (<[ledger := text]> fs) ds.
Proof.
  intros (Hl & Hd & Hq). split_and!; [done|done|]. intros q Hin. rewrite lookup_insert_ne; [by apply Hq|].
  intros He. by apply (prefixes_below q Hin).
Qed.
Lemma room_dirs fs ds : room fs ds -> room fs (list_to_set (prefixes dir) ∪ ds).
Proof.
  intros (Hl & Hd & Hq). split_and!; [|done|done].
  rewrite elem_of_union, elem_of_list_to_set. intros [H|]; [by apply (prefixes_below _ H)|done].
Qed.
Lemma ledger_no_dir ds : ledger ∉ ds -> ledger ∉ (list_to_set (prefixes dir) ∪ ds : Dirs).
Proof. intros Hl. rewrite elem_of_union, elem_of_list_to_set. intros [H|]; [by apply (prefixes_below _ H)|done]. Qed.

(** What a write that fails leaves behind *)
Lemma torn_ledger r t s st fs ds fs' :
  row_text r t -> ledger_is fs st -> s = t \/ s = nl ->
  torn ledger (default "" (fs !! ledger)) s fs ds fs' ->
  (ledger_is fs' st \/ s = t /\ ledger_is fs' (st.1, Junk)) /\ (room fs ds -> room fs' ds).
Proof.
  intros Ht Hst Hs [->|(n & Hn & _ & ->)]; [split; [by left|done]|]. split; [|by apply room_insert].
  apply ledger_text in Hst as Hf.
  assert (Hsame : n = 0 -> ledger_is (<[ledger := default "" (fs !! ledger) +:+ String.substring 0 n s]> fs) st).
  { intros ->. apply ledger_insert. by destruct s; cbn; rewrite str_append_nil_r. }
  destruct n as [|n]; [left; by apply Hsame|]. destruct Hs as [->| ->]; [|cbn in Hn; lia]. right. split; [done|].
  apply ledger_insert.
  pose proof (file_grows _ _ r t (String.substring 0 (S n) t) Hf Ht (prefix_substring _ _)) as Hg.
  destruct (String.eqb_spec (String.substring 0 (S n) t) t) as [He|]; [|apply Hg; destruct t; [cbn in Hn; lia|done]].
  pose proof (substring_length (S n) t). rewrite He in *. lia.
Qed.

(** *** One append, call by call *)

(** What the calls of one append from the disk [d] came to, and the disk after
    them.  The directory is made, whatever comes of it; a row that serializes is
    written: the file is opened, the line put, then the newline, as far as no
    call fails.  A line that failed is [Cut] if a part of it is in the file. *)
Definition appended (r : ApprovalLedgerRow) (d : Disk) (x : Extent) (d' : Disk) : Prop :=
  exists d1, (dir = [] /\ d1 = d \/ dir <> [] /\ exists made, fs_create_dir_all dir d = (made, d1, [])) /\
    match to_line (row_to_json r) with
    | Err _ => x = NotWritten /\ d' = d1
    | Ok line => exists opened d2, fs_append ledger "" d1 = (opened, d2, []) /\
        match opened with
        | Err _ => x = NotWritten /\ d' = d2
        | Ok _ => exists written d3, fs_append ledger line d2 = (written, d3, []) /\
            match written with
            | Err _ => x = (if decide (files d3 !! ledger = files d2 !! ledger) then NotWritten else Cut) /\ d' = d3
            | Ok _ => exists ended, fs_append ledger nl d3 = (ended, d', []) /\
                x = match ended with Ok _ => Written | Err _ => Unended end
            end
        end
    end.

Lemma no_events (t : list Empty_set) : t = [].
Proof. by destruct t as [|[]]. Qed.

Lemma append_appended r d u d' t : append ledger r d = (u, d', t) -> exists x, appended r d x d'.
Proof.
  unfold append, appended. rewrite parent_snoc. intros H.
  apply ebind_inv in H as (made & d1 & t1 & t2 & H1 & H & _). rewrite (no_events t1) in H1.
  assert (Hd : dir = [] /\ d1 = d \/ dir <> [] /\ exists made, fs_create_dir_all dir d = (made, d1, [])).
  { case_bool_decide; [left; by apply eret_inv in H1 as (_ & -> & _)|right; eauto]. }
  destruct (to_line (row_to_json r)) as [line|e].
  2: { apply eret_inv in H as (_ & -> & _). by exists NotWritten, d1. }
  apply ebind_inv in H as (opened & d2 & t3 & t4 & H2 & H & _). rewrite (no_events t3) in H2.
  destruct opened as [[]|e].
  2: { apply eret_inv in H as (_ & -> & _). exists NotWritten, d1. split; [done|]. by eexists _, d2. }
  apply ebind_inv in H as (res & d3 & t5 & t6 & H3 & H & _). apply eret_inv in H as (_ & -> & _).
  apply try_bind_inv in H3 as [(e & H3 & ->)|([] & d4 & t7 & t8 & H3 & H4 & _)].
  - rewrite (no_events t5) in H3. eexists _, d1. split; [done|]. eexists _, d2. split; [done|].
    by eexists _, d3.
  - rewrite (no_events t7) in H3. rewrite (no_events t8) in H4. eexists _, d1. split; [done|].
    eexists _, d2. split; [done|]. eexists _, d4. split; [done|]. by exists res.
Qed.

(** What a call leaves. *)
Lemma append_call (faulty : bool) p text d res d' t :
  alone false faulty (ticks d) -> fs_append p text d = (res, d', t) ->
  alone false faulty (ticks d') /\ dirs d' = dirs d /\
  match res with
  | Ok _ => writable p (dirs d) = true /\ files d' = <[p := default "" (files d !! p) +:+ text]> (files d)
  | Err _ => (faulty = true \/ files d' = files d /\ writable p (dirs d) = false) /\
      torn p (default "" (files d !! p)) text (files d) (dirs d) (files d')
  end.
Proof.
  intros Hal E.
  eapply (wp_run _ _ _ (fun res fs' ds' => ds' = dirs d /\ match res with
    | Ok _ => writable p (dirs d) = true /\ fs' = <[p := default "" (files d !! p) +:+ text]> (files d)
    | Err _ => (faulty = true \/ fs' = files d /\ writable p (dirs d) = false) /\
        torn p (default "" (files d !! p)) text (files d) (dirs d) fs' end)) in E; [exact E| |done].
  wp_step; [by intros|by intros].
Qed.

Lemma make_dir_call (faulty : bool) d d1 :
  alone false faulty (ticks d) -> ledger ∉ dirs d ->
  (dir = [] /\ d1 = d \/ dir <> [] /\ exists made, fs_create_dir_all dir d = (made, d1, [])) ->
  alone false faulty (ticks d1) /\ files d1 = files d /\ ledger ∉ dirs d1 /\
  (room (files d) (dirs d) -> room (files d) (dirs d1)) /\
  (faulty = false -> room (files d) (dirs d) -> writable ledger (dirs d1) = true).
Proof.
  intros Hal Hl [[E ->]|(E & made & H)]; [split_and!; try done; by intros _ (_ & ? & _)|].
  eapply (wp_run _ _ _ (fun _ fs' ds' => fs' = files d /\ ledger ∉ ds' /\ (room (files d) (dirs d) -> room (files d) ds') /\
    (faulty = false -> room (files d) (dirs d) -> writable ledger ds' = true))) in H; [exact H| |done].
  wp_step.
  - intros e He. split_and!; [done..|]. intros Hf (_ & _ & Hq). destruct He as [|(q & Hin & Hs)]; [congruence|].
    rewrite (Hq q Hin) in Hs. by destruct Hs.
  - split_and!; [done|by apply ledger_no_dir|apply room_dirs|]. intros _ _. unfold writable.
    rewrite parent_snoc. apply andb_true_iff. rewrite !bool_decide_eq_true. split; [|by apply ledger_no_dir].
    rewrite elem_of_union, elem_of_list_to_set. left. apply prefixes_self.
Qed.

(** An append leaves a state the rows can be read of. *)
Lemma written_row (faulty : bool) r line st d2 written d3 ended d' x :
  alone false faulty (ticks d2) -> ledger_is (files d2) st -> is_Some (files d2 !! ledger) ->
  writable ledger (dirs d2) = true -> row_text r line -> fs_append ledger line d2 = (written, d3, []) ->
  match written with
  | Err _ => x = (if decide (files d3 !! ledger = files d2 !! ledger) then NotWritten else Cut) /\ d' = d3
  | Ok _ => fs_append ledger nl d3 = (ended, d', []) /\ x = match ended with Ok _ => Written | Err _ => Unended end
  end ->
  alone false faulty (ticks d') /\ ledger_is (files d') (step st r x) /\ dirs d' = dirs d2 /\
  (room (files d2) (dirs d2) -> room (files d') (dirs d2)) /\ (faulty = false -> x = Written).
Proof.
  intros Hal Hst [old Hold] Hw Ht H3 H4. apply ledger_text in Hst as Hf.
  apply append_call with (faulty := faulty) in H3 as (Hal3 & Hd3 & H3); [|done]. destruct written as [[]|e].
  - destruct H3 as [_ Hf3], H4 as [H4 ->].
    assert (Hself : String.prefix line line = true) by (apply prefix_iff; exists ""; by rewrite str_append_nil_r).
    pose proof (file_grows _ _ r line line Hf Ht Hself (row_nonempty _ _ Ht)) as Hg. rewrite String.eqb_refl in Hg.
    apply append_call with (faulty := faulty) in H4 as (Hal4 & Hd4 & H4); [|done]. rewrite Hd3 in *.
    split; [done|]. rewrite Hd4. destruct ended as [[]|e].
    + destruct H4 as [_ ->]. rewrite Hf3, lookup_insert_eq. cbn [default]. split_and!; try done.
      * apply ledger_insert, (file_ends _ _ Hg).
      * intros H. by do 2 apply room_insert.
    + destruct H4 as [Hbad Htorn]. rewrite Hf3 in Htorn.
      destruct (torn_ledger r line nl _ _ (dirs d2) _ Ht (ledger_insert _ _ _ Hg) (or_intror eq_refl) Htorn) as [[H|[He _]] Hroom].
      * split_and!; [done|done|intros; by apply Hroom, room_insert|]. intros ->. destruct Hbad as [|[_ ?]]; congruence.
      * destruct (line_shape _ _ Ht) as (_ & _ & Hn & _). by rewrite <- He in Hn.
  - destruct H3 as [Hbad Htorn], H4 as [-> ->]. rewrite Hd3. split; [done|].
    destruct (torn_ledger r line line st _ _ _ Ht Hst (or_introl eq_refl) Htorn) as [Hl Hroom].
    split_and!; [|done|exact Hroom|intros ->; destruct Hbad as [|[_ ?]]; congruence].
    rewrite Hold in Htorn. destruct (decide _) as [Heq|Hne]; cbn [step].
    + unfold ledger_is in *. by rewrite Heq.
    + destruct Htorn as [Hsame|(n & Hn & _ & Hfiles)]; [by rewrite Hsame in Hne|].
      destruct n as [|n].
      { destruct Hne. rewrite Hfiles, lookup_insert_eq, Hold. cbn. destruct line; cbn; by rewrite str_append_nil_r. }
      destruct Hl as [Hl|[_ Hl]]; [|done]. rewrite Hfiles. apply ledger_insert. unfold ledger_is in Hst. rewrite Hold in Hst.
      pose proof (file_grows _ _ r line (String.substring 0 (S n) line) Hst Ht (prefix_substring _ _)) as Hg.
      destruct (String.eqb_spec (String.substring 0 (S n) line) line) as [He|]; [|apply Hg; destruct line; [cbn in Hn; lia|done]].
      pose proof (substring_length (S n) line). rewrite He in *. lia.
Qed.

Lemma appended_step (faulty : bool) r st d x d' :
  alone false faulty (ticks d) -> ledger_is (files d) st -> ledger ∉ dirs d -> appended r d x d' ->
  alone false faulty (ticks d') /\ ledger_is (files d') (step st r x) /\ ledger ∉ dirs d' /\
  (room (files d) (dirs d) -> room (files d') (dirs d')) /\
  (faulty = false -> room (files d) (dirs d) -> (exists t, row_text r t) -> x = Written).
Proof.
  intros Hal Hst Hl (d1 & Hd & H).
  destruct (make_dir_call faulty d d1 Hal Hl Hd) as (Hal1 & Hf1 & Hl1 & Hroom & Hwr). rewrite <- Hf1 in Hst.
  destruct (to_line (row_to_json r)) as [line|e] eqn:Ht.
  2: { destruct H as [-> ->]. split_and!; [done|done|done|by rewrite Hf1|]. intros _ _ (t & Ht').
       unfold row_text in Ht'. congruence. }
  destruct H as (opened & d2 & H2 & H). apply append_call with (faulty := faulty) in H2 as (Hal2 & Hd2 & H2); [|done].
  destruct opened as [[]|e].
  2: { destruct H as [-> ->], H2 as [Hbad Htorn]. rewrite Hd2.
       destruct Htorn as [Hsame|(n & Hn & _)]; [|cbn in Hn; lia]. rewrite Hsame. split_and!; [done|done|done|by rewrite Hf1|].
       intros Hf Hr _. destruct Hbad as [|[_ ?]]; [congruence|]. specialize (Hwr Hf Hr). congruence. }
  destruct H2 as [Hw Hf2], H as (written & d3 & H3 & H).
  assert (Hst2 : ledger_is (files d2) st) by (rewrite Hf2; apply ledger_insert; rewrite str_append_nil_r; by apply ledger_text).
  assert (Hx : exists ended, match written with
    | Err _ => x = (if decide (files d3 !! ledger = files d2 !! ledger) then NotWritten else Cut) /\ d' = d3
    | Ok _ => fs_append ledger nl d3 = (ended, d', []) /\ x = match ended with Ok _ => Written | Err _ => Unended end
    end) by (destruct written as [?|e]; [exact H|by exists (Ok tt)]).
  destruct Hx as [ended Hx]. rewrite <- Hd2 in Hw, Hl1, Hroom.
  destruct (written_row faulty r line st d2 written d3 ended d' x Hal2 Hst2) as (Hal' & Hst' & Hd' & Hrm & Hwrit); try done.
  { rewrite Hf2, lookup_insert_eq. by eexists. }
  rewrite Hd'. split_and!; [done|done|done| |auto]. intros Hr. apply Hrm. rewrite Hf2. apply room_insert. rewrite Hf1. by apply Hroom.
Qed.

(** One append after the other, each from the disk the one before left. *)
Fixpoint appends (rs : list ApprovalLedgerRow) (d : Disk) (xs : list Extent) (d' : Disk) : Prop :=
  match rs, xs with
  | [], [] => d' = d
  | r :: rs, x :: xs => exists d1, appended r d x d1 /\ appends rs d1 xs d'
  | _, _ => False
  end.

Lemma appends_spec (faulty : bool) rs st d xs d' :
  alone false faulty (ticks d) -> ledger_is (files d) st -> ledger ∉ dirs d -> appends rs d xs d' ->
  length xs = length rs /\ alone false faulty (ticks d') /\ ledger_is (files d') (replay st rs xs) /\ ledger ∉ dirs d' /\
  (faulty = false -> room (files d) (dirs d) -> Forall (fun r => exists t, row_text r t) rs ->
     xs = replicate (length rs) Written).
Proof.
  revert st d xs. induction rs as [|r rs IH]; intros st d [|x xs] Hal Hst Hl H; try done; [by rewrite H|].
  destruct H as (d1 & H1 & H). destruct (appended_step faulty r st d x d1 Hal Hst Hl H1) as (Hal1 & Hst1 & Hl1 & Hroom & Hx).
  destruct (IH _ _ _ Hal1 Hst1 Hl1 H) as (Hlen & Hal' & Hst' & Hl' & Hxs).
  split_and!; [cbn; by rewrite Hlen|done..|]. intros Hf Hr [Ht Hts]%Forall_cons. cbn. by rewrite Hx, Hxs by auto.
Qed.

Lemma wp_read_all (faulty : bool) fuel st fs ds (Q : option (list ApprovalLedgerRow) -> Files -> Dirs -> Prop) :
  ledger_is fs st -> ledger ∉ ds -> Q (Some (readable st)) fs ds ->
  wp false faulty (read_all ledger (S fuel)) Q fs ds.
Proof.
  intros Hst Hdir HQ. unfold read_all. wp_step. unfold fs_open. apply wp_reading. intros o ts [| ->]; [done|]. cbn [files dirs].
  unfold ledger_is in Hst. rewrite (bool_decide_eq_false_2 _ Hdir), orb_false_r.
  case_bool_decide as Hs.
  - destruct (fs !! ledger) as [text|] eqn:E; [|by destruct Hs]. cbn [read_lines]. do 2 wp_step.
    + intros e [|He]; [done|congruence].
    + intros text' Ht. wp_step. assert (text' = text) as -> by congruence. by rewrite (file_reads _ _ Hst).
  - destruct (fs !! ledger) eqn:E; [by destruct Hs|]. subst st. by wp_step.
Qed.

(** *** Decisions *)

Definition record_all (asks : list Ask) : FS (list RecordDecisionOutcome) :=
  efold (fun outs a => o <~ record_decision ledger a ;; eret (outs ++ [o])) asks [].

Definition authorized (a : Ask) : Prop :=
  delivered_digest a = presented_digest a /\ requested_decision a = Approved.
(** The row a call is to leave. *)
Definition asked_row (a : Ask) : ApprovalLedgerRow :=
  mkApprovalLedgerRow (ask_item a) (delivered_digest a)
    (if decide (delivered_digest a = presented_digest a) then requested_decision a else Requeued)
    (ask_who a) (ask_delivered_at a) (ask_decided_at a) (ask_diff a).
Definition answered (a : Ask) (o : RecordDecisionOutcome) : Prop :=
  out_row o = asked_row a /\ (should_execute o = true <-> authorized a).
Definition serializes (a : Ask) : Prop := exists t, row_text (asked_row a) t.

Lemma decided_asked a : decided_row a = asked_row a.
Proof.
  unfold decided_row, enforced_decision, asked_row. f_equal.
  destruct (String.eqb_spec (delivered_digest a) (presented_digest a)); by case_decide.
Qed.
Lemma approved_authorized a : decision (asked_row a) = Approved <-> authorized a.
Proof. unfold authorized. cbn. case_decide; naive_solver. Qed.

Lemma record_decision_run a d o d' t :
  record_decision ledger a d = (o, d', t) -> answered a o /\ exists x, appended (asked_row a) d x d'.
Proof.
  unfold record_decision. intros H. apply ebind_inv in H as (u & d1 & t1 & t2 & H1 & H & _).
  apply eret_inv in H as (-> & -> & _). apply append_appended in H1. rewrite decided_asked in H1.
  split; [|done]. split; [apply decided_asked|]. cbn. rewrite andb_true_iff, bool_decide_eq_true. unfold enforced_decision, authorized.
  destruct (String.eqb_spec (delivered_digest a) (presented_digest a)); naive_solver.
Qed.

Lemma record_all_run asks d outs d' t :
  record_all asks d = (outs, d', t) ->
  Forall2 answered asks outs /\ exists xs, appends (map asked_row asks) d xs d'.
Proof.
  unfold record_all. intros E.
  assert (Hgo : forall outs0 outs d d' t,
    efold (fun outs a => o <~ record_decision ledger a ;; eret (outs ++ [o])) asks outs0 d = (outs, d', t) ->
    exists new, outs = outs0 ++ new /\ Forall2 answered asks new /\ exists xs, appends (map asked_row asks) d xs d').
  { clear. induction asks as [|a asks IH]; intros outs0 outs d d' t E; cbn [efold] in E.
    { apply eret_inv in E as (-> & -> & _). exists []. rewrite app_nil_r. split_and!; [done|constructor|by exists []]. }
    apply ebind_inv in E as (outs1 & d1 & t1 & t2 & E1 & E & _).
    apply ebind_inv in E1 as (o & d2 & t3 & t4 & E1 & E2 & _). apply eret_inv in E2 as (-> & -> & _).
    apply record_decision_run in E1 as [Ho (x & Hx)]. destruct (IH _ _ _ _ _ E) as (new & -> & Hnew & xs & Hxs).
    exists (o :: new). rewrite <- app_assoc. split_and!; [done|by constructor|]. exists (x :: xs). cbn. eauto. }
  destruct (Hgo _ _ _ _ _ E) as (new & -> & H). exact H.
Qed.

(** What was asked of a ledger that held [st0], what was answered, and the rows
    read afterwards; [xs] is how far each append got. *)
Record ledger_told (st0 : LedgerState) (asks : list Ask) (outs : list RecordDecisionOutcome)
    (rows : list ApprovalLedgerRow) (xs : list Extent) : Prop := {
  lt_answers : Forall2 answered asks outs;
  lt_rows : rows = readable (replay st0 (map asked_row asks) xs);
  lt_finished : st0.1 `prefix_of` rows;
  lt_order : rows `sublist_of` readable st0 ++ map asked_row asks;
  lt_approved : forall row, row ∈ rows -> decision row = Approved ->
    row ∈ readable st0 \/ exists a, a ∈ asks /\ row = asked_row a /\ authorized a;
  lt_lost : (length asks + length (readable st0) <= length rows + 2 * failures xs + debt st0)%nat
}.

Lemma told (st0 : LedgerState) asks outs xs :
  length xs = length (map asked_row asks) -> Forall2 answered asks outs ->
  ledger_told st0 asks outs (readable (replay st0 (map asked_row asks) xs)) xs.
Proof.
  intros Hl Ha. symmetry in Hl. pose proof (replay_sublist _ _ st0 Hl) as Hs. split; [done|done| |done| |].
  - etrans; [apply replay_keeps|]. apply prefix_app_r. done.
  - intros row Hin Hd. eapply sublist_subseteq in Hin; [|exact Hs].
    apply elem_of_app in Hin as [|Hin]; [by left|right]. apply list_elem_of_In, in_map_iff in Hin as (a & <- & Hin).
    exists a. split_and!; [by apply list_elem_of_In|done|by apply approved_authorized].
  - pose proof (replay_count _ _ st0 Hl) as Hc. by rewrite length_map in Hc.
Qed.

Definition recorded_and_read (fuel : nat) (asks : list Ask)
    : FS (list RecordDecisionOutcome * option (list ApprovalLedgerRow)) :=
  outs <~ record_all asks ;; rows <~ read_all ledger fuel ;; eret (outs, rows).

(** C33: The approval ledger.  Whatever decisions are recorded, and whichever
    directory, open or write calls fail or tear: each call answers with the
    decision it was given, or with a re-queue when the digests differ, and lets it
    be executed just when the digests agree and the request was to approve; and
    each, whatever came of those before, makes its own attempt at an append, from
    the disk they left.  A later reader gets the rows in the order they were
    recorded, with every row it could read from a finished line before; an approved
    row among them is one whose digests agreed.  An append one of whose calls
    failed costs two rows at most, its own and a neighbour's, and when nothing
    fails every decision is there, once. *)
Theorem ledger_history (faulty : bool) fuel asks st0 d outs answer d' t :
  alone false faulty (ticks d) -> ledger_is (files d) st0 -> ledger ∉ dirs d ->
  recorded_and_read (S fuel) asks d = ((outs, answer), d', t) ->
  exists rows xs d1, answer = Some rows /\
    appends (map asked_row asks) d xs d1 /\ read_all ledger (S fuel) d1 = (Some rows, d', []) /\
    ledger_told st0 asks outs rows xs /\
    (faulty = false -> room (files d) (dirs d) -> Forall serializes asks ->
       failures xs = 0%nat /\ (st0.2 = Clean -> rows = st0.1 ++ map asked_row asks)).
Proof.
  intros Hal Hst Hdir E. unfold recorded_and_read in E. apply ebind_inv in E as (outs' & d1 & t1 & t2 & E1 & E & _).
  apply ebind_inv in E as (rows & d2 & t3 & t4 & E2 & E & _). apply eret_inv in E as ([= -> ->] & -> & _).
  apply record_all_run in E1 as (Ha & xs & Hxs).
  destruct (appends_spec faulty _ st0 d xs d1 Hal Hst Hdir Hxs) as (Hlen & Hal1 & Hst1 & Hdir1 & Hgood).
  pose proof (wp_run _ _ _ (fun r _ _ => r = Some (readable (replay st0 (map asked_row asks) xs))) _ _ _ _
    (wp_read_all faulty fuel _ _ _ _ Hst1 Hdir1 eq_refl) Hal1 E2) as [_ ->].
  rewrite (no_events t3) in E2. eexists _, xs, d1. split_and!; [done|done|done|by apply told|].
  intros Hf Hroom Hser. rewrite (Hgood Hf Hroom) by (apply Forall_fmap; exact Hser). split.
  - clear. induction asks; [done|]. exact IHasks.
  - destruct st0 as [rows0 tl]. cbn. intros ->. rewrite replay_written. unfold readable. by rewrite app_nil_r.
Qed.

(** *** Reading ends *)

(** The loop over the lines outlives passing errors: with more fuel than calls
    that can fail, it returns what the file holds. *)
Theorem read_lines_ends fuel fs ds ts text :
  fs !! ledger = Some text -> Forall (fun t => forall m, meanwhile t m = m) ts -> (length ts < fuel)%nat ->
  exists ts', read_lines ledger fuel (mkDisk fs ds ts) = (Some (rows_of_text text), mkDisk fs ds ts', []).
Proof.
  intros Ht. revert fuel. induction ts as [|t ts IH]; intros [|fuel] Hq Hf; cbn in Hf; try lia.
  { exists []. cbn. unfold ebind, fs_read, reading, call, esilent. cbn. by rewrite Ht. }
  apply Forall_cons in Hq as [Hm Hq]. cbn [read_lines]. unfold ebind, fs_read, reading, call, esilent. cbn.
  rewrite Hm. destruct (read_fault t) as [e|]; [|rewrite Ht; by exists ts].
  destruct (IH fuel Hq ltac:(lia)) as [ts' E]. exists ts'. by rewrite E.
Qed.
(** A directory at the ledger's path opens and then fails every read: the loop
    over its lines never returns. *)
Theorem directory_never_read fuel fs ds :
  fs !! ledger = None -> ledger ∈ ds -> (read_all ledger fuel (mkDisk fs ds [])).1.1 = None.
Proof.
  intros Ht Hd. unfold read_all, ebind, fs_open, reading, call, esilent. cbn.
  rewrite Ht, (bool_decide_eq_true_2 _ Hd), orb_true_r.
  induction fuel as [|fuel IH]; [done|]. cbn [read_lines].
  unfold ebind, fs_read, reading, call, esilent. cbn. rewrite Ht. revert IH. cbn.
  by destruct (read_lines _ _ _) as [[r d] t].
Qed.
End Facts.

(** ** The queries *)

Lemma sorted_split (l : list Z) k m :
  StronglySorted (cmp_le Z.compare) l -> l !! k = Some m ->
  exists l1 l2, l = l1 ++ m :: l2 /\ length l1 = k /\ Forall (fun d => d <= m)%Z l1 /\ Forall (fun d => m <= d)%Z l2.
Proof.
  revert k. induction l as [|x l IH]; intros [|k] Hs Hk; try done; apply StronglySorted_inv in Hs as [Hs Hx].
  - injection Hk as ->. exists [], l. split_and!; [done|done|done|].
    eapply Forall_impl; [exact Hx|]. intros d Hd. unfold cmp_le in Hd. by apply Z.compare_le_iff.
  - destruct (IH k Hs Hk) as (l1 & l2 & -> & Hl & H1 & H2). exists (x :: l1), l2.
    split_and!; [done|cbn; by rewrite Hl| |done]. constructor; [|done].
    rewrite Forall_forall in Hx. apply Z.compare_le_iff. apply Hx. rewrite elem_of_app, elem_of_cons. auto.
Qed.
Lemma filter_none {A} (P : A -> Prop) `{!forall x, Decision (P x)} l : Forall (fun x => ~ P x) l -> filter P l = [].
Proof. induction 1 as [|x l Hx _ IH]; [done|]. by rewrite filter_cons_False. Qed.

Definition durations (rows : list ApprovalLedgerRow) : list Z :=
  map time_to_approval (filter (fun row => decision row <> Requeued) rows).

(** The statistics speak of the decisions that are no re-queues: the maximum is
    reached and never passed, and the median is the upper one: at most half of the
    times are below it and fewer than half above. *)
Theorem stats_spec rows :
  let s := time_to_approval_stats rows in
  let l := durations rows in
  count s = length l /\
  (l = [] -> median s = None /\ max s = None) /\
  (l <> [] -> exists m x, median s = Some m /\ max s = Some x /\ m ∈ l /\ x ∈ l /\ Forall (fun d => d <= x)%Z l /\
     (2 * length (filter (fun d => d < m)%Z l) <= length l)%nat /\
     (2 * length (filter (fun d => m < d)%Z l) < length l)%nat).
Proof.
  cbn zeta. unfold time_to_approval_stats. fold (durations rows). set (l := durations rows).
  pose proof (sort_by_perm Z.compare l) as Hp. pose proof (sort_by_sorted Z.compare l) as Hs.
  destruct (sort_by Z.compare l) as [|d l'] eqn:E.
  { apply sort_by_nil in E. rewrite E. by split_and!. }
  set (sorted := d :: l') in *. cbn [count median max].
  assert (Hlen : length sorted = length l) by (by rewrite Hp). split; [done|]. split.
  { intros El. rewrite El in Hp. apply Permutation_nil_r in Hp. done. }
  intros _. assert (Hk : (length sorted / 2 < length sorted)%nat) by (apply Nat.div_lt; cbn; lia).
  destruct (lookup_lt_is_Some_2 sorted _ Hk) as [m Hm].
  destruct (last sorted) as [x|] eqn:Hx; [|by apply last_None in Hx].
  rewrite last_lookup in Hx.
  destruct (sorted_split _ _ _ Hs Hm) as (l1 & l2 & El & Hl1 & Hle & Hge).
  destruct (sorted_split _ _ _ Hs Hx) as (l3 & l4 & El' & Hl3 & Hle' & _).
  assert (l4 = []) as ->.
  { apply (f_equal length) in El'. rewrite length_app in El'. cbn [length] in El'.
    destruct l4; [done|]. cbn in El', Hl3. lia. }
  exists m, x. split_and!; [done|done| | | | |].
  - rewrite <- Hp, El, elem_of_app, elem_of_cons. auto.
  - rewrite <- Hp, El', elem_of_app, elem_of_cons. auto.
  - rewrite <- Hp, El'. apply Forall_app_2; [done|]. by repeat constructor.
  - rewrite <- Hp, El, filter_app, length_app. rewrite filter_cons_False by lia.
    rewrite (filter_none _ l2) by (eapply Forall_impl; [exact Hge|]; cbn; lia).
    pose proof (length_filter (fun d => d < m)%Z l1). cbn [length].
    pose proof (Nat.div_mod_eq (length sorted) 2). rewrite <- El. lia.
  - rewrite <- Hp, El, filter_app, length_app. rewrite filter_cons_False by lia.
    rewrite (filter_none _ l1) by (eapply Forall_impl; [exact Hle|]; cbn; lia).
    pose proof (length_filter (fun d => m < d)%Z l2). cbn [length]. rewrite <- El.
    pose proof (Nat.div_mod_eq (length sorted) 2). pose proof (Nat.mod_upper_bound (length sorted) 2).
    apply (f_equal length) in El. rewrite length_app in El. cbn [length] in El. lia.
Qed.

(** Every row is counted on its day, re-queues included. *)
Theorem per_day_spec {CD : ChronoDate} rows d :
  decisions_per_day rows !! d =
    match filter (fun row => date_naive (decided_at row) = d) rows with
    | [] => None
    | on_day => Some (length on_day)
    end.
Proof.
  unfold decisions_per_day. induction rows as [|row rows IH] using rev_ind; [apply lookup_empty|].
  rewrite foldl_app, filter_app. cbn [foldl]. set (m := foldl _ _ rows) in *.
  destruct (decide (date_naive (decided_at row) = d)) as [<-|Hne].
  - rewrite lookup_insert_eq, IH, filter_cons_True by done. cbn. destruct (filter _ rows); cbn; [done|].
    rewrite length_app. cbn. f_equal. lia.
  - rewrite lookup_insert_ne, IH, filter_cons_False, filter_nil, app_nil_r by done. done.
Qed.

(** ** The routes *)

Lemma pages_cover (limit n : nat) (rows : list ApprovalLedgerRow) :
  mjoin (map (fun i => page limit (i * limit) rows) (seq 0 n)) = take (n * limit) rows.
Proof.
  induction n as [|n IH]; [done|]. rewrite seq_S, map_app, join_app, IH. cbn. unfold page. rewrite app_nil_r.
  by rewrite Nat.add_comm, take_take_drop.
Qed.

Section RouteFacts.
Context {X : Extern} {HX : ExternLaws X} {HO : HashOrder} {JL : JsonLine X} {HL : JsonLineLaws X JL} {CD : ChronoDate}.
Variables (dir : path) (name : string) (api_key : string).

Definition shown (query : ListLedgerQuery) (rows : list ApprovalLedgerRow) : list ApprovalLedgerRow :=
  rev (match q_item_id query with Some item => filter (fun row => item_id row = item) rows | None => rows end).

(** A listing is a page of the rows of the ledger that match, newest first, with
    their number; without the key it is refused before the ledger is looked at. *)
Theorem list_ledger_spec (faulty : bool) header fuel query st fs ds :
  ledger_is dir name fs st -> dir ++ [name] ∉ ds ->
  wp false faulty (list_ledger header api_key (Some (dir ++ [name])) true (S fuel) query)
    (fun r fs' ds' => fs' = fs /\ ds' = ds /\
       r = Some (if bool_decide (header = Some api_key) then
                   let rows := shown query (readable st) in
                   let limit := Nat.min (default 100 (q_limit query)) 1000 in
                   let offset := default 0 (q_offset query) in
                   LedgerRows (page limit offset rows) (length rows) limit offset
                 else Unauthorized)) fs ds.
Proof.
  intros Hst Hdir. unfold list_ledger, check_api_key. destruct header as [value|]; [|by apply wp_ret].
  destruct (String.eqb_spec value api_key) as [->|Hne].
  2:{ rewrite bool_decide_eq_false_2 by congruence. by apply wp_ret. }
  rewrite bool_decide_eq_true_2 by done. cbn [negb]. wp_step. unfold shown. destruct (q_item_id query) as [item|].
  - unfold rows_for. wp_step. eapply wp_read_all; [done..|]. by do 2 wp_step.
  - eapply wp_read_all; [done..|]. by wp_step.
Qed.
End RouteFacts.
