(* ===== verification/ApprovalExamples.v ===== *)
(** * The approval ledger, computed

    A text format the ledger can be run with, witnesses, and two runs that lose
    decisions.  A row is printed between braces, each field closed by a semicolon,
    an instant marked with an at sign; a text that holds anything but other visible
    ASCII characters does not serialize. *)

From Stdlib Require Import NArith Ascii.
From stdpp Require Import gmap list pretty.
From S2P Require Import Prelude Json Utf8 Text Effect Disk ApprovalLedger.
Import JsonModel.

Local Open Scope string_scope.
Local Open Scope list_scope.
#[local] Existing Instance extern.

(** ** Visible text *)

Definition visible (c : ascii) : bool := (33 <=? byte c)%N && (byte c <=? 126)%N.
Fixpoint all_visible (s : string) : bool :=
  match s with EmptyString => true | String c s => visible c && all_visible s end.

Lemma all_visible_app s t : all_visible (s +:+ t) = all_visible s && all_visible t.
Proof. induction s as [|c s IH]; [done|]. rewrite str_app_cons. cbn. by rewrite IH, andb_assoc. Qed.
Lemma all_visible_prefix s t : String.prefix s t = true -> all_visible t = true -> all_visible s = true.
Proof. intros [u ->]%prefix_iff. rewrite all_visible_app. by intros [? _]%andb_true_iff. Qed.
Lemma visible_bounds c : visible c = true -> (33 <= byte c <= 126)%N.
Proof. unfold visible. rewrite andb_true_iff, !N.leb_le. done. Qed.
Lemma visible_lone c : visible c = true -> all_whitespace (String c "") = false /\ is_cont c = false.
Proof.
  intros Hb%visible_bounds. unfold is_cont. cbn. split.
  - replace (((9 <=? byte c) && (byte c <=? 13) || (byte c =? 32))%N) with false; [done|].
    symmetry. rewrite orb_false_iff, andb_false_iff, !N.leb_gt, N.eqb_neq. lia.
  - rewrite andb_false_iff, N.leb_gt, N.ltb_ge. lia.
Qed.
Fixpoint lone (s : string) : list string :=
  match s with EmptyString => [] | String c s => String c "" :: lone s end.
Lemma chars_visible s : all_visible s = true -> chars s = lone s.
Proof.
  induction s as [|c s IH]; [done|]. cbn [all_visible]. intros [Hc Hs]%andb_true_iff. cbn. rewrite IH by done.
  destruct s as [|d s]; [done|]. cbn in Hs. apply andb_true_iff in Hs as [Hd _]. cbn.
  by rewrite (proj2 (visible_lone d Hd)).
Qed.
Lemma drop_while_none {A} (p : A -> bool) l : Forall (fun x => p x = false) l -> drop_while p l = l.
Proof. destruct 1 as [|x l H _]; cbn; [done|by rewrite H]. Qed.
Lemma lone_solid s : all_visible s = true -> Forall (fun w => all_whitespace w = false) (lone s).
Proof.
  induction s as [|c s IH]; [by constructor|]. cbn [all_visible]. intros [Hc Hs]%andb_true_iff.
  constructor; [by apply visible_lone|by apply IH].
Qed.
Lemma concat_lone s : String.concat "" (lone s) = s.
Proof.
  induction s as [|c s IH]; [done|]. cbn [lone].
  destruct (lone s) as [|w ws] eqn:E; [by destruct s|].
  change (String c (String.concat "" (w :: ws)) = String c s). by rewrite IH.
Qed.
Lemma trim_visible s : all_visible s = true -> trim s = s.
Proof.
  intros Hs. unfold trim, trim_start, trim_end. rewrite (chars_visible s Hs).
  rewrite (drop_while_none _ (lone s)) by (by apply lone_solid). rewrite concat_lone, (chars_visible s Hs).
  rewrite drop_while_none by (by apply Forall_rev, lone_solid). by rewrite rev_involutive, concat_lone.
Qed.
Lemma visible_free c s : visible c = false -> all_visible s = true -> contains_char c s = false.
Proof.
  intros Hc. induction s as [|d s IH]; [done|]. cbn. intros [Hd Hs]%andb_true_iff. rewrite IH by done.
  destruct (Ascii.eqb_spec c d) as [->|]; [congruence|done].
Qed.
Lemma visible_valid s : all_visible s = true -> valid_utf8 s = true.
Proof.
  induction s as [|c s IH]; [done|]. cbn -[N.ltb N.leb]. intros [Hc%visible_bounds Hs]%andb_true_iff.
  rewrite (proj2 (N.ltb_lt (byte c) 128)) by lia. by apply IH.
Qed.

(** ** The format *)

Definition reserved : list ascii := ["{"; "}"; "="; ";"; "@"]%char.
Definition plain (s : string) : bool := all_visible s && forallb (fun c => negb (contains_char c s)) reserved.
Definition scalar_text (x : jval) : option string :=
  match x with
  | JStr s => if plain s then Some s else None
  | JTime t => if plain (pretty t) && bool_decide (parse_u64 (pretty t) = Some t)
               then Some (String "@" (pretty t)) else None
  | _ => None
  end.
Definition scalar_of (s : string) : option jval :=
  match s with
  | String "@" d => JTime <$> parse_u64 d
  | _ => Some (JStr s)
  end.
Fixpoint fields_text (kvs : list (string * jval)) : option string :=
  match kvs with
  | [] => Some ""
  | (k, x) :: kvs =>
      s ← scalar_text x; t ← fields_text kvs;
      if plain k then Some (k +:+ String "=" (s +:+ String ";" t)) else None
  end.
Definition print (v : jval) : result string string :=
  match v with
  | JObj kvs => match fields_text kvs with Some t => Ok (String "{" (t +:+ "}")) | None => Err "unsupported" end
  | _ => Err "unsupported"
  end.
Fixpoint read_fields (ws : list string) : option (list (string * jval)) :=
  match ws with
  | [] => None
  | [w] => if String.eqb w "" then Some [] else None
  | w :: ws => '(k, s) ← split_once "=" w; x ← scalar_of s; kvs ← read_fields ws; Some ((k, x) :: kvs)
  end.
Definition scan (t : string) : option jval :=
  match t with
  | String "{" t =>
      if contains_char "{" t then None
      else match split_once "}" t with
           | Some (body, "") => JObj <$> read_fields (split_at ";" body)
           | _ => None
           end
  | _ => None
  end.
#[local] Instance json_line : JsonLine extern := {| to_line := print; from_line := scan |}.

Lemma plain_free s c : plain s = true -> c ∈ reserved -> contains_char c s = false.
Proof.
  intros [_ H]%andb_true_iff Hc. rewrite forallb_forall in H.
  by apply negb_true_iff, H, list_elem_of_In.
Qed.
Lemma scalar_facts x s : scalar_text x = Some s ->
  all_visible s = true /\ scalar_of s = Some x /\
  Forall (fun c => contains_char c s = false) ["{"; "}"; ";"]%char.
Proof.
  assert (Hin : forall c, c ∈ ["{"; "}"; ";"]%char -> c ∈ reserved).
  { intros c. unfold reserved. rewrite !elem_of_cons. tauto. }
  destruct x; try discriminate; cbn.
  - destruct (plain s0) eqn:Hp; [|done]. intros [= <-]. split_and!.
    + by apply andb_true_iff in Hp as [? _].
    + destruct s0 as [|c s]; [done|]. pose proof (plain_free _ "@"%char Hp) as Hat.
      cbn [contains_char] in Hat. unfold scalar_of.
      destruct (Ascii.ascii_dec c "@"%char) as [->|Hne].
      { exfalso. assert (true = false); [|done]. apply Hat. unfold reserved. rewrite !elem_of_cons. tauto. }
      destruct c as [[] [] [] [] [] [] [] []]; done.
    + apply Forall_forall. intros c Hc. by apply plain_free, Hin.
  - destruct (plain (pretty t)) eqn:Hp; [|done]. case_bool_decide as Ht; [|done]. intros [= <-]. split_and!.
    + cbn. by apply andb_true_iff in Hp as [-> _].
    + cbn. by rewrite Ht.
    + apply Forall_forall. intros c Hc. cbn. rewrite (plain_free _ c Hp) by (by apply Hin).
      rewrite !elem_of_cons in Hc. destruct Hc as [->|[->|[->|[]%elem_of_nil]]]; done.
Qed.
Lemma fields_facts kvs t : fields_text kvs = Some t ->
  all_visible t = true /\ contains_char "{" t = false /\ contains_char "}" t = false /\
  read_fields (split_at ";" t) = Some kvs.
Proof.
  revert t. induction kvs as [|[k x] kvs IH]; intros t; cbn [fields_text]; [by intros [= <-]|].
  destruct (scalar_text x) as [s|] eqn:Hs; [|done]. destruct (fields_text kvs) as [u|]; [|done]. cbn [mbind option_bind].
  destruct (plain k) eqn:Hk; [|done]. intros [= <-]. destruct (IH u eq_refl) as (Hv & Ho & Hc & Hr).
  destruct (scalar_facts _ _ Hs) as (Hvs & Hrs & Hfree). rewrite !Forall_cons in Hfree.
  destruct Hfree as (Hso & Hsc & Hss & _).
  assert (Hkf : forall c, c ∈ reserved -> contains_char c k = false) by (intros c; by apply plain_free).
  assert (Hkv : all_visible k = true) by (by apply andb_true_iff in Hk as [? _]).
  assert (Hkr : contains_char "{" k = false /\ contains_char "}" k = false /\ contains_char "=" k = false /\ contains_char ";" k = false).
  { split_and!; apply Hkf; unfold reserved; rewrite !elem_of_cons; tauto. }
  destruct Hkr as (Hk1 & Hk2 & Hk3 & Hk4).
  rewrite !all_visible_app. cbn [all_visible]. rewrite !all_visible_app. cbn [all_visible].
  rewrite Hkv, Hvs, Hv. split; [done|].
  split; [by rewrite contains_app; cbn [contains_char]; rewrite contains_app; cbn [contains_char]; rewrite Hk1, Hso, Ho|].
  split; [by rewrite contains_app; cbn [contains_char]; rewrite contains_app; cbn [contains_char]; rewrite Hk2, Hsc, Hc|].
  change (k +:+ String "=" (s +:+ String ";" u)) with (k +:+ (String "=" s +:+ String ";" u)).
  rewrite <- str_append_assoc, split_at_free by (rewrite contains_app, Hk4; cbn [contains_char]; by rewrite Hss).
  destruct (split_at ";" u) as [|w ws] eqn:Ew; [done|].
  change (read_fields ((k +:+ String "=" s) :: w :: ws)) with
    ('(k, s) ← split_once "=" (k +:+ String "=" s); x ← scalar_of s; kvs ← read_fields (w :: ws); Some ((k, x) :: kvs)).
  rewrite split_once_free by done. cbn [mbind option_bind]. rewrite Hrs.
  revert Hr. generalize (read_fields (w :: ws)). by intros ? ->.
Qed.

Lemma print_shape v t : print v = Ok t ->
  exists kvs u, v = JObj kvs /\ t = String "{" (u +:+ "}") /\ fields_text kvs = Some u /\ all_visible t = true.
Proof.
  destruct v; try discriminate. cbn [print]. destruct (fields_text kvs) as [u|] eqn:Hu; [|done]. intros [= <-].
  exists kvs, u. split_and!; [done|done|done|]. cbn. rewrite all_visible_app. cbn.
  by rewrite (proj1 (fields_facts _ _ Hu)).
Qed.
Lemma reads_back v t : print v = Ok t -> scan t = Some v.
Proof.
  intros (kvs & u & -> & -> & Hu & _)%print_shape. destruct (fields_facts _ _ Hu) as (_ & Ho & Hc & Hr). cbn.
  rewrite contains_app, Ho. cbn. by rewrite split_once_free, Hr.
Qed.
Lemma prefix_last u c s : String.prefix s (u +:+ String c "") = true -> s <> u +:+ String c "" -> String.prefix s u = true.
Proof.
  revert s. induction u as [|d u IH]; intros [|e s]; rewrite ?str_app_nil, ?str_app_cons; cbn [String.prefix]; try done.
  - destruct (ascii_dec e c) as [->|]; [|done]. intros Hp Hne. destruct s; [by destruct Hne|done].
  - destruct (ascii_dec e d) as [->|]; [|done]. intros Hp Hne. apply IH; [done|]. intros ->. by apply Hne.
Qed.
Lemma refuses_cut v t s : print v = Ok t -> String.prefix s t = true -> s <> t -> scan s = None.
Proof.
  intros (kvs & u & -> & -> & Hu & _)%print_shape. destruct (fields_facts _ _ Hu) as (_ & Ho & Hc & _).
  destruct s as [|c s]; [done|]. change (String.prefix (String c s) (String "{" (u +:+ "}"))) with
    (if ascii_dec c "{" then String.prefix s (u +:+ "}") else false).
  destruct (ascii_dec c "{") as [->|]; [|done]. intros Hp Hne. assert (Hp' : String.prefix s u = true).
  { apply (prefix_last u "}"); [done|]. intros ->. by apply Hne. }
  cbn. destruct (contains_char "{" s); [done|]. by rewrite split_once_none by (by eapply free_prefix).
Qed.
Lemma beginning_shape s : beginning s -> all_visible s = true /\ exists s', s = String "{" s'.
Proof.
  intros [Hne (r & t & (kvs & u & _ & -> & _ & Hv)%print_shape & Hp)]. split; [by eapply all_visible_prefix|].
  destruct s as [|c s]; [done|]. exists s. change (String.prefix (String c s) (String "{" (u +:+ "}"))) with
    (if ascii_dec c "{" then String.prefix s (u +:+ "}") else false) in Hp.
  destruct (ascii_dec c "{"); [by subst|done].
Qed.
#[local] Instance json_line_laws : JsonLineLaws extern json_line.
Proof.
  split.
  - intros r t Ht. destruct (print_shape _ _ Ht) as (_ & _ & _ & _ & _ & Hv). rewrite trim_visible by done.
    by apply reads_back.
  - intros r t Ht. destruct (print_shape _ _ Ht) as (kvs & u & _ & -> & _ & Hv). rewrite trim_visible by done.
    split_and!; [done|by apply visible_valid|by apply visible_free|by apply visible_free].
  - intros r t s Ht Hp Hne. destruct (print_shape _ _ Ht) as (_ & _ & _ & _ & _ & Hv).
    rewrite trim_visible by (by eapply all_visible_prefix). by eapply refuses_cut.
  - intros ps Hps Hl. assert (all_visible (glue ps) = true) as Hv.
    { clear Hl. induction Hps as [|s ps Hs _ IH]; [done|]. change (glue (s :: ps)) with (s +:+ glue ps).
      rewrite all_visible_app, IH. by rewrite (proj1 (beginning_shape s Hs)). }
    rewrite trim_visible by done. destruct Hps as [|s1 ps H1 Hps]; [cbn in Hl; lia|].
    destruct Hps as [|s2 ps H2 _]; [cbn in Hl; lia|].
    destruct (beginning_shape _ H1) as (_ & s1' & ->), (beginning_shape _ H2) as (_ & s2' & ->).
    change (scan (String "{" (s1' +:+ String "{" (s2' +:+ glue ps))) = None). cbn.
    rewrite contains_app. cbn. by rewrite orb_true_r.
Qed.

(** ** Runs *)

Definition state_dir : path := ["state"; "engine-rs"].
Definition ledger_path : path := state_dir ++ ["approval-ledger.jsonl"].
Definition ask (item presented : string) (d : LedgerDecision) : Ask :=
  mkAsk item "d1" presented "diff" d "op" 1000%Z 2000%Z.
Definition steady : Tick := quiet.
Definition tears : Tick := mkTick (fun m => m) None (Some (CutShort "No space left on device" 9)).
Definition fails : Tick := mkTick (fun m => m) None (Some (NoTrace "Input/output error")).
Definition nothing (ts : list Tick) : Disk := mkDisk ∅ ∅ ts.

Lemma empty_ledger ts : ledger_is state_dir "approval-ledger.jsonl" (files (nothing ts)) ([], Clean).
Proof. reflexivity. Qed.
Lemma all_serialize asks : forallb (fun a => is_ok (to_line (row_to_json (asked_row a)))) asks = true -> Forall serializes asks.
Proof.
  intros H. apply Forall_forall. intros a Ha. rewrite forallb_forall in H.
  specialize (H a (proj1 (list_elem_of_In _ _) Ha)). cbv beta in H.
  destruct (to_line (row_to_json (asked_row a))) as [t|] eqn:Ht; [by exists t|discriminate H].
Qed.

(** An approval, a decision under another digest, a third one: all on record, the
    second as a re-queue. *)
Definition three : list Ask := [ask "a" "d1" Approved; ask "b" "d2" Approved; ask "c" "d1" Skipped].
Lemma ledger_history_witness :
  exists outs rows, (recorded_and_read state_dir "approval-ledger.jsonl" 1 three (nothing [])).1.1 = (outs, Some rows) /\
    map should_execute outs = [true; false; false] /\ rows = map asked_row three /\
    map decision rows = [Approved; Requeued; Skipped].
Proof.
  destruct (recorded_and_read state_dir "approval-ledger.jsonl" 1 three (nothing [])) as [[[outs answer] d'] t] eqn:E.
  destruct (ledger_history state_dir "approval-ledger.jsonl" false 0 three ([], Clean) (nothing []) outs answer d' t)
    as (rows & xs & d1 & -> & _ & _ & _ & Hrows).
  - constructor.
  - reflexivity.
  - apply not_elem_of_empty.
  - exact E.
  - assert (rows = map asked_row three) as ->.
    { apply Hrows; [reflexivity| |apply all_serialize; vm_compute; reflexivity|reflexivity].
      split_and!; [apply not_elem_of_empty|discriminate|reflexivity]. }
    exists outs, (map asked_row three). split; [reflexivity|]. split; [|split; reflexivity].
    transitivity (map should_execute (recorded_and_read state_dir "approval-ledger.jsonl" 1 three (nothing [])).1.1.1).
    + by rewrite E.
    + vm_compute. reflexivity.
Defined.

(** One write that tears costs the decision it was for and the next one. *)
Lemma tear_costs_two :
  (recorded_and_read state_dir "approval-ledger.jsonl" 1 three (nothing (replicate 6 steady ++ [tears]))).1.1.2
    = Some [decided_row (ask "a" "d1" Approved)].
Proof. vm_compute. reflexivity. Qed.

(** A newline that fails leaves a row that can be read, until the next append. *)
Lemma read_row_lost :
  let d := nothing (replicate 3 steady ++ [fails]) in
  (recorded_and_read state_dir "approval-ledger.jsonl" 1 [ask "a" "d1" Approved] d).1.1.2
    = Some [decided_row (ask "a" "d1" Approved)] /\
  (recorded_and_read state_dir "approval-ledger.jsonl" 1 [ask "a" "d1" Approved; ask "b" "d1" Approved] d).1.1.2
    = Some [].
Proof. split; vm_compute; reflexivity. Qed.

(** Two appenders, neither of whose calls fails: the second writes its line
    between the line and the newline of the first, and both rows are gone. *)
Definition second_appender : Tick :=
  mkTick (fun m =>
    match print (row_to_json (decided_row (ask "b" "d1" Approved))) with
    | Ok line => <[ledger_path := default "" (m !! ledger_path) +:+ line +:+ nl]> m
    | Err _ => m
    end) None None.
Lemma append_race :
  (recorded_and_read state_dir "approval-ledger.jsonl" 1 [ask "a" "d1" Approved]
     (nothing (replicate 3 steady ++ [second_appender]))).1.1.2 = Some [].
Proof. vm_compute. reflexivity. Qed.
