(* ===== verification/Terminal.v ===== *)
(** * The terminal lease, the operator's hold, and guarded sends

    crates/term-core/src: lease.rs, hold.rs and the guarded sender of driver.rs.
    A tmux session is shared between runs through an option that holds a lease,
    and with a human operator through a hold; a run types into it only with its
    lease renewed and no hold.

    The class [Driver] is what they use of [TerminalDriver]: each call is a
    process that may fail, and between any two of them other tasks act.  The
    state is the driver's, and the memory of the [OperatorHold] ([last_attached_ms]).
    [StoreDriver] is a driver that keeps options in a map. *)

From Stdlib Require Import Ascii.
From stdpp Require Import pretty.
From S2P Require Import Prelude Utf8 Text Effect.

Local Open Scope string_scope.
Local Open Scope list_scope.
Local Open Scope Z_scope.
Local Open Scope effect_scope.

(** ** tmux *)

Inductive TmuxError :=
| NotInstalled
| NoServer
| ExitError (code : Z) (stderr : string)
| TmuxIo (source : string)
| TmuxContext (action : string) (source : TmuxError)
| TmuxTimeout (action : string) (after : Z).
Fixpoint root_cause (e : TmuxError) : TmuxError :=
  match e with TmuxContext _ source => root_cause source | _ => e end.

(** A [Duration] is its number of nanoseconds. *)
Definition as_millis_u64 (d : Z) : Z := (d / 1000000) mod u64_modulus.

Class Driver : Type := {
  TW : Type;
  t_set_option : string -> string -> TW -> result unit TmuxError * TW;
  t_show_option : string -> TW -> result string TmuxError * TW;
  t_display_message : string -> string -> TW -> result string TmuxError * TW;
  t_send_literal : string -> string -> TW -> result unit TmuxError * TW;
  t_send_enter : string -> TW -> result unit TmuxError * TW;
  t_send_named_key : string -> string -> TW -> result unit TmuxError * TW
}.

Inductive TermEvent :=
| SetOption (name value : string)
| Typed (session keys : string)
| Entered (session : string)
| Keyed (session key : string).

(** ** The lease *)

Definition LEASE_OPTION : string := "@engine_lease".
Record Lease := mkLease {
  run_id : string;
  nonce : string;
  identity : string;
  expires_at_ms : Z
}.
Definition colon : ascii := ":"%char.
Definition to_value (l : Lease) : string :=
  run_id l +:+ ":" +:+ nonce l +:+ ":" +:+ identity l +:+ ":" +:+ pretty (expires_at_ms l).
Definition parse (raw : string) : option Lease :=
  match split_at colon raw with
  | [run_id; nonce; identity; expires_at] =>
      expires_at_ms ← parse_u64 expires_at;
      Some (mkLease run_id nonce identity expires_at_ms)
  | _ => None
  end.
Definition is_expired (l : Lease) (now_ms : Z) : bool := expires_at_ms l <=? now_ms.

Inductive LeaseError := Held | NoStealWindow | WithinStealGrace | LostReadBack | NotOurs | LeaseDriver (e : TmuxError).

Record AcquireRequest := mkAcquireRequest {
  rq_session : string;
  rq_run_id : string;
  rq_nonce : string;
  rq_identity : string;
  rq_expires_at_ms : Z;
  rq_now_ms : Z;
  rq_steal_after : option Z
}.

Definition is_unset_option_error (err : TmuxError) : bool :=
  match root_cause err with ExitError _ stderr => String.prefix "invalid option" stderr | _ => false end.
Definition option_name (session_name : string) : string := LEASE_OPTION +:+ "@" +:+ session_name.

Section Sessions.
Context {D : Driver}.

(** The driver's world, and when each session was last seen attached. *)
Definition TS : Type := TW * gmap string Z.
Definition TM (A : Type) : Type := eff TS TermEvent A.
Definition drive {A} (f : TW -> A * TW) : TM A :=
  esilent (fun s => let '(a, w) := f s.1 in (a, (w, s.2))).
Definition read_last (session_name : string) : TM (option Z) :=
  esilent (fun s => (s.2 !! session_name, s)).
Definition insert_last (session_name : string) (ms : Z) : TM unit :=
  esilent (fun s => (tt, (s.1, <[session_name := ms]> s.2))).

(** [?] with a [From] *)
Definition or_else {A C C'} (f : C -> C') (m : TM (result A C)) : TM (result A C') :=
  r <~ m ;; eret (match r with Ok a => Ok a | Err e => Err (f e) end).

Definition set_option (name value : string) : TM (result unit TmuxError) :=
  elog (SetOption name value) ;~ drive (t_set_option name value).

Definition read (session_name : string) : TM (result (option Lease) TmuxError) :=
  r <~ drive (t_show_option (option_name session_name)) ;;
  eret (match r with
        | Ok raw => let trimmed := trim raw in
                    if String.eqb trimmed "" then Ok None else Ok (parse trimmed)
        | Err e => if is_unset_option_error e then Ok None else Err e
        end).

Definition write_and_confirm (session_name : string) (candidate : Lease) : TM (result Lease LeaseError) :=
  _ <~? or_else LeaseDriver (set_option (option_name session_name) (to_value candidate)) ;;
  back <~? or_else LeaseDriver (read session_name) ;;
  eret (match back with
        | Some readback => if String.eqb (nonce readback) (nonce candidate) then Ok readback else Err LostReadBack
        | None => Err LostReadBack
        end).

Definition acquire (req : AcquireRequest) : TM (result Lease LeaseError) :=
  found <~? or_else LeaseDriver (read (rq_session req)) ;;
  let admitted :=
    match found with
    | None => Ok tt
    | Some existing =>
        if negb (is_expired existing (rq_now_ms req)) then
          if String.eqb (nonce existing) (rq_nonce req) then Ok tt else Err Held
        else
          match rq_steal_after req with
          | None => Err NoStealWindow
          | Some steal_after =>
              if u64_sat_sub (rq_now_ms req) (expires_at_ms existing) <? as_millis_u64 steal_after
              then Err WithinStealGrace else Ok tt
          end
    end in
  _ <~? eret admitted ;;
  write_and_confirm (rq_session req)
    (mkLease (rq_run_id req) (rq_nonce req) (rq_identity req) (rq_expires_at_ms req)).

Definition renew (session_name nonce' : string) (new_expires_at_ms : Z) (run_id identity : string)
    : TM (result Lease LeaseError) :=
  found <~? or_else LeaseDriver (read session_name) ;;
  match found with
  | Some existing =>
      if String.eqb (nonce existing) nonce'
      then write_and_confirm session_name (mkLease run_id nonce' identity new_expires_at_ms)
      else eret (Err NotOurs)
  | None => eret (Err NotOurs)
  end.

Definition release (session_name nonce' : string) : TM (result unit LeaseError) :=
  found <~? or_else LeaseDriver (read session_name) ;;
  match found with
  | Some existing =>
      if String.eqb (nonce existing) nonce'
      then _ <~? or_else LeaseDriver (set_option (option_name session_name) "") ;; eret (Ok tt)
      else eret (Err NotOurs)
  | None => eret (Err NotOurs)
  end.

(** ** The operator's hold *)

Definition OPERATOR_HOLD_OPTION : string := "@operator_hold".
Definition SESSION_ATTACHED_FORMAT : string := "#{session_attached}".
Definition DEFAULT_DETACH_GRACE : Z := 60 * 1000000000.
Inductive HoldError :=
| Paused (attached : bool) (grace_remaining_ms : option Z)
| HoldDriver (e : TmuxError).
Record HoldStatus := mkHoldStatus {
  operator_hold : bool;
  session_attached : bool;
  attached_now : bool;
  sends_paused : bool
}.
Definition operator_hold_option_name (session_name : string) : string :=
  OPERATOR_HOLD_OPTION +:+ "@" +:+ session_name.
Definition parse_session_attached (raw : string) : bool := String.eqb (trim raw) "1".

Definition read_operator_hold (session_name : string) : TM (result bool TmuxError) :=
  raw <~? drive (t_show_option (operator_hold_option_name session_name)) ;;
  eret (Ok (negb (String.eqb (trim raw) ""))).
Definition read_session_attached (session_name : string) : TM (result bool TmuxError) :=
  raw <~? drive (t_display_message session_name SESSION_ATTACHED_FORMAT) ;;
  eret (Ok (parse_session_attached raw)).

(** Milliseconds of grace left, for a session last seen attached at [last]. *)
Definition grace_left (grace now_ms : Z) (last : option Z) : option Z :=
  match last with
  | Some last_ms =>
      let elapsed := u64_sat_sub now_ms last_ms in
      let grace_ms := as_millis_u64 grace in
      if elapsed <? grace_ms then Some (grace_ms - elapsed) else None
  | None => None
  end.

Definition check (grace : Z) (session_name : string) (now_ms : Z) : TM (result HoldStatus TmuxError) :=
  operator_hold <~? read_operator_hold session_name ;;
  session_attached <~? read_session_attached session_name ;;
  let attached_now := operator_hold || session_attached in
  grace_remaining <~ (if attached_now then insert_last session_name now_ms ;~ eret None
                      else last <~ read_last session_name ;; eret (grace_left grace now_ms last)) ;;
  eret (Ok (mkHoldStatus operator_hold session_attached attached_now
              (attached_now || match grace_remaining with Some _ => true | None => false end))).

Definition guard_send (grace : Z) (session_name : string) (now_ms : Z) : TM (result unit HoldError) :=
  status <~? or_else HoldDriver (check grace session_name now_ms) ;;
  if sends_paused status then
    remaining <~ (if attached_now status then eret None
                  else last <~ read_last session_name ;;
                       eret (last_ms ← last;
                             Some (u64_sat_sub (as_millis_u64 grace) (u64_sat_sub now_ms last_ms)))) ;;
    eret (Err (Paused (attached_now status) remaining))
  else eret (Ok tt).

(** ** Guarded sends *)

Definition LINE_CLEAR_KEY : string := "C-u".
Record GuardedSendRequest := mkGuardedSendRequest {
  gs_session : string;
  gs_keys : string;
  gs_run_id : string;
  gs_nonce : string;
  gs_identity : string;
  gs_lease_expires_at_ms : Z;
  gs_now_ms : Z
}.
Inductive SendError :=
| SendLease (e : LeaseError)
| SendHold (e : HoldError)
| SendFailed (e : TmuxError)
| SendFailedRecoveryFailed (source recovery : TmuxError).

Definition send_literal (session keys : string) : TM (result unit TmuxError) :=
  elog (Typed session keys) ;~ drive (t_send_literal session keys).
Definition send_enter (session : string) : TM (result unit TmuxError) :=
  elog (Entered session) ;~ drive (t_send_enter session).
Definition send_named_key (session key : string) : TM (result unit TmuxError) :=
  elog (Keyed session key) ;~ drive (t_send_named_key session key).

(** What is done under the session's lock. *)
Definition type_line (session keys : string) : TM (result unit SendError) :=
  _ <~? or_else SendFailed (send_literal session keys) ;;
  entered <~ send_enter session ;;
  match entered with
  | Ok _ => eret (Ok tt)
  | Err enter_err =>
      cleared <~ send_named_key session LINE_CLEAR_KEY ;;
      eret (match cleared with
            | Ok _ => Err (SendFailed enter_err)
            | Err recovery_err => Err (SendFailedRecoveryFailed enter_err recovery_err)
            end)
  end.
Definition send_keys (req : GuardedSendRequest) : TM (result unit SendError) :=
  _ <~? or_else SendLease (renew (gs_session req) (gs_nonce req) (gs_lease_expires_at_ms req)
                             (gs_run_id req) (gs_identity req)) ;;
  _ <~? or_else SendHold (guard_send DEFAULT_DETACH_GRACE (gs_session req) (gs_now_ms req)) ;;
  type_line (gs_session req) (gs_keys req).
End Sessions.

(** ** The text of a lease *)

Lemma parse_digits_free m acc s n c :
  parse_digits m acc s = Some n -> is_ascii_digit c = false -> contains_char c s = false.
Proof.
  intros Hp Hc. revert acc Hp. induction s as [|d s IH]; intros acc; cbn [parse_digits contains_char]; [done|].
  destruct ((0 <=? Z.of_N (byte d) - 48) && (Z.of_N (byte d) - 48 <=? 9)
            && (acc * 10 + (Z.of_N (byte d) - 48) <? m)) eqn:Ed; [|done].
  intros Hp. rewrite (IH _ Hp), orb_false_r. apply Ascii.eqb_neq. intros ->.
  apply andb_true_iff in Ed as [[H1 H2]%andb_true_iff _]. unfold is_ascii_digit in Hc.
  apply andb_false_iff in Hc as [Hc|Hc]; apply N.leb_gt in Hc; lia.
Qed.
Lemma pretty_free n c : u64_ok n -> is_ascii_digit c = false -> c <> "+"%char -> contains_char c (pretty n) = false.
Proof.
  intros Hn Hc Hp. pose proof (parse_u64_pretty n Hn) as E. unfold parse_u64, parse_unsigned in E.
  destruct (pretty n) as [|d s] eqn:Es; [done|]. destruct (Ascii.eqb_spec d "+"%char) as [->|].
  - destruct s as [|d s]; [done|].
    change (Ascii.eqb c "+" || contains_char c (String d s) = false).
    rewrite (parse_digits_free _ _ _ _ c E Hc), orb_false_r. by apply Ascii.eqb_neq.
  - exact (parse_digits_free _ _ _ _ c E Hc).
Qed.

Lemma parse_to_value l :
  u64_ok (expires_at_ms l) ->
  if contains_char colon (run_id l) || contains_char colon (nonce l) || contains_char colon (identity l)
  then parse (to_value l) = None else parse (to_value l) = Some l.
Proof.
  intros Hn. assert (Hp : contains_char colon (pretty (expires_at_ms l)) = false) by (by apply pretty_free).
  unfold to_value. destruct (_ || _) eqn:Ec.
  - assert (Hl : (4 < length (split_at colon (to_value l)))%nat).
    { rewrite split_at_length. unfold to_value. change ":" with (String colon "").
      rewrite !count_char_app. cbn [count_char]. rewrite Ascii.eqb_refl.
      apply orb_true_iff in Ec as [[Ec|Ec]%orb_true_iff|Ec];
        match type of Ec with contains_char _ ?f = true =>
          assert (count_char colon f <> 0%nat) by (intros ?%count_char_0; congruence) end; lia. }
    unfold parse. fold (to_value l). repeat (case_match; try done; cbn [length] in Hl; try lia).
  - apply orb_false_iff in Ec as [[E1 E2]%orb_false_iff E3]. unfold parse.
    assert (Hcol : forall a b, a +:+ ":" +:+ b = a +:+ String colon b) by done.
    rewrite !Hcol, !split_at_free by done. rewrite split_at_whole by done. cbn. rewrite parse_u64_pretty by done.
    by destruct l.
Qed.

(** A lease reads back from its text exactly when none of its three names
    holds the separator; otherwise the text is no lease at all. *)
Theorem lease_roundtrip l :
  u64_ok (expires_at_ms l) ->
  if contains_char colon (run_id l) || contains_char colon (nonce l) || contains_char colon (identity l)
  then parse (to_value l) = None else parse (to_value l) = Some l.
Proof. apply parse_to_value. Qed.

(** ** A shared store of options

    tmux as lease.rs describes it: writing always succeeds and overwrites,
    reading an option that was never set is an error.  [others] is what other
    processes do to the store after each call. *)

Abbreviation Store := (gmap string string).
Record Shared := mkShared { opts : Store; others : list (Store -> Store) }.
Definition act (f : Store -> Store) (w : Shared) : Shared :=
  match others w with
  | [] => mkShared (f (opts w)) []
  | g :: gs => mkShared (g (f (opts w))) gs
  end.
Definition unset (name : string) : TmuxError := ExitError 1 ("invalid option: " +:+ name).
Definition StoreDriver : Driver := {|
  TW := Shared;
  t_set_option := fun name value w => (Ok tt, act <[name := value]> w);
  t_show_option := fun name w =>
    (match opts w !! name with Some v => Ok v | None => Err (unset name) end, act (fun st => st) w);
  t_display_message := fun _ _ w => (Ok "0", act (fun st => st) w);
  t_send_literal := fun _ _ w => (Ok tt, act (fun st => st) w);
  t_send_enter := fun _ w => (Ok tt, act (fun st => st) w);
  t_send_named_key := fun _ _ w => (Ok tt, act (fun st => st) w)
|}.

Section Store.
#[local] Existing Instance StoreDriver.

Definition lease_at (st : Store) (session_name : string) : option Lease :=
  v ← st !! option_name session_name;
  if String.eqb (trim v) "" then None else parse (trim v).

Lemma read_store s st gs m :
  read s (mkShared st gs, m) = (Ok (lease_at st s), (act (fun st => st) (mkShared st gs), m), []).
Proof.
  unfold read, drive, ebind, eret, esilent, lease_at. cbn. destruct (st !! option_name s) as [v|]; cbn; [|done].
  by destruct (String.eqb (trim v) "").
Qed.

Definition confirmed (st : Store) (s : string) (candidate : Lease) : result Lease LeaseError :=
  match lease_at st s with
  | Some readback => if String.eqb (nonce readback) (nonce candidate) then Ok readback else Err LostReadBack
  | None => Err LostReadBack
  end.
Lemma write_and_confirm_store s candidate st gs m :
  let w := act <[option_name s := to_value candidate]> (mkShared st gs) in
  write_and_confirm s candidate (mkShared st gs, m)
  = (confirmed (opts w) s candidate, (act (fun st => st) w, m), [SetOption (option_name s) (to_value candidate)]).
Proof.
  cbv zeta. unfold write_and_confirm.
  rewrite (try_bind_Ok_eq _ _ _ tt (act <[option_name s := to_value candidate]> (mkShared st gs), m)
    [SetOption (option_name s) (to_value candidate)]) by done.
  destruct (act <[option_name s:=to_value candidate]> (mkShared st gs)) as [st1 gs1].
  rewrite (try_bind_Ok_eq _ _ _ (lease_at st1 s) (act (fun st => st) (mkShared st1 gs1), m) [])
    by (unfold or_else; by rewrite (ebind_eq _ _ _ _ _ _ (read_store s st1 gs1 m))).
  cbn [opts]. unfold confirmed. by destruct (lease_at st1 s) as [l|]; [destruct (String.eqb _ _)|].
Qed.

(** *** Without interference *)

Definition alone (st : Store) (m : gmap string Z) : TS := (mkShared st [], m).

Lemma write_and_confirm_alone s candidate st m :
  write_and_confirm s candidate (alone st m)
  = (confirmed (<[option_name s := to_value candidate]> st) s candidate,
     alone (<[option_name s := to_value candidate]> st) m, [SetOption (option_name s) (to_value candidate)]).
Proof. exact (write_and_confirm_store s candidate st [] m). Qed.

(** What a request finds in its way. *)
Definition refusal (req : AcquireRequest) (existing : Lease) : option LeaseError :=
  if (rq_now_ms req <? expires_at_ms existing)%Z then
    if String.eqb (nonce existing) (rq_nonce req) then None else Some Held
  else match rq_steal_after req with
       | None => Some NoStealWindow
       | Some d => if (rq_now_ms req - expires_at_ms existing <? as_millis_u64 d)%Z then Some WithinStealGrace else None
       end.
Definition candidate_of (req : AcquireRequest) : Lease :=
  mkLease (rq_run_id req) (rq_nonce req) (rq_identity req) (rq_expires_at_ms req).

Lemma acquire_store req st gs m :
  let w := act (fun st => st) (mkShared st gs) in
  acquire req (mkShared st gs, m)
  = match lease_at st (rq_session req) ≫= refusal req with
    | Some e => (Err e, (w, m), [])
    | None => write_and_confirm (rq_session req) (candidate_of req) (w, m)
    end.
Proof.
  cbv zeta. unfold acquire.
  rewrite (try_bind_Ok_eq _ _ _ (lease_at st (rq_session req)) (act (fun st => st) (mkShared st gs), m) [])
    by (unfold or_else; by rewrite (ebind_eq _ _ _ _ _ _ (read_store _ st gs m))).
  set (w := act (fun st => st) (mkShared st gs)). fold (candidate_of req).
  assert (Hgo : forall e : option LeaseError,
    (let '(b, s2, t2) := try_bind (eret (match e with Some e => Err e | None => Ok tt end))
       (fun _ => write_and_confirm (rq_session req) (candidate_of req)) (w, m) in (b, s2, [] ++ t2))
    = match e with Some e => (Err e, (w, m), [])
      | None => write_and_confirm (rq_session req) (candidate_of req) (w, m) end).
  { intros [e|]; [done|]. rewrite (try_bind_Ok_eq _ _ _ tt (w, m) []) by done.
    by destruct (write_and_confirm _ _ _) as [[? ?] ?]. }
  rewrite <- Hgo. destruct (lease_at st (rq_session req)) as [l|]; [|done]. cbn [mbind option_bind].
  unfold refusal, is_expired, u64_sat_sub.
  destruct (Z.leb_spec (expires_at_ms l) (rq_now_ms req)) as [He|He]; cbn [negb].
  - rewrite (proj2 (Z.ltb_ge _ _) He). destruct (rq_steal_after req) as [d|]; [|done].
    rewrite Z.max_r by lia. by destruct (_ <? _)%Z.
  - rewrite (proj2 (Z.ltb_lt _ _) He). by destruct (String.eqb _ _).
Qed.

Record well_formed (l : Lease) : Prop := {
  wf_expires : u64_ok (expires_at_ms l);
  wf_free : contains_char colon (run_id l) || contains_char colon (nonce l) || contains_char colon (identity l) = false;
  wf_trim : trim (to_value l) = to_value l
}.
Lemma to_value_nonempty l : to_value l <> "".
Proof. unfold to_value. by destruct (run_id l). Qed.
Lemma lease_at_value st s l : well_formed l -> st !! option_name s = Some (to_value l) -> lease_at st s = Some l.
Proof.
  intros [Hn Hf Ht] Hs. unfold lease_at. rewrite Hs. cbn [mbind option_bind]. rewrite Ht.
  rewrite (proj2 (String.eqb_neq _ _) (to_value_nonempty l)). pose proof (parse_to_value l Hn) as Hp.
  by rewrite Hf in Hp.
Qed.
Lemma option_name_inj s s' : option_name s = option_name s' -> s = s'.
Proof. intros H. by injection H. Qed.

Inductive LeaseOp :=
| OpAcquire (req : AcquireRequest)
| OpRenew (session nonce : string) (new_expires_at_ms : Z) (run_id identity : string)
| OpRelease (session nonce : string).
Definition op_session (o : LeaseOp) : string :=
  match o with OpAcquire r => rq_session r | OpRenew s _ _ _ _ | OpRelease s _ => s end.
Definition op_nonce (o : LeaseOp) : string :=
  match o with OpAcquire r => rq_nonce r | OpRenew _ n _ _ _ | OpRelease _ n => n end.
(** Whether the operation succeeded. *)
Definition run_op (o : LeaseOp) : TM bool :=
  match o with
  | OpAcquire req => r <~ acquire req ;; eret (is_ok r)
  | OpRenew s n e run id => r <~ renew s n e run id ;; eret (is_ok r)
  | OpRelease s n => r <~ release s n ;; eret (is_ok r)
  end.
Fixpoint run_ops (os : list LeaseOp) : TM (list bool) :=
  match os with
  | [] => eret []
  | o :: os => b <~ run_op o ;; bs <~ run_ops os ;; eret (b :: bs)
  end.

(** An operation of another holder, before it may take over a lease that
    expires at [e]. *)
Definition too_early (l : Lease) (o : LeaseOp) : Prop :=
  op_nonce o <> nonce l /\
  match o with
  | OpAcquire r => (rq_now_ms r < expires_at_ms l)%Z \/
      match rq_steal_after r with
      | None => True
      | Some d => (rq_now_ms r - expires_at_ms l < as_millis_u64 d)%Z
      end
  | _ => True
  end.

Lemma refusal_early l r : too_early l (OpAcquire r) -> exists e, refusal r l = Some e.
Proof.
  intros [Hn Hw]. cbn in Hn, Hw. unfold refusal.
  rewrite (proj2 (String.eqb_neq _ _)) by congruence.
  destruct (Z.ltb_spec (rq_now_ms r) (expires_at_ms l)); [eauto|].
  destruct Hw as [?|Hw]; [lia|]. destruct (rq_steal_after r) as [d|]; [|eauto].
  rewrite (proj2 (Z.ltb_lt _ _) Hw). eauto.
Qed.

(** What each operation does to the store. *)
Lemma renew_store s n e run id st m :
  renew s n e run id (alone st m)
  = match lease_at st s with
    | Some existing => if String.eqb (nonce existing) n
                       then write_and_confirm s (mkLease run n id e) (alone st m)
                       else (Err NotOurs, alone st m, [])
    | None => (Err NotOurs, alone st m, [])
    end.
Proof.
  unfold renew. rewrite (try_bind_Ok_eq _ _ _ (lease_at st s) (alone st m) [])
    by (unfold or_else; by rewrite (ebind_eq _ _ _ _ _ _ (read_store _ st [] m))).
  destruct (lease_at st s) as [l|]; [|done]. destruct (String.eqb (nonce l) n); [|done].
  by destruct (write_and_confirm _ _ _) as [[? ?] ?].
Qed.
Lemma release_store s n st m :
  release s n (alone st m)
  = match lease_at st s with
    | Some existing => if String.eqb (nonce existing) n
                       then (Ok tt, alone (<[option_name s := ""]> st) m, [SetOption (option_name s) ""])
                       else (Err NotOurs, alone st m, [])
    | None => (Err NotOurs, alone st m, [])
    end.
Proof.
  unfold release. rewrite (try_bind_Ok_eq _ _ _ (lease_at st s) (alone st m) [])
    by (unfold or_else; by rewrite (ebind_eq _ _ _ _ _ _ (read_store _ st [] m))).
  destruct (lease_at st s) as [l|]; [|done]. by destruct (String.eqb (nonce l) n).
Qed.

Lemma run_op_store o st m :
  exists b st' t, run_op o (alone st m) = (b, alone st' m, t) /\
    (forall k, k <> option_name (op_session o) -> st' !! k = st !! k) /\
    forall l, lease_at st (op_session o) = Some l -> too_early l o -> b = false /\ st' = st.
Proof.
  destruct o as [req|s n e run id|s n]; cbn [run_op op_session].
  - unfold ebind. unfold alone at 1. rewrite (acquire_store req st [] m).
    change (act (fun st => st) (mkShared st []), m) with (alone st m).
    destruct (lease_at st (rq_session req)) as [l|] eqn:El; cbn [mbind option_bind];
      [destruct (refusal req l) as [e|] eqn:Er|].
    + eexists _, st, _. split; [done|]. split; [done|]. intros l' [= <-] _. done.
    + rewrite write_and_confirm_alone. eexists _, _, _. split; [reflexivity|].
      split; [intros k Hk; by rewrite lookup_insert_ne by congruence|].
      intros l' [= <-] He. by destruct (refusal_early _ _ He) as [e He']; rewrite He' in Er.
    + rewrite write_and_confirm_alone. eexists _, _, _. split; [reflexivity|].
      split; [intros k Hk; by rewrite lookup_insert_ne by congruence|done].
  - unfold ebind. rewrite renew_store. destruct (lease_at st s) as [l|] eqn:El;
      [destruct (String.eqb_spec (nonce l) n) as [En|En]|].
    + rewrite write_and_confirm_alone. eexists _, _, _. split; [reflexivity|].
      split; [intros k Hk; by rewrite lookup_insert_ne by congruence|].
      intros l' [= <-] [He _]. by cbn in He.
    + eexists _, st, _. split; [done|]. split; [done|]. by intros l' _ _.
    + eexists _, st, _. split; [done|]. split; [done|]. by intros l' _ _.
  - unfold ebind. rewrite release_store. destruct (lease_at st s) as [l|] eqn:El;
      [destruct (String.eqb_spec (nonce l) n) as [En|En]|].
    + eexists _, _, _. split; [reflexivity|].
      split; [intros k Hk; by rewrite lookup_insert_ne by congruence|].
      intros l' [= <-] [He _]. by cbn in He.
    + eexists _, st, _. split; [done|]. split; [done|]. by intros l' _ _.
    + eexists _, st, _. split; [done|]. split; [done|]. by intros l' _ _.
Qed.

(** C22: a held lease is exclusive, and fails closed.  Whatever others do, one
    operation at a time (acquire, renew, release; any session), a lease stays as
    it was written, and every one of their operations on its session fails: until
    it expires, and after that for whoever brings no bound for stealing or comes
    before the bound has passed. *)
Theorem lease_exclusive l s os st m :
  well_formed l -> st !! option_name s = Some (to_value l) ->
  Forall (fun o => op_session o = s -> too_early l o) os ->
  exists bs st' t, run_ops os (alone st m) = (bs, alone st' m, t) /\
    st' !! option_name s = Some (to_value l) /\
    Forall2 (fun o b => op_session o = s -> b = false) os bs.
Proof.
  intros Hwf. revert st. induction os as [|o os IH]; intros st Hs Hos.
  { exists [], st, []. by split_and!. }
  apply Forall_cons in Hos as [Ho Hos]. cbn [run_ops].
  destruct (run_op_store o st m) as (b & st1 & t1 & E1 & Hframe & Hearly).
  assert (st1 !! option_name s = Some (to_value l) /\ (op_session o = s -> b = false)) as Hfr.
  { destruct (decide (op_session o = s)) as [He|He].
    - destruct (Hearly l) as [-> ->]; [rewrite He; by apply lease_at_value|by apply Ho|done].
    - rewrite Hframe by (intros E; by apply option_name_inj in E). done. }
  destruct Hfr as [Hs1 Hb]. destruct (IH st1 Hs1 Hos) as (bs & st2 & t2 & E2 & Hs2 & Hbs).
  exists (b :: bs), st2, (t1 ++ t2 ++ []). split_and!; [|done|by constructor].
  rewrite (ebind_eq _ _ _ _ _ _ E1), (ebind_eq _ _ _ _ _ _ E2). done.
Qed.

(** *** With interference *)

(** What [acquire] does to the store when it runs undisturbed. *)
Definition rival (req : AcquireRequest) (m : gmap string Z) (st : Store) : Store :=
  opts (acquire req (alone st m)).1.2.1.

Lemma acquire_free req st m :
  well_formed (candidate_of req) -> lease_at st (rq_session req) = None ->
  acquire req (alone st m)
  = (Ok (candidate_of req), alone (<[option_name (rq_session req) := to_value (candidate_of req)]> st) m,
     [SetOption (option_name (rq_session req)) (to_value (candidate_of req))]).
Proof.
  intros Hwf Hf. unfold alone at 1. rewrite (acquire_store req st [] m), Hf. cbn [mbind option_bind].
  change (act (fun st => st) (mkShared st []), m) with (alone st m). rewrite write_and_confirm_alone.
  unfold confirmed. rewrite (lease_at_value _ _ (candidate_of req)) by (done || apply lookup_insert_eq).
  by rewrite String.eqb_refl.
Qed.

(** Reading back does not arbitrate.  Two runs that race for a session
    nobody holds can both be told that they hold it: it is enough that the second
    one looks before the first one writes and writes after the first one has read
    back.  The first learns of it no sooner than at its next renewal. *)
Theorem readback_admits_two a b st m :
  rq_session a = rq_session b -> rq_nonce a <> rq_nonce b ->
  well_formed (candidate_of a) -> well_formed (candidate_of b) -> lease_at st (rq_session a) = None ->
  (acquire a (alone st m)).1.1 = Ok (candidate_of a) /\
  exists st', acquire b (mkShared st [rival a m], m)
    = (Ok (candidate_of b), alone st' m, [SetOption (option_name (rq_session b)) (to_value (candidate_of b))]) /\
    (forall e run id, renew (rq_session a) (rq_nonce a) e run id (alone st' m) = (Err NotOurs, alone st' m, [])).
Proof.
  intros Hs Hn Ha Hb Hf. rewrite acquire_free by done. split; [done|].
  rewrite acquire_store. rewrite <- Hs, Hf. cbn [mbind option_bind act others opts].
  unfold rival. rewrite acquire_free by done. cbn [opts fst snd alone].
  set (st1 := <[option_name (rq_session a) := to_value (candidate_of a)]> st).
  change (mkShared st1 [], m) with (alone st1 m). rewrite write_and_confirm_alone. unfold confirmed.
  rewrite (lease_at_value _ _ (candidate_of b)) by (done || apply lookup_insert_eq). rewrite String.eqb_refl.
  eexists. split; [reflexivity|]. intros e run id. rewrite renew_store.
  rewrite (lease_at_value _ _ (candidate_of b)) by (done || apply lookup_insert_eq).
  cbn [nonce candidate_of]. by rewrite (proj2 (String.eqb_neq _ _)) by congruence.
Qed.
End Store.

(** ** What a send has checked *)

Section Sends.
Context {D : Driver}.

Lemma drive_inv {A} (f : TW -> A * TW) w a w' t : drive f w = (a, w', t) -> t = [].
Proof. unfold drive. by intros (_ & ->)%esilent_inv. Qed.
Lemma or_else_inv {A C C'} (f : C -> C') (m : TM (result A C)) w r w' t :
  or_else f m w = (r, w', t) -> exists r0, m w = (r0, w', t) /\
    r = match r0 with Ok a => Ok a | Err e => Err (f e) end.
Proof.
  unfold or_else. intros (r0 & w1 & t1 & t2 & E1 & E & ->)%ebind_inv. apply eret_inv in E as (-> & -> & ->).
  rewrite app_nil_r. by exists r0.
Qed.

Lemma silent_quiet {A} (m : TM A) w a w' t : only (fun _ => false) m -> m w = (a, w', t) -> t = [].
Proof. intros Hm E. apply Hm in E. by destruct t. Qed.
Lemma read_quiet session : only (fun _ => false) (read session).
Proof. unfold read, drive. only_go. Qed.
Lemma check_quiet grace session now : only (fun _ => false) (check grace session now).
Proof.
  unfold check, read_operator_hold, read_session_attached, drive, insert_last, read_last. only_go.
Qed.

Lemma renew_inv s n e run id w r w' t :
  renew s n e run id w = (r, w', t) ->
  match r with
  | Ok l => t = [SetOption (option_name s) (to_value (mkLease run n id e))] /\ nonce l = n /\
            exists w0, read s w0 = (Ok (Some l), w', [])
  | Err _ => t = [] \/ t = [SetOption (option_name s) (to_value (mkLease run n id e))]
  end.
Proof.
  unfold renew. intros [(c & E & ->)|(found & w1 & t1 & t2 & E1 & E & ->)]%try_bind_inv.
  { apply or_else_inv in E as (r0 & E & _). left. eapply silent_quiet; [apply read_quiet|exact E]. }
  apply or_else_inv in E1 as (r0 & E1 & _). apply (silent_quiet _ _ _ _ _ (read_quiet s)) in E1 as ->. cbn [app].
  destruct found as [l|]; [|apply eret_inv in E as (-> & _ & ->); by left].
  destruct (String.eqb (nonce l) n); [|apply eret_inv in E as (-> & _ & ->); by left].
  unfold write_and_confirm in E.
  apply try_bind_inv in E as [(c & E & ->)|([] & w2 & t3 & t4 & E1 & E & ->)].
  { apply or_else_inv in E as (r1 & E & _). apply ebind_inv in E as (u & w3 & t5 & t6 & E1 & E & ->).
    apply elog_inv in E1 as [_ ->]. apply drive_inv in E as ->. by right. }
  assert (t3 = [SetOption (option_name s) (to_value (mkLease run n id e))]) as ->.
  { apply or_else_inv in E1 as (r1 & E1 & _). apply ebind_inv in E1 as (u & w3 & t5 & t6 & E2 & E1 & ->).
    apply elog_inv in E2 as [_ ->]. by apply drive_inv in E1 as ->. }
  apply try_bind_inv in E as [(c & E & ->)|(back & w3 & t5 & t6 & E2 & E & ->)].
  { apply or_else_inv in E as (r1 & E & _). apply (silent_quiet _ _ _ _ _ (read_quiet s)) in E as ->. by right. }
  apply or_else_inv in E2 as (r1 & E2 & Hr1). pose proof (silent_quiet _ _ _ _ _ (read_quiet s) E2) as ->.
  apply eret_inv in E as (-> & -> & ->). destruct back as [l'|]; [|by right].
  cbn [nonce]. destruct (String.eqb_spec (nonce l') n); [|by right]. split_and!; [done..|].
  exists w2. rewrite E2. by destruct r1; [injection Hr1 as ->|].
Qed.

Lemma guard_send_inv grace s now w r w' t :
  guard_send grace s now w = (r, w', t) ->
  t = [] /\ forall u, r = Ok u -> exists st, check grace s now w = (Ok st, w', []) /\ sends_paused st = false.
Proof.
  unfold guard_send. intros [(c & E & ->)|(st & w1 & t1 & t2 & E1 & E & ->)]%try_bind_inv.
  { apply or_else_inv in E as (r0 & E & _). split; [|done]. eapply silent_quiet; [apply check_quiet|exact E]. }
  apply or_else_inv in E1 as (r0 & E1 & Hr0). pose proof (silent_quiet _ _ _ _ _ (check_quiet _ _ _) E1) as ->.
  destruct (sends_paused st) eqn:Ep.
  - apply ebind_inv in E as (rem & w2 & t3 & t4 & E2 & E & ->). apply eret_inv in E as (-> & -> & ->).
    split; [|done]. rewrite app_nil_r. cbn [app].
    assert (only (fun _ : TermEvent => false) (if attached_now st then eret None
      else last <~ read_last s ;; eret (last_ms ← last; Some (u64_sat_sub (as_millis_u64 grace) (u64_sat_sub now last_ms))))) as Hq
      by (unfold read_last; only_go).
    eapply silent_quiet; [exact Hq|exact E2].
  - apply eret_inv in E as (-> & -> & ->). split; [done|]. intros [] _. exists st. split; [|done].
    rewrite E1. by destruct r0; [injection Hr0 as ->|].
Qed.

Lemma grace_left_spec grace now last :
  (match grace_left grace now last with Some _ => true | None => false end) = true <->
  exists t, last = Some t /\ u64_sat_sub now t < as_millis_u64 grace.
Proof.
  unfold grace_left. destruct last as [t|]; [|by split; [|intros (t & [=] & _)]].
  destruct (Z.ltb_spec (u64_sat_sub now t) (as_millis_u64 grace)).
  - split; [intros _; by exists t|done].
  - split; [done|]. intros (t' & [= <-] & Hl). lia.
Qed.

(** The way is clear, call by call of the driver from its world [tw], for a
    session last seen attached as [m] says: the lease read is the sender's, its
    extension was written and read back, the hold option was read and is empty,
    no client is attached, and a client that was last seen attached was so at
    least 60 seconds ago. *)
Definition clear_to_send (req : GuardedSendRequest) (tw : TW) (m : gmap string Z) (tw' : TW) : Prop :=
  let s := gs_session req in
  let lease_option := "@engine_lease@" +:+ s in
  exists raw tw1 l tw2 raw' tw3 l' hold tw4 attached,
    t_show_option lease_option tw = (Ok raw, tw1) /\ trim raw <> "" /\
    parse (trim raw) = Some l /\ nonce l = gs_nonce req /\
    t_set_option lease_option
      (to_value (mkLease (gs_run_id req) (gs_nonce req) (gs_identity req) (gs_lease_expires_at_ms req))) tw1
      = (Ok tt, tw2) /\
    t_show_option lease_option tw2 = (Ok raw', tw3) /\ trim raw' <> "" /\
    parse (trim raw') = Some l' /\ nonce l' = gs_nonce req /\
    t_show_option ("@operator_hold@" +:+ s) tw3 = (Ok hold, tw4) /\ trim hold = "" /\
    t_display_message s "#{session_attached}" tw4 = (Ok attached, tw') /\ trim attached <> "1" /\
    (forall last, m !! s = Some last -> 60000 <= Z.max 0 (gs_now_ms req - last)).

Lemma drive_eq {A} (f : TW -> A * TW) tw m a tw' : f tw = (a, tw') -> drive f (tw, m) = (a, (tw', m), []).
Proof. unfold drive, esilent. cbn. by intros ->. Qed.
Lemma drive_out {A} (f : TW -> A * TW) tw m a w' t :
  drive f (tw, m) = (a, w', t) -> exists tw', f tw = (a, tw') /\ w' = (tw', m) /\ t = [].
Proof. unfold drive, esilent. cbn. destruct (f tw) as [a' tw']. intros [= <- <- <-]. by exists tw'. Qed.

(** Reading a lease that is there. *)
Lemma read_some s tw m l w' t :
  read s (tw, m) = (Ok (Some l), w', t) <->
  exists raw tw', t_show_option ("@engine_lease@" +:+ s) tw = (Ok raw, tw') /\ trim raw <> "" /\
    parse (trim raw) = Some l /\ w' = (tw', m) /\ t = [].
Proof.
  split.
  - intros (r & w1 & t1 & t2 & E1 & E & ->)%ebind_inv. apply drive_out in E1 as (tw1 & E1 & -> & ->).
    apply eret_inv in E as (Er & -> & ->). destruct r as [raw|err].
    + cbv zeta in Er. destruct (String.eqb_spec (trim raw) ""); [done|]. injection Er as Er. by exists raw, tw1.
    + by destruct (is_unset_option_error err).
  - intros (raw & tw' & E & Hne & Hp & -> & ->). unfold read. rewrite (ebind_eq _ _ _ _ _ _ (drive_eq _ _ m _ _ E)).
    cbn. by rewrite (proj2 (String.eqb_neq _ _) Hne), Hp.
Qed.

Lemma or_else_Ok {A C C'} (f : C -> C') (m : TM (result A C)) w a w' t :
  or_else f m w = (Ok a, w', t) <-> m w = (Ok a, w', t).
Proof.
  unfold or_else, ebind. destruct (m w) as [[[x|c] w1] t1]; cbn; rewrite app_nil_r; naive_solver.
Qed.
Lemma or_else_Err {A C C'} (f : C -> C') (m : TM (result A C)) w c w' t :
  or_else f m w = (Err c, w', t) -> exists c', c = f c' /\ m w = (Err c', w', t).
Proof.
  unfold or_else, ebind. destruct (m w) as [[[x|c0] w1] t1]; cbn; rewrite app_nil_r; naive_solver.
Qed.

Lemma hold_clear s now tw m u w' t :
  guard_send DEFAULT_DETACH_GRACE s now (tw, m) = (Ok u, w', t) <->
  t = [] /\ exists hold tw1 attached tw2, t_show_option ("@operator_hold@" +:+ s) tw = (Ok hold, tw1) /\ trim hold = "" /\
    t_display_message s "#{session_attached}" tw1 = (Ok attached, tw2) /\ trim attached <> "1" /\
    (forall last, m !! s = Some last -> 60000 <= Z.max 0 (now - last)) /\ w' = (tw2, m).
Proof.
  assert (Hg : forall last, u64_sat_sub now last < as_millis_u64 DEFAULT_DETACH_GRACE <-> Z.max 0 (now - last) < 60000).
  { intros last. change (as_millis_u64 DEFAULT_DETACH_GRACE) with 60000. unfold u64_sat_sub. lia. }
  unfold guard_send, check, read_operator_hold, read_session_attached. split.
  - intros [(c & _ & [=])|(st & w1 & t1 & t2 & E1 & E & ->)]%try_bind_inv.
    apply or_else_Ok in E1. apply try_bind_inv in E1 as [(c & _ & [=])|(oh & w2 & t3 & t4 & E2 & E1 & ->)].
    apply try_bind_inv in E2 as [(c & _ & [=])|(hold & w3 & t5 & t6 & E3 & E2 & ->)].
    apply drive_out in E3 as (tw1 & Hh & -> & ->). apply eret_inv in E2 as ([= ->] & -> & ->).
    apply try_bind_inv in E1 as [(c & _ & [=])|(sa & w4 & t7 & t8 & E4 & E1 & ->)].
    apply try_bind_inv in E4 as [(c & _ & [=])|(att & w5 & t9 & t10 & E5 & E4 & ->)].
    apply drive_out in E5 as (tw2 & Ha & -> & ->). apply eret_inv in E4 as ([= ->] & -> & ->). cbv zeta in E1.
    apply ebind_inv in E1 as (rem & w6 & t11 & t12 & E6 & E1 & ->). apply eret_inv in E1 as ([= ->] & -> & ->).
    cbn [sends_paused attached_now] in E. unfold parse_session_attached in *.
    destruct (String.eqb_spec (trim hold) "") as [Hh0|Hh0]; cbn [negb orb] in *.
    2: { apply ebind_inv in E as (? & ? & ? & ? & _ & E & _). by apply eret_inv in E as ([=] & _). }
    destruct (String.eqb_spec (trim att) "1") as [Ha0|Ha0]; cbn [orb] in *.
    { apply ebind_inv in E as (? & ? & ? & ? & _ & E & _). by apply eret_inv in E as ([=] & _). }
    apply ebind_inv in E6 as (last & w7 & t13 & t14 & E7 & E6 & ->). apply esilent_inv in E7 as [[= <- <-] ->].
    apply eret_inv in E6 as (-> & -> & ->).
    pose proof (grace_left_spec DEFAULT_DETACH_GRACE now (m !! s)) as Hl.
    destruct (match grace_left _ _ _ with Some _ => true | None => false end).
    { apply ebind_inv in E as (? & ? & ? & ? & _ & E & _). by apply eret_inv in E as ([=] & _). }
    apply eret_inv in E as (_ & -> & ->). split; [done|]. exists hold, tw1, att, tw2. split_and!; try done.
    intros last Hlast. destruct (Z.le_gt_cases 60000 (Z.max 0 (now - last))) as [|Hgt]; [done|].
    destruct Hl as [_ Hl]. discriminate Hl. exists last. split; [done|]. by apply (proj2 (Hg last)).
  - intros (-> & hold & tw1 & att & tw2 & Hh & Hh0 & Ha & Ha0 & Hl & ->).
    assert (grace_left DEFAULT_DETACH_GRACE now (m !! s) = None) as Hgl.
    { pose proof (grace_left_spec DEFAULT_DETACH_GRACE now (m !! s)) as Hs.
      destruct (grace_left _ _ _); [|done]. destruct Hs as [Hs _]. destruct (Hs eq_refl) as (last & Hlast & Hlt).
      apply (proj1 (Hg last)) in Hlt. specialize (Hl last Hlast). lia. }
    unfold operator_hold_option_name, OPERATOR_HOLD_OPTION, SESSION_ATTACHED_FORMAT.
    unfold try_bind, or_else, ebind, eret, drive, esilent, read_last, parse_session_attached. cbn [fst snd].
    change (("@operator_hold" +:+ "@" +:+ s)) with ("@operator_hold@" +:+ s). rewrite Hh. cbn. rewrite Ha. cbn.
    unfold esilent. rewrite Hh0, (proj2 (String.eqb_neq _ _) Ha0). cbn. rewrite Hgl. cbn. by destruct u.
Qed.

Lemma renew_clear s n e run id tw m l w' t :
  renew s n e run id (tw, m) = (Ok l, w', t) <->
  exists raw tw1 l0 tw2 raw' tw3, t_show_option ("@engine_lease@" +:+ s) tw = (Ok raw, tw1) /\ trim raw <> "" /\
    parse (trim raw) = Some l0 /\ nonce l0 = n /\
    t_set_option ("@engine_lease@" +:+ s) (to_value (mkLease run n id e)) tw1 = (Ok tt, tw2) /\
    t_show_option ("@engine_lease@" +:+ s) tw2 = (Ok raw', tw3) /\ trim raw' <> "" /\
    parse (trim raw') = Some l /\ nonce l = n /\ w' = (tw3, m) /\
    t = [SetOption ("@engine_lease@" +:+ s) (to_value (mkLease run n id e))].
Proof.
  unfold renew, write_and_confirm, set_option. split.
  - intros [(c & _ & [=])|(found & w1 & t1 & t2 & E1 & E & ->)]%try_bind_inv. apply or_else_Ok in E1.
    destruct found as [l0|]; [|by apply eret_inv in E as ([=] & _)].
    apply read_some in E1 as (raw & tw1 & Hr & Hne & Hp & -> & ->).
    destruct (String.eqb_spec (nonce l0) n) as [Hn|]; [|by apply eret_inv in E as ([=] & _)].
    apply try_bind_inv in E as [(c & _ & [=])|([] & w2 & t3 & t4 & E1 & E & ->)]. apply or_else_Ok in E1.
    apply ebind_inv in E1 as (u & w3 & t5 & t6 & E2 & E1 & ->). apply elog_inv in E2 as [-> ->].
    apply drive_out in E1 as (tw2 & Hs & -> & ->).
    apply try_bind_inv in E as [(c & _ & [=])|(back & w4 & t7 & t8 & E2 & E & ->)]. apply or_else_Ok in E2.
    destruct back as [l'|]; [|by apply eret_inv in E as ([=] & _)].
    apply read_some in E2 as (raw' & tw3 & Hr' & Hne' & Hp' & -> & ->). cbn [nonce] in E.
    destruct (String.eqb_spec (nonce l') n) as [Hn'|]; [|by apply eret_inv in E as ([=] & _)].
    apply eret_inv in E as ([= ->] & -> & ->).
    exists raw, tw1, l0, tw2, raw', tw3. by split_and!.
  - intros (raw & tw1 & l0 & tw2 & raw' & tw3 & Hr & Hne & Hp & Hn & Hs & Hr' & Hne' & Hp' & Hn' & -> & ->).
    assert (Hread : forall tw tw' raw l, t_show_option ("@engine_lease@" +:+ s) tw = (Ok raw, tw') -> trim raw <> "" ->
      parse (trim raw) = Some l -> or_else LeaseDriver (read s) (tw, m) = (Ok (Some l), (tw', m), [])).
    { intros. apply or_else_Ok, read_some. eauto 8. }
    rewrite (try_bind_Ok_eq _ _ _ _ _ _ (Hread _ _ _ _ Hr Hne Hp)).
    rewrite (proj2 (String.eqb_eq _ _) Hn).
    assert (or_else LeaseDriver (elog (SetOption (option_name s) (to_value (mkLease run n id e))) ;~
              drive (t_set_option (option_name s) (to_value (mkLease run n id e)))) (tw1, m)
            = (Ok tt, (tw2, m), [SetOption ("@engine_lease@" +:+ s) (to_value (mkLease run n id e))])) as Hset.
    { apply or_else_Ok. change (option_name s) with ("@engine_lease@" +:+ s). unfold ebind, elog.
      by rewrite (drive_eq _ _ m _ _ Hs). }
    rewrite (try_bind_Ok_eq _ _ _ _ _ _ Hset), (try_bind_Ok_eq _ _ _ _ _ _ (Hread _ _ _ _ Hr' Hne' Hp')).
    cbn [nonce]. by rewrite (proj2 (String.eqb_eq _ _) Hn').
Qed.

Lemma renew_refused s n e run id w c w' t :
  renew s n e run id w = (Err c, w', t) ->
  t = [] \/ t = [SetOption ("@engine_lease@" +:+ s) (to_value (mkLease run n id e))].
Proof. intros E. by apply renew_inv in E. Qed.
Lemma guard_refused grace s now w c w' t : guard_send grace s now w = (Err c, w', t) -> t = [].
Proof. intros E. by apply guard_send_inv in E as [-> _]. Qed.


(** One checker, asked again and again: each answer with the session and the
    time it was asked for, latest first. *)
Abbreviation Observation := (string * Z * result HoldStatus TmuxError)%type.
Definition observe (grace : Z) (seen : list Observation) (ask : string * Z) : TM (list Observation) :=
  r <~ check grace ask.1 ask.2 ;; eret ((ask, r) :: seen).
Definition attached_at (s : string) (o : Observation) : option Z :=
  if String.eqb o.1.1 s then match o.2 with Ok st => if attached_now st then Some o.1.2 else None | Err _ => None end
  else None.
Definition last_attached (s : string) (seen : list Observation) : option Z := head (omap (attached_at s) seen).

Lemma check_spec grace s now w m r w' m' t :
  check grace s now (w, m) = (r, (w', m'), t) ->
  t = [] /\
  match r with
  | Ok st => attached_now st = operator_hold st || session_attached st /\
      m' = (if attached_now st then <[s := now]> m else m) /\
      sends_paused st = attached_now st || match grace_left grace now (m !! s) with Some _ => true | None => false end
  | Err _ => m' = m
  end.
Proof.
  intros E. split; [by eapply silent_quiet; [apply check_quiet|]|]. revert E.
  assert (Hd : forall A (f : TW -> A * TW) (w : TS) a w' t, drive f w = (a, w', t) -> w'.2 = w.2).
  { clear. intros A f [w m] a w' t (E & _)%esilent_inv. cbn in E. destruct (f w). by injection E as <- <-. }
  unfold check. intros [(c & E & ->)|(oh & w1 & t1 & t2 & E1 & E & ->)]%try_bind_inv.
  { apply try_bind_inv in E as [(c' & E & _)|(raw & w1 & t1 & t2 & E1 & E & _)];
      [apply Hd in E; exact E|by apply eret_inv in E as (? & _)]. }
  apply try_bind_inv in E1 as [(c' & _ & [=])|(raw & w2 & t3 & t4 & E1 & E2 & ->)].
  apply Hd in E1. apply eret_inv in E2 as (_ & -> & _). cbn in E1.
  apply try_bind_inv in E as [(c & E & ->)|(sa & w3 & t5 & t6 & E2 & E & ->)].
  { apply try_bind_inv in E as [(c' & E & _)|(raw' & w3 & t5 & t6 & E2 & E & _)];
      [apply Hd in E; cbn in E; congruence|by apply eret_inv in E as (? & _)]. }
  apply try_bind_inv in E2 as [(c' & _ & [=])|(raw' & w4 & t7 & t8 & E2 & E3 & ->)].
  apply Hd in E2. apply eret_inv in E3 as (_ & -> & _). cbv zeta in E.
  destruct w2 as [v2 m2], w4 as [v4 m4]. cbn in E1, E2. subst m2 m4.
  apply ebind_inv in E as (rem & w5 & t9 & t10 & E3 & E & ->). apply eret_inv in E as (-> & Hw & ->).
  cbn [attached_now operator_hold session_attached sends_paused].
  destruct (oh || sa) eqn:Ea.
  - apply ebind_inv in E3 as (u & w6 & t11 & t12 & E4 & E3 & ->). apply esilent_inv in E4 as [E4 _]. cbn in E4. injection E4 as <- <-.
    apply eret_inv in E3 as (-> & -> & _). by injection Hw as -> ->.
  - apply ebind_inv in E3 as (last & w6 & t11 & t12 & E4 & E3 & ->). apply esilent_inv in E4 as [E4 _]. cbn in E4. injection E4 as <- <-.
    apply eret_inv in E3 as (-> & -> & _). by injection Hw as -> ->.
Qed.

Definition explained (grace : Z) (seen : list Observation) : Prop :=
  forall later s now st earlier, seen = later ++ (s, now, Ok st) :: earlier ->
    attached_now st = operator_hold st || session_attached st /\
    (sends_paused st = true <->
     attached_now st = true \/
     exists last, last_attached s earlier = Some last /\ u64_sat_sub now last < as_millis_u64 grace).

Lemma last_attached_cons s o seen :
  last_attached s (o :: seen) = match attached_at s o with Some t => Some t | None => last_attached s seen end.
Proof. unfold last_attached. cbn [omap list_omap]. by destruct (attached_at s o). Qed.

Lemma observe_step grace seen ask w m seen' w' m' t :
  observe grace seen ask (w, m) = (seen', (w', m'), t) ->
  (forall s, m !! s = last_attached s seen) -> explained grace seen ->
  t = [] /\ (exists r, seen' = (ask, r) :: seen) /\
  (forall s, m' !! s = last_attached s seen') /\ explained grace seen'.
Proof.
  unfold observe. destruct ask as [s now]. cbn [fst snd].
  intros (r & [w1 m1] & t1 & t2 & E1 & E & ->)%ebind_inv Hm Hx.
  apply check_spec in E1 as [-> Hr]. apply eret_inv in E as (-> & [= -> ->] & ->).
  split; [done|]. split; [by eexists|]. split.
  - intros s'. rewrite last_attached_cons. unfold attached_at. cbn [fst snd].
    destruct r as [st|e].
    + destruct Hr as (_ & -> & _). destruct (String.eqb_spec s s') as [->|Hne].
      * destruct (attached_now st); [by rewrite lookup_insert_eq|apply Hm].
      * destruct (attached_now st); [rewrite lookup_insert_ne by done|]; apply Hm.
    + rewrite Hr. destruct (String.eqb s s'); apply Hm.
  - intros later s' now' st earlier Heq. destruct later as [|o later]; cbn [app] in Heq; simplify_eq.
    + destruct Hr as (Ha & _ & Hp). split; [exact Ha|]. rewrite Hp, orb_true_iff, grace_left_spec, Hm. done.
    + by eapply Hx.
Qed.

(** Sends are paused while the operator is on a session and for the grace
    after.  Over any sequence of checks, of any sessions and with calls that may
    fail, a check reports the session held when the hold or an attached client
    is seen, and pauses sends exactly then or when the last check that saw the
    session held was less than the grace ago. *)
Theorem hold_history grace asks w seen w' m' t :
  efold (observe grace) asks [] (w, ∅) = (seen, (w', m'), t) ->
  t = [] /\ map fst (rev seen) = asks /\ explained grace seen.
Proof.
  intros E.
  assert (forall asks seen0 w m seen w' m' t, efold (observe grace) asks seen0 (w, m) = (seen, (w', m'), t) ->
    (forall s, m !! s = last_attached s seen0) -> explained grace seen0 ->
    t = [] /\ map fst (rev seen) = map fst (rev seen0) ++ asks /\ explained grace seen) as Hgo.
  { clear. induction asks as [|ask asks IH]; intros seen0 w m seen w' m' t E Hm Hx; cbn [efold] in E.
    { apply eret_inv in E as (-> & _ & ->). by rewrite app_nil_r. }
    apply ebind_inv in E as (seen1 & [w1 m1] & t1 & t2 & E1 & E & ->).
    destruct (observe_step _ _ _ _ _ _ _ _ _ E1 Hm Hx) as (-> & (r & ->) & Hm1 & Hx1).
    destruct (IH _ _ _ _ _ _ _ E Hm1 Hx1) as (-> & -> & Hx2). split; [done|]. split; [|exact Hx2].
    cbn [rev]. by rewrite map_app, <- app_assoc. }
  destruct (Hgo _ _ _ _ _ _ _ _ E) as (? & ? & ?); [done| |done].
  intros later s now st earlier Heq. by destruct later.
Qed.

(** An option that was never set refuses every send: unlike the lease, the hold
    takes tmux's answer for an error. *)
Lemma unset_hold_refuses grace s now w w' e :
  t_show_option (operator_hold_option_name s) w.1 = (Err e, w'.1) -> w'.2 = w.2 ->
  guard_send grace s now w = (Err (HoldDriver e), w', []).
Proof.
  intros He Hm.
  assert (Hc : check grace s now w = (Err e, w', [])).
  { apply try_bind_Err_eq, try_bind_Err_eq. unfold drive, esilent. rewrite He.
    destruct w' as [w1 m1]. cbn in *. by rewrite Hm. }
  apply try_bind_Err_eq. unfold or_else. by rewrite (ebind_eq _ _ _ _ _ _ Hc).
Qed.
End Sends.

(** ** A session to compute with *)

Section Examples.
#[local] Existing Instance StoreDriver.
Definition lease_a : Lease := mkLease "run-a" "n-a" "sdlc" 1000.
Definition request_a : AcquireRequest := mkAcquireRequest "s" "run-a" "n-a" "sdlc" 1000 0 None.
Definition request_b : AcquireRequest := mkAcquireRequest "s" "run-b" "n-b" "sdlc" 1000 0 None.
Definition late_b : AcquireRequest := mkAcquireRequest "s" "run-b" "n-b" "sdlc" 9000 5000 None.
Definition leased : Store := {[ option_name "s" := to_value lease_a ]}.
Definition send_a : GuardedSendRequest := mkGuardedSendRequest "s" "ls" "run-a" "n-a" "sdlc" 2000 500.

Lemma well_formed_a : well_formed lease_a.
Proof. by split. Qed.
Lemma well_formed_b : well_formed (candidate_of request_b).
Proof. by split. Qed.

Lemma lease_roundtrip_witness : parse (to_value lease_a) = Some lease_a.
Proof. exact (lease_roundtrip lease_a (wf_expires _ well_formed_a)). Defined.

(** The lease outlives its expiry when nobody brings a bound for stealing. *)
Lemma lease_exclusive_witness :
  exists bs st' t, run_ops [OpAcquire request_b; OpRelease "s" "n-b"; OpAcquire late_b] (alone leased ∅)
    = (bs, alone st' ∅, t) /\ st' !! option_name "s" = Some (to_value lease_a) /\ bs = [false; false; false].
Proof.
  destruct (lease_exclusive lease_a "s" [OpAcquire request_b; OpRelease "s" "n-b"; OpAcquire late_b] leased ∅
    well_formed_a ltac:(apply lookup_singleton_eq)) as (bs & st' & t & E & Hs & Hb).
  - rewrite !Forall_cons, Forall_nil. split_and!; [|intros _; by split| |done]; intros _; split; try done; cbn; [left; lia|by right].
  - exists bs, st', t. split; [exact E|]. split; [exact Hs|].
    apply Forall2_cons_inv_l in Hb as (b1 & bs1 & H1 & Hb & ->).
    apply Forall2_cons_inv_l in Hb as (b2 & bs2 & H2 & Hb & ->).
    apply Forall2_cons_inv_l in Hb as (b3 & bs3 & H3 & Hb & ->).
    apply Forall2_nil_inv_l in Hb as ->. by rewrite (H1 eq_refl), (H2 eq_refl), (H3 eq_refl).
Defined.

Lemma readback_admits_two_witness :
  (acquire request_a (alone ∅ ∅)).1.1 = Ok (candidate_of request_a) /\
  (acquire request_b (mkShared ∅ [rival request_a ∅], ∅)).1.1 = Ok (candidate_of request_b).
Proof.
  destruct (readback_admits_two request_a request_b ∅ ∅ eq_refl ltac:(done) well_formed_a well_formed_b eq_refl)
    as (Ha & st' & E & _).
  split; [exact Ha|]. by rewrite E.
Defined.

Definition ready : Store := <[operator_hold_option_name "s" := ""]> leased.

(** Attached, then seen detached within the grace, then after it. *)
Definition hold_asks : list (string * Z) := [("s", 1000); ("s", 61000)].
Lemma hold_history_witness :
  exists seen w m, efold (observe DEFAULT_DETACH_GRACE) hold_asks [] (alone ready ∅) = (seen, (w, m), []) /\
    map fst (rev seen) = hold_asks.
Proof.
  destruct (efold (observe DEFAULT_DETACH_GRACE) hold_asks [] (alone ready ∅)) as [[seen [w m]] t] eqn:E.
  destruct (hold_history _ _ _ _ _ _ _ E) as (-> & Ha & _). by exists seen, w, m.
Defined.
End Examples.
