(* ===== verification/Escalate.v ===== *)
(** * Escalation and bail records

    crates/engine-core/src/workflows/orchestration/escalate.rs: the lines a
    chain appends to [escalations.jsonl] and [bails.jsonl], and the checks a
    record passes before it exists.

    The four regular expressions are matched by hand, [\S] being "not in
    Unicode's White_Space"; the [\d] of the timestamp pattern depends on Unicode
    tables, so that pattern is the parameter [timestamp_re]. *)

From Stdlib Require Import Ascii.
From S2P Require Import Prelude Json Utf8 Text.

Local Open Scope string_scope.
Local Open Scope list_scope.

Inductive EscalationKind :=
| OperatorGateKind | BailKind | Disagreement | CrossRepoEdit | InterruptRequest | FindingKind.
Definition kind_wire (k : EscalationKind) : string :=
  match k with
  | OperatorGateKind => "operator-gate" | BailKind => "bail" | Disagreement => "disagreement"
  | CrossRepoEdit => "cross-repo-edit" | InterruptRequest => "interrupt-request"
  | FindingKind => "finding"
  end.
Inductive EscalationSeverity := Blocking | Advisory.
Definition severity_wire (s : EscalationSeverity) : string :=
  match s with Blocking => "blocking" | Advisory => "advisory" end.

Inductive EscalationError :=
| EmptyField (field : string)
| BadSlug (field value : string)
| BadTimestamp (value : string)
| BadSha (value : string)
| SummaryTooLong (chars max : nat)
| ProseVerifiedBy (value : string)
| OptionLabelTooLong (key : string) (chars max : nat)
| WrongOptionCount (count : nat).

(** ** Options and channels *)

Record EscalationOption := mkEscalationOption { eo_key : string; eo_label : string }.
Definition OPTION_LABEL_MAX_CHARS : nat := 20.

Definition EscalationOption_new (key label : string) : result EscalationOption EscalationError :=
  if String.eqb key "" then Err (EmptyField "options[].key")
  else if String.eqb label "" then Err (EmptyField "options[].label")
  else if (OPTION_LABEL_MAX_CHARS <? chars_count label)%nat
  then Err (OptionLabelTooLong key (chars_count label) OPTION_LABEL_MAX_CHARS)
  else Ok (mkEscalationOption key label).

Inductive EscalationOptions :=
| Two (a b : EscalationOption)
| Three (a b c : EscalationOption).
Definition EscalationOptions_new (options : list EscalationOption)
    : result EscalationOptions EscalationError :=
  match options with
  | [a; b] => Ok (Two a b)
  | [a; b; c] => Ok (Three a b c)
  | _ => Err (WrongOptionCount (length options))
  end.
Definition as_slice (o : EscalationOptions) : list EscalationOption :=
  match o with Two a b => [a; b] | Three a b c => [a; b; c] end.

Inductive EscalationChannel :=
| Notification (options : EscalationOptions)
| Session (slug : string).
Definition notification (options : list EscalationOption) : result EscalationChannel EscalationError :=
  match EscalationOptions_new options with Ok o => Ok (Notification o) | Err e => Err e end.
Definition session (slug : string) : result EscalationChannel EscalationError :=
  if String.eqb slug "" then Err (EmptyField "channel session slug") else Ok (Session slug).
Definition wire_value (c : EscalationChannel) : string :=
  match c with Notification _ => "notification" | Session slug => "session:" +:+ slug end.
Definition channel_options (c : EscalationChannel) : option EscalationOptions :=
  match c with Notification o => Some o | Session _ => None end.

(** ** Evidence *)

Inductive VerifiedBy := Unverified (raw : string) | Evidence (raw : string).
Definition vb_str (v : VerifiedBy) : string :=
  match v with Unverified raw => raw | Evidence raw => raw end.

Definition nl : ascii := ascii_of_N 10.

(** [^UNVERIFIED: \S[\s\S]*$] *)
Definition unverified_re (raw : string) : bool :=
  String.prefix "UNVERIFIED: " raw
  && negb (all_whitespace (chars_take 1
       (Stdlib.Strings.String.substring 12 (String.length raw - 12) raw))).

(** [^[\s\S]*\S[\s\S]*\n[\s\S]*\S[\s\S]*$]: some newline has text that is not
    all white space on both sides; [before] is what precedes [s]. *)
Fixpoint evidence_from (before s : string) : bool :=
  match s with
  | EmptyString => false
  | String c rest =>
      (Ascii.eqb c nl && negb (all_whitespace before) && negb (all_whitespace rest))
      || evidence_from (before +:+ String c EmptyString) rest
  end.
Definition evidence_re (raw : string) : bool := evidence_from "" raw.

Definition VerifiedBy_new (raw : string) : result VerifiedBy EscalationError :=
  if String.eqb raw "" then Err (EmptyField "verified_by")
  else if unverified_re raw then Ok (Unverified raw)
  else if evidence_re raw then Ok (Evidence raw)
  else Err (ProseVerifiedBy raw).

(** ** The field patterns *)

Definition in_range (lo hi : N) (c : ascii) : bool := (lo <=? byte c)%N && (byte c <=? hi)%N.
Definition lower_or_digit (c : ascii) : bool := in_range 97 122 c || in_range 48 57 c.
Definition hex_digit (c : ascii) : bool := in_range 97 102 c || in_range 48 57 c.
Fixpoint str_forallb (p : ascii -> bool) (s : string) : bool :=
  match s with EmptyString => true | String c s => p c && str_forallb p s end.

(** [^[a-z0-9][a-z0-9-]*$] *)
Definition slug_re (s : string) : bool :=
  match s with
  | EmptyString => false
  | String c s => lower_or_digit c && str_forallb (fun c => lower_or_digit c || (byte c =? 45)%N) s
  end.
(** [^[0-9a-f]{7,40}$] *)
Definition sha_re (s : string) : bool :=
  (7 <=? String.length s)%nat && (String.length s <=? 40)%nat && str_forallb hex_digit s.

Class RegexCrate : Type := { timestamp_re : string -> bool }.

Definition SUMMARY_MAX_CHARS : nat := Z.to_nat 1024.

(** ** Escalations *)

Section Escalation.
Context {X : Extern} {RX : RegexCrate}.

(** [NewEscalation], whose [verified_by] is still the raw text. *)
Record NewEscalation := mkNewEscalation {
  ts_utc : string;
  esc_repo : string;
  esc_lane : string;
  esc_kind : EscalationKind;
  severity : EscalationSeverity;
  channel : EscalationChannel;
  esc_block : option string;
  gate_id : string;
  summary : string;
  verified_by : string;
  durable_home : value;
  verified_at_sha : string;
  clears_when : option string;
  esc_host : option string
}.

Record EscalationRecord := mkEscalationRecord {
  er_args : NewEscalation;
  er_verified_by : VerifiedBy
}.

Definition EscalationRecord_new (args : NewEscalation) : result EscalationRecord EscalationError :=
  if String.eqb (ts_utc args) "" then Err (EmptyField "ts_utc")
  else if negb (timestamp_re (ts_utc args)) then Err (BadTimestamp (ts_utc args))
  else if negb (slug_re (esc_repo args)) then Err (BadSlug "repo" (esc_repo args))
  else if negb (slug_re (esc_lane args)) then Err (BadSlug "lane" (esc_lane args))
  else if String.eqb (gate_id args) "" then Err (EmptyField "gate_id")
  else if String.eqb (summary args) "" then Err (EmptyField "summary")
  else if (SUMMARY_MAX_CHARS <? chars_count (summary args))%nat
  then Err (SummaryTooLong (chars_count (summary args)) SUMMARY_MAX_CHARS)
  else if negb (sha_re (verified_at_sha args)) then Err (BadSha (verified_at_sha args))
  else match VerifiedBy_new (verified_by args) with
       | Err e => Err e
       | Ok v => Ok (mkEscalationRecord args v)
       end.

Definition option_to_json (o : EscalationOption) : value :=
  json_object [("key", jstr (eo_key o)); ("label", jstr (eo_label o))].
Definition options_to_json (o : EscalationOptions) : value :=
  jarray (map option_to_json (as_slice o)).

(** [if let Some(x) = o { obj.insert(k, x) }] *)
Definition insert_opt {A} (f : A -> value) (k : string) (o : option A) (obj : value) : value :=
  match o with Some a => jset obj k (f a) | None => obj end.

Definition escalation_to_json (r : EscalationRecord) : value :=
  let a := er_args r in
  insert_opt options_to_json "options" (channel_options (channel a))
  (insert_opt jstr "host" (esc_host a)
  (insert_opt jstr "clears_when" (clears_when a)
  (insert_opt jstr "block" (esc_block a)
  (json_object
    [("ts_utc", jstr (ts_utc a)); ("repo", jstr (esc_repo a)); ("lane", jstr (esc_lane a));
     ("kind", jstr (kind_wire (esc_kind a))); ("severity", jstr (severity_wire (severity a)));
     ("channel", jstr (wire_value (channel a))); ("gate_id", jstr (gate_id a));
     ("summary", jstr (summary a)); ("verified_by", jstr (vb_str (er_verified_by r)));
     ("durable_home", durable_home a); ("verified_at_sha", jstr (verified_at_sha a))])))).
End Escalation.

(** ** Bail entries *)

Inductive BailOwnership := SelfOwned | Foreign.
Definition ownership_wire (o : BailOwnership) : string :=
  match o with SelfOwned => "self" | Foreign => "foreign" end.
Definition classify (failing_artifact : string) (declared_files : list string) : BailOwnership :=
  if existsb (fun f => String.eqb f failing_artifact) declared_files then SelfOwned else Foreign.

Definition MIN_BAIL_CLASS : Z := 1.
Definition MAX_BAIL_CLASS : Z := 5.

Record NewBailEntry := mkNewBailEntry {
  occurred_at : string;
  nb_block_id : string;
  check_id : string;
  failing_artifact : string;
  declared_files : list string;
  bail_class : option Z;
  nb_reason : string
}.
Inductive BailEntryError :=
| BailEmptyField (field : string)
| MissingFailingArtifact
| InvalidBailClass (value : Z).
Record BailEntry := mkBailEntry { be_args : NewBailEntry; ownership : BailOwnership }.

Definition BailEntry_new (args : NewBailEntry) : result BailEntry BailEntryError :=
  if String.eqb (occurred_at args) "" then Err (BailEmptyField "occurred_at")
  else if String.eqb (nb_block_id args) "" then Err (BailEmptyField "block_id")
  else if String.eqb (check_id args) "" then Err (BailEmptyField "check_id")
  else if String.eqb (failing_artifact args) "" then Err MissingFailingArtifact
  else if String.eqb (nb_reason args) "" then Err (BailEmptyField "reason")
  else
    match bail_class args with
    | Some class =>
        if (MIN_BAIL_CLASS <=? class)%Z && (class <=? MAX_BAIL_CLASS)%Z
        then Ok (mkBailEntry args (classify (failing_artifact args) (declared_files args)))
        else Err (InvalidBailClass class)
    | None => Ok (mkBailEntry args (classify (failing_artifact args) (declared_files args)))
    end.

Section BailJson.
Context {X : Extern}.
Definition bail_to_json (e : BailEntry) : value :=
  let a := be_args e in
  json_object
    [("occurred_at", jstr (occurred_at a)); ("block_id", jstr (nb_block_id a));
     ("check_id", jstr (check_id a)); ("failing_artifact", jstr (failing_artifact a));
     ("ownership", jstr (ownership_wire (ownership e)));
     ("bail_class", json_opt ju64 (bail_class a)); ("reason", jstr (nb_reason a));
     ("resolution", jnull)].
End BailJson.

(** ** Facts *)

(** *** The schema's texts *)

(** Every character of [s] is one of [allowed]. *)
Definition made_of (allowed s : string) : Prop :=
  forall c, contains_char c s = true -> contains_char c allowed = true.
Definition slug_text (s : string) : Prop :=
  s <> "" /\ made_of "abcdefghijklmnopqrstuvwxyz0123456789-" s /\ String.prefix "-" s = false.
Definition sha_text (s : string) : Prop :=
  (7 <= String.length s <= 40)%nat /\ made_of "0123456789abcdef" s.
(** A text that starts with a character which is no white space, after the
    word; or a newline with more than white space on its two sides. *)
Definition evidence_text (s : string) : Prop :=
  (exists t, s = "UNVERIFIED: " +:+ t /\ all_whitespace (chars_take 1 t) = false) \/
  exists l r, s = l +:+ String "010" r /\ all_whitespace l = false /\ all_whitespace r = false.
Definition kind_text (k : EscalationKind) : string :=
  match k with
  | OperatorGateKind => "operator-gate" | BailKind => "bail" | Disagreement => "disagreement"
  | CrossRepoEdit => "cross-repo-edit" | InterruptRequest => "interrupt-request"
  | FindingKind => "finding"
  end.

Lemma made_of_forallb p allowed s :
  (forall c, p c = contains_char c allowed) -> str_forallb p s = true <-> made_of allowed s.
Proof.
  intros Hp. unfold made_of. induction s as [|c s IH]; [split; [by intros _ ? [=]|done]|].
  cbn [str_forallb contains_char]. rewrite andb_true_iff, IH, Hp. split.
  - intros [Hc Hs] c' [->%Ascii.eqb_eq|H]%orb_true_iff; auto.
  - intros H. split; [apply H; by rewrite Ascii.eqb_refl|]. intros c' Hc'. apply H. by rewrite Hc', orb_true_r.
Qed.

Lemma prefix_head a c s : String.prefix (String a "") (String c s) = if ascii_dec a c then true else false.
Proof.
  change (String.prefix (String a "") (String c s)) with (if ascii_dec a c then String.prefix "" s else false).
  by rewrite prefix_empty.
Qed.

Lemma slug_re_spec s : slug_re s = true <-> slug_text s.
Proof.
  unfold slug_text. destruct s as [|c s]; [by split; [|intros [? _]]|].
  assert (Hc : forall c, lower_or_digit c || (byte c =? 45)%N = contains_char c "abcdefghijklmnopqrstuvwxyz0123456789-")
    by (intros []; repeat match goal with b : bool |- _ => destruct b end; reflexivity).
  assert (Hf : forall c, lower_or_digit c = (lower_or_digit c || (byte c =? 45)%N) && negb (String.prefix "-" (String c "")))
    by (intros []; repeat match goal with b : bool |- _ => destruct b end; reflexivity).
  assert (Hp : String.prefix "-" (String c s) = String.prefix "-" (String c "")) by (by rewrite !prefix_head).
  rewrite Hp, <- (made_of_forallb _ _ _ Hc). cbn [slug_re str_forallb]. rewrite (Hf c) at 1.
  rewrite !andb_true_iff, negb_true_iff. naive_solver.
Qed.

Lemma sha_re_spec s : sha_re s = true <-> sha_text s.
Proof.
  unfold sha_re, sha_text. rewrite !andb_true_iff, !Nat.leb_le.
  rewrite (made_of_forallb _ "0123456789abcdef"); [tauto|].
  intros []; repeat match goal with b : bool |- _ => destruct b end; reflexivity.
Qed.

Lemma unverified_re_spec s :
  unverified_re s = true <-> exists t, s = "UNVERIFIED: " +:+ t /\ all_whitespace (chars_take 1 t) = false.
Proof.
  unfold unverified_re. rewrite andb_true_iff, negb_true_iff, prefix_iff.
  assert (Hsub : forall t, Stdlib.Strings.String.substring 12 (String.length ("UNVERIFIED: " +:+ t) - 12) ("UNVERIFIED: " +:+ t) = t).
  { intros t. change (String.length ("UNVERIFIED: " +:+ t)) with (12 + String.length t)%nat.
    replace (12 + String.length t - 12)%nat with (String.length t) by lia.
    change (Stdlib.Strings.String.substring 0 (String.length t) t = t).
    induction t as [|c t IH]; cbn; [done|]. by f_equal. }
  split.
  - intros [[t ->] H]. rewrite Hsub in H. by exists t.
  - intros (t & -> & H). split; [by exists t|]. by rewrite Hsub.
Qed.

Lemma evidence_from_spec before s :
  evidence_from before s = true <->
  exists l r, s = l +:+ String nl r /\ all_whitespace (before +:+ l) = false /\
    all_whitespace r = false.
Proof.
  revert before. induction s as [|c s IH]; intros before; simpl.
  { split; [done|]. intros ([|? ?] & r & H & _); discriminate H. }
  rewrite orb_true_iff, !andb_true_iff, !negb_true_iff, IH, Ascii.eqb_eq. split.
  - intros [[[-> Hb] Hs]|(l & r & -> & Hl & Hr)].
    + exists "", s. by rewrite str_append_nil_r.
    + exists (String c l), r. split_and!; [done| |done]. by rewrite str_append_assoc in Hl.
  - intros ([|c' l] & r & H & Hl & Hr); injection H as -> ->.
    + left. by rewrite str_append_nil_r in Hl.
    + right. exists l, r. split_and!; [done| |done]. by rewrite str_append_assoc.
Qed.

(** Evidence is two non-blank pieces of text on the two sides of a newline. *)
Lemma evidence_re_spec s :
  evidence_re s = true <->
  exists l r, s = l +:+ String nl r /\ all_whitespace l = false /\ all_whitespace r = false.
Proof. apply evidence_from_spec. Qed.

Lemma evidence_text_spec s : unverified_re s = true \/ evidence_re s = true <-> evidence_text s.
Proof. by rewrite unverified_re_spec, evidence_re_spec. Qed.

Section EscalationFacts.
Context {X : Extern} {XL : ExternLaws X} {RX : RegexCrate}.

Definition text_at (v : value) (k : string) : option string := jget v k ≫= as_str.

(** A channel that a constructor built: for the operator's session, or a
    notification whose options have the keys and labels [raw]. *)
Definition built (raw : option (list (string * string))) (c : EscalationChannel) : Prop :=
  match raw with
  | None => exists slug, session slug = Ok c
  | Some raw => exists options, notification options = Ok c /\
      Forall2 (fun kl o => EscalationOption_new kl.1 kl.2 = Ok o) raw options
  end.

Definition optional (v : value) (k : string) (o : option string) : Prop :=
  match o with Some s => text_at v k = Some s | None => jget v k = None end.

(** What the schema asks of the arguments. *)
Record in_schema (a : NewEscalation) : Prop := {
  is_ts : ts_utc a <> "" /\ timestamp_re (ts_utc a) = true;
  is_repo : slug_text (esc_repo a);
  is_lane : slug_text (esc_lane a);
  is_gate : gate_id a <> "";
  is_summary : summary a <> "" /\ (chars_count (summary a) <= 1024)%nat;
  is_sha : sha_text (verified_at_sha a);
  is_verified_by : evidence_text (verified_by a)
}.

(** The line of the arguments [a]: the eleven keys, the optional ones that are
    given, and no other; the options just when the channel is a notification,
    two or three, each with a key and a short label. *)
Record line_of (a : NewEscalation) (raw : option (list (string * string))) (v : value) : Prop := {
  lo_ts : text_at v "ts_utc" = Some (ts_utc a);
  lo_repo : text_at v "repo" = Some (esc_repo a);
  lo_lane : text_at v "lane" = Some (esc_lane a);
  lo_kind : text_at v "kind" = Some (kind_text (esc_kind a));
  lo_severity : text_at v "severity" = Some (match severity a with Blocking => "blocking" | Advisory => "advisory" end);
  lo_gate : text_at v "gate_id" = Some (gate_id a);
  lo_summary : text_at v "summary" = Some (summary a);
  lo_sha : text_at v "verified_at_sha" = Some (verified_at_sha a);
  lo_verified_by : text_at v "verified_by" = Some (verified_by a);
  lo_home : jget v "durable_home" = Some (durable_home a);
  lo_block : optional v "block" (esc_block a);
  lo_clears : optional v "clears_when" (clears_when a);
  lo_host : optional v "host" (esc_host a);
  lo_keys : forall k, is_Some (jget v k) -> k ∈ ["ts_utc"; "repo"; "lane"; "kind"; "severity"; "channel"; "gate_id";
    "summary"; "verified_by"; "durable_home"; "verified_at_sha"; "block"; "clears_when"; "host"; "options"];
  lo_channel :
    match raw with
    | None => jget v "options" = None /\ exists slug, slug <> "" /\ text_at v "channel" = Some ("session:" +:+ slug)
    | Some raw => text_at v "channel" = Some "notification" /\ (length raw = 2 \/ length raw = 3)%nat /\
        exists options l, jget v "options" = Some options /\ as_array options = Some l /\
        Forall2 (fun kl o => text_at o "key" = Some kl.1 /\ text_at o "label" = Some kl.2 /\
          kl.1 <> "" /\ kl.2 <> "" /\ (chars_count kl.2 <= 20)%nat) raw l
    end
}.

Lemma EscalationOption_new_ok key label o :
  EscalationOption_new key label = Ok o ->
  o = mkEscalationOption key label /\ key <> "" /\ label <> "" /\ (chars_count label <= 20)%nat.
Proof.
  unfold EscalationOption_new.
  destruct (String.eqb_spec key ""); [done|]. destruct (String.eqb_spec label ""); [done|].
  destruct (Nat.ltb_spec OPTION_LABEL_MAX_CHARS (chars_count label)); [done|]. by intros [= <-].
Qed.

Lemma notification_ok options c :
  notification options = Ok c -> exists o, c = Notification o /\ as_slice o = options /\ (length options = 2 \/ length options = 3)%nat.
Proof.
  unfold notification, EscalationOptions_new. destruct options as [|a [|b [|d [|e l]]]]; try done; intros [= <-];
    eexists; (split; [done|]); split; auto.
Qed.

Lemma VerifiedBy_new_ok raw v :
  VerifiedBy_new raw = Ok v -> vb_str v = raw /\ (unverified_re raw = true \/ evidence_re raw = true).
Proof. unfold VerifiedBy_new. repeat case_match; intros [= <-]; auto. Qed.

Lemma EscalationRecord_new_ok a :
  in_schema a <-> exists r, EscalationRecord_new a = Ok r.
Proof.
  unfold EscalationRecord_new, VerifiedBy_new. split.
  - intros [[H1 H2] H3%slug_re_spec H4%slug_re_spec H5 [H6 H7] H8%sha_re_spec H10].
    assert (H9 : verified_by a <> "").
    { intros E. rewrite E in H10. destruct H10 as [(t & H & _)|(l & r & H & _)]; [discriminate H|by destruct l]. }
    apply evidence_text_spec in H10. apply String.eqb_neq in H1, H5, H6, H9.
    assert (H7' : (SUMMARY_MAX_CHARS <? chars_count (summary a))%nat = false) by (by apply Nat.ltb_ge).
    rewrite H1, H2, H3, H4, H5, H6, H7', H8, H9. simpl.
    destruct (unverified_re _); [by eexists|]. destruct H10 as [|H10]; [done|].
    rewrite H10. by eexists.
  - intros [r H].
    destruct (String.eqb_spec (ts_utc a) ""); [done|].
    destruct (timestamp_re (ts_utc a)) eqn:H2; [|done]. destruct (slug_re (esc_repo a)) eqn:H3; [|done].
    destruct (slug_re (esc_lane a)) eqn:H4; [|done].
    destruct (String.eqb_spec (gate_id a) ""); [done|].
    destruct (String.eqb_spec (summary a) ""); [done|].
    destruct (Nat.ltb_spec SUMMARY_MAX_CHARS (chars_count (summary a))) as [|H7]; [done|].
    destruct (sha_re (verified_at_sha a)) eqn:H8; [|done]. simpl in H.
    destruct (String.eqb_spec (verified_by a) ""); [done|].
    apply slug_re_spec in H3, H4. apply sha_re_spec in H8.
    split; try done. apply evidence_text_spec. destruct (unverified_re _), (evidence_re _); auto; done.
Qed.

Lemma EscalationRecord_new_args a r :
  EscalationRecord_new a = Ok r -> er_args r = a /\ vb_str (er_verified_by r) = verified_by a.
Proof.
  unfold EscalationRecord_new. destruct (VerifiedBy_new _) as [v|] eqn:E; repeat case_match;
    intros [= <-]; split; try done; by apply VerifiedBy_new_ok in E as [? _].
Qed.

Lemma jget_insert_opt {A} (f : A -> value) k (o : option A) v k' :
  kind v = KObject ->
  jget (insert_opt f k o v) k' = if String.eqb k k' then from_option (Some ∘ f) (jget v k') o
                                 else jget v k'.
Proof.
  intros Hv. destruct o; simpl; [|by destruct (String.eqb k k')].
  rewrite jget_set by done. by destruct (String.eqb k k').
Qed.

Lemma kind_insert_opt {A} (f : A -> value) k (o : option A) v :
  kind v = KObject -> kind (insert_opt f k o v) = KObject.
Proof. destruct o; simpl; auto using kind_set. Qed.

Hint Resolve kind_insert_opt kind_json_object : core.

(** The optional keys do not hide the required ones. *)
Lemma text_escalation_json r k :
  k ∉ ["options"; "host"; "clears_when"; "block"] ->
  text_at (escalation_to_json r) k =
    assoc_last k
      [("ts_utc", jstr (ts_utc (er_args r))); ("repo", jstr (esc_repo (er_args r)));
       ("lane", jstr (esc_lane (er_args r))); ("kind", jstr (kind_wire (esc_kind (er_args r))));
       ("severity", jstr (severity_wire (severity (er_args r))));
       ("channel", jstr (wire_value (channel (er_args r)))); ("gate_id", jstr (gate_id (er_args r)));
       ("summary", jstr (summary (er_args r))); ("verified_by", jstr (vb_str (er_verified_by r)));
       ("durable_home", durable_home (er_args r));
       ("verified_at_sha", jstr (verified_at_sha (er_args r)))] ≫= as_str.
Proof.
  intros Hk. unfold text_at, escalation_to_json. rewrite !jget_insert_opt by auto 10.
  repeat match goal with |- context [String.eqb ?s k] =>
    destruct (String.eqb_spec s k); [subst; by destruct Hk; set_solver|] end.
  by rewrite jget_json_object.
Qed.

(** The optional keys, and the keys there are. *)
Lemma jget_escalation_json r k :
  jget (escalation_to_json r) k =
    let a := er_args r in
    let required := assoc_last k
      [("ts_utc", jstr (ts_utc a)); ("repo", jstr (esc_repo a)); ("lane", jstr (esc_lane a));
       ("kind", jstr (kind_wire (esc_kind a))); ("severity", jstr (severity_wire (severity a)));
       ("channel", jstr (wire_value (channel a))); ("gate_id", jstr (gate_id a));
       ("summary", jstr (summary a)); ("verified_by", jstr (vb_str (er_verified_by r)));
       ("durable_home", durable_home a); ("verified_at_sha", jstr (verified_at_sha a))] in
    let given {A} (name : string) (f : A -> value) (o : option A) (other : option value) :=
      if String.eqb name k then from_option (Some ∘ f) other o else other in
    given "options" options_to_json (channel_options (channel a))
      (given "host" jstr (esc_host a) (given "clears_when" jstr (clears_when a) (given "block" jstr (esc_block a) required))).
Proof. unfold escalation_to_json. rewrite !jget_insert_opt by auto 10. by rewrite jget_json_object. Qed.

Lemma optional_jstr v k o : jget v k = from_option (Some ∘ jstr) None o -> optional v k o.
Proof.
  unfold optional, text_at. intros ->. destruct o; [|done]. simpl. apply as_str_str.
Qed.

Lemma escalation_keys r k : is_Some (jget (escalation_to_json r) k) ->
  k ∈ ["ts_utc"; "repo"; "lane"; "kind"; "severity"; "channel"; "gate_id"; "summary"; "verified_by"; "durable_home";
       "verified_at_sha"; "block"; "clears_when"; "host"; "options"].
Proof.
  rewrite jget_escalation_json. cbv zeta. unfold assoc_last. cbn [foldl fst snd].
  repeat match goal with |- context [String.eqb ?s k] =>
    destruct (String.eqb_spec s k) as [<-|]; [intros _; set_solver|] end.
  by intros [? [=]].
Qed.

Lemma escalation_channel r raw :
  built raw (channel (er_args r)) -> let v := escalation_to_json r in
  match raw with
  | None => jget v "options" = None /\ exists slug, slug <> "" /\ text_at v "channel" = Some ("session:" +:+ slug)
  | Some raw => text_at v "channel" = Some "notification" /\ (length raw = 2 \/ length raw = 3)%nat /\
      exists options l, jget v "options" = Some options /\ as_array options = Some l /\
      Forall2 (fun kl o => text_at o "key" = Some kl.1 /\ text_at o "label" = Some kl.2 /\
        kl.1 <> "" /\ kl.2 <> "" /\ (chars_count kl.2 <= 20)%nat) raw l
  end.
Proof.
  cbv zeta. destruct raw as [raw|]; cbn [built].
  - intros (options & (o & Hc & Hs & Hlen)%notification_ok & Hraw). split; [|split].
    + rewrite text_escalation_json by set_solver. rewrite Hc. simpl. apply as_str_str.
    + by rewrite (Forall2_length _ _ _ Hraw).
    + exists (options_to_json o), (map option_to_json options). split; [|split].
      * rewrite jget_escalation_json. cbv zeta. rewrite Hc. reflexivity.
      * unfold options_to_json. by rewrite as_array_array, Hs.
      * apply Forall2_fmap_r. eapply Forall2_impl; [exact Hraw|].
        intros [key label] o' (-> & H1 & H2 & H3)%EscalationOption_new_ok. cbn [fst snd compose] in *. unfold compose.
        unfold text_at, option_to_json. rewrite !jget_json_object. simpl. by rewrite !as_str_str.
  - intros [slug Hs]. unfold session in Hs. destruct (String.eqb_spec slug ""); [done|].
    injection Hs as Hs. split.
    + rewrite jget_escalation_json. cbv zeta. rewrite <- Hs. reflexivity.
    + exists slug. split; [done|]. rewrite text_escalation_json by set_solver. rewrite <- Hs. simpl. apply as_str_str.
Qed.

(** C39: an escalation line is well typed.  A record is made exactly of the
    arguments the schema admits: a timestamp, repository and lane of lower-case
    letters, digits and inner dashes, a gate, a summary of 1024 characters at most,
    seven to forty lower-case hexadecimal digits, and evidence that is either the
    word UNVERIFIED with a claimant or a command line and its output, never bare
    prose.  Its line holds those arguments under the eleven keys of the schema with
    the words the schema has for kind and severity, the optional keys that are
    given, and no other key; and, for a channel that its constructors built, two or
    three options in their order, each with a key and a label of at most twenty
    characters, just when the channel is a notification. *)
Theorem escalation_well_typed a :
  (in_schema a <-> exists r, EscalationRecord_new a = Ok r) /\
  (forall r raw, EscalationRecord_new a = Ok r -> built raw (channel a) -> line_of a raw (escalation_to_json r)).
Proof.
  split; [apply EscalationRecord_new_ok|]. intros r raw Hr Hc.
  apply EscalationRecord_new_args in Hr as [<- Hv].
  split; try lazymatch goal with
    |- text_at _ _ = _ => rewrite text_escalation_json by set_solver; simpl; rewrite as_str_str; try done end.
  - by rewrite Hv.
  - by rewrite jget_escalation_json.
  - apply optional_jstr. by rewrite jget_escalation_json.
  - apply optional_jstr. by rewrite jget_escalation_json.
  - apply optional_jstr. by rewrite jget_escalation_json.
  - apply escalation_keys.
  - by apply escalation_channel.
Qed.
End EscalationFacts.
