(* ===== verification/Chain.v ===== *)
(** * The chain of an ORCHESTRATION run, its gates and its checkpoint

    From crates/engine-core/src/workflows/orchestration:

    - chain.rs: [ChainStep], [resolve_lane_chain], [resolve_explicit_chain]
    - gates.rs: [DependencyEdge], [check_dependencies], the permission gate, the
      frontier reader
    - graph.rs: [OnBail], [BailChannel], [apply_conductor_caps]
    - checkpoint.rs: [Checkpoint], reading and writing it
    - execute.rs: [resolve_isolation], [resolve_child_permission_profile]
    - engine_kind.rs: [EngineKind]

    and crates/engine-core/src/policy/permission.rs, the profiles the permission
    gate consults.

    A path is the [string] of its bytes.  What a function reads through a seam
    ([resolve_depends_on], [is_edge_met], the file system) is a program of
    [Effect.v]; a parsed file is the value the parser returns. *)

From Stdlib Require Import Ascii.
From stdpp Require Import pretty.
From S2P Require Import Prelude Effect.

Local Open Scope string_scope.
Local Open Scope list_scope.
Local Open Scope effect_scope.

(** ** Paths and Debug output *)

(** [Path::join]: an absolute right-hand side replaces the left. *)
Definition path_join (a b : string) : string :=
  match b with
  | String "/"%char _ => b
  | _ =>
      match a with
      | "" => b
      | _ => if String.eqb (Stdlib.Strings.String.substring (String.length a - 1) 1 a) "/" then a +:+ b
             else a +:+ "/" +:+ b
      end
  end.

(** What [{:?}] prints for the types of the standard library that reach a
    message; the escapes depend on Unicode tables. *)
Class RustFmt : Type := {
  debug_str : string -> string;
  debug_opt_str : option string -> string;
  debug_strs : list string -> string;
  debug_duration : Z -> string
}.

(** ** Steps *)

Inductive StepKind := Block | DispatchStep | Command.
Definition step_kind_debug (k : StepKind) : string :=
  match k with Block => "Block" | DispatchStep => "Dispatch" | Command => "Command" end.
#[export] Instance StepKind_eq_dec : EqDecision StepKind.
Proof. solve_decision. Defined.

Record LaneBudget := mkLaneBudget { heavy : bool; not_with : list string }.
Record LaneDirectives := mkLaneDirectives {
  held_until : option string;
  lane_budget : option LaneBudget;
  exclusive_repos : option (list string)
}.

Record ChainStep := mkChainStep {
  repo : string;
  block_id : string;
  directives : option LaneDirectives;
  roadmap : option string;
  lane : option string;
  segment : option Z;
  step_kind : StepKind
}.

(** [(step.repo, step.block_id)] and ["{repo}:{block_id}"] *)
Definition step_key (s : ChainStep) : string * string := (repo s, block_id s).
Definition step_name (s : ChainStep) : string := repo s +:+ ":" +:+ block_id s.

Record RawBlockPosition := mkRawBlockPosition {
  raw_roadmap : string;
  raw_lane : string;
  raw_repo : string;
  raw_id : string;
  raw_kind : StepKind;
  raw_line : Z;
  raw_segment : Z;
  raw_position : Z;
  raw_origin_roadmap : option string;
  raw_directives : option LaneDirectives
}.

Inductive ChainError :=
| ReadFailed (path source : string)
| ParseFailed (path source : string)
| LaneNotFound (roadmap lane : string)
| Held (roadmap lane repo held_until : string).

Definition chain_error_to_string (e : ChainError) : string :=
  match e with
  | ReadFailed path source => "failed to read " +:+ path +:+ ": " +:+ source
  | ParseFailed path source =>
      "malformed lane-segments artifact at " +:+ path +:+ ": " +:+ source
  | LaneNotFound roadmap lane =>
      "no lane '" +:+ lane +:+ "' found for roadmap '" +:+ roadmap
      +:+ "' in the lane-segments artifact"
  | Held roadmap lane repo held_until =>
      "lane '" +:+ lane +:+ "' of roadmap '" +:+ roadmap +:+ "' (repo '" +:+ repo
      +:+ "') refuses to start: HELD-UNTIL '" +:+ held_until +:+ "' is still open"
  end.

(** [sort_by_key(|b| (b.segment, b.position))] *)
Definition position_cmp (a b : RawBlockPosition) : comparison :=
  match Z.compare (raw_segment a) (raw_segment b) with
  | Eq => Z.compare (raw_position a) (raw_position b)
  | c => c
  end.

Definition raw_to_step (b : RawBlockPosition) : ChainStep :=
  mkChainStep (raw_repo b) (raw_id b) (raw_directives b) (Some (raw_roadmap b))
    (Some (raw_lane b)) (Some (raw_segment b)) (raw_kind b).

(** [iter().find_map(..)] *)
Definition find_map {A B} (f : A -> option B) (l : list A) : option B := head (omap f l).

(** [read] is what [read_to_string] answers, [parse] is [serde_json::from_str]. *)
Definition resolve_lane_chain (read : result string string)
    (parse : string -> result (list RawBlockPosition) string)
    (lane_segments_path roadmap lane : string) (is_block_open : string -> bool)
    : result (list ChainStep) ChainError :=
  match read with
  | Err source => Err (ReadFailed lane_segments_path source)
  | Ok raw =>
  match parse raw with
  | Err source => Err (ParseFailed lane_segments_path source)
  | Ok blocks =>
      match sort_by position_cmp
              (filter (fun b => raw_roadmap b = roadmap /\ raw_lane b = lane) blocks) with
      | [] => Err (LaneNotFound roadmap lane)
      | first :: rest =>
          let matching := first :: rest in
          match find_map (fun b => raw_directives b ≫= held_until) matching with
          | Some held =>
              if is_block_open held
              then Err (Held roadmap lane (raw_repo first) held)
              else Ok (map raw_to_step matching)
          | None => Ok (map raw_to_step matching)
          end
      end
  end
  end.

Definition resolve_explicit_chain (blocks : list (string * string)) : list ChainStep :=
  map (fun '(repo, id) => mkChainStep repo id None None None None Block) blocks.

(** ** What the conductor proposed, capped *)

Record DroppedCandidate := mkDroppedCandidate {
  dropped_repo : string;
  dropped_block_id : string;
  dropped_reason : string
}.
Record ProposalOutcome := mkProposalOutcome {
  proposed_chain : list ChainStep;
  dropped : list DroppedCandidate
}.

Definition drop_single_repo (first_repo : string) (s : ChainStep) : DroppedCandidate :=
  mkDroppedCandidate (repo s) (block_id s)
    ("conductor: '" +:+ repo s +:+ ":" +:+ block_id s
     +:+ "' dropped — the first autonomous runs' single-repo cap keeps only '"
     +:+ first_repo +:+ "' this run").

(** [show_max] prints [max_blocks]. *)
Definition drop_over_cap (show_max : string) (s : ChainStep) : DroppedCandidate :=
  mkDroppedCandidate (repo s) (block_id s)
    ("conductor: '" +:+ repo s +:+ ":" +:+ block_id s
     +:+ "' dropped — the first autonomous runs' chain cap keeps at most "
     +:+ show_max +:+ " block(s) tonight").

(** [chain.drain(..)]: each step is kept or dropped, in order. *)
Fixpoint keep_repo (first_repo : string) (steps : list ChainStep)
    : list ChainStep * list DroppedCandidate :=
  match steps with
  | [] => ([], [])
  | s :: steps =>
      let '(kept, gone) := keep_repo first_repo steps in
      if String.eqb (repo s) first_repo then (s :: kept, gone)
      else (kept, drop_single_repo first_repo s :: gone)
  end.

Definition cap_single_repo (on : bool) (o : ProposalOutcome) : ProposalOutcome :=
  match on, proposed_chain o with
  | true, s :: _ =>
      let '(kept, gone) := keep_repo (repo s) (proposed_chain o) in
      mkProposalOutcome kept (dropped o ++ gone)
  | _, _ => o
  end.

Definition cap_blocks (max : option nat) (o : ProposalOutcome) : ProposalOutcome :=
  match max with
  | Some max_blocks =>
      if (max_blocks <? length (proposed_chain o))%nat
      then mkProposalOutcome (take max_blocks (proposed_chain o))
             (dropped o ++ map (drop_over_cap (pretty (N.of_nat max_blocks)))
                             (drop max_blocks (proposed_chain o)))
      else o
  | None => o
  end.

Definition apply_conductor_caps (single_repo_only : bool) (max_chain_blocks : option nat)
    (o : ProposalOutcome) : ProposalOutcome :=
  cap_blocks max_chain_blocks (cap_single_repo single_repo_only o).

(** ** Permission profiles *)

Inductive GatedAction :=
| ClearOperatorGate | InstallOnMini | PushToMain | CrossRepoWrite | Notify | WakeLane | RunDrain.
Inductive PermissionProfile := Locked | Standard | Unrestricted.
Inductive PermissionDecision := Permit | Deny.
#[export] Instance PermissionProfile_eq_dec : EqDecision PermissionProfile.
Proof. solve_decision. Defined.

Definition DEFAULT_PROFILE : PermissionProfile := Standard.

Definition action_debug (a : GatedAction) : string :=
  match a with
  | ClearOperatorGate => "ClearOperatorGate" | InstallOnMini => "InstallOnMini"
  | PushToMain => "PushToMain" | CrossRepoWrite => "CrossRepoWrite" | Notify => "Notify"
  | WakeLane => "WakeLane" | RunDrain => "RunDrain"
  end.
(** [serde(rename_all = "snake_case")] *)
Definition action_wire (a : GatedAction) : string :=
  match a with
  | ClearOperatorGate => "clear_operator_gate" | InstallOnMini => "install_on_mini"
  | PushToMain => "push_to_main" | CrossRepoWrite => "cross_repo_write" | Notify => "notify"
  | WakeLane => "wake_lane" | RunDrain => "run_drain"
  end.
Definition profile_debug (p : PermissionProfile) : string :=
  match p with Locked => "Locked" | Standard => "Standard" | Unrestricted => "Unrestricted" end.
Definition profile_wire (p : PermissionProfile) : string :=
  match p with Locked => "locked" | Standard => "standard" | Unrestricted => "unrestricted" end.

Definition decide_permission (profile : PermissionProfile) (action : GatedAction) : PermissionDecision :=
  match action with
  | ClearOperatorGate => Deny
  | _ =>
      match profile, action with
      | Locked, _ => Deny
      | Standard, InstallOnMini => Deny
      | Standard, PushToMain => Permit
      | Standard, CrossRepoWrite => Permit
      | Standard, Notify => Permit
      | Standard, WakeLane => Deny
      | Standard, RunDrain => Deny
      | Unrestricted, InstallOnMini => Permit
      | Unrestricted, PushToMain => Permit
      | Unrestricted, CrossRepoWrite => Permit
      | Unrestricted, Notify => Permit
      | Unrestricted, WakeLane => Permit
      | Unrestricted, RunDrain => Permit
      | _, ClearOperatorGate => Deny
      end
  end.

Definition level_id_to_profile (id : string) : option PermissionProfile :=
  if String.eqb id "locked" then Some Locked
  else if String.eqb id "standard" then Some Standard
  else if String.eqb id "unrestricted" then Some Unrestricted
  else None.

Inductive ProfileResolutionError :=
| ConfigLoad (message : string)
| EmptyLevels
| NoDefault
| DefaultLevelMissing (dflt : string)
| NeverAllowedMismatch (got : list string)
| UnknownLevelId (id : string).

(** mev's [PermissionProfilesConfig]: the levels are a [BTreeMap], here its
    entries in key order, each with its [id]. *)
Record PermissionProfilesConfig := mkPermissionProfilesConfig {
  levels : list (string * string);
  default_level : option string;
  never_allowed : list string
}.

Definition level_of (config : PermissionProfilesConfig) (k : string) : option string :=
  snd <$> find (fun kv => String.eqb kv.1 k) (levels config).

Definition resolve_permission_profile_from_config (config : PermissionProfilesConfig)
    : PermissionProfile * option ProfileResolutionError :=
  match levels config with
  | [] => (Locked, Some EmptyLevels)
  | _ =>
  match default_level config with
  | None => (Locked, Some NoDefault)
  | Some default_id =>
      if negb (bool_decide (never_allowed config = ["clear_operator_gate"]))
      then (Locked, Some (NeverAllowedMismatch (never_allowed config)))
      else
      match find (fun kv => bool_decide (level_id_to_profile kv.2 = None)) (levels config) with
      | Some kv => (Locked, Some (UnknownLevelId kv.2))
      | None =>
          match level_of config default_id with
          | None => (Locked, Some (DefaultLevelMissing default_id))
          | Some id =>
              match level_id_to_profile id with
              | Some profile => (profile, None)
              | None => (Locked, Some (UnknownLevelId id))
              end
          end
      end
  end
  end.

(** [load] is mev's [load_brain_config] on the path. *)
Definition resolve_permission_profile (load : result PermissionProfilesConfig string)
    : PermissionProfile * option ProfileResolutionError :=
  match load with
  | Ok config => resolve_permission_profile_from_config config
  | Err message => (Locked, Some (ConfigLoad message))
  end.

Record ProfileWideningError := mkProfileWideningError {
  widening_parent : PermissionProfile;
  widening_requested : PermissionProfile
}.
Definition widening_to_string (e : ProfileWideningError) : string :=
  "requested permission profile " +:+ profile_debug (widening_requested e)
  +:+ " is wider than parent profile " +:+ profile_debug (widening_parent e)
  +:+ " — a step may narrow its parent's permission profile, never widen it".

Definition permission_profile_rank (p : PermissionProfile) : Z :=
  match p with Locked => 0 | Standard => 1 | Unrestricted => 2 end.

Definition resolve_child_permission_profile (parent : PermissionProfile)
    (requested : option PermissionProfile) : result PermissionProfile ProfileWideningError :=
  match requested with
  | None => Ok parent
  | Some p =>
      if (permission_profile_rank parent <? permission_profile_rank p)%Z
      then Err (mkProfileWideningError parent p) else Ok p
  end.

(** [canonicalize] of the two paths, [None] where it fails. *)
Definition resolve_isolation (repo_slug : string) (repo_path brain_root : option string)
    (default_use_worktree : bool) : bool :=
  if String.eqb repo_slug "base-template" then true
  else match repo_path, brain_root with
       | Some p, Some r => if String.eqb p r then false else default_use_worktree
       | _, _ => default_use_worktree
       end.

(** ** Engines *)

Inductive EngineKind := Task | Flow.
Definition engine_to_string (e : EngineKind) : string :=
  match e with Task => "task" | Flow => "flow" end.
Definition from_sdlc_workflow (value : option string) : result EngineKind (option string) :=
  match value with
  | Some v => if String.eqb v "task" then Ok Task
              else if String.eqb v "flow" then Ok Flow else Err value
  | None => Err None
  end.

(** ** Dependency gates *)

Inductive DependencyEdge :=
| EdgeBlock (repo block_id : string)
| EdgeOperator (slug : string)
| EdgeApproval (slug : string)
| EdgeExternal (what : string).
#[export] Instance DependencyEdge_eq_dec : EqDecision DependencyEdge.
Proof. solve_decision. Defined.

Inductive GateError := UnmetDependency (repo block_id : string) (edge : DependencyEdge).

Definition gate_error_to_string (e : GateError) : string :=
  let '(UnmetDependency repo block_id edge) := e in
  let cannot := "block '" +:+ block_id +:+ "' (repo '" +:+ repo +:+ "') cannot start: " in
  match edge with
  | EdgeBlock dep_repo dep_id =>
      cannot +:+ "dependency '" +:+ dep_id +:+ "' (repo '" +:+ dep_repo +:+ "') is not yet met"
  | EdgeOperator slug => cannot +:+ "operator gate '" +:+ slug +:+ "' is not yet cleared"
  | EdgeApproval slug => cannot +:+ "approval gate '" +:+ slug +:+ "' is not yet granted"
  | EdgeExternal what => cannot +:+ "external dependency '" +:+ what +:+ "' is not yet met"
  end.

Section Gates.
Context {S E : Type}.
Variable resolve_depends_on : string -> string -> eff S E (list DependencyEdge).
Variable is_edge_met : string -> string -> eff S E bool.

Definition edge_met (edge : DependencyEdge) : eff S E bool :=
  match edge with
  | EdgeBlock repo block_id => is_edge_met repo block_id
  | _ => eret false
  end.

Fixpoint check_edges (step : ChainStep) (edges : list DependencyEdge)
    : eff S E (result unit GateError) :=
  match edges with
  | [] => eret (Ok tt)
  | edge :: edges =>
      met <~ edge_met edge ;;
      if met : bool then check_edges step edges
      else eret (Err (UnmetDependency (repo step) (block_id step) edge))
  end.

Definition check_dependencies (step : ChainStep) : eff S E (result unit GateError) :=
  edges <~ resolve_depends_on (repo step) (block_id step) ;;
  check_edges step edges.
End Gates.

(** ** The permission gate *)

Record OperatorGateRequest := mkOperatorGateRequest {
  gate_slug : string;
  gate_exit : string;
  gate_start : string
}.

Definition permission_gate_slug (action : GatedAction) : string :=
  "permission-" +:+ action_wire action.

Definition build_operator_gate_request (action : GatedAction) (profile : PermissionProfile)
    : OperatorGateRequest :=
  let slug := permission_gate_slug action in
  mkOperatorGateRequest slug
    ("planning/decisions/" +:+ slug +:+ ".md exists and records the operator's decision to authorize "
     +:+ action_debug action +:+ " under permission profile " +:+ profile_debug profile)
    ("/begin-session " +:+ slug).

Inductive PermissionGateError :=
| Denied (repo block_id : string) (action : GatedAction) (profile : PermissionProfile)
    (edge : OperatorGateRequest)
| EdgeAuthorFailed (repo block_id : string) (action : GatedAction) (profile : PermissionProfile)
    (reason : string).

Definition permission_gate_error_to_string (e : PermissionGateError) : string :=
  match e with
  | Denied repo block_id action profile edge =>
      "block '" +:+ block_id +:+ "' (repo '" +:+ repo +:+ "') cannot proceed: "
      +:+ action_debug action +:+ " is denied at permission profile " +:+ profile_debug profile
      +:+ "; operator gate '" +:+ gate_slug edge +:+ "' raised, blocking the chain"
  | EdgeAuthorFailed repo block_id action profile reason =>
      "block '" +:+ block_id +:+ "' (repo '" +:+ repo +:+ "') cannot proceed: "
      +:+ action_debug action +:+ " is denied at permission profile " +:+ profile_debug profile
      +:+ ", and authoring the operator-gate edge failed: " +:+ reason
  end.

Definition check_permission_gate {S E} (step : ChainStep) (action : GatedAction)
    (profile : PermissionProfile)
    (author_operator_edge : OperatorGateRequest -> eff S E (result unit string))
    : eff S E (result unit PermissionGateError) :=
  match decide_permission profile action with
  | Permit => eret (Ok tt)
  | Deny =>
      let edge := build_operator_gate_request action profile in
      r <~ author_operator_edge edge ;;
      match r with
      | Err reason => eret (Err (EdgeAuthorFailed (repo step) (block_id step) action profile reason))
      | Ok _ => eret (Err (Denied (repo step) (block_id step) action profile edge))
      end
  end.

(** ** The lane frontier, advisory *)

Record FrontierEntry := mkFrontierEntry {
  fe_roadmap : string;
  fe_lane : string;
  fe_segment : Z;
  fe_repo : string;
  fe_key : string;
  fe_id : string;
  fe_title : string;
  fe_status : string;
  unmet_blocks : list string;
  unmet_gates : list string;
  startable : bool
}.
Record GateRank := mkGateRank {
  gr_kind : string; gr_slug : string; gr_rank : Z; gr_gates : list string }.
Record FrontierArtifact := mkFrontierArtifact {
  derived_at : string;
  entries : list FrontierEntry;
  gate_ranks : list GateRank
}.

Definition find_lane_head (artifact : FrontierArtifact) (roadmap lane : string) (segment : Z)
    : option FrontierEntry :=
  find (fun e => String.eqb (fe_roadmap e) roadmap && String.eqb (fe_lane e) lane
                 && (fe_segment e =? segment)%Z) (entries artifact).

Definition frontier_lane_head (step : ChainStep) (artifact : FrontierArtifact)
    : option FrontierEntry :=
  roadmap ← roadmap step;
  lane ← lane step;
  segment ← segment step;
  find_lane_head artifact roadmap lane segment.

Definition check_step_with_frontier_advice {S E} (step : ChainStep)
    (frontier : option FrontierArtifact)
    (resolve_depends_on : string -> string -> eff S E (list DependencyEdge))
    (is_edge_met : string -> string -> eff S E bool)
    : eff S E (result unit GateError * option FrontierEntry) :=
  gate_result <~ check_dependencies resolve_depends_on is_edge_met step ;;
  eret (gate_result, frontier ≫= frontier_lane_head step).

(** ** Policy switches of a chain *)

Inductive OnBail := StopChain | SkipDependents.
Inductive BailChannel := SessionChannel | NotificationChannel.
Inductive OnUnjudged := Proceed | BailUnjudged.

(** ** The checkpoint *)

Record CheckpointStep := mkCheckpointStep {
  cp_repo : string;
  cp_block_id : string;
  cp_index : Z;
  integrated : bool;
  cp_branch : option string
}.
Record Checkpoint := mkCheckpoint { cp_campaign_id : string; steps : list CheckpointStep }.
Definition Checkpoint_new (campaign_id : string) : Checkpoint := mkCheckpoint campaign_id [].
Definition push_step (c : Checkpoint) (s : CheckpointStep) : Checkpoint :=
  mkCheckpoint (cp_campaign_id c) (steps c ++ [s]).

Inductive ReadCheckpoint := Found (c : Checkpoint) | Absent.
Definition into_option (r : ReadCheckpoint) : option Checkpoint :=
  match r with Found c => Some c | Absent => None end.

Inductive CheckpointError :=
| CpSerialize (campaign_id source : string)
| CpDeserialize (path source : string)
| CpWriteTempFailed (path source : string)
| CpRenameFailed (path source : string)
| CpReadFailed (path source : string).

Definition checkpoint_error_to_string (e : CheckpointError) : string :=
  match e with
  | CpSerialize campaign_id source =>
      "failed to serialize checkpoint for campaign " +:+ campaign_id +:+ ": " +:+ source
  | CpDeserialize path source => "failed to parse checkpoint at " +:+ path +:+ ": " +:+ source
  | CpWriteTempFailed path source =>
      "failed to write checkpoint temp file " +:+ path +:+ ": " +:+ source
  | CpRenameFailed path source =>
      "failed to rename checkpoint temp file into " +:+ path +:+ ": " +:+ source
  | CpReadFailed path source => "failed to read checkpoint at " +:+ path +:+ ": " +:+ source
  end.

Definition checkpoint_path (roadmap_dir campaign_id : string) : string :=
  path_join roadmap_dir ("checkpoint-" +:+ campaign_id +:+ ".json").

(** A directory of files by path.  A write that fails, or that a crash cuts
    short, may leave part of its text; [fs::rename] happens or does not. *)
Inductive FsOp :=
| FsWrite (path body : string)
| FsTorn (path part : string)
| FsRename (from to : string).
Definition fs_apply (fs : gmap string string) (op : FsOp) : gmap string string :=
  match op with
  | FsWrite path body => <[path := body]> fs
  | FsTorn path part => <[path := part]> fs
  | FsRename from to =>
      match fs !! from with Some body => <[to := body]> (delete from fs) | None => fs end
  end.

(** How the file system answers a call: done, or an error that may have left
    something behind. *)
Inductive FsAnswer := FsDone | FsFailed (source : string) (left_behind : option string).

Definition fs_write (a : FsAnswer) (path body : string)
    : eff (gmap string string) FsOp (result unit string) := fun fs =>
  match a with
  | FsDone => (Ok tt, fs_apply fs (FsWrite path body), [FsWrite path body])
  | FsFailed source (Some part) => (Err source, fs_apply fs (FsTorn path part), [FsTorn path part])
  | FsFailed source None => (Err source, fs, [])
  end.
Definition fs_rename (a : FsAnswer) (from to : string)
    : eff (gmap string string) FsOp (result unit string) := fun fs =>
  match a with
  | FsDone => (Ok tt, fs_apply fs (FsRename from to), [FsRename from to])
  | FsFailed source _ => (Err source, fs, [])
  end.

Section CheckpointFile.
(** serde_json's text and its reader *)
Variable to_string_pretty : Checkpoint -> result string string.
Variable from_str : string -> result Checkpoint string.

(** [final_path.with_extension("json.tmp")]: the file name ends in [.json]. *)
Definition tmp_path (roadmap_dir campaign_id : string) : string :=
  checkpoint_path roadmap_dir campaign_id +:+ ".tmp".

(** [wrote] and [renamed]: how the file system answers the two calls. *)
Definition write_checkpoint (wrote renamed : FsAnswer) (roadmap_dir : string) (c : Checkpoint)
    : eff (gmap string string) FsOp (result unit CheckpointError) :=
  let final_path := checkpoint_path roadmap_dir (cp_campaign_id c) in
  let tmp := tmp_path roadmap_dir (cp_campaign_id c) in
  match to_string_pretty c with
  | Err source => eret (Err (CpSerialize (cp_campaign_id c) source))
  | Ok body =>
      r <~ fs_write wrote tmp body ;;
      match r with
      | Err source => eret (Err (CpWriteTempFailed tmp source))
      | Ok _ =>
          r <~ fs_rename renamed tmp final_path ;;
          match r with
          | Err source => eret (Err (CpRenameFailed final_path source))
          | Ok _ => eret (Ok tt)
          end
      end
  end.

(** [unreadable]: the file is there and cannot be read. *)
Definition read_checkpoint (unreadable : string -> option string) (roadmap_dir campaign_id : string)
    (fs : gmap string string) : result ReadCheckpoint CheckpointError :=
  let path := checkpoint_path roadmap_dir campaign_id in
  match fs !! path with
  | None => Ok Absent
  | Some body =>
      match unreadable path with
      | Some source => Err (CpReadFailed path source)
      | None =>
          match from_str body with
          | Ok c => Ok (Found c)
          | Err source => Err (CpDeserialize path source)
          end
      end
  end.
End CheckpointFile.

(** * Facts *)

(** ** Chain resolution *)

Lemma position_cmp_le x y :
  position_cmp x y <> Gt <->
  (raw_segment x < raw_segment y)%Z \/
  raw_segment x = raw_segment y /\ (raw_position x <= raw_position y)%Z.
Proof.
  unfold position_cmp.
  destruct (Z.compare_spec (raw_segment x) (raw_segment y)); [|naive_solver lia..].
  rewrite Z.compare_le_iff. naive_solver lia.
Qed.

#[export] Instance position_cmp_total : TotalCmp position_cmp.
Proof.
  split.
  - intros x y. unfold position_cmp. rewrite (Z.compare_antisym (raw_segment x) (raw_segment y)).
    destruct (Z.compare (raw_segment x) (raw_segment y)); simpl; [|done..].
    by rewrite Z.compare_antisym.
  - intros x y z. rewrite !position_cmp_le. lia.
Qed.

Lemma find_map_Some {A B} (f : A -> option B) l b :
  find_map f l = Some b ->
  exists l1 a l2, l = l1 ++ a :: l2 /\ f a = Some b /\ Forall (fun x => f x = None) l1.
Proof.
  unfold find_map. induction l as [|x l IH]; [done|]. simpl.
  destruct (f x) eqn:E; simpl; [intros [= <-]; by exists [], x, l|].
  intros (l1 & a & l2 & -> & Ha & Hl)%IH. exists (x :: l1), a, l2. by repeat constructor.
Qed.

Lemma find_map_None {A B} (f : A -> option B) l :
  find_map f l = None -> Forall (fun x => f x = None) l.
Proof.
  unfold find_map. induction l as [|x l IH]; [constructor|]. simpl.
  destruct (f x) eqn:E; [done|]. constructor; auto.
Qed.

(** The blocks of a lane, in file order. *)
Definition lane_blocks (roadmap lane : string) (blocks : list RawBlockPosition)
    : list RawBlockPosition :=
  filter (fun b => raw_roadmap b = roadmap /\ raw_lane b = lane) blocks.

(** A resolved lane is the lane.  When the lane-segments file reads and
    parses, the chain resolved for a (roadmap, lane) pair is exactly that
    lane's blocks, each once with its own fields, by ascending (segment,
    position); an unknown lane is an error; and the chain is refused just when
    the first HELD-UNTIL directive met in that order names an open block. *)
Theorem resolve_lane_chain_spec (read : result string string) parse path roadmap lane open raw blocks :
  read = Ok raw -> parse raw = Ok blocks ->
  let ours := lane_blocks roadmap lane blocks in
  match resolve_lane_chain read parse path roadmap lane open with
  | Ok chain => exists order, chain = map raw_to_step order /\ order ≡ₚ ours /\ order <> [] /\
      StronglySorted (cmp_le position_cmp) order /\
      (forall held, find_map (fun b => raw_directives b ≫= held_until) order = Some held ->
         open held = false)
  | Err (LaneNotFound r l) => r = roadmap /\ l = lane /\ ours = []
  | Err (Held r l repo held) => r = roadmap /\ l = lane /\ open held = true /\
      exists order first, order ≡ₚ ours /\ StronglySorted (cmp_le position_cmp) order /\
        head order = Some first /\ repo = raw_repo first /\
        find_map (fun b => raw_directives b ≫= held_until) order = Some held
  | Err _ => False
  end.
Proof.
  intros -> Hp ours. unfold resolve_lane_chain. rewrite Hp. fold ours.
  change (filter _ blocks) with ours.
  pose proof (sort_by_perm position_cmp ours) as Hperm.
  pose proof (sort_by_sorted position_cmp ours) as Hsort.
  destruct (sort_by position_cmp ours) as [|first rest] eqn:E.
  { split_and!; [done..|]. by apply sort_by_nil in E. }
  destruct (find_map _ (first :: rest)) as [held|] eqn:Ef.
  - destruct (open held) eqn:Eo.
    + split_and!; [done..|]. by exists (first :: rest), first.
    + exists (first :: rest). split_and!; [done..|]. intros h. by rewrite Ef; intros [= <-].
  - exists (first :: rest). split_and!; [done..|]. intros h. by rewrite Ef.
Qed.

(** ** Conductor caps *)

Definition dropped_key (d : DroppedCandidate) : string * string := (dropped_repo d, dropped_block_id d).

Lemma keep_repo_spec r l :
  (keep_repo r l).1 = filter (fun s => repo s = r) l /\
  map dropped_key (keep_repo r l).2 = map step_key (filter (fun s => repo s <> r) l).
Proof.
  induction l as [|s l [IH1 IH2]]; [done|]. simpl. destruct (keep_repo r l) as [kept gone].
  simpl in *. rewrite !filter_cons.
  destruct (String.eqb_spec (repo s) r) as [E|E]; simpl.
  - rewrite decide_True, decide_False by naive_solver. by rewrite IH1, IH2.
  - rewrite decide_False, decide_True by done. by rewrite IH1, IH2.
Qed.

(** The caps trim and account.  What the conductor may dispatch is a
    prefix of the proposed steps that lie in the first step's repository (of
    all of them when that cap is off), no longer than the block cap; and every
    proposed step that is not dispatched is recorded as dropped, once. *)
Theorem apply_conductor_caps_spec single max o :
  let o' := apply_conductor_caps single max o in
  (exists rest, (if single then match proposed_chain o with
                   | s :: _ => filter (fun x => repo x = repo s) (proposed_chain o)
                   | [] => [] end
                 else proposed_chain o) = proposed_chain o' ++ rest) /\
  (forall m, max = Some m -> (length (proposed_chain o') <= m)%nat) /\
  exists gone, dropped o' = dropped o ++ gone /\
    map step_key (proposed_chain o') ++ map dropped_key gone ≡ₚ map step_key (proposed_chain o).
Proof.
  unfold apply_conductor_caps.
  assert (H1 : exists gone, dropped (cap_single_repo single o) = dropped o ++ gone /\
    map step_key (proposed_chain (cap_single_repo single o)) ++ map dropped_key gone
      ≡ₚ map step_key (proposed_chain o) /\
    proposed_chain (cap_single_repo single o) =
      if single then match proposed_chain o with
        | s :: _ => filter (fun x => repo x = repo s) (proposed_chain o) | [] => [] end
      else proposed_chain o).
  { unfold cap_single_repo. destruct single; [destruct (proposed_chain o) as [|s l] eqn:E|];
      [exists []; by rewrite app_nil_r, ?E| |exists []; by rewrite !app_nil_r].
    destruct (keep_repo_spec (repo s) (s :: l)) as [K1 K2].
    destruct (keep_repo (repo s) (s :: l)) as [kept gone]. simpl in K1, K2. exists gone.
    split_and!; [done| |done]. rewrite K2. simpl proposed_chain. rewrite K1, <- map_app.
    apply Permutation_map, filter_app_complement. }
  destruct H1 as (gone & Hg & Hp & Hc). rewrite <- Hc.
  generalize dependent (cap_single_repo single o). intros o1 Hg Hp Hc. clear Hc.
  unfold cap_blocks. destruct max as [m|]; [destruct (Nat.ltb_spec m (length (proposed_chain o1)))|];
    simpl.
  - split_and!; [exists (drop m (proposed_chain o1)); by rewrite take_drop|intros ? [= <-];
      rewrite length_take; lia|].
    exists (gone ++ map (drop_over_cap (pretty (N.of_nat m))) (drop m (proposed_chain o1))).
    split; [by rewrite Hg, app_assoc|].
    rewrite map_app, map_map. change (fun x => dropped_key (drop_over_cap _ x)) with step_key.
    rewrite <- Hp. rewrite <- (take_drop m (proposed_chain o1)) at 3. rewrite map_app.
    rewrite <- app_assoc. f_equiv. apply Permutation_app_comm.
  - split_and!; [exists []; by rewrite app_nil_r|intros ? [= <-]; lia|by exists gone].
  - split_and!; [exists []; by rewrite app_nil_r|done|by exists gone].
Qed.

(** ** Permission profiles *)

Lemma decide_monotone p q a :
  (permission_profile_rank p <= permission_profile_rank q)%Z ->
  decide_permission p a = Permit -> decide_permission q a = Permit.
Proof. by destruct p, q, a; simpl; try lia. Qed.

Lemma resolve_profile_fail_closed config p e :
  resolve_permission_profile_from_config config = (p, Some e) -> p = Locked.
Proof.
  unfold resolve_permission_profile_from_config.
  repeat (case_match; simplify_eq; try done); by intros [= <- _].
Qed.

(** Permissions fail closed and only narrow.  Any defect of the
    [permission_profiles] table (unreadable file, no levels, no default, an
    unknown level, a [never_allowed] other than the one entry) resolves to
    [locked], which permits nothing; clearing an operator gate is denied at
    every profile; and a child step that starts at all runs under a profile
    that permits nothing its parent's denies. *)
Theorem permissions_narrow load profile error parent requested child :
  resolve_permission_profile load = (profile, error) ->
  resolve_child_permission_profile parent requested = Ok child ->
  (forall e, error = Some e -> forall a, decide_permission profile a = Deny) /\
  (forall p, decide_permission p ClearOperatorGate = Deny) /\
  (forall a, decide_permission child a = Permit -> decide_permission parent a = Permit) /\
  (error = None -> exists config id, load = Ok config /\
     default_level config = Some id /\ (level_of config id ≫= level_id_to_profile) = Some profile).
Proof.
  intros Hr Hc. split_and!.
  - intros e -> a. destruct load as [config|m]; simpl in Hr.
    + by apply resolve_profile_fail_closed in Hr as ->; destruct a.
    + injection Hr as <- _. by destruct a.
  - by intros [].
  - intros a. apply decide_monotone. unfold resolve_child_permission_profile in Hc.
    destruct requested as [q|]; [|by simplify_eq].
    destruct (Z.ltb_spec (permission_profile_rank parent) (permission_profile_rank q)); by simplify_eq.
  - intros ->. destruct load as [config|m]; [|discriminate Hr]. simpl in Hr.
    unfold resolve_permission_profile_from_config in Hr.
    repeat (case_match; try discriminate Hr). injection Hr as ->.
    eexists config, _. split_and!; [done|done|].
    match goal with H : level_of _ _ = _ |- _ => by rewrite H end.
Qed.

(** ** Gates *)

Section GateFacts.
Context {S E : Type}.
Variable resolve_depends_on : string -> string -> eff S E (list DependencyEdge).
Variable is_edge_met : string -> string -> eff S E bool.

(** [edge] was asked about and the answer was [b]. *)
Definition answered (b : bool) (edge : DependencyEdge) : Prop :=
  match edge with
  | EdgeBlock r i => exists s s' t, is_edge_met r i s = (b, s', t)
  | _ => b = false
  end.

Lemma check_edges_spec step edges s r s' t :
  check_edges is_edge_met step edges s = (r, s', t) ->
  match r with
  | Ok _ => Forall (answered true) edges
  | Err (UnmetDependency rp id e) => rp = repo step /\ id = block_id step /\
      exists pre post, edges = pre ++ e :: post /\ Forall (answered true) pre /\ answered false e
  end.
Proof.
  revert s t. induction edges as [|e edges IH]; intros s t H; simpl in H.
  { inv_eff H. constructor. }
  inv_eff H. rename a into met.
  assert (Ha : answered met e).
  { destruct e; simpl in *; [by eauto|inv_eff Hm; done..]. }
  destruct met.
  - apply IH in H. destruct r as [|[rp id e']]; [by constructor|].
    destruct H as (-> & -> & pre & post & -> & Hpre & He).
    split_and!; [done..|]. exists (e :: pre), post. by repeat constructor.
  - inv_eff H. split_and!; [done..|]. by exists [], edges.
Qed.

(** A step starts only past every gate.  The dependency check passes
    exactly through edges to blocks that were asked about and answered met; an
    operator, approval or external edge never passes; a refusal names the
    first edge that did not, in the order the edges were declared; and the
    frontier's advice changes nothing about the answer. *)
Theorem check_dependencies_spec step frontier s r head s' t :
  check_step_with_frontier_advice step frontier resolve_depends_on is_edge_met s = ((r, head), s', t) ->
  (exists t', check_dependencies resolve_depends_on is_edge_met step s = (r, s', t')) /\
  exists edges s1 t1, resolve_depends_on (repo step) (block_id step) s = (edges, s1, t1) /\
  match r with
  | Ok _ => Forall (fun e => exists rp id, e = EdgeBlock rp id /\ answered true e) edges
  | Err (UnmetDependency rp id e) => rp = repo step /\ id = block_id step /\
      exists pre post, edges = pre ++ e :: post /\ Forall (answered true) pre /\ answered false e
  end.
Proof.
  intros H. unfold check_step_with_frontier_advice in H. inv_eff H.
  apply eret_inv in H as (Heq & -> & ->). injection Heq as -> ->.
  split; [by eexists|]. unfold check_dependencies in Hm. inv_eff Hm.
  eexists _, _, _. split; [done|]. apply check_edges_spec in Hm. destruct a as [u|]; [|done].
  eapply Forall_impl; [exact Hm|]. intros [rp id| | |]; simpl; [by eauto|discriminate..].
Qed.

(** The permission gate refuses exactly the denied actions, having tried to
    author the operator gate first. *)
Lemma check_permission_gate_spec step action profile author s r s' t :
  @check_permission_gate S E step action profile author s = (r, s', t) ->
  match decide_permission profile action with
  | Permit => r = Ok tt /\ s' = s /\ t = []
  | Deny => exists e, r = Err e
  end.
Proof.
  unfold check_permission_gate. destruct (decide_permission profile action).
  - by intros [= <- <- <-].
  - intros H. inv_eff H. destruct a; inv_eff H; by eexists.
Qed.
End GateFacts.

(** ** The checkpoint file *)

Section CheckpointFacts.
Variable to_string_pretty : Checkpoint -> result string string.
Variable from_str : string -> result Checkpoint string.

(** What a crash (or a reader) may find: some operations happened, and the
    next one, if a write, may have left any part of its text. *)
Inductive crash_of : gmap string string -> list FsOp -> gmap string string -> Prop :=
| crash_now fs ops : crash_of fs ops fs
| crash_torn fs path body part ops :
    crash_of fs (FsWrite path body :: ops) (fs_apply fs (FsTorn path part))
| crash_later fs op ops fs' : crash_of (fs_apply fs op) ops fs' -> crash_of fs (op :: ops) fs'.

Lemma tmp_path_ne dir id : tmp_path dir id <> checkpoint_path dir id.
Proof.
  unfold tmp_path. intros H. apply (f_equal String.length) in H. revert H.
  generalize (checkpoint_path dir id). intros p. 
  assert (Hl : forall a b, String.length (a +:+ b) = (String.length a + String.length b)%nat)
    by (induction a; intros; simpl; auto).
  rewrite Hl. simpl. lia.
Qed.

Lemma crash_of_nil fs crashed : crash_of fs [] crashed -> crashed = fs.
Proof. by inversion 1. Qed.

Lemma crash_of_cons fs op ops crashed :
  crash_of fs (op :: ops) crashed ->
  crashed = fs \/ (exists path body part, op = FsWrite path body /\ crashed = <[path := part]> fs) \/
  crash_of (fs_apply fs op) ops crashed.
Proof. inversion 1; subst; eauto 10. Qed.

(** The checkpoint is never torn.  Whatever the file system answers and
    wherever a crash cuts the write, the checkpoint file holds either what it
    held before or the whole new text; a write that returns [Ok] leaves a file
    that reads back as the checkpoint it was given, provided serde_json reads
    its own text; and a file that is not there is no error. *)
Theorem checkpoint_atomic wrote renamed dir c fs r fs' ops crashed :
  write_checkpoint to_string_pretty wrote renamed dir c fs = (r, fs', ops) ->
  crash_of fs ops crashed ->
  let path := checkpoint_path dir (cp_campaign_id c) in
  (crashed !! path = fs !! path \/ exists body, to_string_pretty c = Ok body /\ crashed !! path = Some body) /\
  (forall e, r = Err e -> fs' !! path = fs !! path) /\
  (r = Ok tt -> (forall body, to_string_pretty c = Ok body -> from_str body = Ok c) ->
     forall unreadable, unreadable path = None ->
       read_checkpoint from_str unreadable dir (cp_campaign_id c) fs' = Ok (Found c)) /\
  (fs !! path = None -> forall unreadable,
     read_checkpoint from_str unreadable dir (cp_campaign_id c) fs = Ok Absent).
Proof.
  intros H Hcr path. assert (Hpath : path = checkpoint_path dir (cp_campaign_id c)) by done.
  pose proof (tmp_path_ne dir (cp_campaign_id c)) as Hne. fold path in Hne.
  assert (H4 : fs !! path = None -> forall unreadable,
    read_checkpoint from_str unreadable dir (cp_campaign_id c) fs = Ok Absent).
  { intros Hn u. unfold read_checkpoint. fold path. by rewrite Hn. }
  unfold write_checkpoint in H. destruct (to_string_pretty c) as [body|src] eqn:Eb.
  2: { inv_eff H. inversion Hcr; subst. split_and!; [by left|done|done|done]. }
  fold path in H. set (tmp := tmp_path dir (cp_campaign_id c)) in *. clearbody tmp path. inv_eff H.
  destruct wrote as [|src [part|]]; unfold fs_write in Hm; injection Hm as <- <- <-; cycle 1.
  { inv_eff H. apply crash_of_cons in Hcr as [->|[(?&?&?&?&_)|Hl]]; [|done|apply crash_of_nil in Hl as ->];
      simpl; rewrite ?lookup_insert_ne by done; by split_and!; [left| | |]. }
  { inv_eff H. apply crash_of_nil in Hcr as ->. split_and!; [by left|done..]. }
  inv_eff H.
  assert (Hcrash : crashed !! path = fs !! path \/ exists b, Ok body = (Ok b : result string string) /\ crashed !! path = Some b).
  { destruct renamed as [|src part]; unfold fs_rename in Hm; injection Hm as <- <- <-; inv_eff H;
      (apply crash_of_cons in Hcr as [->|[(?&?&?&[= <- <-]&->)|Hl]];
       [by left|left; by rewrite lookup_insert_ne|]).
    - apply crash_of_cons in Hl as [->|[(?&?&?&?&?)|Hl]]; [|done|apply crash_of_nil in Hl as ->];
        simpl; [left; by rewrite lookup_insert_ne|right; exists body].
      by rewrite lookup_insert_eq, lookup_insert_eq.
    - apply crash_of_nil in Hl as ->. left. simpl. by rewrite lookup_insert_ne. }
  split; [exact Hcrash|].
  destruct renamed as [|src part]; unfold fs_rename in Hm; injection Hm as <- <- <-; inv_eff H; simpl.
  - split_and!; [done| |done]. intros _ Hrt u Hu. unfold read_checkpoint. rewrite <- Hpath.
    rewrite lookup_insert_eq, lookup_insert_eq, Hu. by rewrite (Hrt body eq_refl).
  - split_and!; [intros; by rewrite lookup_insert_ne|done|done].
Qed.
End CheckpointFacts.
