(* ===== verification/Ledger.v ===== *)
(** * The verification ledger

    crates/engine-core/src/workflows/orchestration/ledger.rs: the entries a
    closing block contributes, the rules [LedgerEntry::compose] enforces on
    what a composer proposed, and the append into [verification-ledger.json].
    The file system is reached through programs of [Effect.v]; [from_str] and
    [to_string_pretty] are serde_json's. *)

From Stdlib Require Import Ascii.
From S2P Require Import Prelude Json Effect Chain.

Local Open Scope string_scope.
Local Open Scope list_scope.
Local Open Scope effect_scope.

Definition NONE_CALL_SITE : string := "NONE".

Inductive LedgerStatus := Untested | Tested | StatusPartial | StatusFailed | Blocked | StatusNotApplicable.
Definition ledger_status_wire (s : LedgerStatus) : string :=
  match s with
  | Untested => "untested" | Tested => "tested" | StatusPartial => "partial"
  | StatusFailed => "failed" | Blocked => "blocked" | StatusNotApplicable => "not_applicable"
  end.
Definition accepts_remediation (s : LedgerStatus) : bool :=
  match s with StatusFailed | Blocked => true | _ => false end.
Definition all_wire_values : list string :=
  map ledger_status_wire
    [Untested; Tested; StatusPartial; StatusFailed; Blocked; StatusNotApplicable].

Inductive Coverage := Covered | CovPartial | Uncovered.
#[export] Instance Coverage_eq_dec : EqDecision Coverage.
Proof. solve_decision. Defined.
Definition coverage_wire (c : Coverage) : string :=
  match c with Covered => "covered" | CovPartial => "partial" | Uncovered => "uncovered" end.

Inductive CrossRepoE2e := E2eExists | E2eNeeded | E2eNotApplicable.
Definition e2e_wire (e : CrossRepoE2e) : string :=
  match e with
  | E2eExists => "exists" | E2eNeeded => "needed" | E2eNotApplicable => "not-applicable"
  end.
Record CrossRepo := mkCrossRepo {
  dependent : bool; cr_repos : list string; e2e : CrossRepoE2e; cr_note : string }.
Record Remediation := mkRemediation { rem_block : string; opened_at : string; rem_note : string }.

Inductive LedgerEntryError :=
| LeEmptyField (field : string)
| CoveredWithNoTests
| MissingCallSite
| RemediationOnNonFailingEntry (status : LedgerStatus).

Record NewLedgerEntry := mkNewLedgerEntry {
  le_id : string;
  capability : string;
  le_status : LedgerStatus;
  env : string;
  how_to_verify : string;
  call_site : string;
  evidence : string;
  coverage : Coverage;
  covered_by : list string;
  cross_repo : option CrossRepo;
  remediation : option Remediation
}.
(** A [LedgerEntry]: the same fields and the block that closed. *)
Record LedgerEntry := mkLedgerEntry { le_block : string; le_args : NewLedgerEntry }.

Definition entry_validate (id block : string) (args : NewLedgerEntry) : result unit LedgerEntryError :=
  if String.eqb id "" then Err (LeEmptyField "id")
  else if String.eqb block "" then Err (LeEmptyField "block")
  else if String.eqb (env args) "" then Err (LeEmptyField "env")
  else if String.eqb (call_site args) "" then Err MissingCallSite
  else if bool_decide (coverage args = Covered) && bool_decide (covered_by args = [])
  then Err CoveredWithNoTests
  else if bool_decide (is_Some (remediation args)) && negb (accepts_remediation (le_status args))
  then Err (RemediationOnNonFailingEntry (le_status args))
  else Ok tt.

Definition LedgerEntry_new (block : string) (args : NewLedgerEntry)
    : result LedgerEntry LedgerEntryError :=
  match entry_validate (le_id args) block args with
  | Err e => Err e
  | Ok _ => Ok (mkLedgerEntry block args)
  end.

Definition strip_prefix (prefix s : string) : option string :=
  if String.prefix prefix s
  then Some (Stdlib.Strings.String.substring (String.length prefix)
               (String.length s - String.length prefix) s)
  else None.

Definition ledger_compose (repo block : string) (args : NewLedgerEntry)
    : result LedgerEntry LedgerEntryError :=
  let prefix := repo +:+ "-" in
  let bare_id := default (le_id args) (strip_prefix prefix (le_id args)) in
  LedgerEntry_new block
    (mkNewLedgerEntry (prefix +:+ bare_id) (capability args) Untested (env args)
       (how_to_verify args) (call_site args) (evidence args) (coverage args) (covered_by args)
       (cross_repo args) (remediation args)).

Definition dq : string := String (ascii_of_nat 34) EmptyString.
Definition lines_text (lines : list string) : string :=
  foldr (fun l rest => l +:+ String (ascii_of_nat 10) rest) EmptyString lines.
Definition render_ledger_md (roadmap repo lane : string) : string :=
  lines_text
  ["---";
   "type: Reference";
   "title: " +:+ dq +:+ repo +:+ " — " +:+ roadmap +:+ " run verification ledger" +:+ dq;
   "description: " +:+ dq +:+ "Thin wrapper over verification-ledger.json — the " +:+ repo +:+ " " +:+ lane +:+ " lane's per-capability record of what shipped and how to verify it cold." +:+ dq;
   "doc_id: " +:+ repo +:+ "-verification-ledger-" +:+ roadmap;
   "layer: [engine, factory]";
   "project: " +:+ repo;
   "status: active";
   "keywords: [verification, ledger, orchestration, " +:+ lane +:+ ", " +:+ roadmap +:+ "]";
   "related: [" +:+ repo +:+ "-orchestration-run-" +:+ roadmap +:+ "]";
   "roadmap: " +:+ roadmap;
   "lane: " +:+ lane;
   "---";
   EmptyString;
   "# Verification ledger — " +:+ repo +:+ ", `" +:+ lane +:+ "` lane, " +:+ roadmap;
   EmptyString;
   "The machine-readable record lives in [`verification-ledger.json`](verification-ledger.json).";
   EmptyString;
   "**One entry per capability, not per block.** Entries are appended **as each block closes**,";
   "never batched at the end, so a bailed run still leaves a usable ledger.";
   EmptyString;
   "**Every entry defaults to `status: " +:+ dq +:+ "untested" +:+ dq +:+ "`.** The chain that built a capability does not";
   "get to mark its own work verified; moving an entry to `tested` is the post-run verifier's job.";
   EmptyString;
   "`call_site` is mandatory and names the **production** caller, or the literal `NONE` — and `NONE`";
   "is a finding.";
   EmptyString;
   "Full field contract: `docs/sandbox/run-verification-ledger-prompt.md` in HQ.";
   EmptyString;
   "This ledger is appended to, never overwritten, by later waves against this same";
   "(repo x roadmap) directory."].

Inductive LedgerFileError := LfIo (e : string) | LfJson (e : string) | MalformedLedger (msg : string).

Section LedgerFile.
Context {X : Extern} {S E : Type}.

Definition cross_repo_to_json (c : CrossRepo) : value :=
  json_object [("dependent", jbool (dependent c)); ("repos", jarray (map jstr (cr_repos c)));
               ("e2e", jstr (e2e_wire (e2e c))); ("note", jstr (cr_note c))].
Definition remediation_to_json (r : Remediation) : value :=
  json_object [("block", jstr (rem_block r)); ("opened_at", jstr (opened_at r));
               ("note", jstr (rem_note r))].

Definition entry_to_json (e : LedgerEntry) : value :=
  let a := le_args e in
  let obj := json_object
    [("id", jstr (le_id a)); ("block", jstr (le_block e)); ("capability", jstr (capability a));
     ("status", jstr (ledger_status_wire (le_status a))); ("env", jstr (env a));
     ("how_to_verify", jstr (how_to_verify a)); ("call_site", jstr (call_site a));
     ("evidence", jstr (evidence a)); ("coverage", jstr (coverage_wire (coverage a)));
     ("covered_by", jarray (map jstr (covered_by a)))] in
  let obj := match cross_repo a with
             | Some c => jset obj "cross_repo" (cross_repo_to_json c) | None => obj end in
  match remediation a with
  | Some r => jset obj "remediation" (remediation_to_json r) | None => obj end.

Variable exists_path : string -> eff S E bool.
Variable create_dir_all : string -> eff S E (result unit string).
Variable read_to_string : string -> eff S E (result string string).
Variable write_file : string -> string -> eff S E (result unit string).
Variable from_str : string -> result value string.
Variable to_string_pretty : value -> result string string.

Definition ledger_path (dir : string) : string := path_join dir "verification-ledger.json".

Definition create_ledger_if_absent (dir roadmap repo lane created : string)
    : eff S E (result bool LedgerFileError) :=
  let json_path := ledger_path dir in
  there <~ exists_path json_path ;;
  if there : bool then eret (Ok false) else
  r <~ create_dir_all dir ;;
  match r with Err e => eret (Err (LfIo e)) | Ok _ =>
  let header := json_object
    [("roadmap", jstr roadmap); ("repo", jstr repo); ("lane", jstr lane);
     ("created", jstr created); ("status_values", jarray (map jstr all_wire_values));
     ("entries", jarray [])] in
  match to_string_pretty header with Err e => eret (Err (LfJson e)) | Ok rendered =>
  r <~ write_file json_path (rendered +:+ String (ascii_of_nat 10) EmptyString) ;;
  match r with Err e => eret (Err (LfIo e)) | Ok _ =>
  let md_path := path_join dir "verification-ledger.md" in
  there <~ exists_path md_path ;;
  if there : bool then eret (Ok true) else
  r <~ write_file md_path (render_ledger_md roadmap repo lane) ;;
  match r with Err e => eret (Err (LfIo e)) | Ok _ => eret (Ok true) end
  end end end.

(** The merge itself, on the parsed document. *)
Definition existing_ids (entries : list value) : list string :=
  omap (fun e => jget e "id" ≫= as_str) entries.
Definition fresh_entries (entries : list value) (new_entries : list LedgerEntry) : list LedgerEntry :=
  filter (fun e => le_id (le_args e) ∉ existing_ids entries) new_entries.
Definition merged (entries : list value) (new_entries : list LedgerEntry) : list value :=
  entries ++ map entry_to_json (fresh_entries entries new_entries).

Definition merge_append_entries (path : string) (new_entries : list LedgerEntry)
    : eff S E (result nat LedgerFileError) :=
  r <~ read_to_string path ;;
  match r with Err e => eret (Err (LfIo e)) | Ok raw =>
  match from_str raw with Err e => eret (Err (LfJson e)) | Ok doc =>
  match jget doc "entries" ≫= as_array with
  | None => eret (Err (MalformedLedger (path +:+ " has no `entries` array")))
  | Some entries =>
      let doc := jset doc "entries" (jarray (merged entries new_entries)) in
      let appended := length (fresh_entries entries new_entries) in
      match to_string_pretty doc with Err e => eret (Err (LfJson e)) | Ok rendered =>
      r <~ write_file path (rendered +:+ String (ascii_of_nat 10) EmptyString) ;;
      match r with Err e => eret (Err (LfIo e)) | Ok _ => eret (Ok appended) end
      end
  end end end.
End LedgerFile.

(** ** Facts *)

Lemma prefix_app p s : String.prefix p (p +:+ s) = true.
Proof. induction p as [|c p IH]; [by destruct s|]. simpl. by destruct (ascii_dec c c). Qed.

Lemma substring_all s : Stdlib.Strings.String.substring 0 (String.length s) s = s.
Proof. induction s as [|c s IH]; simpl; [done|by rewrite IH]. Qed.

Lemma strip_prefix_app p s : strip_prefix p (p +:+ s) = Some s.
Proof.
  unfold strip_prefix. rewrite prefix_app. f_equal.
  induction p as [|c p IH]; simpl; [by rewrite Nat.sub_0_r; apply substring_all|done].
Qed.

Lemma strip_prefix_Some p s r : strip_prefix p s = Some r -> s = p +:+ r.
Proof.
  unfold strip_prefix. destruct (String.prefix p s) eqn:E; [|done]. intros [= <-].
  revert s E. induction p as [|c p IH]; intros s E; simpl.
  - rewrite Nat.sub_0_r. by rewrite substring_all.
  - destruct s as [|c' s]; simpl in E; [done|]. destruct (ascii_dec c c') as [->|]; [|done].
    change (String c' s = String c' (p +:+ Stdlib.Strings.String.substring (String.length p)
      (String.length s - String.length p) s)). f_equal. by apply IH.
Qed.

(** The chain never marks its own work.  Whatever a composer proposed, the
    entry written for a closing block carries that block's id, the status
    [untested], no remediation, and an id with the repository's prefix exactly
    once, so composing again changes nothing; it names an environment and a
    call site, and tests when it claims coverage.  A refusal names one of
    these defects. *)
Theorem ledger_compose_spec repo block args :
  match ledger_compose repo block args with
  | Ok e => le_block e = block /\ le_status (le_args e) = Untested /\
      remediation (le_args e) = None /\
      (exists bare, le_id (le_args e) = (repo +:+ "-") +:+ bare /\
         (le_id args = bare /\ strip_prefix (repo +:+ "-") bare = None \/ le_id args = (repo +:+ "-") +:+ bare)) /\
      ledger_compose repo block (le_args e) = Ok e /\
      env (le_args e) <> "" /\ call_site (le_args e) <> "" /\
      (coverage (le_args e) = Covered -> covered_by (le_args e) <> [])
  | Err (LeEmptyField f) => f = "block" /\ block = "" \/ f = "env" /\ env args = ""
  | Err MissingCallSite => call_site args = ""
  | Err CoveredWithNoTests => coverage args = Covered /\ covered_by args = []
  | Err (RemediationOnNonFailingEntry s) => s = Untested /\ is_Some (remediation args)
  end.
Proof.
  unfold ledger_compose, LedgerEntry_new, entry_validate. simpl.
  set (prefix := repo +:+ "-").
  set (bare := default (le_id args) (strip_prefix prefix (le_id args))).
  assert (Hid : String.eqb (prefix +:+ bare) "" = false).
  { subst prefix. by destruct repo. }
  assert (Hb : le_id args = bare /\ strip_prefix prefix bare = None \/ le_id args = prefix +:+ bare).
  { subst bare. destruct (strip_prefix prefix (le_id args)) eqn:E; simpl; [|by left].
    right. by apply strip_prefix_Some. }
  rewrite Hid.
  destruct (String.eqb_spec block ""); [by left|].
  destruct (String.eqb_spec (env args) ""); [by right|].
  destruct (String.eqb_spec (call_site args) ""); [done|].
  destruct (bool_decide (coverage args = Covered) && bool_decide (covered_by args = [])) eqn:Ec.
  { apply andb_true_iff in Ec. by rewrite !bool_decide_eq_true in Ec. }
  rewrite andb_true_r. destruct (bool_decide (is_Some (remediation args))) eqn:Hr; simpl;
    [by apply bool_decide_eq_true in Hr|].
  apply bool_decide_eq_false in Hr.
  assert (Hrem : remediation args = None) by (destruct (remediation args); [destruct Hr; by eexists|done]).
  rewrite strip_prefix_app. simpl. rewrite Hid, Hrem.
  repeat match goal with H : ?x <> "" |- _ => rewrite (proj2 (String.eqb_neq x "") H) end.
  rewrite Ec. split_and!; try done; [by exists bare|].
  intros Hc Hn. rewrite Hc, Hn in Ec. done.
Qed.

Section LedgerFacts.
Context {X : Extern} {XL : ExternLaws X} {S E : Type}.
Variable read_to_string : string -> eff S E (result string string).
Variable write_file : string -> string -> eff S E (result unit string).
Variable from_str : string -> result value string.
Variable to_string_pretty : value -> result string string.

Lemma jget_entry_id e : jget (entry_to_json e) "id" ≫= as_str = Some (le_id (le_args e)).
Proof.
  unfold entry_to_json. assert (H : forall kvs, kind (json_object kvs) = KObject) by apply kind_json_object.
  destruct (cross_repo _), (remediation _); rewrite ?jget_set by auto using kind_set; simpl;
    rewrite ?jget_json_object; simpl; by rewrite as_str_str.
Qed.

Lemma existing_ids_merged entries new :
  existing_ids (merged entries new) =
    existing_ids entries ++ map (fun e => le_id (le_args e)) (fresh_entries entries new).
Proof.
  unfold existing_ids, merged. rewrite omap_app. f_equal.
  induction (fresh_entries entries new) as [|e l IH]; [done|].
  change (match (jget (entry_to_json e) "id" ≫= as_str) with
          | Some y => y :: omap (fun e => jget e "id" ≫= as_str) (map entry_to_json l)
          | None => omap (fun e => jget e "id" ≫= as_str) (map entry_to_json l) end =
    le_id (le_args e) :: map (fun e => le_id (le_args e)) l).
  by rewrite jget_entry_id, IH.
Qed.

Lemma merged_has entries new e :
  e ∈ new -> le_id (le_args e) ∈ existing_ids (merged entries new).
Proof.
  intros He. rewrite existing_ids_merged, elem_of_app.
  destruct (decide (le_id (le_args e) ∈ existing_ids entries)); [by left|right].
  apply list_elem_of_In, in_map_iff. exists e. split; [done|].
  apply list_elem_of_In, list_elem_of_filter. done.
Qed.

Lemma merged_idempotent entries new : fresh_entries (merged entries new) new = [].
Proof.
  destruct (fresh_entries (merged entries new) new) as [|e l] eqn:H; [done|].
  assert (He : e ∈ fresh_entries (merged entries new) new) by (rewrite H; left).
  apply list_elem_of_filter in He as [Hn He]. destruct Hn. by apply merged_has.
Qed.

(** The ledger is appended to.  A merge that succeeds wrote the document
    it read with nothing changed but the [entries] array, which keeps all it
    held in place and gains, in order, the candidates whose id was not there;
    every candidate is then present, so that merging the same candidates again
    would append nothing. *)
Theorem ledger_merge_appends path new s n s' t :
  merge_append_entries read_to_string write_file from_str to_string_pretty path new s = (Ok n, s', t) ->
  exists raw doc entries rendered s1 t1 t2, read_to_string path s = (Ok raw, s1, t1) /\
    from_str raw = Ok doc /\ jget doc "entries" ≫= as_array = Some entries /\
    to_string_pretty (jset doc "entries" (jarray (merged entries new))) = Ok rendered /\
    write_file path (rendered +:+ String (ascii_of_nat 10) EmptyString) s1 = (Ok tt, s', t2) /\
    t = t1 ++ t2 /\
    take (length entries) (merged entries new) = entries /\
    length (merged entries new) = (length entries + n)%nat /\
    (forall e, e ∈ new -> le_id (le_args e) ∈ existing_ids (merged entries new)) /\
    merged (merged entries new) new = merged entries new.
Proof.
  unfold merge_append_entries. intros H.
  apply ebind_inv in H as (r & s1 & t1 & t2 & Hr & H & ->).
  destruct r as [raw|]; [|by injection H].
  destruct (from_str raw) as [doc|] eqn:Ef; [|by injection H].
  destruct (jget doc "entries" ≫= as_array) as [entries|] eqn:Ee; [|by injection H].
  destruct (to_string_pretty _) as [rendered|] eqn:Et; [|by injection H].
  apply ebind_inv in H as (r & s2 & t3 & t4 & Hw & H & ->).
  destruct r as [[]|]; [|by injection H]. apply eret_inv in H as ([= ->] & -> & ->).
  exists raw, doc, entries, rendered, s1, t1, t3. rewrite app_nil_r. split_and!; try done.
  - unfold merged. by rewrite take_app_length.
  - unfold merged. by rewrite length_app, length_map.
  - intros e. apply merged_has.
  - unfold merged at 1. rewrite merged_idempotent. apply app_nil_r.
Qed.
End LedgerFacts.
