(* ===== verification/Execute.v ===== *)
(** * Running one step of a chain

    - [Dispatcher]: crates/engine-core/src/dispatch.rs
    - [RepoRegistry]: crates/engine-core/src/repo_registry.rs
    - [FlowInvocation], [execute_step], [step_spend], the child events:
      crates/engine-core/src/workflows/orchestration/execute.rs
    - [execute_dispatch_step]:
      crates/engine-core/src/workflows/orchestration/dispatch.rs

    A block step runs through the injected [FlowRunner], a program over the
    world; a dispatch step runs a registered workflow through [Workflow.run],
    with fuel: [None] is a walk that did not end within it. *)

From S2P Require Import Prelude Json Contract Budget Markers Node Workflow Effect Chain.

Local Open Scope string_scope.
Local Open Scope list_scope.
Local Open Scope effect_scope.

(** ** The repository registry *)

Inductive RepoRegistryError :=
| RrConfigLoad (message : string)
| UnknownSlug (slug : string) (known : list string)
| UnusableEntry (slug reason : string).

Definition repo_registry_error_to_string (e : RepoRegistryError) : string :=
  match e with
  | RrConfigLoad message => "repo registry: could not load brain.toml: " +:+ message
  | UnknownSlug slug [] =>
      "unknown repo slug '" +:+ slug +:+ "' (the repo registry has no known slugs)"
  | UnknownSlug slug known =>
      "unknown repo slug '" +:+ slug +:+ "' (known slugs: " +:+ String.concat ", " known +:+ ")"
  | UnusableEntry slug reason => "repo slug '" +:+ slug +:+ "' is not resolvable: " +:+ reason
  end.

Record RepoEntry := mkRepoEntry {
  re_slug : string; repo_path : string; re_non_vaulted_planning : bool }.

(** The entries are a [BTreeMap]: [known_slugs] enumerates it in key order. *)
Record RepoRegistry := mkRepoRegistry {
  brain_root : string;
  rr_entries : gmap string string;
  non_vaulted_planning : gset string
}.

Definition known_slugs (r : RepoRegistry) : list string :=
  sort_by String.compare (map_to_list (rr_entries r)).*1.

(** [admitted]: the candidate lies within the root and is a directory, as the
    file system answers. *)
Definition from_brain_root (load : result (list RepoEntry) string) (root : string)
    (allowlist : option (gset string)) (admitted : string -> bool)
    : result RepoRegistry RepoRegistryError :=
  match load with
  | Err message => Err (RrConfigLoad message)
  | Ok repos =>
      Ok (foldl (fun r e =>
        if negb (default true ((fun a => bool_decide (re_slug e ∈ a)) <$> allowlist)) then r
        else
          let candidate := path_join root (repo_path e) in
          if admitted candidate
          then mkRepoRegistry root (<[re_slug e := candidate]> (rr_entries r))
                 (if re_non_vaulted_planning e
                  then {[ re_slug e ]} ∪ non_vaulted_planning r else non_vaulted_planning r)
          else r) (mkRepoRegistry root ∅ ∅) repos)
  end.

Definition registry_resolve (r : RepoRegistry) (slug : string) : result string RepoRegistryError :=
  match rr_entries r !! slug with
  | Some path => Ok path
  | None => Err (UnknownSlug slug (known_slugs r))
  end.

(** ** The dispatcher *)

Inductive DispatchError :=
| UnknownWorkflowType (workflow_type : string)
| PolicyResolutionFailed (message : string).

Section Execute.
Context {X : Extern} {R : Runtime} {HO : HashOrder}.

Definition WorkflowFactory : Type := value -> result Workflow string.
Record Dispatcher := mkDispatcher {
  workflow_registry : gmap string WorkflowFactory;
  schema_registry : gmap string WorkflowSchema
}.
Definition Dispatcher_new : Dispatcher := mkDispatcher ∅ ∅.
Definition dispatcher_register (d : Dispatcher) (s : WorkflowSchema) (factory : WorkflowFactory)
    : Dispatcher :=
  mkDispatcher (<[workflow_type s := factory]> (workflow_registry d))
               (<[workflow_type s := s]> (schema_registry d)).
Definition dispatch_with_event (d : Dispatcher) (workflow_type : string) (event : value)
    : result Workflow DispatchError :=
  match workflow_registry d !! workflow_type with
  | None => Err (UnknownWorkflowType workflow_type)
  | Some factory =>
      match factory event with
      | Ok wf => Ok wf
      | Err message => Err (PolicyResolutionFailed message)
      end
  end.
Definition resolve_schema (d : Dispatcher) (workflow_type : string)
    : result WorkflowSchema DispatchError :=
  match schema_registry d !! workflow_type with
  | Some s => Ok s
  | None => Err (UnknownWorkflowType workflow_type)
  end.
Definition is_registered (d : Dispatcher) (workflow_type : string) : bool :=
  bool_decide (is_Some (workflow_registry d !! workflow_type))
  && bool_decide (is_Some (schema_registry d !! workflow_type)).

(** ** Block steps *)

Record FlowInvocation := mkFlowInvocation {
  fi_repo : string;
  fi_repo_path : string;
  fi_block_id : string;
  fi_use_worktree : bool;
  fi_auto_pr : bool;
  fi_campaign_id : uuid;
  fi_engine : EngineKind;
  fi_cancellation_token : option flag_ref;
  fi_budget : option Budget;
  fi_permission_profile : PermissionProfile;
  fi_child_sdlc_flow_policy : option value;
  fi_child_sdlc_task_policy : option value
}.

Definition with_policy (event : value) (policy : option value) : value :=
  match policy with Some p => jset event "policy" p | None => event end.

Definition sdlc_flow_event (i : FlowInvocation) : value :=
  with_policy (json_object
    [("repo", jstr (fi_repo i)); ("spec_slug", jstr (fi_block_id i));
     ("use_worktree", jbool (fi_use_worktree i)); ("auto_pr", jbool (fi_auto_pr i));
     ("campaign_id", uuid_to_json (fi_campaign_id i));
     ("permission_profile", jstr (profile_wire (fi_permission_profile i)))])
    (fi_child_sdlc_flow_policy i).

Definition sdlc_task_event (i : FlowInvocation) : value :=
  with_policy (json_object
    [("repo", jstr (fi_repo i)); ("spec_slug", jstr (fi_block_id i));
     ("use_worktree", jbool (fi_use_worktree i));
     ("campaign_id", uuid_to_json (fi_campaign_id i));
     ("permission_profile", jstr (profile_wire (fi_permission_profile i)))])
    (fi_child_sdlc_task_policy i).

Inductive ExecuteError :=
| WrongStepKind (repo block_id : string) (kind : StepKind)
| RepoResolutionFailed (repo block_id : string) (source : RepoRegistryError)
| UnsupportedEngine (repo block_id : string) (engine : EngineKind)
| StepFailed (repo block_id : string) (source : WorkflowError)
| ChildFailed (repo block_id failing_node : string)
| ProfileWidening (repo block_id : string) (source : ProfileWideningError).

Definition execute_error_to_string (e : ExecuteError) : string :=
  match e with
  | WrongStepKind repo block_id kind =>
      "step '" +:+ block_id +:+ "' (repo '" +:+ repo +:+ "') has kind " +:+ step_kind_debug kind
      +:+ ", not Block — execute_step only runs block steps; a dispatch step must be routed to the dispatch node instead"
  | RepoResolutionFailed repo block_id source =>
      "block '" +:+ block_id +:+ "' cannot start: repo '" +:+ repo +:+ "' did not resolve: "
      +:+ repo_registry_error_to_string source
  | UnsupportedEngine repo block_id engine =>
      "block '" +:+ block_id +:+ "' (repo '" +:+ repo +:+ "') declares engine '"
      +:+ engine_to_string engine +:+ "', which this workflow cannot run yet"
  | StepFailed repo block_id source =>
      "block '" +:+ block_id +:+ "' (repo '" +:+ repo +:+ "') failed: " +:+ we_message source
  | ChildFailed repo block_id failing_node =>
      "block '" +:+ block_id +:+ "' (repo '" +:+ repo +:+ "') failed: node '"
      +:+ failing_node +:+ "' did not succeed"
  | ProfileWidening repo block_id source =>
      "block '" +:+ block_id +:+ "' (repo '" +:+ repo +:+ "') cannot start: "
      +:+ widening_to_string source
  end.

Record ExecutionOutcome := mkExecutionOutcome {
  eo_repo : string;
  eo_repo_path : string;
  eo_block_id : string;
  eo_engine : EngineKind;
  eo_ctx : TaskContext;
  eo_use_worktree : bool;
  eo_auto_pr : bool;
  eo_campaign_id : uuid;
  eo_cost_usd : option f64;
  eo_total_tokens : Z
}.

Definition step_spend (ctx : TaskContext) : option f64 * Z :=
  let ledger := from_context ctx in
  let any_cost_reported :=
    existsb (fun identity => bool_decide (is_Some (node_cost_usd ctx identity)))
      (hm_keys (nodes ctx)) in
  (if any_cost_reported then Some (total_cost_usd ledger) else None, total_tokens ledger).

(** [node_runs.iter().find(|(_, run)| run.status == Failed)] *)
Definition first_failed_node (ctx : TaskContext) : option string :=
  fst <$> find (fun kv => bool_decide (status kv.2 = Failed)) (hm_iter (node_runs ctx)).

Definition failing_node_of (ctx : TaskContext) : string :=
  match first_failed_node ctx with
  | Some name => name
  | None =>
      match (v ← jget (metadata ctx) FAILURE_METADATA_KEY; e ← jget v "error"; as_str e) with
      | Some reason => "<no failing node -- " +:+ reason +:+ ">"
      | None => "<unknown>"
      end
  end.

Section ExecuteStep.
Context {E : Type}.
Variable resolve_engine : string -> string -> eff W E EngineKind.
Variable registry : RepoRegistry.
Variable run_flow : FlowInvocation -> eff W E (result TaskContext WorkflowError).
(** [fs::canonicalize], [None] on an error *)
Variable canonicalize : string -> eff W E (option string).

Definition execute_step (step : ChainStep) (default_use_worktree default_auto_pr : bool)
    (campaign_id : uuid) (cancellation_token : option flag_ref) (budget : option Budget)
    (parent_profile : PermissionProfile) (requested_profile : option PermissionProfile)
    (child_sdlc_flow_policy child_sdlc_task_policy : option value)
    : eff W E (result ExecutionOutcome ExecuteError) :=
  if negb (bool_decide (step_kind step = Block))
  then eret (Err (WrongStepKind (repo step) (block_id step) (step_kind step)))
  else
  match resolve_child_permission_profile parent_profile requested_profile with
  | Err source => eret (Err (ProfileWidening (repo step) (block_id step) source))
  | Ok permission_profile =>
  match registry_resolve registry (repo step) with
  | Err source => eret (Err (RepoResolutionFailed (repo step) (block_id step) source))
  | Ok repo_path =>
      engine <~ resolve_engine (repo step) (block_id step) ;;
      use_worktree <~
        (if String.eqb (repo step) "base-template" then eret true
         else
           canonical_repo_path <~ canonicalize repo_path ;;
           canonical_brain_root <~ canonicalize (brain_root registry) ;;
           eret (resolve_isolation (repo step) canonical_repo_path canonical_brain_root
                   default_use_worktree)) ;;
      let invocation := mkFlowInvocation (repo step) repo_path (block_id step) use_worktree
        default_auto_pr campaign_id engine cancellation_token budget permission_profile
        child_sdlc_flow_policy child_sdlc_task_policy in
      r <~ run_flow invocation ;;
      match r with
      | Err source => eret (Err (StepFailed (repo step) (block_id step) source))
      | Ok ctx =>
          if String.eqb (derive_terminal_status ctx) "failed"
          then eret (Err (ChildFailed (repo step) (block_id step) (failing_node_of ctx)))
          else
            let '(cost_usd, total_tokens) := step_spend ctx in
            eret (Ok (mkExecutionOutcome (repo step) repo_path (block_id step) engine ctx
                        use_worktree default_auto_pr campaign_id cost_usd total_tokens))
      end
  end
  end.
End ExecuteStep.

(** ** Dispatch steps *)

Definition workflow_key (step : ChainStep) : string := block_id step.

Record DispatchOutcome := mkDispatchOutcome {
  do_workflow_key : string;
  do_block_id : string;
  do_ctx : TaskContext
}.

Inductive DispatchStepError :=
| UnknownWorkflowKey (block_id workflow_key : string)
| DsPolicyResolutionFailed (block_id workflow_key message : string)
| DsStepFailed (block_id workflow_key : string) (source : WorkflowError)
| DsChildFailed (block_id workflow_key failing_node : string).

Definition dispatch_step_error_to_string (e : DispatchStepError) : string :=
  match e with
  | UnknownWorkflowKey block_id workflow_key =>
      "dispatch step '" +:+ block_id +:+ "' names workflow key '" +:+ workflow_key
      +:+ "', which is not registered — stopping the chain rather than falling through to a block invocation"
  | DsPolicyResolutionFailed block_id workflow_key message =>
      "dispatch step '" +:+ block_id +:+ "' (workflow key '" +:+ workflow_key
      +:+ "') failed to resolve policy: " +:+ message
  | DsStepFailed block_id workflow_key source =>
      "dispatch step '" +:+ block_id +:+ "' (workflow key '" +:+ workflow_key +:+ "') failed: "
      +:+ we_message source
  | DsChildFailed block_id workflow_key failing_node =>
      "dispatch step '" +:+ block_id +:+ "' (workflow key '" +:+ workflow_key
      +:+ "') failed: node '" +:+ failing_node +:+ "' did not succeed"
  end.

(** [workflow.run(event, on_progress)]: the walk's own events stay inside. *)
Definition call_workflow {E} (on_progress : TaskContext -> W -> W) (wf : Workflow) (fuel : nat)
    (event : value) : eff W E (option (result TaskContext WorkflowError)) := fun w =>
  let '(r, w', _) := run on_progress wf fuel event w in (r, w', []).

Definition execute_dispatch_step {E} (step : ChainStep) (dispatcher : Dispatcher) (event : value)
    (on_progress : TaskContext -> W -> W) (fuel : nat)
    : eff W E (option (result DispatchOutcome DispatchStepError)) :=
  let key := workflow_key step in
  match dispatch_with_event dispatcher key event with
  | Err (UnknownWorkflowType workflow_key) =>
      eret (Some (Err (UnknownWorkflowKey (block_id step) workflow_key)))
  | Err (PolicyResolutionFailed message) =>
      eret (Some (Err (DsPolicyResolutionFailed (block_id step) key message)))
  | Ok workflow =>
      r <~ call_workflow on_progress workflow fuel event ;;
      match r with
      | None => eret None
      | Some (Err source) => eret (Some (Err (DsStepFailed (block_id step) key source)))
      | Some (Ok ctx) =>
          if String.eqb (derive_terminal_status ctx) "failed"
          then eret (Some (Err (DsChildFailed (block_id step) key
                                  (default "<unknown>" (first_failed_node ctx)))))
          else eret (Some (Ok (mkDispatchOutcome key (block_id step) ctx)))
      end
  end.
End Execute.

(** ** Facts *)

(** What the loop over the [repos] entries keeps for a slug: the last entry of
    that slug that the allowlist and the file system admit. *)
Definition admits (allowlist : option (gset string)) (admitted : string -> bool) (root : string)
    (e : RepoEntry) : Prop :=
  (forall a, allowlist = Some a -> re_slug e ∈ a) /\ admitted (path_join root (repo_path e)) = true.

#[export] Instance admits_dec allowlist admitted root e : Decision (admits allowlist admitted root e).
Proof.
  unfold admits. apply and_dec; [|apply _].
  destruct allowlist as [a|]; [|by left].
  destruct (decide (re_slug e ∈ a)); [left; by intros ? [= <-]|right; intros H; by apply n, H].
Defined.

Lemma from_brain_root_lookup load root allowlist admitted r repos slug :
  load = Ok repos -> from_brain_root load root allowlist admitted = Ok r ->
  rr_entries r !! slug =
    last (map (fun e => path_join root (repo_path e))
      (filter (fun e => re_slug e = slug /\ admits allowlist admitted root e) repos)).
Proof.
  intros -> [= <-]. induction repos as [|e repos IH] using rev_ind; [done|].
  rewrite foldl_snoc, filter_app, map_app. set (r := foldl _ _ repos) in *. rewrite filter_cons, filter_nil.
  assert (Ha : negb (default true ((fun a => bool_decide (re_slug e ∈ a)) <$> allowlist)) = false <->
               forall a, allowlist = Some a -> re_slug e ∈ a).
  { rewrite negb_false_iff. destruct allowlist as [a|]; simpl; [|naive_solver].
    rewrite bool_decide_eq_true. naive_solver. }
  destruct (negb _) eqn:En; [|destruct (admitted _) eqn:Ead].
  - rewrite decide_False by (intros [_ [H _]]; apply Ha in H; congruence).
    by rewrite app_nil_r.
  - simpl. rewrite lookup_insert. case_decide as Hs.
    + rewrite decide_True by (split; [done|]; split; [by apply Ha|done]).
      simpl. by rewrite last_snoc.
    + rewrite decide_False by naive_solver. by rewrite app_nil_r.
  - rewrite decide_False by (intros [_ [_ H]]; congruence). by rewrite app_nil_r.
Qed.

(** What a repository slug resolves to.  A registry built from brain.toml
    resolves a slug exactly to the path of the last entry of that slug that the
    allowlist names (when there is one) and that is a directory inside the
    brain root; every other slug, an unusable entry included, is an unknown
    slug. *)
Theorem registry_resolves load root allowlist admitted r repos slug :
  load = Ok repos -> from_brain_root load root allowlist admitted = Ok r ->
  brain_root r = root /\
  match last (filter (fun e => re_slug e = slug /\ admits allowlist admitted root e) repos) with
  | Some e => registry_resolve r slug = Ok (path_join root (repo_path e))
  | None => registry_resolve r slug = Err (UnknownSlug slug (known_slugs r))
  end.
Proof.
  intros Hl Hf. split.
  { subst. injection Hf as <-. clear. induction repos as [|e repos IH] using rev_ind; [done|].
    rewrite foldl_snoc. destruct (negb _); [done|]. by destruct (admitted _). }
  unfold registry_resolve. rewrite (from_brain_root_lookup _ _ _ _ _ _ slug Hl Hf).
  rewrite (fmap_last (fun e => path_join root (repo_path e))). by destruct (last _).
Qed.

Section ExecuteFacts.
Context {X : Extern} {R : Runtime} {HO : HashOrder} {E : Type}.
Variable resolve_engine : string -> string -> eff W E EngineKind.
Variable registry : RepoRegistry.
Variable run_flow : FlowInvocation -> eff W E (result TaskContext WorkflowError).
Variable canonicalize : string -> eff W E (option string).

(** What executing a block step means.  The child runs at most once and
    only for a block step whose repository resolves and whose profile does not
    widen its parent's; it runs in that repository, under that profile, in a
    worktree always for base-template; and the step succeeds exactly when the
    child returned a context whose terminal status is not [failed], with that
    context's own spend. *)
Theorem execute_step_spec step worktree auto_pr campaign token budget parent requested pf pt s r s' t :
  execute_step resolve_engine registry run_flow canonicalize step worktree auto_pr campaign token
    budget parent requested pf pt s = (r, s', t) ->
  match r with
  | Ok o => exists i s1 t1 t2, step_kind step = Block /\
      resolve_child_permission_profile parent requested = Ok (fi_permission_profile i) /\
      registry_resolve registry (repo step) = Ok (fi_repo_path i) /\
      fi_repo i = repo step /\ fi_block_id i = block_id step /\ fi_campaign_id i = campaign /\
      fi_cancellation_token i = token /\ fi_budget i = budget /\
      (repo step = "base-template" -> fi_use_worktree i = true) /\
      run_flow i s1 = (Ok (eo_ctx o), s', t2) /\ t = t1 ++ t2 /\
      derive_terminal_status (eo_ctx o) <> "failed" /\
      eo_repo o = repo step /\ eo_block_id o = block_id step /\ eo_repo_path o = fi_repo_path i /\
      eo_engine o = fi_engine i /\ (eo_cost_usd o, eo_total_tokens o) = step_spend (eo_ctx o)
  | Err (WrongStepKind _ _ k) => k = step_kind step /\ k <> Block /\ s' = s /\ t = []
  | Err (ProfileWidening _ _ e) => resolve_child_permission_profile parent requested = Err e /\
      s' = s /\ t = []
  | Err (RepoResolutionFailed _ _ e) => registry_resolve registry (repo step) = Err e /\
      s' = s /\ t = []
  | Err (UnsupportedEngine _ _ _) => False
  | Err (StepFailed _ _ e) => exists i s1 t1 t2, run_flow i s1 = (Err e, s', t2) /\ t = t1 ++ t2
  | Err (ChildFailed _ _ n) => exists i s1 ctx t1 t2, run_flow i s1 = (Ok ctx, s', t2) /\
      t = t1 ++ t2 /\ derive_terminal_status ctx = "failed" /\ n = failing_node_of ctx
  end.
Proof.
  unfold execute_step. case_bool_decide as Hk; simpl; [|by intros [= <- <- <-]].
  destruct (resolve_child_permission_profile parent requested) as [prof|e] eqn:Hp;
    [|by intros [= <- <- <-]].
  destruct (registry_resolve registry (repo step)) as [path|e] eqn:Hr; [|by intros [= <- <- <-]].
  intros H. apply ebind_inv in H as (engine & s0 & t0 & ? & _ & H & ->).
  apply ebind_inv in H as (wt & s1 & t1 & ? & Hm0 & H & ->).
  assert (Hwt : repo step = "base-template" -> wt = true).
  { intros Hb. rewrite Hb in Hm0. by injection Hm0 as <- _ _. }
  apply ebind_inv in H as (child & s2 & t2 & ? & Hrun & H & ->).
  destruct child as [ctx|e]; [|inv_eff H].
  2: { eexists _, _, (t0 ++ t1), t2. split; [exact Hrun|]. by rewrite app_nil_r, app_assoc. }
  destruct (String.eqb_spec (derive_terminal_status ctx) "failed") as [Hd|Hd].
  - inv_eff H. eexists _, _, ctx, (t0 ++ t1), t2. split; [exact Hrun|].
    by rewrite app_nil_r, app_assoc.
  - destruct (step_spend ctx) as [cost tokens] eqn:Hs. inv_eff H. eexists _, _, (t0 ++ t1), t2.
    split_and!; try exact Hrun; try done. by rewrite app_nil_r, app_assoc.
Qed.
End ExecuteFacts.
