(* ===== verification/Inbox.v ===== *)
(** * Triage of the messages a chain drains

    crates/engine-core/src/workflows/orchestration/inbox_triage.rs: what a chain
    does with an EDGE_RELEASED, FINDING or QUERY envelope found in its inbox at
    a block boundary.  The judgment call behind a FINDING or QUERY is a model
    call, here the answer of [judge_message]; sending a reply and completing
    the message is [send_reply_and_complete], which names where the reply was
    written. *)

From S2P Require Import Prelude Json Utf8 Effect Escalate Chain.

Local Open Scope string_scope.
Local Open Scope list_scope.
Local Open Scope effect_scope.

Inductive MessageKind := EdgeReleased | LeaseRelease | Finding | Query | Rendezvous.
#[export] Instance MessageKind_eq_dec : EqDecision MessageKind.
Proof. solve_decision. Defined.

(** The fields of [okf_core::MessageRecord] the chain reads. *)
Record MessageRecord := mkMessageRecord {
  message_id : string;
  m_kind : MessageKind;
  sender_repo : string;
  sender_lane : string;
  subject_repo : string;
  subject_block : option string;
  m_body : string
}.

Inductive Verdict := Accepted | VerifiedFalse | Deferred | NotMine.
Inductive Action := ActionNone | Escalate.
#[export] Instance Verdict_eq_dec : EqDecision Verdict.
Proof. solve_decision. Defined.
#[export] Instance Action_eq_dec : EqDecision Action.
Proof. solve_decision. Defined.

Definition as_wire_str (v : Verdict) : string :=
  match v with
  | Accepted => "ACCEPTED" | VerifiedFalse => "VERIFIED-FALSE"
  | Deferred => "DEFERRED" | NotMine => "NOT-MINE"
  end.

Record InboxVerdict := mkInboxVerdict { verdict : Verdict; action : Action; reason : string }.

Inductive JudgmentError :=
| JudgmentTimeout | JudgmentCliError | JudgmentNoStructuredResult | JudgmentSchemaViolation.
Definition judgment_error_kind (e : JudgmentError) : string :=
  match e with
  | JudgmentTimeout => "timeout"
  | JudgmentCliError => "cli_error"
  | JudgmentNoStructuredResult => "no_structured_result"
  | JudgmentSchemaViolation => "schema_violation"
  end.

Record CapViolation := mkCapViolation { cv_field : string; cv_max : N; cv_actual : N }.

Inductive TriageOutcome :=
| TriageCapViolation (first : CapViolation) (rest : list CapViolation)
| TriageJudgmentFailed (error : JudgmentError)
| TriageJudged (v : InboxVerdict).

(** ** EDGE_RELEASED *)

Record EdgeReleaseOutcome := mkEdgeReleaseOutcome {
  requeue_step : option ChainStep;
  release_verdict : Verdict
}.
Definition reply_body (o : EdgeReleaseOutcome) : string :=
  "ACK " +:+ as_wire_str (release_verdict o).

Section Inbox.
Context {X : Extern} {RX : RegexCrate} {S E : Type}.
Variable resolve_depends_on : string -> string -> eff S E (list DependencyEdge).
Variable is_edge_met : string -> string -> eff S E bool.

(** [skipped_steps.iter().find(|step| resolve_depends_on(..).iter().any(..))] *)
Fixpoint find_dependent (released_repo released_block : string) (skipped : list ChainStep)
    : eff S E (option ChainStep) :=
  match skipped with
  | [] => eret None
  | step :: skipped =>
      edges <~ resolve_depends_on (repo step) (block_id step) ;;
      if existsb (fun e => bool_decide (e = EdgeBlock released_repo released_block)) edges
      then eret (Some step)
      else find_dependent released_repo released_block skipped
  end.

Definition handle_edge_released (message : MessageRecord) (skipped_steps : list ChainStep)
    : eff S E EdgeReleaseOutcome :=
  match subject_block message with
  | None => eret (mkEdgeReleaseOutcome None NotMine)
  | Some released_block =>
      target <~ find_dependent (subject_repo message) released_block skipped_steps ;;
      match target with
      | None => eret (mkEdgeReleaseOutcome None NotMine)
      | Some step =>
          r <~ check_dependencies resolve_depends_on is_edge_met step ;;
          match r with
          | Ok _ => eret (mkEdgeReleaseOutcome (Some step) Accepted)
          | Err _ => eret (mkEdgeReleaseOutcome None VerifiedFalse)
          end
      end
  end.

(** ** FINDING and QUERY *)

Record FindingEscalationInput := mkFindingEscalationInput {
  fi_ts_utc : string;
  fi_esc_repo : string;
  fi_lane : string;
  fi_block : option string;
  fi_gate_id : string;
  fi_summary : string;
  fi_verified_by : string;
  fi_durable_home : value;
  fi_verified_at_sha : string
}.

Definition compose_finding_escalation (input : FindingEscalationInput)
    : result EscalationRecord EscalationError :=
  match EscalationOption_new "ack" "Seen" with Err e => Err e | Ok ack =>
  match EscalationOption_new "later" "Later" with Err e => Err e | Ok later =>
  match notification [ack; later] with Err e => Err e | Ok channel =>
    EscalationRecord_new (mkNewEscalation (fi_ts_utc input) (fi_esc_repo input) (fi_lane input)
      FindingKind Advisory channel (fi_block input) (fi_gate_id input) (fi_summary input)
      (fi_verified_by input) (fi_durable_home input) (fi_verified_at_sha input) None None)
  end end end.

Record Composed := mkComposed {
  c_body : string;
  c_verdict : option Verdict;
  c_action : option Action;
  c_error_kind : option string;
  c_escalation : option EscalationRecord
}.

Record EscalationContext := mkEscalationContext { ec_roadmap : string; ec_verified_at_sha : string }.
Variable now_iso : eff S E string.

Definition newline : string := String (Ascii.ascii_of_nat 10) "".

Definition finding_escalation_input (message : MessageRecord) (reason : string)
    (ec : EscalationContext) (lane now : string) : FindingEscalationInput :=
  mkFindingEscalationInput now (subject_repo message) lane (subject_block message)
    (ec_roadmap ec +:+ "/" +:+ subject_repo message +:+ "/"
     +:+ default "(repo)" (subject_block message))
    (chars_take SUMMARY_MAX_CHARS reason)
    ("inbox_triage FINDING " +:+ message_id message +:+ newline +:+ reason)
    (json_object [("channel", jstr "lane-log");
                  ("ref", jstr ("reply to message " +:+ message_id message))])
    (ec_verified_at_sha ec).

Definition should_escalate (message : MessageRecord) (v : InboxVerdict) : bool :=
  bool_decide (m_kind message = Finding)
  && bool_decide (verdict v = Accepted) && bool_decide (action v = Escalate).

Definition compose_finding_or_query_reply (message : MessageRecord) (triage : TriageOutcome)
    (ec : EscalationContext) (lane : string) : eff S E Composed :=
  match triage with
  | TriageCapViolation first _ =>
      eret (mkComposed ("ACK DEFERRED (envelope field '" +:+ cv_field first +:+ "' exceeds its "
                  +:+ pretty.pretty (cv_max first) +:+ "-char cap, actual "
                  +:+ pretty.pretty (cv_actual first) +:+ " chars)")
        None None (Some "cap_violation") None)
  | TriageJudgmentFailed error =>
      eret (mkComposed ("ACK DEFERRED (judgment " +:+ judgment_error_kind error +:+ ")")
        None None (Some (judgment_error_kind error)) None)
  | TriageJudged v =>
      escalation <~
        (if should_escalate message v then
           now <~ now_iso ;;
           eret (match compose_finding_escalation
                         (finding_escalation_input message (reason v) ec lane now) with
                 | Ok r => Some r | Err _ => None end)
         else eret None) ;;
      eret (mkComposed ("ACK " +:+ as_wire_str (verdict v) +:+ " — " +:+ reason v)
        (Some (verdict v)) (Some (action v)) None escalation)
  end.

Record ProcessedMessage := mkProcessedMessage {
  pm_message_id : string;
  pm_kind : MessageKind;
  pm_sender_repo : string;
  pm_sender_lane : string;
  pm_verdict : option Verdict;
  pm_action : option Action;
  pm_error_kind : option string;
  pm_reply_path : option string
}.

Variable judge_message : MessageRecord -> string -> eff S E TriageOutcome.
Variable send_reply_and_complete : MessageRecord -> string -> eff S E (option string).

Definition process_drained_message (lane : string) (message : MessageRecord)
    (skipped_steps : list ChainStep) (chain_status_summary : string) (ec : EscalationContext)
    : eff S E (ProcessedMessage * option ChainStep * option EscalationRecord) :=
  match m_kind message with
  | EdgeReleased =>
      outcome <~ handle_edge_released message skipped_steps ;;
      reply_path <~ send_reply_and_complete message (reply_body outcome) ;;
      eret (mkProcessedMessage (message_id message) EdgeReleased (sender_repo message)
              (sender_lane message) (Some (release_verdict outcome)) None None reply_path,
            requeue_step outcome, None)
  | Finding | Query =>
      triage <~ judge_message message chain_status_summary ;;
      composed <~ compose_finding_or_query_reply message triage ec lane ;;
      reply_path <~ send_reply_and_complete message (c_body composed) ;;
      eret (mkProcessedMessage (message_id message) (m_kind message) (sender_repo message)
              (sender_lane message) (c_verdict composed) (c_action composed)
              (c_error_kind composed) reply_path,
            None, c_escalation composed)
  | Rendezvous | LeaseRelease =>
      eret (mkProcessedMessage (message_id message) (m_kind message) (sender_repo message)
              (sender_lane message) None None None None, None, None)
  end.

(** ** Facts *)

Lemma find_dependent_spec rr rb skipped s o s' t :
  find_dependent rr rb skipped s = (o, s', t) ->
  match o with
  | Some step => step ∈ skipped /\ exists s1 edges s2 t1,
      resolve_depends_on (repo step) (block_id step) s1 = (edges, s2, t1) /\ EdgeBlock rr rb ∈ edges
  | None => Forall (fun step => exists s1 edges s2 t1,
      resolve_depends_on (repo step) (block_id step) s1 = (edges, s2, t1) /\ EdgeBlock rr rb ∉ edges)
      skipped
  end.
Proof.
  revert s t. induction skipped as [|step l IH]; intros s t H; simpl in H; [by inv_eff H|].
  apply ebind_inv in H as (edges & s1 & t1 & t2 & Hd & H & ->).
  assert (Hex : existsb (fun e => bool_decide (e = EdgeBlock rr rb)) edges = true <->
                EdgeBlock rr rb ∈ edges).
  { rewrite existsb_exists. setoid_rewrite bool_decide_eq_true. setoid_rewrite <- list_elem_of_In.
    naive_solver. }
  destruct (existsb _ edges).
  - inv_eff H. split; [left|]. exists s, edges, s1, t1. naive_solver.
  - apply IH in H. destruct o as [step'|].
    + destruct H as [H1 H2]. by split; [right|].
    + constructor; [|done]. exists s, edges, s1, t1. split; [done|]. by intros ?%Hex.
Qed.

Lemma compose_finding_or_query_reply_spec message triage ec lane s c s' t :
  compose_finding_or_query_reply message triage ec lane s = (c, s', t) ->
  forall r, c_escalation c = Some r ->
    m_kind message = Finding /\ c_verdict c = Some Accepted /\ c_action c = Some Escalate /\
    exists v now, triage = TriageJudged v /\
      compose_finding_escalation (finding_escalation_input message (reason v) ec lane now) = Ok r.
Proof.
  unfold compose_finding_or_query_reply. destruct triage as [f rest|e|v]; intros H.
  1, 2: by apply eret_inv in H as (-> & -> & ->).
  apply ebind_inv in H as (esc & s1 & t1 & t2 & He & H & ->). apply eret_inv in H as (-> & -> & ->).
  intros r Hr. simpl in Hr. subst esc. destruct (should_escalate message v) eqn:Es; [|by apply eret_inv in He as [? _]].
  unfold should_escalate in Es. rewrite !andb_true_iff, !bool_decide_eq_true in Es.
  destruct Es as [[H1 H2] H3]. apply ebind_inv in He as (now & s2 & t3 & t4 & _ & He & ->).
  apply eret_inv in He as (He & -> & ->). destruct (compose_finding_escalation _) eqn:Ec; [|done].
  injection He as ->. simpl. rewrite H2, H3. split_and!; try done. by exists v, now.
Qed.

Lemma handle_edge_released_spec message skipped s o s' t step :
  handle_edge_released message skipped s = (o, s', t) -> requeue_step o = Some step ->
  release_verdict o = Accepted /\ step ∈ skipped /\
  (exists block s1 edges s2 t1, subject_block message = Some block /\
     resolve_depends_on (repo step) (block_id step) s1 = (edges, s2, t1) /\
     EdgeBlock (subject_repo message) block ∈ edges) /\
  exists s1 s2 t1, check_dependencies resolve_depends_on is_edge_met step s1 = (Ok tt, s2, t1).
Proof.
  unfold handle_edge_released. intros H Hstep.
  destruct (subject_block message) as [block|] eqn:Eb; [|by apply eret_inv in H as (-> & -> & ->)].
  apply ebind_inv in H as (target & sa & ta & tb & Hf & H & ->).
  apply find_dependent_spec in Hf. destruct target as [step'|]; [|by apply eret_inv in H as (-> & -> & ->)].
  apply ebind_inv in H as (r & sb & tc & td & Hc & H & ->).
  destruct r as [[]|]; apply eret_inv in H as (-> & -> & ->); simpl in Hstep; [|done].
  injection Hstep as ->. destruct Hf as [Hin (s3 & edges & s4 & t3' & He & Hed)].
  split_and!; [done..| |by eauto]. by exists block, s3, edges, s4, t3'.
Qed.

(** Only a step the chain has skipped comes back. *)
Lemma process_requeue_skipped lane message skipped summary ec s pm step esc s' t :
  process_drained_message lane message skipped summary ec s = ((pm, Some step, esc), s', t) ->
  step ∈ skipped.
Proof.
  unfold process_drained_message. intros H. destruct (m_kind message).
  2, 5: by apply eret_inv in H as ([=] & _).
  2, 3: apply ebind_inv in H as (? & ? & ? & ? & _ & H & ->);
    apply ebind_inv in H as (? & ? & ? & ? & _ & H & ->);
    apply ebind_inv in H as (? & ? & ? & ? & _ & H & ->); by apply eret_inv in H as ([=] & _).
  apply ebind_inv in H as (o & s1 & t1 & t2 & Ho & H & ->).
  apply ebind_inv in H as (path & s2 & t3 & t4 & Hr & H & ->).
  apply eret_inv in H as ([= -> Hstep ->] & -> & ->).
  by apply (handle_edge_released_spec _ _ _ _ _ _ step Ho).
Qed.

(** What an inbox message can do to a chain.  Every message of the three
    kinds is answered once, with the verdict in the reply; only an
    EDGE_RELEASED can put a step back, only one the chain has skipped that
    declares the released block as a dependency, and only when all its
    dependencies were found met; only a FINDING judged accepted and worth
    escalating pages anyone, with a record that passed every check of an
    escalation. *)
Theorem process_drained_message_spec lane message skipped summary ec s pm requeue esc s' t :
  process_drained_message lane message skipped summary ec s = ((pm, requeue, esc), s', t) ->
  pm_message_id pm = message_id message /\ pm_kind pm = m_kind message /\
  match m_kind message with
  | EdgeReleased | Finding | Query => exists body s1 t1,
      send_reply_and_complete message body s1 = (pm_reply_path pm, s', t1)
  | Rendezvous | LeaseRelease => pm_reply_path pm = None /\ s' = s /\ t = []
  end /\
  (forall step, requeue = Some step ->
     m_kind message = EdgeReleased /\ step ∈ skipped /\ pm_verdict pm = Some Accepted /\
     (exists block s1 edges s2 t1, subject_block message = Some block /\
        resolve_depends_on (repo step) (block_id step) s1 = (edges, s2, t1) /\
        EdgeBlock (subject_repo message) block ∈ edges) /\
     exists s1 s2 t1, check_dependencies resolve_depends_on is_edge_met step s1 = (Ok tt, s2, t1)) /\
  (forall r, esc = Some r -> m_kind message = Finding /\ pm_verdict pm = Some Accepted /\
     pm_action pm = Some Escalate /\ in_schema (er_args r) /\ esc_repo (er_args r) = subject_repo message).
Proof.
  unfold process_drained_message. intros H. destruct (m_kind message) eqn:Ek.
  2, 5: by apply eret_inv in H as ([= -> -> ->] & -> & ->).
  2, 3: apply ebind_inv in H as (triage & s1 & t1 & t2 & Hj & H & ->);
    apply ebind_inv in H as (composed & s1' & t1' & t2' & Hc & H & ->);
    apply ebind_inv in H as (path & s2 & t3 & t4 & Hr & H & ->);
    apply eret_inv in H as ([= -> -> ->] & -> & ->); split_and!; try done; [by eauto|];
    intros r Hesc;
    destruct (compose_finding_or_query_reply_spec _ _ _ _ _ _ _ _ Hc r Hesc)
      as (Hk & Hv & Ha & v & now & -> & Hrec);
    rewrite Hk in Ek; try done; split_and!; try done;
    unfold compose_finding_escalation in Hrec; simpl in Hrec;
    pose proof (EscalationRecord_new_args _ _ Hrec) as [-> _];
    first [apply EscalationRecord_new_ok; by exists r|done].
  apply ebind_inv in H as (o & s1 & t1 & t2 & Ho & H & ->).
  apply ebind_inv in H as (path & s2 & t3 & t4 & Hr & H & ->).
  apply eret_inv in H as ([= -> -> ->] & -> & ->). split_and!; [done|done|by eauto| |done].
  intros step Hstep. destruct (handle_edge_released_spec _ _ _ _ _ _ step Ho Hstep) as (Hv & H1 & H2 & H3).
  split_and!; try done. simpl. by rewrite Hv.
Qed.
End Inbox.
