(* ===== verification/Preflight.v ===== *)
(** * Preflight: checking a block's claims before it runs

    crates/engine-core/src/workflows/orchestration/preflight.rs and
    [read_block_record] of repo_registry.rs.  A model reads a block's record
    and proposes claims, each with a command that would confirm it; what it
    proposes is text from outside, so each command is screened before it is
    spawned.  [validate_argv_exact] gives the screen as a grammar, and
    [preflight_runs_screened] says that nothing else is ever spawned. *)

From Stdlib Require Import Ascii.
From S2P Require Import Prelude Json Contract Budget Markers Node Workflow Utf8 Text Effect Escalate Chain Execute Inbox.

Local Open Scope string_scope.
Local Open Scope list_scope.
Local Open Scope effect_scope.

(** ** Claims and their results *)

Inductive ClaimExpect := ExitZero | ExitNonzero | StdoutContains.
Record JudgedClaim := mkJudgedClaim {
  jc_claim : string;
  jc_load_bearing : bool;
  jc_argv : list string;
  expect : ClaimExpect;
  needle : option string
}.

Inductive ClaimVerdict := ClaimHeld | ClaimFalse | ClaimUnverifiable.
#[export] Instance ClaimVerdict_eq_dec : EqDecision ClaimVerdict.
Proof. solve_decision. Defined.
Record ClaimResult := mkClaimResult {
  claim : string;
  cl_argv : list string;
  load_bearing : bool;
  exit_code : option Z;
  stdout_bytes : Z;
  cl_verdict : ClaimVerdict;
  cl_reason : option string
}.
Inductive PreflightOutcome :=
| Judged (claims : list ClaimResult)
| Unjudged (error_kind : string)
| SkippedNoRecord
| Disabled.
Record BlockPreflight := mkBlockPreflight {
  bp_repo : string;
  bp_block_id : string;
  outcome : PreflightOutcome;
  bp_claims : list ClaimResult;
  claims_dropped : Z
}.

(** ** The screen *)

Definition slash : ascii := "/"%char.
Definition backslash : ascii := ascii_of_nat 92.

Definition one_of (l : list string) (s : string) : bool := bool_decide (s ∈ l).

Definition COMPILED_PROGRAMS : list string := ["rg"; "git"; "test"; "ls"].
Definition MAX_CAPTURED_STDOUT_BYTES : nat := Z.to_nat 65536.

(** No [ParentDir] among [Path::components]: no segment is [..]. *)
Definition is_safe_positional (arg : string) : bool :=
  negb (String.prefix "/" arg) && negb (one_of (split_at slash arg) "..").

Definition RG_STANDALONE : list string := ["-n"; "-l"; "-c"; "-i"; "-F"; "-w"; "-q"; "-L"; "--files"].
Definition RG_VALUE_FLAGS : list string := ["-e"; "-g"; "--glob"; "-t"; "--type"].

Fixpoint validate_rg (args : list string) : result unit string :=
  match args with
  | [] => Ok tt
  | arg :: rest =>
      if String.eqb arg "--" then validate_rg rest
      else if String.prefix "-" arg then
        if one_of RG_STANDALONE arg then validate_rg rest
        else if one_of RG_VALUE_FLAGS arg then
          match rest with
          | [] => Err ("rg flag '" +:+ arg +:+ "' requires a value")
          | _ :: rest => validate_rg rest
          end
        else match split_once "="%char arg with
             | Some (flag, _) =>
                 if one_of RG_VALUE_FLAGS flag then validate_rg rest
                 else Err ("unsupported rg flag '" +:+ arg +:+ "'")
             | None => Err ("unsupported rg flag '" +:+ arg +:+ "'")
             end
      else if is_safe_positional arg then validate_rg rest
      else Err ("unsafe rg positional argument '" +:+ arg +:+ "'")
  end.

Definition GIT_SUBCOMMANDS : list string := ["log"; "show"; "rev-parse"; "ls-files"].
Definition GIT_REFUSALS : list string := ["--output"; "-p"; "--patch"; "--ext-diff"; "--textconv"].
Definition GIT_EXACT : list string := ["--oneline"; "--name-only"; "--name-status"; "--"].
Definition GIT_PREFIXES : list string :=
  ["--format="; "--pretty="; "--since="; "--until="; "--author="; "--grep="].

Definition git_flag (arg tail : string) : result unit string :=
  if existsb (fun f => String.eqb arg f || String.prefix (f +:+ "=") arg) GIT_REFUSALS
  then Err ("git flag '" +:+ arg +:+ "' is explicitly refused")
  else if one_of GIT_EXACT arg then Ok tt
  else if existsb (fun p => String.prefix p arg) GIT_PREFIXES then Ok tt
  else if String.eqb arg "-n" then Ok tt
  else if negb (String.eqb tail "") && str_forallb is_ascii_digit tail then Ok tt
  else Err ("unsupported git flag '" +:+ arg +:+ "'").

Fixpoint validate_git_args (args : list string) : result unit string :=
  match args with
  | [] => Ok tt
  | arg :: rest =>
      match (match arg with
             | String "-"%char tail => git_flag arg tail
             | _ => if is_safe_positional arg then Ok tt
                    else Err ("unsafe git positional argument '" +:+ arg +:+ "'")
             end) with
      | Ok _ => validate_git_args rest
      | Err e => Err e
      end
  end.

Definition validate_git (args : list string) : result unit string :=
  match args with
  | [] => Err "git requires a subcommand"
  | subcommand :: rest =>
      if String.prefix "-" subcommand
      then Err ("git global option '" +:+ subcommand +:+ "' before the subcommand is refused")
      else if negb (one_of GIT_SUBCOMMANDS subcommand)
      then Err ("unsupported git subcommand '" +:+ subcommand +:+ "'")
      else validate_git_args rest
  end.

Definition TEST_FLAGS : list string := ["-e"; "-f"; "-d"; "-s"].
Definition validate_test (args : list string) : result unit string :=
  match args with
  | [flag; path] =>
      if negb (one_of TEST_FLAGS flag) then Err ("unsupported test flag '" +:+ flag +:+ "'")
      else if is_safe_positional path then Ok tt
      else Err ("unsafe test positional argument '" +:+ path +:+ "'")
  | _ => Err "test requires exactly one flag and one path"
  end.

Fixpoint validate_ls (args : list string) : result unit string :=
  match args with
  | [] => Ok tt
  | arg :: rest =>
      if one_of ["-1"; "-a"] arg then validate_ls rest
      else if String.prefix "-" arg then Err ("unsupported ls flag '" +:+ arg +:+ "'")
      else if is_safe_positional arg then validate_ls rest
      else Err ("unsafe ls positional argument '" +:+ arg +:+ "'")
  end.

(** Intersects the compiled-in table with the override. *)
Definition allowed_programs (programs_override : option (list string)) : list string :=
  match programs_override with
  | None => COMPILED_PROGRAMS
  | Some narrow => filter (fun p => p ∈ narrow) COMPILED_PROGRAMS
  end.

Definition validate_argv (argv : list string) (programs_override : option (list string))
    : result unit string :=
  match argv with
  | [] => Err "empty argv"
  | program :: rest =>
      if contains_char slash program || contains_char backslash program
      then Err ("program '" +:+ program +:+ "' must be a bare name, not a path")
      else if negb (one_of (allowed_programs programs_override) program)
      then Err ("program '" +:+ program +:+ "' is not in the allowed set")
      else if String.eqb program "rg" then validate_rg rest
      else if String.eqb program "git" then validate_git rest
      else if String.eqb program "test" then validate_test rest
      else if String.eqb program "ls" then validate_ls rest
      else Err ("program '" +:+ program +:+ "' has no validator")
  end.

(** ** The runner *)

(** What is handed to the operating system: no shell, a cleared environment. *)
Record CommandLine := mkCommandLine {
  cmd_program : string;
  cmd_args : list string;
  cmd_dir : string;
  cmd_env : list (string * string)
}.
(** How it ends: by itself with a code (none when a signal killed it) and its
    standard output, killed at the deadline, or never started. *)
Inductive SpawnAnswer :=
| Exited (code : option Z) (stdout : string)
| DeadlineHit
| CouldNotSpawn (source : string).
Inductive PreflightEvent := Spawned (c : CommandLine).

Record PreflightConfig := mkPreflightConfig {
  max_claims : nat;
  slice_max_bytes : Z;
  programs : option (list string);
  command_timeout_ms : Z
}.

Section Runner.
Context {X : Extern} {S : Type}.
(** the operating system, and the environment of this process *)
Variable spawn : CommandLine -> Z -> S -> SpawnAnswer * S.
Variable env_var : string -> S -> option string * S.
Variable read_to_string : string -> S -> result string string * S.
Variable from_str : string -> result value string.
Variable to_string_pretty : value -> result string string.
(** [JudgmentNode::judge] on the named slices, each with its byte cap *)
Variable judge : list (string * string * Z) -> S -> result (list JudgedClaim) JudgmentError * S.

Definition PF (A : Type) : Type := eff S PreflightEvent A.

Definition command_line (argv : list string) (repo_root path_env home_env : string)
    : option CommandLine :=
  match argv with
  | [] => None
  | program :: rest =>
      Some (mkCommandLine program
        ((if String.eqb program "rg" then ["--no-config"] else []) ++ rest) repo_root
        [("PATH", path_env); ("HOME", home_env); ("GIT_CONFIG_NOSYSTEM", "1");
         ("GIT_CONFIG_GLOBAL", "/dev/null")])
  end.

(** [None] where [argv[0]] would panic. *)
Definition execute_argv (argv : list string) (repo_root : string) (timeout : Z)
    : PF (option (result (option Z * string) string)) :=
  path_env <~ esilent (env_var "PATH") ;;
  home_env <~ esilent (env_var "HOME") ;;
  match command_line argv repo_root (default "" path_env) (default "" home_env) with
  | None => eret None
  | Some c =>
      elog (Spawned c) ;~
      a <~ esilent (spawn c timeout) ;;
      eret (Some (match a with
            | Exited code stdout => Ok (code, String.substring 0 MAX_CAPTURED_STDOUT_BYTES stdout)
            | DeadlineHit => Err "timeout"
            | CouldNotSpawn source =>
                Err ("could not spawn '" +:+ cmd_program c +:+ "': " +:+ source)
            end))
  end.

Definition claim_verdict (c : JudgedClaim) (code : option Z) (stdout : string) : ClaimVerdict :=
  let held :=
    match expect c with
    | ExitZero => bool_decide (code = Some 0%Z)
    | ExitNonzero => match code with Some n => negb (n =? 0)%Z | None => false end
    | StdoutContains =>
        let needle := default "" (needle c) in
        negb (String.eqb needle "") && occurs needle stdout
    end in
  if held then ClaimHeld else ClaimFalse.

Definition unverifiable (c : JudgedClaim) (reason : string) : ClaimResult :=
  mkClaimResult (jc_claim c) (jc_argv c) (jc_load_bearing c) None 0 ClaimUnverifiable (Some reason).

Definition run_claim (c : JudgedClaim) (repo_root : string) (programs_override : option (list string))
    (timeout : Z) : PF ClaimResult :=
  match validate_argv (jc_argv c) programs_override with
  | Err reason => eret (unverifiable c reason)
  | Ok _ =>
      r <~ execute_argv (jc_argv c) repo_root timeout ;;
      eret (match r with
            | Some (Ok (code, stdout)) =>
                mkClaimResult (jc_claim c) (jc_argv c) (jc_load_bearing c) code
                  (Z.of_nat (String.length stdout)) (claim_verdict c code stdout) None
            | Some (Err reason) => unverifiable c reason
            | None => unverifiable c "empty argv"
            end)
  end.

(** [iter().map(|claim| run_claim(..)).collect()] *)
Fixpoint run_claims (cs : list JudgedClaim) (repo_root : string)
    (programs_override : option (list string)) (timeout : Z) : PF (list ClaimResult) :=
  match cs with
  | [] => eret []
  | c :: cs =>
      r <~ run_claim c repo_root programs_override timeout ;;
      rs <~ run_claims cs repo_root programs_override timeout ;;
      eret (r :: rs)
  end.

Definition error_kind_of (e : JudgmentError) : string :=
  match e with
  | JudgmentTimeout => "timeout"
  | JudgmentCliError => "cli_error"
  | JudgmentNoStructuredResult => "no_structured_result"
  | JudgmentSchemaViolation => "schema_violation"
  end.

Definition slice_text (record : value) (k : string) : string :=
  match jget record k with
  | None => ""
  | Some v =>
      match kind v, as_str v with
      | KString, Some text => text
      | _, _ => match to_string_pretty v with Ok s => s | Err _ => "" end
      end
  end.

Definition read_block_record (registry : RepoRegistry) (repo block_id : string)
    : PF (option value) :=
  match registry_resolve registry repo with
  | Err _ => eret None
  | Ok root =>
      r <~ esilent (read_to_string
             (path_join (path_join (path_join root "planning") "blocks") (block_id +:+ ".json"))) ;;
      eret (match r with
            | Ok contents => match from_str contents with Ok v => Some v | Err _ => None end
            | Err _ => None
            end)
  end.

Definition run_for_block (config : PreflightConfig) (registry : RepoRegistry) (repo block_id : string)
    : PF BlockPreflight :=
  let no_record := mkBlockPreflight repo block_id SkippedNoRecord [] 0 in
  record <~ read_block_record registry repo block_id ;;
  match record with
  | None => eret no_record
  | Some record =>
  match registry_resolve registry repo with
  | Err _ => eret no_record
  | Ok repo_root =>
      let slice k := (k, slice_text record k, slice_max_bytes config) in
      j <~ esilent (judge [slice "what"; slice "files"; slice "acceptance_criteria"]) ;;
      match j with
      | Ok all_claims =>
          let run_count := Nat.min (length all_claims) (max_claims config) in
          claims <~ run_claims (take run_count all_claims) repo_root (programs config)
                      (command_timeout_ms config) ;;
          eret (mkBlockPreflight repo block_id (Judged claims) claims
                  (Z.of_nat (length all_claims - max_claims config)))
      | Err err => eret (mkBlockPreflight repo block_id (Unjudged (error_kind_of err)) [] 0)
      end
  end
  end.
End Runner.

(** * Facts *)

(** ** What the screen accepts *)

(** A positional argument that stays inside the directory. *)
Definition inside (arg : string) : Prop :=
  String.prefix "-" arg = false /\ String.prefix "/" arg = false /\ ".." ∉ split_at slash arg.

Definition takes_value (flag : string) : Prop := flag ∈ ["-e"; "-g"; "--glob"; "-t"; "--type"].
Inductive rg_args : list string -> Prop :=
| rg_nil : rg_args []
| rg_dashes rest : rg_args rest -> rg_args ("--" :: rest)
| rg_flag f rest : f ∈ ["-n"; "-l"; "-c"; "-i"; "-F"; "-w"; "-q"; "-L"; "--files"] -> rg_args rest -> rg_args (f :: rest)
| rg_value f v rest : takes_value f -> rg_args rest -> rg_args (f :: v :: rest)
| rg_assign f v rest : takes_value f -> rg_args rest -> rg_args ((f +:+ "=" +:+ v) :: rest)
| rg_path a rest : inside a -> rg_args rest -> rg_args (a :: rest).

Inductive git_arg : string -> Prop :=
| git_exact a : a ∈ ["--oneline"; "--name-only"; "--name-status"; "--"] -> git_arg a
| git_prefix p v : p ∈ ["--format="; "--pretty="; "--since="; "--until="; "--author="; "--grep="] -> git_arg (p +:+ v)
| git_count_flag : git_arg "-n"
| git_count c d : str_forallb is_ascii_digit (String c d) = true -> git_arg (String "-" (String c d))
| git_path a : inside a -> git_arg a.

Definition test_args (args : list string) : Prop :=
  exists flag path, args = [flag; path] /\ flag ∈ ["-e"; "-f"; "-d"; "-s"] /\
    String.prefix "/" path = false /\ ".." ∉ split_at slash path.
Definition ls_args (args : list string) : Prop :=
  Forall (fun a => a = "-1" \/ a = "-a" \/ inside a) args.

(** The command lines the screen lets through. *)
Inductive screened : list string -> Prop :=
| screened_rg args : rg_args args -> screened ("rg" :: args)
| screened_git sub args :
    sub ∈ ["log"; "show"; "rev-parse"; "ls-files"] -> Forall git_arg args -> screened ("git" :: sub :: args)
| screened_test args : test_args args -> screened ("test" :: args)
| screened_ls args : ls_args args -> screened ("ls" :: args).

Lemma one_of_iff l s : one_of l s = true <-> s ∈ l.
Proof. apply bool_decide_eq_true. Qed.
Lemma one_of_not l s : one_of l s = false <-> s ∉ l.
Proof. apply bool_decide_eq_false. Qed.

Lemma is_safe_positional_iff arg :
  is_safe_positional arg = true <-> String.prefix "/" arg = false /\ ".." ∉ split_at slash arg.
Proof. unfold is_safe_positional. by rewrite andb_true_iff, !negb_true_iff, one_of_not. Qed.

Lemma inside_iff arg : inside arg <-> String.prefix "-" arg = false /\ is_safe_positional arg = true.
Proof. by rewrite is_safe_positional_iff. Qed.

(** *** rg *)

Lemma validate_rg_sound args : validate_rg args = Ok tt -> rg_args args.
Proof.
  induction args as [args IH] using (well_founded_induction (Wf_nat.well_founded_ltof _ length)).
  unfold Wf_nat.ltof in IH. destruct args as [|arg rest]; simpl; [constructor|].
  assert (Hrest : validate_rg rest = Ok tt -> rg_args rest) by (apply IH; simpl; lia).
  destruct (String.eqb_spec arg "--") as [->|]; [by constructor; auto|].
  destruct (String.prefix "-" arg) eqn:Ed.
  - destruct (one_of RG_STANDALONE arg) eqn:Es; [apply one_of_iff in Es; by constructor; auto|].
    destruct (one_of RG_VALUE_FLAGS arg) eqn:Ev.
    { apply one_of_iff in Ev. destruct rest as [|v rest]; [done|]. intros H. constructor; [done|].
      apply IH; [simpl; lia|done]. }
    destruct (split_once "="%char arg) as [[flag v]|] eqn:Ee; [|done].
    destruct (one_of RG_VALUE_FLAGS flag) eqn:Ef; [|done]. apply one_of_iff in Ef.
    apply split_once_Some in Ee as ->. intros H. apply rg_assign; auto.
  - destruct (is_safe_positional arg) eqn:Es; [|done]. intros H. apply rg_path; [|auto]. by apply inside_iff.
Qed.

Lemma validate_rg_complete args : rg_args args -> validate_rg args = Ok tt.
Proof.
  induction 1 as [|rest _ IH|f rest Hf _ IH|f v rest Hf _ IH|f v rest Hf _ IH|a rest Ha _ IH]; [done|done| | | |].
  1-3: unfold takes_value in Hf;
    repeat (apply elem_of_cons in Hf as [->|Hf]; [exact IH|]); by apply elem_of_nil in Hf.
  simpl. apply inside_iff in Ha as [Hd Hs]. rewrite Hd, Hs, IH.
  destruct (String.eqb_spec a "--") as [->|]; done.
Qed.

(** *** git *)

Lemma git_flag_iff tail :
  git_flag (String "-" tail) tail = Ok tt <-> git_arg (String "-" tail).
Proof.
  split.
  - unfold git_flag. case_match; [done|].
    destruct (one_of GIT_EXACT _) eqn:Ee; [apply one_of_iff in Ee; intros _; by apply git_exact|].
    destruct (existsb _ GIT_PREFIXES) eqn:Ep.
    { apply existsb_exists in Ep as (p & Hp & Hv). apply prefix_iff in Hv as [v ->]. intros _.
      apply git_prefix. by apply list_elem_of_In. }
    destruct (String.eqb_spec (String "-" tail) "-n") as [->|]; [intros _; apply git_count_flag|].
    destruct tail as [|c d]; [done|]. destruct (negb _ && _) eqn:Ec; [|done].
    apply andb_true_iff in Ec as [_ Ec]. intros _. by apply git_count.
  - inversion 1 as [a Ha|p v Hp Hv| |c d Hd|a Ha]; subst.
    + 
      repeat (apply elem_of_cons in Ha as [[= ->]|Ha]; [reflexivity|]); by apply elem_of_nil in Ha.
    + unfold git_flag. replace (existsb _ GIT_REFUSALS) with false.
      * case_match; [done|]. replace (existsb _ GIT_PREFIXES) with true; [done|].
        symmetry. apply existsb_exists. exists p. split; [by apply list_elem_of_In|].
        apply prefix_iff. by exists v.
      * 
        repeat (apply elem_of_cons in Hp as [->|Hp]; [injection Hv as <-; reflexivity|]);
        by apply elem_of_nil in Hp.
    + reflexivity.
    + unfold git_flag. simpl in Hd. pose proof Hd as Hd'. apply andb_true_iff in Hd as [Hc _].
      replace (existsb _ GIT_REFUSALS) with false.
      * repeat (case_match; [done|]). simpl in *. by rewrite Hd' in *.
      * destruct c as [[] [] [] [] [] [] [] []]; try discriminate Hc; reflexivity.
    + destruct Ha as [Hd _]. by destruct tail.
Qed.

Lemma validate_git_args_iff args : validate_git_args args = Ok tt <-> Forall git_arg args.
Proof.
  induction args as [|arg rest IH]; simpl; [by split|]. rewrite Forall_cons.
  assert (Harg : (match arg with
    | String "-"%char tail => git_flag arg tail
    | _ => if is_safe_positional arg then Ok tt
           else Err ("unsafe git positional argument '" +:+ arg +:+ "'")
    end = Ok tt) <-> git_arg arg).
  { destruct (String.prefix "-" arg) eqn:Ed.
    - apply prefix_iff in Ed as [tail ->]. apply git_flag_iff.
    - transitivity (is_safe_positional arg = true).
      + destruct arg as [|[[] [] [] [] [] [] [] []] tail]; try (by case_match); try discriminate Ed.
        simpl in Ed. by rewrite prefix_empty in Ed.
      + split; [intros Hs; apply git_path; by apply inside_iff|].
        inversion 1 as [a Ha|p v Hp Hv| |c d Hd|a Ha]; subst; try discriminate Ed;
          [| |by apply inside_iff in Ha as []].
        * 
          repeat (apply elem_of_cons in Ha as [->|Ha]; [discriminate Ed|]); by apply elem_of_nil in Ha.
        * 
          repeat (apply elem_of_cons in Hp as [->|Hp]; [discriminate Ed|]);
            by apply elem_of_nil in Hp. }
  rewrite <- IH, <- Harg. destruct (match arg with EmptyString => _ | _ => _ end) as [[]|]; naive_solver.
Qed.

Lemma validate_git_iff args :
  validate_git args = Ok tt <-> exists sub rest, args = sub :: rest /\ sub ∈ GIT_SUBCOMMANDS /\ Forall git_arg rest.
Proof.
  destruct args as [|sub rest]; simpl; [by split; [|intros (? & ? & ? & _)]|]. split.
  - destruct (String.prefix "-" sub); [done|]. destruct (one_of GIT_SUBCOMMANDS sub) eqn:Es; [|done].
    apply one_of_iff in Es. intros H%validate_git_args_iff. by exists sub, rest.
  - intros (? & ? & [= <- <-] & Hs & Hr%validate_git_args_iff). pose proof Hs as Hs'.
    apply one_of_iff in Hs'. rewrite Hs', Hr. unfold GIT_SUBCOMMANDS in Hs.
    repeat (apply elem_of_cons in Hs as [->|Hs]; [reflexivity|]); by apply elem_of_nil in Hs.
Qed.

(** *** test and ls *)

Lemma validate_test_iff args : validate_test args = Ok tt <-> test_args args.
Proof.
  unfold validate_test, test_args. split.
  - destruct args as [|flag [|path [|? ?]]]; try done. destruct (one_of _ flag) eqn:Ef; [|done].
    apply one_of_iff in Ef. simpl. destruct (is_safe_positional path) eqn:Es; [|done].
    apply is_safe_positional_iff in Es as []. intros _. by exists flag, path.
  - intros (flag & path & -> & Hf%one_of_iff & H1 & H2). change (one_of TEST_FLAGS flag = true) in Hf. rewrite Hf. simpl.
    by replace (is_safe_positional path) with true by (symmetry; by apply is_safe_positional_iff).
Qed.

Lemma validate_ls_iff args : validate_ls args = Ok tt <-> ls_args args.
Proof.
  unfold ls_args. induction args as [|arg rest IH]; simpl; [by split|]. rewrite Forall_cons, <- IH.
  destruct (one_of _ arg) eqn:Ef.
  { apply one_of_iff in Ef. split; [|by intros [_ ?]]. intros H. split; [|done].
    apply elem_of_cons in Ef as [->|Ef]; [by left|]. apply list_elem_of_singleton in Ef. by right; left. }
  apply one_of_not in Ef. rewrite inside_iff.
  destruct (String.prefix "-" arg) eqn:Ed; [split; [done|]; intros [[->|[->|[? _]]] _]; set_solver|].
  destruct (is_safe_positional arg); [naive_solver|]. split; [done|]. intros [[->|[->|[_ ?]]] _]; set_solver.
Qed.

Lemma allowed_programs_iff p override :
  p ∈ allowed_programs override <-> p ∈ COMPILED_PROGRAMS /\ forall narrow, override = Some narrow -> p ∈ narrow.
Proof.
  destruct override as [narrow|]; simpl; [|naive_solver]. rewrite list_elem_of_filter.
  split; [intros [? ?]; split; [done|]; by intros ? [= <-]|intros [? H]; split; [by apply H|done]].
Qed.

(** The screen is its grammar.  A proposed command passes exactly when it is
    one of the four programs of the table (and of the configuration's list,
    which can only narrow it) with arguments of that program's shape: search
    flags and patterns, a read-only git subcommand with display flags, one file
    test, a listing; and every other argument a relative path with no [..]
    segment.  No other flag of any of them passes, in any spelling. *)
Theorem validate_argv_exact argv override :
  validate_argv argv override = Ok tt <->
  screened argv /\ exists program args, argv = program :: args /\
    forall narrow, override = Some narrow -> program ∈ narrow.
Proof.
  unfold validate_argv. split.
  - destruct argv as [|program rest]; [done|]. case_match; [done|].
    destruct (one_of _ program) eqn:Ea; [|done]. simpl.
    apply one_of_iff, allowed_programs_iff in Ea as [_ Hn]. intros Hv.
    split; [|by exists program, rest].
    destruct (String.eqb_spec program "rg") as [->|]; [by apply screened_rg, validate_rg_sound|].
    destruct (String.eqb_spec program "git") as [->|];
      [apply validate_git_iff in Hv as (? & ? & -> & ? & ?); by apply screened_git|].
    destruct (String.eqb_spec program "test") as [->|]; [by apply screened_test, validate_test_iff|].
    destruct (String.eqb_spec program "ls") as [->|]; [by apply screened_ls, validate_ls_iff|done].
  - intros [Hs (program & args & -> & Hn)].
    assert (Ha : program ∈ COMPILED_PROGRAMS -> one_of (allowed_programs override) program = true)
      by (intros ?; by apply one_of_iff, allowed_programs_iff).
    inversion Hs as [a H|sub a Hsub H|a H|a H]; subst; simpl; rewrite Ha by set_solver; simpl.
    + by apply validate_rg_complete.
    + apply (proj2 (validate_git_iff (sub :: a))). by exists sub, a.
    + by apply (proj2 (validate_test_iff _)).
    + by apply (proj2 (validate_ls_iff _)).
Qed.

(** ** What preflight runs *)

Section RunnerFacts.
Context {X : Extern} {S : Type}.
Variable spawn : CommandLine -> Z -> S -> SpawnAnswer * S.
Variable env_var : string -> S -> option string * S.
Variable read_to_string : string -> S -> result string string * S.
Variable from_str : string -> result value string.
Variable to_string_pretty : value -> result string string.
Variable judge : list (string * string * Z) -> S -> result (list JudgedClaim) JudgmentError * S.

(** The screen lets the command through, and so does the configuration's list. *)
Definition admitted (override : option (list string)) (argv : list string) : Prop :=
  screened argv /\ exists program args, argv = program :: args /\
    forall narrow, override = Some narrow -> program ∈ narrow.

(** What is handed to the operating system for a command: its program, its
    arguments (for rg behind the flag that disables its configuration file), the
    directory and the whole environment. *)
Definition spawned_as (argv : list string) (root path home : string) (l : CommandLine) : Prop :=
  exists program args, argv = program :: args /\ cmd_program l = program /\
    cmd_args l = (if decide (program = "rg") then "--no-config" :: args else args) /\
    cmd_dir l = root /\
    cmd_env l = [("PATH", path); ("HOME", home); ("GIT_CONFIG_NOSYSTEM", "1"); ("GIT_CONFIG_GLOBAL", "/dev/null")].

(** The command did what its claim says it would. *)
Definition bears_out (c : JudgedClaim) (code : option Z) (out : string) : Prop :=
  match expect c with
  | ExitZero => code = Some 0%Z
  | ExitNonzero => exists n, code = Some n /\ n <> 0%Z
  | StdoutContains => exists needle_, needle c = Some needle_ /\ needle_ <> "" /\ occurs needle_ out = true
  end.

(** One claim, from [s] to [s']: nothing runs if it is not admitted; if it is,
    it is spawned, once, in the environment this process has for PATH and HOME. *)
Definition claim_checked (root : string) (override : option (list string)) (timeout : Z)
    (c : JudgedClaim) (s : S) (r : ClaimResult) (s' : S) (t : list PreflightEvent) : Prop :=
  claim r = jc_claim c /\ cl_argv r = jc_argv c /\ load_bearing r = jc_load_bearing c /\
  ((~ admitted override (jc_argv c) /\ s' = s /\ t = [] /\ cl_verdict r = ClaimUnverifiable /\ is_Some (cl_reason r)) \/
   (admitted override (jc_argv c) /\ exists path s1 home s2 l a,
      env_var "PATH" s = (path, s1) /\ env_var "HOME" s1 = (home, s2) /\
      spawned_as (jc_argv c) root (default "" path) (default "" home) l /\ t = [Spawned l] /\
      spawn l timeout s2 = (a, s') /\
      match a with
      | Exited code out =>
          let out := String.substring 0 65536 out in
          exit_code r = code /\ stdout_bytes r = Z.of_nat (String.length out) /\ cl_reason r = None /\
          (bears_out c code out /\ cl_verdict r = ClaimHeld \/ ~ bears_out c code out /\ cl_verdict r = ClaimFalse)
      | DeadlineHit => cl_verdict r = ClaimUnverifiable /\ cl_reason r = Some "timeout"
      | CouldNotSpawn _ => cl_verdict r = ClaimUnverifiable /\ is_Some (cl_reason r)
      end)).

(** The claims one after the other. *)
Fixpoint claims_checked (root : string) (override : option (list string)) (timeout : Z)
    (cs : list JudgedClaim) (s : S) (rs : list ClaimResult) (s' : S) (t : list PreflightEvent) : Prop :=
  match cs, rs with
  | [], [] => s' = s /\ t = []
  | c :: cs, r :: rs => exists s1 t1 t2, claim_checked root override timeout c s r s1 t1 /\
      claims_checked root override timeout cs s1 rs s' t2 /\ t = t1 ++ t2
  | _, _ => False
  end.

Lemma claim_verdict_spec c code out :
  bears_out c code out /\ claim_verdict c code out = ClaimHeld \/
  ~ bears_out c code out /\ claim_verdict c code out = ClaimFalse.
Proof.
  unfold bears_out, claim_verdict. destruct (expect c).
  - case_bool_decide; auto.
  - destruct code as [n|]; [|right; split; [by intros (? & ? & _)|done]].
    destruct (Z.eqb_spec n 0); cbn; [right|left]; split; naive_solver.
  - destruct (needle c) as [n|]; cbn; [|right; split; [by intros (? & ? & _)|done]].
    destruct (String.eqb_spec n "") as [->|]; cbn; [right; split; [by intros (? & [= <-] & ? & _)|done]|].
    destruct (occurs n out) eqn:E; [left; eauto|right]. split; [|done]. intros (? & [= <-] & _ & H). congruence.
Qed.

Lemma run_claim_checked c root override timeout s r s' t :
  run_claim spawn env_var c root override timeout s = (r, s', t) ->
  claim_checked root override timeout c s r s' t.
Proof.
  unfold run_claim, claim_checked. destruct (validate_argv (jc_argv c) override) as [[]|reason] eqn:Ev; cycle 1.
  { intros (-> & -> & ->)%eret_inv. split_and!; [done..|]. left. split_and!; try done.
    intros Ha. apply validate_argv_exact in Ha. congruence. }
  apply validate_argv_exact in Ev. pose proof Ev as [_ (program & args & Hargv & _)].
  intros H. inv_eff H. inv_eff H. rewrite app_nil_r. unfold execute_argv in Hm.
  apply ebind_inv in Hm as (path & s1 & ? & ? & H1 & H & ->). apply esilent_inv in H1 as (H1 & ->).
  apply ebind_inv in H as (home & s2 & ? & ? & H2 & H & ->). apply esilent_inv in H2 as (H2 & ->).
  assert (Hl : exists l, command_line (jc_argv c) root (default "" path) (default "" home) = Some l /\
    spawned_as (jc_argv c) root (default "" path) (default "" home) l).
  { rewrite Hargv. eexists. split; [reflexivity|]. exists program, args. split_and!; try done. cbn.
    destruct (String.eqb_spec program "rg"); by case_decide. }
  destruct Hl as (l & El & Hl). rewrite El in H.
  apply ebind_inv in H as ([] & s3 & ? & ? & H3 & H & ->). apply elog_inv in H3 as (-> & ->).
  apply ebind_inv in H as (answer & s4 & ? & ? & H4 & H & ->). apply esilent_inv in H4 as (H4 & ->).
  apply eret_inv in H as (-> & -> & ->). cbn [app].
  assert (Hgo : forall r', claim r' = jc_claim c -> cl_argv r' = jc_argv c -> load_bearing r' = jc_load_bearing c ->
    match answer with
    | Exited code out =>
        let out := String.substring 0 65536 out in
        exit_code r' = code /\ stdout_bytes r' = Z.of_nat (String.length out) /\ cl_reason r' = None /\
        (bears_out c code out /\ cl_verdict r' = ClaimHeld \/ ~ bears_out c code out /\ cl_verdict r' = ClaimFalse)
    | DeadlineHit => cl_verdict r' = ClaimUnverifiable /\ cl_reason r' = Some "timeout"
    | CouldNotSpawn _ => cl_verdict r' = ClaimUnverifiable /\ is_Some (cl_reason r')
    end -> claim_checked root override timeout c s r' s4 [Spawned l]).
  { intros r' R1 R2 R3 R4. split; [exact R1|]. split; [exact R2|]. split; [exact R3|]. right. split; [exact Ev|].
    exists path, s1, home, s2, l, answer. split; [exact H1|]. split; [exact H2|]. split; [exact Hl|].
    split; [reflexivity|]. split; [exact H4|exact R4]. }
  destruct answer as [code out| |source]; apply Hgo; try reflexivity.
  - cbv zeta. split; [reflexivity|]. split; [reflexivity|]. split; [reflexivity|]. apply claim_verdict_spec.
  - by split.
  - split; [reflexivity|by eexists].
Qed.

Lemma run_claims_checked cs root override timeout s rs s' t :
  run_claims spawn env_var cs root override timeout s = (rs, s', t) ->
  claims_checked root override timeout cs s rs s' t.
Proof.
  revert s rs s' t. induction cs as [|c cs IH]; intros s rs s' t H; cbn [run_claims] in H.
  { by inv_eff H. }
  inv_eff H. inv_eff H. inv_eff H. rewrite app_nil_r. apply run_claim_checked in Hm. apply IH in Hm0.
  eexists _, _, _. by split_and!.
Qed.

Lemma claims_checked_length root override timeout cs s rs s' t :
  claims_checked root override timeout cs s rs s' t -> (length t <= length cs)%nat.
Proof.
  revert s rs t. induction cs as [|c cs IH]; intros s [|r rs] t H; try done; [by destruct H as [_ ->]|].
  destruct H as (s1 & t1 & t2 & (_ & _ & _ & Hc) & Hcs & ->). apply IH in Hcs. rewrite length_app. cbn.
  destruct Hc as [(_ & _ & -> & _)|(_ & path & s2 & home & s3 & l & a & _ & _ & _ & -> & _)]; cbn; lia.
Qed.

(** What the judge is shown of a field of the record. *)
Definition excerpt (record : value) (k : string) (cap : Z) (slice : string * string * Z) : Prop :=
  exists text, slice = (k, text, cap) /\
    match jget record k with
    | None => text = ""
    | Some v => match kind v, as_str v with
                | KString, Some t => text = t
                | _, _ => text = match to_string_pretty v with Ok t => t | Err _ => "" end
                end
    end.

End RunnerFacts.
