(* ===== verification/LaneLog.v ===== *)
(** * What integrating a step reads, writes and reports

    The data and the small functions of
    crates/engine-core/src/workflows/orchestration/integrate.rs that the chain
    loop (Integrate.v) is made of: the errors, the lane-log line and its
    stamps, the chain report, the verification of a step's state file, the
    merge of its branch, the journal rows and the policy they record. *)

From Stdlib Require Import Ascii.
From stdpp Require Import pretty.
From S2P Require Import Prelude Json Contract Budget Markers Node Workflow Effect Chain Execute Text.

Local Open Scope string_scope.
Local Open Scope list_scope.
Local Open Scope effect_scope.

(** ** Errors *)

Inductive CoordOp := OpRegister | OpHeartbeat | OpLease.
Definition coord_op_to_string (o : CoordOp) : string :=
  match o with OpRegister => "register" | OpHeartbeat => "heartbeat" | OpLease => "lease" end.

Inductive IntegrateError :=
| Gate (err : GateError)
| PermissionGate (err : PermissionGateError)
| ExecuteErr (err : ExecuteError)
| StateWriteUnreadable (repo block_id path source : string)
| StateWriteMalformed (repo block_id path source : string)
| StateWriteMismatch (repo block_id path : string) (found : option string)
| FinalValidationGateFailed (repo block_id path failure_summary : string)
| BlockIdMismatch (repo block_id path found : string)
| ReconcileFailed (repo block_id path summary : string)
| LaneLogSerialize (block_id source : string)
| LaneLogWriteFailed (path source : string)
| RoadmapDirNotFound (slug new_location legacy_location : string)
| AmbiguousRoadmapDir (slug new_location legacy_location : string)
| HoldDeadlineExceeded (repo block_id : string) (deadline : Z)
| CheckpointWriteFailed (source : CheckpointError)
| DispatchErr (err : DispatchStepError)
| NoDispatcherConfigured (repo block_id : string)
| StepMergeFailed (repo block_id branch stderr : string)
| MissingPermissionProfileStamp (repo block_id : string)
| CoordRefused (op : CoordOp) (repo : string) (block_id : option string) (reason : string)
| PreflightPremiseFailed (repo block_id claim : string) (argv : list string)
| PreflightUnjudged (repo block_id error_kind : string).

(** ["status": "done"] as the messages quote it *)
Definition quoted_status (s : string) : string :=
  dquote +:+ "status" +:+ dquote +:+ ": " +:+ dquote +:+ s +:+ dquote.

Definition integrate_error_to_string {RF : RustFmt} (e : IntegrateError) : string :=
  let block repo block_id := "block '" +:+ block_id +:+ "' (repo '" +:+ repo +:+ "') " in
  let verification := "state write verification failed: " in
  match e with
  | Gate err => gate_error_to_string err
  | PermissionGate err => permission_gate_error_to_string err
  | ExecuteErr err => execute_error_to_string err
  | StateWriteUnreadable repo block_id path source =>
      block repo block_id +:+ verification +:+ "could not read " +:+ path +:+ ": " +:+ source
  | StateWriteMalformed repo block_id path source =>
      block repo block_id +:+ verification +:+ "malformed JSON at " +:+ path +:+ ": " +:+ source
  | StateWriteMismatch repo block_id path found =>
      block repo block_id +:+ verification +:+ "expected " +:+ quoted_status "done" +:+ " at "
      +:+ path +:+ ", found " +:+ debug_opt_str found
  | FinalValidationGateFailed repo block_id path failure_summary =>
      block repo block_id +:+ verification +:+ quoted_status "done" +:+ " at " +:+ path
      +:+ " but final_validation.all_passed was false: " +:+ failure_summary
  | BlockIdMismatch repo block_id path found =>
      block repo block_id +:+ verification +:+ "state file at " +:+ path +:+ " carries block_id '"
      +:+ found +:+ "', which disagrees with the executed block '" +:+ block_id +:+ "'"
  | ReconcileFailed repo block_id path summary =>
      block repo block_id +:+ "reconcile failed and is NOT closed (state file at " +:+ path
      +:+ " reads " +:+ quoted_status "reconcile_failed" +:+ "): " +:+ summary
  | LaneLogSerialize block_id source =>
      "lane-log entry for block '" +:+ block_id +:+ "' failed to serialize: " +:+ source
  | LaneLogWriteFailed path source => "failed to append to " +:+ path +:+ ": " +:+ source
  | RoadmapDirNotFound slug new_location legacy_location =>
      "roadmap '" +:+ slug +:+ "' not found: neither " +:+ new_location +:+ " nor "
      +:+ legacy_location +:+ " exists"
  | AmbiguousRoadmapDir slug new_location legacy_location =>
      "roadmap '" +:+ slug +:+ "' is ambiguous: it exists at both " +:+ new_location +:+ " and "
      +:+ legacy_location
  | HoldDeadlineExceeded repo block_id deadline =>
      block repo block_id +:+ "operator hold deadline exceeded: still held after "
      +:+ debug_duration deadline
      +:+ " with no clearance — check the operator queue for this block"
  | CheckpointWriteFailed source =>
      "failed to write checkpoint: " +:+ checkpoint_error_to_string source
  | DispatchErr err => dispatch_step_error_to_string err
  | StepMergeFailed repo block_id branch stderr =>
      block repo block_id +:+ "integrated but its branch '" +:+ branch
      +:+ "' could not be merged into main and pushed: " +:+ stderr
  | NoDispatcherConfigured repo block_id =>
      "dispatch step '" +:+ block_id +:+ "' (repo '" +:+ repo
      +:+ "') has no Dispatcher configured for this chain run — cannot resolve its workflow key"
  | MissingPermissionProfileStamp repo block_id =>
      block repo block_id
      +:+ "refused: its about-to-be-written closed lane-log record carries no resolved permission-profile stamp (docs/permission-profiles.md invariant 1)"
  | CoordRefused op repo (Some block_id) reason =>
      block repo block_id +:+ "coordination " +:+ coord_op_to_string op +:+ " refused: " +:+ reason
  | CoordRefused op repo None reason =>
      "chain registration (repo '" +:+ repo +:+ "') coordination " +:+ coord_op_to_string op
      +:+ " refused: " +:+ reason
  | PreflightPremiseFailed repo block_id claim argv =>
      block repo block_id +:+ "refused: preflight's load-bearing claim '" +:+ claim +:+ "' (argv "
      +:+ debug_strs argv +:+ ") did not hold"
  | PreflightUnjudged repo block_id error_kind =>
      block repo block_id +:+ "refused: preflight was unjudged (" +:+ error_kind
      +:+ ") and preflight_on_unjudged is 'bail'"
  end.

(** ** The state file of a step *)

Definition EXPECTED_STATE_STATUS : string := "done".
Definition RECONCILE_FAILED_STATE_STATUS : string := "reconcile_failed".

Definition state_filename (engine : EngineKind) : string :=
  match engine with Flow => "sdlc-flow-state.json" | Task => "sdlc-task-state.json" end.
Definition state_path_for (repo_path block_id : string) (engine : EngineKind) : string :=
  path_join (path_join (path_join (path_join repo_path "planning") block_id) "sdlc")
    (state_filename engine).

Section LaneLog.
Context {X : Extern}.

(** The checks on the parsed state file. *)
Definition check_state_value (repo block_id path : string) (v : value) : result unit IntegrateError :=
  let status := jget v "status" ≫= as_str in
  if bool_decide (status = Some RECONCILE_FAILED_STATE_STATUS) then
    Err (ReconcileFailed repo block_id path
      (default "(no bail_reason in state file)" (jget v "bail_reason" ≫= as_str)))
  else if negb (bool_decide (status = Some EXPECTED_STATE_STATUS)) then
    Err (StateWriteMismatch repo block_id path status)
  else
  match (found ← jget v "block_id" ≫= as_str;
         if String.eqb found block_id then None else Some found) with
  | Some found => Err (BlockIdMismatch repo block_id path found)
  | None =>
      match jget v "final_validation" with
      | Some fv =>
          if negb (is_null fv) && bool_decide (jget fv "all_passed" ≫= as_bool = Some false)
          then Err (FinalValidationGateFailed repo block_id path
                 (default "(no failure_summary in state file)"
                    (jget fv "failure_summary" ≫= as_str)))
          else Ok tt
      | None => Ok tt
      end
  end.

(** What a state file must say for its block to close. *)
Record state_done (block_id : string) (v : value) : Prop := {
  sd_status : jget v "status" ≫= as_str = Some EXPECTED_STATE_STATUS;
  sd_block : forall b, jget v "block_id" ≫= as_str = Some b -> b = block_id;
  sd_final : forall fv, jget v "final_validation" = Some fv -> is_null fv = false ->
    jget fv "all_passed" ≫= as_bool <> Some false
}.

Lemma check_state_value_ok repo block_id path v :
  check_state_value repo block_id path v = Ok tt <-> state_done block_id v.
Proof.
  unfold check_state_value. split.
  - intros H. case_bool_decide as Hr; [done|]. case_bool_decide as Hd; [|done]. simpl in H.
    destruct (jget v "block_id" ≫= as_str) as [b|] eqn:Eb; simpl in H;
      [destruct (String.eqb_spec b block_id) as [-> |]; [|done]|];
      (split; [done| |intros fv Hf Hn Ha; rewrite Hf, Hn in H; simpl in H;
         by rewrite bool_decide_eq_true_2 in H]); congruence.
  - intros [Hs Hb Hf]. rewrite bool_decide_eq_false_2 by (by rewrite Hs).
    rewrite bool_decide_eq_true_2 by done. simpl.
    assert (Hfin : match jget v "final_validation" with
      | Some fv => if negb (is_null fv) && bool_decide (jget fv "all_passed" ≫= as_bool = Some false)
          then Err (FinalValidationGateFailed repo block_id path
                 (default "(no failure_summary in state file)" (jget fv "failure_summary" ≫= as_str)))
          else Ok tt
      | None => Ok tt end = Ok tt).
    { destruct (jget v "final_validation") as [fv|]; [|done]. destruct (is_null fv) eqn:En; [done|].
      simpl. rewrite bool_decide_eq_false_2; [done|by apply Hf]. }
    destruct (jget v "block_id" ≫= as_str) as [b|]; simpl; [|done].
    by rewrite (Hb b eq_refl), String.eqb_refl.
Qed.

(** [read] is what [read_to_string] answers, [parse] is [serde_json::from_str]. *)
Definition verify_state_write (read : string -> result string string)
    (parse : string -> result value string) (o : ExecutionOutcome) : result unit IntegrateError :=
  let path := state_path_for (eo_repo_path o) (eo_block_id o) (eo_engine o) in
  match read path with
  | Err source => Err (StateWriteUnreadable (eo_repo o) (eo_block_id o) path source)
  | Ok raw =>
      match parse raw with
      | Err source => Err (StateWriteMalformed (eo_repo o) (eo_block_id o) path source)
      | Ok v => check_state_value (eo_repo o) (eo_block_id o) path v
      end
  end.

(** ** The branch of a step and its merge *)

Definition get_result (ctx : TaskContext) (identity : string) : option value := nodes ctx !! identity.
Definition branch_name_of (ctx : TaskContext) (node : string) : option string :=
  v ← get_result ctx node; b ← jget v "branch_name"; as_str b.
Definition step_branch_name (ctx : TaskContext) : option string :=
  branch_name_of ctx "SetupWorktreeNode".
Definition resolve_merge_branch (ctx : TaskContext) : option string :=
  match branch_name_of ctx "PullRequestNode" with
  | Some b => Some b
  | None => step_branch_name ctx
  end.

Record MergePushPolicy := mkMergePushPolicy { auto_merge : bool; auto_push : bool }.
Definition MergePushPolicy_default : MergePushPolicy := mkMergePushPolicy true false.

Record CommandOutput := mkCommandOutput { cmd_status : Z; cmd_stdout : string; cmd_stderr : string }.

Section Merge.
Context {S E : Type}.
(** [default_command_runner()]: program, arguments, directory *)
Variable runner : string -> list string -> string -> eff S E (result CommandOutput string).

Fixpoint run_steps (repo_path repo block_id branch : string) (steps : list (string * list string))
    : eff S E (result unit IntegrateError) :=
  match steps with
  | [] => eret (Ok tt)
  | (program, args) :: steps =>
      r <~ runner program args repo_path ;;
      match r with
      | Err source =>
          eret (Err (StepMergeFailed repo block_id branch
            ("failed to spawn `" +:+ program +:+ " " +:+ String.concat " " args +:+ "`: " +:+ source)))
      | Ok output =>
          if (cmd_status output =? 0)%Z then run_steps repo_path repo block_id branch steps
          else eret (Err (StepMergeFailed repo block_id branch (cmd_stderr output)))
      end
  end.

Definition merge_commands (branch : string) (policy : MergePushPolicy) : list (string * list string) :=
  [("git", ["checkout"; "main"]); ("git", ["merge"; "--no-ff"; branch])]
  ++ (if auto_push policy then [("git", ["push"; "origin"; "main"])] else []).

Definition merge_step_branch (repo_path repo block_id branch : string) (policy : MergePushPolicy)
    : eff S E (result unit IntegrateError) :=
  if negb (auto_merge policy) then eret (Ok tt)
  else run_steps repo_path repo block_id branch (merge_commands branch policy).
End Merge.

(** ** Where the lane log lives *)

Definition resolve_roadmap_dir (is_dir : string -> bool) (planning_root slug : string)
    : result string IntegrateError :=
  let new_location := path_join (path_join planning_root "roadmaps") slug in
  let legacy_location := path_join planning_root slug in
  match is_dir new_location, is_dir legacy_location with
  | true, true => Err (AmbiguousRoadmapDir slug new_location legacy_location)
  | true, false => Ok new_location
  | false, true => Ok legacy_location
  | false, false => Err (RoadmapDirNotFound slug new_location legacy_location)
  end.

(** ** The lane log and the report *)

Inductive LaneLogStatus := StClosed | StBailed | StHeld | StCancelled | StBudgetHalted | StSkipped.
#[export] Instance LaneLogStatus_eq_dec : EqDecision LaneLogStatus.
Proof. solve_decision. Defined.

Record LaneLogEntry := mkLaneLogEntry {
  ll_ts : instant;
  ll_lane : string;
  ll_repo : string;
  ll_block : string;
  ll_status : LaneLogStatus;
  ll_note : string;
  ll_run_id : option string;
  ll_writer : option string;
  ll_build_sha : option string;
  ll_profile : option string;
  ll_blocked_by : option value
}.

Definition entry_closed (now : instant) (o : ExecutionOutcome) (lane note : string) : LaneLogEntry :=
  mkLaneLogEntry now lane (eo_repo o) (eo_block_id o) StClosed note None None None None None.
Definition entry_of_step (st : LaneLogStatus) (now : instant) (step : ChainStep) (lane note : string)
    : LaneLogEntry :=
  mkLaneLogEntry now lane (repo step) (block_id step) st note None None None None None.
Definition entry_bailed : instant -> ChainStep -> string -> string -> LaneLogEntry :=
  entry_of_step StBailed.
Definition entry_held : instant -> ChainStep -> string -> string -> LaneLogEntry :=
  entry_of_step StHeld.
Definition entry_cancelled : instant -> ChainStep -> string -> string -> LaneLogEntry :=
  entry_of_step StCancelled.
Definition entry_budget_halted (value_to_string : value -> string) (now : instant)
    (step : ChainStep) (lane : string) (r : BudgetHaltReason) : LaneLogEntry :=
  entry_of_step StBudgetHalted now step lane
    ("campaign budget ceiling tripped before block " +:+ block_id step +:+ " started: "
     +:+ value_to_string (halt_reason_to_json r)).
Definition entry_skipped (now : instant) (step : ChainStep) (lane note : string)
    (blocked_by : option value) : LaneLogEntry :=
  mkLaneLogEntry now lane (repo step) (block_id step) StSkipped note None None None None blocked_by.

(** [build_info::WRITER]; the sha of the build is a parameter. *)
Definition WRITER : string := "engine-rs".
Definition with_identity (git_sha : string) (run_id : option string) (e : LaneLogEntry) : LaneLogEntry :=
  mkLaneLogEntry (ll_ts e) (ll_lane e) (ll_repo e) (ll_block e) (ll_status e) (ll_note e)
    run_id (Some WRITER) (Some git_sha) (ll_profile e) (ll_blocked_by e).
Definition with_permission_profile (profile : option string) (e : LaneLogEntry) : LaneLogEntry :=
  mkLaneLogEntry (ll_ts e) (ll_lane e) (ll_repo e) (ll_block e) (ll_status e) (ll_note e)
    (ll_run_id e) (ll_writer e) (ll_build_sha e) profile (ll_blocked_by e).

Definition require_profile_stamp (e : LaneLogEntry) (repo block_id : string)
    : result unit IntegrateError :=
  match ll_profile e with
  | None => Err (MissingPermissionProfileStamp repo block_id)
  | Some _ => Ok tt
  end.

Record SkippedStep := mkSkippedStep {
  sk_block : string; sk_reason : string; sk_blocked_by : option value }.
Record ChainReport := mkChainReport {
  closed : list string; bailed : list string; skipped : list SkippedStep }.
Definition ChainReport_default : ChainReport := mkChainReport [] [] [].

Definition dependency_edge_to_json (e : DependencyEdge) : value :=
  match e with
  | EdgeBlock repo block_id => json_object
      [("type", jstr "block"); ("repo", jstr repo); ("id", jstr block_id)]
  | EdgeOperator slug => json_object [("type", jstr "operator"); ("slug", jstr slug)]
  | EdgeApproval slug => json_object [("type", jstr "approval"); ("slug", jstr slug)]
  | EdgeExternal what => json_object [("type", jstr "external"); ("what", jstr what)]
  end.

Definition status_of_id (report : ChainReport) (id : string) : string :=
  if bool_decide (id ∈ closed report) then "closed"
  else if bool_decide (id ∈ bailed report) then "bailed"
  else if existsb (fun s => String.eqb (sk_block s) id) (skipped report) then "skipped"
  else "pending".
Definition inbox_triage_chain_status_summary (chain : list ChainStep) (report : ChainReport) : string :=
  String.concat (String (ascii_of_nat 10) EmptyString)
    (map (fun step => step_name step +:+ " (" +:+ status_of_id report (step_name step) +:+ ")") chain).

Record StepProgress := mkStepProgress {
  sp_repo : string; sp_block_id : string; sp_index : nat; sp_total : nat; sp_status : string }.

Inductive RunRecordLifecycle := Started | Terminal.

(** ** The journal *)

Inductive JournalDecisionKind :=
| StepIntegrated | StepBailed | GateRefused | StateWriteVerificationFailed | BudgetHalted
| ResolvedPolicy | RecallConsulted | DebriefRendered | ConductorProposed.

Record JournalRow := mkJournalRow {
  jr_id : uuid;
  jr_campaign_id : string;
  jr_run_id : uuid;
  jr_step : string;
  jr_kind : JournalDecisionKind;
  jr_reason : string;
  jr_detail : value;
  jr_created_at : instant
}.

Context {HO : HashOrder}.

(** [!values.contains(&x)] then [push] *)
Definition push_new (values : list string) (x : string) : list string :=
  if bool_decide (x ∈ values) then values else values ++ [x].
Definition single_or_list (values : list string) : value :=
  match values with
  | [] => jnull
  | [v] => jstr v
  | _ => jarray (map jstr values)
  end.
Definition reported_models (ctx : TaskContext) : list string :=
  foldl (fun models run =>
    match usage run with
    | Some u => if String.eqb (usage_model u) "" then models else push_new models (usage_model u)
    | None => models
    end) [] (hm_values (node_runs ctx)).
Definition reported_tiers (ctx : TaskContext) : list string :=
  foldl (fun tiers output =>
    match (t ← jget output "transport"; tier ← jget t "tier"; as_str tier) with
    | Some tier => push_new tiers tier
    | None => tiers
    end) [] (hm_values (nodes ctx)).
Definition resolved_policy_detail (ctx : TaskContext) (engine : EngineKind) : value :=
  json_object
    [("profile", default jnull (jget (event ctx) "profile"));
     ("model_tier", single_or_list (reported_models ctx));
     ("transport", single_or_list (reported_tiers ctx));
     ("executor", jstr (engine_to_string engine))].
End LaneLog.
