(* ===== verification/Integrate.v ===== *)
(** * The chain loop

    [integrate_chain_impl] and [integrate_chain_impl_inner] of
    crates/engine-core/src/workflows/orchestration/integrate.rs: the loop that
    takes a chain block by block through its gates, runs each block, verifies
    and merges it, and records what happened.

    What the loop calls out to is the class [Seams]: the closures it is given
    and the operating system, functions on the world that are otherwise
    unconstrained.  What an observer sees is the log of [ChainEvent]s: every
    line, row, record and checkpoint written, every child run, every command,
    permit and lease.

    One turn of the [while let] is [iteration], a sequence of stages.  A stage
    is a program whose [Ok] goes on to the next stage and whose [Err] leaves
    the iteration: [Continue] and [Break] are the code's, [Return e] its
    [return Err(e)], and [OutOfFuel] is a wait for an operator or a dispatched
    workflow that did not end within the fuel. *)

From S2P Require Import Prelude Text Json Contract Budget Markers Node Workflow Utf8 Effect Escalate Chain Ledger Execute Inbox Preflight LaneLog.

Local Open Scope string_scope.
Local Open Scope list_scope.
Local Open Scope effect_scope.

(** ** What the loop is given *)

Record CoordHandle := mkCoordHandle {
  ch_lock_dir : string; ch_repo : string; ch_lane : string; ch_agent : string }.

Inductive BlockPresence := Row (status : string) | NotInTracks.

Record OperatorEdgeAuthorConfig := mkOperatorEdgeAuthorConfig {
  oe_root : string;
  oe_repo : string;
  oe_block_id : string;
  oe_dir : string;
  oe_agent : option string;
  oe_lock_dir : option string;
  oe_roadmap : option string;
  oe_lane : option string;
  oe_roadmap_dir : option string
}.

Class Seams {X : Extern} {R : Runtime} : Type := {
  (** the closures *)
  s_resolve_depends_on : string -> string -> W -> list DependencyEdge * W;
  s_is_edge_met : string -> string -> W -> bool * W;
  s_is_held : string -> string -> W -> bool * W;
  s_resolve_engine : string -> string -> W -> EngineKind * W;
  s_run_flow : FlowInvocation -> W -> result TaskContext WorkflowError * W;
  s_block_status : string -> string -> W -> BlockPresence * W;
  s_preflight : string -> string -> W -> PreflightOutcome * W;
  s_resolve_action : string -> string -> W -> option GatedAction * W;
  s_custom_author : OperatorGateRequest -> W -> result unit string * W;
  s_default_author : OperatorEdgeAuthorConfig -> OperatorGateRequest -> W -> result unit string * W;
  s_close_block : string -> string -> W -> W;
  s_step_observer : StepProgress -> W -> W;
  s_journal_sink : JournalRow -> W -> W;
  s_run_record_sink : RunRecordLifecycle -> W -> W;
  s_compose_ledger : ExecutionOutcome -> W -> result (list NewLedgerEntry) string * W;
  s_judge_message : MessageRecord -> string -> W -> TriageOutcome * W;
  (** coordination: the lock directory's writes *)
  s_register : CoordHandle -> string -> W -> result (bool * option string) string * W;
  s_heartbeat : CoordHandle -> option string -> W -> result unit string * W;
  s_lease : CoordHandle -> list string -> list string -> W -> result unit string * W;
  s_unlease : CoordHandle -> W -> result bool string * W;
  s_drain : CoordHandle -> W -> result (list (option MessageRecord)) string * W;
  s_reply_rendezvous : CoordHandle -> MessageRecord -> string -> W -> result unit string * W;
  s_send_reply_and_complete : CoordHandle -> MessageRecord -> string -> W -> result string string * W;
  (** the admission semaphore *)
  s_acquire : W -> W;
  s_release : W -> W;
  (** tokio: the monotonic clock, and the [select!] of a sleep, the hold's
      notification and cancellation, [true] when cancellation wins *)
  s_instant_now : W -> Z * W;
  s_select : string -> string -> Z -> option flag_ref -> W -> bool * W;
  (** processes: [default_command_runner], and [Command::output] as (success,
      standard output when it is UTF-8) *)
  s_runner : string -> list string -> string -> W -> result CommandOutput string * W;
  s_output : string -> list string -> string -> W -> option (bool * option string) * W;
  (** files *)
  s_load_brain_config : string -> W -> result PermissionProfilesConfig string * W;
  s_canonicalize : string -> W -> option string * W;
  s_read_to_string : string -> W -> result string string * W;
  s_write_file : string -> string -> W -> result unit string * W;
  s_exists : string -> W -> bool * W;
  s_create_dir_all : string -> W -> result unit string * W;
  s_open_append : string -> W -> result unit string * W;
  s_append_line : string -> string -> W -> result unit string * W;
  (** the directory the checkpoint is written in, and how it answers *)
  s_files : W -> gmap string string;
  s_set_files : gmap string string -> W -> W;
  s_answer : W -> FsAnswer * W;
  s_unreadable : string -> option string;
  (** serde_json, uuid, the build *)
  s_from_str : string -> result value string;
  s_to_string_pretty : value -> result string string;
  s_value_to_string : value -> string;
  s_lane_line : LaneLogEntry -> result string string;
  s_checkpoint_text : Checkpoint -> result string string;
  s_checkpoint_of : string -> result Checkpoint string;
  s_parse_uuid : string -> option uuid;
  s_git_sha : string
}.

Section Integrate.
Context {X : Extern} {R : Runtime} {HO : HashOrder} {RF : RustFmt} {RX : RegexCrate} {SM : Seams}.

Record ChainConfig := mkChainConfig {
  poll_interval : Z;
  hold_deadline : option Z;
  cancellation_token : option flag_ref;
  campaign_budget : option Budget;
  registry : RepoRegistry;
  roadmap_dir : string;
  cc_lane : option string;
  default_use_worktree : bool;
  default_auto_pr : bool;
  merge_push_policy : MergePushPolicy;
  campaign_id : uuid;
  has_journal_sink : bool;
  dispatcher : option Dispatcher;
  coord : option CoordHandle;
  has_run_record_sink : bool;
  has_compose_ledger : bool;
  child_sdlc_flow_policy : option value;
  child_sdlc_task_policy : option value;
  on_bail : OnBail;
  bail_channel : BailChannel;
  on_unjudged : OnUnjudged;
  inbox_triage_enabled : bool;
  has_inbox_triage_runner : bool;
  has_author_operator_edge : bool
}.

(** ** What an observer sees *)

Inductive ChainEvent :=
| RunRecord (l : RunRecordLifecycle)
| LineAppended (e : LaneLogEntry)
| CheckpointWritten (c : Checkpoint)
| Journalled (row : JournalRow)
| Escalated (r : EscalationRecord)
| BailRecorded (e : BailEntry)
| LedgerAppended (n : nat)
| PermitAcquired (repo block_id : string)
| PermitReleased (repo block_id : string)
| Registered
| Heartbeat (block_id : string)
| Leased (block_id : string)
| Unleased
| Replied (message_id : string)
| FlowRun (i : FlowInvocation)
| WorkflowRun (workflow_key : string)
| CommandRun (program : string) (args : list string) (dir : string)
| BlockClosed (repo block_id : string)
| Observed (p : StepProgress).

Definition P (A : Type) : Type := eff W ChainEvent A.

(** ** The state of the loop *)

Record LoopState := mkLoopState {
  step_queue : list ChainStep;
  outcomes : list ExecutionOutcome;
  bailed_or_skipped : gset (string * string);
  skipped_steps : list ChainStep;
  requeued_once : gset (string * string);
  campaign_ledger : CampaignLedger;
  checkpoint : Checkpoint;
  pending_skip : bool;
  report : ChainReport;
  preflight_report : list BlockPreflight;
  inbox_report : list ProcessedMessage
}.

Definition set_queue q s := mkLoopState q (outcomes s) (bailed_or_skipped s) (skipped_steps s)
  (requeued_once s) (campaign_ledger s) (checkpoint s) (pending_skip s) (report s)
  (preflight_report s) (inbox_report s).
Definition set_pending_skip b s := mkLoopState (step_queue s) (outcomes s) (bailed_or_skipped s)
  (skipped_steps s) (requeued_once s) (campaign_ledger s) (checkpoint s) b (report s)
  (preflight_report s) (inbox_report s).
Definition push_preflight p s := mkLoopState (step_queue s) (outcomes s) (bailed_or_skipped s)
  (skipped_steps s) (requeued_once s) (campaign_ledger s) (checkpoint s) (pending_skip s)
  (report s) (preflight_report s ++ [p]) (inbox_report s).
Definition push_inbox m s := mkLoopState (step_queue s) (outcomes s) (bailed_or_skipped s)
  (skipped_steps s) (requeued_once s) (campaign_ledger s) (checkpoint s) (pending_skip s)
  (report s) (preflight_report s) (inbox_report s ++ [m]).
(** [bailed_or_skipped.insert(..)] and [report.bailed.push(..)] *)
Definition add_bailed step s := mkLoopState (step_queue s) (outcomes s)
  ({[step_key step]} ∪ bailed_or_skipped s) (skipped_steps s) (requeued_once s)
  (campaign_ledger s) (checkpoint s) (pending_skip s)
  (mkChainReport (closed (report s)) (bailed (report s) ++ [step_name step]) (skipped (report s)))
  (preflight_report s) (inbox_report s).
(** ... [report.skipped.push(..)] and [skipped_steps.push(..)] *)
Definition add_skipped step reason blocked_by s := mkLoopState (step_queue s) (outcomes s)
  ({[step_key step]} ∪ bailed_or_skipped s) (skipped_steps s ++ [step]) (requeued_once s)
  (campaign_ledger s) (checkpoint s) (pending_skip s)
  (mkChainReport (closed (report s)) (bailed (report s))
     (skipped (report s) ++ [mkSkippedStep (step_name step) reason blocked_by]))
  (preflight_report s) (inbox_report s).
(** an accepted EDGE_RELEASED, at most once per step *)
Definition requeue step s :=
  if bool_decide (step_key step ∈ requeued_once s) then s
  else mkLoopState (step_queue s ++ [step]) (outcomes s) (bailed_or_skipped s)
    (filter (fun s' => step_key s' <> step_key step) (skipped_steps s))
    ({[step_key step]} ∪ requeued_once s) (campaign_ledger s) (checkpoint s) (pending_skip s)
    (report s) (preflight_report s) (inbox_report s).
Definition push_checkpoint cs s := mkLoopState (step_queue s) (outcomes s) (bailed_or_skipped s)
  (skipped_steps s) (requeued_once s) (campaign_ledger s) (push_step (checkpoint s) cs)
  (pending_skip s) (report s) (preflight_report s) (inbox_report s).
(** [record_step], [report.closed.push(..)], [outcomes.push(..)] *)
Definition add_closed step o s := mkLoopState (step_queue s) (outcomes s ++ [o])
  (bailed_or_skipped s) (skipped_steps s) (requeued_once s)
  (record_step (campaign_ledger s) (eo_cost_usd o) (eo_total_tokens o)) (checkpoint s)
  (pending_skip s)
  (mkChainReport (closed (report s) ++ [step_name step]) (bailed (report s)) (skipped (report s)))
  (preflight_report s) (inbox_report s).

Inductive Turn := Continue | Break | Return (e : IntegrateError) | OutOfFuel.
Definition stage (A : Type) : Type := P (result A (Turn * LoopState)).
Definition leave {A} (t : Turn) (s : LoopState) : stage A := eret (Err (t, s)).
Definition go {A} (a : A) : stage A := eret (Ok a).

Section Config.
Variable cfg : ChainConfig.

(** ** Seams as programs *)

Definition act (f : W -> W) : P unit := esilent (fun w => (tt, f w)).
Definition now : P instant := esilent w_now.
Definition new_v4 : P uuid := esilent w_new_v4.
Definition now_rfc3339 : P string := t <~ now ;; eret (rfc3339 t).
Definition resolve_depends_on repo id : P (list DependencyEdge) :=
  esilent (s_resolve_depends_on repo id).
Definition is_edge_met repo id : P bool := esilent (s_is_edge_met repo id).
Definition resolve_engine repo id : P EngineKind := esilent (s_resolve_engine repo id).
Definition run_flow (i : FlowInvocation) : P (result TaskContext WorkflowError) :=
  elog (FlowRun i) ;~ esilent (s_run_flow i).
Definition runner program args dir : P (result CommandOutput string) :=
  elog (CommandRun program args dir) ;~ esilent (s_runner program args dir).
Definition read_to_string path : P (result string string) := esilent (s_read_to_string path).
Definition write_file path body : P (result unit string) := esilent (s_write_file path body).

Definition is_cancelled : P bool :=
  match cancellation_token cfg with
  | Some f => esilent (w_read_flag f)
  | None => eret false
  end.

Definition step_lane (step : ChainStep) : string := default (repo step) (cc_lane cfg).

Definition chain_profile : P PermissionProfile :=
  load <~ esilent (s_load_brain_config (path_join (brain_root (registry cfg)) "brain.toml")) ;;
  eret (resolve_permission_profile load).1.
Definition resolved_permission_profile_identifier : P string :=
  p <~ chain_profile ;; eret (profile_wire p).

(** ** Lines, checkpoints, rows *)

Definition append_lane_log_line (e : LaneLogEntry) : P (result unit IntegrateError) :=
  let path := path_join (roadmap_dir cfg) "lane-log.jsonl" in
  match s_lane_line e with
  | Err source => eret (Err (LaneLogSerialize (ll_block e) source))
  | Ok line =>
      r <~ esilent (s_open_append path) ;;
      match r with
      | Err source => eret (Err (LaneLogWriteFailed path source))
      | Ok _ =>
          r <~ esilent (s_append_line path line) ;;
          match r with
          | Err source => eret (Err (LaneLogWriteFailed path source))
          | Ok _ => elog (LineAppended e) ;~ eret (Ok tt)
          end
      end
  end.

(** An entry with its identity and profile stamps. *)
Definition stamped (mk : instant -> LaneLogEntry) (run_id : option string) : P LaneLogEntry :=
  ts <~ now ;;
  profile <~ resolved_permission_profile_identifier ;;
  eret (with_permission_profile (Some profile) (with_identity s_git_sha run_id (mk ts))).
(** [let _ = append_lane_log_line(..)] *)
Definition note_line (mk : instant -> LaneLogEntry) (run_id : option string) : P unit :=
  e <~ stamped mk run_id ;; append_lane_log_line e ;~ eret tt.

Definition save_checkpoint (c : Checkpoint) : P (result unit CheckpointError) :=
  wrote <~ esilent s_answer ;;
  renamed <~ esilent s_answer ;;
  r <~ esilent (fun w =>
         let '(r, files, _) :=
           write_checkpoint s_checkpoint_text wrote renamed (roadmap_dir cfg) c (s_files w) in
         (r, s_set_files files w)) ;;
  match r with
  | Ok _ => elog (CheckpointWritten c) ;~ eret (Ok tt)
  | Err e => eret (Err e)
  end.
Definition load_checkpoint : P Checkpoint :=
  esilent (fun w =>
    (default (Checkpoint_new (uuid_to_string (campaign_id cfg)))
       (match read_checkpoint s_checkpoint_of s_unreadable (roadmap_dir cfg)
                (uuid_to_string (campaign_id cfg)) (s_files w) with
        | Ok c => into_option c
        | Err _ => None
        end), w)).

Definition emit_journal (run_id : uuid) (step : string) (kind : JournalDecisionKind)
    (reason : string) (detail : value) : P unit :=
  if has_journal_sink cfg then
    id <~ new_v4 ;;
    created_at <~ now ;;
    let row := mkJournalRow id (uuid_to_string (campaign_id cfg)) run_id step kind reason detail
                 created_at in
    act (s_journal_sink row) ;~ elog (Journalled row)
  else eret tt.

Definition journal_run_id (ctx : option TaskContext) : P uuid :=
  match (ctx ← ctx; s ← read_run_id (metadata ctx); s_parse_uuid s) with
  | Some u => eret u
  | None => new_v4
  end.

(** ** Escalating a bail *)

Definition subject_repo_short_sha (repo_path : string) : P (option string) :=
  r <~ esilent (s_output "git" ["rev-parse"; "--short=7"; "HEAD"] repo_path) ;;
  eret (match r with
        | Some (true, Some stdout) => if String.eqb (trim stdout) "" then None else Some (trim stdout)
        | _ => None
        end).

Definition append_record (file line : string) : P (result unit string) :=
  let path := path_join (roadmap_dir cfg) file in
  r <~ esilent (s_open_append path) ;;
  match r with Err e => eret (Err e) | Ok _ => esilent (s_append_line path line) end.
Definition append_escalation_line (r : EscalationRecord) : P (result unit string) :=
  append_record "escalations.jsonl" (s_value_to_string (escalation_to_json r)).
Definition append_bail_line (e : BailEntry) : P (result unit string) :=
  append_record "bails.jsonl" (s_value_to_string (bail_to_json e)).

Definition bail_escalation_channel (lane : string) : result EscalationChannel EscalationError :=
  match bail_channel cfg with
  | SessionChannel => session lane
  | NotificationChannel =>
      match EscalationOption_new "ack" "Seen" with Err e => Err e | Ok ack =>
      match EscalationOption_new "later" "Later" with Err e => Err e | Ok later =>
        notification [ack; later] end end
  end.

Definition step_roadmap (step : ChainStep) : string := default "no-roadmap" (roadmap step).
Definition bail_gate_id (step : ChainStep) : string :=
  step_roadmap step +:+ "/" +:+ repo step +:+ "/" +:+ block_id step.
Definition bail_escalation (step : ChainStep) (lane sha err_display ts : string)
    (channel : EscalationChannel) : NewEscalation :=
  mkNewEscalation ts (repo step) lane BailKind Blocking channel (Some (block_id step))
    (bail_gate_id step) (chars_take Escalate.SUMMARY_MAX_CHARS err_display)
    ("integrate_chain step " +:+ repo step +:+ "::" +:+ block_id step +:+ newline +:+ err_display)
    (json_object [("channel", jstr "lane-log");
       ("ref", jstr (repo step +:+ "/planning/orchestration-run/" +:+ step_roadmap step
                     +:+ "/lane-log.jsonl#block=" +:+ block_id step))])
    sha None None.
Definition bail_entry (step : ChainStep) (check_id err_display ts : string) (engine : EngineKind)
    : NewBailEntry :=
  let failing := repo step +:+ "/" +:+ state_path_for "" (block_id step) engine in
  mkNewBailEntry ts (block_id step) check_id failing [failing] None err_display.

Definition record_bail_escalation (step : ChainStep) (lane check_id : string) (engine : EngineKind)
    (err_display : string) : P unit :=
  match registry_resolve (registry cfg) (repo step) with
  | Err _ => eret tt
  | Ok repo_path =>
      sha <~ subject_repo_short_sha repo_path ;;
      match sha with
      | None => eret tt
      | Some sha =>
          (match bail_escalation_channel lane with
           | Err _ => eret tt
           | Ok channel =>
               ts <~ now_rfc3339 ;;
               match EscalationRecord_new (bail_escalation step lane sha err_display ts channel) with
               | Err _ => eret tt
               | Ok r =>
                   a <~ append_escalation_line r ;;
                   match a with Ok _ => elog (Escalated r) | Err _ => eret tt end
               end
           end) ;~
          ts <~ now_rfc3339 ;;
          match BailEntry_new (bail_entry step check_id err_display ts engine) with
          | Err _ => eret tt
          | Ok e =>
              a <~ append_bail_line e ;;
              match a with Ok _ => elog (BailRecorded e) | Err _ => eret tt end
          end
      end
  end.

(** ** The inbox, at every block boundary *)

Definition send_reply handle (m : MessageRecord) (body : string) : P (option string) :=
  r <~ esilent (s_send_reply_and_complete handle m body) ;;
  match r with
  | Ok path => elog (Replied (message_id m)) ;~ eret (Some path)
  | Err _ => eret None
  end.

Definition verified_sha (m : MessageRecord) : P string :=
  match registry_resolve (registry cfg) (subject_repo m) with
  | Ok path => sha <~ subject_repo_short_sha path ;; eret (default "unknown" sha)
  | Err _ => eret "unknown"
  end.

Definition triage_message (handle : CoordHandle) (chain : list ChainStep) (step : ChainStep)
    (m : MessageRecord) (s : LoopState) : P LoopState :=
  let chain_status_summary := inbox_triage_chain_status_summary chain (report s) in
  sha <~ verified_sha m ;;
  out <~ process_drained_message resolve_depends_on is_edge_met now_rfc3339
           (fun m summary => esilent (s_judge_message m summary)) (send_reply handle)
           (ch_lane handle) m (skipped_steps s) chain_status_summary
           (mkEscalationContext (step_roadmap step) sha) ;;
  let '(processed, requeue_step, escalation) := out in
  let s := match requeue_step with Some st => requeue st s | None => s end in
  (match escalation with
   | Some r =>
       a <~ append_escalation_line r ;;
       match a with Ok _ => elog (Escalated r) | Err _ => eret tt end
   | None => eret tt
   end) ;~
  eret (push_inbox processed s).

Definition unlease (handle : CoordHandle) : P unit :=
  r <~ esilent (s_unlease handle) ;;
  match r with Ok true => elog Unleased | _ => eret tt end.

Definition handle_drained (handle : CoordHandle) (chain : list ChainStep) (step : ChainStep)
    (s : LoopState) (record : option MessageRecord) : P LoopState :=
  match record with
  | None => eret s
  | Some m =>
      match m_kind m with
      | LeaseRelease => unlease handle ;~ eret s
      | Rendezvous =>
          r <~ esilent (s_reply_rendezvous handle m
                 (ch_agent handle +:+ " answered your RENDEZVOUS")) ;;
          match r with Ok _ => elog (Replied (message_id m)) | Err _ => eret tt end ;~
          eret s
      | EdgeReleased | Finding | Query =>
          if inbox_triage_enabled cfg && has_inbox_triage_runner cfg
          then triage_message handle chain step m s
          else eret s
      end
  end.

Definition drain_inbox (chain : list ChainStep) (step : ChainStep) (s : LoopState) : P LoopState :=
  match coord cfg with
  | None => eret s
  | Some handle =>
      r <~ esilent (s_drain handle) ;;
      let drained := match r with Ok l => l | Err _ => [] end in
      efold (handle_drained handle chain step) drained s
  end.

(** ** The gates *)

Definition pending_gate (s : LoopState) : stage LoopState :=
  if pending_skip s then leave Continue (set_pending_skip false s) else go s.

Definition stop_cancelled (step : ChainStep) (note : string) (s : LoopState) : stage LoopState :=
  note_line (fun ts => entry_cancelled ts step (step_lane step) note) None ;~
  save_checkpoint (checkpoint s) ;~
  leave Break s.

Definition cancel_gate (step : ChainStep) (note : string) (s : LoopState) : stage LoopState :=
  c <~ is_cancelled ;;
  if c : bool then stop_cancelled step note s else go s.
Definition cancelled_before (step : ChainStep) : string :=
  "campaign cancelled at the block boundary before " +:+ block_id step
  +:+ " started; every earlier block in this chain already finished and committed".
Definition cancelled_on_hold (step : ChainStep) : string :=
  "campaign cancelled while " +:+ block_id step
  +:+ " was parked on an operator hold; every earlier block in this chain already finished and committed".

Definition budget_gate (step : ChainStep) (s : LoopState) : stage LoopState :=
  match campaign_check (campaign_ledger s) (campaign_budget cfg) with
  | Allow => go s
  | Halt reason =>
      note_line (fun ts => entry_budget_halted s_value_to_string ts step (step_lane step) reason)
        None ;~
      save_checkpoint (checkpoint s) ;~
      run_id <~ journal_run_id None ;;
      emit_journal run_id (block_id step) BudgetHalted
        ("campaign budget ceiling tripped before block " +:+ block_id step +:+ " started")
        (halt_reason_to_json reason) ;~
      leave Break s
  end.

Definition skip_step (step : ChainStep) (reason : string) (blocked_by : option value)
    (s : LoopState) : stage LoopState :=
  note_line (fun ts => entry_skipped ts step (step_lane step) reason blocked_by) None ;~
  leave Continue (add_skipped step reason blocked_by s).

Definition status_skip_reason (p : BlockPresence) : option string :=
  match p with
  | Row status =>
      if bool_decide (status ∈ ["closed"; "wontfix"; "superseded"; "deferred"])
      then Some ("block status is '" +:+ status +:+ "'; not dispatched") else None
  | NotInTracks => Some "block id is not in tracks[]; not dispatched"
  end.

Definition status_gate (step : ChainStep) (s : LoopState) : stage LoopState :=
  p <~ esilent (s_block_status (repo step) (block_id step)) ;;
  match status_skip_reason p with
  | Some reason => skip_step step reason None s
  | None => go s
  end.

Definition blocks_on (gone : gset (string * string)) (e : DependencyEdge) : bool :=
  match e with EdgeBlock repo id => bool_decide ((repo, id) ∈ gone) | _ => false end.

Definition chain_edge_gate (step : ChainStep) (s : LoopState) : stage LoopState :=
  edges <~ resolve_depends_on (repo step) (block_id step) ;;
  match find (blocks_on (bailed_or_skipped s)) edges with
  | Some edge =>
      let blocked_by := dependency_edge_to_json edge in
      skip_step step ("skipped: blocked by an earlier bailed or skipped step in this chain ("
                      +:+ s_value_to_string blocked_by +:+ ")") (Some blocked_by) s
  | None => go s
  end.

(** A refused gate: the chain stops, or the step is skipped. *)
Definition refuse (step : ChainStep) (err : IntegrateError) (edge : DependencyEdge) (detail : value)
    (s : LoopState) : stage LoopState :=
  run_id <~ journal_run_id None ;;
  emit_journal run_id (block_id step) GateRefused (integrate_error_to_string err) detail ;~
  match on_bail cfg with
  | StopChain => leave (Return err) s
  | SkipDependents =>
      skip_step step (integrate_error_to_string err) (Some (dependency_edge_to_json edge)) s
  end.

Definition dependency_gate (step : ChainStep) (s : LoopState) : stage LoopState :=
  r <~ check_dependencies resolve_depends_on is_edge_met step ;;
  match r with
  | Ok _ => go s
  | Err err =>
      let '(UnmetDependency _ _ edge) := err in
      refuse step (Gate err) edge (json_object []) s
  end.

Definition operator_edge_config (step : ChainStep) : OperatorEdgeAuthorConfig :=
  mkOperatorEdgeAuthorConfig (brain_root (registry cfg)) (repo step) (block_id step)
    (match registry_resolve (registry cfg) (repo step) with
     | Ok dir => dir | Err _ => brain_root (registry cfg) end)
    (ch_agent <$> coord cfg) (ch_lock_dir <$> coord cfg) (roadmap step) (cc_lane cfg)
    (Some (roadmap_dir cfg)).
Definition author (step : ChainStep) (r : OperatorGateRequest) : P (result unit string) :=
  if has_author_operator_edge cfg then esilent (s_custom_author r)
  else esilent (s_default_author (operator_edge_config step) r).

Definition permission_gate (step : ChainStep) (s : LoopState) : stage LoopState :=
  a <~ esilent (s_resolve_action (repo step) (block_id step)) ;;
  match a with
  | None => go s
  | Some action =>
      profile <~ chain_profile ;;
      r <~ check_permission_gate step action profile (author step) ;;
      match r with
      | Ok _ => go s
      | Err err =>
          let slug := match err with
                      | Denied _ _ _ _ edge => gate_slug edge
                      | EdgeAuthorFailed _ _ action _ _ => permission_gate_slug action
                      end in
          refuse step (PermissionGate err) (EdgeOperator slug)
            (json_object [("action", jstr (action_wire action)); ("profile", jstr (profile_wire profile))])
            s
      end
  end.

(** ** The operator hold *)

(** [Instant::saturating_duration_since] *)
Fixpoint wait_loop (fuel : nat) (repo block_id : string) (deadline deadline_at : option Z)
    : P (option (result unit IntegrateError)) :=
  match fuel with
  | O => eret None
  | S fuel =>
      held <~ esilent (s_is_held repo block_id) ;;
      if negb held then eret (Some (Ok tt)) else
      expired <~ match deadline_at with
                 | Some at_ => t <~ esilent s_instant_now ;; eret (at_ <=? t)%Z
                 | None => eret false
                 end ;;
      if expired : bool
      then eret (Some (Err (HoldDeadlineExceeded repo block_id (default 0%Z deadline)))) else
      tick_for <~ match deadline_at with
                  | Some at_ =>
                      t <~ esilent s_instant_now ;;
                      eret (Z.min (poll_interval cfg) (u64_sat_sub at_ t))
                  | None => eret (poll_interval cfg)
                  end ;;
      cancelled <~ esilent (s_select repo block_id tick_for (cancellation_token cfg)) ;;
      if bool_decide (is_Some (cancellation_token cfg)) && cancelled then eret (Some (Ok tt))
      else wait_loop fuel repo block_id deadline deadline_at
  end.

Definition wait_for_clearance (fuel : nat) (repo block_id : string)
    : P (option (result unit IntegrateError)) :=
  deadline_at <~ match hold_deadline cfg with
                 | Some d => t <~ esilent s_instant_now ;; eret (Some (t + d)%Z)
                 | None => eret None
                 end ;;
  wait_loop fuel repo block_id (hold_deadline cfg) deadline_at.

(** [bail_or_skip!] *)
Definition bail_or_skip {A} (step : ChainStep) (err : IntegrateError) (s : LoopState) : stage A :=
  leave (match on_bail cfg with StopChain => Return err | SkipDependents => Continue end)
    (add_bailed step s).

(** The [bailed] line and the checkpoint every bail leaves. *)
Definition note_bail (step : ChainStep) (note : string) (run_id : option string) (s : LoopState)
    : P unit :=
  note_line (fun ts => entry_bailed ts step (step_lane step) note) run_id ;~
  save_checkpoint (checkpoint s) ;~
  eret tt.
Definition escalate_bail (step : ChainStep) (check_id err_display : string) : P unit :=
  engine <~ resolve_engine (repo step) (block_id step) ;;
  record_bail_escalation step (step_lane step) check_id engine err_display.

Definition hold_gate (fuel : nat) (step : ChainStep) (s : LoopState) : stage LoopState :=
  r <~ wait_for_clearance fuel (repo step) (block_id step) ;;
  match r with
  | None => leave OutOfFuel s
  | Some (Ok _) => go s
  | Some (Err err) =>
      note_bail step (integrate_error_to_string err) None s ;~
      escalate_bail step "operator-hold" (integrate_error_to_string err) ;~
      bail_or_skip step err s
  end.

(** ** The lease *)

Definition coord_gate (chain : list ChainStep) (step : ChainStep) (s : LoopState) : stage LoopState :=
  match coord cfg with
  | None => go s
  | Some handle =>
      h <~ esilent (s_heartbeat handle (Some (block_id step))) ;;
      match h with
      | Err reason =>
          note_line (fun ts => entry_held ts step (step_lane step) reason) None ;~
          escalate_bail step "coord-heartbeat-failed" reason ;~
          leave (Return (CoordRefused OpHeartbeat (repo step) (Some (block_id step)) reason)) s
      | Ok _ =>
          elog (Heartbeat (block_id step)) ;~
          l <~ esilent (s_lease handle [block_id step] (map block_id chain)) ;;
          match l with
          | Err reason =>
              note_line (fun ts => entry_held ts step (step_lane step) reason) None ;~
              escalate_bail step "coord-lease-refused" reason ;~
              bail_or_skip step (CoordRefused OpLease (repo step) (Some (block_id step)) reason) s
          | Ok _ => elog (Leased (block_id step)) ;~ go s
          end
      end
  end.

(** [StepLeaseGuard]: released whatever the body does. *)
Definition with_lease {A} (body : P A) : P A :=
  r <~ body ;;
  match coord cfg with Some handle => unlease handle | None => eret tt end ;~
  eret r.
(** the admission permit, likewise *)
Definition with_permit {A} (step : ChainStep) (body : P A) : P A :=
  act s_acquire ;~
  elog (PermitAcquired (repo step) (block_id step)) ;~
  r <~ body ;;
  act s_release ;~
  elog (PermitReleased (repo step) (block_id step)) ;~
  eret r.

(** ** Dispatch steps *)

Definition RECALL_WORKFLOW_TYPE : string := "RECALL".
Definition RECALL_NODE_NAME : string := "RecallNode".

Definition f64_max (a b : f64) : f64 := if f64_ge a b then a else b.

Definition recall_field (ctx : TaskContext) (k : string) : option value :=
  v ← get_result ctx RECALL_NODE_NAME; jget v k.
Definition recall_count (ctx : TaskContext) : Z :=
  default 0%Z (recall_field ctx "count" ≫= as_u64).
Definition recall_top_score (ctx : TaskContext) : option f64 :=
  results ← recall_field ctx "results" ≫= as_array;
  foldl (fun best score => Some (match best with None => score | Some m => f64_max m score end)) None
    (omap (fun result => score ← jget result "score"; as_f64 score) results).

Definition journal_dispatch (step : ChainStep) (o : DispatchOutcome) (run_id : uuid) (s : LoopState)
    : P LoopState :=
  if String.eqb (do_workflow_key o) RECALL_WORKFLOW_TYPE then
    let count := recall_count (do_ctx o) in
    let skip := (count =? 0)%Z in
    emit_journal run_id (block_id step) RecallConsulted
      ("recall step '" +:+ block_id step +:+ "' returned " +:+ pretty.pretty count
       +:+ " result(s); next step " +:+ (if skip then "skipped" else "runs"))
      (json_object
        [("query", jstr (default EmptyString (recall_field (do_ctx o) "query" ≫= as_str)));
         ("count", ju64 count); ("top_score", json_opt jf64 (recall_top_score (do_ctx o)));
         ("branch", jstr (if skip then "skipped-next" else "ran-next"))]) ;~
    eret (set_pending_skip skip s)
  else
    emit_journal run_id (block_id step) StepIntegrated
      ("dispatch step '" +:+ block_id step +:+ "' completed via workflow key '"
       +:+ do_workflow_key o +:+ "'")
      (json_object [("workflow_key", jstr (do_workflow_key o))]) ;~
    eret s.

Definition dispatch_arm (fuel : nat) (step : ChainStep) (s : LoopState) : stage LoopState :=
  let stop err :=
    run_id <~ journal_run_id None ;;
    emit_journal run_id (block_id step) StepBailed (integrate_error_to_string err) (json_object []) ;~
    leave (Return err) s in
  match dispatcher cfg with
  | None => stop (NoDispatcherConfigured (repo step) (block_id step))
  | Some d =>
      elog (WorkflowRun (workflow_key step)) ;~
      r <~ execute_dispatch_step step d (json_object []) (fun _ w => w) fuel ;;
      match r with
      | None => leave OutOfFuel s
      | Some (Err err) => stop (DispatchErr err)
      | Some (Ok o) =>
          run_id <~ journal_run_id (Some (do_ctx o)) ;;
          s <~ journal_dispatch step o run_id s ;;
          leave Continue s
      end
  end.

(** ** Block steps *)

Definition block_preflight (step : ChainStep) (p : PreflightOutcome) (claims : list ClaimResult)
    : BlockPreflight := mkBlockPreflight (repo step) (block_id step) p claims 0.

Definition bail_preflight (step : ChainStep) (p : PreflightOutcome) (claims : list ClaimResult)
    (check_id reason : string) (err : IntegrateError) (s : LoopState)
    : stage (LoopState * option string) :=
  note_bail step reason None s ;~
  escalate_bail step check_id reason ;~
  bail_or_skip step err (push_preflight (block_preflight step p claims) s).

Definition preflight_stage (step : ChainStep) (s : LoopState) : stage (LoopState * option string) :=
  p <~ esilent (s_preflight (repo step) (block_id step)) ;;
  let proceed claims note := go (push_preflight (block_preflight step p claims) s, note) in
  match p with
  | Judged claims =>
      match find (fun c => load_bearing c && bool_decide (cl_verdict c = ClaimFalse)) claims with
      | Some bad =>
          bail_preflight step p claims "preflight-premise"
            ("preflight: load-bearing claim '" +:+ claim bad +:+ "' (argv "
             +:+ debug_strs (cl_argv bad) +:+ ") did not hold its expectation")
            (PreflightPremiseFailed (repo step) (block_id step) (claim bad) (cl_argv bad)) s
      | None => proceed claims None
      end
  | Unjudged error_kind =>
      let note := "preflight: unjudged(" +:+ error_kind +:+ ")" in
      match on_unjudged cfg with
      | BailUnjudged =>
          bail_preflight step p [] "preflight-unjudged" note
            (PreflightUnjudged (repo step) (block_id step) error_kind) s
      | Proceed => proceed [] (Some note)
      end
  | SkippedNoRecord | Disabled => proceed [] None
  end.

Definition execute_stage (step : ChainStep) (s : LoopState) : stage ExecutionOutcome :=
  parent <~ chain_profile ;;
  r <~ execute_step resolve_engine (registry cfg) run_flow
         (fun p => esilent (s_canonicalize p)) step (default_use_worktree cfg) (default_auto_pr cfg)
         (campaign_id cfg) (cancellation_token cfg) None parent None
         (child_sdlc_flow_policy cfg) (child_sdlc_task_policy cfg) ;;
  match r with
  | Ok o => go o
  | Err e =>
      let err := ExecuteErr e in
      note_bail step (integrate_error_to_string err) None s ;~
      escalate_bail step "orchestration-step" (integrate_error_to_string err) ;~
      run_id <~ journal_run_id None ;;
      emit_journal run_id (block_id step) StepBailed (integrate_error_to_string err) (json_object []) ;~
      bail_or_skip step err s
  end.

(** A child ran and its result was refused. *)
Definition bail_after_run {A} (step : ChainStep) (run_id : uuid) (kind : JournalDecisionKind)
    (err : IntegrateError) (s : LoopState) : stage A :=
  note_bail step (integrate_error_to_string err) (Some (uuid_to_string run_id)) s ;~
  emit_journal run_id (block_id step) kind (integrate_error_to_string err) (json_object []) ;~
  bail_or_skip step err s.

Definition verify_stage (step : ChainStep) (o : ExecutionOutcome) (run_id : uuid) (s : LoopState)
    : stage unit :=
  r <~ read_to_string (state_path_for (eo_repo_path o) (eo_block_id o) (eo_engine o)) ;;
  match verify_state_write (fun _ => r) s_from_str o with
  | Ok _ => go tt
  | Err err => bail_after_run step run_id StateWriteVerificationFailed err s
  end.

Definition merge_stage (step : ChainStep) (o : ExecutionOutcome) (run_id : uuid) (s : LoopState)
    : stage unit :=
  match resolve_merge_branch (eo_ctx o) with
  | None => go tt
  | Some branch =>
      r <~ merge_step_branch runner (eo_repo_path o) (repo step) (block_id step) branch
             (merge_push_policy cfg) ;;
      match r with
      | Ok _ => go tt
      | Err err => bail_after_run step run_id StepBailed err s
      end
  end.

(** *** The verification-ledger entries *)

Definition compose_candidate (step : ChainStep) (run_id : uuid) (composed : list LedgerEntry)
    (candidate : NewLedgerEntry) : P (list LedgerEntry) :=
  match ledger_compose (repo step) (block_id step) candidate with
  | Err _ => eret composed
  | Ok e =>
      (if String.eqb (call_site (le_args e)) NONE_CALL_SITE then
         emit_journal run_id (block_id step) GateRefused
           ("EN.15.L: verification-ledger entry '" +:+ le_id (le_args e) +:+ "' for block "
            +:+ block_id step +:+ " carries call_site: NONE — no production caller exists for "
            +:+ dquote +:+ capability (le_args e) +:+ dquote +:+ "; tracked here as a finding")
           (json_object [("gap", jstr "ledger_entry_call_site_none");
              ("block", jstr (block_id step)); ("entry_id", jstr (le_id (le_args e)))])
       else eret tt) ;~
      eret (composed ++ [e])
  end.

Definition compose_and_append_ledger_entries (step : ChainStep) (o : ExecutionOutcome) (run_id : uuid)
    : P unit :=
  if negb (has_compose_ledger cfg) then eret tt else
  r <~ esilent (s_compose_ledger o) ;;
  match r with
  | Err err =>
      emit_journal run_id (block_id step) GateRefused
        ("EN.15.L: verification-ledger composer failed for block " +:+ block_id step +:+ ": " +:+ err
         +:+ " — no entries composed for this block")
        (json_object [("gap", jstr "ledger_composer_error"); ("block", jstr (block_id step))])
  | Ok [] => eret tt
  | Ok candidates =>
      created <~ now_rfc3339 ;;
      r <~ create_ledger_if_absent (fun p => esilent (s_exists p))
             (fun p => esilent (s_create_dir_all p)) write_file s_to_string_pretty
             (roadmap_dir cfg) (step_roadmap step) (repo step) (step_lane step) created ;;
      match r with
      | Err _ => eret tt
      | Ok _ =>
          composed <~ efold (compose_candidate step run_id) candidates [] ;;
          match composed with
          | [] => eret tt
          | _ =>
              r <~ merge_append_entries read_to_string write_file s_from_str s_to_string_pretty
                     (ledger_path (roadmap_dir cfg)) composed ;;
              match r with Ok n => elog (LedgerAppended n) | Err _ => eret tt end
          end
      end
  end.

(** [?] on a result: the error returns. *)
Definition or_return {A} (r : result A IntegrateError) (s : LoopState) : stage A :=
  match r with Ok a => go a | Err e => leave (Return e) s end.

Definition closed_note (step : ChainStep) (note : option string) : string :=
  "block " +:+ block_id step +:+ " closed via SDLC_FLOW"
  +:+ match note with Some n => "; " +:+ n | None => EmptyString end.

Definition close_stage (total : nat) (step : ChainStep) (o : ExecutionOutcome) (run_id : uuid)
    (note : option string) (s : LoopState) : stage LoopState :=
  e <~ stamped (fun ts => entry_closed ts o (step_lane step) (closed_note step note))
         (Some (uuid_to_string run_id)) ;;
  _ <~? or_return (require_profile_stamp e (repo step) (block_id step)) s ;;
  appended <~ append_lane_log_line e ;;
  _ <~? or_return appended s ;;
  compose_and_append_ledger_entries step o run_id ;~
  act (s_close_block (repo step) (block_id step)) ;~
  elog (BlockClosed (repo step) (block_id step)) ;~
  emit_journal run_id (block_id step) StepIntegrated
    ("block " +:+ block_id step +:+ " closed via SDLC_FLOW") (json_object []) ;~
  let s := push_checkpoint
    (mkCheckpointStep (repo step) (block_id step)
       (u32_add (Z.of_nat (length (outcomes s)) mod u32_modulus) 1) true
       (step_branch_name (eo_ctx o))) s in
  written <~ save_checkpoint (checkpoint s) ;;
  _ <~? or_return (match written with Ok _ => Ok tt | Err e => Err (CheckpointWriteFailed e) end) s ;;
  let s := add_closed step o s in
  let p := mkStepProgress (repo step) (block_id step) (length (outcomes s)) total "completed" in
  act (s_step_observer p) ;~
  elog (Observed p) ;~
  go s.

Definition block_arm (total : nat) (step : ChainStep) (s : LoopState) : stage LoopState :=
  x <~? preflight_stage step s ;;
  let '(s, note) := x in
  o <~? execute_stage step s ;;
  run_id <~ journal_run_id (Some (eo_ctx o)) ;;
  emit_journal run_id (block_id step) ResolvedPolicy
    "resolved policy for this step, read after execution"
    (resolved_policy_detail (eo_ctx o) (eo_engine o)) ;~
  _ <~? verify_stage step o run_id s ;;
  _ <~? merge_stage step o run_id s ;;
  close_stage total step o run_id note s.

(** ** The loop *)

Definition gates (fuel : nat) (step : ChainStep) (s : LoopState) : stage LoopState :=
  s <~? pending_gate s ;;
  s <~? cancel_gate step (cancelled_before step) s ;;
  s <~? budget_gate step s ;;
  s <~? status_gate step s ;;
  s <~? chain_edge_gate step s ;;
  s <~? dependency_gate step s ;;
  s <~? permission_gate step s ;;
  s <~? hold_gate fuel step s ;;
  cancel_gate step (cancelled_on_hold step) s.

Definition admitted_arm (fuel : nat) (chain : list ChainStep) (step : ChainStep) (s : LoopState)
    : stage LoopState :=
  s <~? coord_gate chain step s ;;
  with_lease (if bool_decide (step_kind step = DispatchStep) then dispatch_arm fuel step s
              else block_arm (length chain) step s).

Definition iteration (fuel : nat) (chain : list ChainStep) (step : ChainStep) (s : LoopState)
    : P (Turn * LoopState) :=
  s <~ drain_inbox chain step s ;;
  r <~ (s <~? gates fuel step s ;; with_permit step (admitted_arm fuel chain step s)) ;;
  eret (match r with Ok s => (Continue, s) | Err turn => turn end).

(** [None] is out of fuel; each turn of the loop spends one unit of [turns]. *)
Fixpoint integrate_loop (turns fuel : nat) (chain : list ChainStep) (s : LoopState)
    : P (option (result unit IntegrateError) * LoopState) :=
  match step_queue s with
  | [] => eret (Some (Ok tt), s)
  | step :: rest =>
      match turns with
      | O => eret (None, s)
      | S turns =>
          x <~ iteration fuel chain step (set_queue rest s) ;;
          let '(turn, s) := x in
          match turn with
          | Continue => integrate_loop turns fuel chain s
          | Break => eret (Some (Ok tt), s)
          | Return e => eret (Some (Err e), s)
          | OutOfFuel => eret (None, s)
          end
      end
  end.

Definition register_chain (chain : list ChainStep) : P (result unit IntegrateError) :=
  match coord cfg with
  | None => eret (Ok tt)
  | Some handle =>
      let roadmap := default EmptyString (head chain ≫= roadmap) in
      let first_repo := default EmptyString (repo <$> head chain) in
      r <~ esilent (s_register handle roadmap) ;;
      match r with
      | Ok (false, reason) =>
          eret (Err (CoordRefused OpRegister first_repo None (default EmptyString reason)))
      | Ok (true, _) => elog Registered ;~ eret (Ok tt)
      | Err err => eret (Err (CoordRefused OpRegister first_repo None err))
      end
  end.

Definition initial_state (chain : list ChainStep) (cp : Checkpoint) : LoopState :=
  mkLoopState chain [] ∅ [] ∅ campaign_new cp false ChainReport_default [] [].

(** Every turn takes a step off the queue and a step is put back at most once. *)
Definition enough_turns (chain : list ChainStep) : nat := 2 * length chain.

Definition integrate_chain_impl_inner (fuel : nat) (chain : list ChainStep)
    : P (option (result unit IntegrateError) * LoopState) :=
  cp <~ load_checkpoint ;;
  let s := initial_state chain cp in
  r <~ register_chain chain ;;
  match r with
  | Err e => eret (Some (Err e), s)
  | Ok _ => integrate_loop (enough_turns chain) fuel chain s
  end.

(** The answer: the outcomes or the error, and the reports either way. *)
Definition answer_of (r : option (result unit IntegrateError)) (s : LoopState)
    : option (result (list ExecutionOutcome) IntegrateError) :=
  match r with
  | Some (Ok _) => Some (Ok (outcomes s))
  | Some (Err e) => Some (Err e)
  | None => None
  end.

Definition run_record (l : RunRecordLifecycle) : P unit :=
  if has_run_record_sink cfg then act (s_run_record_sink l) ;~ elog (RunRecord l) else eret tt.

Definition integrate_chain_impl (fuel : nat) (chain : list ChainStep)
    : P (option (result (list ExecutionOutcome) IntegrateError) * LoopState) :=
  run_record Started ;~
  x <~ integrate_chain_impl_inner fuel chain ;;
  let '(r, s) := x in
  (match r with Some _ => run_record Terminal | None => eret tt end) ;~
  eret (answer_of r s, s).
End Config.
End Integrate.
