(* ===== verification/ChainModel.v ===== *)
(** * A chain to compute with

    Concrete seams for the chain loop: the world is a clock, [git] and the file
    system always answer, and every block of the repository [x] ends well.  The
    witnesses of the chain's properties run this chain. *)

From S2P Require Import Prelude Json Contract Budget Markers Node Workflow Utf8 Effect Escalate Chain Ledger Execute Inbox Preflight LaneLog Integrate.

Local Open Scope string_scope.
Local Open Scope list_scope.

Module ChainModel.
Import JsonModel RuntimeModel.

#[export] Instance hash_order : HashOrder := {|
  hm_keys := fun A m => (map_to_list m).*1;
  hm_keys_perm := fun A m => reflexivity _
|}.
#[export] Instance rust_fmt : RustFmt := {|
  debug_str := fun s => s;
  debug_opt_str := default "None";
  debug_strs := String.concat ", ";
  debug_duration := fun z => pretty.pretty z
|}.
#[export] Instance regex_crate : RegexCrate := {| timestamp_re := fun _ => true |}.

(** The context a child ends with: its worktree's branch. *)
Definition child_ctx (block_id : string) : TaskContext :=
  set_nodes <["SetupWorktreeNode" := JObj [("branch_name", JStr ("sdlc/" +:+ block_id))]]> empty_ctx.

(** The state file of every block says what a finished block's says. *)
Definition state_text : string := "status: done".

#[export] Instance seams : Seams := {|
  s_resolve_depends_on := fun r b w =>
    (if String.eqb b "B3" then [EdgeBlock r "B1"] else [], w);
  s_is_edge_met := fun _ _ w => (true, w);
  s_is_held := fun _ b w => (String.eqb b "B3" && (w <? 20)%Z, (w + 1)%Z);
  s_resolve_engine := fun _ _ w => (Flow, w);
  s_run_flow := fun i w => (Ok (child_ctx (fi_block_id i)), (w + 10)%Z);
  s_block_status := fun _ b w => (Row (if String.eqb b "B2" then "closed" else "specced"), w);
  s_preflight := fun _ _ w => (SkippedNoRecord, w);
  s_resolve_action := fun _ _ w => (None, w);
  s_custom_author := fun _ w => (Ok tt, w);
  s_default_author := fun _ _ w => (Ok tt, w);
  s_close_block := fun _ _ w => w;
  s_step_observer := fun _ w => w;
  s_journal_sink := fun _ w => w;
  s_run_record_sink := fun _ w => w;
  s_compose_ledger := fun _ w => (Ok [], w);
  s_judge_message := fun _ _ w => (TriageJudgmentFailed JudgmentTimeout, w);
  s_register := fun _ _ w => (Ok (true, None), w);
  s_heartbeat := fun _ _ w => (Ok tt, w);
  s_lease := fun _ _ _ w => (Ok tt, w);
  s_unlease := fun _ w => (Ok true, w);
  s_drain := fun _ w => (Ok [], w);
  s_reply_rendezvous := fun _ _ _ w => (Ok tt, w);
  s_send_reply_and_complete := fun _ _ _ w => (Ok "reply", w);
  s_acquire := fun w => w;
  s_release := fun w => w;
  s_instant_now := fun w => (w, w);
  s_select := fun _ _ tick _ w => (false, (w + Z.max 1 tick)%Z);
  s_runner := fun _ _ _ w => (Ok (mkCommandOutput 0 "" ""), w);
  s_output := fun _ _ _ w => (Some (true, Some "abc1234"), w);
  s_load_brain_config := fun _ w => (Err "no brain.toml", w);
  s_canonicalize := fun p w => (Some p, w);
  s_read_to_string := fun _ w => (Ok state_text, w);
  s_write_file := fun _ _ w => (Ok tt, w);
  s_exists := fun _ w => (true, w);
  s_create_dir_all := fun _ w => (Ok tt, w);
  s_open_append := fun _ w => (Ok tt, w);
  s_append_line := fun _ _ w => (Ok tt, w);
  s_files := fun _ => ∅;
  s_set_files := fun _ w => w;
  s_answer := fun w => (FsDone, w);
  s_unreadable := fun _ => None;
  s_from_str := fun _ => Ok (JObj [("status", JStr "done")]);
  s_to_string_pretty := fun _ => Ok "";
  s_value_to_string := fun _ => "";
  s_lane_line := fun e => Ok (ll_block e);
  s_checkpoint_text := fun _ => Ok "";
  s_checkpoint_of := fun _ => Err "";
  s_parse_uuid := Some;
  s_git_sha := "abc1234"
|}.

Definition step (block_id : string) : ChainStep :=
  mkChainStep "x" block_id None (Some "rm") None None Block.
Definition chain : list ChainStep := [step "B1"; step "B2"; step "B3"].

Definition cfg : ChainConfig :=
  mkChainConfig 5 (Some 30%Z) None None (mkRepoRegistry "/brain" {["x" := "/brain/x"]} ∅) "/rm" None
    false true (mkMergePushPolicy true false) "c1" false None
    (Some (mkCoordHandle "/locks" "x" "lane" "agent")) true false None None StopChain SessionChannel
    Proceed true true false.

Definition run := integrate_chain_impl cfg 40 chain 0%Z.
(** The children of the run, in order. *)
Definition children (t : list ChainEvent) : list string :=
  omap (fun e => match e with FlowRun i => Some (fi_block_id i) | _ => None end) t.

Lemma chain_blocks : Forall (fun x => step_kind x <> DispatchStep) chain.
Proof. by repeat (apply Forall_cons; split; [discriminate|]). Qed.
Lemma run_children : children run.2 = ["B1"; "B3"].
Proof. vm_compute. reflexivity. Qed.
Lemma run_child : exists i, FlowRun i ∈ run.2 /\ fi_block_id i = "B3".
Proof.
  assert (H : "B3" ∈ children run.2) by (rewrite run_children; set_solver).
  apply list_elem_of_omap in H as ([] & Hi & H); try discriminate H. injection H as <-. by eexists.
Qed.
Lemma run_closes : BlockClosed "x" "B3" ∈ run.2.
Proof.
  assert (H : "B3" ∈ omap (fun e => match e with
    | BlockClosed r b => if String.eqb r "x" then Some b else None | _ => None end) run.2).
  { replace (omap _ _) with ["B1"; "B3"] by (vm_compute; reflexivity). set_solver. }
  apply list_elem_of_omap in H as ([] & Hi & H); try discriminate H.
  case_match eqn:Hr; [|discriminate H]. apply String.eqb_eq in Hr as ->. by injection H as ->.
Qed.
Lemma run_returns : is_Some run.1.1.1.
Proof.
  assert (H : match run.1.1.1 with Some _ => true | None => false end = true) by (vm_compute; reflexivity).
  by destruct run.1.1.1.
Qed.
Lemma run_report :
  closed (report run.1.1.2) = ["x:B1"; "x:B3"] /\ bailed (report run.1.1.2) = [] /\
  map sk_block (skipped (report run.1.1.2)) = ["x:B2"].
Proof. by vm_compute. Qed.
End ChainModel.
