(* ===== verification/IntegrateLogic.v ===== *)
(** * Reasoning about the chain loop's programs

    The shared lemmas of the proofs about Integrate.v.  An automaton that reads
    the log of a chain is [calm] in the states where the records of a bail, a
    skip or a stop leave it as it is; a program [keeps] a state when it leaves
    the automaton there, whatever the seams answer. *)

From S2P Require Import Prelude Json Contract Budget Markers Node Workflow Utf8 Effect Escalate Chain Ledger Execute Inbox Preflight LaneLog Integrate.

Local Open Scope string_scope.
Local Open Scope list_scope.
Local Open Scope effect_scope.

Create HintDb life.

Section Logic.
Context {X : Extern} {R : Runtime} {HO : HashOrder} {RF : RustFmt} {RX : RegexCrate} {SM : Seams}.

Definition line_closes (e : LaneLogEntry) : bool := bool_decide (ll_status e = StClosed).

(** The events that record what the loop decided. *)
Definition bookkeeping (e : ChainEvent) : bool :=
  match e with
  | Escalated _ | BailRecorded _ | CheckpointWritten _ => true
  | LineAppended l => negb (line_closes l)
  | _ => false
  end.

Class Bookkeeping {Q : Type} (step : Q -> ChainEvent -> option Q) (calm : Q -> Prop) : Prop := {
  journal_kept q row : step q (Journalled row) = Some q;
  books_kept q e : calm q -> bookkeeping e = true -> step q e = Some q
}.

Context {Q : Type} {step : Q -> ChainEvent -> option Q} {calm : Q -> Prop} {BK : Bookkeeping step calm}.
Variable cfg : ChainConfig.

(** A program that leaves the automaton where it is. *)
Definition keeps {A} (m : P A) (q : Q) : Prop :=
  forall s, ewp step m q (fun _ _ q' => q' = q) s.

Lemma keeps_use {A} (m : P A) q post s :
  keeps m q -> (forall a s', post a s' q) -> ewp step m q post s.
Proof. intros H Hp. eapply ewp_conseq; [apply H|]. by intros a s' q' ->. Qed.

Lemma keeps_bind {A B} (m : P A) (k : A -> P B) q :
  keeps m q -> (forall a, keeps (k a) q) -> keeps (ebind m k) q.
Proof. intros Hm Hk s. apply ewp_bind. apply keeps_use; [done|]. intros a s'. apply Hk. Qed.
Lemma keeps_ret {A} (a : A) q : keeps (eret a) q.
Proof. intros s. by apply ewp_ret. Qed.
Lemma keeps_silent {A} (f : W -> A * W) q : keeps (esilent f) q.
Proof. intros s. by apply ewp_silent. Qed.
Lemma keeps_log e q : step q e = Some q -> keeps (elog e) q.
Proof. intros H s. by eapply ewp_log. Qed.
Lemma keeps_fold {A B} (f : B -> A -> P B) l b q :
  (forall b x, keeps (f b x) q) -> keeps (efold f l b) q.
Proof.
  intros Hf. revert b. induction l as [|x l IH]; intros b; simpl; [apply keeps_ret|].
  apply keeps_bind; [apply Hf|apply IH].
Qed.
Lemma keeps_call_workflow on_progress wf fuel event q :
  keeps (call_workflow on_progress wf fuel event : P _) q.
Proof. intros s. unfold call_workflow, ewp. destruct (run _ _ _ _ s) as [[r w] t]. by exists q. Qed.
End Logic.

#[export] Hint Resolve keeps_ret keeps_silent keeps_call_workflow : life.
#[export] Hint Extern 1 (forall _, ll_status _ <> StClosed) => done : life.

Ltac keeps_go :=
  repeat first
    [ solve [eauto with life]
    | lazymatch goal with
      | |- keeps (ebind _ _) _ => apply keeps_bind; [|intros]
      | |- keeps (elog _) ?q => apply keeps_log; first [apply journal_kept|by apply books_kept|reflexivity]
      | |- keeps (esilent _) _ => apply keeps_silent
      | |- keeps (try_bind _ _) _ => unfold try_bind; apply keeps_bind; [|intros]
      | |- keeps (leave _ _) _ => apply keeps_ret
      | |- keeps (go _) _ => apply keeps_ret
      | |- keeps (efold _ _ _) _ => apply keeps_fold; intros
      end
    | case_match ].
Ltac keeps_step := apply keeps_use; [keeps_go|]; intros.

Section Records.
Context {X : Extern} {R : Runtime} {HO : HashOrder} {RF : RustFmt} {RX : RegexCrate} {SM : Seams}.
Context {Q : Type} {step : Q -> ChainEvent -> option Q} {calm : Q -> Prop} {BK : Bookkeeping step calm}.
Variable cfg : ChainConfig.
Notation keeps := (keeps (step:=step)).

Lemma keeps_profile q : keeps (chain_profile cfg) q.
Proof. unfold chain_profile. keeps_go. Qed.
Lemma keeps_journal run_id st kind reason detail q :
  keeps (emit_journal cfg run_id st kind reason detail) q.
Proof. unfold emit_journal, new_v4, now, act. keeps_go. Qed.
Lemma keeps_run_id ctx q : keeps (journal_run_id ctx) q.
Proof. unfold journal_run_id, new_v4. keeps_go. Qed.
Hint Resolve keeps_profile keeps_journal keeps_run_id : life.

Definition line_error (e : IntegrateError) : Prop :=
  match e with LaneLogSerialize _ _ | LaneLogWriteFailed _ _ => True | _ => False end.
(** Where a line that is written takes the automaton. *)
Lemma append_line_ewp e q q1 post s :
  step q (LineAppended e) = Some q1 ->
  (forall s', post (Ok tt) s' q1) -> (forall err s', line_error err -> post (Err err) s' q) ->
  ewp step (append_lane_log_line cfg e) q post s.
Proof.
  intros Hq Hok Herr. unfold append_lane_log_line. destruct (s_lane_line e); [|ewp_step; by apply Herr].
  do 2 (ewp_step; ewp_step; case_match; [|ewp_step; by apply Herr]). ewp_step. eapply ewp_log; [exact Hq|].
  by ewp_step.
Qed.

Lemma stamped_ewp mk run_id q post s :
  (forall ts profile s', post (with_permission_profile (Some profile)
     (with_identity s_git_sha run_id (mk ts))) s' q) ->
  ewp step (stamped cfg mk run_id) q post s.
Proof.
  intros H. unfold stamped, resolved_permission_profile_identifier, now.
  do 3 ewp_step. apply ewp_bind, keeps_use; [apply keeps_profile|]. intros. do 2 ewp_step. apply H.
Qed.

(** A line that does not close a block changes nothing. *)
Lemma keeps_note_line mk run_id q :
  calm q -> (forall ts, ll_status (mk ts) <> StClosed) -> keeps (note_line cfg mk run_id) q.
Proof.
  intros Hq Hmk s. unfold note_line. ewp_step. apply stamped_ewp. intros ts profile s'.
  ewp_step. eapply append_line_ewp; [|by intros; ewp_step..].
  apply books_kept; [done|]. apply negb_true_iff. apply bool_decide_eq_false, Hmk.
Qed.

Lemma keeps_checkpoint c q : calm q -> keeps (save_checkpoint cfg c) q.
Proof. intros Hq. unfold save_checkpoint. keeps_go. Qed.
Hint Resolve keeps_note_line keeps_checkpoint : life.

Lemma keeps_escalation st lane check_id engine err q :
  calm q -> keeps (record_bail_escalation cfg st lane check_id engine err) q.
Proof.
  intros Hq. unfold record_bail_escalation, subject_repo_short_sha, append_escalation_line,
    append_bail_line, append_record, now_rfc3339, now. keeps_go.
Qed.
Hint Resolve keeps_escalation : life.
Lemma keeps_escalate_bail st check_id err q : calm q -> keeps (escalate_bail cfg st check_id err) q.
Proof. intros Hq. unfold escalate_bail, resolve_engine. keeps_go. Qed.
Lemma keeps_note_bail st note run_id ls q : calm q -> keeps (note_bail cfg st note run_id ls) q.
Proof. intros Hq. unfold note_bail. keeps_go. Qed.
Lemma keeps_bail_after_run {A} st run_id kind err ls q :
  calm q -> keeps (bail_after_run cfg st run_id kind err ls : stage A) q.
Proof.
  intros Hq. unfold bail_after_run, bail_or_skip. keeps_go. by apply keeps_note_bail.
Qed.

(** *** Dependencies, the inbox, the hold *)

Lemma keeps_check_edges st edges q : keeps (check_edges is_edge_met st edges) q.
Proof. induction edges as [|e edges IH]; simpl; unfold edge_met, is_edge_met; keeps_go. Qed.
Hint Resolve keeps_check_edges : life.
Lemma keeps_check_dependencies st q :
  keeps (check_dependencies resolve_depends_on is_edge_met st) q.
Proof. unfold check_dependencies, resolve_depends_on. keeps_go. Qed.
Hint Resolve keeps_check_dependencies : life.

Lemma keeps_find_dependent r b l q : keeps (find_dependent resolve_depends_on r b l) q.
Proof. induction l as [|st l IH]; simpl; unfold resolve_depends_on; keeps_go. Qed.
Hint Resolve keeps_find_dependent : life.

Lemma keeps_unlease handle q : step q Unleased = Some q -> keeps (unlease handle) q.
Proof. intros H. unfold unlease. keeps_go. by apply keeps_log. Qed.
Hint Resolve keeps_unlease : life.

Lemma keeps_process handle lane m skipped summary ec q :
  (forall id, step q (Replied id) = Some q) ->
  keeps (process_drained_message resolve_depends_on is_edge_met now_rfc3339
    (fun m summary => esilent (s_judge_message m summary)) (send_reply handle) lane m skipped summary ec) q.
Proof.
  intros H. unfold process_drained_message, handle_edge_released, compose_finding_or_query_reply,
    send_reply, now_rfc3339, now. keeps_go; by apply keeps_log.
Qed.
Hint Resolve keeps_process : life.

Lemma keeps_wait fuel repo block_id deadline deadline_at q :
  keeps (wait_loop cfg fuel repo block_id deadline deadline_at) q.
Proof. induction fuel as [|fuel IH]; simpl; keeps_go. Qed.
Hint Resolve keeps_wait : life.

(** *** The programs under the permit that run no child *)

Lemma keeps_merge_steps runner repo_path repo block_id branch steps q :
  (forall program args dir, keeps (runner program args dir) q) ->
  keeps (run_steps runner repo_path repo block_id branch steps) q.
Proof. intros H. induction steps as [|[program args] steps IH]; simpl; keeps_go. Qed.

Lemma keeps_ledger st o run_id q :
  (forall n, step q (LedgerAppended n) = Some q) ->
  keeps (compose_and_append_ledger_entries cfg st o run_id) q.
Proof.
  intros H. unfold compose_and_append_ledger_entries, create_ledger_if_absent, merge_append_entries,
    now_rfc3339, now, read_to_string, write_file, compose_candidate. keeps_go; by apply keeps_log.
Qed.
End Records.

(** The instance of [Bookkeeping] is found as each lemma is applied. *)
#[export] Hint Extern 1 (keeps (chain_profile _) _) => apply keeps_profile : life.
#[export] Hint Extern 1 (keeps (emit_journal _ _ _ _ _ _) _) => apply keeps_journal : life.
#[export] Hint Extern 1 (keeps (journal_run_id _) _) => apply keeps_run_id : life.
#[export] Hint Extern 1 (keeps (note_line _ _ _) _) => apply keeps_note_line : life.
#[export] Hint Extern 1 (keeps (save_checkpoint _ _) _) => apply keeps_checkpoint : life.
#[export] Hint Extern 1 (keeps (record_bail_escalation _ _ _ _ _ _) _) => apply keeps_escalation : life.
#[export] Hint Extern 1 (keeps (escalate_bail _ _ _ _) _) => apply keeps_escalate_bail : life.
#[export] Hint Extern 1 (keeps (note_bail _ _ _ _ _) _) => apply keeps_note_bail : life.
#[export] Hint Extern 1 (keeps (bail_after_run _ _ _ _ _ _) _) => apply keeps_bail_after_run : life.
#[export] Hint Extern 1 (keeps (check_dependencies _ _ _) _) => apply keeps_check_dependencies : life.
#[export] Hint Extern 1 (keeps (unlease _) _) => apply keeps_unlease : life.
#[export] Hint Extern 1 (keeps (process_drained_message _ _ _ _ _ _ _ _ _ _) _) => apply keeps_process : life.
#[export] Hint Extern 1 (keeps (wait_loop _ _ _ _ _ _) _) => apply keeps_wait : life.
