(* ===== verification/Lifecycle.v ===== *)
(** * The life of a block in a chain

    An abstract automaton of the chain loop (Integrate.v): one block in hand at
    a time, from its permit to the permit's return.  [chain_run_refines_lifecycle]
    is the refinement: whatever the seams answer, the log of a run is a word of
    the automaton.  [closed_block_ran] reads off the automaton what must have
    happened before a block is closed. *)

From S2P Require Import Prelude Json Contract Budget Markers Node Workflow Utf8 Effect Escalate Chain Ledger Execute Inbox Preflight LaneLog Integrate ChainModel IntegrateLogic.

Local Open Scope string_scope.
Local Open Scope list_scope.
Local Open Scope effect_scope.

(** ** The life of a block, abstractly *)

Inductive progress := Waiting | Ran | Lined | Shut | Saved | Seen | Dispatched.
(** No block is in hand, or one is: its permit is held, and maybe its lease. *)
Inductive phase := Idle | InHand (repo block_id : string) (leased : bool) (p : progress).

#[export] Instance progress_eq_dec : EqDecision progress.
Proof. solve_decision. Defined.

Section Facts.
Context {X : Extern} {R : Runtime} {HO : HashOrder} {RF : RustFmt} {RX : RegexCrate} {SM : Seams}.

(** [needs_lease]: the chain has a coordination handle. *)
Definition life (needs_lease : bool) (q : phase) (e : ChainEvent) : option phase :=
  match e, q with
  | Journalled _, _ | Escalated _, _ | BailRecorded _, _ => Some q
  | LineAppended l, Idle => if line_closes l then None else Some q
  | LineAppended l, InHand r b lease p =>
      if line_closes l then
        if bool_decide (p = Ran /\ ll_repo l = r /\ ll_block l = b /\ is_Some (ll_profile l)
                        /\ is_Some (ll_run_id l))
        then Some (InHand r b lease Lined) else None
      else Some q
  | CheckpointWritten c, InHand r b lease Shut =>
      match last (steps c) with
      | Some cs => if bool_decide (cp_repo cs = r /\ cp_block_id cs = b /\ integrated cs = true)
                   then Some (InHand r b lease Saved) else None
      | None => None
      end
  | CheckpointWritten _, _ => Some q
  | RunRecord _, Idle | Registered, Idle | Replied _, Idle | Unleased, Idle => Some Idle
  | Unleased, InHand r b _ p => Some (InHand r b false p)
  | PermitAcquired r b, Idle => Some (InHand r b false Waiting)
  | PermitReleased r b, InHand r' b' _ _ => if bool_decide (r = r' /\ b = b') then Some Idle else None
  | Heartbeat b, InHand r b' false Waiting => if bool_decide (b = b') then Some q else None
  | Leased b, InHand r b' false Waiting =>
      if bool_decide (b = b') then Some (InHand r b true Waiting) else None
  | FlowRun i, InHand r b lease Waiting =>
      if bool_decide (fi_repo i = r /\ fi_block_id i = b /\ lease = needs_lease)
      then Some (InHand r b lease Ran) else None
  | WorkflowRun k, InHand r b lease Waiting =>
      if bool_decide (k = b /\ lease = needs_lease) then Some (InHand r b lease Dispatched) else None
  | CommandRun _ _ _, InHand r b lease Ran => Some q
  | LedgerAppended _, InHand r b lease Lined => Some q
  | BlockClosed r b, InHand r' b' lease Lined =>
      if bool_decide (r = r' /\ b = b') then Some (InHand r b lease Shut) else None
  | Observed p, InHand r b lease Saved =>
      if bool_decide (sp_repo p = r /\ sp_block_id p = b) then Some (InHand r b lease Seen) else None
  | _, _ => None
  end.

Definition not_shut (q : phase) : Prop := match q with InHand _ _ _ Shut => False | _ => True end.
#[local] Hint Extern 1 (not_shut (InHand _ _ _ _)) => exact I : life.
#[local] Hint Extern 1 (not_shut Idle) => exact I : life.

#[export] Instance life_bookkeeping L : Bookkeeping (life L) not_shut.
Proof.
  split; [by intros []|]. intros q e Hq He.
  destruct e; try done; simpl in He; try apply negb_true_iff in He; simpl; try done.
  - destruct q; by rewrite He.
  - by destruct q as [|r b l []].
Qed.

Variable cfg : ChainConfig.
Variable L : bool.
Hypothesis HL : L = bool_decide (is_Some (coord cfg)).
Notation lifecycle := (life L).
Notation keeps := (keeps (step:=lifecycle)).

(** *** Before the permit *)

Lemma keeps_drain chain step st : keeps (drain_inbox cfg chain step st) Idle.
Proof.
  unfold drain_inbox, handle_drained, triage_message, verified_sha, subject_repo_short_sha,
    append_escalation_line, append_record. keeps_go.
Qed.

Lemma keeps_gates fuel step st : keeps (gates cfg fuel step st) Idle.
Proof.
  unfold gates, pending_gate, cancel_gate, is_cancelled, stop_cancelled, budget_gate, status_gate,
    chain_edge_gate, dependency_gate, permission_gate, hold_gate, wait_for_clearance, bail_or_skip,
    refuse, skip_step, check_permission_gate, author, resolve_depends_on.
  keeps_go.
Qed.

(** *** Under the permit *)

Definition in_hand (step : ChainStep) (q : phase) : Prop :=
  exists l p, q = InHand (repo step) (block_id step) l p.
Notation hand step p := (InHand (repo step) (block_id step) L p).

Lemma in_hand_intro step l p : in_hand step (InHand (repo step) (block_id step) l p).
Proof. by exists l, p. Qed.
#[local] Hint Resolve in_hand_intro : life.

(** An event of the life cycle, its side condition decided. *)
Ltac life_log :=
  eapply ewp_log; [cbn; by rewrite bool_decide_eq_true_2|].

Lemma coord_life chain step st post s :
  (forall s', post (Ok st) s' (hand step Waiting)) ->
  (forall t s' q, in_hand step q -> post (Err t) s' q) ->
  ewp lifecycle (coord_gate cfg chain step st) (InHand (repo step) (block_id step) false Waiting) post s.
Proof.
  intros Hok Herr. unfold coord_gate.
  assert (Hl : L = match coord cfg with Some _ => true | None => false end)
    by (rewrite HL; by destruct (coord cfg)).
  destruct (coord cfg) as [handle|]; rewrite Hl in Hok; [|by apply ewp_ret].
  do 2 ewp_step. case_match.
  - ewp_step. life_log. do 2 ewp_step. case_match.
    + ewp_step. life_log. by apply ewp_ret.
    + ewp_step. keeps_step. ewp_step. keeps_step. apply ewp_ret. auto with life.
  - ewp_step. keeps_step. ewp_step. keeps_step. apply ewp_ret. auto with life.
Qed.

Lemma preflight_life step st q post s :
  not_shut q ->
  (forall x s', post x s' q) -> ewp lifecycle (preflight_stage cfg step st) q post s.
Proof.
  intros Hq Hp. apply keeps_use; [|done]. unfold preflight_stage, bail_preflight, bail_or_skip. keeps_go.
Qed.

Lemma execute_step_life step wt pr camp tok bud parent req pf pt post s :
  (forall o s', eo_repo o = repo step -> eo_block_id o = block_id step -> post (Ok o) s' (hand step Ran)) ->
  (forall e s' q, in_hand step q -> not_shut q -> post (Err e) s' q) ->
  ewp lifecycle (execute_step resolve_engine (registry cfg) run_flow (fun p => esilent (s_canonicalize p))
    step wt pr camp tok bud parent req pf pt) (hand step Waiting) post s.
Proof.
  intros Hok Herr. unfold execute_step.
  case_match; [apply ewp_ret; by auto with life|]. case_match; [|apply ewp_ret; by auto with life].
  case_match; [|apply ewp_ret; by auto with life].
  unfold resolve_engine. ewp_step. keeps_step. ewp_step. keeps_step. ewp_step. unfold run_flow. ewp_step.
  life_log. ewp_step. case_match; [|apply ewp_ret; by auto with life].
  case_match; [apply ewp_ret; by auto with life|]. destruct (step_spend _). apply ewp_ret. by apply Hok.
Qed.

Lemma execute_life step st post s :
  (forall o s', eo_repo o = repo step -> eo_block_id o = block_id step -> post (Ok o) s' (hand step Ran)) ->
  (forall t s' q, in_hand step q -> post (Err t) s' q) ->
  ewp lifecycle (execute_stage cfg step st) (hand step Waiting) post s.
Proof.
  intros Hok Herr. unfold execute_stage. ewp_step. keeps_step. ewp_step.
  apply execute_step_life; [by intros; apply ewp_ret, Hok|]. intros e ? q Hq Hn.
  do 4 (ewp_step; keeps_step). apply ewp_ret. by apply Herr.
Qed.

Lemma keeps_merge step o run_id st r b : keeps (merge_stage cfg step o run_id st) (InHand r b L Ran).
Proof.
  unfold merge_stage, merge_step_branch. keeps_go.
  apply keeps_merge_steps. intros. unfold runner. keeps_go.
Qed.

Lemma save_checkpoint_life step c cs l post s :
  last (steps c) = Some cs -> cp_repo cs = repo step -> cp_block_id cs = block_id step ->
  integrated cs = true ->
  (forall s', post (Ok tt) s' (InHand (repo step) (block_id step) l Saved)) ->
  (forall e s', post (Err e) s' (InHand (repo step) (block_id step) l Shut)) ->
  ewp lifecycle (save_checkpoint cfg c) (InHand (repo step) (block_id step) l Shut) post s.
Proof.
  intros Hc H1 H2 H3 Hok Herr. unfold save_checkpoint. do 6 ewp_step.
  match goal with |- ewp _ (match ?x with _ => _ end) _ _ _ => destruct x as [[]|] end;
    [|by ewp_step].
  ewp_step. eapply ewp_log; [|by ewp_step]. cbn. rewrite Hc. by rewrite bool_decide_eq_true_2.
Qed.

Lemma close_life total step o run_id note st post s :
  eo_repo o = repo step -> eo_block_id o = block_id step ->
  (forall x s' q, in_hand step q -> post x s' q) ->
  ewp lifecycle (close_stage cfg total step o run_id note st) (hand step Ran) post s.
Proof.
  intros Hr Hb Hp. unfold close_stage. ewp_step. apply stamped_ewp. intros ts profile s1.
  ewp_step. apply ewp_ret. ewp_step.
  eapply append_line_ewp; [cbn; by rewrite bool_decide_eq_true_2 by eauto 10| |];
    intros; ewp_step; apply ewp_ret; [|by auto with life].
  ewp_step. apply keeps_use; [by apply keeps_ledger|]. intros. ewp_step. keeps_step. ewp_step. life_log.
  ewp_step. keeps_step. ewp_step.
  eapply save_checkpoint_life; [by cbn; rewrite last_snoc|done..| |]; intros; ewp_step; apply ewp_ret;
    [|by auto with life].
  ewp_step. keeps_step. ewp_step. life_log. apply ewp_ret. auto with life.
Qed.

Lemma block_life total step st post s :
  (forall x s' q, in_hand step q -> post x s' q) ->
  ewp lifecycle (block_arm cfg total step st) (hand step Waiting) post s.
Proof.
  intros Hp. unfold block_arm. ewp_step. apply preflight_life; [done|].
  intros [[st' note]|] s1; [|by auto with life]. ewp_step. apply execute_life; [|by auto with life].
  intros o s2 Hr Hb. ewp_step. keeps_step. ewp_step. keeps_step. ewp_step.
  apply keeps_use; [unfold verify_stage, read_to_string; keeps_go|]. intros [[]|] ?; [|by auto with life].
  ewp_step. apply keeps_use; [apply keeps_merge|]. intros [[]|] ?; [|by auto with life].
  by apply close_life.
Qed.

Lemma dispatch_life fuel step st post s :
  (forall x s' q, in_hand step q -> post x s' q) ->
  ewp lifecycle (dispatch_arm cfg fuel step st) (hand step Waiting) post s.
Proof.
  intros Hp. unfold dispatch_arm.
  destruct (dispatcher cfg) as [d|]; [|apply keeps_use; [keeps_go|]; by auto with life].
  ewp_step. life_log. apply keeps_use; [|by auto with life].
  unfold execute_dispatch_step, journal_dispatch. keeps_go.
Qed.

Lemma keeps_phase_unlease handle step p l post s :
  (forall s' q, in_hand step q -> post tt s' q) ->
  ewp lifecycle (unlease handle) (InHand (repo step) (block_id step) l p) post s.
Proof.
  intros Hp. unfold unlease. do 2 ewp_step. destruct a as [[]|]; [|by apply ewp_ret; auto with life..].
  eapply ewp_log; [reflexivity|]. auto with life.
Qed.

Lemma admitted_life fuel chain step st post s :
  (forall x s' q, in_hand step q -> post x s' q) ->
  ewp lifecycle (admitted_arm cfg fuel chain step st)
    (InHand (repo step) (block_id step) false Waiting) post s.
Proof.
  intros Hp. unfold admitted_arm. ewp_step. apply coord_life; [|by auto with life]. intros s1.
  unfold with_lease. ewp_step.
  assert (Hdone : forall x s' q, in_hand step q ->
    ewp lifecycle (match coord cfg with Some handle => unlease handle | None => eret tt end ;~ eret x)
      q post s').
  { intros x s' q (l & p & ->). ewp_step. destruct (coord cfg).
    - apply keeps_phase_unlease. intros. apply ewp_ret. by apply Hp.
    - do 2 ewp_step. auto with life. }
  destruct (bool_decide (step_kind step = DispatchStep)); [apply dispatch_life|apply block_life]; auto.
Qed.

Lemma permit_life fuel chain step st s :
  ewp lifecycle (with_permit step (admitted_arm cfg fuel chain step st)) Idle
    (fun _ _ q => q = Idle) s.
Proof.
  unfold with_permit. ewp_step. keeps_step. ewp_step. eapply ewp_log; [reflexivity|].
  ewp_step. apply admitted_life. intros x ? q (l & p & ->). ewp_step. keeps_step. ewp_step.
  eapply ewp_log; [cbn; by rewrite bool_decide_eq_true_2|]. by ewp_step.
Qed.

Lemma iteration_life fuel chain step st : keeps (iteration cfg fuel chain step st) Idle.
Proof.
  intros s. unfold iteration. ewp_step. apply keeps_use; [apply keeps_drain|]. intros st' s1.
  do 2 ewp_step. apply keeps_use; [apply keeps_gates|]. intros [st2|x] s2; [|by ewp_step].
  eapply ewp_conseq; [apply permit_life|]. intros r s3 q ->. by ewp_step.
Qed.

Lemma loop_life turns fuel chain st : keeps (integrate_loop cfg turns fuel chain st) Idle.
Proof.
  revert st. induction turns as [|turns IH]; intros st; simpl; destruct (step_queue st);
    try apply keeps_ret. apply keeps_bind; [apply iteration_life|]. intros [turn st'].
  destruct turn; first [apply IH|apply keeps_ret].
Qed.

Lemma inner_life fuel chain : keeps (integrate_chain_impl_inner cfg fuel chain) Idle.
Proof.
  unfold integrate_chain_impl_inner. apply keeps_bind; [by apply keeps_silent|]. intros cp.
  apply keeps_bind; [unfold register_chain; keeps_go|]. intros [[]|]; [apply loop_life|apply keeps_ret].
Qed.
End Facts.

Section Runs.
Context {X : Extern} {R : Runtime} {HO : HashOrder} {RF : RustFmt} {RX : RegexCrate} {SM : Seams}.

Definition lifecycle_of (cfg : ChainConfig) : phase -> ChainEvent -> option phase :=
  life (bool_decide (is_Some (coord cfg))).

Definition sink_event (cfg : ChainConfig) (l : RunRecordLifecycle) : list ChainEvent :=
  if has_run_record_sink cfg then [RunRecord l] else [].

(** The record sink brackets the run of the loop. *)
Lemma run_split cfg fuel chain w r s w' t :
  integrate_chain_impl cfg fuel chain w = ((r, s), w', t) ->
  exists w1 w2 x t', integrate_chain_impl_inner cfg fuel chain w1 = ((x, s), w2, t') /\
    r = answer_of x s /\
    t = sink_event cfg Started ++ t' ++ (if r then sink_event cfg Terminal else []).
Proof.
  unfold integrate_chain_impl. intros H.
  apply ebind_inv in H as ([] & w1 & t1 & t2 & H1 & H & ->).
  apply ebind_inv in H as ([x s'] & w2 & t3 & t4 & H2 & H & ->).
  apply ebind_inv in H as ([] & w3 & t5 & t6 & H3 & H & ->).
  apply eret_inv in H as ([= -> ->] & -> & ->). rewrite app_nil_r.
  assert (Hrec : forall l w0 u w0' t0, run_record cfg l w0 = (u, w0', t0) -> t0 = sink_event cfg l).
  { unfold run_record, sink_event, act. intros l w0 u w0' t0 H. destruct (has_run_record_sink cfg).
    - by injection H as <- <- <-.
    - by injection H as <- <- <-. }
  apply Hrec in H1 as ->. exists w1, w2, x, t3. split_and!; [done|done|].
  destruct x as [[[]|]|]; simpl; [by apply Hrec in H3 as ->..|by injection H3 as _ <-].
Qed.

Lemma run_life cfg fuel chain w r s w' t :
  integrate_chain_impl cfg fuel chain w = ((r, s), w', t) -> arun (lifecycle_of cfg) Idle t = Some Idle.
Proof.
  intros H. apply run_split in H as (w1 & w2 & x & t' & H & _ & ->).
  destruct (ewp_run _ _ _ _ _ _ _ _ (inner_life cfg _ eq_refl fuel chain w1) H) as (q & Hq & ->).
  assert (Hs : forall l t0, arun (lifecycle_of cfg) Idle (sink_event cfg l ++ t0) = arun (lifecycle_of cfg) Idle t0)
    by (intros l t0; unfold sink_event; by destruct (has_run_record_sink cfg)).
  rewrite Hs, arun_app. fold (lifecycle_of cfg) in Hq. rewrite Hq.
  destruct r; [|done]. rewrite <- (app_nil_r (sink_event cfg Terminal)). by rewrite Hs.
Qed.

(** C2: every run of a chain follows the life cycle of its blocks.  The events
    of a run, whatever the seams answer, are a word of the abstract automaton
    that handles one block at a time: permit, heartbeat and lease, at most one
    child run and only under the lease, the git commands of its merge, one
    stamped closed line, the ledger entries, the close, the checkpoint that
    names the block, the progress report, and the permit given back; the
    automaton ends where no block is in hand.  The record sink brackets the
    whole: it hears [Started] first and, when the run returns, [Terminal]
    last. *)
Theorem chain_run_refines_lifecycle cfg fuel chain w r s w' t :
  integrate_chain_impl cfg fuel chain w = ((r, s), w', t) ->
  arun (lifecycle_of cfg) Idle t = Some Idle /\
  exists t', t = sink_event cfg Started ++ t' ++ (if r then sink_event cfg Terminal else []).
Proof.
  intros H. split; [by eapply run_life|].
  apply run_split in H as (w1 & w2 & x & t' & H & _ & Ht). by exists t'.
Qed.

(** *** What the automaton remembers *)

Definition held_on (e : ChainEvent) : bool := match e with PermitReleased _ _ => false | _ => true end.
Definition ran_in (L : bool) (r b : string) (t : list ChainEvent) : Prop :=
  exists ta i tb, t = ta ++ FlowRun i :: tb /\ fi_repo i = r /\ fi_block_id i = b /\
    (L = true -> Leased b ∈ ta).
Definition closing_line (r b : string) (e : LaneLogEntry) : Prop :=
  ll_status e = StClosed /\ ll_repo e = r /\ ll_block e = b /\ is_Some (ll_profile e) /\
  is_Some (ll_run_id e).
Definition lined_in (L : bool) (r b : string) (t : list ChainEvent) : Prop :=
  exists t1 e t2, t = t1 ++ LineAppended e :: t2 /\ ran_in L r b t1 /\ closing_line r b e.
(** since the permit of the block in hand *)
Definition history (L : bool) (r b : string) (leased : bool) (p : progress) (t : list ChainEvent) : Prop :=
  Forall (fun e => held_on e = true) t /\ (leased = true -> Leased b ∈ t) /\
  match p with
  | Waiting | Dispatched => True
  | Ran => ran_in L r b t
  | Lined | Shut | Saved | Seen => lined_in L r b t
  end.
Definition remembers (L : bool) (q : phase) (t : list ChainEvent) : Prop :=
  match q with
  | Idle => True
  | InHand r b leased p => exists t0 t1, t = t0 ++ PermitAcquired r b :: t1 /\ history L r b leased p t1
  end.

Lemma ran_in_snoc L r b t e : ran_in L r b t -> ran_in L r b (t ++ [e]).
Proof.
  intros (ta & i & tb & -> & H). exists ta, i, (tb ++ [e]). by rewrite <- app_assoc.
Qed.
Lemma lined_in_snoc L r b t e : lined_in L r b t -> lined_in L r b (t ++ [e]).
Proof.
  intros (t1 & l & t2 & -> & H). exists t1, l, (t2 ++ [e]). by rewrite <- app_assoc.
Qed.

Lemma history_snoc L r b leased p t e :
  history L r b leased p t -> held_on e = true -> history L r b leased p (t ++ [e]).
Proof.
  intros (H1 & H2 & H3) He. split_and!.
  - apply Forall_app. by repeat constructor.
  - intros Hl. apply elem_of_app. left. auto.
  - destruct p; auto using ran_in_snoc, lined_in_snoc.
Qed.

Lemma life_remembers L q e q' t :
  remembers L q t -> life L q e = Some q' -> remembers L q' (t ++ [e]).
Proof.
  intros Hr Hl.
  assert (Hkeep : forall r b l p, q = InHand r b l p -> held_on e = true ->
    remembers L (InHand r b l p) (t ++ [e])).
  { intros r b l p -> He. destruct Hr as (t0 & t1 & -> & Hh). exists t0, (t1 ++ [e]).
    rewrite <- app_assoc. split; [done|]. by apply history_snoc. }
  assert (Hnew : forall r b l p l' p', q = InHand r b l p -> held_on e = true ->
    (forall t1, history L r b l p t1 -> history L r b l' p' (t1 ++ [e])) ->
    remembers L (InHand r b l' p') (t ++ [e])).
  { intros r b l p l' p' -> He Hh. destruct Hr as (t0 & t1 & -> & Hh1). exists t0, (t1 ++ [e]).
    rewrite <- app_assoc. auto. }
  destruct q as [|r b l p].
  { destruct e; simpl in Hl; repeat case_match; simplify_eq; try done.
    exists t, []. split; [done|]. by repeat constructor. }
  destruct e; simpl in Hl; try discriminate Hl;
    repeat (case_match; try discriminate Hl); rewrite ?bool_decide_eq_true in *;
    destruct_and?; simplify_eq; try by eauto.
  all: eapply Hnew; [reflexivity|done|]; intros t1 Hh;
    match goal with |- history _ _ _ _ _ (t1 ++ [?ev]) =>
      destruct (history_snoc _ _ _ _ _ _ ev Hh eq_refl) as (Hf & Hle & Hp) end;
    destruct Hh as (_ & Hl1 & Hp1); split_and!; try done.
  - eexists t1, _, []. split_and!; [done|done|]. split_and!; try done. by apply bool_decide_eq_true in H.
  - intros _. apply elem_of_app. right. left.
  - by eexists t1, _, [].
Qed.

Lemma run_remembers L t q : arun (life L) Idle t = Some q -> remembers L q t.
Proof.
  revert q. induction t as [|e t IH] using rev_ind; intros q H; [by injection H as <-|].
  rewrite arun_app in H. destruct (arun (life L) Idle t) as [q1|] eqn:E; [|done]. simpl in H.
  destruct (life L q1 e) as [q2|] eqn:E2; [|done]. injection H as <-.
  eapply life_remembers; [by apply IH|done].
Qed.

(** A block is closed only after it ran and its line was written.  Wherever
    a run closes a block, that block's permit had been taken and not given
    back; since then, in this order, a child was run for exactly that block,
    under its lease when the chain coordinates, and the closed line of that
    block was appended with its profile and run id stamped. *)
Theorem closed_block_ran cfg fuel chain w x w' t t1 r b t2 :
  integrate_chain_impl cfg fuel chain w = (x, w', t) -> t = t1 ++ BlockClosed r b :: t2 ->
  exists t0 ta i tb e tc,
    t1 = t0 ++ PermitAcquired r b :: ta ++ FlowRun i :: tb ++ LineAppended e :: tc /\
    Forall (fun ev => held_on ev = true) (ta ++ tb ++ tc) /\
    fi_repo i = r /\ fi_block_id i = b /\ (is_Some (coord cfg) -> Leased b ∈ ta) /\
    closing_line r b e.
Proof.
  destruct x as [res s]. intros H ->. apply run_life in H. rewrite arun_app in H.
  destruct (arun (lifecycle_of cfg) Idle t1) as [q|] eqn:E; [|done]. apply run_remembers in E.
  destruct q as [|r' b' l []]; simpl in H; try done. case_bool_decide as Heq; [|done].
  destruct Heq as [-> ->]. destruct E as (t0 & tr & -> & Hheld & _ & Hlined).
  destruct Hlined as (tl & e & tc & -> & (ta & i & tb & -> & Hr & Hb & Hl) & He).
  exists t0, ta, i, tb, e, tc. split_and!; try done.
  - by rewrite <- app_assoc.
  - rewrite <- !app_assoc, !Forall_app in *. simpl in Hheld. rewrite !Forall_cons in Hheld.
    naive_solver.
  - intros Hc. apply Hl. by apply bool_decide_eq_true.
Qed.
End Runs.

(** ** A chain that runs *)

Lemma chain_run_refines_lifecycle_witness :
  let '((r, s), w', t) := ChainModel.run in
  ChainModel.children t = ["B1"; "B3"] /\ is_Some r /\
  arun (lifecycle_of ChainModel.cfg) Idle t = Some Idle.
Proof.
  pose proof ChainModel.run_children as Hc. pose proof ChainModel.run_returns as Hr.
  destruct ChainModel.run as [[[r s] w'] t] eqn:E. split_and!; [exact Hc|exact Hr|].
  by apply (chain_run_refines_lifecycle ChainModel.cfg 40 ChainModel.chain 0%Z r s w' t E).
Defined.

Lemma closed_block_ran_witness :
  exists t1 t2 t0 ta i tb e tc, ChainModel.run.2 = t1 ++ BlockClosed "x" "B3" :: t2 /\
    t1 = t0 ++ PermitAcquired "x" "B3" :: ta ++ FlowRun i :: tb ++ LineAppended e :: tc /\
    fi_block_id i = "B3" /\ Leased "B3" ∈ ta.
Proof.
  destruct (list_elem_of_split _ _ ChainModel.run_closes) as (t1 & t2 & H). destruct ChainModel.run as [[x w'] t] eqn:E. simpl in H.
  destruct (closed_block_ran ChainModel.cfg 40 ChainModel.chain 0%Z x w' t t1 "x" "B3" t2 E H)
    as (t0 & ta & i & tb & e & tc & H1 & _ & _ & H2 & H3 & _).
  exists t1, t2, t0, ta, i, tb, e, tc. split_and!; try done. apply H3. by eexists.
Defined.
