(* ===== verification/Accounting.v ===== *)
(** * What a chain's reports account for

    The chain loop (Integrate.v) seen as a machine on its books: the queue, the
    outcomes, the steps that are gone, and the report.  [iteration_spec] gives
    every way one turn can leave the books, [gates_spec] what the gates asked,
    call by call, when they let a step through; the theorems follow by induction
    on the turns: no child runs past a gate, the report accounts for the chain,
    and the loop ends. *)

From S2P Require Import Prelude Json Contract Budget Markers Node Workflow Utf8 Effect Escalate Chain Ledger Execute Inbox Preflight LaneLog Integrate ChainModel IntegrateLogic Lifecycle.

Local Open Scope string_scope.
Local Open Scope list_scope.
Local Open Scope effect_scope.

Section Accounting.
Context {X : Extern} {R : Runtime} {HO : HashOrder} {RF : RustFmt} {RX : RegexCrate} {SM : Seams}.

(** The automaton that collects the child runs. *)
Definition flows (q : list FlowInvocation) (e : ChainEvent) : option (list FlowInvocation) :=
  Some (match e with FlowRun i => q ++ [i] | _ => q end).
#[export] Instance flows_bookkeeping : Bookkeeping flows (fun _ => True).
Proof. split; [done|]. by intros q []. Qed.

(** ** The books *)

Record Books := mkBooks {
  b_queue : list ChainStep;
  b_outcomes : list ExecutionOutcome;
  b_gone : gset (string * string);
  b_skipped : list ChainStep;
  b_requeued : gset (string * string);
  b_ledger : CampaignLedger;
  b_pending : bool;
  b_report : ChainReport
}.
Definition books (s : LoopState) : Books :=
  mkBooks (step_queue s) (outcomes s) (bailed_or_skipped s) (skipped_steps s) (requeued_once s)
    (campaign_ledger s) (pending_skip s) (report s).

Definition bk_pending (p : bool) (b : Books) : Books :=
  mkBooks (b_queue b) (b_outcomes b) (b_gone b) (b_skipped b) (b_requeued b) (b_ledger b) p (b_report b).
Definition bk_skip (step : ChainStep) (reason : string) (by_ : option value) (b : Books) : Books :=
  mkBooks (b_queue b) (b_outcomes b) ({[step_key step]} ∪ b_gone b) (b_skipped b ++ [step])
    (b_requeued b) (b_ledger b) (b_pending b)
    (mkChainReport (closed (b_report b)) (bailed (b_report b))
       (skipped (b_report b) ++ [mkSkippedStep (step_name step) reason by_])).
Definition bk_bail (step : ChainStep) (b : Books) : Books :=
  mkBooks (b_queue b) (b_outcomes b) ({[step_key step]} ∪ b_gone b) (b_skipped b)
    (b_requeued b) (b_ledger b) (b_pending b)
    (mkChainReport (closed (b_report b)) (bailed (b_report b) ++ [step_name step])
       (skipped (b_report b))).
Definition bk_close (step : ChainStep) (o : ExecutionOutcome) (b : Books) : Books :=
  mkBooks (b_queue b) (b_outcomes b ++ [o]) (b_gone b) (b_skipped b) (b_requeued b)
    (record_step (b_ledger b) (eo_cost_usd o) (eo_total_tokens o)) (b_pending b)
    (mkChainReport (closed (b_report b) ++ [step_name step]) (bailed (b_report b))
       (skipped (b_report b))).
Definition bk_requeue (step : ChainStep) (b : Books) : Books :=
  if bool_decide (step_key step ∈ b_requeued b) then b
  else mkBooks (b_queue b ++ [step]) (b_outcomes b) (b_gone b)
         (filter (fun s' => step_key s' <> step_key step) (b_skipped b))
         ({[step_key step]} ∪ b_requeued b) (b_ledger b) (b_pending b) (b_report b).

Lemma books_requeue step s : books (requeue step s) = bk_requeue step (books s).
Proof. unfold requeue, bk_requeue. simpl. by destruct (bool_decide _). Qed.

(** ** What was asked and answered *)

Definition asked {A} (f : W -> A * W) (a : A) : Prop := exists w w', f w = (a, w').

Variable cfg : ChainConfig.
Variable fuel : nat.

(** Draining the inbox puts skipped steps back, when messages are triaged. *)
Definition triages : Prop :=
  is_Some (coord cfg) /\ inbox_triage_enabled cfg = true /\ has_inbox_triage_runner cfg = true.
Inductive drained : Books -> Books -> Prop :=
| drained_refl b : drained b b
| drained_requeue step b b' :
    triages -> step ∈ b_skipped b -> drained (bk_requeue step b) b' -> drained b b'.

Lemma drained_trans b1 b2 b3 : drained b1 b2 -> drained b2 b3 -> drained b1 b3.
Proof. induction 1; [done|]. intros H'. econstructor; eauto. Qed.

(** *** What lets a step through, call by call *)

(** Cancellation is polled, and is not asked for. *)
Definition polled (w w' : W) : Prop :=
  match cancellation_token cfg with
  | Some f => w_read_flag f w = (false, w')
  | None => w' = w
  end.

(** What the closed steps spent is below each cap that is set. *)
Definition affordable (l : CampaignLedger) : Prop :=
  forall b, campaign_budget cfg = Some b ->
    (forall cap, max_total_tokens b = Some cap -> (camp_total_tokens l < cap)%Z) /\
    (forall cap, max_cost_usd b = Some cap -> f64_ge (camp_total_cost_usd l) cap = false).

(** Each dependency is a block and was answered to be met, in their order. *)
Fixpoint all_met (edges : list DependencyEdge) (w w' : W) : Prop :=
  match edges with
  | [] => w' = w
  | EdgeBlock r i :: edges => exists w1, s_is_edge_met r i w = (true, w1) /\ all_met edges w1 w'
  | _ => False
  end.

(** What each profile permits. *)
Definition may (p : PermissionProfile) (a : GatedAction) : Prop :=
  p = Standard /\ a ∈ [PushToMain; CrossRepoWrite; Notify] \/
  p = Unrestricted /\ a ∈ [InstallOnMini; PushToMain; CrossRepoWrite; Notify; WakeLane; RunDrain].

(** The step's action, if it has one, is permitted by the profile that the
    brain's configuration has as its default. *)
Definition permitted (step : ChainStep) (w w' : W) : Prop :=
  exists a w1, s_resolve_action (repo step) (block_id step) w = (a, w1) /\
    match a with
    | None => w' = w1
    | Some action => exists config level id p,
        s_load_brain_config (path_join (brain_root (registry cfg)) "brain.toml") w1 = (Ok config, w') /\
        default_level config = Some level /\ level_of config level = Some id /\
        level_id_to_profile id = Some p /\ may p action
    end.

(** The sleep before a hold is asked for again: the deadline is not reached, and
    the sleep does not go past it. *)
Definition sleeps (deadline_at : option Z) (w : W) (tick : Z) (w' : W) : Prop :=
  match deadline_at with
  | None => tick = poll_interval cfg /\ w' = w
  | Some at_ => exists t1 w1 t2, s_instant_now w = (t1, w1) /\ (t1 < at_)%Z /\
      s_instant_now w1 = (t2, w') /\ tick = Z.min (poll_interval cfg) (u64_sat_sub at_ t2)
  end.

(** The wait on a hold: it is asked for until it is not there, before the
    deadline, with a sleep after each time that cancellation may cut short. *)
Inductive waited (step : ChainStep) (deadline_at : option Z) : W -> W -> Prop :=
| waited_clear w w' : s_is_held (repo step) (block_id step) w = (false, w') -> waited step deadline_at w w'
| waited_more w w1 tick w2 woken w3 w' :
    s_is_held (repo step) (block_id step) w = (true, w1) -> sleeps deadline_at w1 tick w2 ->
    s_select (repo step) (block_id step) tick (cancellation_token cfg) w2 = (woken, w3) ->
    woken = false \/ cancellation_token cfg = None ->
    waited step deadline_at w3 w' -> waited step deadline_at w w'
| waited_woken w w1 tick w2 w' :
    s_is_held (repo step) (block_id step) w = (true, w1) -> sleeps deadline_at w1 tick w2 ->
    s_select (repo step) (block_id step) tick (cancellation_token cfg) w2 = (true, w') ->
    is_Some (cancellation_token cfg) -> waited step deadline_at w w'.

Definition unheld (step : ChainStep) (w w' : W) : Prop :=
  match hold_deadline cfg with
  | None => waited step None w w'
  | Some d => exists t w1, s_instant_now w = (t, w1) /\ waited step (Some (t + d)%Z) w1 w'
  end.

Record let_through (step : ChainStep) (s : LoopState) (w w' : W) : Prop := {
  lt_pending : pending_skip s = false;
  lt_budget : affordable (campaign_ledger s);
  lt_calls : exists w1 status w2 edges w3 edges' w4 w5 w6 w7,
    polled w w1 /\
    s_block_status (repo step) (block_id step) w1 = (Row status, w2) /\
    status ∉ ["closed"; "wontfix"; "superseded"; "deferred"] /\
    s_resolve_depends_on (repo step) (block_id step) w2 = (edges, w3) /\
    (forall r i, EdgeBlock r i ∈ edges -> (r, i) ∉ bailed_or_skipped s) /\
    s_resolve_depends_on (repo step) (block_id step) w3 = (edges', w4) /\
    all_met edges' w4 w5 /\ permitted step w5 w6 /\ unheld step w6 w7 /\ polled w7 w'
}.

(** What closing a step takes: the child ended well, its state file says so,
    its branch was merged. *)
Record closes (step : ChainStep) (o : ExecutionOutcome) : Prop := {
  cs_repo : eo_repo o = repo step;
  cs_block : eo_block_id o = block_id step;
  cs_child : exists i, fi_repo i = repo step /\ fi_block_id i = block_id step /\
    asked (s_run_flow i) (Ok (eo_ctx o));
  cs_status : derive_terminal_status (eo_ctx o) <> "failed";
  cs_state : exists raw v,
    asked (s_read_to_string (state_path_for (eo_repo_path o) (eo_block_id o) (eo_engine o))) (Ok raw) /\
    s_from_str raw = Ok v /\ state_done (eo_block_id o) v;
  cs_merge : forall branch, resolve_merge_branch (eo_ctx o) = Some branch ->
    auto_merge (merge_push_policy cfg) = true ->
    Forall (fun '(program, args) => exists out,
      asked (s_runner program args (eo_repo_path o)) (Ok out) /\ cmd_status out = 0%Z)
      (merge_commands branch (merge_push_policy cfg))
}.

(** ** How a turn may end *)

Definition stopped (b : Books) : Prop :=
  (exists f, cancellation_token cfg = Some f /\ asked (w_read_flag f) true) \/
  exists r, campaign_check (b_ledger b) (campaign_budget cfg) = Halt r.

(** What can keep a turn from ending within the fuel: a wait that does not end,
    or a dispatched workflow. *)
Definition endless_wait (repo block_id : string) : Prop :=
  exists w w' t, wait_for_clearance cfg fuel repo block_id w = (None, w', t).
Definition stuck (step : ChainStep) : Prop :=
  endless_wait (repo step) (block_id step) \/ step_kind step = DispatchStep.

(** The failures of a step, which the policy on bails decides about. *)
Definition step_failure (e : IntegrateError) : bool :=
  match e with
  | HoldDeadlineExceeded _ _ _ | CoordRefused OpLease _ _ _ | PreflightPremiseFailed _ _ _ _
  | PreflightUnjudged _ _ _ | ExecuteErr _ | StateWriteUnreadable _ _ _ _ | StateWriteMalformed _ _ _ _
  | StateWriteMismatch _ _ _ _ | FinalValidationGateFailed _ _ _ _ | BlockIdMismatch _ _ _ _
  | ReconcileFailed _ _ _ _ | StepMergeFailed _ _ _ _ => true
  | _ => false
  end.
Definition refusal (e : IntegrateError) : bool :=
  match e with Gate _ | PermissionGate _ => true | _ => false end.
(** The errors that end the chain under either policy. *)
Definition chain_failure (e : IntegrateError) : bool :=
  match e with
  | CoordRefused OpRegister _ _ _ | CoordRefused OpHeartbeat _ _ _ | DispatchErr _
  | NoDispatcherConfigured _ _ | LaneLogSerialize _ _ | LaneLogWriteFailed _ _
  | CheckpointWriteFailed _ => true
  | _ => false
  end.

Inductive exits (step : ChainStep) (b : Books) : Turn -> Books -> Prop :=
| exits_pending : b_pending b = true -> exits step b Continue (bk_pending false b)
| exits_stop : stopped b -> exits step b Break b
| exits_skip reason by_ : exits step b Continue (bk_skip step reason by_ b)
| exits_refuse e : on_bail cfg = StopChain -> refusal e = true -> exits step b (Return e) b
| exits_bail_stop e : on_bail cfg = StopChain -> step_failure e = true ->
    exits step b (Return e) (bk_bail step b)
| exits_bail_skip : on_bail cfg = SkipDependents -> exits step b Continue (bk_bail step b)
| exits_fail e : chain_failure e = true -> exits step b (Return e) b
| exits_fuel : stuck step -> exits step b OutOfFuel b
| exits_dispatched p : step_kind step = DispatchStep -> exits step b Continue (bk_pending p b)
| exits_closed o : closes step o -> exits step b Continue (bk_close step o b).

(** A stage either goes on, or leaves by one of these. *)
Definition stage_post {A} (step : ChainStep) (s : LoopState) (q : list FlowInvocation)
    (ok : A -> Prop) (r : result A (Turn * LoopState)) (q' : list FlowInvocation) : Prop :=
  q' = q /\ match r with Ok a => ok a | Err (turn, s') => exits step (books s) turn (books s') end.

Notation gate_ewp m step s q ok w :=
  (ewp flows m q (fun r _ q' => stage_post step s q ok r q') w).

(** A gate lets the loop's state through as it is, with what it asked, or leaves. *)
Definition gate_post (step : ChainStep) (s : LoopState) (q : list FlowInvocation)
    (ok : W -> Prop) (r : result LoopState (Turn * LoopState)) (w : W) (q' : list FlowInvocation) : Prop :=
  q' = q /\ match r with Ok s' => s' = s /\ ok w | Err (turn, s') => exits step (books s) turn (books s') end.
Notation through m step s q ok w := (ewp flows m q (gate_post step s q ok) w).

(** ** The gates, one by one *)

Ltac gate_exit := apply ewp_ret; split; [done|].

Lemma pending_gate_spec step s q w :
  through (pending_gate s) step s q (fun w' => w' = w /\ pending_skip s = false) w.
Proof.
  unfold pending_gate. destruct (pending_skip s) eqn:E; gate_exit; [|done].
  by apply (exits_pending step (books s)).
Qed.

Lemma cancel_gate_spec step note s q w : through (cancel_gate cfg step note s) step s q (polled w) w.
Proof.
  unfold cancel_gate, is_cancelled, stop_cancelled, polled. ewp_step.
  destruct (cancellation_token cfg) as [f|] eqn:E.
  - ewp_step. destruct a; [|by gate_exit].
    ewp_step. keeps_step. ewp_step. keeps_step. gate_exit. apply exits_stop. left. exists f. split; [done|].
    by eexists _, _.
  - ewp_step. by gate_exit.
Qed.

Lemma campaign_allows l : campaign_check l (campaign_budget cfg) = Allow -> affordable l.
Proof.
  unfold campaign_check, evaluate_budget. intros H b Hb. rewrite Hb in H.
  split; intros cap Hc; rewrite Hc in H; repeat case_match; try discriminate H; try done;
    by apply Z.leb_gt.
Qed.

Lemma budget_stage_spec step s q w :
  through (budget_gate cfg step s) step s q (fun w' => w' = w /\ affordable (campaign_ledger s)) w.
Proof.
  unfold budget_gate. destruct (campaign_check _ _) as [|r] eqn:E.
  { gate_exit. split_and!; [done..|]. by apply campaign_allows. }
  ewp_step. keeps_step. ewp_step. keeps_step. ewp_step. keeps_step. ewp_step. keeps_step. gate_exit.
  apply exits_stop. right. by exists r.
Qed.

Lemma skip_step_spec step reason by_ s q w ok : through (skip_step cfg step reason by_ s) step s q ok w.
Proof. unfold skip_step. ewp_step. keeps_step. gate_exit. by apply exits_skip. Qed.

Lemma status_gate_spec step s q w :
  through (status_gate cfg step s) step s q (fun w' => exists status,
    s_block_status (repo step) (block_id step) w = (Row status, w') /\
    status ∉ ["closed"; "wontfix"; "superseded"; "deferred"]) w.
Proof.
  unfold status_gate. do 2 ewp_step. destruct (status_skip_reason a) eqn:E; [apply skip_step_spec|].
  gate_exit. split; [done|]. destruct a as [status|]; [|discriminate E]. exists status. split; [done|].
  unfold status_skip_reason in E. by case_bool_decide.
Qed.

Lemma find_none_Forall {A} (p : A -> bool) l : find p l = None -> Forall (fun x => p x = false) l.
Proof.
  induction l as [|x l IH]; simpl; [constructor|]. destruct (p x) eqn:E; [done|]. constructor; auto.
Qed.

Lemma chain_edge_gate_spec step s q w :
  through (chain_edge_gate cfg step s) step s q (fun w' => exists edges,
    s_resolve_depends_on (repo step) (block_id step) w = (edges, w') /\
    (forall r i, EdgeBlock r i ∈ edges -> (r, i) ∉ bailed_or_skipped s)) w.
Proof.
  unfold chain_edge_gate, resolve_depends_on. do 2 ewp_step.
  destruct (find _ a) eqn:E; [apply skip_step_spec|].
  gate_exit. split; [done|]. exists a. split; [done|]. intros r i Hin.
  apply find_none_Forall in E. rewrite Forall_forall in E. specialize (E _ Hin). by apply bool_decide_eq_false in E.
Qed.

Lemma refuse_spec step err edge detail s q w ok :
  refusal err = true -> through (refuse cfg step err edge detail s) step s q ok w.
Proof.
  intros He. unfold refuse. ewp_step. keeps_step. ewp_step. keeps_step.
  destruct (on_bail cfg) eqn:E; [|apply skip_step_spec]. gate_exit. by apply exits_refuse.
Qed.

Lemma check_edges_met step edges q w :
  ewp flows (check_edges is_edge_met step edges) q
    (fun r w' q' => q' = q /\ (r = Ok tt -> all_met edges w w')) w.
Proof.
  revert w. induction edges as [|e edges IH]; intros w; simpl; [by ewp_step|].
  ewp_step. unfold edge_met, is_edge_met. destruct e as [r i| | |];
    [ewp_step; destruct a|ewp_step..]; try (by ewp_step).
  eapply ewp_conseq; [apply IH|]. intros res s' q' [-> Hok]. split; [done|]. intros Hr. eexists. eauto.
Qed.

Lemma dependency_gate_spec step s q w :
  through (dependency_gate cfg step s) step s q (fun w' => exists edges w1,
    s_resolve_depends_on (repo step) (block_id step) w = (edges, w1) /\ all_met edges w1 w') w.
Proof.
  unfold dependency_gate, check_dependencies, resolve_depends_on. do 3 ewp_step.
  eapply ewp_conseq; [apply check_edges_met|]. intros r s' q' [-> Hok].
  destruct r as [[]|[? ? edge]]; [|by apply refuse_spec].
  gate_exit. split; [done|]. eauto.
Qed.

Lemma decide_may p a : decide_permission p a = Permit -> may p a.
Proof. unfold may. destruct p, a; try discriminate; intros _; ((left; split; [done|set_solver]) || (right; split; [done|set_solver])). Qed.

Lemma locked_permits_nothing a : decide_permission Locked a <> Permit.
Proof. by destruct a. Qed.

(** A profile that permits anything is the one the table has as its default. *)
Lemma permitting_profile load action :
  decide_permission (resolve_permission_profile load).1 action = Permit ->
  exists config level id p, load = Ok config /\ default_level config = Some level /\
    level_of config level = Some id /\ level_id_to_profile id = Some p /\ may p action.
Proof.
  intros H. destruct load as [config|m]; [|by apply locked_permits_nothing in H].
  unfold resolve_permission_profile, resolve_permission_profile_from_config in H.
  repeat (case_match; try (by apply locked_permits_nothing in H)).
  eexists config, _, _, _. split_and!; [done|eassumption..|]. by apply decide_may.
Qed.

Lemma permission_gate_spec step s q w : through (permission_gate cfg step s) step s q (permitted step w) w.
Proof.
  unfold permission_gate. do 2 ewp_step. destruct a as [action|]; cycle 1.
  { gate_exit. split; [done|]. by exists None, s0. }
  ewp_step. unfold chain_profile. ewp_step. ewp_step. ewp_step. ewp_step. unfold check_permission_gate.
  destruct (decide_permission _ action) eqn:Ed.
  - ewp_step. gate_exit. split; [done|].
    apply permitting_profile in Ed as (config & level & id & p & -> & H1 & H2 & H3 & H4).
    exists (Some action), s0. split; [done|]. by exists config, level, id, p.
  - ewp_step. apply keeps_use; [unfold author; keeps_go|]. intros r s'.
    destruct r; ewp_step; by apply refuse_spec.
Qed.

Definition wait_post (step : ChainStep) (at_ : option Z) (q : list FlowInvocation) (w : W)
    (x : option (result unit IntegrateError)) (w' : W) (q' : list FlowInvocation) : Prop :=
  q' = q /\ match x with
            | Some (Ok _) => waited step at_ w w'
            | Some (Err e) => step_failure e = true
            | None => True
            end.

Lemma wait_loop_spec n step deadline at_ q w :
  ewp flows (wait_loop cfg n (repo step) (block_id step) deadline at_) q (wait_post step at_ q w) w.
Proof.
  revert w. induction n as [|n IH]; intros w; simpl; [by ewp_step|].
  do 2 ewp_step. destruct a; simpl; [|ewp_step; split; [done|by apply waited_clear]].
  assert (Hlast : forall tick w2, sleeps at_ s tick w2 ->
    ewp flows (cancelled <~ esilent (s_select (repo step) (block_id step) tick (cancellation_token cfg)) ;;
      if bool_decide (is_Some (cancellation_token cfg)) && cancelled then eret (Some (Ok tt))
      else wait_loop cfg n (repo step) (block_id step) deadline at_) q (wait_post step at_ q w) w2).
  { intros tick w2 Htick. do 2 ewp_step.
    assert (Hmore : (a = false \/ cancellation_token cfg = None) ->
      ewp flows (wait_loop cfg n (repo step) (block_id step) deadline at_) q (wait_post step at_ q w) s0).
    { intros Hn. eapply ewp_conseq; [apply IH|]. intros x w' q' [-> Hx]. split; [done|].
      destruct x as [[]|]; [|done|done]. by eapply waited_more. }
    case_bool_decide as Ec; [destruct a|]; simpl; [|auto|].
    - ewp_step. split; [done|]. by eapply waited_woken.
    - apply Hmore. right. by apply eq_None_not_Some. }
  destruct at_ as [at_|]; ewp_step.
  - do 3 ewp_step. destruct (Z.leb_spec at_ a); [by ewp_step|]. do 3 ewp_step. ewp_step. apply Hlast.
    unfold sleeps. eauto 10.
  - do 2 ewp_step. ewp_step. by apply Hlast.
Qed.

Lemma hold_gate_spec step s q w : through (hold_gate cfg fuel step s) step s q (unheld step w) w.
Proof.
  unfold hold_gate. ewp_step.
  eapply (ewp_conseq _ _ _ (fun x w' q' => (exists t, wait_for_clearance cfg fuel (repo step) (block_id step) w = (x, w', t))
    /\ q' = q /\ match x with Some (Ok _) => unheld step w w' | Some (Err e) => step_failure e = true | None => True end)).
  { apply ewp_self. unfold wait_for_clearance, unheld. ewp_step.
    destruct (hold_deadline cfg); [do 2 ewp_step|]; ewp_step;
      (eapply ewp_conseq; [apply wait_loop_spec|]); intros [[]|] ? ? [-> ?]; eauto. }
  intros x w' q' [[t Ht] [-> Hx]].
  destruct x as [[[]|e]|]; [by gate_exit| |gate_exit; apply exits_fuel; left; by eexists _, _, _].
  ewp_step. keeps_step. ewp_step. keeps_step. gate_exit.
  destruct (on_bail cfg) eqn:E; [by apply exits_bail_stop|by apply exits_bail_skip].
Qed.

Lemma gate_try {B} step s q (ok : W -> Prop) (m : stage LoopState) (k : LoopState -> stage B) post w :
  through m step s q ok w ->
  (forall w', ok w' -> ewp flows (k s) q post w') ->
  (forall turn s' w', exits step (books s) turn (books s') -> post (Err (turn, s')) w' q) ->
  ewp flows (try_bind m k) q post w.
Proof.
  intros Hm Hk Hp. apply ewp_try. eapply ewp_conseq; [exact Hm|].
  intros [a|[turn s']] w' q' [-> H]; [|auto]. destruct H as [-> H]. auto.
Qed.

Lemma gates_spec step s q w : through (gates cfg fuel step s) step s q (let_through step s w) w.
Proof.
  unfold gates.
  eapply gate_try; [apply pending_gate_spec| |done]. intros ? [-> H1].
  eapply gate_try; [apply cancel_gate_spec| |done]. intros w1 H2.
  eapply gate_try; [apply budget_stage_spec| |done]. intros ? [-> H3].
  eapply gate_try; [apply status_gate_spec| |done]. intros w2 (status & H4 & H4').
  eapply gate_try; [apply chain_edge_gate_spec| |done]. intros w3 (edges & H5 & H5').
  eapply gate_try; [apply dependency_gate_spec| |done]. intros w5 (edges' & w4 & H6 & H6').
  eapply gate_try; [apply permission_gate_spec| |done]. intros w6 H7.
  eapply gate_try; [apply hold_gate_spec| |done]. intros w7 H8.
  eapply ewp_conseq; [apply cancel_gate_spec|]. intros [s'|[turn s']] w' q' [-> H9]; [|done].
  destruct H9 as [-> H9]. split; [done|]. split; [done|]. split; [done|done|].
  by exists w1, status, w2, edges, w3, edges', w4, w5, w6, w7.
Qed.

Lemma stage_try {A B} step s q (ok : A -> Prop) (m : stage A) (k : A -> stage B) post w :
  gate_ewp m step s q ok w ->
  (forall a w', ok a -> ewp flows (k a) q post w') ->
  (forall turn s' w', exits step (books s) turn (books s') -> post (Err (turn, s')) w' q) ->
  ewp flows (try_bind m k) q post w.
Proof.
  intros Hm Hk Hp. apply ewp_try. eapply ewp_conseq; [exact Hm|].
  intros [a|[turn s']] w' q' [-> H]; auto.
Qed.

(** ** Under the permit *)

Lemma bail_or_skip_exits {A} step err s s' q w (ok : A -> Prop) :
  step_failure err = true -> books s' = books s ->
  gate_ewp (bail_or_skip cfg step err s' : stage A) step s q ok w.
Proof.
  intros He Hs. unfold bail_or_skip. gate_exit.
  replace (books (add_bailed step s')) with (bk_bail step (books s)) by (by rewrite <- Hs).
  destruct (on_bail cfg) eqn:E; [by apply exits_bail_stop|by apply exits_bail_skip].
Qed.

Lemma coord_gate_spec chain step s q w :
  gate_ewp (coord_gate cfg chain step s) step s q (fun s' => s' = s) w.
Proof.
  unfold coord_gate. destruct (coord cfg) as [handle|]; [|by gate_exit]. do 2 ewp_step. destruct a.
  - ewp_step. ewp_step. do 2 ewp_step. case_match.
    + ewp_step. ewp_step. by gate_exit.
    + ewp_step. keeps_step. ewp_step. keeps_step. by apply bail_or_skip_exits.
  - ewp_step. keeps_step. ewp_step. keeps_step. gate_exit. by apply exits_fail.
Qed.

Lemma bail_preflight_spec step p claims check_id reason err s q w (ok : LoopState * option string -> Prop) :
  step_failure err = true -> gate_ewp (bail_preflight cfg step p claims check_id reason err s) step s q ok w.
Proof. intros He. unfold bail_preflight. ewp_step. keeps_step. ewp_step. keeps_step. by apply bail_or_skip_exits. Qed.

Lemma preflight_stage_spec step s q w :
  gate_ewp (preflight_stage cfg step s) step s q (fun x => books x.1 = books s) w.
Proof.
  unfold preflight_stage. do 2 ewp_step. destruct a.
  - destruct (find _ _); [by apply bail_preflight_spec|by gate_exit].
  - destruct (on_unjudged cfg); [by gate_exit|by apply bail_preflight_spec].
  - by gate_exit.
  - by gate_exit.
Qed.

Lemma bail_after_run_spec {A} step run_id kind err s s' q w (ok : A -> Prop) :
  step_failure err = true -> books s' = books s ->
  gate_ewp (bail_after_run cfg step run_id kind err s' : stage A) step s q ok w.
Proof. intros He Hs. unfold bail_after_run. ewp_step. keeps_step. ewp_step. keeps_step. by apply bail_or_skip_exits. Qed.

Lemma check_state_value_failure r b path v e : check_state_value r b path v = Err e -> step_failure e = true.
Proof. unfold check_state_value. repeat case_match; by intros [= <-]. Qed.

Lemma verify_stage_spec step o run_id s s' q w :
  books s' = books s ->
  gate_ewp (verify_stage cfg step o run_id s') step s q (fun _ => exists raw v,
    asked (s_read_to_string (state_path_for (eo_repo_path o) (eo_block_id o) (eo_engine o))) (Ok raw) /\
    s_from_str raw = Ok v /\ state_done (eo_block_id o) v) w.
Proof.
  intros Hs. unfold verify_stage, read_to_string, verify_state_write. do 2 ewp_step.
  destruct a as [raw|]; [|by apply bail_after_run_spec].
  destruct (s_from_str raw) as [v|] eqn:Ev; [|by apply bail_after_run_spec].
  destruct (check_state_value _ _ _ v) as [[]|e] eqn:Ec.
  - apply check_state_value_ok in Ec. gate_exit. exists raw, v. split; [by eexists _, _|done].
  - apply check_state_value_failure in Ec. by apply bail_after_run_spec.
Qed.

Lemma run_steps_spec dir r b branch steps q w :
  ewp flows (run_steps runner dir r b branch steps) q (fun x _ q' => q' = q /\
    match x with
    | Ok _ => Forall (fun '(program, args) => exists out,
        asked (s_runner program args dir) (Ok out) /\ cmd_status out = 0%Z) steps
    | Err e => exists stderr, e = StepMergeFailed r b branch stderr
    end) w.
Proof.
  revert w. induction steps as [|[program args] steps IH]; intros w; simpl; [by ewp_step|].
  unfold runner at 1. ewp_step. ewp_step. ewp_step. ewp_step. destruct a as [out|]; [|ewp_step; eauto].
  destruct (Z.eqb_spec (cmd_status out) 0) as [E|]; [|ewp_step; eauto].
  eapply ewp_conseq; [apply IH|]. intros x w' q' [-> Hx]. split; [done|]. destruct x; [|done].
  constructor; [|done]. exists out. split; [by eexists _, _|done].
Qed.

Lemma merge_stage_spec step o run_id s s' q w :
  books s' = books s ->
  gate_ewp (merge_stage cfg step o run_id s') step s q (fun _ =>
    forall branch, resolve_merge_branch (eo_ctx o) = Some branch ->
      auto_merge (merge_push_policy cfg) = true ->
      Forall (fun '(program, args) => exists out,
        asked (s_runner program args (eo_repo_path o)) (Ok out) /\ cmd_status out = 0%Z)
        (merge_commands branch (merge_push_policy cfg))) w.
Proof.
  intros Hs. unfold merge_stage, merge_step_branch.
  destruct (resolve_merge_branch _) as [branch|]; [|by gate_exit].
  destruct (auto_merge _) eqn:E; cbn [negb]; [|do 2 ewp_step; by gate_exit].
  ewp_step. eapply ewp_conseq; [apply run_steps_spec|]. intros [[]|e] w' q' [-> Hx].
  - gate_exit. by intros ? [= <-].
  - destruct Hx as [stderr ->]. by apply bail_after_run_spec.
Qed.

(** *** The stages that run a child *)

(** The child of a step: in its repository, under the chain's profile. *)
Definition child_of (step : ChainStep) (i : FlowInvocation) : Prop :=
  fi_repo i = repo step /\ fi_block_id i = block_id step /\
  registry_resolve (registry cfg) (repo step) = Ok (fi_repo_path i) /\
  fi_cancellation_token i = cancellation_token cfg /\
  exists load, asked (s_load_brain_config (path_join (brain_root (registry cfg)) "brain.toml")) load /\
    fi_permission_profile i = (resolve_permission_profile load).1.
(** [q'] is [q] and at most one child of the step more. *)
Definition ran_child (step : ChainStep) (q q' : list FlowInvocation) : Prop :=
  q' = q \/ exists i, q' = q ++ [i] /\ child_of step i.
Definition ended_well (step : ChainStep) (o : ExecutionOutcome) : Prop :=
  eo_repo o = repo step /\ eo_block_id o = block_id step /\
  (exists i, fi_repo i = repo step /\ fi_block_id i = block_id step /\
     asked (s_run_flow i) (Ok (eo_ctx o))) /\
  derive_terminal_status (eo_ctx o) <> "failed".

Lemma execute_step_spec' step load q w :
  asked (s_load_brain_config (path_join (brain_root (registry cfg)) "brain.toml")) load ->
  ewp flows (execute_step resolve_engine (registry cfg) run_flow (fun p => esilent (s_canonicalize p))
    step (default_use_worktree cfg) (default_auto_pr cfg) (campaign_id cfg) (cancellation_token cfg)
    None (resolve_permission_profile load).1 None (child_sdlc_flow_policy cfg) (child_sdlc_task_policy cfg)) q
    (fun r _ q' => ran_child step q q' /\
       match r with Ok o => ended_well step o | Err _ => True end) w.
Proof.
  intros Hload. unfold execute_step. case_match; [ewp_step; split; [by left|done]|].
  simpl resolve_child_permission_profile. cbv iota.
  destruct (registry_resolve _ _) as [path|] eqn:Er; [|ewp_step; split; [by left|done]].
  unfold resolve_engine, run_flow. ewp_step. keeps_step. ewp_step. keeps_step. ewp_step. ewp_step. ewp_step.
  ewp_step.
  match goal with |- ewp _ _ (q ++ [?i]) _ _ =>
    assert (Hq : ran_child step q (q ++ [i]));
    [right; exists i; split; [done|]; split_and!; try done; by exists load|] end.
  match goal with |- ewp _ (match ?r with _ => _ end) _ _ _ => destruct r as [ctx|] end; [|by ewp_step].
  destruct (String.eqb_spec (derive_terminal_status ctx) "failed"); [by ewp_step|].
  destruct (step_spend ctx). ewp_step. split; [done|]. split_and!; try done.
  eexists. split; [|split; [|by eexists _, _]]; done.
Qed.

Lemma execute_stage_spec step s s' q w :
  books s' = books s ->
  ewp flows (execute_stage cfg step s') q (fun r _ q' => ran_child step q q' /\
    match r with
    | Ok o => ended_well step o
    | Err (turn, s2) => exits step (books s) turn (books s2)
    end) w.
Proof.
  intros Hs. unfold execute_stage, chain_profile. do 4 ewp_step. ewp_step.
  eapply ewp_conseq; [apply execute_step_spec'; by eexists _, _|]. intros [o|e] w' q' [Hq Ho]; [by apply ewp_ret|].
  do 4 (ewp_step; keeps_step).
  eapply ewp_conseq; [apply (bail_or_skip_exits step (ExecuteErr e) s s' q' _ (fun _ => False)); done|].
  by intros [|[]] ? ? [-> ?].
Qed.

Lemma close_stage_spec total step o run_id note s s' q w :
  books s' = books s -> closes step o ->
  gate_ewp (close_stage cfg total step o run_id note s') step s q
    (fun s2 => books s2 = bk_close step o (books s)) w.
Proof.
  intros Hs Hc. unfold close_stage. ewp_step. apply stamped_ewp. intros ts profile w1.
  ewp_step. apply ewp_ret. ewp_step.
  apply (append_line_ewp cfg _ q q); [done| |].
  2: { intros err w2 He. ewp_step. gate_exit. rewrite Hs. apply exits_fail. by destruct err. }
  intros w2. ewp_step. apply ewp_ret. ewp_step. apply keeps_use; [by apply keeps_ledger|]. intros _ w3.
  ewp_step. keeps_step. do 2 ewp_step. ewp_step. keeps_step. ewp_step. keeps_step.
  match goal with |- context [match ?r with Ok _ => Ok tt | Err e => Err (CheckpointWriteFailed e) end] =>
    destruct r as [u|e] end; ewp_step.
  - apply ewp_ret. ewp_step. keeps_step. do 2 ewp_step. gate_exit.
    by rewrite <- Hs.
  - gate_exit. rewrite <- Hs. by apply (exits_fail step (books s')).
Qed.

Lemma dispatch_arm_spec step s q w (ok : LoopState -> Prop) :
  step_kind step = DispatchStep -> gate_ewp (dispatch_arm cfg fuel step s) step s q ok w.
Proof.
  intros Hk. unfold dispatch_arm.
  destruct (dispatcher cfg) as [d|]; cycle 1.
  { ewp_step. keeps_step. ewp_step. keeps_step. gate_exit. by apply exits_fail. }
  do 2 ewp_step. ewp_step. apply keeps_use; [unfold execute_dispatch_step; keeps_go|]. intros r w1.
  destruct r as [[out|err]|]; [| |gate_exit; apply exits_fuel; by right].
  - ewp_step. keeps_step. ewp_step. unfold journal_dispatch.
    destruct (String.eqb _ _); ewp_step; keeps_step; ewp_step; gate_exit.
    + by apply (exits_dispatched step (books s)).
    + replace (books s) with (bk_pending (pending_skip s) (books s)) at 2 by done.
      by apply exits_dispatched.
  - ewp_step. keeps_step. ewp_step. keeps_step. gate_exit. by apply exits_fail.
Qed.

(** ** One turn *)

Lemma block_arm_spec total step s q w :
  ewp flows (block_arm cfg total step s) q (fun r _ q' => ran_child step q q' /\
    match r with
    | Ok s2 => exists o, closes step o /\ books s2 = bk_close step o (books s)
    | Err (turn, s2) => exits step (books s) turn (books s2)
    end) w.
Proof.
  unfold block_arm. eapply stage_try; [apply preflight_stage_spec| |intros; by split; [left|]].
  intros [s1 note] w1 Hs1. simpl in Hs1. apply ewp_try.
  eapply ewp_conseq; [by apply execute_stage_spec|]. intros [o|[turn s2]] w2 q1 [Hq Ho]; [|done].
  ewp_step. keeps_step. ewp_step. keeps_step.
  eapply stage_try; [by apply verify_stage_spec| |by intros]. intros [] w3 Hv.
  eapply stage_try; [by apply merge_stage_spec| |by intros]. intros [] w4 Hm.
  destruct Ho as (H1 & H2 & H3 & H4).
  assert (Hc : closes step o) by (by split).
  eapply ewp_conseq; [by apply close_stage_spec|]. intros [s5|[turn s5]] w5 q5 [-> H5]; [|done].
  split; [done|]. by exists o.
Qed.

Lemma with_lease_spec {A} (body : P A) q post w :
  ewp flows body q post w ->
  (forall a w1 w2 q', post a w1 q' -> post a w2 q') ->
  ewp flows (with_lease cfg body) q post w.
Proof.
  intros H Hp. unfold with_lease. ewp_step. eapply ewp_conseq; [exact H|]. intros a w1 q1 Ha.
  ewp_step. apply keeps_use; [keeps_go|]. intros. ewp_step. by eapply Hp.
Qed.

Lemma permit_spec chain step s q w :
  ewp flows (with_permit step (admitted_arm cfg fuel chain step s)) q (fun r _ q' =>
    ran_child step q q' /\
    match r with
    | Ok s2 => exists o, closes step o /\ books s2 = bk_close step o (books s)
    | Err (turn, s2) => exits step (books s) turn (books s2)
    end) w.
Proof.
  unfold with_permit. ewp_step. unfold act. ewp_step. ewp_step. ewp_step. ewp_step.
  assert (Harm : forall w', ewp flows (admitted_arm cfg fuel chain step s) q (fun r _ q' =>
    ran_child step q q' /\
    match r with
    | Ok s2 => exists o, closes step o /\ books s2 = bk_close step o (books s)
    | Err (turn, s2) => exits step (books s) turn (books s2)
    end) w').
  { intros w'. unfold admitted_arm. eapply stage_try; [apply coord_gate_spec| |intros; by split; [left|]].
    intros s1 w1 ->. apply with_lease_spec; [|done].
    destruct (bool_decide _) eqn:Ek; [|apply block_arm_spec]. apply bool_decide_eq_true in Ek.
    eapply ewp_conseq; [by apply (dispatch_arm_spec step s q _ (fun _ => False))|].
    intros [s2|[turn s2]] w2 q2 [-> H2]; [done|]. split; [by left|done]. }
  eapply ewp_conseq; [apply Harm|]. intros r w' q' Hr. ewp_step. ewp_step. ewp_step. ewp_step. by ewp_step.
Qed.

Lemma drain_spec chain step s q w :
  ewp flows (drain_inbox cfg chain step s) q (fun s' _ q' => q' = q /\ drained (books s) (books s')) w.
Proof.
  unfold drain_inbox. destruct (coord cfg) as [handle|] eqn:Ec; [|ewp_step; split; [done|apply drained_refl]].
  do 2 ewp_step.
  apply (ewp_fold flows _ _ (fun s' q' => q' = q /\ drained (books s) (books s')));
    [split; [done|apply drained_refl]|].
  intros s1 record q1 w1 _ [-> Hd]. unfold handle_drained. destruct record as [m|]; [|by ewp_step].
  assert (Htriage : triages -> ewp flows (triage_message cfg handle chain step m s1) q
    (fun s' _ q' => q' = q /\ drained (books s) (books s')) w1).
  { intros Htr. unfold triage_message. ewp_step.
    apply keeps_use; [unfold verified_sha, subject_repo_short_sha; keeps_go|]. intros sha w2. ewp_step.
    eapply ewp_conseq; [apply ewp_self; by apply keeps_process|].
    intros [[processed requeue_step] escalation] w3 q3 [[t3 Ht] ->].
    ewp_step. apply keeps_use;
      [unfold append_escalation_line, append_record; keeps_go|].
    intros _ w4. ewp_step. split; [done|]. destruct requeue_step as [st|]; [|done].
    apply process_requeue_skipped in Ht. eapply drained_trans; [exact Hd|].
    eapply drained_requeue; [done|exact Ht|]. rewrite <- books_requeue. apply drained_refl. }
  destruct (m_kind m); try (destruct (_ && _) eqn:Et; [|by ewp_step];
    apply andb_true_iff in Et as [Et1 Et2]; apply Htriage; split_and!; [by eexists|done|done]).
  - ewp_step. apply keeps_use; [keeps_go|]. intros. by ewp_step.
  - do 2 ewp_step. ewp_step. apply keeps_use; [keeps_go|]. intros. by ewp_step.
Qed.

(** Every way a turn of the loop may end. *)
Lemma iteration_spec chain step s q w :
  ewp flows (iteration cfg fuel chain step s) q (fun x _ _ =>
    exists b, drained (books s) b /\ exits step b x.1 (books x.2)) w.
Proof.
  unfold iteration. ewp_step. eapply ewp_conseq; [apply drain_spec|]. intros s1 w1 q1 [-> Hd].
  ewp_step. eapply gate_try; [apply gates_spec| |].
  - intros w2 _. eapply ewp_conseq; [apply permit_spec|]. intros r w3 q3 [_ Hr]. ewp_step.
    exists (books s1). split; [done|]. destruct r as [s3|[turn s3]]; [|done].
    destruct Hr as (o & Ho & Hb). simpl. rewrite Hb. by apply exits_closed.
  - intros turn s2 w2 He. ewp_step. by exists (books s1).
Qed.

(** ** The whole loop *)

(** Every step of the chain, and every step put back, is in exactly one of five
    places: closed, bailed, skipped, dropped (dispatched, or passed over after
    an empty recall), or not taken yet; [lost] is the step in hand when the
    loop stopped. *)
Record accounts (chain cl bl sk dr rq lost : list ChainStep) (b : Books) : Prop := {
  ac_closed : closed (b_report b) = map step_name cl;
  ac_bailed : bailed (b_report b) = map step_name bl;
  ac_skipped : map sk_block (skipped (b_report b)) = map step_name sk;
  ac_perm : chain ++ rq ≡ₚ cl ++ bl ++ sk ++ dr ++ lost ++ b_queue b;
  ac_outcomes : Forall2 closes cl (b_outcomes b);
  ac_gone : forall x, x ∈ bl ++ sk -> step_key x ∈ b_gone b;
  ac_requeued : b_requeued b = list_to_set (map step_key rq);
  ac_once : NoDup (map step_key rq);
  ac_back : forall x, x ∈ rq -> x ∈ sk /\ x ∈ chain;
  ac_skipped_steps : forall x, x ∈ b_skipped b -> x ∈ sk;
  ac_dropped : Forall (fun x => step_kind x <> DispatchStep) chain -> dr = [] /\ b_pending b = false;
  ac_triages : rq <> [] -> triages;
  ac_tokens : camp_total_tokens (b_ledger b) = foldl u64_add 0%Z (map eo_total_tokens (b_outcomes b));
  ac_cost : camp_total_cost_usd (b_ledger b) = foldl f64_add f64_zero (omap eo_cost_usd (b_outcomes b))
}.

Lemma accounts_skipped_chain chain cl bl sk dr rq lost b x :
  accounts chain cl bl sk dr rq lost b -> x ∈ sk -> x ∈ chain.
Proof.
  intros Ha Hx. assert (x ∈ chain ++ rq) as Hin by (rewrite (ac_perm _ _ _ _ _ _ _ _ Ha); set_solver).
  apply elem_of_app in Hin as [|Hin]; [done|]. by apply (ac_back _ _ _ _ _ _ _ _ Ha).
Qed.

Lemma accounts_queue_chain chain cl bl sk dr rq lost b x :
  accounts chain cl bl sk dr rq lost b -> x ∈ lost ++ b_queue b -> x ∈ chain.
Proof.
  intros Ha Hx. assert (x ∈ chain ++ rq) as Hin by (rewrite (ac_perm _ _ _ _ _ _ _ _ Ha); set_solver).
  apply elem_of_app in Hin as [|Hin]; [done|]. by apply (ac_back _ _ _ _ _ _ _ _ Ha).
Qed.

(** Steps are put back at most once each, so the turns suffice. *)
Lemma accounts_back_length chain cl bl sk dr rq lost b :
  accounts chain cl bl sk dr rq lost b -> (length rq <= length chain)%nat.
Proof.
  intros Ha. rewrite <- (length_map step_key rq), <- (length_map step_key chain).
  apply submseteq_length, NoDup_submseteq; [by apply Ha|].
  intros k. rewrite !list_elem_of_In, !in_map_iff. intros (x & <- & Hx). exists x. split; [done|].
  apply list_elem_of_In. apply list_elem_of_In in Hx. by apply (ac_back _ _ _ _ _ _ _ _ Ha).
Qed.

Lemma accounts_drained chain cl bl sk dr lost b b' :
  drained b b' -> forall rq, accounts chain cl bl sk dr rq lost b ->
  exists rq', accounts chain cl bl sk dr rq' lost b'.
Proof.
  induction 1 as [|step b b' Ht Hin _ IH]; intros rq Ha; [by exists rq|].
  unfold bk_requeue in IH. case_bool_decide as Hreq; [by eapply IH|].
  apply (IH (rq ++ [step])). pose proof (ac_skipped_steps _ _ _ _ _ _ _ _ Ha _ Hin) as Hsk.
  pose proof (accounts_skipped_chain _ _ _ _ _ _ _ _ _ Ha Hsk) as Hch.
  destruct Ha as [H1 H2 H3 H4 H5 H6 H7 H8 H9 H10 H11 H12 H13 H14]. split; simpl; try done.
  - rewrite app_assoc, H4. by rewrite <- !app_assoc.
  - rewrite H7, map_app, list_to_set_app_L. simpl. set_solver.
  - rewrite map_app. apply NoDup_app. split_and!; [done| |apply NoDup_singleton].
    intros k Hk ->%list_elem_of_singleton. apply Hreq. rewrite H7. by apply elem_of_list_to_set.
  - intros x [Hx| ->%list_elem_of_singleton]%elem_of_app; [by apply H9|done].
  - intros x [_ Hx]%list_elem_of_filter. by apply H10.
Qed.

(** The step in hand, taken off the queue. *)
Lemma accounts_pop chain cl bl sk dr rq b step rest :
  accounts chain cl bl sk dr rq [] b -> b_queue b = step :: rest ->
  accounts chain cl bl sk dr rq [step]
    (mkBooks rest (b_outcomes b) (b_gone b) (b_skipped b) (b_requeued b) (b_ledger b) (b_pending b)
       (b_report b)).
Proof.
  intros [H1 H2 H3 H4 H5 H6 H7 H8 H9 H10 H11 H12 H13 H14] Hq. rewrite Hq in H4. by split.
Qed.

(** Where a turn takes the accounts: the step in hand has its place. *)
Lemma accounts_exits chain cl bl sk dr rq step b turn b' :
  accounts chain cl bl sk dr rq [step] b -> exits step b turn b' ->
  exists cl' bl' sk' dr' lost', accounts chain cl' bl' sk' dr' rq lost' b' /\
    length (cl' ++ bl' ++ sk' ++ dr') + length lost' = S (length (cl ++ bl ++ sk ++ dr)) /\
    (turn = Continue -> lost' = []) /\
    match turn with
    | Continue => bl' = bl \/ on_bail cfg = SkipDependents
    | Break => bl' = bl /\ stopped b' /\ lost' = [step]
    | Return e => chain_failure e = true /\ bl' = bl \/
        on_bail cfg = StopChain /\ (refusal e = true /\ bl' = bl \/
          step_failure e = true /\ bl' = bl ++ [step])
    | OutOfFuel => stuck step /\ bl' = bl
    end.
Proof.
  intros [H1 H2 H3 H4 H5 H6 H7 H8 H9 H10 H11 H12 H13 H14] He.
  assert (Hstep : step ∈ chain).
  { assert (step ∈ chain ++ rq) as Hin by (rewrite H4; set_solver).
    apply elem_of_app in Hin as [|Hin]; [done|]. by apply H9. }
  destruct He as [Hp|Hs|reason by_|e Hb He|e Hb He|Hb|e He|Hst|p Hk|o Ho].
  - exists cl, bl, sk, (dr ++ [step]), []. split.
    { split; try done; simpl; [|by intros Hd%H11; destruct Hd; congruence].
      rewrite H4. by rewrite <- !app_assoc. }
    split_and!; [rewrite !length_app; simpl; lia|done|by left].
  - exists cl, bl, sk, dr, [step]. split; [by split|]. split_and!; try done; rewrite !length_app; simpl; lia.
  - exists cl, bl, (sk ++ [step]), dr, []. split.
    { split; try done; simpl.
      - by rewrite !map_app, H3.
      - rewrite H4. solve_Permutation.
      - intros x Hx. rewrite app_assoc in Hx. apply elem_of_app in Hx as [Hx|Hx]; [|set_solver].
        apply H6 in Hx. set_solver.
      - intros x Hx. apply H9 in Hx. set_solver.
      - intros x [Hx|Hx]%elem_of_app; [|set_solver]. apply H10 in Hx. set_solver. }
    split_and!; [rewrite !length_app; simpl; lia|done|by left].
  - exists cl, bl, sk, dr, [step]. split; [by split|]. split_and!; try done; [rewrite !length_app; simpl; lia|].
    right. auto.
  - exists cl, (bl ++ [step]), sk, dr, []. split.
    { split; try done; simpl.
      - by rewrite map_app, H2.
      - rewrite H4. solve_Permutation.
      - intros x Hx. rewrite <- app_assoc in Hx. set_solver. }
    split_and!; [rewrite !length_app; simpl; lia|done|]. right. auto.
  - exists cl, (bl ++ [step]), sk, dr, []. split.
    { split; try done; simpl.
      - by rewrite map_app, H2.
      - rewrite H4. solve_Permutation.
      - intros x Hx. rewrite <- app_assoc in Hx. set_solver. }
    split_and!; [rewrite !length_app; simpl; lia|done|]. auto.
  - exists cl, bl, sk, dr, [step]. split; [by split|]. split_and!; try done; [rewrite !length_app; simpl; lia|].
    left. auto.
  - exists cl, bl, sk, dr, [step]. split; [by split|]. split_and!; try done; rewrite !length_app; simpl; lia.
  - exists cl, bl, sk, (dr ++ [step]), []. split.
    { split; try done; simpl.
      - rewrite H4. solve_Permutation.
      - intros Hall. rewrite Forall_forall in Hall. by destruct (Hall step Hstep). }
    split_and!; [rewrite !length_app; simpl; lia|done|by left].
  - exists (cl ++ [step]), bl, sk, dr, []. split.
    { split; try done; simpl.
      - by rewrite map_app, H1.
      - rewrite H4. solve_Permutation.
      - apply Forall2_app; [done|]. by apply Forall2_cons.
      - rewrite map_app, foldl_app, <- H13. unfold record_step. by destruct (eo_cost_usd o).
      - rewrite omap_app, foldl_app, <- H14. unfold record_step. simpl. by destruct (eo_cost_usd o). }
    split_and!; [rewrite !length_app; simpl; lia|done|by left].
Qed.

(** At the head of a turn, with [n] turns left. *)
Definition loop_inv (chain : list ChainStep) (n : nat) (b : Books) : Prop :=
  exists cl bl sk dr rq, accounts chain cl bl sk dr rq [] b /\
    (length (cl ++ bl ++ sk ++ dr) + n = enough_turns chain)%nat /\
    (on_bail cfg = StopChain -> bl = []).

(** When the loop has stopped. *)
Definition loop_end (chain : list ChainStep) (r : option (result unit IntegrateError)) (b : Books) : Prop :=
  exists cl bl sk dr rq lost, accounts chain cl bl sk dr rq lost b /\
    match r with
    | Some (Ok _) => (lost ++ b_queue b = [] \/ stopped b) /\ (on_bail cfg = StopChain -> bl = [])
    | Some (Err e) =>
        chain_failure e = true /\ (on_bail cfg = StopChain -> bl = []) \/
        on_bail cfg = StopChain /\
          (refusal e = true /\ bl = [] \/ step_failure e = true /\ exists step, bl = [step])
    | None => exists step, step ∈ chain /\ stuck step
    end.

Lemma loop_spec chain n s q w :
  loop_inv chain n (books s) ->
  ewp flows (integrate_loop cfg n fuel chain s) q (fun x _ _ => loop_end chain x.1 (books x.2)) w.
Proof.
  revert s q w. induction n as [|n IH]; intros s q w (cl & bl & sk & dr & rq & Ha & Hn & Hb); simpl;
    destruct (step_queue s) as [|step rest] eqn:Es.
  - apply ewp_ret. exists cl, bl, sk, dr, rq, []. split; [done|]. by split; [left|].
  - exfalso. pose proof (Permutation_length (ac_perm _ _ _ _ _ _ _ _ Ha)) as Hl.
    pose proof (accounts_back_length _ _ _ _ _ _ _ _ Ha) as Hr. unfold enough_turns in Hn.
    replace (b_queue (books s)) with (step :: rest) in Hl by done.
    rewrite !length_app in Hn. repeat rewrite length_app in Hl. simpl in Hl. lia.
  - apply ewp_ret. exists cl, bl, sk, dr, rq, []. split; [done|]. by split; [left|].
  - ewp_step. eapply ewp_conseq; [apply iteration_spec|]. intros [turn s'] w' q' (b & Hd & He). simpl in He.
    pose proof (accounts_pop _ _ _ _ _ _ _ step rest Ha Es) as Ha1.
    destruct (accounts_drained _ _ _ _ _ _ _ _ Hd _ Ha1) as [rq' Ha2].
    destruct (accounts_exits _ _ _ _ _ _ _ _ _ _ Ha2 He)
      as (cl' & bl' & sk' & dr' & lost' & Ha3 & Hlen & Hlost & Hturn).
    destruct turn as [| |e|]; cbv iota.
    + rewrite (Hlost eq_refl) in *. apply IH.
      exists cl', bl', sk', dr', rq'. split_and!; [done|simpl in Hlen; lia|].
      intros Hs. destruct Hturn as [-> |Hsd]; [by apply Hb|congruence].
    + apply ewp_ret. exists cl', bl', sk', dr', rq', lost'.
      destruct Hturn as (-> & Hst & _). split; [done|]. split; [by right|done].
    + apply ewp_ret. exists cl', bl', sk', dr', rq', lost'. split; [done|].
      destruct Hturn as [[Hc ->]|(Hs & [[Hr ->]|[Hf ->]])].
      * left. by split.
      * right. split; [done|]. left. split; [done|]. by apply Hb.
      * right. split; [done|]. right. split; [done|]. exists step. by rewrite (Hb Hs).
    + apply ewp_ret. exists cl', bl', sk', dr', rq', lost'. split; [done|].
      exists step. split; [|by destruct Hturn]. eapply accounts_queue_chain; [exact Ha2|]. left.
Qed.

(** ** The turn a child runs in *)

(** The run that starts in [w0] comes to the head of a turn in [s] and [w],
    having logged [t]. *)
Inductive reached (chain : list ChainStep) (w0 : W) : LoopState -> W -> list ChainEvent -> Prop :=
| reached_start w1 t1 cp w2 t2 w3 t3 :
    run_record cfg Started w0 = (tt, w1, t1) -> load_checkpoint cfg w1 = (cp, w2, t2) ->
    register_chain cfg chain w2 = (Ok tt, w3, t3) ->
    reached chain w0 (initial_state chain cp) w3 (t1 ++ t2 ++ t3)
| reached_turn s w t step rest s' w' t' :
    reached chain w0 s w t -> step_queue s = step :: rest ->
    iteration cfg fuel chain step (set_queue rest s) w = ((Continue, s'), w', t') ->
    reached chain w0 s' w' (t ++ t').

(** A child is run after the log [pre], in a turn of the run that starts in
    [w0]: from the world the turn is reached in, the inbox is drained, the step
    is let through, and the child is the step's. *)
Definition runs_child (chain : list ChainStep) (w0 : W) (pre : list ChainEvent) (i : FlowInvocation) : Prop :=
  exists s0 wt t0 step rest s w1 td w2 tg r w3 tp tp',
    reached chain w0 s0 wt t0 /\ step_queue s0 = step :: rest /\
    drain_inbox cfg chain step (set_queue rest s0) wt = (s, w1, td) /\
    let_through step s w1 w2 /\
    with_permit step (admitted_arm cfg fuel chain step s) w2 = (r, w3, tp ++ FlowRun i :: tp') /\
    pre = t0 ++ td ++ tg ++ tp /\
    step ∈ chain /\ child_of step i /\
    exists cl bl sk dr rq, accounts chain cl bl sk dr rq [step] (books s).

Lemma split_app {A} (ta tb t1 t2 : list A) e :
  ta ++ tb = t1 ++ e :: t2 ->
  (exists tc, ta = t1 ++ e :: tc) \/ exists tc, t1 = ta ++ tc /\ tb = tc ++ e :: t2.
Proof.
  revert t1. induction ta as [|a ta IH]; intros t1 H; [right; by exists t1|].
  destruct t1 as [|b t1]; injection H as -> H; [left; by eexists|].
  destruct (IH _ H) as [(tc & ->)|(tc & -> & ->)]; [left|right]; by exists tc.
Qed.

Lemma arun_flows q t q' :
  arun flows q t = Some q' -> forall i, FlowRun i ∈ t -> i ∈ q'.
Proof.
  assert (Hmono : forall t q q' i, arun flows q t = Some q' -> i ∈ q -> i ∈ q').
  { clear. induction t as [|e t IH]; intros q q' i H Hi; simpl in H; [by injection H as <-|].
    eapply IH; [exact H|]. destruct e; set_solver. }
  revert q. induction t as [|e t IH]; intros q H i Hi; [by apply not_elem_of_nil in Hi|].
  apply elem_of_cons in Hi as [<-|Hi]; simpl in H; [|by eapply IH].
  eapply Hmono; [exact H|]. set_solver.
Qed.
Lemma no_flow t t1 i t2 : arun flows [] t = Some [] -> t <> t1 ++ FlowRun i :: t2.
Proof.
  intros H ->. apply (not_elem_of_nil i). eapply arun_flows; [exact H|].
  apply elem_of_app. right. left.
Qed.

Lemma loop_inv_start chain cp : loop_inv chain (enough_turns chain) (books (initial_state chain cp)).
Proof.
  exists [], [], [], [], []. split; [|by split].
  split; simpl; try done; [by rewrite app_nil_r|set_solver|by apply NoDup_nil|set_solver..].
Qed.

(** The step in hand once the inbox is drained. *)
Lemma accounts_in_hand chain cl bl sk dr rq s step rest w q s1 w1 t1 :
  accounts chain cl bl sk dr rq [] (books s) -> step_queue s = step :: rest ->
  drain_inbox cfg chain step (set_queue rest s) w = (s1, w1, t1) ->
  (exists rq', accounts chain cl bl sk dr rq' [step] (books s1)) /\ arun flows q t1 = Some q.
Proof.
  intros Ha Es Hd. destruct (ewp_run _ _ _ _ _ _ _ _ (drain_spec chain step (set_queue rest s) q w) Hd)
    as (q' & Hq & -> & Hdr).
  split; [|done]. eapply accounts_drained; [exact Hdr|]. exact (accounts_pop _ _ _ _ _ _ _ _ _ Ha Es).
Qed.

Lemma reached_accounts chain w0 s w t :
  reached chain w0 s w t -> exists cl bl sk dr rq, accounts chain cl bl sk dr rq [] (books s).
Proof.
  induction 1 as [w1 t1 cp w2 t2 w3 t3 _ _ _|s w t step rest s' w' t' _ (cl & bl & sk & dr & rq & Ha) Es Hit].
  { destruct (loop_inv_start chain cp) as (cl & bl & sk & dr & rq & Ha & _). by exists cl, bl, sk, dr, rq. }
  destruct (ewp_run _ _ _ _ _ _ _ _ (iteration_spec chain step (set_queue rest s) [] w) Hit)
    as (_ & _ & b & Hd & He). simpl in He.
  pose proof (accounts_pop _ _ _ _ _ _ _ step rest Ha Es) as Ha1.
  destruct (accounts_drained _ _ _ _ _ _ _ _ Hd _ Ha1) as [rq' Ha2].
  destruct (accounts_exits _ _ _ _ _ _ _ _ _ _ Ha2 He) as (cl' & bl' & sk' & dr' & lost' & Ha3 & _ & Hlost & _).
  rewrite (Hlost eq_refl) in Ha3. by exists cl', bl', sk', dr', rq'.
Qed.

Lemma turn_child chain w0 s w t0 step rest x w' t t1 i t2 :
  reached chain w0 s w t0 -> step_queue s = step :: rest ->
  iteration cfg fuel chain step (set_queue rest s) w = (x, w', t) -> t = t1 ++ FlowRun i :: t2 ->
  runs_child chain w0 (t0 ++ t1) i.
Proof.
  intros Hr Es H ->. destruct (reached_accounts _ _ _ _ _ Hr) as (cl & bl & sk & dr & rq & Ha).
  unfold iteration in H. apply ebind_inv in H as (s1 & w1 & td & tr & Hd & H & Ht).
  destruct (accounts_in_hand _ _ _ _ _ _ _ _ _ _ [] _ _ _ Ha Es Hd) as [[rq' Ha1] Hnd].
  apply ebind_inv in H as (r & w2 & tr1 & tr2 & H & Hret & ->). apply eret_inv in Hret as (_ & _ & ->).
  rewrite app_nil_r in Ht. symmetry in Ht.
  apply split_app in Ht as [(tc & ->)|(tc & -> & ->)]; [by destruct (no_flow _ _ _ _ Hnd eq_refl)|].
  pose proof (gates_spec step s1 [] w1) as Hg.
  apply try_bind_inv in H as [([turn s2] & Hgate & _)|(s2 & w3 & tg & tp & Hgate & Hp & Htc)].
  { destruct (ewp_run _ _ _ _ _ _ _ _ Hg Hgate) as (q' & Hq & -> & _). by destruct (no_flow _ _ _ _ Hq eq_refl). }
  destruct (ewp_run _ _ _ _ _ _ _ _ Hg Hgate) as (q' & Hq & -> & -> & Hlet). symmetry in Htc.
  apply split_app in Htc as [(te & ->)|(te & -> & ->)]; [by destruct (no_flow _ _ _ _ Hq eq_refl)|].
  destruct (ewp_run _ _ _ _ _ _ _ _ (permit_spec chain step s1 [] w3) Hp) as (q' & Hf & Hc & _).
  assert (Hi : i ∈ q') by (eapply arun_flows; [exact Hf|]; apply elem_of_app; right; left).
  destruct Hc as [-> |(i' & -> & Hi')]; [by apply not_elem_of_nil in Hi|].
  apply list_elem_of_singleton in Hi as ->.
  exists s, w, t0, step, rest, s1, w1, td, w3, tg, r, w2, te, t2. split_and!; try done.
  - eapply accounts_queue_chain; [exact Ha1|]. left.
  - by exists cl, bl, sk, dr, rq'.
Qed.

Lemma loop_child chain n w0 s w t0 x w' t t1 i t2 :
  reached chain w0 s w t0 -> integrate_loop cfg n fuel chain s w = (x, w', t) ->
  t = t1 ++ FlowRun i :: t2 -> runs_child chain w0 (t0 ++ t1) i.
Proof.
  intros Hr H ->. revert s w t0 t1 Hr H. induction n as [|n IH]; intros s w t0 t1 Hr H; simpl in H;
    destruct (step_queue s) as [|step rest] eqn:Es;
    try by (apply eret_inv in H as (_ & _ & Ht); destruct t1).
  apply ebind_inv in H as ([turn s1] & w1 & ta & tb & Hit & H & Ht). symmetry in Ht.
  apply split_app in Ht as [(tc & ->)|(tc & -> & ->)]; [by eapply turn_child|].
  destruct turn; try by (apply eret_inv in H as (_ & _ & Ht); destruct tc).
  rewrite app_assoc. eapply IH; [by eapply reached_turn|exact H].
Qed.
End Accounting.

(** ** The wait for an operator *)

Section Waiting.
Context {X : Extern} {R : Runtime} {HO : HashOrder} {RF : RustFmt} {RX : RegexCrate} {SM : Seams}.

(** Time passes: asking never turns the clock back, and every sleep of the
    wait moves it on. *)
Record time_passes (clock : W -> Z) : Prop := {
  tp_now w : s_instant_now w = (clock w, w);
  tp_held r b w : (clock w <= clock (s_is_held r b w).2)%Z;
  tp_select r b d f w : (clock w < clock (s_select r b d f w).2)%Z
}.

Variable cfg : ChainConfig.
Variable clock : W -> Z.
Hypothesis Htime : time_passes clock.

Lemma wait_loop_ends n r b d at_ w :
  (Z.max 0 (at_ - clock w) < Z.of_nat n)%Z ->
  ewp any (wait_loop cfg n r b (Some d) (Some at_)) tt (fun x w' _ =>
    x = Some (Ok tt) \/ x = Some (Err (HoldDeadlineExceeded r b d)) /\ (at_ <= clock w')%Z) w.
Proof.
  revert w. induction n as [|n IH]; intros w Hn; simpl; [lia|].
  do 2 ewp_step. pose proof (tp_held _ Htime r b w) as Hh. rewrite Hs in Hh. simpl in Hh.
  destruct a; simpl; [|ewp_step; by left].
  do 3 ewp_step. ewp_step. rewrite (tp_now _ Htime) in Hs0. injection Hs0 as <- <-.
  destruct (Z.leb_spec at_ (clock s)) as [Hle|Hlt]; [ewp_step; by right|].
  do 3 ewp_step. ewp_step. rewrite (tp_now _ Htime) in Hs0. injection Hs0 as <- <-.
  do 2 ewp_step. match goal with H : s_select _ _ ?t ?f s = _ |- _ =>
    pose proof (tp_select _ Htime r b t f s) as Hsel; rewrite H in Hsel; simpl in Hsel end.
  destruct (_ && _); [ewp_step; by left|]. apply IH. lia.
Qed.

Lemma no_endless_wait fuel r b d :
  hold_deadline cfg = Some d -> (0 <= d < Z.of_nat fuel)%Z -> ~ endless_wait cfg fuel r b.
Proof.
  intros Hd Hf (w & w' & t & H).
  assert (ewp any (wait_for_clearance cfg fuel r b) tt (fun x _ _ => x <> None) w) as Hw.
  { unfold wait_for_clearance. rewrite Hd. do 3 ewp_step. ewp_step.
    rewrite (tp_now _ Htime) in Hs. injection Hs as <- <-.
    eapply ewp_conseq; [apply wait_loop_ends; lia|]. by intros x ? ? [-> |[-> _]]. }
  by destruct (ewp_run _ _ _ _ _ _ _ _ Hw H) as (_ & _ & Hx).
Qed.
End Waiting.

(** ** Runs *)

Section Runs.
Context {X : Extern} {R : Runtime} {HO : HashOrder} {RF : RustFmt} {RX : RegexCrate} {SM : Seams}.

Lemma inner_spec cfg fuel chain w :
  ewp flows (integrate_chain_impl_inner cfg fuel chain) [] (fun x _ _ =>
    loop_end cfg fuel chain x.1 (books x.2)) w.
Proof.
  unfold integrate_chain_impl_inner. ewp_step. apply keeps_use; [unfold load_checkpoint; keeps_go|].
  intros cp w1. ewp_step.
  eapply (ewp_conseq _ _ _ (fun r _ q => forall e, r = Err e -> chain_failure e = true)).
  { unfold register_chain. destruct (coord cfg); [|by ewp_step].
    do 2 ewp_step. destruct a as [[[] ?]|]; ewp_step; [ewp_step; by ewp_step|..]; by intros ? [= <-]. }
  intros [[]|e] w2 q He; [apply loop_spec, loop_inv_start|].
  ewp_step. destruct (loop_inv_start cfg chain cp) as (cl & bl & sk & dr & rq & Ha & _ & Hb).
  exists cl, bl, sk, dr, rq, []. split; [done|]. left. auto.
Qed.

Lemma run_end cfg fuel chain w r s w' t :
  integrate_chain_impl cfg fuel chain w = ((r, s), w', t) ->
  exists x, r = answer_of x s /\ loop_end cfg fuel chain x (books s).
Proof.
  intros H. apply run_split in H as (w1 & w2 & x & t' & H & Hr & ->). exists x. split; [done|].
  by destruct (ewp_run _ _ _ _ _ _ _ _ (inner_spec cfg fuel chain w1) H) as (_ & _ & He).
Qed.

(** Waiting for an operator ends, by clearance or by the deadline and not
    before it.  When the configuration gives a deadline and time passes, the
    wait on a held block comes back within as many polls as the deadline has
    units of time; it comes back clear, or with the deadline's error at a time
    that has reached the deadline. *)
Theorem hold_wait_ends cfg clock fuel r b d w x w' t :
  time_passes clock -> hold_deadline cfg = Some d -> (0 <= d < Z.of_nat fuel)%Z ->
  wait_for_clearance cfg fuel r b w = (x, w', t) ->
  x = Some (Ok tt) \/
  x = Some (Err (HoldDeadlineExceeded r b d)) /\ (clock w + d <= clock w')%Z.
Proof.
  intros Htime Hd Hf H. assert (ewp any (wait_for_clearance cfg fuel r b) tt (fun x w' _ =>
    x = Some (Ok tt) \/
    x = Some (Err (HoldDeadlineExceeded r b d)) /\ (clock w + d <= clock w')%Z) w) as Hw.
  { unfold wait_for_clearance. rewrite Hd. do 3 ewp_step. ewp_step.
    rewrite (tp_now _ Htime) in Hs. injection Hs as <- <-. apply (wait_loop_ends _ _ Htime). lia. }
  destruct (ewp_run _ _ _ _ _ _ _ _ Hw H) as (_ & _ & Hx). exact Hx.
Qed.

(** C12: the report of a chain accounts for the chain.  The steps of the chain,
    each step that was put back counted once more, split into the closed, the
    bailed and the skipped, in the order of the report, those that were
    dispatched or passed over, and the rest.  Every closed step has its outcome:
    its child ended well, its state file was read and said so, and its branch
    was merged.  A step is put back at most once, after it was skipped, and only
    when messages are triaged.  A run that returns its outcomes has nothing left
    or was stopped by cancellation or the budget; under [StopChain] it bailed
    nothing, and a run that fails bailed at most the step it failed on. *)
Theorem chain_report_accounts cfg fuel chain w r s w' t :
  integrate_chain_impl cfg fuel chain w = ((r, s), w', t) ->
  exists cl bl sk dr rq rest,
    chain ++ rq ≡ₚ cl ++ bl ++ sk ++ dr ++ rest /\
    closed (report s) = map step_name cl /\ bailed (report s) = map step_name bl /\
    map sk_block (skipped (report s)) = map step_name sk /\
    Forall2 (closes cfg) cl (outcomes s) /\
    NoDup (map step_key rq) /\ (forall x, x ∈ rq -> x ∈ sk) /\ (rq <> [] -> triages cfg) /\
    (Forall (fun x => step_kind x <> DispatchStep) chain -> dr = []) /\
    match r with
    | Some (Ok os) => os = outcomes s /\ (rest = [] \/ stopped cfg (books s)) /\
        (on_bail cfg = StopChain -> bl = [])
    | Some (Err e) => on_bail cfg = StopChain ->
        (chain_failure e = true \/ refusal e = true) /\ bl = [] \/
        step_failure e = true /\ exists step, bl = [step]
    | None => exists step, step ∈ chain /\ stuck cfg fuel step
    end.
Proof.
  intros H. apply run_end in H as (x & -> & cl & bl & sk & dr & rq & lost & Ha & Hx).
  exists cl, bl, sk, dr, rq, (lost ++ step_queue s).
  destruct Ha as [H1 H2 H3 H4 H5 H6 H7 H8 H9 H10 H11 H12 H13 H14].
  split_and!; try done; [by apply H9|by intros ?%H11; destruct_and?|].
  destruct x as [[[]|e]|]; simpl; [by destruct Hx| |done].
  intros Hs. destruct Hx as [[Hc Hb]|[_ [[Hr Hb]|Hf]]]; [left|left|right]; auto.
Qed.

(** C18: a chain of blocks always comes back.  When the configuration gives the
    operator's holds a deadline, time passes, and the chain dispatches no
    workflow, the run returns its outcomes or an error, with as much fuel as
    the deadline has units of time: the loop itself never runs out of turns,
    however many steps are put back. *)
Theorem chain_terminates cfg clock d fuel chain w :
  time_passes clock -> hold_deadline cfg = Some d -> (0 <= d < Z.of_nat fuel)%Z ->
  Forall (fun x => step_kind x <> DispatchStep) chain ->
  exists r s w' t, integrate_chain_impl cfg fuel chain w = ((Some r, s), w', t).
Proof.
  intros Ht Hd Hf Hall. destruct (integrate_chain_impl cfg fuel chain w) as [[[r s] w'] t] eqn:H.
  destruct r as [r|]; [by exists r, s, w', t|]. apply run_end in H as (x & Hr & ? & ? & ? & ? & ? & ? & _ & Hx).
  destruct x as [[[]|]|]; try done. destruct Hx as (step & Hin & [Hw|Hk]).
  - by destruct (no_endless_wait _ _ Ht _ _ _ _ Hd Hf Hw).
  - rewrite Forall_forall in Hall. by destruct (Hall step Hin).
Qed.

(** C13: no child runs past a gate.  Whenever a run of a chain runs a child, it
    does so in a turn that the run has reached for a step of the chain, and in
    that turn, from the world in which the inbox was drained, every gate was
    asked in its order and let the step through: no recall asks for a skip;
    cancellation was polled and not asked for; what the closed steps spent is
    below each cap; the block's row has a status, and not one of a finished
    block; none of the blocks it depends on has bailed or been skipped in this
    run; its dependencies, asked for again, are blocks and are met, one by one;
    its action, if it has one, is permitted by the profile of the brain's
    configuration; the operator's hold is not on it, after as many waits as it
    took within the deadline, or cancellation cut a wait short; and cancellation,
    polled a last time, is not asked for.  The child is the step's own: its
    repository is the one the registry names, with the chain's token. *)
Theorem child_runs_cleared cfg fuel chain w x w' t t1 i t2 :
  integrate_chain_impl cfg fuel chain w = (x, w', t) -> t = t1 ++ FlowRun i :: t2 ->
  runs_child cfg fuel chain w t1 i.
Proof.
  intros H ->. unfold integrate_chain_impl, integrate_chain_impl_inner in H.
  apply ebind_inv in H as ([] & w1 & ts & tr & Hs & H & Ht).
  assert (Hrec : forall l w0 u w0' t0, run_record cfg l w0 = (u, w0', t0) -> t0 = sink_event cfg l).
  { unfold run_record, sink_event, act. intros l w0 u w0' t0 E. destruct (has_run_record_sink cfg); by injection E as <- <- <-. }
  assert (Hnone : forall l ta tb, sink_event cfg l <> ta ++ FlowRun i :: tb).
  { unfold sink_event. intros l ta tb E. destruct (has_run_record_sink cfg); destruct ta as [|? []]; discriminate E. }
  pose proof (Hrec _ _ _ _ _ Hs) as Hts. symmetry in Ht.
  apply split_app in Ht as [(tc & ->)|(tc & -> & ->)]; [by destruct (Hnone Started t1 tc)|].
  apply ebind_inv in H as ([r s] & w2 & ti & te & H & Hend & Ht). symmetry in Ht.
  apply split_app in Ht as [(td & ->)|(td & -> & ->)].
  2: { exfalso. apply ebind_inv in Hend as ([] & w3 & t5 & t6 & H5 & H6 & Ht).
    apply eret_inv in H6 as (_ & _ & ->). rewrite app_nil_r in Ht. subst t5. destruct r.
    - apply Hrec in H5. by eapply Hnone.
    - apply eret_inv in H5 as (_ & _ & H5). by destruct td. }
  clear Hend. apply ebind_inv in H as (cp & w3 & t3 & t4 & Hcp & H & Ht). symmetry in Ht.
  assert (Hquiet : forall t0, arun flows [] t0 = Some [] -> forall ta tb, t0 = ta ++ FlowRun i :: tb -> False)
    by (intros t0 H0 ta tb; by apply no_flow).
  assert (Hl : ewp flows (load_checkpoint cfg) [] (fun _ _ q => q = []) w1)
    by (apply keeps_use; [unfold load_checkpoint; keeps_go|done]).
  destruct (ewp_run _ _ _ _ _ _ _ _ Hl Hcp) as (? & Hq & ->).
  apply split_app in Ht as [(tf & ->)|(tf & -> & ->)]; [by destruct (Hquiet _ Hq _ _ eq_refl)|].
  apply ebind_inv in H as (rr & w4 & t5 & t6 & Hreg & H & Ht). symmetry in Ht.
  assert (Hg : ewp flows (register_chain cfg chain) [] (fun _ _ q => q = []) w3)
    by (apply keeps_use; [unfold register_chain; keeps_go|done]).
  destruct (ewp_run _ _ _ _ _ _ _ _ Hg Hreg) as (? & Hq5 & ->).
  apply split_app in Ht as [(tg & ->)|(tg & -> & ->)]; [by destruct (Hquiet _ Hq5 _ _ eq_refl)|].
  destruct rr as [[]|e]; [|apply eret_inv in H as (_ & _ & Ht); by destruct tg].
  replace (ts ++ t3 ++ t5 ++ tg) with ((ts ++ t3 ++ t5) ++ tg) by (by rewrite <- !app_assoc).
  eapply loop_child; [by eapply reached_start|exact H|reflexivity].
Qed.
End Runs.

(** ** A chain that runs *)

#[local] Existing Instances ChainModel.hash_order ChainModel.rust_fmt ChainModel.regex_crate ChainModel.seams.

Lemma model_time_passes : time_passes (X := JsonModel.extern) (R := RuntimeModel.runtime) (fun w : Z => w).
Proof. split; intros; simpl; [done|lia..]. Qed.

Lemma hold_wait_ends_witness :
  let '(x, w', _) := wait_for_clearance ChainModel.cfg 40 "x" "B3" 0%Z in
  w' = 25%Z /\ (x = Some (Ok tt) \/ x = Some (Err (HoldDeadlineExceeded "x" "B3" 30)) /\ (0 + 30 <= w')%Z).
Proof.
  assert (Hw : (wait_for_clearance ChainModel.cfg 40 "x" "B3" 0%Z).1.2 = 25%Z)
    by (vm_compute; reflexivity).
  destruct (wait_for_clearance _ _ _ _ _) as [[x w'] t] eqn:E. split; [exact Hw|].
  apply (hold_wait_ends ChainModel.cfg (fun w => w) 40 "x" "B3" 30 0%Z x w' t model_time_passes); [reflexivity|lia|exact E].
Defined.

Lemma chain_report_accounts_witness :
  exists cl bl sk dr rq rest, ChainModel.chain ++ rq ≡ₚ cl ++ bl ++ sk ++ dr ++ rest /\
    map step_name cl = ["x:B1"; "x:B3"] /\ map step_name sk = ["x:B2"] /\ bl = [].
Proof.
  pose proof ChainModel.run_report as Hrep. destruct ChainModel.run as [[[r s] w'] t] eqn:E.
  destruct (chain_report_accounts ChainModel.cfg 40 ChainModel.chain 0%Z r s w' t E)
    as (cl & bl & sk & dr & rq & rest & Hp & Hc & Hb & Hs & _).
  exists cl, bl, sk, dr, rq, rest. split; [exact Hp|]. rewrite <- Hc, <- Hs.
  simpl in Hrep. destruct Hrep as (-> & Hb' & ->). rewrite Hb' in Hb. split_and!; [reflexivity..|].
  by destruct bl.
Defined.

Lemma chain_terminates_witness :
  exists r s w' t, integrate_chain_impl ChainModel.cfg 40 ChainModel.chain 0%Z = ((Some r, s), w', t).
Proof.
  apply (chain_terminates ChainModel.cfg (fun w : Z => w) 30 40 ChainModel.chain 0%Z model_time_passes).
  - reflexivity.
  - lia.
  - exact ChainModel.chain_blocks.
Defined.

(** The second child of the run, cleared after the first was skipped for. *)
Lemma child_runs_cleared_witness :
  exists t1 i t2, ChainModel.run.2 = t1 ++ FlowRun i :: t2 /\ fi_block_id i = "B3" /\
    runs_child ChainModel.cfg 40 ChainModel.chain 0%Z t1 i.
Proof.
  destruct ChainModel.run_child as (i & Hi & Hb). apply list_elem_of_split in Hi as (t1 & t2 & Ht).
  exists t1, i, t2. split; [exact Ht|]. split; [exact Hb|].
  destruct ChainModel.run as [[x w'] t] eqn:E.
  exact (child_runs_cleared ChainModel.cfg 40 ChainModel.chain 0%Z x w' t t1 i t2 E Ht).
Defined.
