(* ===== verification/SdlcPolicy.v ===== *)
(** * The policy of an SDLC run

    The knobs of the SDLC_FLOW workflow, the override layers a run merges and
    the named profiles:

    - [OutputVerbosity], [ModelTier], [LocalConfig], [PiConfig]:
      crates/engine-core/src/policy/tier.rs; [AgentBackend]:
      policy/agent_backend.rs; their overlays: policy/overlay.rs
    - [SdlcPolicy], its partial mirror and [sdlc_apply]:
      workflows/sdlc_flow/policy.rs
    - the profiles: workflows/sdlc_flow/profiles.rs

    The four layers themselves are [Policy.resolve]. *)

From S2P Require Import Prelude Json Policy.

Local Open Scope string_scope.
Local Open Scope list_scope.

(** ** Knobs shared by every workflow *)

Inductive OutputVerbosity := Terse | Normal | Verbose.
Inductive ModelTier := Sonnet | Haiku | Opus | Local.
#[export] Instance ModelTier_eq_dec : EqDecision ModelTier.
Proof. solve_decision. Defined.

Definition model_tier_to_model_string (tier : ModelTier) (local_model : string) : string :=
  match tier with
  | Sonnet => "claude-sonnet-4-5"
  | Haiku => "claude-haiku-4-5"
  | Opus => "claude-opus-4-8"
  | Local => local_model
  end.

Record LocalConfig := mkLocalConfig {
  endpoint : string; local_model : string; constrained_json : bool }.
Definition LocalConfig_default : LocalConfig :=
  mkLocalConfig "http://localhost:11434" "qwen2.5:7b-instruct" false.

Definition DEFAULT_PI_TOOLS : list string :=
  ["read"; "write"; "edit"; "hashline_edit"; "bash"; "grep"; "find"; "ls"; "ast_grep";
   "ast_edit"; "lsp"; "todo"].
Record PiConfig := mkPiConfig { no_context_files : bool; no_session : bool; pi_tools : list string }.
Definition PiConfig_default : PiConfig := mkPiConfig true true DEFAULT_PI_TOOLS.

Record PartialLocalConfig := mkPartialLocalConfig {
  p_endpoint : option string; p_local_model : option string; p_constrained_json : option bool }.
Definition merge_local (base : LocalConfig) (over : PartialLocalConfig) : LocalConfig :=
  mkLocalConfig (default (endpoint base) (p_endpoint over))
    (default (local_model base) (p_local_model over))
    (default (constrained_json base) (p_constrained_json over)).

Record PartialPiConfig := mkPartialPiConfig {
  p_no_context_files : option bool; p_no_session : option bool; p_tools : option (list string) }.
Definition merge_pi_config (base : PiConfig) (over : PartialPiConfig) : PiConfig :=
  mkPiConfig (default (no_context_files base) (p_no_context_files over))
    (default (no_session base) (p_no_session over))
    (default (pi_tools base) (p_tools over)).

Inductive AgentBackend := ClaudeCli | Pi | Aider.
#[export] Instance AgentBackend_eq_dec : EqDecision AgentBackend.
Proof. solve_decision. Defined.

(** ** Knobs of the flow *)

Inductive ReviewMode := PerTask | TrivialSkip | EndOnly.
#[export] Instance ReviewMode_eq_dec : EqDecision ReviewMode.
Proof. solve_decision. Defined.
Inductive TestDepth := Full | Fast.
#[export] Instance TestDepth_eq_dec : EqDecision TestDepth.
Proof. solve_decision. Defined.
Inductive TestDispatch := Inline | QueuePark.
#[export] Instance TestDispatch_eq_dec : EqDecision TestDispatch.
Proof. solve_decision. Defined.

Record ModelTiers := mkModelTiers {
  mt_implement : ModelTier; mt_implement_simple : ModelTier; mt_review : ModelTier;
  mt_triage : ModelTier; mt_generate : ModelTier; mt_docs : ModelTier;
  implement_final_attempt : option ModelTier
}.
Definition ModelTiers_default : ModelTiers :=
  mkModelTiers Sonnet Sonnet Sonnet Sonnet Opus Sonnet None.

Record CallTimeouts := mkCallTimeouts {
  ct_implement : option Z; ct_triage : option Z; ct_review : option Z;
  ct_generate : option Z; ct_docs : option Z }.
Definition CallTimeouts_default : CallTimeouts := mkCallTimeouts None None None None None.

Record StageTurnCeilings := mkStageTurnCeilings {
  tc_implement : option Z; tc_review : option Z; tc_triage : option Z;
  tc_generate : option Z; tc_docs : option Z }.
Definition StageTurnCeilings_default : StageTurnCeilings := mkStageTurnCeilings None None None None None.

Record RetryFeedback := mkRetryFeedback { rf_enabled : bool; max_chars : Z }.
Definition RetryFeedback_default : RetryFeedback := mkRetryFeedback true 4000.
Record PartialRetryFeedback := mkPartialRetryFeedback {
  p_enabled : option bool; p_max_chars : option Z }.

Record TransportRetry := mkTransportRetry { tr_max_attempts : Z; initial_backoff_ms : Z }.
Definition TransportRetry_default : TransportRetry := mkTransportRetry 3 200.
Record PartialTransportRetry := mkPartialTransportRetry {
  p_tr_max_attempts : option Z; p_initial_backoff_ms : option Z }.

Record SdlcPolicy := mkSdlcPolicy {
  output_verbosity : OutputVerbosity;
  prompt_cache : bool;
  review_mode : ReviewMode;
  review_skip_max_files : Z;
  review_skip_max_diff_lines : Z;
  test_depth : TestDepth;
  test_dispatch : TestDispatch;
  model_tiers : ModelTiers;
  timeouts : CallTimeouts;
  max_turns : StageTurnCeilings;
  local : LocalConfig;
  pi : PiConfig;
  llm_triage : bool;
  policy_max_attempts : Z;
  max_review_attempts : Z;
  retry_feedback : RetryFeedback;
  transport_retry : TransportRetry;
  review_diff_max_chars : Z;
  node_invocation_payload_cap_bytes : Z;
  generate_context_max_bytes : option Z;
  agent_backend : AgentBackend;
  isolated : bool
}.

Definition SdlcPolicy_default : SdlcPolicy :=
  mkSdlcPolicy Normal false PerTask 2 40 Full Inline ModelTiers_default CallTimeouts_default
    StageTurnCeilings_default LocalConfig_default PiConfig_default false 3 3
    RetryFeedback_default TransportRetry_default 120000 65536 None ClaudeCli true.

(** ** Override layers *)

Record PartialModelTiers := mkPartialModelTiers {
  pmt_implement : option ModelTier; pmt_implement_simple : option ModelTier;
  pmt_review : option ModelTier; pmt_triage : option ModelTier;
  pmt_generate : option ModelTier; pmt_docs : option ModelTier;
  p_implement_final_attempt : option (option ModelTier)
}.
Record PartialCallTimeouts := mkPartialCallTimeouts {
  pct_implement : option Z; pct_triage : option Z; pct_review : option Z;
  pct_generate : option Z; pct_docs : option Z }.
Record PartialStageTurnCeilings := mkPartialStageTurnCeilings {
  ptc_implement : option Z; ptc_review : option Z; ptc_triage : option Z;
  ptc_generate : option Z; ptc_docs : option Z }.

Record PartialPolicy := mkPartialPolicy {
  p_output_verbosity : option OutputVerbosity;
  p_prompt_cache : option bool;
  p_review_mode : option ReviewMode;
  p_review_skip_max_files : option Z;
  p_review_skip_max_diff_lines : option Z;
  p_test_depth : option TestDepth;
  p_test_dispatch : option TestDispatch;
  p_model_tiers : option PartialModelTiers;
  p_timeouts : option PartialCallTimeouts;
  p_max_turns : option PartialStageTurnCeilings;
  p_local : option PartialLocalConfig;
  p_pi : option PartialPiConfig;
  p_llm_triage : option bool;
  p_agent_backend : option AgentBackend;
  p_isolated : option bool;
  p_max_attempts : option Z;
  p_max_review_attempts : option Z;
  p_retry_feedback : option PartialRetryFeedback;
  p_transport_retry : option PartialTransportRetry;
  p_review_diff_max_chars : option Z;
  p_node_invocation_payload_cap_bytes : option Z;
  p_generate_context_max_bytes : option (option Z)
}.
Definition PartialPolicy_default : PartialPolicy :=
  mkPartialPolicy None None None None None None None None None None None None None None None None
    None None None None None None.

Definition merge_model_tiers (base : ModelTiers) (over : PartialModelTiers) : ModelTiers :=
  mkModelTiers (default (mt_implement base) (pmt_implement over))
    (default (mt_implement_simple base) (pmt_implement_simple over))
    (default (mt_review base) (pmt_review over))
    (default (mt_triage base) (pmt_triage over))
    (default (mt_generate base) (pmt_generate over))
    (default (mt_docs base) (pmt_docs over))
    (merge_opt (implement_final_attempt base) (p_implement_final_attempt over)).

(** [if let Some(v) = over.f { base.f = Some(v) }] *)
Definition or_else {A} (base over : option A) : option A :=
  match over with Some v => Some v | None => base end.

Definition merge_call_timeouts (base : CallTimeouts) (over : PartialCallTimeouts) : CallTimeouts :=
  mkCallTimeouts (or_else (ct_implement base) (pct_implement over))
    (or_else (ct_triage base) (pct_triage over)) (or_else (ct_review base) (pct_review over))
    (or_else (ct_generate base) (pct_generate over)) (or_else (ct_docs base) (pct_docs over)).

Definition merge_stage_turn_ceilings (base : StageTurnCeilings) (over : PartialStageTurnCeilings)
    : StageTurnCeilings :=
  mkStageTurnCeilings (or_else (tc_implement base) (ptc_implement over))
    (or_else (tc_review base) (ptc_review over)) (or_else (tc_triage base) (ptc_triage over))
    (or_else (tc_generate base) (ptc_generate over)) (or_else (tc_docs base) (ptc_docs over)).

Definition merge_retry_feedback (base : RetryFeedback) (over : PartialRetryFeedback) : RetryFeedback :=
  mkRetryFeedback (default (rf_enabled base) (p_enabled over))
    (default (max_chars base) (p_max_chars over)).

Definition merge_transport_retry (base : TransportRetry) (over : PartialTransportRetry)
    : TransportRetry :=
  mkTransportRetry (default (tr_max_attempts base) (p_tr_max_attempts over))
    (default (initial_backoff_ms base) (p_initial_backoff_ms over)).

(** [match &over.f { Some(x) => merge(base.f, x), None => base.f }] *)
Definition merge_group {A B} (merge : A -> B -> A) (base : A) (over : option B) : A :=
  match over with Some x => merge base x | None => base end.

Definition sdlc_apply (base : SdlcPolicy) (over : PartialPolicy) : SdlcPolicy :=
  mkSdlcPolicy
    (merge_opt (output_verbosity base) (p_output_verbosity over))
    (merge_opt (prompt_cache base) (p_prompt_cache over))
    (merge_opt (review_mode base) (p_review_mode over))
    (merge_opt (review_skip_max_files base) (p_review_skip_max_files over))
    (merge_opt (review_skip_max_diff_lines base) (p_review_skip_max_diff_lines over))
    (merge_opt (test_depth base) (p_test_depth over))
    (merge_opt (test_dispatch base) (p_test_dispatch over))
    (merge_group merge_model_tiers (model_tiers base) (p_model_tiers over))
    (merge_group merge_call_timeouts (timeouts base) (p_timeouts over))
    (merge_group merge_stage_turn_ceilings (max_turns base) (p_max_turns over))
    (merge_group merge_local (local base) (p_local over))
    (merge_group merge_pi_config (pi base) (p_pi over))
    (merge_opt (llm_triage base) (p_llm_triage over))
    (merge_opt (policy_max_attempts base) (p_max_attempts over))
    (merge_opt (max_review_attempts base) (p_max_review_attempts over))
    (merge_group merge_retry_feedback (retry_feedback base) (p_retry_feedback over))
    (merge_group merge_transport_retry (transport_retry base) (p_transport_retry over))
    (merge_opt (review_diff_max_chars base) (p_review_diff_max_chars over))
    (merge_opt (node_invocation_payload_cap_bytes base) (p_node_invocation_payload_cap_bytes over))
    (merge_opt (generate_context_max_bytes base) (p_generate_context_max_bytes over))
    (merge_opt (agent_backend base) (p_agent_backend over))
    (merge_opt (isolated base) (p_isolated over)).

#[export] Instance sdlc_policy : Policy SdlcPolicy.
Proof.
  refine {| apply := sdlc_apply; no_override := PartialPolicy_default |}.
  by intros [].
Defined.

Definition resolve_sdlc (builtin : SdlcPolicy)
    (harness_defaults profile event_override : option PartialPolicy) : SdlcPolicy :=
  resolve builtin harness_defaults profile event_override.

(** ** The named profiles *)

Definition tiers (i s r t g d : option ModelTier) (f : option (option ModelTier))
    : option PartialModelTiers := Some (mkPartialModelTiers i s r t g d f).

Definition baseline : PartialPolicy :=
  mkPartialPolicy None None (Some PerTask) None None (Some Full) (Some Inline)
    (tiers (Some Sonnet) (Some Sonnet) (Some Sonnet) (Some Sonnet) (Some Opus) (Some Sonnet)
       (Some None))
    None None None None (Some false) None (Some true) None (Some 3%Z) None None
    (Some 120000%Z) (Some 65536%Z) None.

Definition cheap_fast : PartialPolicy :=
  mkPartialPolicy (Some Terse) None (Some TrivialSkip) None None (Some Fast) (Some QueuePark)
    (tiers (Some Haiku) None (Some Haiku) (Some Haiku) (Some Haiku) (Some Haiku) None)
    None None None None None None (Some true) None (Some 2%Z) None None
    (Some 20000%Z) (Some 8192%Z) None.

Definition pragmatist : PartialPolicy :=
  mkPartialPolicy None (Some true) (Some TrivialSkip) None None (Some Fast) (Some QueuePark)
    (tiers (Some Sonnet) None (Some Sonnet) None (Some Opus) (Some Sonnet) None)
    None None None None (Some true) None (Some true) None (Some 3%Z) None None
    (Some 40000%Z) None None.

Definition batch_reviewer : PartialPolicy :=
  mkPartialPolicy None None (Some EndOnly) None None (Some Fast) (Some QueuePark)
    (tiers (Some Sonnet) None None None (Some Opus) (Some Sonnet) None)
    None None None None None None (Some true) None (Some 3%Z) None None
    (Some 200000%Z) None None.

Definition thorough : PartialPolicy :=
  mkPartialPolicy (Some Verbose) (Some true) (Some PerTask) (Some 2%Z) (Some 40%Z) (Some Full)
    (Some QueuePark)
    (tiers (Some Opus) (Some Opus) (Some Opus) (Some Opus) (Some Opus) (Some Opus) (Some (Some Opus)))
    (Some (mkPartialCallTimeouts (Some 900%Z) (Some 900%Z) (Some 900%Z) None None))
    (Some (mkPartialStageTurnCeilings (Some 80%Z) (Some 80%Z) (Some 80%Z) None None))
    (Some (mkPartialLocalConfig (Some "http://localhost:11434") (Some "qwen2.5:7b-instruct")
             (Some false)))
    None (Some true) None (Some true) (Some 5%Z) (Some 5%Z)
    (Some (mkPartialRetryFeedback (Some true) (Some 8000%Z)))
    (Some (mkPartialTransportRetry (Some 5%Z) (Some 200%Z)))
    (Some 400000%Z) (Some 262144%Z) (Some None).

Definition profile_by_name (name : string) : option PartialPolicy :=
  if String.eqb name "baseline" then Some baseline
  else if String.eqb name "cheap-fast" then Some cheap_fast
  else if String.eqb name "thorough" then Some thorough
  else if String.eqb name "pragmatist" then Some pragmatist
  else if String.eqb name "batch-reviewer" then Some batch_reviewer
  else None.

(** ** Stages *)

Inductive Stage := Implement | Triage | Review | Generate | Docs.
Definition stage_model_tier (policy : SdlcPolicy) (stage : Stage) : ModelTier :=
  match stage with
  | Implement => mt_implement (model_tiers policy)
  | Triage => mt_triage (model_tiers policy)
  | Review => mt_review (model_tiers policy)
  | Generate => mt_generate (model_tiers policy)
  | Docs => mt_docs (model_tiers policy)
  end.
Definition stage_call_timeout (policy : SdlcPolicy) (stage : Stage) : option Z :=
  match stage with
  | Implement => ct_implement (timeouts policy)
  | Triage => ct_triage (timeouts policy)
  | Review => ct_review (timeouts policy)
  | Generate => ct_generate (timeouts policy)
  | Docs => ct_docs (timeouts policy)
  end.
Definition stage_turn_ceiling (policy : SdlcPolicy) (stage : Stage) : option Z :=
  match stage with
  | Implement => tc_implement (max_turns policy)
  | Triage => tc_triage (max_turns policy)
  | Review => tc_review (max_turns policy)
  | Generate => tc_generate (max_turns policy)
  | Docs => tc_docs (max_turns policy)
  end.

(** * Facts *)

(** Every knob of the policy, with the type of its value. *)
Inductive knob : Type -> Type :=
| k_verbosity : knob OutputVerbosity | k_prompt_cache : knob bool
| k_review_mode : knob ReviewMode | k_skip_files : knob Z | k_skip_lines : knob Z
| k_test_depth : knob TestDepth | k_test_dispatch : knob TestDispatch
| k_tier (s : Stage) : knob ModelTier | k_tier_simple : knob ModelTier
| k_tier_final : knob (option ModelTier)
| k_timeout (s : Stage) : knob (option Z) | k_turns (s : Stage) : knob (option Z)
| k_endpoint : knob string | k_local_model : knob string | k_constrained : knob bool
| k_no_context : knob bool | k_no_session : knob bool | k_pi_tools : knob (list string)
| k_llm_triage : knob bool | k_max_attempts : knob Z | k_max_review : knob Z
| k_feedback : knob bool | k_feedback_chars : knob Z
| k_retry_attempts : knob Z | k_backoff : knob Z
| k_diff_chars : knob Z | k_payload_cap : knob Z | k_generate_bytes : knob (option Z)
| k_backend : knob AgentBackend | k_isolated : knob bool.

Definition knob_value {A} (k : knob A) : SdlcPolicy -> A :=
  match k in knob A return SdlcPolicy -> A with
  | k_verbosity => output_verbosity | k_prompt_cache => prompt_cache
  | k_review_mode => review_mode | k_skip_files => review_skip_max_files
  | k_skip_lines => review_skip_max_diff_lines
  | k_test_depth => test_depth | k_test_dispatch => test_dispatch
  | k_tier s => fun p => stage_model_tier p s
  | k_tier_simple => fun p => mt_implement_simple (model_tiers p)
  | k_tier_final => fun p => implement_final_attempt (model_tiers p)
  | k_timeout s => fun p => stage_call_timeout p s
  | k_turns s => fun p => stage_turn_ceiling p s
  | k_endpoint => fun p => endpoint (local p)
  | k_local_model => fun p => local_model (local p)
  | k_constrained => fun p => constrained_json (local p)
  | k_no_context => fun p => no_context_files (pi p)
  | k_no_session => fun p => no_session (pi p)
  | k_pi_tools => fun p => pi_tools (pi p)
  | k_llm_triage => llm_triage | k_max_attempts => policy_max_attempts
  | k_max_review => max_review_attempts
  | k_feedback => fun p => rf_enabled (retry_feedback p)
  | k_feedback_chars => fun p => max_chars (retry_feedback p)
  | k_retry_attempts => fun p => tr_max_attempts (transport_retry p)
  | k_backoff => fun p => initial_backoff_ms (transport_retry p)
  | k_diff_chars => review_diff_max_chars
  | k_payload_cap => node_invocation_payload_cap_bytes
  | k_generate_bytes => generate_context_max_bytes
  | k_backend => agent_backend | k_isolated => isolated
  end.

(** What a layer says about a knob. *)
Definition knob_set {A} (k : knob A) : PartialPolicy -> option A :=
  match k in knob A return PartialPolicy -> option A with
  | k_verbosity => p_output_verbosity | k_prompt_cache => p_prompt_cache
  | k_review_mode => p_review_mode | k_skip_files => p_review_skip_max_files
  | k_skip_lines => p_review_skip_max_diff_lines
  | k_test_depth => p_test_depth | k_test_dispatch => p_test_dispatch
  | k_tier s => fun l => p_model_tiers l ≫= match s with
      | Implement => pmt_implement | Triage => pmt_triage | Review => pmt_review
      | Generate => pmt_generate | Docs => pmt_docs end
  | k_tier_simple => fun l => p_model_tiers l ≫= pmt_implement_simple
  | k_tier_final => fun l => p_model_tiers l ≫= p_implement_final_attempt
  | k_timeout s => fun l => Some <$> (p_timeouts l ≫= match s with
      | Implement => pct_implement | Triage => pct_triage | Review => pct_review
      | Generate => pct_generate | Docs => pct_docs end)
  | k_turns s => fun l => Some <$> (p_max_turns l ≫= match s with
      | Implement => ptc_implement | Triage => ptc_triage | Review => ptc_review
      | Generate => ptc_generate | Docs => ptc_docs end)
  | k_endpoint => fun l => p_local l ≫= p_endpoint
  | k_local_model => fun l => p_local l ≫= p_local_model
  | k_constrained => fun l => p_local l ≫= p_constrained_json
  | k_no_context => fun l => p_pi l ≫= p_no_context_files
  | k_no_session => fun l => p_pi l ≫= p_no_session
  | k_pi_tools => fun l => p_pi l ≫= p_tools
  | k_llm_triage => p_llm_triage | k_max_attempts => p_max_attempts
  | k_max_review => p_max_review_attempts
  | k_feedback => fun l => p_retry_feedback l ≫= p_enabled
  | k_feedback_chars => fun l => p_retry_feedback l ≫= p_max_chars
  | k_retry_attempts => fun l => p_transport_retry l ≫= p_tr_max_attempts
  | k_backoff => fun l => p_transport_retry l ≫= p_initial_backoff_ms
  | k_diff_chars => p_review_diff_max_chars
  | k_payload_cap => p_node_invocation_payload_cap_bytes
  | k_generate_bytes => p_generate_context_max_bytes
  | k_backend => p_agent_backend | k_isolated => p_isolated
  end.

(** One layer. *)
Lemma knob_apply {A} (k : knob A) base over :
  knob_value k (sdlc_apply base over) = default (knob_value k base) (knob_set k over).
Proof.
  destruct over as [? ? ? ? ? ? ? [[]|] [[]|] [[]|] [[]|] [[]|] ? ? ? ? ? [[]|] [[]|] ? ? ?].
  all: destruct k as [| | | | | | |[]| | |[]|[]| | | | | | | | | | | | | | | | | |]; cbn; try done.
  all: unfold or_else; by case_match.
Qed.

(** A policy is its knobs. *)
Lemma knobs_determine (q q' : SdlcPolicy) :
  (forall A (k : knob A), knob_value k q = knob_value k q') -> q = q'.
Proof.
  intros K.
  pose proof (fun s => K _ (k_tier s)) as Kt. pose proof (fun s => K _ (k_timeout s)) as Kc.
  pose proof (fun s => K _ (k_turns s)) as Ku.
  destruct q as [? ? ? ? ? ? ? [] [] [] [] [] ? ? ? [] [] ? ? ? ? ?],
    q' as [? ? ? ? ? ? ? [] [] [] [] [] ? ? ? [] [] ? ? ? ? ?].
  pose proof (conj (Kt Implement) (conj (Kt Triage) (conj (Kt Review) (conj (Kt Generate) (Kt Docs))))) as T.
  pose proof (conj (Kc Implement) (conj (Kc Triage) (conj (Kc Review) (conj (Kc Generate) (Kc Docs))))) as C.
  pose proof (conj (Ku Implement) (conj (Ku Triage) (conj (Ku Review) (conj (Ku Generate) (Ku Docs))))) as U.
  pose proof (conj (K _ k_verbosity) (conj (K _ k_prompt_cache) (conj (K _ k_review_mode)
    (conj (K _ k_skip_files) (conj (K _ k_skip_lines) (conj (K _ k_test_depth)
    (conj (K _ k_test_dispatch) (conj (K _ k_tier_simple) (K _ k_tier_final))))))))) as V.
  pose proof (conj (K _ k_endpoint) (conj (K _ k_local_model) (conj (K _ k_constrained)
    (conj (K _ k_no_context) (conj (K _ k_no_session) (conj (K _ k_pi_tools)
    (conj (K _ k_llm_triage) (conj (K _ k_max_attempts) (K _ k_max_review))))))))) as W.
  pose proof (conj (K _ k_feedback) (conj (K _ k_feedback_chars) (conj (K _ k_retry_attempts)
    (conj (K _ k_backoff) (conj (K _ k_diff_chars) (conj (K _ k_payload_cap)
    (conj (K _ k_generate_bytes) (conj (K _ k_backend) (K _ k_isolated))))))))) as Y.
  clear K Kt Kc Ku. cbn in *. destruct_and!. by subst.
Qed.

(** A run's policy is resolved knob by knob: whatever the four layers
    are, each of the policy's knobs, those inside a nested group included, has
    the value of the highest layer that sets it, the event's override over the
    named profile over harness.json over the built-in, so setting one field of
    a group leaves the group's other fields to the lower layers; the resolved
    policy is the only one with those knobs; and the baseline profile over the
    built-in default is the built-in default. *)
Theorem sdlc_resolve_spec b h p e :
  (forall A (k : knob A),
     knob_value k (resolve_sdlc b h p e) = first_set (knob_set k) [e; p; h] (knob_value k b)) /\
  (forall q, (forall A (k : knob A), knob_value k q = knob_value k (resolve_sdlc b h p e)) ->
     q = resolve_sdlc b h p e) /\
  resolve_sdlc SdlcPolicy_default None (profile_by_name "baseline") None = SdlcPolicy_default.
Proof.
  split_and!; [|intros q; apply knobs_determine|done].
  intros A k. rewrite merge_layers. unfold resolve_sdlc, resolve.
  destruct h as [h|], p as [p|], e as [e|]; cbn; by rewrite ?knob_apply.
Qed.

(** A layer read from JSON cannot clear a knob that is itself optional: serde
    reads the [null] of an [Option<Option<T>>] as a layer that says nothing. *)
Lemma json_cannot_clear {X : Extern} {A} (dec : value -> option A) v :
  de_default None (de_nullable (de_nullable dec)) v <> Some (Some None).
Proof.
  destruct v as [v| |]; cbn; try done. unfold de_nullable.
  destruct (is_null v); [done|]. by destruct (dec v).
Qed.
