(* ===== verification/SdlcState.v ===== *)
(** * The durable state of an SDLC run

    crates/engine-core/src/workflows/sdlc_flow/schema.rs:

    - [SDLCTask], [SDLCTelemetry], [SDLCState] and their wire form
    - [parse_task_range]
    - [TerminalSignal] and what is derived from it
    - [to_committed_state_json], the shape a run's state file has, and
      [from_committed_state_json], which a resumed run reads it back with.

    The derived serde implementations of [SdlcPolicy] and [RunOutcomes] are the
    class [PolicySerde]; a [serde_json::Map] is enumerated by [as_object], in
    any order. *)

From Stdlib Require Import Ascii.
From stdpp Require Import pretty.
From S2P Require Import Prelude Json Sessions Utf8 Text Telemetry SdlcPolicy Node.

Local Open Scope string_scope.
Local Open Scope list_scope.
Local Open Scope engine_scope.

(** ** Tasks *)

Inductive SDLCTaskStatus := TsPending | TsInProgress | TsDone | TsFailed | TsSkipped.
#[export] Instance SDLCTaskStatus_eq_dec : EqDecision SDLCTaskStatus.
Proof. solve_decision. Defined.
Definition status_as_str (s : SDLCTaskStatus) : string :=
  match s with
  | TsPending => "pending" | TsInProgress => "in_progress" | TsDone => "done"
  | TsFailed => "failed" | TsSkipped => "skipped"
  end.
Definition status_of_str (s : string) : option SDLCTaskStatus :=
  find (fun st => String.eqb (status_as_str st) s) [TsPending; TsInProgress; TsDone; TsFailed; TsSkipped].

Definition default_max_attempts : Z := 3.
Definition default_expects_writes : bool := true.

Record SDLCTask := mkSDLCTask {
  task_id : Z;
  title : string;
  description : string;
  acceptance_criteria : list string;
  task_status : SDLCTaskStatus;
  validation_commands : list string;
  attempt_count : Z;
  max_attempts : Z;
  review_attempt_count : Z;
  expects_writes : bool;
  task_files : list string
}.
Definition SDLCTask_new (id : Z) (title description : string) : SDLCTask :=
  mkSDLCTask id title description [] TsPending [] 0 default_max_attempts 0 default_expects_writes [].

Record SDLCTelemetry := mkSDLCTelemetry {
  total_attempts : Z;
  budget_spent : f64;
  tasks_passed : Z;
  tasks_failed : Z;
  review_attempts : Z
}.
Definition SDLCTelemetry_default : SDLCTelemetry := mkSDLCTelemetry 0 f64_zero 0 0 0.

Record RunOutcomes := mkRunOutcomes {
  ro_wall_clock_secs : f64;
  ro_total_attempts : Z;
  ro_total_retries : Z;
  ro_tasks_passed : Z;
  ro_tasks_failed : Z;
  ro_review_verdicts : list string;
  ro_total_input_tokens : Z;
  ro_total_output_tokens : Z;
  ro_total_cost_usd : f64;
  ro_total_cache_read_tokens : Z;
  ro_total_cache_creation_tokens : Z;
  ro_unknown_cost_invocations : Z;
  ro_model_tier_used : gmap string string;
  ro_backend_used : gmap string string
}.
Definition outcomes_of_telemetry (t : RunTelemetry) : RunOutcomes :=
  mkRunOutcomes (rt_wall_clock_secs t) (rt_total_attempts t) (rt_total_retries t)
    (rt_tasks_passed t) (rt_tasks_failed t) (rt_review_verdicts t) (rt_total_input_tokens t)
    (rt_total_output_tokens t) (rt_total_cost_usd t) (rt_total_cache_read_tokens t)
    (rt_total_cache_creation_tokens t) (rt_unknown_cost_invocations t) (rt_model_tier_used t)
    (rt_backend_used t).

Record SDLCState := mkSDLCState {
  spec_slug : string;
  phase_id : option string;
  state_block_id : option string;
  global_status : string;
  tasks : list SDLCTask;
  telemetry : SDLCTelemetry;
  st_policy : option SdlcPolicy;
  st_outcomes : option RunOutcomes;
  branch : option string;
  st_worktree_path : option string;
  st_started_at : option string;
  st_updated_at : option string;
  bail_reason : option string;
  st_run_id : option string;
  claude_sessions : list ClaudeSession
}.
Definition default_global_status : string := status_as_str TsPending.
Definition SDLCState_new (slug : string) : SDLCState :=
  mkSDLCState slug None None default_global_status [] SDLCTelemetry_default None None None None
    None None None None [].

Definition set_tasks (f : list SDLCTask -> list SDLCTask) (s : SDLCState) : SDLCState :=
  mkSDLCState (spec_slug s) (phase_id s) (state_block_id s) (global_status s) (f (tasks s))
    (telemetry s) (st_policy s) (st_outcomes s) (branch s) (st_worktree_path s) (st_started_at s)
    (st_updated_at s) (bail_reason s) (st_run_id s) (claude_sessions s).
Definition set_telemetry (f : SDLCTelemetry -> SDLCTelemetry) (s : SDLCState) : SDLCState :=
  mkSDLCState (spec_slug s) (phase_id s) (state_block_id s) (global_status s) (tasks s)
    (f (telemetry s)) (st_policy s) (st_outcomes s) (branch s) (st_worktree_path s)
    (st_started_at s) (st_updated_at s) (bail_reason s) (st_run_id s) (claude_sessions s).

(** ** Task ranges *)

(** [BTreeSet::insert], the set as its ascending list *)
Fixpoint set_insert (n : Z) (l : list Z) : list Z :=
  match l with
  | [] => [n]
  | m :: l' =>
      match Z.compare n m with Lt => n :: l | Eq => l | Gt => m :: set_insert n l' end
  end.

Section Ranges.
Variable debug_str : string -> string.

Definition range_error (what chunk : string) : string :=
  "Invalid task range chunk" +:+ what +:+ ": " +:+ debug_str chunk.

(** One chunk: an interval, nothing, or an error. *)
Definition parse_chunk (chunk : string) : result (option (Z * Z)) string :=
  let chunk := trim chunk in
  if String.eqb chunk "" then Ok None
  else match split_once "-"%char chunk with
  | Some (start_str, end_str) =>
      match parse_u32 (trim start_str) with None => Err (range_error "" chunk) | Some lo =>
      match parse_u32 (trim end_str) with None => Err (range_error "" chunk) | Some hi =>
      if (hi <? lo)%Z then Err (range_error " (end < start)" chunk) else Ok (Some (lo, hi))
      end end
  | None =>
      match parse_u32 chunk with
      | None => Err (range_error "" chunk)
      | Some id => Ok (Some (id, id))
      end
  end.

(** [task_ids.extend(start..=end)] *)
Definition extend_range (ids : list Z) (lo hi : Z) : list Z :=
  foldl (fun ids n => set_insert n ids) ids (seqZ lo (hi - lo + 1)).

Fixpoint parse_chunks (chunks : list string) (ids : list Z) : result (list Z) string :=
  match chunks with
  | [] => Ok ids
  | c :: chunks =>
      r <-? parse_chunk c;
      parse_chunks chunks (match r with Some (lo, hi) => extend_range ids lo hi | None => ids end)
  end.

Definition parse_task_range (task_range : option string) : result (option (list Z)) string :=
  match task_range with
  | None => Ok None
  | Some r => ids <-? parse_chunks (split_at ","%char r) []; Ok (Some ids)
  end.
End Ranges.

(** ** How a run ends *)

Inductive TerminalSignal :=
| MajorBail (message : string)
| ReviewFail (message : string)
| StructuralFail (message : string)
| FinalValidationFailed (message : string)
| EndReviewFail (message : string)
| ReviewExhausted (message : string)
| ReconcileFailed (message : string).

Definition signal_message (s : TerminalSignal) : string :=
  match s with
  | MajorBail m | ReviewFail m | StructuralFail m | FinalValidationFailed m | EndReviewFail m
  | ReviewExhausted m | ReconcileFailed m => m
  end.

Definition is_terminal_task (t : SDLCTask) : bool :=
  match task_status t with TsDone | TsSkipped => true | _ => false end.

Definition derive_committed_status (state : SDLCState) (signal : option TerminalSignal) : string :=
  match signal with
  | Some (ReconcileFailed _) => "reconcile_failed"
  | Some (EndReviewFail _) => "criteria_refused"
  | Some _ => "blocked"
  | None =>
      if negb (bool_decide (tasks state = [])) && forallb is_terminal_task (tasks state)
      then "done" else "running"
  end.

(** [Iterator::min] and [max] *)
Definition min_opt (l : list Z) : option Z :=
  match l with [] => None | n :: l => Some (foldl Z.min n l) end.
Definition max_opt (l : list Z) : option Z :=
  match l with [] => None | n :: l => Some (foldl Z.max n l) end.

Definition derive_current_task (tasks : list SDLCTask) : Z :=
  match min_opt (map task_id (filter (fun t => is_terminal_task t = false) tasks)) with
  | Some id => id
  | None => default 0%Z (max_opt (map task_id tasks))
  end.

Definition derive_bail_reason (signal : option TerminalSignal) : option string :=
  (fun s => match s with
            | FinalValidationFailed m => "Final validation gate FAILED: " +:+ m
            | ReviewExhausted m => "Review attempts exhausted: " +:+ m
            | other => signal_message other
            end) <$> signal.

(** ** The wire form *)

Class PolicySerde {X : Extern} := {
  policy_to_json : SdlcPolicy -> value;
  policy_of_json : value -> option SdlcPolicy;
  outcomes_to_json : RunOutcomes -> value;
  outcomes_of_json : value -> option RunOutcomes
}.
#[global] Arguments PolicySerde : clear implicits.

(** The compile-time constants and the host of the writing process. *)
Record BuildInfo := mkBuildInfo {
  GIT_SHA : string; BUILT_AT : string; DIRTY : string; hostname : string; host_pid : Z }.
Definition BUILD_WRITER : string := "engine-rs".
Definition format_build_sha (sha dirty : string) : string :=
  if String.eqb sha "unknown" || String.eqb dirty "unknown" then "unknown"
  else if String.eqb dirty "1" then sha +:+ "-dirty" else sha.
Definition engine_build_sha (b : BuildInfo) : string := format_build_sha (GIT_SHA b) (DIRTY b).

Record RunMeta := mkRunMeta {
  rm_branch : string;
  rm_worktree_path : string;
  rm_started_at : string;
  rm_updated_at : string;
  rm_run_id : option string;
  rm_claude_sessions : list ClaudeSession
}.
Record CommittedReview := mkCommittedReview {
  cr_verdict : string; findings : list string; attempts : Z }.
Record CommittedDocs := mkCommittedDocs { changed : list string; created : list string }.
Record CommittedPr := mkCommittedPr { pr_url : string; pr_number : Z }.

Section Wire.
Context {X : Extern} {PS : PolicySerde X}.
(** the enumeration of a [serde_json::Map] *)
Variable as_object : value -> option (list (string * value)).

Definition jstrs (l : list string) : value := jarray (map jstr l).
Definition de_strs (v : value) : option (list string) := l ← as_array v; mapM as_str l.

Definition task_fields : list string :=
  ["task_id"; "title"; "description"; "acceptance_criteria"; "status"; "validation_commands";
   "attempt_count"; "max_attempts"; "review_attempt_count"; "expects_writes"; "files"].
Definition task_to_json (t : SDLCTask) : value := json_object
  [("task_id", ju64 (task_id t)); ("title", jstr (title t)); ("description", jstr (description t));
   ("acceptance_criteria", jstrs (acceptance_criteria t));
   ("status", jstr (status_as_str (task_status t)));
   ("validation_commands", jstrs (validation_commands t));
   ("attempt_count", ju64 (attempt_count t)); ("max_attempts", ju64 (max_attempts t));
   ("review_attempt_count", ju64 (review_attempt_count t));
   ("expects_writes", jbool (expects_writes t)); ("files", jstrs (task_files t))].
Definition status_of_json (v : value) : option SDLCTaskStatus := enum_variant v ≫= status_of_str.
Definition task_of_json (v : value) : option SDLCTask :=
  s ← de_struct task_fields v;
  match s with
  | [fid; ftitle; fdesc; fac; fst; fval; fatt; fmax; frev; fexp; ffiles] =>
      id ← de_req de_u32 fid;
      title ← de_req as_str ftitle;
      desc ← de_req as_str fdesc;
      ac ← de_default [] de_strs fac;
      st ← de_default TsPending status_of_json fst;
      vc ← de_default [] de_strs fval;
      att ← de_default 0%Z de_u32 fatt;
      mx ← de_default default_max_attempts de_u32 fmax;
      rv ← de_default 0%Z de_u32 frev;
      ew ← de_default default_expects_writes as_bool fexp;
      fs ← de_default [] de_strs ffiles;
      Some (mkSDLCTask id title desc ac st vc att mx rv ew fs)
  | _ => None
  end.

Definition telemetry_fields : list string :=
  ["total_attempts"; "budget_spent"; "tasks_passed"; "tasks_failed"; "review_attempts"].
Definition telemetry_to_json (t : SDLCTelemetry) : value := json_object
  [("total_attempts", ju64 (total_attempts t)); ("budget_spent", jf64 (budget_spent t));
   ("tasks_passed", ju64 (tasks_passed t)); ("tasks_failed", ju64 (tasks_failed t));
   ("review_attempts", ju64 (review_attempts t))].
Definition telemetry_of_json (v : value) : option SDLCTelemetry :=
  s ← de_struct telemetry_fields v;
  match s with
  | [fta; fbs; ftp; ftf; fra] =>
      ta ← de_default 0%Z de_u32 fta;
      bs ← de_default f64_zero as_f64 fbs;
      tp ← de_default 0%Z de_u32 ftp;
      tf ← de_default 0%Z de_u32 ftf;
      ra ← de_default 0%Z de_u32 fra;
      Some (mkSDLCTelemetry ta bs tp tf ra)
  | _ => None
  end.

(** The tasks as an object keyed by the decimal [task_id]. *)
Definition tasks_object (ts : list SDLCTask) : value :=
  foldl (fun v t => jset v (pretty (task_id t)) (task_to_json t)) jempty ts.

Definition review_to_json (r : CommittedReview) : value := json_object
  [("verdict", jstr (cr_verdict r)); ("findings", jstrs (findings r)); ("attempts", ju64 (attempts r))].
Definition docs_to_json (d : CommittedDocs) : value := json_object
  [("changed", jstrs (changed d)); ("created", jstrs (created d))].
Definition pr_to_json (p : CommittedPr) : value := json_object
  [("url", jstr (pr_url p)); ("number", ju64 (pr_number p))].

(** [final_validation] is given as its wire form. *)
Definition to_committed_state_json (b : BuildInfo) (s : SDLCState) (m : RunMeta)
    (review : option CommittedReview) (docs : option CommittedDocs) (pr : option CommittedPr)
    (final_validation : option value) (signal : option TerminalSignal) : value :=
  json_object
    [("spec_slug", jstr (spec_slug s));
     ("branch", jstr (rm_branch m));
     ("worktree_path", jstr (rm_worktree_path m));
     ("started_at", jstr (rm_started_at m));
     ("updated_at", jstr (rm_updated_at m));
     ("run_id", json_opt jstr (rm_run_id m));
     ("claude_sessions", jarray (map session_to_json (rm_claude_sessions m)));
     ("status", jstr (derive_committed_status s signal));
     ("current_task", ju64 (derive_current_task (tasks s)));
     ("tasks", tasks_object (tasks s));
     ("review", json_opt review_to_json review);
     ("docs", json_opt docs_to_json docs);
     ("bail_reason", json_opt jstr (derive_bail_reason signal));
     ("pr", json_opt pr_to_json pr);
     ("telemetry", telemetry_to_json (telemetry s));
     ("policy", json_opt policy_to_json (st_policy s));
     ("outcomes", json_opt outcomes_to_json (st_outcomes s));
     ("phase_id", json_opt jstr (phase_id s));
     ("block_id", json_opt jstr (state_block_id s));
     ("final_validation", json_opt (fun v => v) final_validation);
     ("build", json_object [("git_sha", jstr (GIT_SHA b)); ("built_at", jstr (BUILT_AT b))]);
     ("engine_build_sha", jstr (engine_build_sha b));
     ("writer", jstr BUILD_WRITER);
     ("host", json_object [("hostname", jstr (hostname b)); ("pid", ju64 (host_pid b))])].

Definition committed_err (msg : string) : NodeError := NodeError_new ("committed state" +:+ msg).

(** One entry of the [tasks] object; [None] of the message stands for the text
    of serde's error. *)
Definition committed_entry (debug_str : string -> string) (serde_error : string)
    (kv : string * value) : result (Z * SDLCTask) NodeError :=
  match parse_u32 kv.1 with
  | None => Err (committed_err (" JSON: invalid task id key " +:+ debug_str kv.1))
  | Some id =>
      match task_of_json kv.2 with
      | None => Err (committed_err (" JSON: failed to parse task " +:+ debug_str kv.1 +:+ ": " +:+ serde_error))
      | Some t => Ok (id, t)
      end
  end.
Fixpoint committed_entries (debug_str : string -> string) (serde_error : string)
    (kvs : list (string * value)) : result (list (Z * SDLCTask)) NodeError :=
  match kvs with
  | [] => Ok []
  | kv :: kvs =>
      e <-? committed_entry debug_str serde_error kv;
      es <-? committed_entries debug_str serde_error kvs;
      Ok (e :: es)
  end.
Definition entry_cmp (a b : Z * SDLCTask) : comparison := Z.compare a.1 b.1.

Definition committed_tasks (debug_str : string -> string) (serde_error : string)
    (v : option value) : result (list SDLCTask) NodeError :=
  match (v ← v; if is_object v then as_object v else None) with
  | Some kvs =>
      es <-? committed_entries debug_str serde_error kvs;
      Ok (map snd (sort_by entry_cmp es))
  | None => Ok []
  end.

Definition from_committed_state_json (debug_str : string -> string) (serde_error : string)
    (v : value) : result SDLCState NodeError :=
  match jget v "spec_slug" ≫= as_str with
  | None => Err (committed_err (" JSON missing " +:+ dquote +:+ "spec_slug" +:+ dquote))
  | Some slug =>
      ts <-? committed_tasks debug_str serde_error (jget v "tasks");
      let str k := jget v k ≫= as_str in
      Ok (mkSDLCState slug (str "phase_id") (str "block_id")
            (default default_global_status (str "status")) ts
            (default SDLCTelemetry_default (jget v "telemetry" ≫= telemetry_of_json))
            (jget v "policy" ≫= policy_of_json) (jget v "outcomes" ≫= outcomes_of_json)
            (str "branch") (str "worktree_path") (str "started_at") (str "updated_at")
            (str "bail_reason") (str "run_id")
            (read_entries session_of_json v "claude_sessions"))
  end.

Definition committed_artifact_is_stale (v : value) (current_run_id : option string) : bool :=
  match jget v "run_id" ≫= as_str, current_run_id with
  | None, None => false
  | artifact, current => negb (bool_decide (artifact = current))
  end.
End Wire.

(** * Facts *)

Definition u32_ok (n : Z) : Prop := (0 <= n < u32_modulus)%Z.
Definition task_wire_ok (t : SDLCTask) : Prop :=
  u32_ok (task_id t) /\ u32_ok (attempt_count t) /\ u32_ok (max_attempts t) /\
  u32_ok (review_attempt_count t).
Definition telemetry_wire_ok (t : SDLCTelemetry) : Prop :=
  u32_ok (total_attempts t) /\ f64_is_finite (budget_spent t) = true /\ u32_ok (tasks_passed t) /\
  u32_ok (tasks_failed t) /\ u32_ok (review_attempts t).
Definition id_cmp (a b : SDLCTask) : comparison := Z.compare (task_id a) (task_id b).

(** What [serde_json::Map] promises its iteration. *)
Definition map_law {X : Extern} (as_object : value -> option (list (string * value))) : Prop :=
  forall v, kind v = KObject ->
    exists kvs, as_object v = Some kvs /\ NoDup kvs.*1 /\
      forall k x, (k, x) ∈ kvs <-> jget v k = Some x.

Section WireFacts.
Context {X : Extern} {HX : ExternLaws X} {PS : PolicySerde X}.
Context (as_object : value -> option (list (string * value))) (Hmap : map_law as_object).
Context (debug_str : string -> string) (serde_error : string).

Lemma status_roundtrip s : status_of_str (status_as_str s) = Some s.
Proof. by destruct s. Qed.

Lemma de_u32_u64 n : u32_ok n -> de_u32 (ju64 n) = Some n.
Proof.
  unfold u32_ok, de_u32. intros H.
  rewrite as_u64_u64 by (unfold u64_ok, u64_modulus, u32_modulus in *; lia).
  simpl. by rewrite decide_True by apply H.
Qed.

Lemma de_strs_jstrs l : de_strs (jstrs l) = Some l.
Proof.
  unfold de_strs, jstrs. rewrite as_array_array. simpl.
  induction l as [|s l IH]; [done|]. simpl. rewrite as_str_str. simpl. by rewrite IH.
Qed.

Lemma task_roundtrip t : task_wire_ok t -> task_of_json (task_to_json t) = Some t.
Proof.
  intros (? & ? & ? & ?). unfold task_of_json, task_to_json.
  rewrite de_struct_object. cbn. unfold status_of_json.
  rewrite !de_u32_u64, !as_str_str, !as_bool_bool, !de_strs_jstrs, enum_variant_str by done.
  cbn [mbind option_bind]. rewrite status_roundtrip. by destruct t.
Qed.

Lemma telemetry_roundtrip t :
  telemetry_wire_ok t -> telemetry_of_json (telemetry_to_json t) = Some t.
Proof.
  intros (? & ? & ? & ? & ?). unfold telemetry_of_json, telemetry_to_json.
  rewrite de_struct_object. cbn. rewrite !de_u32_u64 by done. cbn.
  rewrite as_f64_f64 by done. by destruct t.
Qed.

(** The [tasks] object, key by key. *)
Lemma tasks_object_spec ts v :
  kind v = KObject -> NoDup (map task_id ts) ->
  let w := foldl (fun v t => jset v (pretty (task_id t)) (task_to_json t)) v ts in
  kind w = KObject /\
  forall k x, jget w k = Some x <->
    (exists t, t ∈ ts /\ k = pretty (task_id t) /\ x = task_to_json t) \/
    (jget v k = Some x /\ forall t, t ∈ ts -> k <> pretty (task_id t)).
Proof.
  revert v. induction ts as [|t ts IH]; intros v Hv Hnd; cbn [map foldl].
  - split; [done|]. intros k x. set_solver.
  - apply NoDup_cons in Hnd as [Hni Hnd].
    destruct (IH (jset v (pretty (task_id t)) (task_to_json t)) (kind_set _ _ _ Hv) Hnd) as [Hk Hg].
    split; [done|]. intros k x. rewrite Hg, jget_set by done. clear IH Hg.
    assert (Hfresh : forall t', t' ∈ ts -> pretty (task_id t) <> pretty (task_id t')).
    { intros t' Ht' He. apply Hni. apply (inj pretty) in He. rewrite He.
      apply list_elem_of_fmap. eauto. }
    destruct (String.eqb_spec (pretty (task_id t)) k) as [<-|Hne]; split.
    + intros [(t' & Ht' & Heq & ->)|[[= <-] _]]; [by destruct (Hfresh t')|].
      left. exists t. set_solver.
    + intros [(t' & Ht' & Heq & ->)|[_ Hno]]; [|by destruct (Hno t); set_solver].
      apply elem_of_cons in Ht' as [->|Ht']; [right; auto|by destruct (Hfresh t')].
    + intros [(t' & Ht' & -> & ->)|[Hx Hno]]; [left; exists t'; set_solver|right].
      split; [done|]. intros t' [->|Ht']%elem_of_cons; auto.
    + intros [(t' & [->|Ht']%elem_of_cons & -> & ->)|[Hx Hno]]; [done|left; eauto|right].
      split; [done|]. intros t' Ht'. apply Hno. by right.
Qed.

Lemma committed_entries_spec l :
  Forall task_wire_ok l ->
  committed_entries debug_str serde_error (map (fun t => (pretty (task_id t), task_to_json t)) l)
  = Ok (map (fun t => (task_id t, t)) l).
Proof.
  induction 1 as [|t l Ht _ IH]; [done|]. cbn [map committed_entries]. unfold committed_entry.
  cbn [fst snd]. rewrite parse_u32_pretty, task_roundtrip by (done || apply Ht).
  cbn [result_bind]. by rewrite IH.
Qed.

Lemma committed_tasks_spec ts :
  NoDup (map task_id ts) -> Forall task_wire_ok ts ->
  committed_tasks as_object debug_str serde_error (Some (tasks_object ts)) = Ok (sort_by id_cmp ts).
Proof.
  intros Hnd Hok. destruct (tasks_object_spec ts jempty kind_empty Hnd) as [Hk Hg].
  fold (tasks_object ts) in Hk, Hg. unfold committed_tasks. cbn.
  rewrite (proj2 (is_object_true _) Hk).
  destruct (Hmap _ Hk) as (kvs & -> & Hkv & Hin).
  assert (Hp : kvs ≡ₚ map (fun t => (pretty (task_id t), task_to_json t)) ts).
  { apply NoDup_Permutation.
    - by eapply NoDup_fmap_1.
    - apply (NoDup_fmap_1 fst). rewrite map_map. cbn.
      rewrite <- (map_map task_id pretty). apply NoDup_fmap; [apply _|done].
    - intros [k x]. rewrite Hin, Hg, jget_empty, list_elem_of_fmap. split.
      + intros [(t & Ht & -> & ->)|[? _]]; [by exists t|done].
      + intros (t & [= -> ->] & Ht). left. eauto. }
  apply Permutation_map_inv in Hp as (l & -> & Hl).
  rewrite committed_entries_spec by by rewrite <- Hl. cbn.
  unfold entry_cmp. rewrite sort_by_map, map_map. cbn. rewrite map_id. f_equal.
  symmetry. apply (sort_by_unique id_cmp).
  - intros x y Hx Hy E. apply Z.compare_eq in E. by eapply nodup_key_inj.
  - apply sort_by_sorted. apply _.
  - by rewrite sort_by_perm.
Qed.

Lemma json_opt_id {A} (f : A -> value) (g : value -> option A) (o : option A) :
  g jnull = None -> (forall a, o = Some a -> g (f a) = Some a) -> g (json_opt f o) = o.
Proof. intros Hn Hs. destruct o as [a|]; cbn; auto. Qed.

Lemma sessions_array l v :
  Forall session_wire_ok l -> jget v "claude_sessions" = Some (jarray (map session_to_json l)) ->
  read_entries session_of_json v "claude_sessions" = l.
Proof.
  intros Hl Hv. unfold read_entries. rewrite Hv. cbn. rewrite as_array_array.
  clear Hv. induction Hl as [|s l Hs _ IH]; [done|].
  cbn [map omap list_omap]. by rewrite session_roundtrip, IH.
Qed.

(** C36: A run's state file reads back as what was saved: whatever review,
    documentation, pull request, validation and terminal signal it is written
    with, from_committed_state_json of to_committed_state_json succeeds, and
    its tasks are the saved tasks in ascending order of task id (so exactly the
    saved list when that was ascending), each with its status and counters; the
    telemetry, policy, outcomes, phase and block ids are the saved ones; the
    branch, the worktree, the two times, the run id and the session ledger are
    those of the write; and status and bail reason are the ones derived from
    the terminal signal. *)
Theorem committed_state_roundtrip b s m review docs pr fv signal :
  NoDup (map task_id (tasks s)) -> Forall task_wire_ok (tasks s) ->
  telemetry_wire_ok (telemetry s) -> Forall session_wire_ok (rm_claude_sessions m) ->
  policy_of_json jnull = None -> outcomes_of_json jnull = None ->
  (forall p, st_policy s = Some p -> policy_of_json (policy_to_json p) = Some p) ->
  (forall o, st_outcomes s = Some o -> outcomes_of_json (outcomes_to_json o) = Some o) ->
  from_committed_state_json as_object debug_str serde_error
    (to_committed_state_json b s m review docs pr fv signal)
  = Ok (mkSDLCState (spec_slug s) (phase_id s) (state_block_id s)
          (derive_committed_status s signal) (sort_by id_cmp (tasks s)) (telemetry s)
          (st_policy s) (st_outcomes s) (Some (rm_branch m)) (Some (rm_worktree_path m))
          (Some (rm_started_at m)) (Some (rm_updated_at m)) (derive_bail_reason signal)
          (rm_run_id m) (rm_claude_sessions m)) /\
  (StronglySorted (cmp_le id_cmp) (tasks s) -> sort_by id_cmp (tasks s) = tasks s).
Proof.
  intros Hnd Hts Htel Hses Hpn Hon Hp Ho. split.
  - unfold from_committed_state_json, to_committed_state_json.
    rewrite (sessions_array (rm_claude_sessions m)) by (done || by rewrite jget_json_object).
    rewrite !jget_json_object.
    cbn -[json_opt tasks_object committed_tasks telemetry_to_json telemetry_of_json mbind].
    cbn [mbind option_bind]. rewrite !as_str_str, committed_tasks_spec by done. cbn [result_bind].
    rewrite telemetry_roundtrip by done. cbn [default].
    rewrite (json_opt_id policy_to_json), (json_opt_id outcomes_to_json) by done.
    by rewrite !(json_opt_id jstr as_str)
      by (intros; apply as_str_str || (apply as_str_kind; by rewrite kind_null)).
  - intros Hs. apply sort_by_unique; [apply _| |done|done].
    intros x y Hx Hy E. apply Z.compare_eq in E.
    by eapply nodup_key_inj.
Qed.
End WireFacts.

Section RangeFacts.
Variable debug_str : string -> string.

Lemma set_insert_elem n l m : m ∈ set_insert n l <-> m = n \/ m ∈ l.
Proof.
  induction l as [|k l IH]; cbn; [set_solver|].
  destruct (Z.compare_spec n k) as [->| |]; rewrite ?elem_of_cons, ?IH; set_solver.
Qed.

Lemma set_insert_sorted n l : StronglySorted Z.lt l -> StronglySorted Z.lt (set_insert n l).
Proof.
  induction 1 as [|k l Hs IH Hk]; cbn; [repeat constructor|].
  destruct (Z.compare_spec n k) as [->| |]; constructor; try done.
  - by constructor.
  - constructor; [done|]. eapply Forall_impl; [exact Hk|]. lia.
  - apply Forall_forall. intros m. rewrite set_insert_elem. rewrite Forall_forall in Hk.
    intros [->|Hm]; [lia|auto].
Qed.

Lemma extend_range_spec ids lo hi :
  StronglySorted Z.lt ids ->
  StronglySorted Z.lt (extend_range ids lo hi) /\
  forall n, n ∈ extend_range ids lo hi <-> n ∈ ids \/ (lo <= n <= hi)%Z.
Proof.
  intros Hs. unfold extend_range.
  assert (forall l ids, StronglySorted Z.lt ids ->
    let r := foldl (fun ids n => set_insert n ids) ids l in
    StronglySorted Z.lt r /\ forall n, n ∈ r <-> n ∈ ids \/ n ∈ l) as H.
  { clear. induction l as [|m l IH]; intros ids Hs; cbn [foldl]; [set_solver|].
    destruct (IH (set_insert m ids)) as [H1 H2]; [by apply set_insert_sorted|].
    split; [done|]. intros n. rewrite H2, set_insert_elem, elem_of_cons. tauto. }
  destruct (H (seqZ lo (hi - lo + 1)) ids Hs) as [H1 H2]. split; [done|].
  intros n. rewrite H2, elem_of_seqZ. intuition lia.
Qed.

(** The ids a chunk selects. *)
Definition chunk_selects (chunk : string) (n : Z) : Prop :=
  exists lo hi, parse_chunk debug_str chunk = Ok (Some (lo, hi)) /\ (lo <= n <= hi)%Z.

Lemma parse_chunks_spec chunks ids :
  StronglySorted Z.lt ids ->
  match parse_chunks debug_str chunks ids with
  | Ok r => StronglySorted Z.lt r /\ Forall (fun c => is_ok (parse_chunk debug_str c) = true) chunks /\
      forall n, n ∈ r <-> n ∈ ids \/ exists c, c ∈ chunks /\ chunk_selects c n
  | Err e => exists before c after, chunks = before ++ c :: after /\
      parse_chunk debug_str c = Err e /\
      Forall (fun c => is_ok (parse_chunk debug_str c) = true) before
  end.
Proof.
  revert ids. induction chunks as [|c chunks IH]; intros ids Hs; cbn [parse_chunks].
  - split_and!; [done..|]. intros n. set_solver.
  - destruct (parse_chunk debug_str c) as [r|e] eqn:Ec; cbn [result_bind];
      [|by exists [], c, chunks].
    set (ids' := match r with Some (lo, hi) => extend_range ids lo hi | None => ids end).
    assert (StronglySorted Z.lt ids' /\ forall n, n ∈ ids' <-> n ∈ ids \/ chunk_selects c n)
      as [Hs' Hin'].
    { subst ids'. unfold chunk_selects. destruct r as [[lo hi]|]; rewrite ?Ec.
      - destruct (extend_range_spec ids lo hi Hs) as [H1 H2]. split; [done|].
        intros n. rewrite H2. split; [intros [|]; [auto|right; eauto]|].
        intros [|(lo' & hi' & [= <- <-] & ?)]; auto.
      - split; [done|]. intros n. split; [auto|]. by intros [|(? & ? & [=] & _)]. }
    specialize (IH ids' Hs'). destruct (parse_chunks debug_str chunks ids') as [r'|e].
    + destruct IH as (H1 & H2 & H3). split_and!; [done|constructor; [by rewrite Ec|done]|].
      intros n. rewrite H3, Hin'. set_solver.
    + destruct IH as (bef & c' & aft & -> & Hc' & Hb). exists (c :: bef), c', aft.
      split_and!; [done..|]. constructor; [by rewrite Ec|done].
Qed.

(** A task range is a set of ids, in ascending order without repetition,
    holding exactly the numbers inside some chunk of the comma-separated text
    (a number, or an interval lo-hi with lo at most hi, each chunk trimmed and
    empty chunks skipped); no text at all means every task (None), while an
    empty text means no task; and a text with a malformed chunk is refused with
    the error of the first one. *)
Theorem task_range_spec range :
  match parse_task_range debug_str range with
  | Ok None => range = None
  | Ok (Some ids) => exists s, range = Some s /\ StronglySorted Z.lt ids /\
      forall n, n ∈ ids <-> exists c, c ∈ split_at ","%char s /\ chunk_selects c n
  | Err e => exists s before c after, range = Some s /\
      split_at ","%char s = before ++ c :: after /\ parse_chunk debug_str c = Err e /\
      Forall (fun c => is_ok (parse_chunk debug_str c) = true) before
  end /\
  parse_task_range debug_str (Some "") = Ok (Some []).
Proof.
  split; [|done]. destruct range as [s|]; cbn [parse_task_range]; [|done].
  pose proof (parse_chunks_spec (split_at ","%char s) [] (SSorted_nil _)) as H.
  destruct (parse_chunks debug_str (split_at ","%char s) []) as [ids|e]; cbn [result_bind].
  - destruct H as (Hs & _ & Hin). exists s. split_and!; [done..|]. intros n. rewrite Hin. set_solver.
  - destruct H as (bef & c & aft & ? & ? & ?). by exists s, bef, c, aft.
Qed.
End RangeFacts.

(** *** Statuses *)

(** A state file says "done" exactly when no terminal signal was derived and
    every task, at least one, is done or skipped. *)
Lemma committed_done_iff s signal :
  derive_committed_status s signal = "done" <->
  signal = None /\ tasks s <> [] /\ Forall (fun t => is_terminal_task t = true) (tasks s).
Proof.
  unfold derive_committed_status. destruct signal as [[]|]; try (split; [done|by intros [? _]]).
  case_match eqn:E.
  - apply andb_true_iff in E as [E1 E2]. apply negb_true_iff, bool_decide_eq_false in E1.
    apply Is_true_true, forallb_True in E2. split; [intros _|done].
    split_and!; [done..|]. eapply Forall_impl; [exact E2|]. intros t. apply Is_true_true.
  - split; [done|]. intros (_ & Hne & Hall). exfalso.
    apply andb_false_iff in E as [E|E].
    + apply negb_false_iff, bool_decide_eq_true in E. done.
    + assert (forallb is_terminal_task (tasks s) = true); [|congruence].
      apply Is_true_true, forallb_True. eapply Forall_impl; [exact Hall|]. intros t. apply Is_true_true.
Qed.
