(* ===== verification/SdlcContext.v ===== *)
(** * What the nodes of an SDLC run share

    The context of a run as its nodes see it, the world they act on, and the
    shaping of a model call:

    - [SdlcCtx]: the event's fields and, per node identity, what that node puts
      into [ctx.nodes] (crates/engine-core/src/workflows/sdlc_flow).  An entry
      is the record of the fields the node writes; a reader's
      [get(..).and_then(as_..)] is the field.  The billing keys that
      [carry_forward_billing] copies are not kept: nothing here reads them.
    - [AgentConfig] and [apply_policy]: policy/shaping.rs and task_loop.rs.
    - [Host]: the command runner, the model transport behind [AgentCodeStep],
      files, the clock and the heavy-work queue.  Each answers from the world
      and may change it.

    The fixed texts of the prompts are the class [Prompts]. *)

From S2P Require Import Prelude Json Sessions Node Utf8 Text Effect Chain LaneLog SdlcPolicy SdlcState.

Local Open Scope string_scope.
Local Open Scope list_scope.
Local Open Scope effect_scope.

(** ** What the nodes write *)

Inductive FailureClass := Fixable | EscalateClass.
#[export] Instance FailureClass_eq_dec : EqDecision FailureClass.
Proof. solve_decision. Defined.

Record CheckResult := mkCheckResult {
  check_name : string;
  check_kind : string;
  passed : bool;
  check_output : string;
  check_message : string;
  failure_class : FailureClass
}.

(** The [heavy_work] stamp of a test result. *)
Record HeavyMeta := mkHeavyMeta {
  hm_mode : string; hm_job_id : option string; hm_class : string; hm_waited_ms : Z;
  hm_degraded : bool }.

Record SetupResult := mkSetupResult {
  setup_worktree_path : string; setup_branch_name : option string; base_sha : option string }.

Record GenerateResult := mkGenerateResult {
  gn_tasks_json : string; gn_tasks_md : string; task_count : Z; gn_model_tier : ModelTier;
  gn_timeout : option Z }.

Record QueueEntry := mkQueueEntry {
  current_task_id : Z;
  q_title : string;
  q_description : string;
  q_acceptance_criteria : list string;
  q_attempt_count : Z;
  q_max_attempts : Z
}.

Record ImplementResult := mkImplementResult {
  im_summary : string;
  modified_files : list string;
  tests_added : list string;
  model_tier : ModelTier;
  pre_call_sha : option string;
  im_task_id : Z;
  task_base_sha : option string;
  im_state : SDLCState
}.

Inductive TestResult :=
| TestQueued (job_id : string) (guard_result : option CheckResult)
| TestRan (all_passed : bool) (check_results : list CheckResult) (failure_summary : string)
    (depth : TestDepth) (check_source : string) (excluded_checks : list string)
    (heavy_work : HeavyMeta).

(** [.get("all_passed").and_then(as_bool)] and its siblings *)
Definition all_passed_of (t : TestResult) : option bool :=
  match t with TestQueued _ _ => None | TestRan b _ _ _ _ _ _ => Some b end.
Definition check_results_of (t : TestResult) : option (list CheckResult) :=
  match t with TestQueued _ _ => None | TestRan _ l _ _ _ _ _ => Some l end.
Definition failure_summary_of (t : TestResult) : string :=
  match t with TestQueued _ _ => "" | TestRan _ _ s _ _ _ _ => s end.

Record TriageResult := mkTriageResult {
  tr_verdict : string;
  tr_reason : string;
  trivial : option bool;
  evidence : string;
  base_state_checked : bool;
  same_failure_as_before : bool;
  tr_unrecognized : option string;
  tr_raw_preview : option string
}.

Record ReviewResult := mkReviewResult {
  rv_verdict : string;
  rv_summary : string;
  rv_issues : list string;
  localized : bool;
  rv_diff_max_chars : Z;
  rv_diff_truncated : bool;
  rv_unrecognized : option string;
  rv_raw_preview : option string;
  rv_stamp : option Z;   (** [task_review_attempts] *)
  rv_state : SDLCState
}.

Record SaveResult := mkSaveResult { saved_to : string; committed : bool }.

Record FinalValidation := mkFinalValidation {
  fv_all_passed : bool; fv_check_results : list CheckResult; fv_failure_summary : string;
  skipped : bool; skip_reason : string; fv_heavy_work : HeavyMeta }.

Record EndReviewResult := mkEndReviewResult {
  er_verdict : string; er_summary : string; er_issues : list string; er_localized : bool;
  er_diff_max_chars : Z; er_diff_truncated : bool;
  er_raw_preview : option string; er_unrecognized : option string }.

Record DocsResult := mkDocsResult {
  dc_summary : string; files_patched : list string; dc_created : list string;
  flagged : list string; dc_model_tier : ModelTier; dc_timeout : option Z;
  dc_max_turns : option Z; dc_raw_preview : option string }.

Record WrapUpResult := mkWrapUpResult {
  log_entry : string; report : string; status_suggestion : string;
  wu_state : SDLCState; full_run : bool; wu_saved_to : option string }.

Record CloseResult := mkCloseResult {
  co_outcome : string; co_detail : string; state_write_validated : bool;
  state_write_rejected : bool; block_key : option string;
  committed_paths : option (list string * list (string * string)) }.

Record PrResult := mkPrResult {
  pr_skipped : bool; opened_url : option string; pr_branch_name : option string }.

Record EmitResult := mkEmitResult {
  emitted : bool; stdout_tail : string; emit_stderr : option string }.

Section Ctx.
Context {X : Extern}.

Record SdlcCtx := mkSdlcCtx {
  ev_spec_slug : option string;
  ev_repo : option string;
  ev_task_range : option string;
  ev_llm_triage : option bool;
  ev_auto_pr : option bool;
  r_policy : option (result SdlcPolicy NodeError);   (** the stamp, as serde reads it *)
  r_setup : option SetupResult;
  r_generate : option GenerateResult;
  r_load : option SDLCState;
  r_queue : option QueueEntry;
  r_implement : option ImplementResult;
  r_test : option TestResult;
  r_triage : option TriageResult;
  r_review : option ReviewResult;
  r_increment : option SDLCState;
  r_update : option SDLCState;
  r_save : option SaveResult;
  r_final : option FinalValidation;
  r_end_review : option EndReviewResult;
  r_docs : option DocsResult;
  r_wrap : option WrapUpResult;
  r_close : option CloseResult;
  r_pr : option PrResult;
  r_emit : option EmitResult;
  md_run_id : option string;
  md_sessions : list ClaudeSession;
  md_heavy_job : option string;
  md_suspended : bool;
  md_failure : option string
}.

(** [resolved_policy_strict] *)
Definition RESOLVED_POLICY_IDENTITY : string := "ResolvedPolicy".
Definition resolved_policy (c : SdlcCtx) : result SdlcPolicy NodeError :=
  match r_policy c with
  | None => Err (NodeError_new ("no resolved policy stamped under ctx.nodes["
                                +:+ dquote +:+ RESOLVED_POLICY_IDENTITY +:+ dquote +:+ "]"))
  | Some read => read
  end.

(** [put_result], one per identity *)
Definition put_policy (p : SdlcPolicy) (c : SdlcCtx) : SdlcCtx :=
  mkSdlcCtx (ev_spec_slug c) (ev_repo c) (ev_task_range c) (ev_llm_triage c) (ev_auto_pr c)
    (Some (Ok p)) (r_setup c) (r_generate c) (r_load c) (r_queue c) (r_implement c) (r_test c) (r_triage c)
    (r_review c) (r_increment c) (r_update c) (r_save c) (r_final c) (r_end_review c) (r_docs c)
    (r_wrap c) (r_close c) (r_pr c) (r_emit c) (md_run_id c) (md_sessions c) (md_heavy_job c)
    (md_suspended c) (md_failure c).
Definition put_setup (s : SetupResult) (c : SdlcCtx) : SdlcCtx :=
  mkSdlcCtx (ev_spec_slug c) (ev_repo c) (ev_task_range c) (ev_llm_triage c) (ev_auto_pr c)
    (r_policy c) (Some s) (r_generate c) (r_load c) (r_queue c) (r_implement c) (r_test c) (r_triage c)
    (r_review c) (r_increment c) (r_update c) (r_save c) (r_final c) (r_end_review c) (r_docs c)
    (r_wrap c) (r_close c) (r_pr c) (r_emit c) (md_run_id c) (md_sessions c) (md_heavy_job c)
    (md_suspended c) (md_failure c).
Definition put_generate (g : GenerateResult) (c : SdlcCtx) : SdlcCtx :=
  mkSdlcCtx (ev_spec_slug c) (ev_repo c) (ev_task_range c) (ev_llm_triage c) (ev_auto_pr c)
    (r_policy c) (r_setup c) (Some g) (r_load c) (r_queue c) (r_implement c) (r_test c) (r_triage c)
    (r_review c) (r_increment c) (r_update c) (r_save c) (r_final c) (r_end_review c) (r_docs c)
    (r_wrap c) (r_close c) (r_pr c) (r_emit c) (md_run_id c) (md_sessions c) (md_heavy_job c)
    (md_suspended c) (md_failure c).
Definition put_load (s : SDLCState) (c : SdlcCtx) : SdlcCtx :=
  mkSdlcCtx (ev_spec_slug c) (ev_repo c) (ev_task_range c) (ev_llm_triage c) (ev_auto_pr c)
    (r_policy c) (r_setup c) (r_generate c) (Some s) (r_queue c) (r_implement c) (r_test c) (r_triage c)
    (r_review c) (r_increment c) (r_update c) (r_save c) (r_final c) (r_end_review c) (r_docs c)
    (r_wrap c) (r_close c) (r_pr c) (r_emit c) (md_run_id c) (md_sessions c) (md_heavy_job c)
    (md_suspended c) (md_failure c).
Definition put_queue (q : QueueEntry) (c : SdlcCtx) : SdlcCtx :=
  mkSdlcCtx (ev_spec_slug c) (ev_repo c) (ev_task_range c) (ev_llm_triage c) (ev_auto_pr c)
    (r_policy c) (r_setup c) (r_generate c) (r_load c) (Some q) (r_implement c) (r_test c) (r_triage c)
    (r_review c) (r_increment c) (r_update c) (r_save c) (r_final c) (r_end_review c) (r_docs c)
    (r_wrap c) (r_close c) (r_pr c) (r_emit c) (md_run_id c) (md_sessions c) (md_heavy_job c)
    (md_suspended c) (md_failure c).
Definition put_implement (i : ImplementResult) (c : SdlcCtx) : SdlcCtx :=
  mkSdlcCtx (ev_spec_slug c) (ev_repo c) (ev_task_range c) (ev_llm_triage c) (ev_auto_pr c)
    (r_policy c) (r_setup c) (r_generate c) (r_load c) (r_queue c) (Some i) (r_test c) (r_triage c)
    (r_review c) (r_increment c) (r_update c) (r_save c) (r_final c) (r_end_review c) (r_docs c)
    (r_wrap c) (r_close c) (r_pr c) (r_emit c) (md_run_id c) (md_sessions c) (md_heavy_job c)
    (md_suspended c) (md_failure c).
Definition put_test (t : TestResult) (c : SdlcCtx) : SdlcCtx :=
  mkSdlcCtx (ev_spec_slug c) (ev_repo c) (ev_task_range c) (ev_llm_triage c) (ev_auto_pr c)
    (r_policy c) (r_setup c) (r_generate c) (r_load c) (r_queue c) (r_implement c) (Some t) (r_triage c)
    (r_review c) (r_increment c) (r_update c) (r_save c) (r_final c) (r_end_review c) (r_docs c)
    (r_wrap c) (r_close c) (r_pr c) (r_emit c) (md_run_id c) (md_sessions c) (md_heavy_job c)
    (md_suspended c) (md_failure c).
Definition put_triage (t : TriageResult) (c : SdlcCtx) : SdlcCtx :=
  mkSdlcCtx (ev_spec_slug c) (ev_repo c) (ev_task_range c) (ev_llm_triage c) (ev_auto_pr c)
    (r_policy c) (r_setup c) (r_generate c) (r_load c) (r_queue c) (r_implement c) (r_test c) (Some t)
    (r_review c) (r_increment c) (r_update c) (r_save c) (r_final c) (r_end_review c) (r_docs c)
    (r_wrap c) (r_close c) (r_pr c) (r_emit c) (md_run_id c) (md_sessions c) (md_heavy_job c)
    (md_suspended c) (md_failure c).
Definition put_review (r : ReviewResult) (c : SdlcCtx) : SdlcCtx :=
  mkSdlcCtx (ev_spec_slug c) (ev_repo c) (ev_task_range c) (ev_llm_triage c) (ev_auto_pr c)
    (r_policy c) (r_setup c) (r_generate c) (r_load c) (r_queue c) (r_implement c) (r_test c) (r_triage c)
    (Some r) (r_increment c) (r_update c) (r_save c) (r_final c) (r_end_review c) (r_docs c)
    (r_wrap c) (r_close c) (r_pr c) (r_emit c) (md_run_id c) (md_sessions c) (md_heavy_job c)
    (md_suspended c) (md_failure c).
Definition put_increment (s : SDLCState) (c : SdlcCtx) : SdlcCtx :=
  mkSdlcCtx (ev_spec_slug c) (ev_repo c) (ev_task_range c) (ev_llm_triage c) (ev_auto_pr c)
    (r_policy c) (r_setup c) (r_generate c) (r_load c) (r_queue c) (r_implement c) (r_test c) (r_triage c)
    (r_review c) (Some s) (r_update c) (r_save c) (r_final c) (r_end_review c) (r_docs c) (r_wrap c)
    (r_close c) (r_pr c) (r_emit c) (md_run_id c) (md_sessions c) (md_heavy_job c) (md_suspended c)
    (md_failure c).
Definition put_update (s : SDLCState) (c : SdlcCtx) : SdlcCtx :=
  mkSdlcCtx (ev_spec_slug c) (ev_repo c) (ev_task_range c) (ev_llm_triage c) (ev_auto_pr c)
    (r_policy c) (r_setup c) (r_generate c) (r_load c) (r_queue c) (r_implement c) (r_test c) (r_triage c)
    (r_review c) (r_increment c) (Some s) (r_save c) (r_final c) (r_end_review c) (r_docs c)
    (r_wrap c) (r_close c) (r_pr c) (r_emit c) (md_run_id c) (md_sessions c) (md_heavy_job c)
    (md_suspended c) (md_failure c).
Definition put_save (s : SaveResult) (c : SdlcCtx) : SdlcCtx :=
  mkSdlcCtx (ev_spec_slug c) (ev_repo c) (ev_task_range c) (ev_llm_triage c) (ev_auto_pr c)
    (r_policy c) (r_setup c) (r_generate c) (r_load c) (r_queue c) (r_implement c) (r_test c) (r_triage c)
    (r_review c) (r_increment c) (r_update c) (Some s) (r_final c) (r_end_review c) (r_docs c)
    (r_wrap c) (r_close c) (r_pr c) (r_emit c) (md_run_id c) (md_sessions c) (md_heavy_job c)
    (md_suspended c) (md_failure c).
Definition put_final (v : FinalValidation) (c : SdlcCtx) : SdlcCtx :=
  mkSdlcCtx (ev_spec_slug c) (ev_repo c) (ev_task_range c) (ev_llm_triage c) (ev_auto_pr c)
    (r_policy c) (r_setup c) (r_generate c) (r_load c) (r_queue c) (r_implement c) (r_test c) (r_triage c)
    (r_review c) (r_increment c) (r_update c) (r_save c) (Some v) (r_end_review c) (r_docs c)
    (r_wrap c) (r_close c) (r_pr c) (r_emit c) (md_run_id c) (md_sessions c) (md_heavy_job c)
    (md_suspended c) (md_failure c).
Definition put_end_review (r : EndReviewResult) (c : SdlcCtx) : SdlcCtx :=
  mkSdlcCtx (ev_spec_slug c) (ev_repo c) (ev_task_range c) (ev_llm_triage c) (ev_auto_pr c)
    (r_policy c) (r_setup c) (r_generate c) (r_load c) (r_queue c) (r_implement c) (r_test c) (r_triage c)
    (r_review c) (r_increment c) (r_update c) (r_save c) (r_final c) (Some r) (r_docs c) (r_wrap c)
    (r_close c) (r_pr c) (r_emit c) (md_run_id c) (md_sessions c) (md_heavy_job c) (md_suspended c)
    (md_failure c).
Definition put_docs (d : DocsResult) (c : SdlcCtx) : SdlcCtx :=
  mkSdlcCtx (ev_spec_slug c) (ev_repo c) (ev_task_range c) (ev_llm_triage c) (ev_auto_pr c)
    (r_policy c) (r_setup c) (r_generate c) (r_load c) (r_queue c) (r_implement c) (r_test c) (r_triage c)
    (r_review c) (r_increment c) (r_update c) (r_save c) (r_final c) (r_end_review c) (Some d)
    (r_wrap c) (r_close c) (r_pr c) (r_emit c) (md_run_id c) (md_sessions c) (md_heavy_job c)
    (md_suspended c) (md_failure c).
Definition put_wrap (r : WrapUpResult) (c : SdlcCtx) : SdlcCtx :=
  mkSdlcCtx (ev_spec_slug c) (ev_repo c) (ev_task_range c) (ev_llm_triage c) (ev_auto_pr c)
    (r_policy c) (r_setup c) (r_generate c) (r_load c) (r_queue c) (r_implement c) (r_test c) (r_triage c)
    (r_review c) (r_increment c) (r_update c) (r_save c) (r_final c) (r_end_review c) (r_docs c)
    (Some r) (r_close c) (r_pr c) (r_emit c) (md_run_id c) (md_sessions c) (md_heavy_job c)
    (md_suspended c) (md_failure c).
Definition put_close (r : CloseResult) (c : SdlcCtx) : SdlcCtx :=
  mkSdlcCtx (ev_spec_slug c) (ev_repo c) (ev_task_range c) (ev_llm_triage c) (ev_auto_pr c)
    (r_policy c) (r_setup c) (r_generate c) (r_load c) (r_queue c) (r_implement c) (r_test c) (r_triage c)
    (r_review c) (r_increment c) (r_update c) (r_save c) (r_final c) (r_end_review c) (r_docs c)
    (r_wrap c) (Some r) (r_pr c) (r_emit c) (md_run_id c) (md_sessions c) (md_heavy_job c)
    (md_suspended c) (md_failure c).
Definition put_pr (r : PrResult) (c : SdlcCtx) : SdlcCtx :=
  mkSdlcCtx (ev_spec_slug c) (ev_repo c) (ev_task_range c) (ev_llm_triage c) (ev_auto_pr c)
    (r_policy c) (r_setup c) (r_generate c) (r_load c) (r_queue c) (r_implement c) (r_test c) (r_triage c)
    (r_review c) (r_increment c) (r_update c) (r_save c) (r_final c) (r_end_review c) (r_docs c)
    (r_wrap c) (r_close c) (Some r) (r_emit c) (md_run_id c) (md_sessions c) (md_heavy_job c)
    (md_suspended c) (md_failure c).
Definition put_emit (r : EmitResult) (c : SdlcCtx) : SdlcCtx :=
  mkSdlcCtx (ev_spec_slug c) (ev_repo c) (ev_task_range c) (ev_llm_triage c) (ev_auto_pr c)
    (r_policy c) (r_setup c) (r_generate c) (r_load c) (r_queue c) (r_implement c) (r_test c) (r_triage c)
    (r_review c) (r_increment c) (r_update c) (r_save c) (r_final c) (r_end_review c) (r_docs c)
    (r_wrap c) (r_close c) (r_pr c) (Some r) (md_run_id c) (md_sessions c) (md_heavy_job c)
    (md_suspended c) (md_failure c).
(** The session [AgentCodeStep] appends to the ledger of [metadata]. *)
Definition add_sessions (ss : list ClaudeSession) (c : SdlcCtx) : SdlcCtx :=
  mkSdlcCtx (ev_spec_slug c) (ev_repo c) (ev_task_range c) (ev_llm_triage c) (ev_auto_pr c)
    (r_policy c) (r_setup c) (r_generate c) (r_load c) (r_queue c) (r_implement c) (r_test c) (r_triage c)
    (r_review c) (r_increment c) (r_update c) (r_save c) (r_final c) (r_end_review c) (r_docs c)
    (r_wrap c) (r_close c) (r_pr c) (r_emit c) (md_run_id c) (md_sessions c ++ ss) (md_heavy_job c)
    (md_suspended c) (md_failure c).
(** [sessions::seed_sessions] *)
Definition seed_ledger (ss : list ClaudeSession) (c : SdlcCtx) : SdlcCtx :=
  mkSdlcCtx (ev_spec_slug c) (ev_repo c) (ev_task_range c) (ev_llm_triage c) (ev_auto_pr c)
    (r_policy c) (r_setup c) (r_generate c) (r_load c) (r_queue c) (r_implement c) (r_test c) (r_triage c)
    (r_review c) (r_increment c) (r_update c) (r_save c) (r_final c) (r_end_review c) (r_docs c)
    (r_wrap c) (r_close c) (r_pr c) (r_emit c) (md_run_id c) ss (md_heavy_job c)
    (md_suspended c) (md_failure c).
(** [metadata.heavy_work] and [request_suspension_with_reason] *)
Definition park (job_id : string) (c : SdlcCtx) : SdlcCtx :=
  mkSdlcCtx (ev_spec_slug c) (ev_repo c) (ev_task_range c) (ev_llm_triage c) (ev_auto_pr c)
    (r_policy c) (r_setup c) (r_generate c) (r_load c) (r_queue c) (r_implement c) (r_test c) (r_triage c)
    (r_review c) (r_increment c) (r_update c) (r_save c) (r_final c) (r_end_review c) (r_docs c)
    (r_wrap c) (r_close c) (r_pr c) (r_emit c) (md_run_id c) (md_sessions c) (Some job_id) true
    (md_failure c).
(** [completion::stamp_failure] *)
Definition stamp_failure (reason : string) (c : SdlcCtx) : SdlcCtx :=
  mkSdlcCtx (ev_spec_slug c) (ev_repo c) (ev_task_range c) (ev_llm_triage c) (ev_auto_pr c)
    (r_policy c) (r_setup c) (r_generate c) (r_load c) (r_queue c) (r_implement c) (r_test c) (r_triage c)
    (r_review c) (r_increment c) (r_update c) (r_save c) (r_final c) (r_end_review c) (r_docs c)
    (r_wrap c) (r_close c) (r_pr c) (r_emit c) (md_run_id c) (md_sessions c) (md_heavy_job c)
    (md_suspended c) (Some reason).

End Ctx.
Arguments SdlcCtx X : clear implicits.

(** ** Shaping a model call *)

Class Prompts : Type := {
  STABLE_SYSTEM_PROMPT : string;
  PATH_DISCIPLINE_PREAMBLE : string;
  IMPLEMENT_STANDARDS_PREAMBLE : string;
  TRIAGE_STABLE_PROMPT : string;
  REVIEW_STABLE_PROMPT : string
}.

(** The fields of [claude_code_rs::Config] the nodes set. *)
Record AgentConfig {X : Extern} := mkAgentConfig {
  cfg_model : option string;
  cfg_system_prompt : option string;
  cfg_timeout_secs : option Z;
  cfg_max_turns : option Z;
  cfg_isolated : bool;
  cfg_cwd : option string;
  cfg_json_schema : option value;
  cfg_env : list (string * string)
}.
Arguments AgentConfig X : clear implicits.
Arguments mkAgentConfig {X}.

Definition verbosity_directive (v : OutputVerbosity) : option string :=
  match v with
  | Normal => None
  | Terse => Some (nl +:+ nl +:+ "Be terse: keep your response as short as possible while still satisfying the request. Target well under 200 output tokens where the task allows it.")
  | Verbose => Some (nl +:+ nl +:+ "Be thorough: explain your reasoning and any trade-offs in detail before giving the final answer.")
  end.
Definition apply_verbosity_directive (prompt : string) (v : OutputVerbosity) : string :=
  match verbosity_directive v with Some d => prompt +:+ d | None => prompt end.

Section Shaping.
Context {X : Extern} {P : Prompts}.

Definition apply_policy_config (config : AgentConfig X) (policy : SdlcPolicy)
    (stage : Stage) : AgentConfig X :=
  mkAgentConfig
    (Some (model_tier_to_model_string (stage_model_tier policy stage) (local_model (local policy))))
    (if prompt_cache policy then Some STABLE_SYSTEM_PROMPT else cfg_system_prompt config)
    (or_else (cfg_timeout_secs config) (stage_call_timeout policy stage))
    (or_else (cfg_max_turns config) (stage_turn_ceiling policy stage))
    (isolated policy) (cfg_cwd config) (cfg_json_schema config) (cfg_env config).
Definition apply_policy (config : AgentConfig X) (prompt : string) (policy : SdlcPolicy)
    (stage : Stage) : AgentConfig X * string :=
  (apply_policy_config config policy stage,
   apply_verbosity_directive prompt (output_verbosity policy)).

Definition with_cwd (d : option string) (c : AgentConfig X) : AgentConfig X :=
  mkAgentConfig (cfg_model c) (cfg_system_prompt c) (cfg_timeout_secs c) (cfg_max_turns c)
    (cfg_isolated c) (match d with Some d => Some d | None => cfg_cwd c end) (cfg_json_schema c)
    (cfg_env c).
Definition with_schema (s : value) (c : AgentConfig X) : AgentConfig X :=
  mkAgentConfig (cfg_model c) (cfg_system_prompt c) (cfg_timeout_secs c) (cfg_max_turns c)
    (cfg_isolated c) (cfg_cwd c) (Some s) (cfg_env c).
Definition push_env (kv : string * string) (c : AgentConfig X) : AgentConfig X :=
  mkAgentConfig (cfg_model c) (cfg_system_prompt c) (cfg_timeout_secs c) (cfg_max_turns c)
    (cfg_isolated c) (cfg_cwd c) (cfg_json_schema c) (cfg_env c ++ [kv]).
End Shaping.

(** ** The world *)

(** What [AgentCodeStep::process] leaves under its identity, and the session it
    bills; a failing call carries its session on the error. *)
Record AgentReply {X : Extern} := mkAgentReply {
  content : option string; structured : option value; billed : list ClaudeSession }.
Arguments AgentReply X : clear implicits.
Arguments mkAgentReply {X}.

Record CheckJob := mkCheckJob {
  cj_class : string; cj_repo : string; cj_cwd : string; cj_commands : list string }.

Class Host {X : Extern} : Type := {
  HW : Type;
  h_run : string -> list string -> string -> HW -> result CommandOutput string * HW;
  h_agent : string -> AgentConfig X -> string -> TransportRetry -> HW ->
            result (AgentReply X) NodeError * HW;
  h_exists : string -> HW -> bool * HW;
  h_read_to_string : string -> HW -> result string string * HW;
  h_write : string -> string -> HW -> result unit string * HW;
  h_create_dir_all : string -> HW -> result unit string * HW;
  h_now : HW -> string * HW;
  h_new_v4 : HW -> string * HW;
  (** the queue is enabled and has a limit for the class *)
  h_class_configured : string -> bool;
  h_submit : string -> CheckJob -> HW -> unit * HW;
  h_admit : CheckJob -> HW -> HeavyMeta * HW;
  (** the verdict kept on the job's record *)
  h_record : CheckJob -> bool -> list CheckResult -> HW -> unit * HW
}.
Arguments Host X : clear implicits.

Inductive SdlcEvent {X : Extern} :=
| RanCommand (program : string) (args : list string) (cwd : string)
| CalledAgent (node : string) (config : AgentConfig X) (prompt : string)
| WroteFile (path contents : string)
| SubmittedJob (id : string) (job : CheckJob)
| SetBlockStatus (root key status : string)
| Renamed (path target : string)
| RemovedLink (path : string)
| RemovedDir (path : string)
| Linked (target link : string).
Arguments SdlcEvent X : clear implicits.
Arguments RanCommand {X}.
Arguments CalledAgent {X}.
Arguments WroteFile {X}.
Arguments SubmittedJob {X}.
Arguments SetBlockStatus {X}.
Arguments Renamed {X}.
Arguments RemovedLink {X}.
Arguments RemovedDir {X}.
Arguments Linked {X}.

Section World.
Context {X : Extern} {H : Host X}.

Definition SD (A : Type) : Type := eff HW (SdlcEvent X) A.

Definition run_command (program : string) (args : list string) (cwd : string)
    : SD (result CommandOutput string) :=
  elog (RanCommand program args cwd) ;~ esilent (h_run program args cwd).
Definition call_agent (node : string) (config : AgentConfig X) (prompt : string)
    (retry : TransportRetry) : SD (result (AgentReply X) NodeError) :=
  elog (CalledAgent node config prompt) ;~ esilent (h_agent node config prompt retry).
Definition write_file (path contents : string) : SD (result unit string) :=
  elog (WroteFile path contents) ;~ esilent (h_write path contents).

Lemma only_run (ok : SdlcEvent X -> bool) program args cwd :
  ok (RanCommand program args cwd) = true -> only ok (run_command program args cwd).
Proof. intros Ho. unfold run_command. only_go. by apply only_log. Qed.
Lemma only_agent (ok : SdlcEvent X -> bool) node config prompt retry :
  ok (CalledAgent node config prompt) = true -> only ok (call_agent node config prompt retry).
Proof. intros Ho. unfold call_agent. only_go. by apply only_log. Qed.
Lemma only_write (ok : SdlcEvent X -> bool) path contents :
  ok (WroteFile path contents) = true -> only ok (write_file path contents).
Proof. intros Ho. unfold write_file. only_go. by apply only_log. Qed.
End World.

#[export] Hint Extern 1 (only _ (run_command _ _ _)) => apply only_run; reflexivity : only.
#[export] Hint Extern 1 (only _ (call_agent _ _ _ _)) => apply only_agent; reflexivity : only.
#[export] Hint Extern 1 (only _ (write_file _ _)) => apply only_write; reflexivity : only.
