(* ===== verification/SdlcFeedback.v ===== *)
(** * What a failed attempt tells the next one

    crates/engine-core/src/workflows/sdlc_flow/task_loop.rs, the pure functions
    that turn a failed check or review into prompt text: compacting a check's
    transcript, truncating it, and rendering the feedback block of the
    implementer and of the triage classifier.

    - [compact_is_segments], [compact_keeps]: what compaction keeps of a long
      transcript, line by line.
    - [feedback_block_bound]: how long a block is, and when a label is cut. *)

From Stdlib Require Import Ascii.
From stdpp Require Import pretty.
From S2P Require Import Prelude Json Utf8 Text SdlcPolicy SdlcContext.

Local Open Scope string_scope.
Local Open Scope list_scope.

(** ** Truncation *)

Definition RETRY_FEEDBACK_TRUNCATED : string := "…[truncated]".

Definition truncate_chars (text : string) (max : nat) : string :=
  if (chars_count text <=? max)%nat then text
  else
    let marker_len := chars_count RETRY_FEEDBACK_TRUNCATED in
    if (max <=? marker_len)%nat then chars_take max text
    else chars_take (max - marker_len) text +:+ RETRY_FEEDBACK_TRUNCATED.

Definition REVIEW_DIFF_TRUNCATED_NOTICE : string :=
  nl +:+ nl +:+ "--- DIFF TRUNCATED — YOU ARE SEEING A PARTIAL DIFF ---" +:+ nl +:+
  "The diff above was clipped to this run's `review_diff_max_chars` policy bound. Changes beyond the cut were NOT shown to you. Do NOT return PASS on the strength of code you could not see: judge only what is visible, and if the visible excerpt is not enough to decide the acceptance criteria, say so explicitly in `summary` and return PARTIAL." +:+ nl.

Definition bound_review_diff (diff : string) (budget : nat) : string * bool :=
  if (chars_count diff <=? budget)%nat then (diff, false)
  else
    let notice_len := chars_count REVIEW_DIFF_TRUNCATED_NOTICE in
    (truncate_chars diff (budget - notice_len) +:+ REVIEW_DIFF_TRUNCATED_NOTICE, true).

(** ** Compaction *)

Definition COMPACT_LINE_THRESHOLD : nat := 200.
Definition COMPACT_CONTEXT_LINES : nat := 4.

Definition elision_marker (omitted : nat) : string :=
  "... [" +:+ pretty omitted +:+ " line" +:+ (if (omitted =? 1)%nat then "" else "s")
  +:+ " omitted] ...".

Definition fail_marked (line : string) : bool :=
  let trimmed := trim_start line in
  String.prefix "FAIL " trimmed || String.prefix "FAILED " trimmed.

Section Compact.
Context {UC : UnicodeCase}.

Definition is_failure_signal_line (line : string) : bool :=
  let trimmed := trim_start line in
  let lower := to_lowercase line in
  fail_marked line
  || occurs "fail" lower || occurs "error" lower || occurs "panicked" lower
  || occurs "assertion" lower || String.prefix "left:" trimmed || String.prefix "right:" trimmed
  || occurs "summary" lower.

(** [for slot in keep.iter_mut().take(end).skip(i) { *slot = true }] *)
Definition keep_range (i len : nat) (keep : list bool) : list bool :=
  imap (fun k b => if (i <=? k)%nat && (k <? i + len)%nat then true else b) keep.
Definition keep_flags (lines : list string) : list bool :=
  foldl (fun keep il => if is_failure_signal_line il.2
                        then keep_range il.1 (COMPACT_CONTEXT_LINES + 1) keep else keep)
    (replicate (length lines) false) (imap pair lines).

(** The second loop; [omitted] lines are pending. *)
Definition flush_marker (omitted : nat) : string :=
  match omitted with O => "" | _ => elision_marker omitted +:+ nl end.
Fixpoint compact_loop (omitted : nat) (lines : list (string * bool)) : string :=
  match lines with
  | [] => flush_marker omitted
  | (line, true) :: lines => flush_marker omitted +:+ line +:+ nl +:+ compact_loop 0 lines
  | (_, false) :: lines => compact_loop (S omitted) lines
  end.

Definition compact_check_output (output : string) : string :=
  let ls := lines output in
  if (length ls <=? COMPACT_LINE_THRESHOLD)%nat then output
  else compact_loop 0 (zip ls (keep_flags ls)).

(** ** Entries *)

Record FeedbackEntry := mkFeedbackEntry { fe_label : string; fe_detail : string }.

Fixpoint first_failure_detail (check_results : list CheckResult) : option string :=
  match check_results with
  | [] => None
  | check :: rest =>
      if passed check then first_failure_detail rest
      else
        let ls := lines (check_output check) in
        let candidate :=
          match find fail_marked ls with
          | Some line => Some line
          | None => find (fun line => negb (String.eqb (trim line) "")
                                      && negb (String.prefix "... [" (trim line))
                                      && is_failure_signal_line line) ls
          end in
        match candidate with Some line => Some (trim line) | None => first_failure_detail rest end
  end.

Context {X : Extern}.

Definition test_failure_entries (ctx : SdlcCtx X) : option (list FeedbackEntry) :=
  result ← r_test ctx;
  if bool_decide (all_passed_of result = Some false) then
    checks ← check_results_of result;
    let entries := map (fun check =>
        mkFeedbackEntry ("FAILED CHECK: " +:+ check_name check)
          (String.concat nl
             (List.filter (fun part => negb (all_whitespace part)) [check_message check; check_output check])))
      (List.filter (fun check => negb (passed check)) checks) in
    match entries with [] => None | _ => Some entries end
  else None.

Definition review_failure_entries (ctx : SdlcCtx X) : option (list FeedbackEntry) :=
  result ← r_review ctx;
  let verdict := rv_verdict result in
  if String.eqb verdict "" || String.eqb verdict "PASS" then None
  else Some (mkFeedbackEntry ("REVIEW VERDICT: " +:+ verdict) (rv_summary result)
             :: imap (fun index issue =>
                        mkFeedbackEntry ("REVIEW ISSUE " +:+ pretty (index + 1)%nat +:+ ":") issue)
                  (rv_issues result)).

(** ** Blocks *)

Definition RETRY_FEEDBACK_HEADER : string :=
  nl +:+ nl +:+ "--- PREVIOUS ATTEMPT FAILED — READ THIS BEFORE DOING ANYTHING ---" +:+ nl +:+
  "A previous attempt at this exact task already ran in this worktree and its validation FAILED. Its edits are still present, so the task is NOT done. Diagnose the failure below, fix its root cause, and re-verify. Do not report success without addressing it. Do NOT re-implement from scratch — make the MINIMUM targeted changes that address THIS failure." +:+ nl +:+ nl.
Definition TRIAGE_FAILURE_HEADER : string :=
  nl +:+ nl +:+ "--- FAILING CHECK OUTPUT — CLASSIFY FROM THIS EVIDENCE ---" +:+ nl +:+
  "The checks below failed with the output shown. Base the verdict on what actually broke, not on the check names: a localized, mechanical, or transient failure the next attempt can plausibly fix is RETRYABLE; a fundamental mismatch with the task's premise, or the same failure recurring unchanged across attempts, is MAJOR_BAIL." +:+ nl +:+ nl.

Definition fixed_len (header : string) (entries : list FeedbackEntry) : nat :=
  (chars_count header + sum_list_with (fun e => chars_count (fe_label e) + 1) entries)%nat.
Definition entry_text (per_entry : nat) (e : FeedbackEntry) : string :=
  fe_label e +:+ nl +:+
  (if (0 <? per_entry)%nat && negb (String.eqb (fe_detail e) "")
   then truncate_chars (fe_detail e) per_entry +:+ nl else "").

Definition render_feedback_block (header : string) (entries : list FeedbackEntry) (budget : nat)
    : option string :=
  if (budget =? 0)%nat || bool_decide (entries = []) then None
  else
    let fixed := fixed_len header entries in
    let per_entry := ((budget - fixed) / length entries)%nat in
    let block := foldl (fun b e => b +:+ entry_text per_entry e) header entries in
    let block := if (fixed <=? budget)%nat then truncate_chars block budget else block in
    if all_whitespace block then None else Some block.

Definition prior_attempt_feedback (ctx : SdlcCtx X) (cfg : RetryFeedback) : option string :=
  if negb (rf_enabled cfg) then None
  else
    entries ← match test_failure_entries ctx with
              | Some e => Some e
              | None => review_failure_entries ctx
              end;
    render_feedback_block RETRY_FEEDBACK_HEADER entries (Z.to_nat (max_chars cfg)).

Definition triage_failure_feedback (ctx : SdlcCtx X) (cfg : RetryFeedback) : option string :=
  if negb (rf_enabled cfg) then None
  else
    entries ← test_failure_entries ctx;
    render_feedback_block TRIAGE_FAILURE_HEADER entries (Z.to_nat (max_chars cfg)).
End Compact.

(** * Facts *)

Lemma truncate_chars_bound text max : (chars_count (truncate_chars text max) <= max)%nat.
Proof.
  unfold truncate_chars. destruct (Nat.leb_spec (chars_count text) max); [done|].
  destruct (Nat.leb_spec max (chars_count RETRY_FEEDBACK_TRUNCATED)); [apply chars_take_count|].
  rewrite chars_count_app. pose proof (chars_take_count (max - chars_count RETRY_FEEDBACK_TRUNCATED) text).
  lia.
Qed.

Lemma truncate_chars_fits text max : (chars_count text <= max)%nat -> truncate_chars text max = text.
Proof. unfold truncate_chars. intros H. by rewrite (proj2 (Nat.leb_le _ _) H). Qed.

(** A clipped diff always carries the notice. *)
Lemma bound_review_diff_spec diff budget text clipped :
  bound_review_diff diff budget = (text, clipped) ->
  if clipped then
    (budget < chars_count diff)%nat /\
    (exists head, text = head +:+ REVIEW_DIFF_TRUNCATED_NOTICE) /\
    (chars_count text <= Nat.max budget (chars_count REVIEW_DIFF_TRUNCATED_NOTICE))%nat
  else text = diff /\ (chars_count diff <= budget)%nat.
Proof.
  unfold bound_review_diff. destruct (Nat.leb_spec (chars_count diff) budget) as [Hle|Hlt];
    intros Heq; apply pair_equal_spec in Heq as [<- <-]; [done|].
  split; [done|]. split; [by eexists|].
  rewrite (chars_count_app (truncate_chars _ _)). pose proof (truncate_chars_bound diff (budget - chars_count REVIEW_DIFF_TRUNCATED_NOTICE)). lia.
Qed.

(** ** Compaction *)

Section CompactFacts.
Context {UC : UnicodeCase}.

(** Line [i] is kept: it, or one of the four lines before it, signals a failure. *)
Definition keeps (ls : list string) (i : nat) : bool :=
  existsb (fun j => match ls !! j with Some l => is_failure_signal_line l | None => false end)
    (seq (i - COMPACT_CONTEXT_LINES) (S i - (i - COMPACT_CONTEXT_LINES))).

Lemma keeps_true ls i :
  keeps ls i = true <->
  exists j l, (j <= i <= j + COMPACT_CONTEXT_LINES)%nat /\ ls !! j = Some l /\
              is_failure_signal_line l = true.
Proof.
  unfold keeps. rewrite existsb_exists. split.
  - intros (j & Hj & H). apply in_seq in Hj. destruct (ls !! j) as [l|] eqn:E; [|done].
    exists j, l. unfold COMPACT_CONTEXT_LINES in *. split; [lia|done].
  - intros (j & l & Hj & E & H). exists j. rewrite in_seq, E. unfold COMPACT_CONTEXT_LINES in *.
    split; [lia|done].
Qed.

Lemma lookup_keep_range i len keep k :
  keep_range i len keep !! k
  = (fun b => if (i <=? k)%nat && (k <? i + len)%nat then true else b) <$> keep !! k.
Proof. unfold keep_range. by rewrite list_lookup_imap. Qed.

Lemma lookup_fold_flags (xs : list (nat * string)) keep k :
  foldl (fun keep il => if is_failure_signal_line il.2
                        then keep_range il.1 (COMPACT_CONTEXT_LINES + 1) keep else keep) keep xs !! k
  = (fun b => b || existsb (fun il => is_failure_signal_line il.2 && (il.1 <=? k)%nat
                                      && (k <=? il.1 + COMPACT_CONTEXT_LINES)%nat) xs) <$> keep !! k.
Proof.
  revert keep. induction xs as [|[i l] xs IH]; intros keep; cbn [foldl existsb].
  { destruct (keep !! k); [|done]. cbn. by rewrite orb_false_r. }
  rewrite IH. cbn [fst snd]. destruct (is_failure_signal_line l); [|done].
  rewrite lookup_keep_range. destruct (keep !! k) as [b|]; [|done]. cbn [fmap option_fmap option_map].
  f_equal. unfold COMPACT_CONTEXT_LINES.
  destruct (Nat.leb_spec i k), (Nat.ltb_spec k (i + (4 + 1))), (Nat.leb_spec k (i + 4)); cbn; try lia;
    by rewrite ?orb_true_r.
Qed.

Lemma keep_flags_spec ls : keep_flags ls = imap (fun i _ => keeps ls i) ls.
Proof.
  apply list_eq. intros k. unfold keep_flags. rewrite lookup_fold_flags, list_lookup_imap.
  destruct (ls !! k) as [l|] eqn:E.
  - rewrite lookup_replicate_2 by by eapply lookup_lt_Some. cbn. f_equal.
    apply Bool.eq_iff_eq_true. rewrite keeps_true, existsb_exists. split.
    + intros ([j x] & Hin & H). apply list_elem_of_In, elem_of_lookup_imap in Hin as (j' & x' & Heq & Hj).
      injection Heq as -> ->. rewrite !andb_true_iff, !Nat.leb_le in H. exists j', x'. naive_solver.
    + intros (j & x & Hj & Hx & H). exists (j, x). split.
      * apply list_elem_of_In, elem_of_lookup_imap. eauto.
      * cbn [fst snd]. rewrite H. destruct Hj as [H1 H2]. apply Nat.leb_le in H1, H2. by rewrite H1, H2.
  - apply lookup_ge_None in E. by rewrite (proj1 (lookup_replicate_None _ _ _) E).
Qed.

(** A compacted transcript is kept lines and markers that say how many lines
    they stand for. *)
Definition segment_text (s : string + nat) : string :=
  match s with inl line => line +:+ nl | inr n => elision_marker n +:+ nl end.
Definition segment_lines (s : string + nat) : list (option string) :=
  match s with inl line => [Some line] | inr n => replicate n None end.

Lemma compact_loop_segments omitted (ls : list (string * bool)) :
  exists segs, compact_loop omitted ls = foldr (fun s t => segment_text s +:+ t) "" segs /\
    segs ≫= segment_lines
    = replicate omitted None ++ map (fun lb : string * bool => if lb.2 then Some lb.1 else None) ls /\
    Forall (fun s => match s with inr n => (0 < n)%nat | inl _ => True end) segs.
Proof.
  revert omitted. induction ls as [|[l b] ls IH]; intros omitted.
  - cbn. destruct omitted as [|n]; [by exists []|]. exists [inr (S n)].
    split; [|split; [|apply Forall_singleton; lia]]; cbn.
    + by rewrite str_app_empty_r.
    + by rewrite !app_nil_r.
  - destruct b; cbn [compact_loop].
    + destruct (IH O) as (segs & -> & Hl & Hp). destruct omitted as [|n].
      * exists (inl l :: segs). split; [|split; [|by apply Forall_cons]]; cbn; [by rewrite str_append_assoc|].
        cbn in Hl. by rewrite Hl.
      * exists (inr (S n) :: inl l :: segs). split; [|split; [|apply Forall_cons; split; [lia|by apply Forall_cons]]].
        -- cbn [foldr segment_text flush_marker]. by rewrite !str_append_assoc.
        -- cbn [mbind list_bind segment_lines]. cbn in Hl. rewrite Hl. done.
    + destruct (IH (S omitted)) as (segs & -> & Hl & Hp). exists segs. split; [done|]. split; [|done].
      rewrite Hl. change (replicate (S omitted) (@None string)) with (@None string :: replicate omitted None).
      rewrite replicate_cons_app. rewrite <- app_assoc. done.
Qed.

(** A transcript of more than 200 lines is compacted to its lines that
    signal a failure, each with the four lines after it, in order; every other
    run of lines is one marker that says how many lines it stands for. *)
Theorem compact_is_segments output :
  if (length (lines output) <=? COMPACT_LINE_THRESHOLD)%nat then compact_check_output output = output
  else exists segs, compact_check_output output = foldr (fun s t => segment_text s +:+ t) "" segs /\
    segs ≫= segment_lines
    = imap (fun i l => if keeps (lines output) i then Some l else None) (lines output) /\
    Forall (fun s => match s with inr n => (0 < n)%nat | inl _ => True end) segs.
Proof.
  unfold compact_check_output. destruct (_ <=? _)%nat; [done|]. set (ls := lines output).
  destruct (compact_loop_segments 0 (zip ls (keep_flags ls))) as (segs & -> & Hl & Hp).
  exists segs. split; [done|]. split; [|done]. rewrite Hl, keep_flags_spec. cbn [replicate app].
  apply list_eq. intros k. change (@map) with (@list_fmap). rewrite list_lookup_imap.
  rewrite (list_lookup_fmap _ (zip ls _)). rewrite lookup_zip_with, list_lookup_imap.
  by destruct (ls !! k).
Qed.
End CompactFacts.

(** ** Blocks *)

Lemma chars_count_nl : chars_count nl = 1%nat.
Proof. reflexivity. Qed.

Lemma fold_text {A} (f : A -> string) (l : list A) (h : string) :
  foldl (fun b e => b +:+ f e) h l = h +:+ foldr (fun e t => f e +:+ t) "" l.
Proof.
  revert h. induction l as [|e l IH]; intros h; cbn; [by rewrite str_app_empty_r|].
  by rewrite IH, str_append_assoc.
Qed.

Lemma fold_text_ext {A} (f g : A -> string) (l : list A) (h : string) :
  Forall (fun e => f e = g e) l ->
  foldl (fun b e => b +:+ f e) h l = foldl (fun b e => b +:+ g e) h l.
Proof. intros H. revert h. induction H as [|e l E _ IH]; intros h; cbn; [done|]. by rewrite E, IH. Qed.

Lemma fold_text_count {A} (f : A -> string) (l : list A) (h : string) :
  chars_count (foldl (fun b e => b +:+ f e) h l)
  = (chars_count h + sum_list_with (fun e => chars_count (f e)) l)%nat.
Proof.
  revert h. induction l as [|e l IH]; intros h; cbn; [lia|]. rewrite IH, chars_count_app. lia.
Qed.

(** The whole of an entry. *)
Definition full_text (e : FeedbackEntry) : string :=
  fe_label e +:+ nl +:+ (if String.eqb (fe_detail e) "" then "" else fe_detail e +:+ nl).

Lemma entry_text_full per e :
  (chars_count (fe_detail e) < per)%nat ->
  entry_text per e = full_text e /\ (chars_count (entry_text per e) <= chars_count (fe_label e) + 1 + per)%nat.
Proof.
  intros H. unfold entry_text, full_text. rewrite (proj2 (Nat.ltb_lt 0 per)) by lia. cbn [andb].
  rewrite truncate_chars_fits by lia. destruct (String.eqb (fe_detail e) ""); cbn [negb].
  - split; [done|]. rewrite !chars_count_app, chars_count_nl. cbn [chars_count]. lia.
  - split; [done|]. rewrite !chars_count_app, chars_count_nl. lia.
Qed.

Lemma entries_fit entries per :
  Forall (fun e => chars_count (fe_detail e) < per)%nat entries ->
  (sum_list_with (fun e => chars_count (full_text e)) entries
   <= sum_list_with (fun e => chars_count (fe_label e) + 1) entries + length entries * per)%nat.
Proof.
  induction 1 as [|e l H _ IH]; cbn [sum_list_with length]; [lia|].
  destruct (entry_text_full per e H) as [E Hle]. rewrite E in Hle. lia.
Qed.

(** C38: A rendered feedback block is at most the budget long, unless the header
    and the labels alone exceed it: then it is exactly those.  When every detail
    is shorter than its share of the rest, nothing is cut. *)
Theorem feedback_block_bound header entries budget block :
  render_feedback_block header entries budget = Some block ->
  let fixed := fixed_len header entries in
  let share := ((budget - fixed) / length entries)%nat in
  if (fixed <=? budget)%nat then
    (chars_count block <= budget)%nat /\
    (Forall (fun e => chars_count (fe_detail e) < share)%nat entries ->
     block = foldl (fun b e => b +:+ full_text e) header entries)
  else block = foldl (fun b e => b +:+ fe_label e +:+ nl) header entries.
Proof.
  unfold render_feedback_block. destruct (budget =? 0)%nat; [done|]. cbn [orb].
  destruct (bool_decide_reflect (entries = [])) as [|Hne]; [done|].
  set (fixed := fixed_len header entries).
  set (share := ((budget - fixed) / length entries)%nat). cbv zeta.
  destruct (Nat.leb_spec fixed budget) as [Hle|Hlt]; destruct (all_whitespace _); try done;
    intros Heq; apply (inj Some) in Heq as <-.
  - split; [apply truncate_chars_bound|]. intros Hfit.
    rewrite (fold_text_ext (entry_text share) full_text).
    2:{ eapply Forall_impl; [exact Hfit|]. intros e He. by apply entry_text_full. }
    apply truncate_chars_fits. rewrite fold_text_count.
    pose proof (entries_fit entries share Hfit).
    assert (length entries * share <= budget - fixed)%nat.
    { apply Nat.Div0.mul_div_le. }
    unfold fixed, fixed_len in *. lia.
  - apply fold_text_ext, Forall_forall. intros e _. unfold entry_text, share.
    replace (budget - fixed)%nat with 0%nat by lia. rewrite Nat.Div0.div_0_l. cbn [Nat.ltb Nat.leb andb].
    by rewrite str_app_empty_r.
Qed.

(** The last clamp counts the newline after each detail, which the shares do
    not: with long details it cuts into the last entry, label included. *)
Lemma last_label_cut :
  let entries := [mkFeedbackEntry "A" "xxxxxxxxxxxxxxxxxxxx"; mkFeedbackEntry "REVIEW ISSUE 1:" "yy"] in
  let budget := (fixed_len "" entries + 4)%nat in
  exists block, render_feedback_block "" entries budget = Some block /\
    occurs "REVIEW ISSUE 1:" block = false.
Proof. eexists. split; vm_compute; reflexivity. Qed.
