(* ===== verification/SdlcClock.v ===== *)
(** * Which copy of the state is current

    crates/engine-core/src/workflows/sdlc_flow/task_loop.rs.  Five nodes leave
    a whole [SDLCState] in the context; readers take the one with the highest
    [logical_clock], a sum of counters of which every write advances one by one.

    - [logical_clock], [latest_state] and the readers built on it
    - [bump_task_attempt], [bump_task_review_attempt], [mark_done]: what the
      writers do to the state
    - [last_write_wins]: with such writes, the latest state is the last write. *)

From stdpp Require Import pretty.
From S2P Require Import Prelude Json Node Utf8 Text Effect Chain SdlcPolicy SdlcState SdlcContext.

Local Open Scope string_scope.
Local Open Scope list_scope.
Local Open Scope engine_scope.

Definition logical_clock (state : SDLCState) : Z :=
  (total_attempts (telemetry state) + review_attempts (telemetry state)
   + tasks_passed (telemetry state)
   + foldr (fun t n => attempt_count t + n) 0 (tasks state))%Z.

(** The scan of [latest_state]: a later candidate replaces the best one only
    if its clock is higher. *)
Definition newer (best : option SDLCState) (state : SDLCState) : option SDLCState :=
  match best with
  | None => Some state
  | Some current => if (logical_clock current <? logical_clock state)%Z then Some state else best
  end.
Definition latest_of (candidates : list SDLCState) : option SDLCState := foldl newer None candidates.

Section Readers.
Context {X : Extern} {RF : RustFmt}.

Definition candidates (ctx : SdlcCtx X) : list SDLCState :=
  omap id [r_increment ctx; r_update ctx; rv_state <$> r_review ctx; im_state <$> r_implement ctx;
           r_load ctx].
Definition latest_state (ctx : SdlcCtx X) : result SDLCState NodeError :=
  match latest_of (candidates ctx) with
  | Some s => Ok s
  | None => Err (NodeError_new "no SDLCState found: none of IncrementAttemptNode, UpdateTaskStatusNode, LoadTaskStateNode has run")
  end.

Definition worktree_path (ctx : SdlcCtx X) : result string NodeError :=
  match r_setup ctx with
  | Some s => Ok (setup_worktree_path s)
  | None => Err (NodeError_new "SetupWorktreeNode output missing worktree_path")
  end.
Definition branch_name (ctx : SdlcCtx X) : option string := r_setup ctx ≫= setup_branch_name.

Definition current_task_fields (ctx : SdlcCtx X) : result QueueEntry NodeError :=
  match r_queue ctx with
  | Some q => Ok q
  | None => Err (NodeError_new "TaskQueueRouterNode has not run yet")
  end.

Definition find_task (id : Z) (tasks : list SDLCTask) : option SDLCTask :=
  find (fun t => Z.eqb (task_id t) id) tasks.

Definition current_task_state (ctx : SdlcCtx X) (caller : string) : result SDLCTask NodeError :=
  current <-? current_task_fields ctx;
  let id := current_task_id current in
  state <-? latest_state ctx;
  match find_task id (tasks state) with
  | Some t => Ok t
  | None => Err (NodeError_new (caller +:+ ": no task with task_id=" +:+ pretty id +:+ " found in state"))
  end.

Definition task_diff_base (ctx : SdlcCtx X) : string :=
  default "HEAD" (r_implement ctx ≫= task_base_sha).

Definition spec_dir_for_baseline (ctx : SdlcCtx X) (worktree : string) : string :=
  match ev_spec_slug ctx with
  | Some slug => if String.eqb slug "" then path_join worktree "planning"
                 else path_join (path_join worktree "planning") slug
  | None => path_join worktree "planning"
  end.

Definition allowed_task_ids (ctx : SdlcCtx X) : option (list Z) :=
  match parse_task_range debug_str (ev_task_range ctx) with Ok ids => ids | Err _ => None end.

(** ** Writes *)

(** [iter_mut().find(|t| t.task_id == id)], then an update in place *)
Fixpoint update_task (id : Z) (f : SDLCTask -> SDLCTask) (tasks : list SDLCTask)
    : option (list SDLCTask) :=
  match tasks with
  | [] => None
  | t :: ts => if Z.eqb (task_id t) id then Some (f t :: ts) else cons t <$> update_task id f ts
  end.

Definition retried (t : SDLCTask) : SDLCTask :=
  mkSDLCTask (task_id t) (title t) (description t) (acceptance_criteria t) (task_status t)
    (validation_commands t) (u32_add (attempt_count t) 1) (max_attempts t) (review_attempt_count t)
    (expects_writes t) (task_files t).
Definition review_charged (t : SDLCTask) : SDLCTask :=
  mkSDLCTask (task_id t) (title t) (description t) (acceptance_criteria t) (task_status t)
    (validation_commands t) (attempt_count t) (max_attempts t)
    (u32_add (review_attempt_count t) 1) (expects_writes t) (task_files t).
Definition done_task (t : SDLCTask) : SDLCTask :=
  mkSDLCTask (task_id t) (title t) (description t) (acceptance_criteria t) TsDone
    (validation_commands t) (attempt_count t) (max_attempts t) (review_attempt_count t)
    (expects_writes t) (task_files t).

Definition no_task (id : Z) (slug : string) : NodeError :=
  NodeError_new ("no task with task_id=" +:+ pretty id +:+ " found in state for spec " +:+ debug_str slug).
Definition on_task (id : Z) (f : SDLCTask -> SDLCTask) (state : SDLCState)
    : result SDLCState NodeError :=
  match update_task id f (tasks state) with
  | Some ts => Ok (set_tasks (fun _ => ts) state)
  | None => Err (no_task id (spec_slug state))
  end.

Definition bump_task_attempt (state : SDLCState) (id : Z) : result SDLCState NodeError :=
  on_task id retried state.
Definition task_review_attempts (state : SDLCState) (id : Z) : Z :=
  match find_task id (tasks state) with Some t => review_attempt_count t | None => 0 end.
Definition bump_task_review_attempt (state : SDLCState) (id : Z)
    : result (Z * SDLCState) NodeError :=
  state' <-? on_task id review_charged state;
  Ok (task_review_attempts state' id, state').

Definition charge_attempt (tl : SDLCTelemetry) : SDLCTelemetry :=
  mkSDLCTelemetry (u32_add (total_attempts tl) 1) (budget_spent tl) (tasks_passed tl)
    (tasks_failed tl) (review_attempts tl).
Definition charge_review (tl : SDLCTelemetry) : SDLCTelemetry :=
  mkSDLCTelemetry (total_attempts tl) (budget_spent tl) (tasks_passed tl) (tasks_failed tl)
    (u32_add (review_attempts tl) 1).
Definition charge_pass (tl : SDLCTelemetry) : SDLCTelemetry :=
  mkSDLCTelemetry (total_attempts tl) (budget_spent tl) (u32_add (tasks_passed tl) 1)
    (tasks_failed tl) (review_attempts tl).

Definition mark_done (state : SDLCState) (id : Z) : result SDLCState NodeError :=
  match update_task id done_task (tasks state) with
  | Some ts => Ok (set_telemetry charge_pass (set_tasks (fun _ => ts) state))
  | None => Err (NodeError_new ("UpdateTaskStatusNode: no task with task_id=" +:+ pretty id
                   +:+ " found in state for spec " +:+ debug_str (spec_slug state)))
  end.
End Readers.

(** * Facts *)

Lemma latest_of_scan l best :
  (forall b, best = Some b -> exists s, foldl newer best l = Some s /\ (s = b \/ s ∈ l) /\
     (logical_clock b <= logical_clock s)%Z /\ Forall (fun c => logical_clock c <= logical_clock s)%Z l).
Proof.
  revert best. induction l as [|c l IH]; intros best b ->; cbn; [exists b; split_and!; [done|by left|lia|constructor]|].
  destruct (Z.ltb_spec (logical_clock b) (logical_clock c)) as [Hlt|Hge].
  - destruct (IH (Some c) c eq_refl) as (s & -> & Hin & Hle & Hall). exists s.
    split_and!; [done| |lia|by constructor]. right. destruct Hin as [-> | Hin]; by constructor.
  - destruct (IH (Some b) b eq_refl) as (s & -> & Hin & Hle & Hall). exists s.
    split_and!; [done| |done|constructor; [lia|done]]. destruct Hin as [-> | Hin]; [by left|right; by constructor].
Qed.

Lemma latest_of_Some l s :
  latest_of l = Some s -> s ∈ l /\ Forall (fun c => logical_clock c <= logical_clock s)%Z l.
Proof.
  destruct l as [|c l]; [done|]. unfold latest_of. cbn. intros E.
  destruct (latest_of_scan l (Some c) c eq_refl) as (s' & Hs & Hin & Hle & Hall).
  rewrite E in Hs. injection Hs as <-. split; [|by constructor].
  destruct Hin as [-> | Hin]; by constructor.
Qed.

Lemma latest_of_is_Some l c : c ∈ l -> is_Some (latest_of l).
Proof.
  destruct l as [|d l]; [by intros ?%elem_of_nil|]. intros _. unfold latest_of. cbn.
  destruct (latest_of_scan l (Some d) d eq_refl) as (s & -> & _). eauto.
Qed.

(** A candidate newer than all the others is the latest. *)
Lemma latest_of_unique l s :
  s ∈ l -> Forall (fun c => c = s \/ logical_clock c < logical_clock s)%Z l -> latest_of l = Some s.
Proof.
  intros Hin Hall. destruct (latest_of_is_Some l s Hin) as [s' E]. rewrite E. f_equal.
  destruct (latest_of_Some l s' E) as [Hin' Hle].
  rewrite Forall_forall in Hall, Hle. specialize (Hle s Hin). destruct (Hall s' Hin'); [done|lia].
Qed.

Section Writes.
Context {X : Extern} {RF : RustFmt}.

Lemma latest_state_Ok (ctx : SdlcCtx X) s :
  latest_state ctx = Ok s <-> latest_of (candidates ctx) = Some s.
Proof. unfold latest_state. destruct (latest_of _); naive_solver. Qed.

(** The writes of the loop: which entry of the context they replace. *)
Inductive state_write : SDLCState -> SdlcCtx X -> SdlcCtx X -> Prop :=
| W_implement i ctx : state_write (im_state i) ctx (put_implement i ctx)
| W_review r ctx : state_write (rv_state r) ctx (put_review r ctx)
| W_increment s ctx : state_write s ctx (put_increment s ctx)
| W_update s ctx : state_write s ctx (put_update s ctx).

Lemma elem_of_candidates (ctx : SdlcCtx X) s :
  s ∈ candidates ctx <->
  r_increment ctx = Some s \/ r_update ctx = Some s \/ rv_state <$> r_review ctx = Some s \/
  im_state <$> r_implement ctx = Some s \/ r_load ctx = Some s.
Proof.
  unfold candidates. rewrite list_elem_of_omap. split.
  - intros (o & Ho & E). unfold id in E. subst o. rewrite !elem_of_cons, elem_of_nil in Ho. naive_solver.
  - intros H. exists (Some s). split; [|done]. rewrite !elem_of_cons. naive_solver.
Qed.

Lemma candidates_write s ctx ctx' :
  state_write s ctx ctx' ->
  s ∈ candidates ctx' /\ forall c, c ∈ candidates ctx' -> c = s \/ c ∈ candidates ctx.
Proof.
  intros Hw. split.
  - apply elem_of_candidates. destruct Hw; cbn; tauto.
  - intros c. rewrite !elem_of_candidates. destruct Hw; cbn; naive_solver.
Qed.

(** A write whose state is newer than the latest one becomes the latest. *)
Lemma last_write_wins s s' ctx ctx' :
  latest_state ctx = Ok s -> (logical_clock s < logical_clock s')%Z -> state_write s' ctx ctx' ->
  latest_state ctx' = Ok s'.
Proof.
  rewrite !latest_state_Ok. intros [Hin Hall]%latest_of_Some Hlt [Hin' Hsub]%candidates_write.
  apply latest_of_unique; [done|]. apply Forall_forall. intros c [-> | Hc]%Hsub; [by left|right].
  rewrite Forall_forall in Hall. specialize (Hall c Hc). lia.
Qed.

(** ** Updating one task *)

Lemma find_task_Some id ts t : find_task id ts = Some t -> t ∈ ts /\ task_id t = id.
Proof.
  intros H. apply find_some in H as [Hin H]. split; [by apply list_elem_of_In|]. by apply Z.eqb_eq.
Qed.

Lemma update_task_Some id f ts ts' :
  update_task id f ts = Some ts' ->
  exists pre t post, ts = pre ++ t :: post /\ task_id t = id /\ ts' = pre ++ f t :: post /\
    find_task id ts = Some t /\ Forall (fun u => task_id u <> id) pre.
Proof.
  revert ts'. induction ts as [|t ts IH]; intros ts'; cbn; [done|].
  destruct (Z.eqb_spec (task_id t) id) as [E|E].
  - intros [= <-]. by exists [], t, ts.
  - intros H. apply fmap_Some in H as (ts1 & H & ->).
    destruct (IH ts1 H) as (pre & u & post & -> & Hu & -> & Hf & Hpre).
    exists (t :: pre), u, post. split_and!; [done..|by constructor].
Qed.

Lemma update_task_find id f ts t :
  find_task id ts = Some t -> exists ts', update_task id f ts = Some ts'.
Proof.
  induction ts as [|u ts IH]; cbn; [done|]. destruct (Z.eqb (task_id u) id); [eauto|].
  intros H. destruct (IH H) as [ts' ->]. cbn. eauto.
Qed.

Lemma find_task_update id f ts ts' t :
  (forall t, task_id (f t) = task_id t) ->
  update_task id f ts = Some ts' -> find_task id ts = Some t -> find_task id ts' = Some (f t).
Proof.
  intros Hf. revert ts'. induction ts as [|u ts IH]; intros ts'; cbn; [done|].
  destruct (Z.eqb_spec (task_id u) id) as [E|E].
  - intros [= <-] [= ->]. cbn. by rewrite Hf, E, Z.eqb_refl.
  - intros H1 H2. apply fmap_Some in H1 as (ts1 & H1 & ->). cbn.
    rewrite (proj2 (Z.eqb_neq _ _) E). by apply IH.
Qed.

(** A sum over the tasks, and what updating one task does to it. *)
Definition sum_of (g : SDLCTask -> Z) (ts : list SDLCTask) : Z := foldr (fun t n => g t + n)%Z 0%Z ts.
Definition attempts_sum (ts : list SDLCTask) : Z := sum_of attempt_count ts.

Lemma sum_of_app g ts ts' : sum_of g (ts ++ ts') = (sum_of g ts + sum_of g ts')%Z.
Proof. induction ts as [|t ts IH]; cbn; [done|]. unfold sum_of in *. lia. Qed.

Lemma sum_of_update g id f ts ts' t :
  update_task id f ts = Some ts' -> find_task id ts = Some t ->
  sum_of g ts' = (sum_of g ts + (g (f t) - g t))%Z.
Proof.
  intros (pre & u & post & -> & _ & -> & Hf & _)%update_task_Some H. rewrite Hf in H. injection H as ->.
  rewrite !sum_of_app. cbn. unfold sum_of. lia.
Qed.

Lemma update_task_ids id f ts ts' :
  (forall t, task_id (f t) = task_id t) ->
  update_task id f ts = Some ts' -> map task_id ts' = map task_id ts.
Proof.
  intros Hf (pre & u & post & -> & _ & -> & _)%update_task_Some. by rewrite !map_app, map_cons, Hf.
Qed.

Lemma find_task_nodup ts t : NoDup (map task_id ts) -> t ∈ ts -> find_task (task_id t) ts = Some t.
Proof.
  intros Hnd Hin. destruct (find_task (task_id t) ts) as [u|] eqn:E.
  - destruct (find_task_Some _ _ _ E) as [Hu Heq]. f_equal. by eapply (nodup_key_inj task_id).
  - unfold find_task in E. pose proof (find_none _ _ E t (proj1 (list_elem_of_In _ _) Hin)) as Hn.
    cbn in Hn. by rewrite Z.eqb_refl in Hn.
Qed.

Lemma clock_sum state :
  logical_clock state = (total_attempts (telemetry state) + review_attempts (telemetry state)
    + tasks_passed (telemetry state) + attempts_sum (tasks state))%Z.
Proof. done. Qed.
End Writes.
