(* ===== verification/SdlcChecks.v ===== *)
(** * Testing one task

    crates/engine-core/src/workflows/sdlc_flow/task_loop.rs, [TestTaskNode]:

    - [select_task_checks]: which checks run
    - [run_checks] and the five check kinds
    - [verify_claimed_writes]: the guard on what the worktree shows
    - [TestTaskNode_process]: the whole handler, inline or parked on the
      heavy-work queue.

    The JSON parser and printer, [as_i64] and the [regex] crate are the class
    [CheckLibs].  Git's status columns are ASCII, so the byte slices of a
    porcelain line are at character boundaries. *)

From Stdlib Require Import Ascii.
From stdpp Require Import pretty.
From S2P Require Import Prelude Json Node Utf8 Text Effect Chain LaneLog SdlcPolicy SdlcState SdlcContext SdlcFeedback SdlcClock.

Local Open Scope string_scope.
Local Open Scope list_scope.
Local Open Scope effect_scope.

(** [regex_new p] compiles; the compiled expression finds its first match. *)
Class CheckLibs {X : Extern} : Type := {
  as_i64 : value -> option Z;
  json_text : value -> string;
  json_parse : string -> result value string;
  regex_new : string -> option (string -> option string)
}.
Arguments CheckLibs X : clear implicits.


Section Checks.
Context {X : Extern} {H : Host X} {UC : UnicodeCase} {RF : RustFmt} {CL : CheckLibs X}.

Definition field_str (check : value) (key : string) : option string := jget check key ≫= as_str.
Definition field_bool (check : value) (key : string) : option bool := jget check key ≫= as_bool.
Definition field_array (check : value) (key : string) : list value :=
  default [] (jget check key ≫= as_array).

Definition failure_class_of (check : value) : FailureClass :=
  match field_str check "failureClass" with
  | Some s => if String.eqb s "escalate" then EscalateClass else Fixable
  | None => Fixable
  end.
Definition check_display_name (check : value) : string := default "unnamed" (field_str check "name").

Definition no_output : CommandOutput := mkCommandOutput (-1) "" "".
Definition run_or_empty (program : string) (args : list string) (cwd : string) : SD CommandOutput :=
  r <~ run_command program args cwd ;;
  eret (match r with Ok out => out | Err _ => no_output end).
Definition shell_out (command worktree : string) : SD CommandOutput :=
  run_or_empty "sh" ["-c"; command] worktree.

(** ** The check kinds *)

Definition run_command_check (check : value) (worktree : string) : SD CheckResult :=
  let name := check_display_name check in
  let kind := default "command" (field_str check "kind") in
  let command := default "" (field_str check "command") in
  outcome <~ run_command "sh" ["-c"; command] worktree ;;
  match outcome with
  | Ok out =>
      let ok := (cmd_status out =? 0)%Z in
      let output := compact_check_output (cmd_stdout out +:+ cmd_stderr out) in
      let message :=
        if ok then ""
        else match find is_failure_signal_line (lines output) with
             | Some excerpt => "exit code " +:+ pretty (cmd_status out) +:+ ": " +:+ trim excerpt
             | None => "exit code " +:+ pretty (cmd_status out)
             end in
      eret (mkCheckResult name kind ok output message (failure_class_of check))
  | Err err =>
      eret (mkCheckResult name kind false "" ("failed to spawn check: " +:+ err) (failure_class_of check))
  end.

Definition is_glob_char (c : ascii) : bool :=
  Ascii.eqb c "*" || Ascii.eqb c "?" || Ascii.eqb c "[".
Fixpoint has_glob (s : string) : bool :=
  match s with EmptyString => false | String c s => is_glob_char c || has_glob s end.
(** [pattern.replace] of a quote by [escaped_quote] *)
Definition squote : string := "'".
Definition escaped_quote : string := squote +:+ String (ascii_of_nat 92) (squote +:+ squote).
Fixpoint escape_quotes (s : string) : string :=
  match s with
  | EmptyString => ""
  | String c s => (if Ascii.eqb c "'" then escaped_quote else String c "") +:+ escape_quotes s
  end.

Definition scan_rule (worktree : string) (acc : list string * list string) (rule : value)
    : SD (list string * list string) :=
  let '(violations, output_parts) := acc in
  let pattern := default "" (field_str rule "pattern") in
  let paths := default "" (field_str rule "paths") in
  let path_entries := split_whitespace paths in
  match path_entries with
  | [] => eret acc
  | _ =>
      stdout <~ (if existsb has_glob path_entries
                 then out <~ shell_out ("grep -rnE '" +:+ escape_quotes pattern +:+ "' " +:+ paths) worktree ;;
                      eret (cmd_stdout out)
                 else r <~ run_command "grep" ("-rnE" :: pattern :: path_entries) worktree ;;
                      eret (match r with Ok out => cmd_stdout out | Err _ => "" end)) ;;
      let matches := List.filter (fun l => negb (all_whitespace l)) (lines stdout) in
      let matches :=
        match field_str rule "allowlistPattern" ≫= regex_new with
        | Some re => List.filter (fun line => negb (is_some (re line))) matches
        | None => matches
        end in
      eret (violations ++ matches, output_parts ++ [stdout])
  end.

Definition run_forbidden_pattern_scan (check : value) (worktree : string) : SD CheckResult :=
  acc <~ efold (scan_rule worktree) (field_array check "rules") ([], []) ;;
  let '(violations, output_parts) := acc in
  let ok := bool_decide (violations = []) in
  let message := if ok then ""
                 else pretty (length violations) +:+ " forbidden-pattern match(es)" in
  eret (mkCheckResult (check_display_name check) "forbidden-pattern-scan" ok
          (String.concat nl output_parts) message (failure_class_of check)).

(** setup.rs: where the snapshot of a check's baseline is *)
Definition is_alphanumeric (c : ascii) : bool :=
  let b := byte c in
  is_ascii_digit c || ((65 <=? b) && (b <=? 90))%N || ((97 <=? b) && (b <=? 122))%N.
Definition sanitize_path_component (raw : string) : string :=
  let cleaned := String.concat "" (map (fun ch =>
    match ch with
    | String c "" => if is_alphanumeric c || Ascii.eqb c "-" || Ascii.eqb c "_" then ch else "-"
    | _ => "-"
    end) (chars raw)) in
  if String.eqb cleaned "" then "unknown" else cleaned.
Definition baseline_snapshot_path (spec_dir check_name : string) : string :=
  path_join (path_join spec_dir "sdlc") ("baseline-" +:+ sanitize_path_component check_name +:+ ".txt").

Definition POST_IMPLEMENTATION_FALLBACK_NOTE : string :=
  "baseline taken post-implementation (no pre-run snapshot found)".

Definition json_entries (stdout : string) : list value :=
  match json_parse stdout with Ok v => default [] (as_array v) | Err _ => [] end.
Definition entry_key (compare_keys : list string) (entry : value) : list (option string) :=
  map (fun k => json_text <$> jget entry k) compare_keys.

Definition run_baseline_diff (check : value) (worktree spec_dir : string) : SD CheckResult :=
  let name := check_display_name check in
  let compare_keys := omap as_str (field_array check "compareKeys") in
  let baseline_command := default "" (field_str check "baselineCommand") in
  let command := default "" (field_str check "command") in
  let snapshot_path := baseline_snapshot_path spec_dir name in
  let live := out <~ shell_out baseline_command worktree ;; eret (cmd_stdout out, true) in
  there <~ esilent (h_exists snapshot_path) ;;
  baseline <~ (if (there : bool) then
                 r <~ esilent (h_read_to_string snapshot_path) ;;
                 match r with Ok contents => eret (contents, false) | Err _ => live end
               else live) ;;
  let '(baseline_stdout, used_fallback) := baseline in
  current <~ shell_out command worktree ;;
  let current_stdout := cmd_stdout current in
  let baseline_keys := map (entry_key compare_keys) (json_entries baseline_stdout) in
  let new_entries := length (List.filter (fun e => negb (bool_decide (entry_key compare_keys e ∈ baseline_keys)))
                               (json_entries current_stdout)) in
  let ok := (new_entries =? 0)%nat in
  let message :=
    match ok, used_fallback with
    | true, false => ""
    | true, true => POST_IMPLEMENTATION_FALLBACK_NOTE
    | false, false => pretty new_entries +:+ " net-new violation(s)"
    | false, true => pretty new_entries +:+ " net-new violation(s); " +:+ POST_IMPLEMENTATION_FALLBACK_NOTE
    end in
  eret (mkCheckResult name "baseline-diff" ok current_stdout message (failure_class_of check)).

Definition run_count_delta (check : value) (worktree : string) : SD CheckResult :=
  let baseline_count := default 0%Z (jget check "baseline" ≫= as_i64) in
  let command := default "" (field_str check "command") in
  let count_pattern := default "" (field_str check "countPattern") in
  out <~ shell_out command worktree ;;
  let stdout := cmd_stdout out in
  let current_count := default 0%Z
    (re ← regex_new count_pattern; m ← re stdout; w ← head (split_whitespace m); parse_i64 w) in
  let fail_on := default "decrease" (field_str check "failOn") in
  let ok := if String.eqb fail_on "decrease" then (baseline_count <=? current_count)%Z
            else (current_count <=? baseline_count)%Z in
  let message := if ok then ""
                 else "count " +:+ pretty current_count +:+ " vs baseline " +:+ pretty baseline_count
                      +:+ " (" +:+ fail_on +:+ ")" in
  eret (mkCheckResult (check_display_name check) "count-delta" ok stdout message (failure_class_of check)).

Definition run_warning_scan (check : value) (worktree : string) : SD CheckResult :=
  outcome <~ shell_out (default "" (field_str check "command")) worktree ;;
  let combined := cmd_stdout outcome +:+ cmd_stderr outcome in
  let found := List.filter (fun pattern => match regex_new pattern with
                                           | Some re => is_some (re combined) | None => false end)
                 (omap as_str (field_array check "warningPatterns")) in
  let gates := default false (field_bool check "gates") in
  let ok := negb gates || bool_decide (found = []) in
  let message := if bool_decide (found = []) then ""
                 else "warning pattern(s) matched: " +:+ debug_strs found in
  eret (mkCheckResult (check_display_name check) "warning-scan" ok combined message (failure_class_of check)).

Definition run_unsupported_kind (check : value) (kind : string) : CheckResult :=
  mkCheckResult (check_display_name check) kind false ""
    ("check kind " +:+ debug_str kind
     +:+ " is not yet supported by TestTaskNode (TODO(EN.3.B+): richer harness kinds)")
    (failure_class_of check).

(** ** The suite *)

Definition check_kind_of (check : value) : string := default "command" (field_str check "kind").
Definition run_check (check : value) (worktree spec_dir : string) : SD CheckResult :=
  let kind := check_kind_of check in
  if String.eqb kind "command" then run_command_check check worktree
  else if String.eqb kind "forbidden-pattern-scan" then run_forbidden_pattern_scan check worktree
  else if String.eqb kind "baseline-diff" then run_baseline_diff check worktree spec_dir
  else if String.eqb kind "count-delta" then run_count_delta check worktree
  else if String.eqb kind "warning-scan" then run_warning_scan check worktree
  else eret (run_unsupported_kind check kind).

Definition is_disabled (check : value) : bool := bool_decide (field_bool check "enabled" = Some false).
Definition gates_of (check : value) : bool := default true (field_bool check "gates").

(** The body of the loop of [run_checks]. *)
Definition run_one (worktree spec_dir : string) (acc : list CheckResult * list string) (check : value)
    : SD (list CheckResult * list string) :=
  let '(results, failed_names) := acc in
  if is_disabled check then eret acc
  else
    result <~ run_check check worktree spec_dir ;;
    let failed_names := if gates_of check && negb (passed result)
                        then failed_names ++ [check_name result] else failed_names in
    eret (results ++ [result], failed_names).
Definition run_checks (checks : list value) (worktree spec_dir : string)
    : SD (list CheckResult * list string) :=
  efold (run_one worktree spec_dir) checks ([], []).

Record CheckSelection := mkCheckSelection {
  sel_source : string; sel_depth : TestDepth; excluded : list string }.

Definition synthesized_check (i : nat) (cmd : string) : value :=
  json_object [("name", jstr ("task-validation-" +:+ pretty (i + 1)%nat)); ("kind", jstr "command");
               ("command", jstr cmd); ("gates", jbool true)].
Definition nonempty (s : string) : option string := if String.eqb s "" then None else Some s.
Definition substituted (depth : TestDepth) (check : value) : value :=
  match depth with
  | Fast => match field_str check "fastCommand" ≫= nonempty with
            | Some c => if is_object check then jset check "command" (jstr c) else check
            | None => check
            end
  | Full => check
  end.
Definition drops (apply_per_task_filter : bool) (check : value) : bool :=
  is_disabled check
  || apply_per_task_filter && bool_decide (field_bool check "perTask" = Some false).

Fixpoint select_loop (depth : TestDepth) (per_task : bool) (checks : list value)
    : list value * list string :=
  match checks with
  | [] => ([], [])
  | check :: checks =>
      let '(selected, dropped) := select_loop depth per_task checks in
      if drops per_task check then (selected, default "" (field_str check "name") :: dropped)
      else (substituted depth check :: selected, dropped)
  end.
Definition select_task_checks (harness_checks : list value) (task_validation_commands : list string)
    (depth : TestDepth) (apply_per_task_filter : bool) : list value * CheckSelection :=
  match task_validation_commands with
  | _ :: _ => (imap synthesized_check task_validation_commands,
               mkCheckSelection "task_validation_commands" depth [])
  | [] =>
      let '(selected, excluded) := select_loop depth apply_per_task_filter harness_checks in
      (selected, mkCheckSelection "harness" depth excluded)
  end.

(** ** What the worktree shows *)

Definition tab : ascii := ascii_of_nat 9.
Definition porcelain_path (line : string) : option string :=
  if (String.length line <=? 3)%nat then None
  else
    rest ← nonempty (trim (str_drop 3 line));
    path ← nonempty (trim (after_last " -> " rest));
    Some (trim_matches (ascii_of_nat 34) path).
Definition porcelain_entry (line : string) : option (string * string) :=
  pair (String.substring 0 2 line) <$> porcelain_path line.

Definition changed_files_with_status (worktree : string) : SD (list (string * string)) :=
  out <~ run_or_empty "git" ["status"; "--porcelain"] worktree ;;
  eret (omap porcelain_entry (lines (cmd_stdout out))).
Definition git_worktree_changed_files (worktree : string) : SD (list string) :=
  out <~ run_or_empty "git" ["status"; "--porcelain"] worktree ;;
  eret (omap porcelain_path (lines (cmd_stdout out))).

Definition git_worktree_head_sha (worktree : string) : SD (option string) :=
  r <~ run_command "git" ["rev-parse"; "HEAD"] worktree ;;
  eret (match r with
        | Ok out => if (cmd_status out =? 0)%Z then nonempty (trim (cmd_stdout out)) else None
        | Err _ => None
        end).

Definition git_files_changed_since (worktree : string) (pre_call_sha : option string)
    : SD (list string) :=
  match pre_call_sha with
  | None => eret []
  | Some sha =>
      out <~ run_or_empty "git" ["diff"; "--name-only"; sha; "HEAD"] worktree ;;
      eret (omap (fun l => nonempty (trim l)) (lines (cmd_stdout out)))
  end.

Definition name_status_entry (line : string) : option (string * string) :=
  match split_at tab line with
  | [] => None
  | raw :: fields =>
      raw_status ← nonempty (trim raw);
      path ← last fields ≫= (fun p => nonempty (trim p));
      Some (default "" (head (chars raw_status)), path)
  end.
Definition git_files_changed_since_with_status (worktree : string) (pre_call_sha : option string)
    : SD (list (string * string)) :=
  match pre_call_sha with
  | None => eret []
  | Some sha =>
      out <~ run_or_empty "git" ["diff"; "--name-status"; sha; "HEAD"] worktree ;;
      eret (omap name_status_entry (lines (cmd_stdout out)))
  end.

Definition guard_failure (message : string) : CheckResult :=
  mkCheckResult "write-verification" "write-verification" false "" message Fixable.

(** The three conditions on the changed paths, and the messages. *)
Definition judge_changes (task : SDLCTask) (claimed : list string) (since_call : bool)
    (changed_with_status : list (string * string)) : option CheckResult :=
  let changed := map snd changed_with_status in
  match changed with
  | [] =>
      let claim := match claimed with
                   | [] => "ImplementTaskNode claimed no modified_files"
                   | _ => "ImplementTaskNode claimed modified_files " +:+ debug_strs claimed
                   end in
      let evidence_source := if since_call then "git diff --name-status against the pre-call HEAD"
                             else "git status --porcelain" in
      Some (guard_failure
        (claim +:+ " and the worktree shows no changes at all (" +:+ evidence_source
         +:+ " reported nothing) — task " +:+ pretty (task_id task)
         +:+ " is expected to write, so an unchanged worktree means the implement work never reached this tree. Harness checks passing against an untouched checkout say nothing about this task. If this task is genuinely investigation-only, declare "
         +:+ dquote +:+ "expects_writes" +:+ dquote +:+ ": false on it in tasks.json."))
  | _ =>
      match find (fun e => contains_char "D" e.1 && negb (bool_decide (e.2 ∈ task_files task)))
              changed_with_status with
      | Some (_, deleted_path) =>
          Some (guard_failure
            ("task " +:+ pretty (task_id task) +:+ " deleted '" +:+ deleted_path
             +:+ "', a path it never declared in tasks.json's files[] (" +:+ debug_strs (task_files task)
             +:+ ") — a task deleting a file it did not declare is the shape of one task destroying another's work. If this deletion is intentional, add '"
             +:+ deleted_path +:+ "' to this task's files[]."))
      | None =>
          if negb (bool_decide (task_files task = []))
             && negb (existsb (fun path => bool_decide (path ∈ task_files task)) changed)
          then Some (guard_failure
            ("task " +:+ pretty (task_id task) +:+ " declared files[] " +:+ debug_strs (task_files task)
             +:+ " but the worktree's changed paths are " +:+ debug_strs changed
             +:+ " — none of the declared files were touched. A non-empty diff is not enough; the diff must intersect what this task said it would do."))
          else None
      end
  end.

Definition since_sha (ctx : SdlcCtx X) : option string :=
  i ← r_implement ctx;
  match task_base_sha i with Some s => Some s | None => pre_call_sha i end.

Definition verify_claimed_writes (ctx : SdlcCtx X) (task : SDLCTask) (worktree : string)
    : SD (option CheckResult) :=
  if negb (expects_writes task) then eret None
  else
    let pre_call_sha := since_sha ctx in
    changed <~ (match pre_call_sha with
                | Some _ => git_files_changed_since_with_status worktree pre_call_sha
                | None => changed_files_with_status worktree
                end) ;;
    eret (judge_changes task (default [] (modified_files <$> r_implement ctx))
            (is_some pre_call_sha) changed).

(** ** The node *)

Definition DEFAULT_REPO_SLUG : string := "engine-rs".

Definition resolve_harness_path (ctx : SdlcCtx X) (worktree : string) : SD string :=
  let repo_path := path_join (path_join worktree "planning") "harness.json" in
  match ev_spec_slug ctx with
  | Some slug =>
      let per_spec_path := path_join (path_join (path_join worktree "planning") slug) "harness.json" in
      there <~ esilent (h_exists per_spec_path) ;;
      eret (if (there : bool) then per_spec_path else repo_path)
  | None => eret repo_path
  end.

(** The checks of a harness file, and whether there is one. *)
Definition load_harness_checks (path : string) : SD (result (bool * list value) NodeError) :=
  there <~ esilent (h_exists path) ;;
  if (there : bool) then
    r <~ esilent (h_read_to_string path) ;;
    match r with
    | Err err => eret (Err (NodeError_new ("failed to read " +:+ path +:+ ": " +:+ err)))
    | Ok raw =>
        match json_parse raw with
        | Err err => eret (Err (NodeError_new ("failed to parse " +:+ path +:+ ": " +:+ err)))
        | Ok harness =>
            eret (Ok (true, default [] (v ← jget harness "validation"; c ← jget v "checks"; as_array c)))
        end
    end
  else eret (Ok (false, [])).

Definition finish_test (guard : option CheckResult) (check_results : list CheckResult)
    (failed_names : list string) (selection : CheckSelection) (heavy : HeavyMeta) : TestResult :=
  let '(check_results, failed_names) :=
    match guard with
    | Some g => (g :: check_results, check_name g :: failed_names)
    | None => (check_results, failed_names)
    end in
  let all_passed := bool_decide (failed_names = []) in
  let failure_summary := if all_passed then ""
                         else "Failed checks: " +:+ String.concat ", " failed_names in
  TestRan all_passed check_results failure_summary (sel_depth selection) (sel_source selection)
    (excluded selection) heavy.

Definition harness_missing (path : string) (id : Z) : CheckResult :=
  mkCheckResult "harness-missing" "harness-missing" false ""
    ("no planning/harness.json found at " +:+ path +:+ " and task " +:+ pretty id
     +:+ " declares no validation_commands: nothing to validate against, so this is a gating failure rather than a silent pass")
    Fixable.

Definition queue_park_active (policy : SdlcPolicy) (class : string) : bool :=
  bool_decide (test_dispatch policy = QueuePark) && h_class_configured class.

Definition TestTaskNode_process (ctx : SdlcCtx X) : SD (result (SdlcCtx X) NodeError) :=
  worktree <~? eret (worktree_path ctx) ;;
  let spec_dir := spec_dir_for_baseline ctx worktree in
  policy <~? eret (resolved_policy ctx) ;;
  let depth := test_depth policy in
  current <~? eret (current_task_fields ctx) ;;
  task <~? eret (current_task_state ctx "TestTaskNode") ;;
  guard <~ verify_claimed_writes ctx task worktree ;;
  harness_path <~ resolve_harness_path ctx worktree ;;
  harness <~? load_harness_checks harness_path ;;
  let '(harness_exists, harness_checks) := harness in
  let repo := default DEFAULT_REPO_SLUG (ev_repo ctx) in
  if negb harness_exists && bool_decide (validation_commands task = []) then
    let result := harness_missing harness_path (current_task_id current) in
    eret (Ok (put_test (finish_test guard [result] [check_name result] (mkCheckSelection "harness" depth [])
                          (mkHeavyMeta "disabled" None "test" 0 false)) ctx))
  else
    let '(selected_checks, selection) :=
      select_task_checks harness_checks (validation_commands task) depth true in
    let job := mkCheckJob "test" repo worktree (omap (fun c => field_str c "command") selected_checks) in
    if queue_park_active policy "test" then
      job_id <~ esilent h_new_v4 ;;
      elog (SubmittedJob job_id job) ;~
      esilent (h_submit job_id job) ;~
      eret (Ok (park job_id (put_test (TestQueued job_id guard) ctx)))
    else
      meta <~ esilent (h_admit job) ;;
      out <~ run_checks selected_checks worktree spec_dir ;;
      let '(results, failed) := out in
      esilent (h_record job (bool_decide (failed = [])) results) ;~
      eret (Ok (put_test (finish_test guard results failed selection meta) ctx)).
End Checks.

(** * Facts *)

Section Facts.
Context {X : Extern} {HX : ExternLaws X} {H : Host X} {UC : UnicodeCase} {RF : RustFmt} {CL : CheckLibs X}.

(** ** Selection *)

Lemma field_str_set check k v k' :
  kind check = KObject ->
  field_str (jset check k (jstr v)) k' = if String.eqb k k' then Some v else field_str check k'.
Proof.
  intros Hk. unfold field_str. rewrite jget_set by done. destruct (String.eqb k k'); [|done].
  cbn. apply as_str_str.
Qed.

Lemma select_loop_spec depth per_task harness :
  let '(selected, dropped) := select_loop depth per_task harness in
  selected = map (substituted depth) (List.filter (fun c => negb (drops per_task c)) harness) /\
  dropped = map (fun c => default "" (field_str c "name")) (List.filter (drops per_task) harness).
Proof.
  induction harness as [|c l IH]; cbn; [done|]. destruct (select_loop depth per_task l) as [s d].
  destruct IH as [-> ->]. by destruct (drops per_task c).
Qed.

(** A task's own validation commands are the whole selection, verbatim and
    gating; otherwise the harness's checks are kept in order, less the disabled
    ones and, per task, those that opt out, whose names are the record of what
    was dropped.  At depth fast a check's fast command replaces its command and
    nothing else of it. *)
Theorem select_task_checks_spec harness cmds depth per_task :
  let '(selected, sel) := select_task_checks harness cmds depth per_task in
  sel_depth sel = depth /\
  (cmds <> [] -> map (fun c => (field_str c "command", gates_of c, check_kind_of c)) selected
                 = map (fun cmd => (Some cmd, true, "command")) cmds /\
                 excluded sel = [] /\ Forall (fun c => is_disabled c = false) selected) /\
  (cmds = [] -> selected = map (substituted depth) (List.filter (fun c => negb (drops per_task c)) harness) /\
                excluded sel = map (fun c => default "" (field_str c "name"))
                                 (List.filter (drops per_task) harness)) /\
  (forall c cmd, kind c = KObject -> field_str c "fastCommand" = Some cmd -> cmd <> "" ->
     field_str (substituted Fast c) "command" = Some cmd /\
     forall k, k <> "command" -> jget (substituted Fast c) k = jget c k).
Proof.
  assert (Hfast : forall c cmd, kind c = KObject -> field_str c "fastCommand" = Some cmd -> cmd <> "" ->
     field_str (substituted Fast c) "command" = Some cmd /\
     forall k, k <> "command" -> jget (substituted Fast c) k = jget c k).
  { intros c cmd Hk E Hne. unfold substituted. rewrite E. cbn [mbind option_bind].
    unfold nonempty. rewrite (proj2 (String.eqb_neq _ _) Hne), (proj2 (is_object_true c) Hk).
    split; [by rewrite field_str_set|]. intros k Hne'. rewrite jget_set by done.
    by destruct (String.eqb_spec "command" k) as [<-|]. }
  destruct cmds as [|cmd cmds]; cbn [select_task_checks].
  - pose proof (select_loop_spec depth per_task harness) as Hs.
    destruct (select_loop depth per_task harness) as [selected dropped].
    split; [done|]. split; [done|]. split; [|exact Hfast]. by intros _.
  - split; [done|]. split; [|split; [done|exact Hfast]]. intros _. split; [|split; [done|]].
    + apply list_eq. intros k. change (@map) with (@list_fmap).
      rewrite (list_lookup_fmap _ (imap _ _)), list_lookup_imap, list_lookup_fmap.
      destruct ((cmd :: cmds) !! k) as [c|]; [|done]. cbn [fmap option_fmap option_map]. f_equal.
      unfold gates_of, check_kind_of, field_bool, field_str, synthesized_check.
      rewrite !jget_json_object. cbn. by rewrite !as_str_str, as_bool_bool.
    + apply Forall_forall. intros c (i & cmd' & -> & _)%elem_of_lookup_imap.
      unfold is_disabled, field_bool, synthesized_check. by rewrite jget_json_object.
Qed.

(** ** The suite *)

(** Each check run after the previous one, in the state it left. *)
Fixpoint checks_ran (worktree spec_dir : string) (checks : list value) (w : HW)
    (results : list CheckResult) (w' : HW) (t : list (SdlcEvent X)) : Prop :=
  match checks, results with
  | [], [] => w' = w /\ t = []
  | c :: checks, r :: results =>
      exists w1 t1 t2, run_check c worktree spec_dir w = (r, w1, t1) /\ t = t1 ++ t2 /\
        checks_ran worktree spec_dir checks w1 results w' t2
  | _, _ => False
  end.
Definition failed_of (checks : list value) (results : list CheckResult) : list string :=
  omap (fun cr => if gates_of cr.1 && negb (passed cr.2) then Some (check_name cr.2) else None)
    (zip checks results).
Definition enabled (checks : list value) : list value :=
  List.filter (fun c => negb (is_disabled c)) checks.

Lemma run_checks_from worktree spec_dir checks acc w out w' t :
  efold (run_one worktree spec_dir) checks acc w = (out, w', t) ->
  exists results, out = (acc.1 ++ results, acc.2 ++ failed_of (enabled checks) results) /\
    checks_ran worktree spec_dir (enabled checks) w results w' t.
Proof.
  revert acc w t. induction checks as [|c checks IH]; intros [rs fs] w t E.
  - apply eret_inv in E as (-> & -> & ->). exists []. cbn. by rewrite !app_nil_r.
  - cbn [efold] in E. apply ebind_inv in E as (acc & w1 & t1 & t2 & E1 & E2 & ->).
    cbn [run_one] in E1. unfold enabled. cbn [List.filter]. destruct (is_disabled c) eqn:Ed.
    + apply eret_inv in E1 as (-> & -> & ->). by apply IH in E2.
    + apply ebind_inv in E1 as (r & w2 & u1 & u2 & Er & E1 & ->). apply eret_inv in E1 as (-> & -> & ->).
      apply IH in E2 as (results & -> & Hran). exists (r :: results). cbn [fst snd negb]. split.
      * unfold failed_of. cbn [zip zip_with omap list_omap fst snd].
        destruct (gates_of c && negb (passed r)); by rewrite <- !app_assoc.
      * cbn [checks_ran]. rewrite app_nil_r. eauto 6.
Qed.

Lemma checks_ran_length wt sd cs w rs w' t : checks_ran wt sd cs w rs w' t -> length rs = length cs.
Proof.
  revert w rs t. induction cs as [|c cs IH]; intros w [|r rs] t; cbn; try done.
  intros (w1 & t1 & t2 & _ & _ & Hr). f_equal. by eapply IH.
Qed.

(** The suite runs exactly the enabled checks, one after the other; it
    reports as failed the gating ones among them that did not pass, in order. *)
Theorem run_checks_spec checks worktree spec_dir w results failed w' t :
  run_checks checks worktree spec_dir w = ((results, failed), w', t) <->
  checks_ran worktree spec_dir (enabled checks) w results w' t /\
  failed = failed_of (enabled checks) results.
Proof.
  destruct (run_checks checks worktree spec_dir w) as [[[rs fs] w2] t2] eqn:E.
  apply run_checks_from in E as (rs' & [= -> ->] & Hran). split; [by intros [= <- <- <- <-]|].
  intros [Hran' ->].
  assert (Hdet : forall cs w rs rs' w1 w2 t1 t2, checks_ran worktree spec_dir cs w rs w1 t1 ->
            checks_ran worktree spec_dir cs w rs' w2 t2 -> rs = rs' /\ w1 = w2 /\ t1 = t2).
  { clear. induction cs as [|c cs IH]; intros w [|r rs] [|r' rs'] w1 w2 t1 t2; cbn; try done.
    - by intros [-> ->] [-> ->].
    - intros (u & a & b & E1 & -> & H1) (u' & a' & b' & E2 & -> & H2). rewrite E1 in E2.
      injection E2 as <- <- <-. by destruct (IH _ _ _ _ _ _ _ H1 H2) as (-> & -> & ->). }
  by destruct (Hdet _ _ _ _ _ _ _ _ Hran Hran') as (-> & -> & ->).
Qed.

Lemma failed_of_nil cs rs :
  length rs = length cs ->
  failed_of cs rs = [] <-> Forall2 (fun c r => gates_of c = true -> passed r = true) cs rs.
Proof.
  revert rs. induction cs as [|c cs IH]; intros [|r rs] Hl; try done.
  unfold failed_of. cbn [zip zip_with omap list_omap fst snd]. rewrite Forall2_cons. injection Hl as Hl.
  specialize (IH rs Hl). unfold failed_of in IH. rewrite <- IH.
  destruct (gates_of c), (passed r); cbn; naive_solver.
Qed.

(** ** The guard *)

(** The write guard lets a task through exactly when the worktree shows a
    change, every deleted path was declared, and a declared file, if any was
    declared, was touched. *)
Theorem judge_changes_spec task claimed since changed :
  judge_changes task claimed since changed = None <->
  changed <> [] /\
  (forall st p, (st, p) ∈ changed -> contains_char "D" st = true -> p ∈ task_files task) /\
  (task_files task <> [] -> exists st p, (st, p) ∈ changed /\ p ∈ task_files task).
Proof.
  unfold judge_changes. destruct changed as [|[st0 p0] changed]; cbn [map]; [split; [done|by intros []]|].
  change (p0 :: map snd changed) with (map snd ((st0, p0) :: changed)).
  set (l := (st0, p0) :: changed). destruct (find _ l) as [[st p]|] eqn:E.
  - split; [done|]. intros (_ & Hd & _). apply find_some in E as [Hin E]. cbn [fst snd] in E.
    apply andb_true_iff in E as [E1 E2]. apply negb_true_iff, bool_decide_eq_false in E2.
    exfalso. apply E2, (Hd st); [by apply list_elem_of_In|done].
  - assert (Hd : forall st p, (st, p) ∈ l -> contains_char "D" st = true -> p ∈ task_files task).
    { intros st p Hin Hc. pose proof (find_none _ _ E (st, p)) as Hn. cbn [fst snd] in Hn.
      rewrite Hc in Hn. specialize (Hn (proj1 (list_elem_of_In _ _) Hin)).
      cbn [andb] in Hn. apply negb_false_iff, bool_decide_eq_true in Hn. done. }
    assert (Ht : existsb (fun path => bool_decide (path ∈ task_files task)) (map snd l) = true <->
                 exists st p, (st, p) ∈ l /\ p ∈ task_files task).
    { rewrite existsb_exists. setoid_rewrite in_map_iff. setoid_rewrite <- list_elem_of_In.
      setoid_rewrite bool_decide_eq_true. split.
      - intros (p & ([st q] & <- & Hin) & Hp). eauto.
      - intros (st & p & Hin & Hp). eauto. }
    destruct (bool_decide_reflect (task_files task = [])) as [Hf|Hf]; cbn [negb andb].
    + split; [|done]. intros _. split_and!; [done|exact Hd|done].
    + destruct (existsb _ _); cbn [negb]; (split; [|naive_solver]); intros ?; [|done].
      split_and!; [done|exact Hd|naive_solver].
Qed.

(** A verdict of the guard is a gating failure under its own name. *)
Lemma judge_changes_name task claimed since changed g :
  judge_changes task claimed since changed = Some g ->
  check_name g = "write-verification" /\ passed g = false.
Proof. unfold judge_changes. intros E. repeat case_match; by simplify_eq. Qed.

(** The write guard lets a task through, in the world [w]: the task does not
    expect to write, or git shows a change, every deleted path was declared, and
    a declared file, if any was declared, was touched. *)
Definition guard_passed (ctx : SdlcCtx X) (task : SDLCTask) (worktree : string) (w w' : HW) : Prop :=
  if expects_writes task then
    exists outcome changed,
      match since_sha ctx with
      | Some sha => h_run "git" ["diff"; "--name-status"; sha; "HEAD"] worktree w = (outcome, w') /\
          changed = omap name_status_entry (lines (match outcome with Ok out => cmd_stdout out | Err _ => "" end))
      | None => h_run "git" ["status"; "--porcelain"] worktree w = (outcome, w') /\
          changed = omap porcelain_entry (lines (match outcome with Ok out => cmd_stdout out | Err _ => "" end))
      end /\
      changed <> [] /\
      (forall st p, (st, p) ∈ changed -> contains_char "D" st = true -> p ∈ task_files task) /\
      (task_files task <> [] -> exists st p, (st, p) ∈ changed /\ p ∈ task_files task)
  else w' = w.

Lemma run_command_inv program args cwd w r w' t :
  run_command program args cwd w = (r, w', t) -> h_run program args cwd w = (r, w') /\ t = [RanCommand program args cwd].
Proof.
  unfold run_command. intros (u & w1 & t1 & t2 & E1 & E & ->)%ebind_inv. apply elog_inv in E1 as [-> ->].
  by apply esilent_inv in E as [E ->].
Qed.
Lemma run_or_empty_inv program args cwd w out w' t :
  run_or_empty program args cwd w = (out, w', t) ->
  exists r, h_run program args cwd w = (r, w') /\ cmd_stdout out = match r with Ok o => cmd_stdout o | Err _ => "" end.
Proof.
  intros (r & w1 & t1 & t2 & E1 & E & ->)%ebind_inv. apply run_command_inv in E1 as [E1 _].
  apply eret_inv in E as (-> & -> & _). exists r. split; [done|]. by destruct r.
Qed.
Lemma verify_passed ctx task worktree w w' t :
  verify_claimed_writes ctx task worktree w = (None, w', t) -> guard_passed ctx task worktree w w'.
Proof.
  unfold verify_claimed_writes, guard_passed. destruct (expects_writes task); cbn [negb];
    [|intros E; by apply eret_inv in E as (_ & -> & _)].
  intros (changed & w1 & t1 & t2 & E1 & E2 & _)%ebind_inv.
  apply eret_inv in E2 as (E2 & -> & _). symmetry in E2. apply judge_changes_spec in E2.
  destruct (since_sha ctx) as [sha|]; unfold changed_files_with_status in E1; cbn [git_files_changed_since_with_status] in E1;
    apply ebind_inv in E1 as (out & w2 & t3 & t4 & E1 & E3 & _); apply run_or_empty_inv in E1 as (r & E1 & Hr);
    apply eret_inv in E3 as (-> & -> & _); rewrite Hr in E2; exists r; eexists; (split; [split; [exact E1|reflexivity]|exact E2]).
Qed.

(** ** The harness, and a suite that passes *)

Definition harness_at (ctx : SdlcCtx X) (worktree : string) (w : HW) (path : string) (w' : HW) : Prop :=
  let repo_path := path_join (path_join worktree "planning") "harness.json" in
  match ev_spec_slug ctx with
  | Some slug => exists there,
      let spec_path := path_join (path_join (path_join worktree "planning") slug) "harness.json" in
      h_exists spec_path w = (there, w') /\ path = if there : bool then spec_path else repo_path
  | None => path = repo_path /\ w' = w
  end.
Definition harness_loaded (path : string) (w : HW) (there : bool) (checks : list value) (w' : HW) : Prop :=
  exists w1, h_exists path w = (there, w1) /\
    if there then exists raw harness, h_read_to_string path w1 = (Ok raw, w') /\ json_parse raw = Ok harness /\
      checks = default [] (v ← jget harness "validation"; c ← jget v "checks"; as_array c)
    else checks = [] /\ w' = w1.

Lemma resolve_harness_spec ctx worktree w path w' t :
  resolve_harness_path ctx worktree w = (path, w', t) -> harness_at ctx worktree w path w' /\ t = [].
Proof.
  unfold resolve_harness_path, harness_at. destruct (ev_spec_slug ctx) as [slug|]; intros E; inv_effs; [|done].
  split; [|done]. by exists a.
Qed.
Lemma load_harness_spec path w there checks w' t :
  load_harness_checks path w = (Ok (there, checks), w', t) -> harness_loaded path w there checks w' /\ t = [].
Proof.
  unfold load_harness_checks, harness_loaded. intros (b & w1 & t1 & t2 & E1 & E & ->)%ebind_inv.
  apply esilent_inv in E1 as [Ex ->]. destruct b.
  - apply ebind_inv in E as (r & w2 & t3 & t4 & E2 & E & ->). apply esilent_inv in E2 as [Er ->].
    destruct r as [raw|err]; [|by apply eret_inv in E as ([=] & _)].
    destruct (json_parse raw) as [harness|err] eqn:Ep; [|by apply eret_inv in E as ([=] & _)].
    apply eret_inv in E as ([= -> ->] & -> & ->). split; [|done]. exists w1. split; [done|]. by exists raw, harness.
  - apply eret_inv in E as ([= -> ->] & -> & ->). split; [|done]. by exists w1.
Qed.

(** Each check run after the previous one, in the world it left; a command
    passes exactly when the shell, run in the worktree, exits with 0. *)
Fixpoint suite_ran (worktree spec_dir : string) (checks : list value) (w : HW)
    (results : list CheckResult) (w' : HW) (t : list (SdlcEvent X)) : Prop :=
  match checks, results with
  | [], [] => w' = w /\ t = []
  | c :: checks, r :: results =>
      exists w1 t1 t2, run_check c worktree spec_dir w = (r, w1, t1) /\ t = t1 ++ t2 /\
        (default "command" (field_str c "kind") = "command" -> exists outcome,
           h_run "sh" ["-c"; default "" (field_str c "command")] worktree w = (outcome, w1) /\
           t1 = [RanCommand "sh" ["-c"; default "" (field_str c "command")] worktree] /\
           (passed r = true <-> exists out, outcome = Ok out /\ cmd_status out = 0%Z)) /\
        suite_ran worktree spec_dir checks w1 results w' t2
  | _, _ => False
  end.
(** Every check that gates (one that does not say otherwise) passed. *)
Definition gating_passed (checks : list value) (results : list CheckResult) : Prop :=
  Forall2 (fun c r => default true (field_bool c "gates") = true -> passed r = true) checks results.
Definition suite_passed worktree spec_dir checks w results w' t : Prop :=
  suite_ran worktree spec_dir checks w results w' t /\ gating_passed checks results.

Lemma run_check_command c worktree spec_dir w r w' t :
  default "command" (field_str c "kind") = "command" -> run_check c worktree spec_dir w = (r, w', t) ->
  exists outcome, h_run "sh" ["-c"; default "" (field_str c "command")] worktree w = (outcome, w') /\
    t = [RanCommand "sh" ["-c"; default "" (field_str c "command")] worktree] /\
    (passed r = true <-> exists out, outcome = Ok out /\ cmd_status out = 0%Z).
Proof.
  intros Hk. unfold run_check, check_kind_of. rewrite Hk. cbn [String.eqb Ascii.eqb Bool.eqb]. intros E.
  change (run_command_check c worktree w = (r, w', t)) in E. unfold run_command_check in E.
  apply ebind_inv in E as (outcome & w1 & t1 & t2 & E1 & E & ->). apply run_command_inv in E1 as [Eo ->].
  exists outcome. destruct outcome as [out|err]; apply eret_inv in E as (-> & -> & ->); (split; [done|]); (split; [done|]).
  - cbn [passed]. rewrite Z.eqb_eq. naive_solver.
  - cbn [passed]. naive_solver.
Qed.

Lemma checks_suite_ran worktree spec_dir checks w results w' t :
  checks_ran worktree spec_dir checks w results w' t ->
  suite_ran worktree spec_dir checks w results w' t /\ (failed_of checks results = [] <-> gating_passed checks results).
Proof.
  intros Hran. split; [|apply failed_of_nil; by eapply checks_ran_length].
  revert w results t Hran. induction checks as [|c checks IH]; intros w [|r results] t; cbn [checks_ran suite_ran]; try done.
  intros (w1 & t1 & t2 & Er & -> & Hran). exists w1, t1, t2. split; [done|]. split; [done|].
  split; [|by apply IH]. intros Hk. by eapply run_check_command.
Qed.

(** ** The node *)

(** What the node leaves, and what it looked at on the way. *)
Lemma test_process_shape ctx w r w' t :
  TestTaskNode_process ctx w = (Ok r, w', t) ->
  exists worktree policy task, worktree_path ctx = Ok worktree /\ resolved_policy ctx = Ok policy /\
    current_task_state ctx "TestTaskNode" = Ok task /\
    exists guard,
    ((exists id job, r = park id (put_test (TestQueued id guard) ctx) /\
        queue_park_active policy "test" = true /\ SubmittedJob id job ∈ t) \/
     (exists path id meta, validation_commands task = [] /\
        r = put_test (finish_test guard [harness_missing path id] ["harness-missing"]
                        (mkCheckSelection "harness" (test_depth policy) []) meta) ctx) \/
     (exists harness selected sel meta w1 results w2 t2,
        select_task_checks harness (validation_commands task) (test_depth policy) true = (selected, sel) /\
        checks_ran worktree (spec_dir_for_baseline ctx worktree) (enabled selected) w1 results w2 t2 /\
        r = put_test (finish_test guard results (failed_of (enabled selected) results) sel meta) ctx)).
Proof.
  unfold TestTaskNode_process. intros E.
  apply try_eret_inv in E as [(e & _ & [=])|(worktree & Hwt & E)].
  apply try_eret_inv in E as [(e & _ & [=])|(policy & Hp & E)].
  apply try_eret_inv in E as [(e & _ & [=])|(current & Hc & E)].
  apply try_eret_inv in E as [(e & _ & [=])|(task & Ht & E)].
  exists worktree, policy, task. split; [done|]. split; [done|]. split; [done|].
  apply ebind_inv in E as (guard & w1 & t1 & t2 & Hg & E & ->). exists guard.
  apply ebind_inv in E as (path & w2 & t3 & t4 & _ & E & ->).
  apply try_bind_inv in E as [(e & _ & [=])|([there harness] & w3 & t5 & t6 & _ & E & ->)].
  destruct (negb there && bool_decide (validation_commands task = [])) eqn:Em.
  - apply eret_inv in E as ([= ->] & _ & _). right; left.
    apply andb_true_iff in Em as [_ Em%bool_decide_eq_true]. eauto 6.
  - destruct (select_task_checks _ _ _ _) as [selected sel] eqn:Es.
    destruct (queue_park_active policy "test") eqn:Eq.
    + left. apply ebind_inv in E as (id & w4 & t7 & t8 & _ & E & ->).
      apply ebind_inv in E as (u & w5 & t9 & t10 & Hl & E & ->). apply elog_inv in Hl as [-> ->].
      apply ebind_inv in E as (u' & w6 & t11 & t12 & _ & E & ->). apply eret_inv in E as ([= ->] & _ & _).
      eexists id, _. split; [reflexivity|]. split; [done|]. do 4 (apply elem_of_app; right). left.
    + right; right. apply ebind_inv in E as (meta & w4 & t7 & t8 & _ & E & ->).
      apply ebind_inv in E as ([results failed] & w5 & t9 & t10 & Hr & E & ->).
      apply run_checks_spec in Hr as [Hr ->].
      apply ebind_inv in E as (u & w6 & t11 & t12 & _ & E & ->). apply eret_inv in E as ([= ->] & _ & _).
      exists harness, selected, sel, meta, w4, results, w5, t9. done.
Qed.

(** The suite of a task: what is selected is run, whole. *)
Lemma disabled_substituted depth c : is_disabled (substituted depth c) = is_disabled c.
Proof.
  unfold substituted, is_disabled, field_bool. destruct depth; try done.
  destruct (field_str c "fastCommand" ≫= nonempty) as [f|]; [|done].
  destruct (is_object c) eqn:Eo; [|done]. by rewrite jget_set by (by apply is_object_true).
Qed.
Lemma filter_id {A} (f : A -> bool) l : Forall (fun x => f x = true) l -> List.filter f l = l.
Proof. induction 1 as [|x l Hx _ IH]; [done|]. cbn. by rewrite Hx, IH. Qed.
Lemma selected_suite harness cmds depth selected sel :
  select_task_checks harness cmds depth true = (selected, sel) ->
  enabled selected =
  match cmds with
  | [] => map (substituted depth)
            (List.filter (fun c => negb (bool_decide (field_bool c "enabled" = Some false))
                                   && negb (bool_decide (field_bool c "perTask" = Some false))) harness)
  | cmds => imap (fun i cmd => json_object
              [("name", jstr ("task-validation-" +:+ pretty (i + 1)%nat)); ("kind", jstr "command");
               ("command", jstr cmd); ("gates", jbool true)]) cmds
  end.
Proof.
  intros Es. pose proof (select_task_checks_spec harness cmds depth true) as Hs. rewrite Es in Hs.
  destruct Hs as (_ & Hcmds & Hnil & _). destruct cmds as [|cmd cmds].
  - destruct (Hnil eq_refl) as [-> _]. unfold enabled. rewrite filter_id.
    { f_equal. apply filter_ext. intros c. unfold drops, is_disabled. cbn [andb]. by rewrite negb_orb. }
    apply Forall_forall. intros c (c0 & <- & Hin)%list_elem_of_In%in_map_iff.
    apply filter_In in Hin as [_ Hd]. rewrite disabled_substituted. unfold drops in Hd. cbn [andb] in Hd.
    rewrite negb_orb in Hd. by apply andb_true_iff in Hd as [Hd _].
  - destruct (Hcmds ltac:(done)) as (_ & _ & Hd). unfold enabled. rewrite filter_id.
    { unfold select_task_checks in Es. by injection Es as <- _. }
    eapply Forall_impl; [exact Hd|]. intros c Hc. by rewrite Hc.
Qed.

(** C19: a test result is green only if, in this order and each step in the world
    the one before left: the write guard let the task through; the harness file
    (the spec's, else the repository's) was looked for and, if there, read, and
    without one the task has validation commands of its own; the heavy-work slot
    was had; and every check of the suite ran and passed where it gates, where
    the suite is the task's own commands if it has any and otherwise the
    harness's checks less the disabled ones and those that opt out of the
    per-task run, with their fast command at depth fast.  The results reported
    are those of that suite; a check that is a command passes exactly when the
    shell exits with 0. *)
Theorem test_green_spec ctx ctx' w w' t cs summary depth src excl hw :
  TestTaskNode_process ctx w = (Ok ctx', w', t) ->
  r_test ctx' = Some (TestRan true cs summary depth src excl hw) ->
  exists worktree policy task w1 path w2 there checks w3 job w4 w5 t1 t2,
    worktree_path ctx = Ok worktree /\ resolved_policy ctx = Ok policy /\
    current_task_state ctx "TestTaskNode" = Ok task /\
    guard_passed ctx task worktree w w1 /\
    harness_at ctx worktree w1 path w2 /\ harness_loaded path w2 there checks w3 /\
    (there = true \/ validation_commands task <> []) /\
    h_admit job w3 = (hw, w4) /\
    suite_passed worktree (spec_dir_for_baseline ctx worktree)
      (match validation_commands task with
       | [] => map (substituted (test_depth policy))
                 (List.filter (fun c => negb (bool_decide (field_bool c "enabled" = Some false))
                                        && negb (bool_decide (field_bool c "perTask" = Some false))) checks)
       | cmds => imap (fun i cmd => json_object
                   [("name", jstr ("task-validation-" +:+ pretty (i + 1)%nat)); ("kind", jstr "command");
                    ("command", jstr cmd); ("gates", jbool true)]) cmds
       end) w4 cs w5 t2 /\
    h_record job true cs w5 = (tt, w') /\ t = t1 ++ t2.
Proof.
  unfold TestTaskNode_process. intros E Hr.
  apply try_eret_inv in E as [(e & _ & [=])|(worktree & Hwt & E)].
  apply try_eret_inv in E as [(e & _ & [=])|(policy & Hp & E)].
  apply try_eret_inv in E as [(e & _ & [=])|(current & Hc & E)].
  apply try_eret_inv in E as [(e & _ & [=])|(task & Ht & E)].
  apply ebind_inv in E as (guard & w1 & t1 & t2 & Hg & E & ->).
  apply ebind_inv in E as (path & w2 & t3 & t4 & Hpath & E & ->). apply resolve_harness_spec in Hpath as [Hpath ->].
  apply try_bind_inv in E as [(e & _ & [=])|([there harness] & w3 & t5 & t6 & Hl & E & ->)].
  apply load_harness_spec in Hl as [Hl ->]. cbn [app].
  destruct (negb there && bool_decide (validation_commands task = [])) eqn:Em.
  { apply eret_inv in E as ([= ->] & _ & _). unfold finish_test in Hr. by destruct guard. }
  destruct (select_task_checks _ _ _ _) as [selected sel] eqn:Es.
  destruct (queue_park_active policy "test") eqn:Eq.
  { inv_effs. match goal with E : eret _ _ = _ |- _ => by apply eret_inv in E as ([= ->] & _ & _) end. }
  apply ebind_inv in E as (meta & w4 & t7 & t8 & Ha & E & ->). apply esilent_inv in Ha as [Ha ->].
  apply ebind_inv in E as ([results failed] & w5 & t9 & t10 & Hran & E & ->).
  apply run_checks_spec in Hran as [Hran ->].
  apply ebind_inv in E as ([] & w6 & t11 & t12 & Hrec & E & ->). apply esilent_inv in Hrec as [Hrec ->].
  apply eret_inv in E as ([= ->] & -> & ->).
  unfold finish_test in Hr. destruct guard as [g|]; cbn in Hr; [done|].
  injection Hr as Hap -> _ _ _ _ ->. rewrite Hap in Hrec. apply bool_decide_eq_true in Hap.
  eexists worktree, policy, task, w1, path, w2, there, harness, w3, _, w4, w5, t1, t9.
  split_and!; [done..|by eapply verify_passed|done|done| |exact Ha| |exact Hrec|by rewrite app_nil_r].
  { destruct there; [by left|right]. cbn in Em. by apply bool_decide_eq_false in Em. }
  apply checks_suite_ran in Hran as [Hran Hgate]. pose proof (conj Hran (proj1 Hgate Hap)) as Hsp.
  rewrite (selected_suite _ _ _ _ _ Es) in Hsp. unfold suite_passed.
  by destruct (validation_commands task).
Qed.
End Facts.
