(* ===== verification/Calendar.v ===== *)
(** * Days as civil dates

    [civil_from_days] of crates/engine-core/src/workflows/sdlc_flow/wrap_up.rs:
    the date a day count since 1970-01-01 falls on, computed with the
    era/day-of-era arithmetic of the code, and the proof that it is the Gregorian
    calendar: day 0 is 1970-01-01 and each next day has the next date. *)

From Stdlib Require Import ZArith Lia.
From stdpp Require Import pretty.
From S2P Require Import Prelude Text.

Local Open Scope string_scope.
Local Open Scope Z_scope.

Record Date := mkDate { year : Z; month : Z; day : Z }.

(** The arithmetic of [civil_from_days].  [i64]'s division rounds to zero. *)
Definition era_of (z : Z) : Z := Z.quot (if 0 <=? z then z else z - 146096) 146097.
Definition year_of_era (doe : Z) : Z := (doe - doe / 1460 + doe / 36524 - doe / 146096) / 365.
Definition day_of_year (doe yoe : Z) : Z := doe - (365 * yoe + yoe / 4 - yoe / 100).
Definition date_of_era (era doe : Z) : Date :=
  let yoe := year_of_era doe in
  let doy := day_of_year doe yoe in
  let mp := (5 * doy + 2) / 153 in
  let d := doy - (153 * mp + 2) / 5 + 1 in
  let m := if mp <? 10 then mp + 3 else mp - 9 in
  let y := yoe + era * 400 in
  mkDate (if m <=? 2 then y + 1 else y) m d.
Definition civil_date (z : Z) : Date :=
  let z := z + 719468 in
  let era := era_of z in
  date_of_era era (z - era * 146097).

(** The format [04-02-02]. *)
Definition pad (width : nat) (n : Z) : string :=
  let s := pretty n in
  String.concat "" (replicate (width - String.length s) "0") +:+ s.
Definition civil_from_days (z : Z) : string :=
  let d := civil_date z in
  pad 4 (year d) +:+ "-" +:+ pad 2 (month d) +:+ "-" +:+ pad 2 (day d).

(** ** The calendar *)

Definition leap (y : Z) : bool := (y mod 4 =? 0) && (negb (y mod 100 =? 0) || (y mod 400 =? 0)).
Definition month_length (y m : Z) : Z :=
  if m =? 2 then (if leap y then 29 else 28)
  else if (m =? 4) || (m =? 6) || (m =? 9) || (m =? 11) then 30 else 31.
Definition next_date (d : Date) : Date :=
  if day d <? month_length (year d) (month d) then mkDate (year d) (month d) (day d + 1)
  else if month d =? 12 then mkDate (year d + 1) 1 1
  else mkDate (year d) (month d + 1) 1.

(** *** Years that begin in March

    Within an era the code counts years from March.  [first_day y] is the day
    year [y] begins on, and [month_day] the month, the day and how many calendar
    years further on a day of such a year is. *)
Definition first_day (y : Z) : Z := 365 * y + y / 4 - y / 100 + y / 400.
Definition month_day (doy : Z) : Z * Z * Z :=
  let mp := (5 * doy + 2) / 153 in
  let m := if mp <? 10 then mp + 3 else mp - 9 in
  (m, doy - (153 * mp + 2) / 5 + 1, if m <=? 2 then 1 else 0).
Definition next_month_day (long : bool) (x : Z * Z * Z) : Z * Z * Z :=
  let '(m, d, dy) := x in
  let len := if m =? 2 then (if long then 29 else 28)
             else if (m =? 4) || (m =? 6) || (m =? 9) || (m =? 11) then 30 else 31 in
  if d <? len then (m, d + 1, dy) else if m =? 12 then (1, 1, dy + 1) else (m + 1, 1, dy).
Definition dated (y : Z) (x : Z * Z * Z) : Date := mkDate (y + x.2) x.1.1 x.1.2.
Definition last_doy (long : bool) : Z := if long then 365 else 364.

Definition below (n : nat) (f : Z -> bool) : bool := forallb (fun k => f (Z.of_nat k)) (seq 0 n).
Lemma below_spec n f : below n f = true -> forall k, 0 <= k < Z.of_nat n -> f k = true.
Proof.
  intros H k Hk. unfold below in H. rewrite forallb_forall in H.
  specialize (H (Z.to_nat k)). rewrite Z2Nat.id in H by lia. apply H, in_seq. lia.
Qed.

Definition triple_eqb (a b : Z * Z * Z) : bool :=
  (a.1.1 =? b.1.1) && (a.1.2 =? b.1.2) && (a.2 =? b.2).
Lemma triple_eqb_eq a b : triple_eqb a b = true -> a = b.
Proof.
  destruct a as [[a1 a2] a3], b as [[b1 b2] b3]. unfold triple_eqb. cbn.
  rewrite !andb_true_iff, !Z.eqb_eq. by intros [[-> ->] ->].
Qed.

(** The tables: 366 days of a year, 400 years of an era. *)
Lemma day_table long k : 0 <= k < 366 ->
  (k < last_doy long -> month_day (k + 1) = next_month_day long (month_day k)) /\
  ((month_day k).1.1 = 2 -> (month_day k).2 = 1).
Proof.
  intros Hk.
  pose proof (below_spec 366 (fun k => (negb (k <? last_doy long)
      || triple_eqb (month_day (k + 1)) (next_month_day long (month_day k)))
    && (negb ((month_day k).1.1 =? 2) || ((month_day k).2 =? 1)))) as H.
  specialize (H ltac:(by destruct long; vm_compute) k Hk). cbv beta in H.
  apply andb_true_iff in H as [H1 H2]. split; intros Hlt.
  - apply triple_eqb_eq. rewrite (proj2 (Z.ltb_lt _ _) Hlt) in H1. exact H1.
  - rewrite (proj2 (Z.eqb_eq _ _) Hlt) in H2. by apply Z.eqb_eq.
Qed.

Lemma last_day long : next_month_day long (month_day (last_doy long)) = (3, 1, 1).
Proof. by destruct long. Qed.

Lemma year_table y : 0 <= y < 400 ->
  (year_of_era (first_day y) =? y) && (year_of_era (first_day (y + 1) - 1) =? y)
  && (first_day (y + 1) =? first_day y + last_doy (leap (y + 1)) + 1) = true.
Proof.
  intros Hy. apply (below_spec 400 (fun y => (year_of_era (first_day y) =? y)
    && (year_of_era (first_day (y + 1) - 1) =? y)
    && (first_day (y + 1) =? first_day y + last_doy (leap (y + 1)) + 1))); [by vm_compute|exact Hy].
Qed.
Lemma next_dated y x :
  (x.1.1 = 2 -> x.2 = 1) -> next_date (dated y x) = dated y (next_month_day (leap (y + 1)) x).
Proof.
  destruct x as [[m d] dy]. unfold next_date, dated, next_month_day, month_length. cbn [year month day fst snd].
  intros Hf. destruct (Z.eqb_spec m 2) as [->|Hm].
  - rewrite Hf by done. destruct (d <? _); [done|]. cbn. done.
  - destruct (d <? _); [done|]. destruct (m =? 12); cbn [fst snd]; [f_equal; lia|done].
Qed.

Lemma era_dated doe :
  date_of_era 0 doe = dated (year_of_era doe) (month_day (day_of_year doe (year_of_era doe))).
Proof.
  unfold date_of_era, dated, month_day. cbn [fst snd]. f_equal.
  destruct (_ <=? 2); lia.
Qed.

Lemma year_of_era_step a : 0 <= a < 146096 -> year_of_era a <= year_of_era (a + 1).
Proof. intros Ha. unfold year_of_era. apply Z.div_le_mono; Z.to_euclidean_division_equations; lia. Qed.

Lemma year_of_era_mono a b : 0 <= a <= b -> b < 146097 -> year_of_era a <= year_of_era b.
Proof.
  intros Hab. pattern b. apply Zlt_lower_bound_ind with (z := a); [|lia]. intros c IH Hc Hlt.
  destruct (Z.eq_dec c a) as [->|]; [lia|].
  etransitivity; [apply (IH (c - 1)); lia|]. replace c with (c - 1 + 1) at 2 by lia. apply year_of_era_step. lia.
Qed.

Lemma first_day_year n k :
  0 <= k < first_day (Z.of_nat n) -> exists y, 0 <= y < Z.of_nat n /\ first_day y <= k < first_day (y + 1).
Proof.
  induction n as [|n IH]; intros Hk; [change (first_day (Z.of_nat 0)) with 0 in Hk; lia|].
  destruct (Z.lt_ge_cases k (first_day (Z.of_nat n))) as [Hlt|Hge].
  - destruct IH as (y & Hy & ?); [lia|]. exists y. lia.
  - exists (Z.of_nat n). replace (Z.of_nat n + 1) with (Z.of_nat (S n)) by lia. lia.
Qed.

Lemma in_year k : 0 <= k < 146097 ->
  exists y, 0 <= y < 400 /\ year_of_era k = y /\ first_day y <= k < first_day (y + 1) /\
    first_day (y + 1) = first_day y + last_doy (leap (y + 1)) + 1 /\
    day_of_year k (year_of_era k) = k - first_day y.
Proof.
  intros Hk. destruct (first_day_year 400 k) as (y & Hy & Hlo & Hhi); [exact Hk|].
  pose proof (year_table y Hy) as Ht. rewrite !andb_true_iff, !Z.eqb_eq in Ht. destruct Ht as [[H1 H2] H3].
  assert (Hyk : year_of_era k = y).
  { assert (first_day (y + 1) <= 146097) by (unfold first_day; Z.to_euclidean_division_equations; lia).
    assert (0 <= first_day y) by (unfold first_day; Z.to_euclidean_division_equations; lia).
    pose proof (year_of_era_mono (first_day y) k ltac:(lia) ltac:(lia)).
    pose proof (year_of_era_mono k (first_day (y + 1) - 1) ltac:(lia) ltac:(lia)). lia. }
  exists y. split_and!; try done; [lia..|]. rewrite Hyk. unfold day_of_year, first_day.
  replace (y / 400) with 0; [lia|]. symmetry. apply Z.div_small. lia.
Qed.

(** One cycle of 400 years, day by day. *)
Lemma cycle k : 0 <= k < 146096 -> date_of_era 0 (k + 1) = next_date (date_of_era 0 k).
Proof.
  intros Hk. rewrite !era_dated.
  destruct (in_year k) as (y & Hy & Hyk & Hlo & Hlen & Hdoy); [lia|].
  destruct (in_year (k + 1)) as (y' & Hy' & Hyk' & Hlo' & Hlen' & Hdoy'); [lia|].
  rewrite Hdoy, Hdoy', Hyk, Hyk'.
  assert (Hb : 0 <= k - first_day y < 366) by (unfold last_doy in Hlen; destruct (leap _); lia).
  destruct (day_table (leap (y + 1)) _ Hb) as [Hstep Hfeb]. rewrite next_dated by exact Hfeb.
  destruct (Z.lt_ge_cases (k + 1) (first_day (y + 1))) as [Hlt|Hge].
  - assert (y' = y) as ->.
    { pose proof (year_of_era_mono (k + 1) (first_day (y + 1) - 1)).
      pose proof (year_table y Hy) as Ht. rewrite !andb_true_iff, !Z.eqb_eq in Ht. destruct Ht as [[_ H2] _].
      pose proof (year_of_era_mono k (k + 1) ltac:(lia) ltac:(lia)).
      assert (first_day (y + 1) <= 146097) by (unfold first_day; Z.to_euclidean_division_equations; lia). lia. }
    replace (k + 1 - first_day y) with (k - first_day y + 1) by lia. by rewrite Hstep by lia.
  - assert (Hk1 : k + 1 = first_day (y + 1)) by lia.
    assert (y' = y + 1) as ->.
    { assert (y + 1 < 400) by (destruct (Z.eq_dec (y + 1) 400) as [E|]; [rewrite E in Hk1; change (first_day 400) with 146097 in Hk1; lia|lia]).
      pose proof (year_table (y + 1) ltac:(lia)) as Ht. rewrite !andb_true_iff, !Z.eqb_eq in Ht.
      destruct Ht as [[H1 _] _]. rewrite <- Hk1 in H1. lia. }
    replace (k - first_day y) with (last_doy (leap (y + 1))) by lia. rewrite last_day.
    rewrite Hk1, Z.sub_diag. change (month_day 0) with (3, 1, 0). unfold dated. cbn [fst snd]. f_equal. lia.
Qed.

(** Eras differ by 400 years, which is a whole number of leap cycles. *)
Definition shift (n : Z) (d : Date) : Date := mkDate (year d + n * 400) (month d) (day d).

Lemma date_of_era_shift era doe : date_of_era era doe = shift era (date_of_era 0 doe).
Proof. unfold date_of_era, shift. cbn [year month day]. f_equal. destruct (_ <=? 2); lia. Qed.

Lemma leap_shift y n : leap (y + n * 400) = leap y.
Proof.
  unfold leap. replace (n * 400) with (n * 100 * 4) at 1 by lia. rewrite Z.mod_add by lia.
  replace (n * 400) with (n * 4 * 100) at 1 by lia. rewrite Z.mod_add by lia.
  by rewrite Z.mod_add by lia.
Qed.

Lemma next_shift n d : next_date (shift n d) = shift n (next_date d).
Proof.
  unfold next_date, shift, month_length. cbn [year month day]. rewrite leap_shift.
  destruct (day d <? _); [done|]. destruct (month d =? 12); cbn [year month day]; f_equal; lia.
Qed.

Lemma era_div z : era_of z = z / 146097.
Proof.
  unfold era_of. destruct (Z.leb_spec 0 z); [by rewrite Z.quot_div_nonneg by lia|].
  replace (z - 146096) with (- (146096 - z)) by lia. rewrite Z.quot_opp_l, Z.quot_div_nonneg by lia.
  set (q := (146096 - z) / 146097). pose proof (Z.div_mod (146096 - z) 146097 ltac:(lia)) as Hd. fold q in Hd.
  pose proof (Z.mod_pos_bound (146096 - z) 146097 ltac:(lia)).
  apply (Z.div_unique z 146097 (- q) (z + 146097 * q)); lia.
Qed.

(** The date stamped on a run's report is the Gregorian calendar's: day 0
    is 1970-01-01, and the date of every day, before or after, is followed by the
    calendar's next date, with leap years every fourth year but the centuries
    not divisible by 400. *)
Theorem civil_date_spec :
  civil_date 0 = mkDate 1970 1 1 /\ forall z, civil_date (z + 1) = next_date (civil_date z).
Proof.
  split; [reflexivity|]. intros z. unfold civil_date. rewrite !era_div.
  set (w := z + 719468). replace (z + 1 + 719468) with (w + 1) by lia.
  pose proof (Z.div_mod w 146097 ltac:(lia)) as Hd. pose proof (Z.mod_pos_bound w 146097 ltac:(lia)) as Hm.
  replace (w - w / 146097 * 146097) with (w mod 146097) by lia.
  destruct (Z.eq_dec (w mod 146097) 146096) as [E|E].
  - assert (Hq : (w + 1) / 146097 = w / 146097 + 1) by (symmetry; apply Z.div_unique with (r := 0); lia).
    rewrite Hq. replace (w + 1 - (w / 146097 + 1) * 146097) with 0 by lia.
    rewrite E, (date_of_era_shift (w / 146097 + 1)), (date_of_era_shift (w / 146097)), next_shift.
    change (date_of_era 0 0) with (mkDate 0 3 1). change (next_date (date_of_era 0 146096)) with (mkDate 400 3 1).
    unfold shift. cbn [year month day]. f_equal. lia.
  - assert (Hq : (w + 1) / 146097 = w / 146097) by (symmetry; apply Z.div_unique with (r := w mod 146097 + 1); lia).
    rewrite Hq. replace (w + 1 - w / 146097 * 146097) with (w mod 146097 + 1) by lia.
    rewrite (date_of_era_shift (w / 146097) (_ + 1)), (date_of_era_shift (w / 146097)), next_shift, cycle by lia.
    done.
Qed.
