(* ===== verification/TaskLoop.v ===== *)
(** * The SDLC task loop

    crates/engine-core/src/workflows/sdlc_flow/task_loop.rs and the part of
    graph.rs that wires it: one Definition per node's [process] and per router's
    [route], and [walk], the engine's walk restricted to these ten nodes.  The
    loop is left to FinalValidationNode when the queue is drained and to
    WrapUpNode when a task bails.

    The serde implementations of the model's replies and serde_json's printer
    are the class [LoopLibs].  Cancellation tokens and the choice of transport
    belong to the seam [h_agent]; budget and operator pauses at node boundaries
    are Workflow.v's. *)

From Stdlib Require Import Ascii.
From stdpp Require Import pretty.
From S2P Require Import Prelude Json Sessions Node Utf8 Text ModelReply Effect Chain LaneLog SdlcPolicy SdlcState SdlcContext SdlcFeedback SdlcClock SdlcChecks.

Local Open Scope string_scope.
Local Open Scope list_scope.
Local Open Scope effect_scope.

(** ** What a model answers *)

Record ImplementOutput := mkImplementOutput {
  io_summary : string; io_modified_files : list string; io_tests_added : list string }.
Record TriageOutput := mkTriageOutput {
  to_verdict : string; to_reason : string; to_evidence : string;
  to_base_state_checked : bool; to_same_failure_as_before : bool }.
Record ReviewOutput := mkReviewOutput {
  ro_verdict : string; ro_summary : string; ro_issues : list string; ro_localized : bool }.

Class LoopLibs {X : Extern} : Type := {
  implement_of_value : value -> result ImplementOutput string;
  implement_of_str : string -> result ImplementOutput string;
  triage_of_value : value -> result TriageOutput string;
  triage_of_str : string -> result TriageOutput string;
  review_of_value : value -> result ReviewOutput string;
  review_of_str : string -> result ReviewOutput string;
  json_pretty : value -> result string string;
  as_object : value -> option (list (string * value));
  serde_error : string
}.
Arguments LoopLibs X : clear implicits.

(** ** Committing *)

Inductive CommitOutcome := Committed | NoOp | CommitFailed (detail : string).
Definition is_committed (o : CommitOutcome) : bool := match o with Committed => true | _ => false end.
Definition failure_detail (o : CommitOutcome) : option string :=
  match o with CommitFailed d => Some d | _ => None end.

Section Nodes.
Context {X : Extern} {H : Host X} {UC : UnicodeCase} {RF : RustFmt} {CL : CheckLibs X}.
Context {P : Prompts} {PS : PolicySerde X} {LL : LoopLibs X}.
(** the nodes' own configurations and the writing process *)
Variable implement_config triage_config review_config : AgentConfig X.
Variable build : BuildInfo.
Variable state_filename : string.

Definition is_noop_commit (stderr stdout : string) : bool :=
  let haystack := to_lowercase (stdout +:+ nl +:+ stderr) in
  occurs "nothing to commit" haystack || occurs "working tree clean" haystack
  || occurs "no changes added to commit" haystack.

Definition commit_all (worktree message : string) : SD CommitOutcome :=
  run_command "git" ["add"; "-A"] worktree ;~
  commit <~ run_command "git" ["commit"; "-m"; message] worktree ;;
  eret (match commit with
        | Ok output =>
            if (cmd_status output =? 0)%Z then Committed
            else if is_noop_commit (cmd_stderr output) (cmd_stdout output) then NoOp
            else CommitFailed (trim (cmd_stderr output))
        | Err err => CommitFailed ("git commit could not be run: " +:+ err)
        end).

Definition stage_untracked_intent (worktree : string) : SD (result CommandOutput string) :=
  run_command "git" ["add"; "-N"; "-A"] worktree.

(** ** TaskQueueRouterNode *)

Definition is_pending (t : SDLCTask) : bool := bool_decide (task_status t = TsPending).
Definition is_allowed (allowed : option (list Z)) (t : SDLCTask) : bool :=
  match allowed with None => true | Some ids => bool_decide (task_id t ∈ ids) end.
Definition next_pending (state : SDLCState) (allowed : option (list Z)) : option SDLCTask :=
  find (fun t => is_pending t && is_allowed allowed t) (tasks state).

Definition queue_entry (t : SDLCTask) : QueueEntry :=
  mkQueueEntry (task_id t) (title t) (description t) (acceptance_criteria t) (attempt_count t)
    (max_attempts t).
Definition TaskQueueRouterNode_process (ctx : SdlcCtx X) : SD (result (SdlcCtx X) NodeError) :=
  state <~? eret (latest_state ctx) ;;
  eret (Ok (match next_pending state (allowed_task_ids ctx) with
            | Some task => put_queue (queue_entry task) ctx
            | None => ctx
            end)).

(** ** ImplementTaskNode *)

Definition q (s : string) : string := dquote +:+ s +:+ dquote.

Definition implement_output_schema : value :=
  let str := json_object [("type", jstr "string")] in
  let strs := json_object [("type", jstr "array"); ("items", str)] in
  json_object
    [("type", jstr "object");
     ("properties", json_object [("summary", str); ("modified_files", strs); ("tests_added", strs)]);
     ("required", jarray [jstr "summary"])].

Definition response_contract (backend : AgentBackend) : string :=
  match backend with
  | Aider => "Implement the following SDLC task by making the actual file/code changes in this repository now. Do not reply with a JSON summary or any other description of the change — apply the edit directly; it will be committed automatically afterward."
  | Pi => "Implement the following SDLC task by calling your file-writing and editing tools to make the actual changes in this repository now. A reply that only describes or summarizes a change does nothing — only tool calls that write files count, and the repository is checked afterward."
  | ClaudeCli => "Implement the following SDLC task. Respond with strict JSON of the shape {"
      +:+ q "summary" +:+ ": str, " +:+ q "modified_files" +:+ ": [str], " +:+ q "tests_added" +:+ ": [str]}."
  end.
Definition files_directive (backend : AgentBackend) (files : list string) : string :=
  if negb (bool_decide (backend = ClaudeCli)) && negb (bool_decide (files = [])) then
    " Files to create or edit, as exact paths relative to the repository root — use these names verbatim, never a placeholder directory such as path/to/: "
    +:+ String.concat ", " files +:+ "."
  else "".

Definition implement_prompt (ctx : SdlcCtx X) (policy : SdlcPolicy) (current : QueueEntry)
    (task : SDLCTask) (worktree : option string) : string :=
  let prompt := PATH_DISCIPLINE_PREAMBLE +:+ IMPLEMENT_STANDARDS_PREAMBLE in
  let prompt :=
    match worktree with
    | Some w => prompt +:+ "Your working tree root is " +:+ w
                +:+ " — `git rev-parse --show-toplevel` must resolve there before you write." +:+ nl +:+ nl
    | None => prompt
    end in
  let prompt :=
    prompt +:+ response_contract (agent_backend policy)
    +:+ " When an acceptance criterion specifies exact literal text or content, reproduce it byte for byte — no paraphrasing, no placeholder or translated text, and add nothing else to the file beyond what is asked."
    +:+ files_directive (agent_backend policy) (task_files task) +:+ nl +:+ nl
    +:+ "Title: " +:+ q_title current +:+ nl +:+ "Description: " +:+ q_description current +:+ nl
    +:+ "Acceptance criteria: " +:+ json_text (jarray (map jstr (q_acceptance_criteria current))) in
  match prior_attempt_feedback ctx (retry_feedback policy) with
  | Some feedback => prompt +:+ feedback
  | None => prompt
  end.

Definition set_implement_tier (tier : ModelTier) (p : SdlcPolicy) : SdlcPolicy :=
  let m := model_tiers p in
  mkSdlcPolicy (output_verbosity p) (prompt_cache p) (review_mode p) (review_skip_max_files p)
    (review_skip_max_diff_lines p) (test_depth p) (test_dispatch p)
    (mkModelTiers tier (mt_implement_simple m) (mt_review m) (mt_triage m) (mt_generate m) (mt_docs m)
       (implement_final_attempt m))
    (timeouts p) (max_turns p) (local p) (pi p) (llm_triage p) (policy_max_attempts p)
    (max_review_attempts p) (retry_feedback p) (transport_retry p) (review_diff_max_chars p)
    (node_invocation_payload_cap_bytes p) (generate_context_max_bytes p) (agent_backend p) (isolated p).

Definition is_final_attempt (task : SDLCTask) : bool :=
  (max_attempts task <=? attempt_count task + 1)%Z.
(** The policy of the call, and the tier it stamps. *)
Definition effective_policy (policy : SdlcPolicy) (task : SDLCTask) : SdlcPolicy * ModelTier :=
  match implement_final_attempt (model_tiers policy) with
  | Some escalated =>
      if is_final_attempt task then (set_implement_tier escalated policy, escalated)
      else (policy, mt_implement (model_tiers policy))
  | None => (policy, mt_implement (model_tiers policy))
  end.

Definition AIDER_FILES_ENV : string := "ENGINE_AIDER_FILES".

Definition prior_base_sha (ctx : SdlcCtx X) (id : Z) : option string :=
  prior ← r_implement ctx;
  if Z.eqb (im_task_id prior) id then task_base_sha prior else None.

Definition ImplementTaskNode_process (ctx : SdlcCtx X) : SD (result (SdlcCtx X) NodeError) :=
  current <~? eret (current_task_fields ctx) ;;
  policy <~? eret (resolved_policy ctx) ;;
  task <~? eret (current_task_state ctx "ImplementTaskNode") ;;
  state <~? eret (latest_state ctx) ;;
  let counted_state := set_telemetry charge_attempt state in
  let worktree := match worktree_path ctx with Ok w => Some w | Err _ => None end in
  let prompt := implement_prompt ctx policy current task worktree in
  let '(effective, tier_used) := effective_policy policy task in
  let '(config, prompt) := apply_policy implement_config prompt effective Implement in
  let config := with_schema implement_output_schema (with_cwd worktree config) in
  let is_aider := bool_decide (agent_backend policy = Aider) in
  let config := if is_aider && negb (bool_decide (task_files task = []))
                then push_env (AIDER_FILES_ENV, String.concat nl (task_files task)) config else config in
  pre_call_sha <~ (match worktree with
                   | Some w => if is_aider then git_worktree_head_sha w else eret None
                   | None => eret None
                   end) ;;
  let base_sha := if is_aider
                  then match prior_base_sha ctx (task_id task) with
                       | Some s => Some s | None => pre_call_sha end
                  else None in
  reply <~? call_agent "ImplementTaskNode" config prompt (transport_retry policy) ;;
  let content := default "" (content reply) in
  let parsed :=
    match parse_structured_or_fenced implement_of_value implement_of_str (structured reply) content with
    | Ok p => p | Err _ => mkImplementOutput content [] [] end in
  modified <~ (match agent_backend policy, worktree with
               | ClaudeCli, _ => eret (io_modified_files parsed)
               | Aider, Some w => git_files_changed_since w pre_call_sha
               | Pi, Some w => git_worktree_changed_files w
               | _, None => eret []
               end) ;;
  eret (Ok (put_implement
    (mkImplementResult (io_summary parsed) modified (io_tests_added parsed) tier_used pre_call_sha
       (task_id task) base_sha counted_state)
    (add_sessions (billed reply) ctx))).

(** ** TriageTaskNode *)

Fixpoint numstat_totals (ls : list string) (files lines : Z) : option (Z * Z) :=
  match ls with
  | [] => Some (files, lines)
  | line :: ls =>
      let line := trim line in
      if String.eqb line "" then numstat_totals ls files lines
      else
        match split_whitespace line with
        | a :: d :: _ =>
            match parse_u32 a, parse_u32 d with
            | Some a, Some d =>
                numstat_totals ls (u32_add files 1) (u32_sat_add (u32_sat_add lines a) d)
            | _, _ => None
            end
        | _ => None
        end
  end.
Definition classify_trivial (ctx : SdlcCtx X) (policy : SdlcPolicy) : SD bool :=
  match worktree_path ctx with
  | Err _ => eret false
  | Ok worktree =>
      stage_untracked_intent worktree ;~
      r <~ run_command "git" ["diff"; "--numstat"; task_diff_base ctx] worktree ;;
      eret (match r with
            | Err _ => false
            | Ok output =>
                match numstat_totals (lines (cmd_stdout output)) 0 0 with
                | None => false
                | Some (files, diff_lines) =>
                    ((files <=? review_skip_max_files policy)
                     && (diff_lines <=? review_skip_max_diff_lines policy))%Z
                end
            end)
  end.

Definition triage_output_schema : value :=
  let str := json_object [("type", jstr "string")] in
  let bool := json_object [("type", jstr "boolean")] in
  json_object
    [("type", jstr "object");
     ("properties", json_object [("verdict", str); ("reason", str); ("evidence", str);
                                 ("base_state_checked", bool); ("same_failure_as_before", bool)]);
     ("required", jarray [jstr "verdict"; jstr "reason"])].

(** The verdicts no model is asked for. *)
Definition plain_triage (verdict reason : string) (trivial : option bool) : TriageResult :=
  mkTriageResult verdict reason trivial "" false false None None.

Definition escalating_check (results : list CheckResult) : option CheckResult :=
  find (fun c => negb (passed c) && bool_decide (failure_class c = EscalateClass)) results.

Definition exhausted_reason (task : SDLCTask) (test : TestResult) : string :=
  let id := pretty (task_id task) in
  let reason := "Max attempts (" +:+ pretty (max_attempts task)
    +:+ ") reached without a passing run. To recover: re-run just this task with `retry_task: " +:+ id
    +:+ "` (keeps every other task's status, attempt count and commits), or restart the whole spec with `resume: false` (archives the current state and reruns from scratch)." in
  match check_results_of test ≫= first_failure_detail with
  | Some detail => reason +:+ nl +:+ "Failing check detail: " +:+ detail
  | None => reason
  end.

Definition triage_prompt (ctx : SdlcCtx X) (policy : SdlcPolicy) (current : QueueEntry)
    (task : SDLCTask) (test : TestResult) : string :=
  let prompt := TRIAGE_STABLE_PROMPT
    +:+ "Classify this task's test failure as RETRYABLE or MAJOR_BAIL. Respond with strict JSON of the shape {"
    +:+ q "verdict" +:+ ": str, " +:+ q "reason" +:+ ": str, " +:+ q "evidence" +:+ ": str, "
    +:+ q "base_state_checked" +:+ ": bool, " +:+ q "same_failure_as_before" +:+ ": bool}." +:+ nl +:+ nl
    +:+ "Task: " +:+ q_title current +:+ nl +:+ "Attempt " +:+ pretty (attempt_count task + 1)%Z +:+ " of "
    +:+ pretty (max_attempts task) +:+ "." +:+ nl +:+ "Failure summary: " +:+ failure_summary_of test in
  match triage_failure_feedback ctx (retry_feedback policy) with
  | Some feedback => prompt +:+ feedback
  | None => prompt
  end.

Definition unrecognized (known : list string) (verdict : string) : option string :=
  if bool_decide (verdict ∈ known) then None else Some verdict.

(** The call to the classifier and what becomes of its answer. *)
Definition triage_by_model (ctx : SdlcCtx X) (current : QueueEntry) (task : SDLCTask)
    (test : TestResult) : SD (result (SdlcCtx X) NodeError) :=
  policy <~? eret (resolved_policy ctx) ;;
  let '(config, prompt) :=
    apply_policy triage_config (triage_prompt ctx policy current task test) policy Triage in
  reply <~? call_agent "TriageTaskNode" (with_schema triage_output_schema config) prompt
              (transport_retry policy) ;;
  match content reply with
  | None => eret (Err (with_sessions (NodeError_new "TriageTaskNode: model returned no content") (billed reply)))
  | Some content =>
      let '(parsed, preview) :=
        match parse_model_verdict triage_of_value triage_of_str (structured reply) content with
        | Parsed p => (p, None)
        | Unparseable raw_preview reason =>
            (mkTriageOutput "UNPARSEABLE"
               ("TriageTaskNode: model output could not be parsed as JSON: " +:+ reason) "" false false,
             Some raw_preview)
        end in
      let verdict := to_uppercase (trim (to_verdict parsed)) in
      eret (Ok (put_triage
        (mkTriageResult verdict (to_reason parsed) None (to_evidence parsed)
           (to_base_state_checked parsed) (to_same_failure_as_before parsed)
           (unrecognized ["PASS"; "RETRYABLE"; "MAJOR_BAIL"] verdict) preview)
        (add_sessions (billed reply) ctx)))
  end.

Definition TriageTaskNode_process (ctx : SdlcCtx X) : SD (result (SdlcCtx X) NodeError) :=
  test <~? eret (match r_test ctx with
                 | Some t => Ok t
                 | None => Err (NodeError_new "TestTaskNode has not run yet") end) ;;
  current <~? eret (current_task_fields ctx) ;;
  task <~? eret (current_task_state ctx "TriageTaskNode") ;;
  if default false (all_passed_of test) then
    policy <~? eret (resolved_policy ctx) ;;
    trivial <~ classify_trivial ctx policy ;;
    eret (Ok (put_triage (plain_triage "PASS" "All harness checks passed." (Some trivial)) ctx))
  else
    match check_results_of test ≫= escalating_check with
    | Some c =>
        eret (Ok (put_triage (plain_triage "MAJOR_BAIL"
          ("Check '" +:+ check_name c
           +:+ "' declared failureClass: escalate and failed; bailing without retry.") None) ctx))
    | None =>
        if (max_attempts task <=? attempt_count task)%Z then
          eret (Ok (put_triage (plain_triage "MAJOR_BAIL" (exhausted_reason task test) None) ctx))
        else
          use_llm <~? eret (match ev_llm_triage ctx with
                            | Some bare => Ok bare
                            | None => match resolved_policy ctx with
                                      | Ok p => Ok (llm_triage p) | Err e => Err e end
                            end) ;;
          if negb (use_llm : bool) then
            eret (Ok (put_triage (plain_triage "RETRYABLE"
              ("Checks failed; retrying (attempt " +:+ pretty (attempt_count task + 1)%Z +:+ " of "
               +:+ pretty (max_attempts task) +:+ ").") None) ctx))
          else triage_by_model ctx current task test
    end.

(** ** TriageRouterNode *)

Inductive LoopNode :=
| QueueRouter | ImplementNode | TestNode | TriageNode | TriageRouter | ReviewNode | ReviewRouter
| UpdateNode | SaveNode | IncrementNode.
Inductive LoopExit := FinalValidationNode | WrapUpNode.
Inductive Target := Goto (n : LoopNode) | Leave (e : LoopExit).

Definition route_triage (ctx : SdlcCtx X) : option Target :=
  triage ← r_triage ctx;
  let verdict := tr_verdict triage in
  if String.eqb verdict "PASS" then
    match resolved_policy ctx with
    | Err _ => None
    | Ok policy =>
        Some (Goto (match review_mode policy with
                    | PerTask => ReviewNode
                    | EndOnly => UpdateNode
                    | TrivialSkip => if default false (trivial triage) then UpdateNode else ReviewNode
                    end))
    end
  else if String.eqb verdict "RETRYABLE" then Some (Goto IncrementNode)
  else Some (Leave WrapUpNode).

(** ** ConsolidatedReviewNode *)

Definition review_output_schema : value :=
  let str := json_object [("type", jstr "string")] in
  json_object
    [("type", jstr "object");
     ("properties", json_object
        [("verdict", json_object [("type", jstr "string");
                                  ("enum", jarray [jstr "PASS"; jstr "PARTIAL"; jstr "FAIL"])]);
         ("summary", str);
         ("issues", json_object [("type", jstr "array"); ("items", str)]);
         ("localized", json_object
            [("type", jstr "boolean");
             ("description", jstr "True if the FAIL/PARTIAL issues are small and bounded (a few files, clear cause, a targeted fix can close them); false if broad or structural (cross-cutting, ambiguous, or needing a human re-plan). Irrelevant on PASS.")])]);
     ("required", jarray [jstr "verdict"; jstr "summary"])].

Definition review_prompt (current : QueueEntry) (diff : string) : string :=
  REVIEW_STABLE_PROMPT
  +:+ "Review this task's diff against its acceptance criteria. Respond with strict JSON of the shape {"
  +:+ q "verdict" +:+ ": str, " +:+ q "summary" +:+ ": str, " +:+ q "issues" +:+ ": [str], "
  +:+ q "localized" +:+ ": bool}. " +:+ q "verdict" +:+ " must be exactly one of " +:+ q "PASS" +:+ ", "
  +:+ q "PARTIAL" +:+ ", or " +:+ q "FAIL" +:+ " — no other value is accepted." +:+ nl +:+ nl
  +:+ "Acceptance criteria: " +:+ json_text (jarray (map jstr (q_acceptance_criteria current))) +:+ nl
  +:+ nl +:+ "Diff:" +:+ nl +:+ diff.

(** The counter of the bound: charged by a verdict other than PASS. *)
Definition charge_verdict (verdict : string) (state : SDLCState) (id : Z)
    : result (Z * SDLCState) NodeError :=
  if String.eqb verdict "PASS" then Ok (task_review_attempts state id, state)
  else bump_task_review_attempt state id.

Definition ConsolidatedReviewNode_process (ctx : SdlcCtx X) : SD (result (SdlcCtx X) NodeError) :=
  worktree <~? eret (worktree_path ctx) ;;
  current <~? eret (current_task_fields ctx) ;;
  state <~? eret (latest_state ctx) ;;
  let counted_state := set_telemetry charge_review state in
  stage_untracked_intent worktree ;~
  r <~ run_command "git" ["diff"; task_diff_base ctx] worktree ;;
  let diff := match r with Ok output => cmd_stdout output | Err _ => "" end in
  policy <~? eret (resolved_policy ctx) ;;
  let '(diff, truncated) := bound_review_diff diff (Z.to_nat (review_diff_max_chars policy)) in
  let '(config, prompt) := apply_policy review_config (review_prompt current diff) policy Review in
  let config := with_schema review_output_schema (with_cwd (Some worktree) config) in
  reply <~? call_agent "ConsolidatedReviewNode" config prompt (transport_retry policy) ;;
  match content reply with
  | None => eret (Err (with_sessions (NodeError_new "ConsolidatedReviewNode: model returned no content")
                         (billed reply)))
  | Some content =>
      let '(parsed, preview) :=
        match parse_model_verdict review_of_value review_of_str (structured reply) content with
        | Parsed p => (p, None)
        | Unparseable raw_preview reason =>
            (mkReviewOutput "UNPARSEABLE"
               ("ConsolidatedReviewNode: model output could not be parsed as JSON: " +:+ reason) [] false,
             Some raw_preview)
        end in
      let verdict := normalize_pass_fail_partial_synonym (to_uppercase (trim (ro_verdict parsed))) in
      match charge_verdict verdict counted_state (current_task_id current) with
      | Err e => eret (Err (with_sessions e (billed reply)))
      | Ok (stamp, counted_state) =>
          eret (Ok (put_review
            (mkReviewResult verdict (ro_summary parsed) (ro_issues parsed) (ro_localized parsed)
               (review_diff_max_chars policy) truncated
               (unrecognized ["PASS"; "FAIL"; "PARTIAL"] verdict) preview (Some stamp) counted_state)
            (add_sessions (billed reply) ctx)))
      end
  end.

(** ** ReviewRouterNode *)

Definition STRUCTURAL_ISSUE_THRESHOLD : nat := 5.

Definition bounded_review_attempts (ctx : SdlcCtx X) (review : ReviewResult) : Z :=
  match rv_stamp review with
  | Some stamped => stamped
  | None =>
      match latest_state ctx, current_task_fields ctx with
      | Ok state, Ok current => task_review_attempts state (current_task_id current)
      | _, _ => 0
      end
  end.
Definition bounded_review_retry_route (ctx : SdlcCtx X) (review : ReviewResult) : option Target :=
  match resolved_policy ctx with
  | Ok p => if (max_review_attempts p <=? bounded_review_attempts ctx review)%Z
            then Some (Leave WrapUpNode) else Some (Goto IncrementNode)
  | Err _ => Some (Goto IncrementNode)
  end.
Definition route_review (ctx : SdlcCtx X) : option Target :=
  review ← r_review ctx;
  let verdict := rv_verdict review in
  let issues := length (rv_issues review) in
  if String.eqb verdict "PASS" then Some (Goto UpdateNode)
  else if String.eqb verdict "FAIL" || String.eqb verdict "PARTIAL" then
    if (issues =? 0)%nat || (STRUCTURAL_ISSUE_THRESHOLD <? issues)%nat then Some (Leave WrapUpNode)
    else bounded_review_retry_route ctx review
  else bounded_review_retry_route ctx review.

(** ** IncrementAttemptNode, UpdateTaskStatusNode *)

Definition restamp (n : Z) (e : QueueEntry) : QueueEntry :=
  mkQueueEntry (current_task_id e) (q_title e) (q_description e) (q_acceptance_criteria e) n
    (q_max_attempts e).
Definition IncrementAttemptNode_process (ctx : SdlcCtx X) : result (SdlcCtx X) NodeError :=
  match current_task_fields ctx with Err e => Err e | Ok current =>
  match latest_state ctx with Err e => Err e | Ok state =>
  match bump_task_attempt state (current_task_id current) with Err e => Err e | Ok state =>
  let ctx := match find_task (current_task_id current) (tasks state) with
             | Some t => put_queue (restamp (attempt_count t) current) ctx
             | None => ctx
             end in
  Ok (put_increment state ctx)
  end end end.

Definition UpdateTaskStatusNode_process (ctx : SdlcCtx X) : result (SdlcCtx X) NodeError :=
  match current_task_fields ctx with Err e => Err e | Ok current =>
  match r_triage ctx with
  | None => Err (NodeError_new "TriageTaskNode has not run yet")
  | Some triage =>
      if negb (String.eqb (tr_verdict triage) "PASS") then
        Err (NodeError_new ("UpdateTaskStatusNode: reached with a non-PASS triage verdict "
          +:+ debug_str (tr_verdict triage)
          +:+ "; every route into this node in both SDLC_FLOW and SDLC_TASK carries PASS (see this node's doc comment)"))
      else
        match latest_state ctx with Err e => Err e | Ok state =>
        match mark_done state (current_task_id current) with
        | Err e => Err e
        | Ok state => Ok (put_update state ctx)
        end end
  end end.

(** ** SaveStateNode *)

Definition SAVE_STATE_FALLBACK_MESSAGE : string := "chore: flow state update".
Definition save_state_commit_message (ctx : SdlcCtx X) : string :=
  match r_queue ctx with
  | None => SAVE_STATE_FALLBACK_MESSAGE
  | Some current => "feat(sdlc): " +:+ pretty (current_task_id current) +:+ " — " +:+ q_title current
  end.

Definition existing_started_at (state_path : string) : SD (option string) :=
  r <~ esilent (h_read_to_string state_path) ;;
  eret (match r with
        | Err _ => None
        | Ok content =>
            match json_parse content with
            | Err _ => None
            | Ok v =>
                match from_committed_state_json as_object debug_str serde_error v with
                | Ok s => st_started_at s
                | Err _ => None
                end
            end
        end).
Definition build_run_meta (ctx : SdlcCtx X) (worktree state_path : string) : SD RunMeta :=
  now <~ esilent h_now ;;
  started <~ existing_started_at state_path ;;
  eret (mkRunMeta (default "" (branch_name ctx)) worktree (default now started) now (md_run_id ctx)
          (md_sessions ctx)).

Definition SaveStateNode_process (ctx : SdlcCtx X) : SD (result (SdlcCtx X) NodeError) :=
  worktree <~? eret (worktree_path ctx) ;;
  state <~? eret (latest_state ctx) ;;
  let state_dir := path_join (path_join (path_join worktree "planning") (spec_slug state)) "sdlc" in
  made <~ esilent (h_create_dir_all state_dir) ;;
  match made with
  | Err err => eret (Err (NodeError_new ("failed to create " +:+ state_dir +:+ ": " +:+ err)))
  | Ok _ =>
      let state_path := path_join state_dir state_filename in
      run_meta <~ build_run_meta ctx worktree state_path ;;
      match json_pretty (to_committed_state_json build state run_meta None None None None None) with
      | Err err => eret (Err (NodeError_new ("failed to serialize SDLCState: " +:+ err)))
      | Ok json =>
          written <~ write_file state_path json ;;
          match written with
          | Err err => eret (Err (NodeError_new ("failed to write " +:+ state_path +:+ ": " +:+ err)))
          | Ok _ =>
              outcome <~ commit_all worktree (save_state_commit_message ctx) ;;
              match failure_detail outcome with
              | Some detail =>
                  eret (Err (NodeError_new ("git commit failed while saving " +:+ state_path
                    +:+ "; refusing to record the task as done with its work uncommitted: " +:+ detail)))
              | None => eret (Ok (put_save (mkSaveResult state_path (is_committed outcome)) ctx))
              end
          end
      end
  end.

(** ** The walk *)

Definition process_node (n : LoopNode) (ctx : SdlcCtx X) : SD (result (SdlcCtx X) NodeError) :=
  match n with
  | QueueRouter => TaskQueueRouterNode_process ctx
  | ImplementNode => ImplementTaskNode_process ctx
  | TestNode => TestTaskNode_process ctx
  | TriageNode => TriageTaskNode_process ctx
  | TriageRouter | ReviewRouter => eret (Ok ctx)
  | ReviewNode => ConsolidatedReviewNode_process ctx
  | UpdateNode => eret (UpdateTaskStatusNode_process ctx)
  | SaveNode => SaveStateNode_process ctx
  | IncrementNode => eret (IncrementAttemptNode_process ctx)
  end.

Definition route_queue (ctx : SdlcCtx X) : option Target :=
  match latest_state ctx with
  | Err _ => None
  | Ok state => Some (match next_pending state (allowed_task_ids ctx) with
                      | Some _ => Goto ImplementNode
                      | None => Leave FinalValidationNode
                      end)
  end.

(** The routers' [route], and the single connection of the other nodes. *)
Definition next_node (n : LoopNode) (ctx : SdlcCtx X) : option Target :=
  match n with
  | QueueRouter => route_queue ctx
  | ImplementNode => Some (Goto TestNode)
  | TestNode => Some (Goto TriageNode)
  | TriageNode => Some (Goto TriageRouter)
  | TriageRouter => route_triage ctx
  | ReviewNode => Some (Goto ReviewRouter)
  | ReviewRouter => route_review ctx
  | UpdateNode => Some (Goto SaveNode)
  | SaveNode => Some (Goto QueueRouter)
  | IncrementNode => Some (Goto ImplementNode)
  end.

(** How the walk ends inside or at the edge of the loop. *)
Inductive LoopEnd :=
| Left (e : LoopExit) (ctx : SdlcCtx X)
| Parked (ctx : SdlcCtx X)
| NoRoute (n : LoopNode) (ctx : SdlcCtx X)
| NodeFailed (n : LoopNode) (e : NodeError).

(** [None] when the fuel is spent. *)
Fixpoint walk_loop (fuel : nat) (n : LoopNode) (ctx : SdlcCtx X) : SD (option LoopEnd) :=
  match fuel with
  | O => eret None
  | S fuel =>
      r <~ process_node n ctx ;;
      match r with
      | Err e => eret (Some (NodeFailed n e))
      | Ok ctx =>
          if md_suspended ctx then eret (Some (Parked ctx))
          else match next_node n ctx with
               | None => eret (Some (NoRoute n ctx))
               | Some (Leave e) => eret (Some (Left e ctx))
               | Some (Goto m) => walk_loop fuel m ctx
               end
      end
  end.
End Nodes.
