(* ===== verification/TaskLoopFacts.v ===== *)
(** * What the SDLC task loop guarantees

    Over TaskLoop.v: a reachability relation on the loop's configurations and,
    by rule induction on it or on the walk,

    - [loop_conserves]: every attempt is accounted for
    - [task_loop_ends]: the loop ends, with the number of steps it needs
    - [done_means_green]: what holds when a task is marked done. *)

From stdpp Require Import pretty.
From S2P Require Import Prelude Json Sessions Node Utf8 Text ModelReply Effect Chain LaneLog SdlcPolicy SdlcState SdlcContext SdlcFeedback SdlcClock SdlcChecks TaskLoop.

Local Open Scope string_scope.
Local Open Scope list_scope.
Local Open Scope Z_scope.

(** ** Calls in a log *)

Definition is_call {X : Extern} (node : string) (e : SdlcEvent X) : bool :=
  match e with CalledAgent n _ _ => String.eqb n node | _ => false end.
Definition calls {X : Extern} (node : string) (t : list (SdlcEvent X)) : Z :=
  foldr (fun e n => (if is_call node e then 1 else 0) + n) 0 t.

Lemma calls_app {X : Extern} node (t1 t2 : list (SdlcEvent X)) :
  calls node (t1 ++ t2) = calls node t1 + calls node t2.
Proof. induction t1 as [|e t1 IH]; [done|]. cbn [app calls foldr]. fold (calls node (t1 ++ t2)). fold (calls node t1). lia. Qed.

(** A program that calls no model. *)
Definition no_call {X : Extern} (e : SdlcEvent X) : bool :=
  match e with CalledAgent _ _ _ => false | _ => true end.
Lemma quiet_calls {X : Extern} {H : Host X} {A} (m : SD A) w a w' t node :
  only no_call m -> m w = (a, w', t) -> calls node t = 0.
Proof.
  intros Hm E. apply Hm in E. induction t as [|e t IH]; [done|]. cbn in E.
  apply andb_true_iff in E as [He Ht]. cbn. unfold calls in IH. rewrite (IH Ht). by destruct e.
Qed.

(** The nodes that call no model, under any predicate their events satisfy. *)
Section QuietNodes.
Context {X : Extern} {H : Host X} {UC : UnicodeCase} {RF : RustFmt} {CL : CheckLibs X}.
Variable ok : SdlcEvent X -> bool.
Hypothesis ok_run : forall program args cwd, ok (RanCommand program args cwd) = true.
Hypothesis ok_write : forall path contents, ok (WroteFile path contents) = true.
Hypothesis ok_submit : forall id job, ok (SubmittedJob id job) = true.
Local Hint Extern 1 (only ok (run_command _ _ _)) => apply only_run, ok_run : only.
Local Hint Extern 1 (only ok (write_file _ _)) => apply only_write, ok_write : only.
Local Hint Extern 1 (only ok (elog (SubmittedJob _ _))) => apply only_log, ok_submit : only.

Lemma only_shell_out command worktree : only ok (shell_out command worktree).
Proof. unfold shell_out, run_or_empty. only_go. Qed.
Hint Resolve only_shell_out : only.

Lemma only_run_check check worktree spec_dir : only ok (run_check check worktree spec_dir).
Proof.
  unfold run_check, run_command_check, run_forbidden_pattern_scan, scan_rule, run_baseline_diff,
    run_count_delta, run_warning_scan. only_go.
Qed.
Hint Resolve only_run_check : only.

Lemma only_run_checks checks worktree spec_dir : only ok (run_checks checks worktree spec_dir).
Proof. unfold run_checks, run_one. only_go. Qed.
Hint Resolve only_run_checks : only.

Lemma only_harness ctx worktree :
  only ok (resolve_harness_path ctx worktree) /\ forall path, only ok (load_harness_checks path).
Proof. unfold resolve_harness_path, load_harness_checks. split; [|intros path]; only_go. Qed.

Lemma only_test ctx : only ok (TestTaskNode_process ctx).
Proof.
  unfold TestTaskNode_process, verify_claimed_writes, git_files_changed_since_with_status,
    changed_files_with_status, run_or_empty, resolve_harness_path, load_harness_checks. only_go.
Qed.

Context {PS : PolicySerde X} {LL : LoopLibs X}.
Lemma only_commit_all worktree message : only ok (commit_all worktree message).
Proof. unfold commit_all. only_go. Qed.
Lemma only_run_meta ctx worktree state_path : only ok (build_run_meta ctx worktree state_path).
Proof. unfold build_run_meta, existing_started_at. only_go. Qed.
Hint Resolve only_commit_all only_run_meta : only.

Lemma only_save build state_filename ctx : only ok (SaveStateNode_process build state_filename ctx).
Proof. unfold SaveStateNode_process. only_go. Qed.
End QuietNodes.

Lemma calls_cons {X : Extern} node e (t : list (SdlcEvent X)) :
  calls node (e :: t) = (if is_call node e then 1 else 0) + calls node t.
Proof. done. Qed.

Section Loop.
Context {X : Extern} {H : Host X} {UC : UnicodeCase} {RF : RustFmt} {CL : CheckLibs X}.
Context {P : Prompts} {PS : PolicySerde X} {LL : LoopLibs X}.
Variable implement_config triage_config review_config : AgentConfig X.
Variable build : BuildInfo.
Variable state_filename : string.
Local Abbreviation process_node := (process_node implement_config triage_config review_config build state_filename).
Local Abbreviation walk_loop := (walk_loop implement_config triage_config review_config build state_filename).

(** ** What each node does to the context *)

Lemma call_agent_calls node name config prompt retry w r w' t :
  call_agent name config prompt retry w = (r, w', t) ->
  calls node t = if String.eqb name node then 1 else 0.
Proof.
  intros E. apply ebind_inv in E as (u & w1 & t1 & t2 & E1 & E2 & ->).
  apply elog_inv in E1 as [-> ->]. apply esilent_inv in E2 as [_ ->].
  cbn. destruct (String.eqb name node); lia.
Qed.

Lemma current_task_state_Ok (ctx : SdlcCtx X) caller task :
  current_task_state ctx caller = Ok task ->
  exists e s, r_queue ctx = Some e /\ latest_state ctx = Ok s /\
    find_task (current_task_id e) (tasks s) = Some task.
Proof.
  unfold current_task_state, current_task_fields. destruct (r_queue ctx) as [e|]; [|done]. cbn.
  destruct (latest_state ctx) as [s|]; [|done]. cbn.
  destruct (find_task _ _) eqn:E; [|done]. intros [= ->]. eauto.
Qed.

Lemma implement_spec ctx w ctx' w' t :
  ImplementTaskNode_process implement_config ctx w = (Ok ctx', w', t) ->
  exists s task i ss, latest_state ctx = Ok s /\ current_task_state ctx "ImplementTaskNode" = Ok task /\
    ctx' = put_implement i (add_sessions ss ctx) /\ im_state i = set_telemetry charge_attempt s /\
    im_task_id i = task_id task /\
    calls "ImplementTaskNode" t = 1 /\ calls "ConsolidatedReviewNode" t = 0.
Proof.
  unfold ImplementTaskNode_process. intros E.
  apply try_eret_inv in E as [(e & _ & [=])|(current & _ & E)].
  apply try_eret_inv in E as [(e & _ & [=])|(policy & _ & E)].
  apply try_eret_inv in E as [(e & _ & [=])|(task & Ht & E)].
  apply try_eret_inv in E as [(e & _ & [=])|(s & Hs & E)]. cbv zeta in E.
  destruct (effective_policy policy task) as [effective tier]. destruct (apply_policy _ _ _ _) as [config prompt].
  apply ebind_inv in E as (sha & w1 & t1 & t2 & E1 & E & ->).
  apply try_bind_inv in E as [(e & _ & [=])|(reply & w2 & t3 & t4 & E2 & E & ->)].
  apply ebind_inv in E as (modified & w3 & t5 & t6 & E3 & E & ->).
  apply eret_inv in E as ([= ->] & _ & ->).
  exists s, task. eexists _, _. split; [done|]. split; [done|]. split; [reflexivity|]. split; [done|].
  split; [done|]. rewrite !calls_app.
  assert (H1 : forall n, calls n t1 = 0).
  { intros n. eapply quiet_calls; [|exact E1]. unfold git_worktree_head_sha. only_go. }
  assert (H5 : forall n, calls n t5 = 0).
  { intros n. eapply quiet_calls; [|exact E3].
    unfold git_files_changed_since, git_worktree_changed_files, run_or_empty. only_go. }
  rewrite !H1, !H5, !(call_agent_calls _ _ _ _ _ _ _ _ _ E2). done.
Qed.

(** A context before a node's entry is written: the call may have billed. *)
Definition billed_into (ctx ctx0 : SdlcCtx X) : Prop := ctx0 = ctx \/ exists ss, ctx0 = add_sessions ss ctx.

(** No model classifies failures: the event's field, else the policy's knob. *)
Definition triage_off (ctx : SdlcCtx X) : Prop :=
  match ev_llm_triage ctx with
  | Some bare => bare = false
  | None => exists p, resolved_policy ctx = Ok p /\ llm_triage p = false
  end.

(** The verdicts the routers know. *)
Definition TRIAGE_VERDICTS : list string := ["PASS"; "RETRYABLE"; "MAJOR_BAIL"].
Definition REVIEW_VERDICTS : list string := ["PASS"; "FAIL"; "PARTIAL"].

Lemma quiet_classify ctx policy : only no_call (classify_trivial (H := H) ctx policy).
Proof. unfold classify_trivial, stage_untracked_intent. only_go. Qed.

Lemma triage_spec ctx w ctx' w' t :
  TriageTaskNode_process triage_config ctx w = (Ok ctx', w', t) ->
  exists test task ctx0 tr, r_test ctx = Some test /\ current_task_state ctx "TriageTaskNode" = Ok task /\
    billed_into ctx ctx0 /\ ctx' = put_triage tr ctx0 /\
    (forall node, node <> "TriageTaskNode" -> calls node t = 0) /\
    (tr_verdict tr = "RETRYABLE" -> attempt_count task < max_attempts task) /\
    (triage_off ctx -> tr_verdict tr = "PASS" -> all_passed_of test = Some true) /\
    tr_unrecognized tr = unrecognized TRIAGE_VERDICTS (tr_verdict tr).
Proof.
  unfold TriageTaskNode_process. intros E.
  apply try_eret_inv in E as [(e & _ & [=])|(test & Htest & E)].
  destruct (r_test ctx) as [test'|]; [injection Htest as ->|done].
  apply try_eret_inv in E as [(e & _ & [=])|(current & _ & E)].
  apply try_eret_inv in E as [(e & _ & [=])|(task & Ht & E)].
  exists test, task. destruct (all_passed_of test) as [[|]|] eqn:Eap; cbn [default] in E.
  { apply try_eret_inv in E as [(e & _ & [=])|(policy & _ & E)].
    apply ebind_inv in E as (trivial & w1 & t1 & t2 & E1 & E & ->). apply eret_inv in E as ([= ->] & _ & ->).
    exists ctx. eexists. split_and!; [done|done|by left|reflexivity| |done|done|done].
    intros node _. rewrite calls_app, (quiet_calls _ _ _ _ _ node (quiet_classify _ _) E1). done. }
  all: destruct (check_results_of test ≫= escalating_check) as [c|];
    [apply eret_inv in E as ([= ->] & _ & ->); exists ctx; eexists;
     split_and!; [done|done|by left|reflexivity|done|done|done|done]|].
  all: destruct (Z.leb_spec (max_attempts task) (attempt_count task));
    [apply eret_inv in E as ([= ->] & _ & ->); exists ctx; eexists;
     split_and!; [done|done|by left|reflexivity|done|done|done|done]|].
  all: apply try_eret_inv in E as [(e & _ & [=])|(use_llm & Hllm & E)].
  all: destruct use_llm; cbn [negb] in E;
    [|apply eret_inv in E as ([= ->] & _ & ->); exists ctx; eexists;
      split_and!; [done|done|by left|reflexivity|done|done|done|done]].
  all: assert (Hoff : ~ triage_off ctx) by
    (unfold triage_off; destruct (ev_llm_triage ctx) as [b|];
     [by injection Hllm as ->|intros (p & Hp & Hl); rewrite Hp in Hllm; congruence]).
  all: unfold triage_by_model in E; apply try_eret_inv in E as [(e & _ & [=])|(policy & _ & E)].
  all: destruct (apply_policy _ _ _ _) as [config prompt];
    apply try_bind_inv in E as [(e & _ & [=])|(reply & w2 & t3 & t4 & E2 & E & ->)].
  all: destruct (content reply) as [content|]; [|apply eret_inv in E as ([=] & _ & _)].
  all: destruct (match parse_model_verdict _ _ _ _ with Parsed _ => _ | Unparseable _ _ => _ end)
    as [parsed preview]; apply eret_inv in E as ([= ->] & _ & ->).
  all: eexists _, _; split_and!; [done|done|by right; eexists|reflexivity| |done|done|done].
  all: intros node Hne; rewrite calls_app, (call_agent_calls node _ _ _ _ _ _ _ _ E2);
    by destruct (String.eqb_spec "TriageTaskNode" node) as [<-|].
Qed.

Lemma review_spec ctx w ctx' w' t :
  ConsolidatedReviewNode_process review_config ctx w = (Ok ctx', w', t) ->
  exists s e p r ss stamp, latest_state ctx = Ok s /\ r_queue ctx = Some e /\ resolved_policy ctx = Ok p /\
    ctx' = put_review r (add_sessions ss ctx) /\ rv_stamp r = Some stamp /\
    charge_verdict (rv_verdict r) (set_telemetry charge_review s) (current_task_id e)
      = Ok (stamp, rv_state r) /\
    rv_unrecognized r = unrecognized REVIEW_VERDICTS (rv_verdict r) /\
    calls "ImplementTaskNode" t = 0 /\ calls "ConsolidatedReviewNode" t = 1.
Proof.
  unfold ConsolidatedReviewNode_process. intros E.
  apply try_eret_inv in E as [(e & _ & [=])|(worktree & _ & E)].
  apply try_eret_inv in E as [(e & _ & [=])|(current & Hc & E)].
  apply try_eret_inv in E as [(e & _ & [=])|(s & Hs & E)]. cbv zeta in E.
  apply ebind_inv in E as (u & w1 & t1 & t2 & E1 & E & ->).
  apply ebind_inv in E as (r & w2 & t3 & t4 & E2 & E & ->).
  apply try_eret_inv in E as [(e & _ & [=])|(policy & Hp & E)].
  destruct (bound_review_diff _ _) as [diff truncated]. destruct (apply_policy _ _ _ _) as [config prompt].
  apply try_bind_inv in E as [(e & _ & [=])|(reply & w3 & t5 & t6 & E3 & E & ->)].
  destruct (content reply) as [content|]; [|apply eret_inv in E as ([=] & _ & _)].
  destruct (match parse_model_verdict _ _ _ _ with Parsed _ => _ | Unparseable _ _ => _ end)
    as [parsed preview].
  destruct (charge_verdict _ _ _) as [[stamp s']|e] eqn:Ec; [|apply eret_inv in E as ([=] & _ & _)].
  apply eret_inv in E as ([= ->] & _ & ->).
  unfold current_task_fields in Hc. destruct (r_queue ctx) as [e|]; [injection Hc as ->|done].
  eexists s, current, policy, _, _, stamp. split_and!; [done|done|done|reflexivity|done|exact Ec|done| |].
  all: rewrite !calls_app, (call_agent_calls _ _ _ _ _ _ _ _ _ E3);
    rewrite (quiet_calls _ _ _ _ _ _ (only_run no_call _ _ _ eq_refl) E1), (quiet_calls _ _ _ _ _ _ (only_run no_call _ _ _ eq_refl) E2); done.
Qed.

Lemma save_spec ctx w ctx' w' t :
  SaveStateNode_process build state_filename ctx w = (Ok ctx', w', t) ->
  (exists r, ctx' = put_save r ctx) /\ forall node, calls node t = 0.
Proof.
  intros E. split.
  - unfold SaveStateNode_process in E.
    apply try_eret_inv in E as [(e & _ & [=])|(worktree & _ & E)].
    apply try_eret_inv in E as [(e & _ & [=])|(s & Hs & E)]. cbv zeta in E.
    apply ebind_inv in E as (made & w1 & t1 & t2 & _ & E & ->).
    destruct made; [|apply eret_inv in E as ([=] & _ & _)].
    apply ebind_inv in E as (meta & w2 & t3 & t4 & _ & E & ->).
    destruct (json_pretty _); [|apply eret_inv in E as ([=] & _ & _)].
    apply ebind_inv in E as (written & w3 & t5 & t6 & _ & E & ->).
    destruct written; [|apply eret_inv in E as ([=] & _ & _)].
    apply ebind_inv in E as (outcome & w4 & t7 & t8 & _ & E & ->).
    destruct (failure_detail outcome); apply eret_inv in E as ([= ->] & _ & _). eauto.
  - intros node. eapply quiet_calls; [|exact E]. by apply only_save.
Qed.

(** ** What is left to do *)

Section Measure.
(** the run's bound on review attempts *)
Variable mr : Z.

(** A pending task can still pass, be retried by triage, or by review. *)
Definition weight (t : SDLCTask) : Z :=
  if is_pending t
  then 1 + Z.max 0 (max_attempts t - attempt_count t) + Z.max 0 (mr - review_attempt_count t) else 0.
Definition work_left (s : SDLCState) : Z := sum_of weight (tasks s).

Definition retried_state (ctx : SdlcCtx X) (s : SDLCState) : SDLCState :=
  match r_queue ctx with
  | Some e => match bump_task_attempt s (current_task_id e) with Ok s' => s' | Err _ => s end
  | None => s
  end.

(** Nodes left to process from [n] on, counted at the latest state [s]. *)
Definition steps_left (n : LoopNode) (ctx : SdlcCtx X) (s : SDLCState) : Z :=
  match n with
  | QueueRouter => 10 * work_left s + 10
  | ImplementNode => 10 * work_left s + 9
  | TestNode => 10 * work_left s + 8
  | TriageNode => 10 * work_left s + 7
  | TriageRouter => 10 * work_left s + 6
  | ReviewNode => 10 * work_left s + 5
  | ReviewRouter => match route_review ctx with
                    | Some (Goto IncrementNode) => 10 * work_left s + 14
                    | _ => 10 * work_left s + 4
                    end
  | UpdateNode => 10 * work_left s + 3
  | SaveNode => 10 * work_left s + 11
  | IncrementNode => 10 * work_left (retried_state ctx s) + 10
  end.

Lemma weight_nonneg t : 0 <= weight t.
Proof. unfold weight. destruct (is_pending t); lia. Qed.
Lemma sum_nonneg ts : 0 <= sum_of weight ts.
Proof. induction ts as [|t ts IH]; cbn; [lia|]. pose proof (weight_nonneg t). unfold sum_of in IH. lia. Qed.

(** Counters that are [k] increments away from wrapping. *)
Definition counter_room (k c : Z) : Prop := 0 <= c /\ c + k <= u32_max.
Definition room (k : Z) (s : SDLCState) : Prop :=
  counter_room k (total_attempts (telemetry s)) /\ counter_room k (review_attempts (telemetry s)) /\
  counter_room k (tasks_passed (telemetry s)) /\
  Forall (fun t => counter_room k (attempt_count t) /\ counter_room k (review_attempt_count t)) (tasks s).

Lemma u32_succ k c : 0 < k -> counter_room k c -> u32_add c 1 = c + 1.
Proof. unfold counter_room, u32_add, u32_max. intros Hk [H0 H1]. apply Z.mod_small. lia. Qed.

Lemma counter_room_mono k k' c : k' <= k -> counter_room k c -> counter_room k' c.
Proof. unfold counter_room. lia. Qed.
Lemma counter_room_succ k k' c : k' < k -> 0 < k -> counter_room k c -> counter_room k' (u32_add c 1).
Proof. intros Hlt Hk Hc. rewrite (u32_succ k c Hk Hc). unfold counter_room in *. lia. Qed.

Definition task_room (k : Z) (t : SDLCTask) : Prop :=
  counter_room k (attempt_count t) /\ counter_room k (review_attempt_count t).

Lemma task_room_mono k k' t : k' <= k -> task_room k t -> task_room k' t.
Proof. intros Hle []. split; by eapply counter_room_mono. Qed.

(** An update of one task that raises a counter by at most one. *)
Definition gentle (f : SDLCTask -> SDLCTask) : Prop :=
  forall k k' t, k' < k -> 0 < k -> task_room k t -> task_room k' (f t).

Lemma gentle_retried : gentle retried.
Proof. intros k k' t Hlt Hk []. split; cbn; [by eapply counter_room_succ|]. eapply counter_room_mono; [|done]. lia. Qed.
Lemma gentle_charged : gentle review_charged.
Proof. intros k k' t Hlt Hk []. split; cbn; [|by eapply counter_room_succ]. eapply counter_room_mono; [|done]. lia. Qed.
Lemma gentle_done : gentle done_task.
Proof. intros k k' t Hlt Hk Ht. apply (task_room_mono k k' t); [lia|done]. Qed.

Lemma room_update k k' id f ts ts' :
  gentle f -> k' < k -> 0 < k -> update_task id f ts = Some ts' ->
  Forall (task_room k) ts -> Forall (task_room k') ts'.
Proof.
  intros Hf Hlt Hk (pre & t & post & -> & _ & -> & _)%update_task_Some.
  rewrite !Forall_app, !Forall_cons. intros (H1 & H2 & H3).
  split_and!; [|by eapply Hf|]; (eapply Forall_impl; [done|]); intros u Hu;
    (eapply task_room_mono; [|done]); lia.
Qed.

Lemma room_mono k k' s : k' <= k -> room k s -> room k' s.
Proof.
  intros Hle (H1 & H2 & H3 & H4). split_and!; try by eapply counter_room_mono.
  eapply Forall_impl; [exact H4|]. intros t. by apply task_room_mono.
Qed.

(** ** Updates and the work left *)

Lemma work_update id f s ts' t :
  update_task id f (tasks s) = Some ts' -> find_task id (tasks s) = Some t ->
  sum_of weight ts' = work_left s + (weight (f t) - weight t).
Proof. intros Hu Hf. by eapply sum_of_update. Qed.

Lemma weight_retried k t : 0 < k -> task_room k t -> is_pending t = true ->
  weight (retried t) <= weight t /\ (attempt_count t < max_attempts t -> weight (retried t) <= weight t - 1).
Proof.
  intros Hk [Ha _] Hp. unfold weight. change (is_pending (retried t)) with (is_pending t). rewrite Hp. cbn.
  rewrite (u32_succ k _ Hk Ha). lia.
Qed.
Lemma weight_charged k t : 0 < k -> task_room k t -> is_pending t = true ->
  weight (review_charged t) <= weight t /\ (review_attempt_count t < mr -> weight (review_charged t) <= weight t - 1).
Proof.
  intros Hk [_ Hr] Hp. unfold weight. change (is_pending (review_charged t)) with (is_pending t). rewrite Hp. cbn.
  rewrite (u32_succ k _ Hk Hr). lia.
Qed.
Lemma weight_done t : is_pending t = true -> weight (done_task t) <= weight t - 1.
Proof. intros Hp. unfold weight. rewrite Hp. change (is_pending (done_task t)) with false. cbv iota. lia. Qed.

Lemma find_task_room k id s t : room k s -> find_task id (tasks s) = Some t -> task_room k t.
Proof.
  intros (_ & _ & _ & Hr) [Hin _]%find_task_Some. rewrite Forall_forall in Hr. by apply Hr.
Qed.
End Measure.

(** ** One node *)

Definition is_done (t : SDLCTask) : bool := bool_decide (task_status t = TsDone).
Definition done_count (s : SDLCState) : Z := sum_of (fun t => if is_done t then 1 else 0) (tasks s).

(** Neither pending nor terminal: statuses the queue does not pick. *)
Definition is_stuck (t : SDLCTask) : bool := negb (is_pending t) && negb (is_terminal_task t).
Definition stuck_count (s : SDLCState) : Z := sum_of (fun t => if is_stuck t then 1 else 0) (tasks s).

(** Whether an attempt is under way when [n] is next, and after it. *)
Definition open_at (n : LoopNode) : Z :=
  match n with QueueRouter | ImplementNode | SaveNode => 0 | _ => 1 end.
Definition open_after (n : LoopNode) : Z :=
  match n with QueueRouter | UpdateNode | SaveNode | IncrementNode => 0 | _ => 1 end.

(** Attempts that are neither a pass nor a retry. *)
Definition unsettled (s : SDLCState) : Z :=
  total_attempts (telemetry s) - tasks_passed (telemetry s) - attempts_sum (tasks s).

Record counted (n : LoopNode) (s : SDLCState) (t : list (SdlcEvent X)) (s' : SDLCState) : Prop := {
  k_total : total_attempts (telemetry s') = total_attempts (telemetry s) + calls "ImplementTaskNode" t;
  k_review : review_attempts (telemetry s') = review_attempts (telemetry s) + calls "ConsolidatedReviewNode" t;
  k_passed : tasks_passed (telemetry s') - tasks_passed (telemetry s) = done_count s' - done_count s;
  k_ids : map task_id (tasks s') = map task_id (tasks s);
  k_stuck : stuck_count s' = stuck_count s;
  k_unsettled : unsettled s' - open_after n = unsettled s - open_at n
}.

Definition current_task (ctx : SdlcCtx X) (s : SDLCState) (t : SDLCTask) : Prop :=
  exists e, r_queue ctx = Some e /\ find_task (current_task_id e) (tasks s) = Some t /\ is_pending t = true.

Definition at_node (n : LoopNode) (ctx : SdlcCtx X) (s : SDLCState) : Prop :=
  match n with
  | QueueRouter | SaveNode => True
  | TriageRouter => exists t, current_task ctx s t /\
      forall tr, r_triage ctx = Some tr -> tr_verdict tr = "RETRYABLE" -> attempt_count t < max_attempts t
  | _ => exists t, current_task ctx s t
  end.

Record config_ok (p : SdlcPolicy) (n : LoopNode) (ctx : SdlcCtx X) (s : SDLCState) : Prop := {
  c_policy : resolved_policy ctx = Ok p;
  c_running : md_suspended ctx = false;
  c_state : latest_state ctx = Ok s;
  c_ids : NoDup (map task_id (tasks s));
  c_room : room (steps_left (max_review_attempts p) n ctx s) s;
  c_at : at_node n ctx s
}.

(** What processing one node establishes. *)
Definition step_ok (p : SdlcPolicy) (n : LoopNode) (ctx : SdlcCtx X) (s : SDLCState)
    (ctx' : SdlcCtx X) (t : list (SdlcEvent X)) : Prop :=
  exists s', latest_state ctx' = Ok s' /\ counted n s t s' /\
    (md_suspended ctx' = false -> forall m, next_node n ctx' = Some (Goto m) ->
       config_ok p m ctx' s' /\
       steps_left (max_review_attempts p) m ctx' s' < steps_left (max_review_attempts p) n ctx s).

Lemma counted_same n s t :
  open_at n = open_after n -> (forall node, (node = "ImplementTaskNode" \/ node = "ConsolidatedReviewNode") -> calls node t = 0) ->
  counted n s t s.
Proof.
  intros Ho Hq. split; [rewrite Hq by auto; lia|rewrite Hq by auto; lia|lia|done|done|lia].
Qed.

(** A node that leaves the state alone and moves on. *)
Lemma same_state_step p n ctx s ctx' t :
  config_ok p n ctx s -> latest_state ctx' = Ok s -> resolved_policy ctx' = Ok p ->
  open_at n = open_after n ->
  (forall node, (node = "ImplementTaskNode" \/ node = "ConsolidatedReviewNode") -> calls node t = 0) ->
  (md_suspended ctx' = false -> forall m, next_node n ctx' = Some (Goto m) -> at_node m ctx' s /\
     steps_left (max_review_attempts p) m ctx' s < steps_left (max_review_attempts p) n ctx s) ->
  step_ok p n ctx s ctx' t.
Proof.
  intros [Hp Hr Hs Hids Hroom Hat] Hs' Hp' Ho Hq Hgo. exists s. split; [done|].
  split; [by apply counted_same|]. intros Hr' m Hm. destruct (Hgo Hr' m Hm) as [Hat' Hlt].
  split; [|done]. split; try done. eapply room_mono; [|exact Hroom]. lia.
Qed.

Lemma step_queue p ctx s w ctx' w' t :
  config_ok p QueueRouter ctx s -> TaskQueueRouterNode_process ctx w = (Ok ctx', w', t) ->
  step_ok p QueueRouter ctx s ctx' t.
Proof.
  intros Hc E. pose proof Hc as [Hp Hr Hs Hids Hroom Hat]. unfold TaskQueueRouterNode_process in E.
  rewrite Hs in E. apply try_eret_inv in E as [(e & [=] & _)|(s0 & [= <-] & E)].
  apply eret_inv in E as ([= ->] & _ & ->).
  destruct (next_pending s (allowed_task_ids ctx)) as [task|] eqn:En.
  - apply (same_state_step p QueueRouter ctx s); try done. intros _ m Hm.
    assert (Hm' : m = ImplementNode).
    { cbn [next_node] in Hm. unfold route_queue in Hm.
      change (latest_state (put_queue _ ctx)) with (latest_state ctx) in Hm. rewrite Hs in Hm.
      change (allowed_task_ids (put_queue _ ctx)) with (allowed_task_ids ctx) in Hm.
      rewrite En in Hm. by injection Hm as <-. }
    subst m. cbn [steps_left]. split; [|lia].
    apply find_some in En as [Hin Hpend]. apply andb_true_iff in Hpend as [Hpend _].
    exists task, (queue_entry task). split; [done|]. split; [|done].
    apply find_task_nodup; [done|]. by apply list_elem_of_In.
  - apply (same_state_step p QueueRouter ctx s); try done. intros _ m Hm.
    cbn [next_node] in Hm. unfold route_queue in Hm. rewrite Hs, En in Hm. done.
Qed.

Lemma step_test p ctx s w ctx' w' t :
  config_ok p TestNode ctx s -> TestTaskNode_process ctx w = (Ok ctx', w', t) ->
  step_ok p TestNode ctx s ctx' t.
Proof.
  intros Hc E. pose proof Hc as [Hp Hr Hs Hids Hroom Hat].
  assert (Hq : forall node, calls node t = 0) by (intros node; eapply quiet_calls; [|exact E]; by apply only_test).
  destruct (test_process_shape ctx w ctx' w' t E) as (worktree & policy & task & _ & _ & _ & guard & Hshape).
  assert (Hput : forall r, step_ok p TestNode ctx s (put_test r ctx) t).
  { intros r. apply (same_state_step p TestNode ctx s); try done. intros _ m [= <-].
    cbn [steps_left]. split; [exact Hat|lia]. }
  destruct Hshape as [(id & job & -> & _)|[(path & id & meta & _ & ->)|(h & sel & se & meta & w1 & rs & w2 & t2 & _ & _ & ->)]];
    [|by apply Hput|by apply Hput].
  by apply (same_state_step p TestNode ctx s).
Qed.

Lemma billed_into_frame ctx ctx0 :
  billed_into ctx ctx0 ->
  latest_state ctx0 = latest_state ctx /\ resolved_policy ctx0 = resolved_policy ctx /\
  r_queue ctx0 = r_queue ctx /\ md_suspended ctx0 = md_suspended ctx /\ r_test ctx0 = r_test ctx /\
  r_implement ctx0 = r_implement ctx /\ ev_llm_triage ctx0 = ev_llm_triage ctx /\
  ev_task_range ctx0 = ev_task_range ctx /\ r_review ctx0 = r_review ctx /\ ev_repo ctx0 = ev_repo ctx.
Proof. by intros [-> | [ss ->]]. Qed.

Lemma step_triage p ctx s w ctx' w' t :
  config_ok p TriageNode ctx s -> TriageTaskNode_process triage_config ctx w = (Ok ctx', w', t) ->
  step_ok p TriageNode ctx s ctx' t.
Proof.
  intros Hc E. pose proof Hc as [Hp Hr Hs Hids Hroom (tk & e & He & Hf & Hpend)].
  destruct (triage_spec _ _ _ _ _ E) as (test & task & ctx0 & tr & _ & Ht & Hb & -> & Hq & Hretry & _ & _).
  destruct (billed_into_frame _ _ Hb) as (H1 & H2 & H3 & H4 & _).
  apply current_task_state_Ok in Ht as (e' & s0 & He' & Hs0 & Hf').
  rewrite He in He'. injection He' as <-. rewrite Hs in Hs0. injection Hs0 as <-.
  rewrite Hf in Hf'. injection Hf' as <-.
  apply (same_state_step p TriageNode ctx s); try done.
  - change (latest_state (put_triage tr ctx0)) with (latest_state ctx0). by rewrite H1.
  - change (resolved_policy ctx0 = Ok p). by rewrite H2.
  - intros node [-> | ->]; by apply Hq.
  - intros _ m [= <-]. cbn [steps_left]. split; [|lia]. exists tk. split.
    + exists e. change (r_queue (put_triage tr ctx0)) with (r_queue ctx0). by rewrite H3.
    + intros tr' [= <-]. done.
Qed.

Lemma retried_state_eq ctx s e s' :
  r_queue ctx = Some e -> bump_task_attempt s (current_task_id e) = Ok s' -> retried_state ctx s = s'.
Proof. unfold retried_state. by intros -> ->. Qed.

Lemma bump_ok s id t :
  find_task id (tasks s) = Some t ->
  exists ts', update_task id retried (tasks s) = Some ts' /\
    bump_task_attempt s id = Ok (set_tasks (fun _ => ts') s).
Proof.
  intros Hf. destruct (update_task_find id retried _ _ Hf) as [ts' E]. exists ts'. split; [done|].
  unfold bump_task_attempt, on_task. by rewrite E.
Qed.

Lemma retried_work mr k ctx s t :
  0 < k -> room k s -> current_task ctx s t ->
  work_left mr (retried_state ctx s) <= work_left mr s /\
  (attempt_count t < max_attempts t -> work_left mr (retried_state ctx s) <= work_left mr s - 1).
Proof.
  intros Hk Hroom (e & He & Hf & Hpend). destruct (bump_ok _ _ _ Hf) as (ts' & Hu & Hb).
  rewrite (retried_state_eq _ _ _ _ He Hb). unfold work_left at 1 3. cbn [tasks set_tasks].
  rewrite (work_update mr _ _ _ _ _ Hu Hf).
  pose proof (weight_retried mr k t Hk (find_task_room _ _ _ _ Hroom Hf) Hpend). lia.
Qed.

Lemma step_triage_router p ctx s :
  config_ok p TriageRouter ctx s -> step_ok p TriageRouter ctx s ctx [].
Proof.
  intros Hc. pose proof Hc as [Hp Hr Hs Hids Hroom (t & Hcur & Hretry)].
  apply (same_state_step p TriageRouter ctx s); try done. intros _ m Hm.
  cbn [next_node] in Hm. unfold route_triage in Hm. destruct (r_triage ctx) as [tr|]; [|done].
  cbn [mbind option_bind] in Hm. specialize (Hretry tr eq_refl).
  destruct (String.eqb (tr_verdict tr) "PASS"); [|destruct (String.eqb_spec (tr_verdict tr) "RETRYABLE") as [Ev|]; [|done]].
  - rewrite Hp in Hm. injection Hm as <-.
    destruct (review_mode p); [| |]; try destruct (default false (trivial tr)); cbn [steps_left];
      (split; [by exists t|lia]).
  - injection Hm as <-. split; [by exists t|]. cbn [steps_left] in Hroom |- *.
    pose proof (sum_nonneg (max_review_attempts p) (tasks s)) as Hn. fold (work_left (max_review_attempts p) s) in Hn.
    assert (Hk : 0 < 10 * work_left (max_review_attempts p) s + 6) by lia.
    destruct (retried_work (max_review_attempts p) _ _ _ _ Hk Hroom Hcur) as [_ Hlt].
    specialize (Hlt (Hretry Ev)). lia.
Qed.

Lemma step_save p ctx s w ctx' w' t :
  config_ok p SaveNode ctx s -> SaveStateNode_process build state_filename ctx w = (Ok ctx', w', t) ->
  step_ok p SaveNode ctx s ctx' t.
Proof.
  intros Hc E. pose proof Hc as [Hp Hr Hs Hids Hroom _]. destruct (save_spec _ _ _ _ _ E) as ((r & ->) & Hq).
  apply (same_state_step p SaveNode ctx s); try done. intros _ m [= <-]. cbn [steps_left]. split; [done|lia].
Qed.

(** ** The nodes that write a state *)

(** Raising one of the run's counters. *)
Definition bumps (f : SDLCTelemetry -> SDLCTelemetry) : Prop :=
  forall tl k k', k' < k -> 0 < k ->
    counter_room k (total_attempts tl) -> counter_room k (review_attempts tl) -> counter_room k (tasks_passed tl) ->
    counter_room k' (total_attempts (f tl)) /\ counter_room k' (review_attempts (f tl)) /\
    counter_room k' (tasks_passed (f tl)) /\
    total_attempts (f tl) + review_attempts (f tl) + tasks_passed (f tl)
    = total_attempts tl + review_attempts tl + tasks_passed tl + 1.

Ltac bump_counter :=
  intros tl k k' Hlt Hk H1 H2 H3; cbn;
  split_and!; try (by eapply counter_room_succ); try (by eapply (counter_room_mono k); [lia|]);
  rewrite (u32_succ k) by done; lia.

Lemma bumps_attempt : bumps charge_attempt.
Proof. bump_counter. Qed.
Lemma bumps_review : bumps charge_review.
Proof. bump_counter. Qed.
Lemma bumps_pass : bumps charge_pass.
Proof. bump_counter. Qed.

Lemma room_written f k k' s s' :
  bumps f -> k' < k -> 0 < k -> room k s -> telemetry s' = f (telemetry s) ->
  Forall (task_room k') (tasks s') -> room k' s'.
Proof.
  intros Hf Hlt Hk (H1 & H2 & H3 & _) Htl Hts. destruct (Hf _ _ _ Hlt Hk H1 H2 H3) as (? & ? & ? & _).
  unfold room. rewrite Htl. by split_and!.
Qed.

Lemma tasks_room_mono k k' s : k' <= k -> room k s -> Forall (task_room k') (tasks s).
Proof. intros Hle (_ & _ & _ & Hr). eapply Forall_impl; [exact Hr|]. intros t. by apply task_room_mono. Qed.

Lemma clock_telemetry f k s :
  bumps f -> 0 < k -> room k s -> logical_clock (set_telemetry f s) = logical_clock s + 1.
Proof.
  intros Hf Hk (H1 & H2 & H3 & _). destruct (Hf _ k (k - 1) ltac:(lia) Hk H1 H2 H3) as (_ & _ & _ & E).
  rewrite !clock_sum. cbn [telemetry tasks set_telemetry]. lia.
Qed.

Lemma steps_positive p n ctx s : 0 < steps_left (max_review_attempts p) n ctx s.
Proof.
  pose proof (sum_nonneg (max_review_attempts p) (tasks s)) as H1.
  pose proof (sum_nonneg (max_review_attempts p) (tasks (retried_state ctx s))) as H2.
  unfold steps_left, work_left. destruct n; try lia. repeat case_match; lia.
Qed.

Lemma step_implement p ctx s w ctx' w' t :
  config_ok p ImplementNode ctx s -> ImplementTaskNode_process implement_config ctx w = (Ok ctx', w', t) ->
  step_ok p ImplementNode ctx s ctx' t.
Proof.
  intros Hc E. pose proof Hc as [Hp Hr Hs Hids Hroom (tk & Hcur)].
  pose proof (steps_positive p ImplementNode ctx s) as Hk.
  destruct (implement_spec _ _ _ _ _ E) as (s0 & task & i & ss & Hs0 & _ & -> & Hi & _ & Hci & Hcr).
  rewrite Hs in Hs0. injection Hs0 as <-. exists (set_telemetry charge_attempt s).
  assert (Hlt : logical_clock s < logical_clock (set_telemetry charge_attempt s)).
  { rewrite (clock_telemetry _ _ s bumps_attempt Hk Hroom). lia. }
  assert (Hs' : latest_state (put_implement i (add_sessions ss ctx)) = Ok (set_telemetry charge_attempt s)).
  { apply (last_write_wins s _ (add_sessions ss ctx)); [exact Hs|exact Hlt|]. rewrite <- Hi. constructor. }
  split; [done|]. split.
  - pose proof Hroom as (H1 & _).
    split; unfold done_count, unsettled; cbn -[sum_of attempts_sum];
      rewrite ?(u32_succ _ _ Hk H1), ?Hci, ?Hcr; lia || done.
  - intros _ m [= <-].
    assert (Hdec : steps_left (max_review_attempts p) TestNode (put_implement i (add_sessions ss ctx))
                     (set_telemetry charge_attempt s) < steps_left (max_review_attempts p) ImplementNode ctx s).
    { cbn [steps_left]. unfold work_left. cbn [tasks set_telemetry]. lia. }
    split; [|exact Hdec]. split; try done; [|by exists tk].
    eapply (room_written charge_attempt); [apply bumps_attempt|exact Hdec|exact Hk|exact Hroom|done|].
    eapply (tasks_room_mono _ _ s); [|exact Hroom]. lia.
Qed.


(** What charging a verdict does to the state. *)
Lemma charge_verdict_cases verdict s id stamp s' tk :
  find_task id (tasks s) = Some tk -> charge_verdict verdict s id = Ok (stamp, s') ->
  (verdict = "PASS" /\ s' = s) \/
  (verdict <> "PASS" /\ telemetry s' = telemetry s /\
   update_task id review_charged (tasks s) = Some (tasks s') /\
   find_task id (tasks s') = Some (review_charged tk) /\ stamp = review_attempt_count (review_charged tk)).
Proof.
  intros Hf. unfold charge_verdict. destruct (String.eqb_spec verdict "PASS") as [->|Hne]; [intros [= _ <-]; by left|].
  destruct (update_task_find id review_charged _ _ Hf) as [ts' Hu].
  unfold bump_task_review_attempt, on_task. rewrite Hu. cbn [tasks set_tasks].
  pose proof (find_task_update id review_charged _ _ _ (fun _ => eq_refl) Hu Hf) as Hf'.
  intros [= <- <-]. right. split_and!; [done|done|done|exact Hf'|].
  unfold task_review_attempts. cbn [tasks set_tasks]. by rewrite Hf'.
Qed.

(** An update of one task that neither finishes it nor retries it. *)
Lemma sums_charged id s ts' tk :
  find_task id (tasks s) = Some tk -> update_task id review_charged (tasks s) = Some ts' ->
  attempts_sum ts' = attempts_sum (tasks s) /\
  sum_of (fun t => if is_done t then 1 else 0) ts' = done_count s /\
  sum_of (fun t => if is_stuck t then 1 else 0) ts' = stuck_count s.
Proof.
  intros Hf Hu. unfold attempts_sum, done_count, stuck_count.
  rewrite (sum_of_update attempt_count _ _ _ _ _ Hu Hf), (sum_of_update (fun t => if is_done t then 1 else 0) _ _ _ _ _ Hu Hf),
    (sum_of_update (fun t => if is_stuck t then 1 else 0) _ _ _ _ _ Hu Hf).
  change (attempt_count (review_charged tk)) with (attempt_count tk).
  change (is_done (review_charged tk)) with (is_done tk).
  change (is_stuck (review_charged tk)) with (is_stuck tk). lia.
Qed.

(** The state after a review: every count but the reviews' is kept. *)
Record reviewed (mr k : Z) (s s' : SDLCState) : Prop := {
  v_telemetry : telemetry s' = charge_review (telemetry s);
  v_attempts : attempts_sum (tasks s') = attempts_sum (tasks s);
  v_done : done_count s' = done_count s;
  v_stuck : stuck_count s' = stuck_count s;
  v_ids : map task_id (tasks s') = map task_id (tasks s);
  v_work : work_left mr s' <= work_left mr s;
  v_room : forall k', k' < k -> Forall (task_room k') (tasks s')
}.

Lemma reviewed_verdict mr k verdict s id stamp s' tk :
  0 < k -> room k s -> find_task id (tasks s) = Some tk -> is_pending tk = true ->
  charge_verdict verdict (set_telemetry charge_review s) id = Ok (stamp, s') ->
  reviewed mr k s s' /\ (exists tk', find_task id (tasks s') = Some tk' /\ is_pending tk' = true) /\
  (verdict <> "PASS" -> stamp < mr -> work_left mr s' <= work_left mr s - 1).
Proof.
  intros Hk Hroom Hf Hpend Hch.
  destruct (charge_verdict_cases _ (set_telemetry charge_review s) _ _ _ _ Hf Hch)
    as [[-> ->]|(Hne & Htl & Hu & Hf' & ->)].
  - split; [|by split; [exists tk|]]. split; try done.
    intros k' Hlt. by eapply (tasks_room_mono _ _ s); [|exact Hroom]; lia.
  - change (tasks (set_telemetry charge_review s)) with (tasks s) in Hu.
    destruct (sums_charged _ _ _ _ Hf Hu) as (Ha & Hd & Hst).
    pose proof (find_task_room _ _ _ _ Hroom Hf) as Htr.
    destruct (weight_charged mr k tk Hk Htr Hpend) as [Hle Hlt].
    assert (Hw : work_left mr s' = work_left mr s + (weight mr (review_charged tk) - weight mr tk)).
    { unfold work_left at 1. by apply (work_update mr id _ s). }
    split; [|split; [by exists (review_charged tk)|]].
    + split; [done|exact Ha|exact Hd|exact Hst|by eapply update_task_ids; [|exact Hu]|lia|].
      intros k' Hk'. eapply room_update; [apply gentle_charged|exact Hk'|exact Hk|exact Hu|].
      by destruct Hroom as (_ & _ & _ & ?).
    + intros _ Hlt'. rewrite Hw. cbn in Hlt'. rewrite (u32_succ k _ Hk (proj2 Htr)) in Hlt'. lia.
Qed.

Lemma step_review p ctx s w ctx' w' t :
  config_ok p ReviewNode ctx s -> ConsolidatedReviewNode_process review_config ctx w = (Ok ctx', w', t) ->
  step_ok p ReviewNode ctx s ctx' t.
Proof.
  intros Hc E. pose proof Hc as [Hp Hr Hs Hids Hroom (tk & e & He & Hf & Hpend)].
  pose proof (steps_positive p ReviewNode ctx s) as Hk.
  destruct (review_spec _ _ _ _ _ E)
    as (s0 & e' & p' & r & ss & stamp & Hs0 & He' & Hp' & -> & Hst & Hch & _ & Hci & Hcr).
  rewrite Hs in Hs0. injection Hs0 as <-. rewrite He in He'. injection He' as <-.
  destruct (reviewed_verdict (max_review_attempts p) _ _ _ _ _ _ _ Hk Hroom Hf Hpend Hch)
    as ([Htl Ha Hd Hsk Hi Hw Hrm] & (tk' & Hf' & Hpend') & Hdrop).
  exists (rv_state r).
  assert (Hlt : logical_clock s < logical_clock (rv_state r)).
  { pose proof (clock_telemetry _ _ s bumps_review Hk Hroom) as Hclk. rewrite !clock_sum in *. rewrite Htl, Ha.
    cbn [telemetry tasks set_telemetry] in Hclk. lia. }
  split; [by apply (last_write_wins s _ (add_sessions ss ctx)); [| |constructor]|]. split.
  - pose proof Hroom as (_ & H1 & _).
    split; unfold unsettled; rewrite ?Htl, ?Ha, ?Hd, ?Hi, ?Hsk; cbn -[attempts_sum];
      rewrite ?(u32_succ _ _ Hk H1), ?Hci, ?Hcr; lia || done.
  - intros _ m [= <-].
    assert (Hdec : steps_left (max_review_attempts p) ReviewRouter (put_review r (add_sessions ss ctx)) (rv_state r)
                   < steps_left (max_review_attempts p) ReviewNode ctx s).
    { cbn [steps_left]. destruct (route_review _) as [[[]|]|] eqn:Er; try lia.
      enough (work_left (max_review_attempts p) (rv_state r) <= work_left (max_review_attempts p) s - 1) by lia.
      unfold route_review in Er. cbn [put_review r_review mbind option_bind] in Er.
      destruct (String.eqb_spec (rv_verdict r) "PASS") as [|Hne]; [done|]. apply Hdrop; [done|].
      assert (Hb : bounded_review_retry_route (put_review r (add_sessions ss ctx)) r = Some (Goto IncrementNode)).
      { destruct (_ || _); [|done]. by destruct (_ || _). }
      unfold bounded_review_retry_route, bounded_review_attempts in Hb. rewrite Hst in Hb.
      change (resolved_policy (put_review r (add_sessions ss ctx))) with (resolved_policy ctx) in Hb.
      rewrite Hp in Hb. destruct (Z.leb_spec (max_review_attempts p) stamp); [done|lia]. }
    split; [|exact Hdec]. split; try done.
    + by apply (last_write_wins s _ (add_sessions ss ctx)); [| |constructor].
    + by rewrite Hi.
    + eapply (room_written charge_review); [apply bumps_review|exact Hdec|exact Hk|exact Hroom|done|by apply Hrm].
    + exists tk', e. by split_and!.
Qed.

Lemma step_review_router p ctx s :
  config_ok p ReviewRouter ctx s -> step_ok p ReviewRouter ctx s ctx [].
Proof.
  intros Hc. pose proof Hc as [Hp Hr Hs Hids Hroom (tk & Hcur)].
  pose proof (steps_positive p ReviewRouter ctx s) as Hk.
  destruct (retried_work (max_review_attempts p) _ _ _ _ Hk Hroom Hcur) as [Hle _].
  apply (same_state_step p ReviewRouter ctx s); try done. intros _ m Hm. cbn [next_node] in Hm.
  cbn [steps_left]. rewrite Hm. unfold route_review in Hm. destruct (r_review ctx) as [review|]; [|done].
  cbn [mbind option_bind] in Hm. unfold bounded_review_retry_route in Hm.
  repeat case_match; simplify_eq; cbn [steps_left]; (split; [by exists tk|lia]).
Qed.

Lemma pending_not_done t : is_pending t = true -> is_done t = false.
Proof. unfold is_pending, is_done. intros ->%bool_decide_eq_true. done. Qed.

Lemma step_update p ctx s ctx' :
  config_ok p UpdateNode ctx s -> UpdateTaskStatusNode_process ctx = Ok ctx' ->
  step_ok p UpdateNode ctx s ctx' [].
Proof.
  intros Hc E. pose proof Hc as [Hp Hr Hs Hids Hroom (tk & e & He & Hf & Hpend)].
  pose proof (steps_positive p UpdateNode ctx s) as Hk. pose proof Hroom as (_ & _ & H1 & Hts).
  unfold UpdateTaskStatusNode_process, current_task_fields in E. rewrite He, Hs in E.
  destruct (r_triage ctx); [|done]. destruct (negb _); [done|].
  destruct (update_task_find (current_task_id e) done_task _ _ Hf) as [ts' Hu].
  unfold mark_done in E. rewrite Hu in E. injection E as <-.
  pose proof (sum_of_update attempt_count _ _ _ _ _ Hu Hf) as Ha.
  pose proof (sum_of_update (fun t => if is_done t then 1 else 0) _ _ _ _ _ Hu Hf) as Hd.
  change (attempt_count (done_task tk)) with (attempt_count tk) in Ha.
  cbv beta in Hd. change (is_done (done_task tk)) with true in Hd. rewrite (pending_not_done _ Hpend) in Hd.
  pose proof (sum_of_update (fun t => if is_stuck t then 1 else 0) _ _ _ _ _ Hu Hf) as Hsk.
  cbv beta in Hsk. change (is_stuck (done_task tk)) with false in Hsk.
  replace (is_stuck tk) with false in Hsk by (unfold is_stuck; by rewrite Hpend).
  pose proof (update_task_ids _ done_task _ _ (fun _ => eq_refl) Hu) as Hi.
  set (s' := set_telemetry charge_pass (set_tasks (fun _ => ts') s)).
  assert (Hlt : logical_clock s < logical_clock s').
  { rewrite !clock_sum. unfold attempts_sum. cbn -[sum_of]. rewrite (u32_succ _ _ Hk H1), Ha. lia. }
  assert (Hs' : latest_state (put_update s' ctx) = Ok s')
    by (apply (last_write_wins s _ ctx); [exact Hs|exact Hlt|constructor]).
  assert (Hw : work_left (max_review_attempts p) s' <= work_left (max_review_attempts p) s - 1).
  { pose proof (weight_done (max_review_attempts p) tk Hpend).
    pose proof (work_update (max_review_attempts p) _ _ _ _ _ Hu Hf).
    change (work_left (max_review_attempts p) s') with (sum_of (weight (max_review_attempts p)) ts'). lia. }
  exists s'. split; [exact Hs'|]. split.
  - split; unfold done_count, stuck_count, unsettled, attempts_sum; cbn -[sum_of];
      rewrite ?(u32_succ _ _ Hk H1), ?Ha, ?Hd, ?Hsk;
      lia || done.
  - intros _ m [= <-].
    assert (Hdec : steps_left (max_review_attempts p) SaveNode (put_update s' ctx) s'
                   < steps_left (max_review_attempts p) UpdateNode ctx s) by (cbn [steps_left]; lia).
    split; [|exact Hdec]. split; try done; [by rewrite <- Hi in Hids|].
    eapply (room_written charge_pass); [apply bumps_pass|exact Hdec|exact Hk|exact Hroom|done|].
    by eapply room_update; [apply gentle_done|exact Hdec|exact Hk|exact Hu|].
Qed.

Lemma step_increment p ctx s ctx' :
  config_ok p IncrementNode ctx s -> IncrementAttemptNode_process ctx = Ok ctx' ->
  step_ok p IncrementNode ctx s ctx' [].
Proof.
  intros Hc E. pose proof Hc as [Hp Hr Hs Hids Hroom (tk & e & He & Hf & Hpend)].
  pose proof (steps_positive p IncrementNode ctx s) as Hk. pose proof Hroom as (H1 & H2 & H3 & Hts).
  unfold IncrementAttemptNode_process, current_task_fields in E. rewrite He, Hs in E.
  destruct (bump_ok _ _ _ Hf) as (ts' & Hu & Hb). rewrite Hb in E.
  pose proof (retried_state_eq _ _ _ _ He Hb) as Hret.
  set (s' := set_tasks (fun _ => ts') s) in *.
  pose proof (find_task_update _ retried _ _ _ (fun _ => eq_refl) Hu Hf) as Hf'.
  change (tasks s') with ts' in E. rewrite Hf' in E. injection E as <-.
  pose proof (sum_of_update attempt_count _ _ _ _ _ Hu Hf) as Ha.
  pose proof (sum_of_update (fun t => if is_done t then 1 else 0) _ _ _ _ _ Hu Hf) as Hd.
  cbv beta in Hd. change (is_done (retried tk)) with (is_done tk) in Hd.
  pose proof (sum_of_update (fun t => if is_stuck t then 1 else 0) _ _ _ _ _ Hu Hf) as Hsk.
  cbv beta in Hsk. change (is_stuck (retried tk)) with (is_stuck tk) in Hsk.
  pose proof (find_task_room _ _ _ _ Hroom Hf) as Htr.
  change (attempt_count (retried tk)) with (u32_add (attempt_count tk) 1) in Ha.
  rewrite (u32_succ _ _ Hk (proj1 Htr)) in Ha.
  pose proof (update_task_ids _ retried _ _ (fun _ => eq_refl) Hu) as Hi.
  set (ctx0 := put_queue (restamp (attempt_count (retried tk)) e) ctx).
  assert (Hlt : logical_clock s < logical_clock s').
  { rewrite !clock_sum. unfold attempts_sum. cbn -[sum_of]. rewrite Ha. lia. }
  assert (Hs' : latest_state (put_increment s' ctx0) = Ok s')
    by (apply (last_write_wins s _ ctx0); [exact Hs|exact Hlt|constructor]).
  exists s'. split; [exact Hs'|]. split.
  - split; unfold done_count, stuck_count, unsettled, attempts_sum; cbn -[sum_of];
      rewrite ?Ha, ?Hd, ?Hsk; lia || done.
  - intros _ m [= <-].
    assert (Hdec : steps_left (max_review_attempts p) ImplementNode (put_increment s' ctx0) s'
                   < steps_left (max_review_attempts p) IncrementNode ctx s)
      by (cbn [steps_left]; rewrite Hret; lia).
    split; [|exact Hdec]. split; try done; [by rewrite <- Hi in Hids| |].
    + destruct (room_mono _ _ s (Z.lt_le_incl _ _ Hdec) Hroom) as (? & ? & ? & _). split_and!; try done.
      by eapply room_update; [apply gentle_retried|exact Hdec|exact Hk|exact Hu|].
    + exists (retried tk), (restamp (attempt_count (retried tk)) e). by split_and!.
Qed.

Lemma loop_step p n ctx s w ctx' w' t :
  config_ok p n ctx s -> process_node n ctx w = (Ok ctx', w', t) -> step_ok p n ctx s ctx' t.
Proof.
  intros Hc E. destruct n; cbn [TaskLoop.process_node] in E.
  - by eapply step_queue.
  - by eapply step_implement.
  - by eapply step_test.
  - by eapply step_triage.
  - apply eret_inv in E as ([= ->] & _ & ->). by apply step_triage_router.
  - by eapply step_review.
  - apply eret_inv in E as ([= ->] & _ & ->). by apply step_review_router.
  - apply eret_inv in E as (E & _ & ->). by apply step_update.
  - by eapply step_save.
  - apply eret_inv in E as (E & _ & ->). by apply step_increment.
Qed.

(** ** The walk *)

Lemma goto_opens n (ctx : SdlcCtx X) m : next_node n ctx = Some (Goto m) -> open_at m = open_after n.
Proof.
  destruct n; cbn; unfold route_queue, route_triage, route_review, bounded_review_retry_route, mbind, option_bind;
    intros E; repeat case_match; simplify_eq; done.
Qed.
Lemma leave_opens n (ctx : SdlcCtx X) e :
  next_node n ctx = Some (Leave e) -> open_after n = match e with FinalValidationNode => 0 | WrapUpNode => 1 end.
Proof.
  destruct n; cbn; unfold route_queue, route_triage, route_review, bounded_review_retry_route, mbind, option_bind;
    intros E; repeat case_match; simplify_eq; done.
Qed.

(** What a stretch of the walk adds to the counters; [d] attempts stay open. *)
Record accounted (d : Z) (s : SDLCState) (t : list (SdlcEvent X)) (s' : SDLCState) : Prop := {
  a_total : total_attempts (telemetry s') - total_attempts (telemetry s) = calls "ImplementTaskNode" t;
  a_review : review_attempts (telemetry s') - review_attempts (telemetry s) = calls "ConsolidatedReviewNode" t;
  a_passed : tasks_passed (telemetry s') - tasks_passed (telemetry s) = done_count s' - done_count s;
  a_ids : map task_id (tasks s') = map task_id (tasks s);
  a_stuck : stuck_count s' = stuck_count s;
  a_unsettled : unsettled s' - unsettled s = d
}.

Lemma counted_accounted n s t s' : counted n s t s' -> accounted (open_after n - open_at n) s t s'.
Proof. intros []. split; lia || done. Qed.

Lemma accounted_app d1 d2 s1 t1 s2 t2 s3 :
  accounted d1 s1 t1 s2 -> accounted d2 s2 t2 s3 -> accounted (d1 + d2) s1 (t1 ++ t2) s3.
Proof. intros [] []. split; rewrite ?calls_app; try lia; congruence. Qed.

Lemma walk_unfold fuel n ctx w r w' t :
  walk_loop (S fuel) n ctx w = (r, w', t) ->
  (exists e, r = Some (NodeFailed n e)) \/
  exists ctx' w1 t1, process_node n ctx w = (Ok ctx', w1, t1) /\
    ((r = Some (Parked ctx') /\ t = t1) \/
     (md_suspended ctx' = false /\ next_node n ctx' = None /\ r = Some (NoRoute n ctx') /\ t = t1) \/
     (exists e, md_suspended ctx' = false /\ next_node n ctx' = Some (Leave e) /\ r = Some (Left e ctx') /\ t = t1) \/
     (exists m t2, md_suspended ctx' = false /\ next_node n ctx' = Some (Goto m) /\
        walk_loop fuel m ctx' w1 = (r, w', t2) /\ t = t1 ++ t2)).
Proof.
  cbn [TaskLoop.walk_loop]. intros (x & w1 & t1 & t2 & E1 & E2 & ->)%ebind_inv.
  destruct x as [ctx'|e]; [|apply eret_inv in E2 as (-> & _ & _); left; by exists e].
  right. exists ctx', w1, t1. split; [done|]. destruct (md_suspended ctx').
  - apply eret_inv in E2 as (-> & _ & ->). left. by rewrite app_nil_r.
  - right. destruct (next_node n ctx') as [[m|e]|].
    + right. right. by exists m, t2.
    + apply eret_inv in E2 as (-> & _ & ->). right. left. exists e. by rewrite app_nil_r.
    + apply eret_inv in E2 as (-> & _ & ->). left. by rewrite app_nil_r.
Qed.

Lemma walk_ends p fuel n ctx s w r w' t :
  config_ok p n ctx s -> steps_left (max_review_attempts p) n ctx s <= Z.of_nat fuel ->
  walk_loop fuel n ctx w = (r, w', t) -> r <> None.
Proof.
  revert n ctx s w r w' t. induction fuel as [|fuel IH]; intros n ctx s w r w' t Hc Hfuel.
  { pose proof (steps_positive p n ctx s). lia. }
  intros [(e & ->)|(ctx' & w1 & t1 & E1 & Hcase)]%walk_unfold; [done|].
  destruct Hcase as [[-> _]|[(_ & _ & -> & _)|[(e & _ & _ & -> & _)|(m & t2 & Hr & Hm & E2 & ->)]]]; try done.
  destruct (loop_step _ _ _ _ _ _ _ _ Hc E1) as (s' & _ & _ & Hgo). destruct (Hgo Hr m Hm) as [Hc' Hlt].
  eapply IH; [exact Hc'|lia|exact E2].
Qed.

Lemma walk_accounts p fuel n ctx s w e ctx' w' t :
  config_ok p n ctx s -> walk_loop fuel n ctx w = (Some (Left e ctx'), w', t) ->
  exists m s', latest_state ctx' = Ok s' /\ next_node m ctx' = Some (Leave e) /\
    accounted (open_after m - open_at n) s t s'.
Proof.
  revert n ctx s w t. induction fuel as [|fuel IH]; intros n ctx s w t Hc; [by intros ([=] & _)%eret_inv|].
  intros [(? & [=])|(c1 & w1 & t1 & E1 & Hcase)]%walk_unfold.
  destruct (loop_step _ _ _ _ _ _ _ _ Hc E1) as (s1 & Hs1 & Hcnt%counted_accounted & Hgo).
  destruct Hcase as [[[=] _]|[(_ & _ & [=] & _)|[(e' & _ & Hl & [= -> ->] & ->)|(m & t2 & Hr & Hm & E2 & ->)]]].
  - by exists n, s1.
  - destruct (Hgo Hr m Hm) as [Hc' _]. destruct (IH _ _ _ _ _ Hc' E2) as (m' & s' & Hs' & Hl & Hacc).
    exists m', s'. split; [done|]. split; [done|]. pose proof (accounted_app _ _ _ _ _ _ _ Hcnt Hacc) as H12.
    rewrite (goto_opens _ _ _ Hm) in H12. replace (open_after m' - open_at n) with
      (open_after n - open_at n + (open_after m' - open_after n)) by lia. exact H12.
Qed.

(** A run may enter the loop: a policy, a state with distinct task ids, and
    counters that the loop cannot wrap. *)
Record loop_entry (p : SdlcPolicy) (ctx : SdlcCtx X) (s : SDLCState) : Prop := {
  e_policy : resolved_policy ctx = Ok p;
  e_running : md_suspended ctx = false;
  e_state : latest_state ctx = Ok s;
  e_ids : NoDup (map task_id (tasks s));
  e_room : room (10 * work_left (max_review_attempts p) s + 10) s
}.
Lemma entry_config p ctx s : loop_entry p ctx s -> config_ok p QueueRouter ctx s.
Proof. intros []. by split. Qed.

(** C6: the task loop ends.  Entered with distinct task ids and counters that
    have room, the walk over the ten nodes reaches a router's exit, a parked
    check, a missing route or a failing node within ten steps for every
    attempt still allowed, and ten more. *)
Theorem task_loop_ends p ctx s w fuel :
  loop_entry p ctx s -> 10 * work_left (max_review_attempts p) s + 10 <= Z.of_nat fuel ->
  exists r w' t, walk_loop fuel QueueRouter ctx w = (Some r, w', t).
Proof.
  intros He Hfuel. destruct (walk_loop fuel QueueRouter ctx w) as [[[r|] w'] t] eqn:E; [eauto|].
  by destruct (walk_ends p fuel QueueRouter ctx s w None w' t (entry_config _ _ _ He) Hfuel E).
Qed.

Lemma left_drained m ctx s :
  latest_state ctx = Ok s -> next_node m ctx = Some (Leave FinalValidationNode) ->
  next_pending s (allowed_task_ids ctx) = None.
Proof.
  intros Hs Hl. destruct m; cbn in Hl;
    unfold route_queue, route_triage, route_review, bounded_review_retry_route, mbind, option_bind in Hl;
    rewrite ?Hs in Hl; repeat case_match; simplify_eq; done.
Qed.

(** C5: the task loop accounts for every attempt.  When the walk leaves the
    loop, the run's counters have grown by the calls the log shows: every call
    of the implementer became a task done, a retry of one, or (on the way to
    the wrap-up only) the attempt it gives up on; no task is lost or renamed;
    and the way to the final validation means no allowed task is pending. *)
Theorem loop_conserves p ctx s w fuel e ctx' w' t :
  loop_entry p ctx s -> walk_loop fuel QueueRouter ctx w = (Some (Left e ctx'), w', t) ->
  exists s', latest_state ctx' = Ok s' /\
    calls "ImplementTaskNode" t
      = (done_count s' - done_count s) + (attempts_sum (tasks s') - attempts_sum (tasks s))
        + match e with FinalValidationNode => 0 | WrapUpNode => 1 end /\
    total_attempts (telemetry s') - total_attempts (telemetry s) = calls "ImplementTaskNode" t /\
    review_attempts (telemetry s') - review_attempts (telemetry s) = calls "ConsolidatedReviewNode" t /\
    tasks_passed (telemetry s') - tasks_passed (telemetry s) = done_count s' - done_count s /\
    map task_id (tasks s') = map task_id (tasks s) /\
    (e = FinalValidationNode -> next_pending s' (allowed_task_ids ctx') = None).
Proof.
  intros He E. destruct (walk_accounts _ _ _ _ _ _ _ _ _ _ (entry_config _ _ _ He) E) as (m & s' & Hs' & Hl & []).
  exists s'. pose proof (leave_opens _ _ _ Hl) as Ho. unfold unsettled in *. cbn [open_at] in *.
  split_and!; try lia; try done. intros ->. by eapply left_drained.
Qed.

(** ** What precedes a task's being marked done *)

(** The configurations the walk reaches: the node to process, its context. *)
Inductive reached (ctx0 : SdlcCtx X) : LoopNode -> SdlcCtx X -> Prop :=
| R_start : reached ctx0 QueueRouter ctx0
| R_next n ctx w ctx' w' t m :
    reached ctx0 n ctx -> process_node n ctx w = (Ok ctx', w', t) -> md_suspended ctx' = false ->
    next_node n ctx' = Some (Goto m) -> reached ctx0 m ctx'.

(** The configuration before the [k]-th node of the walk, if it gets there. *)
Fixpoint loop_at (k : nat) (n : LoopNode) (ctx : SdlcCtx X) (w : HW) : option (LoopNode * SdlcCtx X * HW) :=
  match k with
  | O => Some (n, ctx, w)
  | S k =>
      match process_node n ctx w with
      | (Ok ctx', w', _) =>
          if md_suspended ctx' then None
          else match next_node n ctx' with Some (Goto m) => loop_at k m ctx' w' | _ => None end
      | _ => None
      end
  end.

Lemma loop_at_reached ctx0 k n ctx w m ctx' w' :
  reached ctx0 n ctx -> loop_at k n ctx w = Some (m, ctx', w') -> reached ctx0 m ctx'.
Proof.
  revert n ctx w. induction k as [|k IH]; intros n ctx w Hr; cbn [loop_at]; [by intros [= <- <- _]|].
  destruct (process_node n ctx w) as [[[c|e] w1] t1] eqn:E; [|done]. destruct (md_suspended c) eqn:Es; [done|].
  destruct (next_node n c) as [[m'|]|] eqn:Em; try done. apply IH. by eapply R_next.
Qed.

(** [c] is of the same attempt as [ctx]: same task, same implementation. *)
Definition same_attempt (c ctx : SdlcCtx X) : Prop :=
  r_queue c = r_queue ctx /\ r_implement c = r_implement ctx.

(** The context's test result is what TestTaskNode made of this attempt. *)
Definition tested (ctx : SdlcCtx X) : Prop :=
  exists c w c1 w1 t, same_attempt c ctx /\ TestTaskNode_process c w = (Ok c1, w1, t) /\ r_test c1 = r_test ctx.
Definition green (ctx : SdlcCtx X) : Prop :=
  tested ctx /\ exists test, r_test ctx = Some test /\ all_passed_of test = Some true.
(** The context's review is what ConsolidatedReviewNode made of this attempt. *)
Definition reviewed_now (ctx : SdlcCtx X) : Prop :=
  exists c w c1 w1 t, same_attempt c ctx /\ ConsolidatedReviewNode_process review_config c w = (Ok c1, w1, t) /\
    r_review c1 = r_review ctx.
Definition approved (ctx : SdlcCtx X) : Prop :=
  reviewed_now ctx /\ exists r, r_review ctx = Some r /\ rv_verdict r = "PASS".

Definition checked (p : SdlcPolicy) (n : LoopNode) (ctx : SdlcCtx X) : Prop :=
  resolved_policy ctx = Ok p /\ triage_off ctx /\
  match n with
  | TriageNode => tested ctx
  | TriageRouter => forall tr, r_triage ctx = Some tr -> tr_verdict tr = "PASS" -> green ctx
  | ReviewNode => green ctx
  | ReviewRouter => green ctx /\ reviewed_now ctx
  | UpdateNode => green ctx /\ (review_mode p = PerTask -> approved ctx)
  | _ => True
  end.

(** The parts of the context no node of the loop writes. *)
Definition framed (ctx ctx' : SdlcCtx X) : Prop :=
  resolved_policy ctx' = resolved_policy ctx /\ ev_llm_triage ctx' = ev_llm_triage ctx /\
  ev_task_range ctx' = ev_task_range ctx /\ ev_repo ctx' = ev_repo ctx.

Lemma framed_off ctx ctx' : framed ctx ctx' -> triage_off ctx -> triage_off ctx'.
Proof. intros (H1 & H2 & _). unfold triage_off. by rewrite H1, H2. Qed.

Lemma node_framed n ctx w ctx' w' t : process_node n ctx w = (Ok ctx', w', t) -> framed ctx ctx'.
Proof.
  unfold framed. intros E. destruct n; cbn [TaskLoop.process_node] in E.
  - apply try_eret_inv in E as [(e & _ & [=])|(s & _ & E)]. apply eret_inv in E as ([= ->] & _ & _). by case_match.
  - by destruct (implement_spec _ _ _ _ _ E) as (? & ? & ? & ? & _ & _ & -> & _).
  - destruct (test_process_shape ctx w ctx' w' t E) as (? & ? & ? & _ & _ & _ & ? & Hshape).
    by destruct Hshape as [(? & ? & -> & _)|[(? & ? & ? & _ & ->)|(? & ? & ? & ? & ? & ? & ? & ? & _ & _ & ->)]].
  - destruct (triage_spec _ _ _ _ _ E) as (? & ? & ? & ? & _ & _ & Hb & -> & _).
    by destruct (billed_into_frame _ _ Hb) as (_ & ? & _ & _ & _ & _ & ? & ? & _ & ?).
  - by apply eret_inv in E as ([= ->] & _ & _).
  - by destruct (review_spec _ _ _ _ _ E) as (? & ? & ? & ? & ? & ? & _ & _ & _ & -> & _).
  - by apply eret_inv in E as ([= ->] & _ & _).
  - apply eret_inv in E as (E & _ & _). unfold UpdateTaskStatusNode_process in E.
    repeat case_match; simplify_eq; done.
  - by destruct (save_spec _ _ _ _ _ E) as ((? & ->) & _).
  - apply eret_inv in E as (E & _ & _). unfold IncrementAttemptNode_process in E.
    repeat case_match; simplify_eq; done.
Qed.

Lemma step_checked p n ctx w ctx' w' t m :
  checked p n ctx -> process_node n ctx w = (Ok ctx', w', t) -> next_node n ctx' = Some (Goto m) ->
  checked p m ctx'.
Proof.
  intros (Hp & Hoff & Hn) E Hm. pose proof (node_framed _ _ _ _ _ _ E) as Hfr.
  split; [by rewrite (proj1 Hfr)|]. split; [by apply (framed_off ctx)|].
  destruct n; cbn [TaskLoop.process_node] in E; cbn [next_node] in Hm.
  - unfold route_queue in Hm. repeat case_match; simplify_eq; done.
  - by injection Hm as <-.
  - injection Hm as <-. exists ctx, w, ctx', w', t. split; [|done].
    destruct (test_process_shape ctx w ctx' w' t E) as (? & ? & ? & _ & _ & _ & ? & Hshape).
    by destruct Hshape as [(? & ? & -> & _)|[(? & ? & ? & _ & ->)|(? & ? & ? & ? & ? & ? & ? & ? & _ & _ & ->)]].
  - injection Hm as <-. destruct (triage_spec _ _ _ _ _ E) as (test & ? & ctx0 & tr & Ht & _ & Hb & -> & _ & _ & Hgreen & _).
    destruct (billed_into_frame _ _ Hb) as (_ & _ & Hq & _ & Hte & Hi & _).
    intros tr' [= <-] Hv. specialize (Hgreen Hoff Hv). split.
    + destruct Hn as (c & wc & c1 & w1 & t1 & [Ha1 Ha2] & Ec & Er). exists c, wc, c1, w1, t1.
      split; [|split; [done|by rewrite Er]].
      split; [by rewrite Ha1|by rewrite Ha2].
    + exists test. split; [|done]. change (r_test (put_triage tr ctx0)) with (r_test ctx0). by rewrite Hte.
  - apply eret_inv in E as ([= ->] & _ & _). unfold route_triage in Hm. destruct (r_triage ctx) as [tr|]; [|done].
    cbn [mbind option_bind] in Hm. destruct (String.eqb_spec (tr_verdict tr) "PASS") as [Hv|]; [|by repeat case_match; simplify_eq].
    rewrite Hp in Hm. specialize (Hn tr eq_refl Hv). destruct (review_mode p) eqn:Em; repeat case_match; simplify_eq; try done;
      (split; [done|congruence]).
  - injection Hm as <-. destruct (review_spec _ _ _ _ _ E) as (? & ? & ? & r & ss & ? & _ & _ & _ & -> & _).
    split; [exact Hn|]. by exists ctx, w, (put_review r (add_sessions ss ctx)), w', t.
  - apply eret_inv in E as ([= ->] & _ & _). unfold route_review in Hm. destruct (r_review ctx) as [r|] eqn:Er; [|done].
    cbn [mbind option_bind] in Hm. destruct (String.eqb_spec (rv_verdict r) "PASS") as [Hv|].
    + injection Hm as <-. destruct Hn as [Hg Hr]. split; [done|]. intros _. split; [done|by exists r].
    + unfold bounded_review_retry_route in Hm. repeat case_match; simplify_eq; done.
  - by injection Hm as <-.
  - by injection Hm as <-.
  - by injection Hm as <-.
Qed.

(** ** Verdicts the routers do not know *)

Definition verdicts_ok (ctx : SdlcCtx X) : Prop :=
  (forall tr, r_triage ctx = Some tr -> tr_unrecognized tr = unrecognized TRIAGE_VERDICTS (tr_verdict tr)) /\
  (forall r, r_review ctx = Some r -> rv_unrecognized r = unrecognized REVIEW_VERDICTS (rv_verdict r)).

Lemma node_verdicts n ctx w ctx' w' t :
  process_node n ctx w = (Ok ctx', w', t) -> verdicts_ok ctx -> verdicts_ok ctx'.
Proof.
  intros E [Ht Hr]. destruct n; cbn [TaskLoop.process_node] in E.
  - apply try_eret_inv in E as [(e & _ & [=])|(s & _ & E)]. apply eret_inv in E as ([= ->] & _ & _). by case_match.
  - by destruct (implement_spec _ _ _ _ _ E) as (? & ? & ? & ? & _ & _ & -> & _).
  - destruct (test_process_shape ctx w ctx' w' t E) as (? & ? & ? & _ & _ & _ & ? & Hshape).
    by destruct Hshape as [(? & ? & -> & _)|[(? & ? & ? & _ & ->)|(? & ? & ? & ? & ? & ? & ? & ? & _ & _ & ->)]].
  - destruct (triage_spec _ _ _ _ _ E) as (? & ? & ? & tr & _ & _ & Hb & -> & _ & _ & _ & Hu).
    destruct (billed_into_frame _ _ Hb) as (_ & _ & _ & _ & _ & _ & _ & _ & He & _).
    split; [by intros tr' [= <-]|]. intros r. cbn. rewrite He. apply Hr.
  - by apply eret_inv in E as ([= ->] & _ & _).
  - destruct (review_spec _ _ _ _ _ E) as (? & ? & ? & r & ? & ? & _ & _ & _ & -> & _ & _ & Hu & _).
    split; [exact Ht|by intros r' [= <-]].
  - by apply eret_inv in E as ([= ->] & _ & _).
  - apply eret_inv in E as (E & _ & _). unfold UpdateTaskStatusNode_process in E.
    assert (exists s, ctx' = put_update s ctx) as [? ->] by (clear Ht Hr; repeat case_match; simplify_eq; eauto).
    exact (conj Ht Hr).
  - by destruct (save_spec _ _ _ _ _ E) as ((? & ->) & _).
  - apply eret_inv in E as (E & _ & _). unfold IncrementAttemptNode_process in E.
    assert (exists s c, ctx' = put_increment s c /\ r_triage c = r_triage ctx /\ r_review c = r_review ctx)
      as (s & c & -> & Et & Er) by (clear Ht Hr; repeat case_match; simplify_eq; eauto).
    unfold verdicts_ok. cbn. by rewrite Et, Er.
Qed.

(** A stretch of the walk that leaves the loop. *)
Lemma walk_framed fuel n ctx w e ctx' w' t :
  walk_loop fuel n ctx w = (Some (Left e ctx'), w', t) ->
  framed ctx ctx' /\ (verdicts_ok ctx -> verdicts_ok ctx') /\ md_suspended ctx' = false.
Proof.
  revert n ctx w t. induction fuel as [|fuel IH]; intros n ctx w t; [by intros ([=] & _)%eret_inv|].
  intros [(? & [=])|(c1 & w1 & t1 & E1 & Hcase)]%walk_unfold.
  pose proof (node_framed _ _ _ _ _ _ E1) as (F1 & F2 & F3 & F4). pose proof (node_verdicts _ _ _ _ _ _ E1) as Hv.
  destruct Hcase as [[[=] _]|[(_ & _ & [=] & _)|[(e' & Hs & _ & [= -> ->] & _)|(m & t2 & _ & _ & E2 & _)]]]; [done|].
  destruct (IH _ _ _ _ E2) as ((G1 & G2 & G3 & G4) & Hv' & Hs). split; [|by auto].
  split_and!; congruence.
Qed.

(** C3: a task is marked done only on its own evidence.  With the model's
    triage off, whenever the walk comes to UpdateTaskStatusNode, the test
    result in the context is green and is what TestTaskNode made of this very
    attempt (the same queue entry and the same implementation), not of an
    earlier one; and under per-task review the review is of this attempt too,
    and passed it. *)
Theorem done_means_green p ctx0 ctx :
  resolved_policy ctx0 = Ok p -> triage_off ctx0 -> reached ctx0 UpdateNode ctx ->
  green ctx /\ (review_mode p = PerTask -> approved ctx).
Proof.
  intros Hp Hoff Hr.
  assert (Hall : forall n c, reached ctx0 n c -> checked p n c).
  { induction 1 as [|n c w c' w' t m _ IH E Hs Hm]; [done|]. by eapply step_checked. }
  by destruct (Hall _ _ Hr) as (_ & _ & ?).
Qed.
End Loop.

(** Ids must be distinct: of two tasks with one id the queue offers the pending
    one, and marking the id done leaves it pending. *)
Lemma duplicate_stays_pending {X : Extern} {RF : RustFmt} s first again rest :
  tasks s = first :: again :: rest -> task_id again = task_id first ->
  is_pending first = false -> is_pending again = true ->
  next_pending s None = Some again /\
  exists s', mark_done s (task_id again) = Ok s' /\ next_pending s' None = Some again.
Proof.
  intros Ht Hid Hf Ha. unfold next_pending, mark_done, is_allowed. rewrite Ht. cbn. rewrite Hf, Ha, Hid, Z.eqb_refl.
  cbn. split; [done|]. eexists. split; [done|]. cbn. by rewrite Ha.
Qed.
