(* ===== verification/SdlcSetup.v ===== *)
(** * The start of an SDLC run: worktree, spec, task state

    crates/engine-core/src/workflows/sdlc_flow/setup.rs, the nodes before the
    task loop.

    - [SetupWorktreeNode_process]: the worktree or the live checkout, the
      planning link, the resolved policy
    - [SpecExistsRouterNode_process]: refusing a spec the tree does not hold
    - [GenerateTasksNode_process]: the planning fallback
    - [LoadTaskStateNode_process]: resume, restart or retry of one task.

    The event is read once, by serde, as [SDLCFlowEventSchema]; the file system
    seams that only these nodes use are the class [SetupFs]. *)

From Stdlib Require Import Ascii.
From stdpp Require Import pretty.
From S2P Require Import Prelude Json Sessions Node Utf8 Text ModelReply Effect Chain Execute LaneLog SdlcPolicy SdlcState SdlcContext SdlcFeedback SdlcClock SdlcChecks TaskLoop.

Local Open Scope string_scope.
Local Open Scope list_scope.
Local Open Scope effect_scope.
Local Open Scope engine_scope.

(** The [policy] and [profile] layers are read by the policy resolver. *)
Record SDLCFlowEventSchema := mkSDLCFlowEventSchema {
  e_spec_slug : string;
  e_repo : option string;
  e_resume : bool;
  e_branch_name : option string;
  e_use_worktree : bool;
  e_block_id : option string;
  e_phase_id : option string;
  e_retry_task : option Z
}.

(** [symlink_metadata] *)
Inductive LinkMeta := NoEntry | MetaErr (err : string) | SymlinkEntry | DirEntry | OtherEntry.

Class SetupFs {X : Extern} {H : Host X} : Type := {
  fs_current_dir : HW -> result string string * HW;
  fs_is_dir : string -> HW -> bool * HW;
  fs_metadata : string -> HW -> LinkMeta * HW;
  fs_canonicalize : string -> HW -> result string string * HW;
  fs_remove_file : string -> HW -> result unit string * HW;
  fs_remove_dir : string -> HW -> result unit string * HW;
  (** the name of each entry, where it can be read *)
  fs_read_dir : string -> HW -> result (list (option string)) string * HW;
  fs_symlink : string -> string -> HW -> result unit string * HW;
  fs_rename : string -> string -> HW -> result unit string * HW;
  generated_of_value : value -> result (list value * string) string;
  generated_of_str : string -> result (list value * string) string
}.
Arguments SetupFs X H : clear implicits.

Definition path_parent_of (p : string) : string :=
  match split_last "/" p with Some (a, _) => a | None => "" end.

Section Setup.
Context {X : Extern} {H : Host X} {UC : UnicodeCase} {RF : RustFmt} {CL : CheckLibs X}.
Context {P : Prompts} {PS : PolicySerde X} {LL : LoopLibs X} {FS : SetupFs X H}.
(** The inbound event, or serde's error. *)
Variable event : result SDLCFlowEventSchema string.
Variable registry : option RepoRegistry.
Variable branch_prefix : string.
Variable state_filename : string.
Variable policy_resolver : SdlcCtx X -> string -> SD (result SdlcPolicy NodeError).

(** ** Roots *)

Definition parse_event : result SDLCFlowEventSchema NodeError :=
  match event with Ok e => Ok e | Err err => Err (NodeError_new ("invalid SDLC_FLOW event: " +:+ err)) end.

Definition resolve_target_root (e : SDLCFlowEventSchema) (registry : option RepoRegistry)
    : SD (result string NodeError) :=
  match e_repo e with
  | Some slug =>
      eret (match registry with
            | None => Err (NodeError_new ("SDLC_FLOW event named repo slug '" +:+ slug
                            +:+ "' but no repo registry is available to resolve it"))
            | Some registry =>
                match registry_resolve registry slug with
                | Ok root => Ok root
                | Err err => Err (NodeError_new (repo_registry_error_to_string err))
                end
            end)
  | None =>
      r <~ esilent fs_current_dir ;;
      eret (match r with
            | Ok root => Ok root
            | Err err => Err (NodeError_new ("failed to resolve current_dir(): " +:+ err))
            end)
  end.
Definition target_root_is_default (e : SDLCFlowEventSchema) : bool := negb (is_some (e_repo e)).

(** The event's target root when no registry is at hand. *)
Definition unregistered_root : SD (option string) :=
  match parse_event with
  | Err _ => eret None
  | Ok e => r <~ resolve_target_root e None ;; eret (match r with Ok root => Some root | Err _ => None end)
  end.
Definition spec_dir (ctx : SdlcCtx X) (spec_slug : string) : SD string :=
  match r_setup ctx with
  | Some s => eret (path_join (path_join (setup_worktree_path s) "planning") spec_slug)
  | None =>
      root <~ unregistered_root ;;
      eret (path_join (path_join (default "." root) "planning") spec_slug)
  end.

(** ** SetupWorktreeNode *)

Definition DEFAULT_BRANCH_PREFIX : string := "sdlc/".

Definition remove_worktree_and_branch (worktree_path branch git_cwd : string) : SD unit :=
  run_command "git" ["worktree"; "remove"; "--force"; worktree_path] git_cwd ;~
  run_command "git" ["branch"; "-D"; branch] git_cwd ;~
  eret tt.

Definition fail {A} (msg : string) : SD (result A NodeError) := eret (Err (NodeError_new msg)).

(** A command whose failure to start, or nonzero exit, fails the node. *)
Definition spawned (what : string) (r : result CommandOutput string) : result CommandOutput NodeError :=
  match r with Ok out => Ok out | Err err => Err (NodeError_new ("failed to spawn " +:+ what +:+ ": " +:+ err)) end.
Definition status_failed {A} (what : string) (out : CommandOutput) : result A NodeError :=
  Err (NodeError_new (what +:+ " failed (status " +:+ pretty (cmd_status out) +:+ "): " +:+ cmd_stderr out)).
Definition git_required (what : string) (args : list string) (cwd : string) : SD (result unit NodeError) :=
  r <~ run_command "git" args cwd ;;
  out <~? eret (spawned what r) ;;
  eret (if (cmd_status out =? 0)%Z then Ok tt else status_failed what out).

Definition clean_tree_guard (git_cwd : string) : SD (result unit NodeError) :=
  r <~ run_command "git" ["status"; "--porcelain"] git_cwd ;;
  out <~? eret (spawned "git status --porcelain" r) ;;
  eret (if negb (cmd_status out =? 0)%Z then status_failed "git status --porcelain" out
        else if negb (String.eqb (trim (cmd_stdout out)) "") then
          Err (NodeError_new ("Working tree is not clean — commit or stash your changes, then re-run (or set use_worktree: true for an isolated checkout). Dirty paths:"
                              +:+ nl +:+ trim_end (cmd_stdout out)))
        else Ok tt).

Definition add_worktree (worktree_path branch git_cwd : string) : SD (result unit NodeError) :=
  run_command "git" ["fetch"; "origin"; "main"] git_cwd ;~
  r <~ run_command "git" ["worktree"; "add"; worktree_path; "-b"; branch; "origin/main"] git_cwd ;;
  out <~? eret (spawned "git worktree add" r) ;;
  if (cmd_status out =? 0)%Z then eret (Ok tt)
  else
    remove_worktree_and_branch worktree_path branch git_cwd ;~
    eret (status_failed "git worktree add" out).

(** Whether two paths canonicalize to one. *)
Definition same_canonical (a b : string) : SD bool :=
  ra <~ esilent (fs_canonicalize a) ;;
  match ra with
  | Err _ => eret false
  | Ok ca =>
      rb <~ esilent (fs_canonicalize b) ;;
      eret (match rb with Ok cb => String.eqb ca cb | Err _ => false end)
  end.
Fixpoint non_vaulted_scan (r : RepoRegistry) (canonical_path : string) (slugs : list string) : SD bool :=
  match slugs with
  | [] => eret false
  | slug :: slugs =>
      rc <~ esilent (fs_canonicalize (default "" (rr_entries r !! slug))) ;;
      let same := match rc with Ok c => String.eqb c canonical_path | Err _ => false end in
      if same && bool_decide (slug ∈ non_vaulted_planning r) then eret true
      else non_vaulted_scan r canonical_path slugs
  end.
Definition declares_non_vaulted_planning (r : RepoRegistry) (path : string) : SD bool :=
  rp <~ esilent (fs_canonicalize path) ;;
  match rp with
  | Err _ => eret false
  | Ok canonical_path => non_vaulted_scan r canonical_path (known_slugs r)
  end.

(** Making room for the link: what stands at its path may go only if it holds
    nobody's work. *)
Definition clear_planning (planning canonical_planning : string) (existing : LinkMeta)
    : SD (result unit NodeError) :=
  match existing with
  | NoEntry => eret (Ok tt)
  | MetaErr err => fail ("failed to inspect " +:+ planning +:+ ": " +:+ err)
  | SymlinkEntry =>
      elog (RemovedLink planning) ;~
      r <~ esilent (fs_remove_file planning) ;;
      eret (match r with
            | Ok _ => Ok tt
            | Err err => Err (NodeError_new ("failed to remove the stale planning symlink at " +:+ planning +:+ ": " +:+ err))
            end)
  | DirEntry =>
      entries <~ esilent (fs_read_dir planning) ;;
      match entries with
      | Err err => fail ("failed to read " +:+ planning +:+ ": " +:+ err)
      | Ok (_ :: _) =>
          fail (planning +:+ " is a non-empty directory where the planning symlink to " +:+ canonical_planning
                +:+ " belongs — most likely the base branch still tracks a real `planning/` directory. Refusing to delete it. Untrack/remove `planning/` on the base branch (or delete this directory by hand if it holds nothing you need), then re-run.")
      | Ok [] =>
          elog (RemovedDir planning) ;~
          r <~ esilent (fs_remove_dir planning) ;;
          eret (match r with
                | Ok _ => Ok tt
                | Err err => Err (NodeError_new ("failed to remove the empty directory at " +:+ planning +:+ ": " +:+ err))
                end)
      end
  | OtherEntry =>
      fail (planning +:+ " exists and is not a directory or symlink; refusing to replace it with the planning symlink to "
            +:+ canonical_planning +:+ ". Remove it by hand, then re-run.")
  end.

Definition link_planning (worktree_planning planning_source : string) : SD (result unit NodeError) :=
  rc <~ esilent (fs_canonicalize planning_source) ;;
  match rc with
  | Err err => fail ("planning source " +:+ planning_source
                     +:+ " exists but does not resolve (dangling symlink?): " +:+ err)
  | Ok canonical_planning =>
      existing <~ esilent (fs_metadata worktree_planning) ;;
      correct <~ (match existing with
                  | SymlinkEntry =>
                      rt <~ esilent (fs_canonicalize worktree_planning) ;;
                      eret (match rt with Ok t => String.eqb t canonical_planning | Err _ => false end)
                  | _ => eret false
                  end) ;;
      if (correct : bool) then eret (Ok tt)
      else
        cleared <~? clear_planning worktree_planning canonical_planning existing ;;
        elog (Linked canonical_planning worktree_planning) ;~
        r <~ esilent (fs_symlink canonical_planning worktree_planning) ;;
        eret (match r with
              | Ok _ => Ok tt
              | Err err => Err (NodeError_new ("failed to create the planning symlink " +:+ worktree_planning +:+ " -> "
                                               +:+ canonical_planning +:+ ": " +:+ err))
              end)
  end.

Definition install_planning (root worktree_path planning_source : string) : SD (result unit NodeError) :=
  there <~ esilent (fs_is_dir worktree_path) ;;
  source <~ (if (there : bool) then esilent (fs_metadata planning_source) else eret NoEntry) ;;
  match source with
  | NoEntry | MetaErr _ => eret (Ok tt)
  | _ =>
      is_brain_root <~ match registry with
                       | Some r => same_canonical root (brain_root r) | None => eret false end ;;
      non_vaulted <~ match registry with
                     | Some r => declares_non_vaulted_planning r root | None => eret false end ;;
      if (is_brain_root : bool) || (non_vaulted : bool) then eret (Ok tt)
      else link_planning (path_join worktree_path "planning") planning_source
  end.

(** Best-effort links to the path dependencies next to the repository. *)
Definition link_sibling (sources worktree_path : string) (_ : unit) (sibling_crate : string) : SD unit :=
  let worktree_sibling := path_join (path_join worktree_path "..") sibling_crate in
  there <~ esilent (h_exists worktree_sibling) ;;
  if (there : bool) then eret tt
  else
    rc <~ esilent (fs_canonicalize (path_join sources sibling_crate)) ;;
    match rc with
    | Err _ => eret tt
    | Ok canonical_sibling =>
        elog (Linked canonical_sibling worktree_sibling) ;~
        esilent (fs_symlink canonical_sibling worktree_sibling) ;~
        eret tt
    end.

Definition attach_worktree (e : SDLCFlowEventSchema) (root worktree_path branch git_cwd : string)
    : SD (result unit NodeError) :=
  let is_default_target := target_root_is_default e in
  reattaching <~ (if e_resume e then esilent (h_exists worktree_path) else eret false) ;;
  added <~? (if (reattaching : bool) then eret (Ok tt) else add_worktree worktree_path branch git_cwd) ;;
  installed <~? install_planning root worktree_path
                  (if is_default_target then "planning" else path_join root "planning") ;;
  efold (link_sibling (if is_default_target then ".." else path_join root "..") worktree_path)
    ["claude-code-rs"; "mev"; "okf-core"] tt ;~
  eret (Ok tt).

Definition checkout_branch (resume : bool) (branch git_cwd : string) : SD (result unit NodeError) :=
  if resume then git_required "git checkout" ["checkout"; branch] git_cwd
  else
    run_command "git" ["fetch"; "origin"; "main"] git_cwd ;~
    git_required "git checkout" ["checkout"; "-B"; branch; "origin/main"] git_cwd.

Definition head_sha (worktree_path : string) : SD (option string) :=
  r <~ run_command "git" ["rev-parse"; "HEAD"] worktree_path ;;
  eret (match r with
        | Ok out => if (cmd_status out =? 0)%Z then nonempty (trim (cmd_stdout out)) else None
        | Err _ => None
        end).

Definition SetupWorktreeNode_process (ctx : SdlcCtx X) : SD (result (SdlcCtx X) NodeError) :=
  e <~? eret parse_event ;;
  let branch := default (branch_prefix +:+ e_spec_slug e) (e_branch_name e) in
  let is_default_target := target_root_is_default e in
  root <~? resolve_target_root e registry ;;
  let worktree_path :=
    if is_default_target then (if e_use_worktree e then "trees/" +:+ branch else ".")
    else if e_use_worktree e then path_join (path_join root "trees") branch else root in
  let git_cwd := if is_default_target then "." else root in
  guarded <~? (if e_use_worktree e then eret (Ok tt) else clean_tree_guard git_cwd) ;;
  placed <~? (if e_use_worktree e then attach_worktree e root worktree_path branch git_cwd
              else checkout_branch (e_resume e) branch git_cwd) ;;
  base <~ head_sha worktree_path ;;
  let ctx := put_setup (mkSetupResult worktree_path (Some branch) base) ctx in
  match r_policy ctx with
  | Some _ => eret (Ok ctx)
  | None =>
      policy <~? policy_resolver ctx worktree_path ;;
      eret (Ok (put_policy policy ctx))
  end.

(** ** SpecExistsRouterNode *)

Definition state_path_in (dir : string) : string := path_join (path_join dir "sdlc") state_filename.
Definition tasks_path_in (dir : string) : string := path_join dir "tasks.json".

(** A link that leads nowhere. *)
Definition is_dangling (path : string) : SD bool :=
  there <~ esilent (h_exists path) ;;
  if (there : bool) then eret false
  else m <~ esilent (fs_metadata path) ;; eret (match m with NoEntry | MetaErr _ => false | _ => true end).

Definition dangling_error (spec_slug path : string) : NodeError :=
  NodeError_new ("SDLC_FLOW named spec_slug " +:+ debug_str spec_slug +:+ ", whose spec file " +:+ path
    +:+ " is an unresolvable symlink (it exists as a link but its target does not). Refusing to fall back to the planning path, which would FABRICATE a task list under a spec slug the caller named.").
Definition missing_spec_message (spec_slug dir tasks_path state_path : string) : string :=
  "SDLC_FLOW named spec_slug " +:+ debug_str spec_slug +:+ " but its spec directory does not exist. Searched: "
  +:+ dir +:+ " (for " +:+ tasks_path +:+ " and " +:+ state_path
  +:+ "). Refusing to fall back to the planning path, which would FABRICATE a task list under a spec slug the caller named. If the spec exists in the repo, this run's tree is not seeing it — check for a stale tracked `planning/` directory shadowing the `planning` symlink.".

(** Where the spec is after all, when only the walked tree does not hold it. *)
Definition shadowed_note (spec_slug dir : string) : SD string :=
  root <~ unregistered_root ;;
  match root with
  | None => eret ""
  | Some root =>
      let source_dir := path_join (path_join root "planning") spec_slug in
      if String.eqb source_dir dir then eret ""
      else
        there <~ esilent (fs_is_dir source_dir) ;;
        eret (if (there : bool) then
                " NOTE: the spec DOES exist at " +:+ source_dir
                +:+ " — it is present in the target root and absent from the tree above, which is that stale-`planning/` shadowing."
              else "")
  end.

Definition SpecExistsRouterNode_process (ctx : SdlcCtx X) : SD (result (SdlcCtx X) NodeError) :=
  match trim <$> ev_spec_slug ctx with
  | None => eret (Ok ctx)
  | Some spec_slug =>
      if String.eqb spec_slug "" then eret (Ok ctx)
      else
        dir <~ spec_dir ctx spec_slug ;;
        there <~ esilent (fs_is_dir dir) ;;
        if (there : bool) then
          d1 <~ is_dangling (state_path_in dir) ;;
          if (d1 : bool) then eret (Err (dangling_error spec_slug (state_path_in dir)))
          else
            d2 <~ is_dangling (tasks_path_in dir) ;;
            if (d2 : bool) then eret (Err (dangling_error spec_slug (tasks_path_in dir)))
            else eret (Ok ctx)
        else
          note <~ shadowed_note spec_slug dir ;;
          eret (Err (NodeError_new
            (missing_spec_message spec_slug dir (tasks_path_in dir) (state_path_in dir) +:+ note)))
  end.

Inductive SpecRoute := ToGenerate | ToLoad.
Definition route_spec (ctx : SdlcCtx X) : SD (option SpecRoute) :=
  match ev_spec_slug ctx with
  | None => eret None
  | Some spec_slug =>
      dir <~ spec_dir ctx spec_slug ;;
      has_state <~ esilent (h_exists (state_path_in dir)) ;;
      has_tasks <~ (if (has_state : bool) then eret true else esilent (h_exists (tasks_path_in dir))) ;;
      eret (Some (if (has_tasks : bool) then ToLoad else ToGenerate))
  end.

(** ** LoadTaskStateNode *)

Definition attempt_counts (state : value) : list Z :=
  omap (fun kv => jget kv.2 "attempt_count" ≫= as_u64)
    (default [] (ts ← jget state "tasks"; if is_object ts then as_object ts else None)).
Definition superseded_discriminator (state : value) : string :=
  match (run_id ← jget state "run_id" ≫= as_str; if String.eqb (trim run_id) "" then None else Some run_id) with
  | Some run_id => sanitize_path_component run_id
  | None =>
      sanitize_path_component (default "unknown" (jget state "status" ≫= as_str))
      +:+ "-attempts" +:+ pretty (foldl u64_add 0%Z (attempt_counts state))
  end.

(** The first free name; [k] more may be tried. *)
Fixpoint free_name (k : nat) (dir base : string) (suffix : Z) (candidate : string) : SD (option string) :=
  taken <~ esilent (h_exists candidate) ;;
  if negb (taken : bool) then eret (Some candidate)
  else
    match k with
    | O => eret None
    | S k => free_name k dir base (suffix + 1) (path_join dir (base +:+ "-" +:+ pretty suffix +:+ ".bak"))
    end.
Definition ARCHIVE_NAMES : nat := N.to_nat 9998.

Definition archive_superseded_state (state_path : string) (old_state : value) : SD (result string NodeError) :=
  let dir := path_parent_of state_path in
  let discriminator := superseded_discriminator old_state in
  let base := state_filename +:+ ".superseded-" +:+ discriminator in
  name <~ free_name ARCHIVE_NAMES dir base 2 (path_join dir (base +:+ ".bak")) ;;
  match name with
  | None => fail ("refusing to archive " +:+ state_path +:+ ": too many existing .superseded-"
                  +:+ discriminator +:+ " archives")
  | Some candidate =>
      elog (Renamed state_path candidate) ;~
      r <~ esilent (fs_rename state_path candidate) ;;
      eret (match r with
            | Ok _ => Ok candidate
            | Err err => Err (NodeError_new ("failed to archive " +:+ state_path +:+ " to " +:+ candidate +:+ ": " +:+ err))
            end)
  end.

Definition set_max_attempts (n : Z) (t : SDLCTask) : SDLCTask :=
  mkSDLCTask (task_id t) (title t) (description t) (acceptance_criteria t) (task_status t)
    (validation_commands t) (attempt_count t) n (review_attempt_count t) (expects_writes t) (task_files t).
Fixpoint seed_max_attempts (raw_tasks : list value) (policy_max_attempts : Z) : result (list SDLCTask) string :=
  match raw_tasks with
  | [] => Ok []
  | v :: raw_tasks =>
      let declared := is_some (jget v "max_attempts") in
      match task_of_json v with
      | None => Err serde_error
      | Some task =>
          match seed_max_attempts raw_tasks policy_max_attempts with
          | Err err => Err err
          | Ok tasks => Ok ((if declared then task else set_max_attempts policy_max_attempts task) :: tasks)
          end
      end
  end.

(** A task whose attempts start over, and what the history says of it. *)
Definition restatus (s : SDLCTaskStatus) (t : SDLCTask) : SDLCTask :=
  mkSDLCTask (task_id t) (title t) (description t) (acceptance_criteria t) s
    (validation_commands t) 0 (max_attempts t) 0 (expects_writes t) (task_files t).
Definition save_subject (t : SDLCTask) : string :=
  "feat(sdlc): " +:+ pretty (task_id t) +:+ " — " +:+ title t.
Definition mark_from_log (subjects : list string) (t : SDLCTask) : SDLCTask :=
  if bool_decide (save_subject t ∈ subjects) then restatus TsDone t else t.
Definition reconcile_tasks_against_git_log (ctx : SdlcCtx X) (state : SDLCState) : SD SDLCState :=
  match worktree_path ctx with
  | Err _ => eret state
  | Ok wt =>
      r <~ run_command "git" ["log"; "--format=%s"] wt ;;
      eret (match r with
            | Ok out => if (cmd_status out =? 0)%Z
                        then set_tasks (map (mark_from_log (lines (cmd_stdout out)))) state else state
            | Err _ => state
            end)
  end.

(** One check of the harness: the output of its baseline command, once. *)
Definition snapshot_check (worktree spec_dir : string) (check : value) : SD (result unit NodeError) :=
  let baseline_command := default "" (field_str check "baselineCommand") in
  if negb (String.eqb (default "command" (field_str check "kind")) "baseline-diff")
     || String.eqb baseline_command "" then eret (Ok tt)
  else
    let name := default "unnamed" (field_str check "name") in
    let baseline_file := baseline_snapshot_path spec_dir name in
    there <~ esilent (h_exists baseline_file) ;;
    if (there : bool) then eret (Ok tt)
    else
      let parent := path_parent_of baseline_file in
      made <~ esilent (h_create_dir_all parent) ;;
      match made with
      | Err err => fail ("failed to create " +:+ parent +:+ ": " +:+ err)
      | Ok _ =>
          r <~ run_command "sh" ["-c"; baseline_command] worktree ;;
          match r with
          | Err err => fail ("failed to spawn baseline command for check " +:+ debug_str name +:+ ": " +:+ err)
          | Ok out =>
              written <~ write_file baseline_file (cmd_stdout out) ;;
              match written with
              | Err err => fail ("failed to write " +:+ baseline_file +:+ ": " +:+ err)
              | Ok _ => eret (Ok tt)
              end
          end
      end.
Fixpoint snapshot_checks (worktree spec_dir : string) (checks : list value) : SD (result unit NodeError) :=
  match checks with
  | [] => eret (Ok tt)
  | check :: checks =>
      taken <~? snapshot_check worktree spec_dir check ;;
      snapshot_checks worktree spec_dir checks
  end.
Definition snapshot_baselines (ctx : SdlcCtx X) (spec_dir : string) : SD (result unit NodeError) :=
  match worktree_path ctx with
  | Err _ => eret (Ok tt)
  | Ok worktree =>
      harness_path <~ resolve_harness_path ctx worktree ;;
      harness <~? load_harness_checks harness_path ;;
      snapshot_checks worktree spec_dir harness.2
  end.

Definition read_json (path : string) : SD (result value NodeError) :=
  r <~ esilent (h_read_to_string path) ;;
  eret (match r with
        | Err err => Err (NodeError_new ("failed to read " +:+ path +:+ ": " +:+ err))
        | Ok raw => match json_parse raw with
                    | Err err => Err (NodeError_new ("failed to parse " +:+ path +:+ ": " +:+ err))
                    | Ok v => Ok v
                    end
        end).

Definition debug_ids (ids : list Z) : string := "[" +:+ String.concat ", " (map pretty ids) +:+ "]".

Definition retry_one (e : SDLCFlowEventSchema) (id : Z) (state_path : string) (existing : option value)
    (ctx : SdlcCtx X) : result (SdlcCtx X) NodeError :=
  match existing with
  | None => Err (NodeError_new ("SDLC_FLOW named retry_task " +:+ pretty id +:+ " for spec " +:+ debug_str (e_spec_slug e)
              +:+ ", but no committed state file exists at " +:+ state_path
              +:+ " to retry it from — there is nothing to reset."))
  | Some v =>
      state <-? from_committed_state_json as_object debug_str serde_error v;
      let ctx := seed_ledger (claude_sessions state) ctx in
      match update_task id (restatus TsPending) (tasks state) with
      | None => Err (NodeError_new ("SDLC_FLOW named retry_task " +:+ pretty id +:+ " for spec " +:+ debug_str (e_spec_slug e)
                  +:+ ", but no task with that id exists in the loaded state. Known task ids: "
                  +:+ debug_ids (map task_id (tasks state)) +:+ "."))
      | Some ts => Ok (put_load (set_tasks (fun _ => ts) state) ctx)
      end
  end.

Definition set_owner (e : SDLCFlowEventSchema) (s : SDLCState) : SDLCState :=
  mkSDLCState (spec_slug s) (e_phase_id e) (e_block_id e) (global_status s) (tasks s) (telemetry s) (st_policy s)
    (st_outcomes s) (branch s) (st_worktree_path s) (st_started_at s) (st_updated_at s) (bail_reason s)
    (st_run_id s) (claude_sessions s).

Definition bootstrap (e : SDLCFlowEventSchema) (tasks_path : string) (ctx : SdlcCtx X) : SD (result SDLCState NodeError) :=
  v <~? read_json tasks_path ;;
  raw_tasks <~? eret (match as_array v with
                      | Some l => Ok l
                      | None => Err (NodeError_new ("failed to parse " +:+ tasks_path +:+ ": " +:+ serde_error))
                      end) ;;
  policy <~? eret (resolved_policy ctx) ;;
  match seed_max_attempts raw_tasks (policy_max_attempts policy) with
  | Err err => fail ("invalid task shape in " +:+ tasks_path +:+ ": " +:+ err)
  | Ok ts =>
      state <~ reconcile_tasks_against_git_log ctx
                 (set_owner e (set_tasks (fun _ => ts) (SDLCState_new (e_spec_slug e)))) ;;
      eret (Ok state)
  end.

(** The rest of the table: resume, restart, or start. *)
Definition resume_or_restart (e : SDLCFlowEventSchema) (dir : string) (existing : option value) (ctx : SdlcCtx X)
    : SD (result (SdlcCtx X) NodeError) :=
  let tasks_path := tasks_path_in dir in
  restarting <~ match existing with
                | Some _ => if e_resume e then eret false else esilent (h_exists tasks_path)
                | None => eret false
                end ;;
  archived <~? match existing, restarting : bool with
               | Some old, true => archive_superseded_state (state_path_in dir) old
               | _, _ => eret (Ok "")
               end ;;
  match existing, restarting : bool with
  | Some v, false =>
      eret (state <-? from_committed_state_json as_object debug_str serde_error v;
            Ok (put_load state (seed_ledger (claude_sessions state) ctx)))
  | _, _ =>
      there <~ esilent (h_exists tasks_path) ;;
      if negb (there : bool) then
        fail ("no state or tasks file found for spec " +:+ debug_str (e_spec_slug e) +:+ " under " +:+ dir)
      else
        state <~? bootstrap e tasks_path ctx ;;
        eret (Ok (put_load state ctx))
  end.

Definition LoadTaskStateNode_process (ctx : SdlcCtx X) : SD (result (SdlcCtx X) NodeError) :=
  e <~? eret parse_event ;;
  dir <~ spec_dir ctx (e_spec_slug e) ;;
  let state_path := state_path_in dir in
  snapped <~? snapshot_baselines ctx dir ;;
  has_state <~ esilent (h_exists state_path) ;;
  existing <~? (if (has_state : bool)
                then v <~? read_json state_path ;; eret (Ok (Some v)) else eret (Ok None)) ;;
  match e_retry_task e with
  | Some id => eret (retry_one e id state_path existing ctx)
  | None => resume_or_restart e dir existing ctx
  end.

(** ** GenerateTasksNode *)

(** [is_char_boundary], for a position within the text *)
Definition boundary (s : string) (n : nat) : bool :=
  match n, String.get n s with O, _ => true | _, Some c => negb (is_cont c) | _, None => true end.
Fixpoint floor_boundary (s : string) (n : nat) : nat :=
  match n with O => O | S m => if boundary s n then n else floor_boundary s m end.
Definition truncate_context_section (section file_name : string) (max_bytes : option Z) : string :=
  match max_bytes with
  | None => section
  | Some max_bytes =>
      if (Z.of_nat (str_len section) <=? max_bytes)%Z then section
      else
        let cut := floor_boundary section (Z.to_nat max_bytes) in
        String.substring 0 cut section +:+ nl +:+ "...[truncated: " +:+ pretty (str_len section - cut)%nat
        +:+ " bytes dropped from " +:+ file_name +:+ "]" +:+ nl
  end.

Definition has_md_extension (name : string) : bool :=
  match split_last "." name with Some (a, b) => negb (String.eqb a "") && String.eqb b "md" | None => false end.
Definition DEFAULT_STATE_FILENAME : string := "sdlc-flow-state.json".
Definition context_files (names : list string) : list string :=
  sort_by String.compare
    (List.filter (fun n => has_md_extension n
                           && negb (bool_decide (n ∈ ["tasks.md"; "tasks.json"; DEFAULT_STATE_FILENAME]))) names).
Definition gather_section (dir : string) (max_bytes : option Z) (sections : list string) (name : string)
    : SD (list string) :=
  r <~ esilent (h_read_to_string (path_join dir name)) ;;
  eret (match r with
        | Ok contents =>
            sections ++ [truncate_context_section ("## " +:+ name +:+ nl +:+ nl +:+ contents) name max_bytes]
        | Err _ => sections
        end).
Definition gather_context (dir : string) (max_bytes : option Z) : SD string :=
  r <~ esilent (fs_read_dir dir) ;;
  sections <~ efold (gather_section dir max_bytes)
                (context_files (match r with Ok names => omap (fun n => n) names | Err _ => [] end)) [] ;;
  eret (String.concat (nl +:+ nl) sections).

Definition generated_tasks_schema : value := json_object
  [("type", jstr "object");
   ("properties", json_object
      [("tasks", json_object [("type", jstr "array")]);
       ("tasks_markdown", json_object [("type", jstr "string")])]);
   ("required", jarray [jstr "tasks"; jstr "tasks_markdown"])].

Definition generate_prompt (spec_slug context : string) : string :=
  "Generate the task list for spec " +:+ debug_str spec_slug
  +:+ " from the following planning context. Respond with strict JSON of the shape {" +:+ q "tasks"
  +:+ ": [<SDLCTask>, ...], " +:+ q "tasks_markdown" +:+ ": " +:+ q "<rendered tasks.md body>" +:+ "}." +:+ nl +:+ nl
  +:+ context.

(** The two files, [tasks.json] first. *)
Definition write_generated (dir : string) (ts : list SDLCTask) (tasks_markdown : string)
    : SD (result (string * string) NodeError) :=
  made <~ esilent (h_create_dir_all dir) ;;
  match made with
  | Err err => fail ("failed to create " +:+ dir +:+ ": " +:+ err)
  | Ok _ =>
      let tasks_json_path := tasks_path_in dir in
      let tasks_md_path := path_join dir "tasks.md" in
      match json_pretty (jarray (map task_to_json ts)) with
      | Err err => fail ("failed to serialize tasks.json: " +:+ err)
      | Ok tasks_json =>
          w1 <~ write_file tasks_json_path tasks_json ;;
          match w1 with
          | Err err => fail ("failed to write " +:+ tasks_json_path +:+ ": " +:+ err)
          | Ok _ =>
              w2 <~ write_file tasks_md_path tasks_markdown ;;
              match w2 with
              | Err err => fail ("failed to write " +:+ tasks_md_path +:+ ": " +:+ err)
              | Ok _ => eret (Ok (tasks_json_path, tasks_md_path))
              end
          end
      end
  end.

Definition GenerateTasksNode_process (config : AgentConfig X) (ctx : SdlcCtx X)
    : SD (result (SdlcCtx X) NodeError) :=
  e <~? eret parse_event ;;
  dir <~ spec_dir ctx (e_spec_slug e) ;;
  policy <~? eret (resolved_policy ctx) ;;
  context <~ gather_context dir (generate_context_max_bytes policy) ;;
  let '(config, prompt) := apply_policy config (generate_prompt (e_spec_slug e) context) policy Generate in
  let cwd := match worktree_path ctx with Ok w => Some w | Err _ => None end in
  let config := with_schema generated_tasks_schema (with_cwd cwd config) in
  reply <~? call_agent "GenerateTasksNode" config prompt (transport_retry policy) ;;
  let failed {A} (msg : string) : SD (result A NodeError) :=
    eret (Err (with_sessions (NodeError_new msg) (billed reply))) in
  match content reply with
  | None => failed "GenerateTasksNode: model returned no content"
  | Some content =>
      match parse_structured_or_fenced generated_of_value generated_of_str (structured reply) content with
      | Err err => failed ("GenerateTasksNode: failed to parse model output as JSON: " +:+ err)
      | Ok (raw_tasks, tasks_markdown) =>
          match seed_max_attempts raw_tasks (policy_max_attempts policy) with
          | Err err => failed ("GenerateTasksNode: invalid task shape in model output: " +:+ err)
          | Ok ts =>
              written <~ write_generated dir ts tasks_markdown ;;
              match written with
              | Err err => eret (Err (with_sessions err (billed reply)))
              | Ok (tasks_json_path, tasks_md_path) =>
                  eret (Ok (put_generate
                    (mkGenerateResult tasks_json_path tasks_md_path (Z.of_nat (length ts))
                       (mt_generate (model_tiers policy)) (ct_generate (timeouts policy)))
                    (add_sessions (billed reply) ctx)))
              end
          end
      end
  end.

(** ** Events that remove or rename nothing *)

Definition harmless (e : SdlcEvent X) : bool :=
  match e with RemovedDir _ | RemovedLink _ | Renamed _ _ => false | _ => true end.
(** ** Which state a run goes on with *)

Definition seeded (policy_max_attempts : Z) (v : value) (t : SDLCTask) : SDLCTask :=
  if is_some (jget v "max_attempts") then t else set_max_attempts policy_max_attempts t.
Lemma seed_max_attempts_spec raw_tasks n ts :
  seed_max_attempts raw_tasks n = Ok ts <->
  Forall2 (fun v t => exists t0, task_of_json v = Some t0 /\ t = seeded n v t0) raw_tasks ts.
Proof.
  revert ts. induction raw_tasks as [|v raw IH]; intros ts; cbn [seed_max_attempts].
  { split; [by intros [= <-]|intros Hf; by inversion Hf]. }
  fold (seeded n v). split.
  - destruct (task_of_json v) as [t0|] eqn:Ev; [|done].
    destruct (seed_max_attempts raw n) as [ts0|err]; [|done]. intros [= <-].
    constructor; [by exists t0|by apply IH].
  - intros Hf. inversion Hf as [|v' t raw' ts0 (t0 & Ev & ->) Hts]; subst.
    rewrite Ev. apply IH in Hts as ->. done.
Qed.

Lemma read_json_spec path w v w' t :
  read_json path w = (Ok v, w', t) ->
  t = [] /\ exists raw, h_read_to_string path w = (Ok raw, w') /\ json_parse raw = Ok v.
Proof.
  intros (r & w1 & t1 & t2 & E1 & E & ->)%ebind_inv. apply esilent_inv in E1 as [Er ->].
  apply eret_inv in E as (Hv & -> & ->). split; [done|].
  destruct r as [raw|err]; [|done]. destruct (json_parse raw) as [v'|] eqn:Ep; [|done].
  injection Hv as ->. eauto.
Qed.

(** The subjects of the commits of the worktree, where [git log] tells. *)
Definition logged (ctx : SdlcCtx X) (w : HW) (subjects : list string) (w' : HW) (t : list (SdlcEvent X)) : Prop :=
  match worktree_path ctx with
  | Err _ => subjects = [] /\ w' = w /\ t = []
  | Ok wt => exists r, h_run "git" ["log"; "--format=%s"] wt w = (r, w') /\
      t = [RanCommand "git" ["log"; "--format=%s"] wt] /\
      subjects = match r with
                 | Ok out => if decide (cmd_status out = 0%Z) then lines (cmd_stdout out) else []
                 | Err _ => []
                 end
  end.
(** What becomes of a declared task: its budget, and whether the history holds
    the commit that saved it. *)
Definition started_task (policy_max_attempts : Z) (subjects : list string) (v : value) (t : SDLCTask) : Prop :=
  exists t0 budget, task_of_json v = Some t0 /\
    budget = match jget v "max_attempts" with Some _ => max_attempts t0 | None => policy_max_attempts end /\
    t = if decide ("feat(sdlc): " +:+ pretty (task_id t0) +:+ " — " +:+ title t0 ∈ subjects)
        then mkSDLCTask (task_id t0) (title t0) (description t0) (acceptance_criteria t0) TsDone
               (validation_commands t0) 0 budget 0 (expects_writes t0) (task_files t0)
        else mkSDLCTask (task_id t0) (title t0) (description t0) (acceptance_criteria t0) (task_status t0)
               (validation_commands t0) (attempt_count t0) budget (review_attempt_count t0) (expects_writes t0)
               (task_files t0).
Lemma started_task_intro n subjects v t0 :
  task_of_json v = Some t0 -> started_task n subjects v (mark_from_log subjects (seeded n v t0)).
Proof.
  intros Ev. eexists t0, _. split; [done|]. split; [reflexivity|].
  unfold mark_from_log, seeded, save_subject, restatus, set_max_attempts.
  destruct t0, (jget v "max_attempts"); cbn; case_bool_decide; case_decide; done.
Qed.

Lemma set_tasks_id f s : (forall ts, f ts = ts) -> set_tasks f s = s.
Proof. intros Hf. destruct s. unfold set_tasks. cbn. by rewrite Hf. Qed.
Lemma mark_nothing ts : map (mark_from_log []) ts = ts.
Proof. induction ts as [|x ts IH]; [done|]. cbn [map]. by rewrite IH. Qed.
Lemma reconcile_log_spec ctx s w s' w' t :
  reconcile_tasks_against_git_log ctx s w = (s', w', t) ->
  exists subjects, logged ctx w subjects w' t /\ s' = set_tasks (map (mark_from_log subjects)) s.
Proof.
  assert (s = set_tasks (map (mark_from_log [])) s) as Hs by (symmetry; apply set_tasks_id, mark_nothing).
  unfold reconcile_tasks_against_git_log, logged. destruct (worktree_path ctx) as [wt|] eqn:Ew.
  2: { intros E. apply eret_inv in E as (-> & -> & ->). by exists []. }
  intros (r & w1 & t1 & t2 & E1 & E & ->)%ebind_inv. unfold run_command in E1.
  apply ebind_inv in E1 as (u & w2 & t3 & t4 & E2 & E1 & ->). apply elog_inv in E2 as [-> ->].
  apply esilent_inv in E1 as [Er ->]. apply eret_inv in E as (-> & -> & ->).
  eexists. split; [exists r; split_and!; [exact Er|done|reflexivity]|].
  destruct r as [out|]; [|done]. destruct (Z.eqb_spec (cmd_status out) 0); case_decide; done.
Qed.

(** A state started from the tasks.json read in the world [w]. *)
Definition started_from (e : SDLCFlowEventSchema) (tasks_path : string) (ctx : SdlcCtx X) (w : HW)
    (s : SDLCState) (w' : HW) (t : list (SdlcEvent X)) : Prop :=
  exists w1 raw v raw_tasks policy subjects ts,
    h_read_to_string tasks_path w = (Ok raw, w1) /\ json_parse raw = Ok v /\ as_array v = Some raw_tasks /\
    resolved_policy ctx = Ok policy /\ logged ctx w1 subjects w' t /\
    Forall2 (started_task (policy_max_attempts policy) subjects) raw_tasks ts /\
    s = mkSDLCState (e_spec_slug e) (e_phase_id e) (e_block_id e) default_global_status ts SDLCTelemetry_default
          None None None None None None None None [].
Lemma bootstrap_spec e tasks_path ctx w s w' t :
  bootstrap e tasks_path ctx w = (Ok s, w', t) -> started_from e tasks_path ctx w s w' t.
Proof.
  unfold bootstrap, fail. intros E.
  apply try_bind_inv in E as [(err & _ & [=])|(v & w1 & t1 & t2 & E1 & E & ->)].
  apply read_json_spec in E1 as [-> (raw & Er & Ep)].
  apply try_eret_inv in E as [(err & _ & [=])|(raw_tasks & Ha & E)].
  apply try_eret_inv in E as [(err & _ & [=])|(policy & Epol & E)].
  destruct (seed_max_attempts raw_tasks (policy_max_attempts policy)) as [ts|] eqn:Es;
    [|by apply eret_inv in E as (? & _)].
  apply seed_max_attempts_spec in Es.
  apply ebind_inv in E as (s0 & w2 & t3 & t4 & E2 & E & ->). apply eret_inv in E as ([= ->] & -> & ->).
  apply reconcile_log_spec in E2 as (subjects & Hl & ->). rewrite app_nil_r.
  exists w1, raw, v, raw_tasks, policy, subjects, (map (mark_from_log subjects) ts).
  destruct (as_array v) as [l|]; [|done]. injection Ha as ->. split_and!; [done..| |done].
  apply Forall2_fmap_r. eapply Forall2_impl; [exact Es|]. intros v' t' (t0 & Ev & ->).
  by apply started_task_intro.
Qed.

(** Where the spec of a run is: in its worktree, else under the working
    directory. *)
Inductive spec_at (ctx : SdlcCtx X) (e : SDLCFlowEventSchema) (w : HW) : string -> HW -> Prop :=
| spec_in_worktree s : r_setup ctx = Some s ->
    spec_at ctx e w (path_join (path_join (setup_worktree_path s) "planning") (e_spec_slug e)) w
| spec_in_cwd r w1 : r_setup ctx = None -> e_repo e = None -> fs_current_dir w = (r, w1) ->
    spec_at ctx e w
      (path_join (path_join (match r with Ok root => root | Err _ => "." end) "planning") (e_spec_slug e)) w1
| spec_unplaced slug : r_setup ctx = None -> e_repo e = Some slug ->
    spec_at ctx e w (path_join (path_join "." "planning") (e_spec_slug e)) w.
Lemma spec_dir_spec ctx e w dir w1 t :
  parse_event = Ok e -> spec_dir ctx (e_spec_slug e) w = (dir, w1, t) -> spec_at ctx e w dir w1 /\ t = [].
Proof.
  intros He. unfold spec_dir, unregistered_root, resolve_target_root. rewrite He.
  destruct (r_setup ctx) as [s|] eqn:Es; [intros E; inv_effs; split; [by apply spec_in_worktree|done]|].
  destruct (e_repo e) as [slug|] eqn:Er; intros E; inv_effs; (split; [|done]).
  - by eapply spec_unplaced.
  - match goal with Hc : fs_current_dir _ = (?r, _) |- _ => pose proof (spec_in_cwd ctx e w r _ Es Er Hc) as Hs; by destruct r end.
Qed.

(** [name n], [name (n + 1)], ... up to but not [name m] are all taken. *)
Inductive taken (name : Z -> string) : Z -> HW -> Z -> HW -> Prop :=
| taken_none n w : taken name n w n w
| taken_one n w w1 m w2 : h_exists (name n) w = (true, w1) -> taken name (n + 1)%Z w1 m w2 -> taken name n w m w2.
Definition superseded_name (dir base : string) (n : Z) : string :=
  path_join dir (base +:+ (if decide (n = 1%Z) then "" else "-" +:+ pretty n) +:+ ".bak").
Lemma free_name_first k dir base suffix candidate w o w' t :
  (1 < suffix)%Z -> candidate = superseded_name dir base (suffix - 1) ->
  free_name k dir base suffix candidate w = (o, w', t) ->
  t = [] /\ forall name, o = Some name -> exists m w1,
    taken (superseded_name dir base) (suffix - 1) w m w1 /\ name = superseded_name dir base m /\
    h_exists name w1 = (false, w') /\ (suffix - 1 <= m < suffix + Z.of_nat k)%Z.
Proof.
  revert suffix candidate w o w' t. induction k as [|k IH]; intros suffix candidate w o w' t Hs Hc E; cbn [free_name] in E.
  all: apply ebind_inv in E as (b & w1 & t1 & t2 & E1 & E & ->); apply esilent_inv in E1 as [Ex ->].
  all: destruct b; cbn [negb] in E.
  2, 4: apply eret_inv in E as (-> & -> & ->); split; [done|]; intros name [= <-];
    exists (suffix - 1)%Z, w; split_and!; [constructor|done|done|lia..].
  - by apply eret_inv in E as (-> & _ & ->).
  - apply IH in E as [-> Hn]; [|lia|].
    2: { unfold superseded_name. replace (suffix + 1 - 1)%Z with suffix by lia. rewrite decide_False by lia. reflexivity. }
    split; [done|]. intros name Ho. destruct (Hn name Ho) as (m & w2 & Ht & -> & Hx & Hm).
    exists m, w2. replace (suffix + 1 - 1)%Z with (suffix - 1 + 1)%Z in Ht by lia.
    split_and!; [by eapply taken_one; [rewrite <- Hc|]|done..|lia|lia].
Qed.

(** The state that stands in the way is renamed to the first free name. *)
Definition set_aside (state_path : string) (old : value) (w : HW) (target : string) (w' : HW) : Prop :=
  exists n w1 w2,
    let name := superseded_name (path_parent_of state_path)
                  (state_filename +:+ ".superseded-" +:+ superseded_discriminator old) in
    taken name 1 w n w1 /\ (1 <= n <= 9999)%Z /\ target = name n /\
    h_exists target w1 = (false, w2) /\ fs_rename state_path target w2 = (Ok tt, w').
Lemma archive_set_aside state_path old w target w' t :
  archive_superseded_state state_path old w = (Ok target, w', t) ->
  t = [Renamed state_path target] /\ set_aside state_path old w target w'.
Proof.
  unfold archive_superseded_state, fail. intros (name & w1 & t1 & t2 & E1 & E & ->)%ebind_inv.
  apply free_name_first in E1 as [-> Hn]; [|lia|done].
  destruct name as [name|]; [|by apply eret_inv in E as ([=] & _)].
  destruct (Hn name eq_refl) as (n & w2 & Ht & Hc & Hx & Hr). clear Hn.
  apply ebind_inv in E as (u & w3 & t3 & t4 & E1 & E & ->). apply elog_inv in E1 as [-> ->].
  apply ebind_inv in E as (moved & w4 & t5 & t6 & E1 & E & ->). apply esilent_inv in E1 as [Em ->].
  apply eret_inv in E as (Hm & -> & ->). destruct moved as [[]|]; [|done]. injection Hm as ->.
  split; [done|]. exists n, w2, w1. cbv zeta. unfold ARCHIVE_NAMES in Hr.
  rewrite N_nat_Z in Hr. split_and!; [exact Ht|lia|lia|exact Hc|exact Hx|exact Em].
Qed.

(** The committed state in a file, as [from_committed_state_json] reads it. *)
Definition committed_at (path : string) (w : HW) (v : value) (s : SDLCState) (w' : HW) : Prop :=
  exists raw, h_read_to_string path w = (Ok raw, w') /\ json_parse raw = Ok v /\
    from_committed_state_json as_object debug_str serde_error v = Ok s.

Lemma boot_spec e dir ctx w a w' t :
  (there <~ esilent (h_exists (tasks_path_in dir)) ;;
   if negb (there : bool) then eret (Err (NodeError_new ("no state or tasks file found for spec " +:+ debug_str (e_spec_slug e) +:+ " under " +:+ dir)))
   else state <~? bootstrap e (tasks_path_in dir) ctx ;; eret (Ok (put_load state ctx))) w = (Ok a, w', t) ->
  exists s w1, r_load a = Some s /\ h_exists (tasks_path_in dir) w = (true, w1) /\
    started_from e (tasks_path_in dir) ctx w1 s w' t.
Proof.
  intros (there & w1 & t1 & t2 & E1 & E & ->)%ebind_inv. apply esilent_inv in E1 as [Ex ->].
  destruct there; cbn [negb] in E; [|by apply eret_inv in E as (? & _)].
  apply try_bind_inv in E as [(err & _ & [=])|(s & w2 & t3 & t4 & E2 & E & ->)].
  apply eret_inv in E as ([= ->] & -> & ->). apply bootstrap_spec in E2 as Hs.
  rewrite app_nil_r. by exists s, w1.
Qed.

(** What a run that names no task to retry goes on with, once the committed
    state has been looked for. *)
Definition gone_on (e : SDLCFlowEventSchema) (dir : string) (existing : option value) (ctx : SdlcCtx X) (w : HW)
    (s : SDLCState) (w' : HW) (t : list (SdlcEvent X)) : Prop :=
  match existing with
  | Some v =>
      (from_committed_state_json as_object debug_str serde_error v = Ok s /\ t = [] /\
         ((e_resume e = true /\ w' = w) \/ (e_resume e = false /\ h_exists (tasks_path_in dir) w = (false, w')))) \/
      (e_resume e = false /\ exists w1 target w2 w3 t', h_exists (tasks_path_in dir) w = (true, w1) /\
         set_aside (state_path_in dir) v w1 target w2 /\ h_exists (tasks_path_in dir) w2 = (true, w3) /\
         started_from e (tasks_path_in dir) ctx w3 s w' t' /\ t = Renamed (state_path_in dir) target :: t')
  | None => exists w1, h_exists (tasks_path_in dir) w = (true, w1) /\
      started_from e (tasks_path_in dir) ctx w1 s w' t
  end.
Lemma resume_or_restart_spec e dir existing ctx w ctx' w' t :
  resume_or_restart e dir existing ctx w = (Ok ctx', w', t) ->
  exists s, r_load ctx' = Some s /\ gone_on e dir existing ctx w s w' t.
Proof.
  unfold resume_or_restart, fail, gone_on. intros (restarting & w1 & t1 & t2 & E1 & E & ->)%ebind_inv.
  assert (t1 = [] /\ match existing with
                     | Some _ => if e_resume e then restarting = false /\ w1 = w
                                 else h_exists (tasks_path_in dir) w = (restarting, w1)
                     | None => restarting = false /\ w1 = w end) as [-> Hr].
  { destruct existing as [v|]; [|by apply eret_inv in E1 as (-> & -> & ->)].
    destruct (e_resume e); [by apply eret_inv in E1 as (-> & -> & ->)|].
    by apply esilent_inv in E1 as [Ex ->]. }
  clear E1. cbn [app].
  apply try_bind_inv in E as [(err & _ & [=])|(archived & w2 & t3 & t4 & E2 & E & ->)].
  destruct existing as [v|]; [destruct restarting|].
  - apply archive_set_aside in E2 as [-> Ha]. apply boot_spec in E as (s & w3 & Hl & Hx & Hs).
    exists s. split; [done|]. right. destruct (e_resume e); [by destruct Hr|].
    split; [done|]. by exists w1, archived, w2, w3, t4.
  - apply eret_inv in E2 as (_ & -> & ->). apply eret_inv in E as (E & -> & ->).
    destruct (from_committed_state_json as_object debug_str serde_error v) as [s|] eqn:Ev; [|done].
    injection E as ->. exists s. split; [done|]. left. split_and!; [done..|].
    destruct (e_resume e); [destruct Hr as [_ ->]; by left|by right].
  - apply eret_inv in E2 as (_ & -> & ->). destruct Hr as [_ ->]. apply boot_spec in E as (s & w3 & Hl & Hx & Hs).
    exists s. split; [done|]. by exists w3.
Qed.

Lemma snapshot_harmless ctx dir : only harmless (snapshot_baselines ctx dir).
Proof.
  unfold snapshot_baselines, resolve_harness_path, load_harness_checks. only_go.
  match goal with |- only _ (snapshot_checks _ _ ?l) => generalize l end.
  intros l. induction l as [|check l IH]; cbn [snapshot_checks]; [eauto with only nocore|].
  unfold snapshot_check, fail. only_go.
Qed.
Lemma spec_dir_harmless ctx slug : only harmless (spec_dir ctx slug).
Proof. unfold spec_dir, unregistered_root, resolve_target_root. only_go. Qed.

(** C9: which task state a run goes on with, the files read in the world the
    node has reached.  The spec's directory is the worktree's (without one, the
    working directory's), and its baselines are taken first.  A run that names a
    task to retry takes the committed state with the first task of that id set
    back to pending, its two counters at zero, and nothing else changed; without
    a committed state it fails.  A resumed run, and a run of a spec that has no
    tasks.json, takes the committed state as it is.  Any other run starts from
    tasks.json: each task with the policy's budget unless it declares its own,
    and done with its counters at zero exactly when the subject of its save
    commit is among those [git log] printed in the worktree (as declared
    otherwise); a committed state that stood in the way is first renamed, to the
    first name that [exists] had just answered is free. *)
Theorem load_state_spec ctx w ctx' w' t :
  LoadTaskStateNode_process ctx w = (Ok ctx', w', t) ->
  exists e dir w1 w2 t1 has w3 s t2,
    parse_event = Ok e /\ spec_at ctx e w dir w1 /\ snapshot_baselines ctx dir w1 = (Ok tt, w2, t1) /\
    forallb harmless t1 = true /\ h_exists (state_path_in dir) w2 = (has, w3) /\ t = t1 ++ t2 /\
    r_load ctx' = Some s /\
    match e_retry_task e, has with
    | Some id, true => exists v s0 pre tk post, committed_at (state_path_in dir) w3 v s0 w' /\
        tasks s0 = pre ++ tk :: post /\ task_id tk = id /\ Forall (fun u => task_id u <> id) pre /\ t2 = [] /\
        s = mkSDLCState (spec_slug s0) (phase_id s0) (state_block_id s0) (global_status s0)
              (pre ++ mkSDLCTask (task_id tk) (title tk) (description tk) (acceptance_criteria tk) TsPending
                        (validation_commands tk) 0 (max_attempts tk) 0 (expects_writes tk) (task_files tk) :: post)
              (telemetry s0) (st_policy s0) (st_outcomes s0) (branch s0) (st_worktree_path s0)
              (st_started_at s0) (st_updated_at s0) (bail_reason s0) (st_run_id s0) (claude_sessions s0)
    | Some _, false => False
    | None, true => exists raw v w4, h_read_to_string (state_path_in dir) w3 = (Ok raw, w4) /\
        json_parse raw = Ok v /\
        ((from_committed_state_json as_object debug_str serde_error v = Ok s /\ t2 = [] /\
            ((e_resume e = true /\ w' = w4) \/
             (e_resume e = false /\ h_exists (tasks_path_in dir) w4 = (false, w')))) \/
         (e_resume e = false /\ exists w5 target w6 w7 t3, h_exists (tasks_path_in dir) w4 = (true, w5) /\
            set_aside (state_path_in dir) v w5 target w6 /\ h_exists (tasks_path_in dir) w6 = (true, w7) /\
            started_from e (tasks_path_in dir) ctx w7 s w' t3 /\ t2 = Renamed (state_path_in dir) target :: t3))
    | None, false => exists w4, h_exists (tasks_path_in dir) w3 = (true, w4) /\
        started_from e (tasks_path_in dir) ctx w4 s w' t2
    end.
Proof.
  unfold LoadTaskStateNode_process. intros [(err & _ & [=])|(e & He & E)]%try_eret_inv.
  apply ebind_inv in E as (dir & w1 & t1 & t2 & E1 & E & ->). apply spec_dir_spec in E1 as [Hdir ->]; [|done].
  apply try_bind_inv in E as [(err & _ & [=])|([] & w2 & t3 & t4 & E2 & E & ->)].
  apply ebind_inv in E as (has & w3 & t5 & t6 & E3 & E & ->). apply esilent_inv in E3 as [Ex ->].
  apply try_bind_inv in E as [(err & _ & [=])|(existing & w4 & t7 & t8 & E4 & E & ->)].
  assert (t7 = [] /\ match existing with
    | Some v => has = true /\ exists raw, h_read_to_string (state_path_in dir) w3 = (Ok raw, w4) /\ json_parse raw = Ok v
    | None => has = false /\ w4 = w3
    end) as [-> Hx].
  { destruct has.
    - apply try_bind_inv in E4 as [(err & _ & [=])|(v & w5 & t9 & t10 & E5 & E4 & ->)].
      apply read_json_spec in E5 as [-> (raw & Er & Ep)]. apply eret_inv in E4 as ([= ->] & -> & ->).
      split; [done|]. split; [done|]. by exists raw.
    - by apply eret_inv in E4 as ([= ->] & -> & ->). }
  exists e, dir, w1, w2, t3, has, w3. cbn [app].
  pose proof (snapshot_harmless _ _ _ _ _ _ E2) as Hh.
  destruct (e_retry_task e) as [id|] eqn:Eid.
  - apply eret_inv in E as (E & -> & ->). unfold retry_one in E. destruct existing as [v|]; [|done].
    destruct Hx as [-> (raw & Er & Ep)].
    destruct (from_committed_state_json as_object debug_str serde_error v) as [s0|] eqn:Ev; [|done]. cbn in E.
    destruct (update_task id (restatus TsPending) (tasks s0)) as [ts|] eqn:Eu; [|done]. injection E as ->.
    apply update_task_Some in Eu as (pre & tk & post & Hts & Hid & -> & _ & Hpre).
    eexists _, []. split_and!; [done..|]. exists v, s0, pre, tk, post.
    split_and!; [by exists raw|done..].
  - apply resume_or_restart_spec in E as (s & Hl & Hs). exists s, t8. split_and!; [done..|].
    destruct existing as [v|]; unfold gone_on in Hs.
    + destruct Hx as [-> (raw & Er & Ep)]. by exists raw, v, w4.
    + by destruct Hx as [-> ->].
Qed.

(** ** The target of a run *)

Lemma clean_tree_guard_spec git_cwd w r w' t :
  clean_tree_guard git_cwd w = (r, w', t) ->
  exists outcome, h_run "git" ["status"; "--porcelain"] git_cwd w = (outcome, w') /\
    t = [RanCommand "git" ["status"; "--porcelain"] git_cwd] /\
    ((r = Ok tt /\ exists out, outcome = Ok out /\ cmd_status out = 0%Z /\ trim (cmd_stdout out) = "") \/
     (exists err, r = Err err) /\
     (match outcome with Ok out => ~ (cmd_status out = 0%Z /\ trim (cmd_stdout out) = "") | Err _ => True end)).
Proof.
  unfold clean_tree_guard. intros (outcome & w1 & t1 & t2 & E1 & E & ->)%ebind_inv.
  apply run_command_inv in E1 as [Er ->]. exists outcome.
  apply try_bind_inv in E as [(err & E & ->)|(out & w2 & t3 & t4 & E2 & E & ->)].
  - apply eret_inv in E as (Hs & -> & ->). split_and!; [done..|]. right.
    split; [by exists err|]. by destruct outcome.
  - apply eret_inv in E2 as (Hs & -> & ->). apply eret_inv in E as (Hr & -> & ->). split_and!; [done..|].
    destruct outcome as [out'|]; [|done]. injection Hs as ->.
    destruct (Z.eqb_spec (cmd_status out') 0); cbn [negb] in Hr; [|right; split; [by eexists|naive_solver]].
    destruct (String.eqb_spec (trim (cmd_stdout out')) ""); cbn [negb] in Hr; [|right; split; [by eexists|naive_solver]].
    left. split; [exact Hr|]. by exists out'.
Qed.

(** The directory git runs in, the target root, and the world once it is
    known. *)
Inductive runs_in (e : SDLCFlowEventSchema) (w : HW) : string -> string -> HW -> Prop :=
| runs_here root w0 : e_repo e = None -> fs_current_dir w = (Ok root, w0) -> runs_in e w "." root w0
| runs_in_repo slug reg root : e_repo e = Some slug -> registry = Some reg -> registry_resolve reg slug = Ok root ->
    runs_in e w root root w.
Lemma resolve_target_root_spec e w r w0 t :
  resolve_target_root e registry w = (r, w0, t) ->
  t = [] /\ match r with
            | Ok root => runs_in e w (if target_root_is_default e then "." else root) root w0
            | Err _ => forall d root w1, ~ runs_in e w d root w1
            end.
Proof.
  unfold resolve_target_root, target_root_is_default. destruct (e_repo e) as [slug|] eqn:Er; intros E; inv_effs.
  - split; [done|]. destruct registry as [reg|] eqn:Eg; [|intros d root w1 Hr; inversion Hr; congruence].
    destruct (registry_resolve reg slug) eqn:Ev; [by eapply runs_in_repo|].
    intros d root w1 Hr; inversion Hr; congruence.
  - split; [done|]. destruct a as [root|err]; [by apply runs_here|].
    intros d root w1 Hr; inversion Hr; congruence.
Qed.

(** C11: a run in a live checkout touches it only when it is clean.  It runs in
    the current directory, or in the root the registry gives for the
    repository the event names (where neither can be had the node fails and runs
    nothing).  Its first command is [git status --porcelain], there and in the
    world so reached; unless that exits with 0 and prints nothing but white
    space, the node fails with nothing else done.  When it is clean the next
    command, in the same directory and the next world, is the checkout of the
    branch (a resumed run) or the fetch of origin/main. *)
Theorem live_checkout_guarded ctx w r w' t e :
  SetupWorktreeNode_process ctx w = (r, w', t) -> parse_event = Ok e -> e_use_worktree e = false ->
  (t = [] /\ (exists err, r = Err err) /\ forall d root w0, ~ runs_in e w d root w0) \/
  exists cwd root w0 outcome w1 t', runs_in e w cwd root w0 /\
    h_run "git" ["status"; "--porcelain"] cwd w0 = (outcome, w1) /\
    t = RanCommand "git" ["status"; "--porcelain"] cwd :: t' /\
    match outcome with
    | Ok out =>
        if decide (cmd_status out = 0%Z /\ trim (cmd_stdout out) = "")
        then exists t'', t' = RanCommand "git"
               (if e_resume e then ["checkout"; default (branch_prefix +:+ e_spec_slug e) (e_branch_name e)]
                else ["fetch"; "origin"; "main"]) cwd :: t''
        else t' = [] /\ w' = w1 /\ exists err, r = Err err
    | Err _ => t' = [] /\ w' = w1 /\ exists err, r = Err err
    end.
Proof.
  unfold SetupWorktreeNode_process. intros E He Hu.
  apply try_eret_inv in E as [(err & Hs & _)|(e' & Hs & E)]; [congruence|].
  rewrite He in Hs. injection Hs as <-. rewrite Hu in E.
  apply try_bind_inv in E as [(err & E1 & ->)|(root & w0 & t1 & t2 & E1 & E & ->)];
    apply resolve_target_root_spec in E1 as [-> Hr]; [left; eauto|right].
  cbv zeta in E. set (cwd := if target_root_is_default e then "." else root) in *.
  apply try_bind_inv in E as [(err & E1 & ->)|([] & w2 & t3 & t4 & E1 & E & ->)];
    apply clean_tree_guard_spec in E1 as (outcome & Eo & -> & Hc).
  - eexists cwd, root, w0, outcome, _, []. split_and!; [done..|].
    destruct outcome as [out|err']; [|eauto]. case_decide as Hd; [|eauto].
    destruct Hc as [[[=] _]|[_ Hc]]. by destruct (Hc Hd).
  - destruct Hc as [(_ & out & -> & Hz & Hp)|Hc]; [|by destruct Hc as [[? [=]] _]].
    eexists cwd, root, w0, (Ok out), w2, t4. split_and!; [done..|]. rewrite decide_True by done.
    unfold checkout_branch, git_required in E.
    destruct (e_resume e).
    + apply try_bind_inv in E as [(err & E1 & ->)|(u & w3 & t5 & t6 & E1 & E & ->)];
        apply ebind_inv in E1 as (? & ? & ? & ? & E1 & E2 & ->); apply run_command_inv in E1 as [_ ->]; eexists; reflexivity.
    + apply try_bind_inv in E as [(err & E1 & ->)|(u & w3 & t5 & t6 & E1 & E & ->)];
        apply ebind_inv in E1 as (? & ? & ? & ? & E1 & E2 & ->); apply run_command_inv in E1 as [_ ->]; eexists; reflexivity.
Qed.

(** ** A worktree of one's own *)

(** The link [p], to [target], put where something may already stand; the flag
    tells success.  Only another link or a directory just listed as empty is
    taken away for it. *)
Definition okb {A B} (r : result A B) : bool := match r with Ok _ => true | Err _ => false end.
Inductive planning_linked (p target : string) (w : HW) : list (SdlcEvent X) -> bool -> HW -> Prop :=
| linked_already w1 w2 : fs_metadata p w = (SymlinkEntry, w1) -> fs_canonicalize p w1 = (Ok target, w2) ->
    planning_linked p target w [] true w2
| linked_fresh w1 r w2 : fs_metadata p w = (NoEntry, w1) -> fs_symlink target p w1 = (r, w2) ->
    planning_linked p target w [Linked target p] (okb r) w2
| linked_over_link w1 rt w2 w3 r w4 : fs_metadata p w = (SymlinkEntry, w1) -> fs_canonicalize p w1 = (rt, w2) ->
    rt <> Ok target -> fs_remove_file p w2 = (Ok tt, w3) -> fs_symlink target p w3 = (r, w4) ->
    planning_linked p target w [RemovedLink p; Linked target p] (okb r) w4
| link_stuck w1 rt w2 err w3 : fs_metadata p w = (SymlinkEntry, w1) -> fs_canonicalize p w1 = (rt, w2) ->
    rt <> Ok target -> fs_remove_file p w2 = (Err err, w3) ->
    planning_linked p target w [RemovedLink p] false w3
| linked_over_empty w1 w2 w3 r w4 : fs_metadata p w = (DirEntry, w1) -> fs_read_dir p w1 = (Ok [], w2) ->
    fs_remove_dir p w2 = (Ok tt, w3) -> fs_symlink target p w3 = (r, w4) ->
    planning_linked p target w [RemovedDir p; Linked target p] (okb r) w4
| dir_stuck w1 w2 err w3 : fs_metadata p w = (DirEntry, w1) -> fs_read_dir p w1 = (Ok [], w2) ->
    fs_remove_dir p w2 = (Err err, w3) -> planning_linked p target w [RemovedDir p] false w3
| dir_refused w1 l w2 : fs_metadata p w = (DirEntry, w1) -> fs_read_dir p w1 = (l, w2) -> l <> Ok [] ->
    planning_linked p target w [] false w2
| entry_refused m w1 : fs_metadata p w = (m, w1) ->
    match m with MetaErr _ | OtherEntry => True | _ => False end -> planning_linked p target w [] false w1.

Lemma link_planning_spec p source w r w' t :
  link_planning p source w = (r, w', t) ->
  (exists err, fs_canonicalize source w = (Err err, w') /\ t = [] /\ okb r = false) \/
  exists target w1, fs_canonicalize source w = (Ok target, w1) /\ planning_linked p target w1 t (okb r) w'.
Proof.
  unfold link_planning, fail. intros (rc & w1 & t1 & t2 & E1 & E & ->)%ebind_inv.
  apply esilent_inv in E1 as [Ec ->].
  destruct rc as [target|err]; [right|apply eret_inv in E as (-> & -> & ->); left; by exists err].
  exists target, w1. split; [done|]. clear Ec.
  apply ebind_inv in E as (existing & w2 & t3 & t4 & E2 & E & ->). apply esilent_inv in E2 as [Em ->].
  apply ebind_inv in E as (correct & w3 & t5 & t6 & E3 & E & ->).
  destruct existing; cbn [clear_planning] in E; unfold fail in E; cbn [app].
  - apply eret_inv in E3 as (-> & -> & ->). unfold try_bind in E. inv_effs.
    replace (okb _) with (okb a0) by (by destruct a0). by eapply linked_fresh.
  - apply eret_inv in E3 as (-> & -> & ->). unfold try_bind in E. inv_effs. by eapply entry_refused.
  - apply ebind_inv in E3 as (rt & w4 & t7 & t8 & E4 & E3 & ->). apply esilent_inv in E4 as [Er ->].
    apply eret_inv in E3 as (-> & -> & ->). cbn [app].
    destruct (match rt with Ok t => String.eqb t target | Err _ => false end) eqn:Hb.
    { destruct rt as [c|]; [|done]. apply String.eqb_eq in Hb as ->. inv_effs. by eapply linked_already. }
    assert (rt <> Ok target) as Hne by (intros ->; by rewrite String.eqb_refl in Hb). unfold try_bind in E.
    apply ebind_inv in E as (cl & w5 & t7 & t8 & E5 & E & ->). inv_effs.
    match goal with Hr : fs_remove_file _ _ = (?x, _) |- _ => destruct x as [[]|err] end; inv_effs.
    + match goal with Hl : fs_symlink _ _ _ = (?x, _) |- _ =>
        match goal with |- context [okb ?y] => replace (okb y) with (okb x) by (by destruct x) end end.
      by eapply linked_over_link.
    + by eapply link_stuck.
  - apply eret_inv in E3 as (-> & -> & ->). unfold try_bind in E.
    apply ebind_inv in E as (cl & w5 & t7 & t8 & E5 & E & ->).
    apply ebind_inv in E5 as (l & w6 & t9 & t10 & E6 & E5 & ->). apply esilent_inv in E6 as [El ->].
    destruct l as [[|x l]|err]; inv_effs; [|by eapply dir_refused..].
    match goal with Hr : fs_remove_dir _ _ = (?x, _) |- _ => destruct x as [[]|err] end; inv_effs.
    + match goal with Hl : fs_symlink _ _ _ = (?x, _) |- _ =>
        match goal with |- context [okb ?y] => replace (okb y) with (okb x) by (by destruct x) end end.
      by eapply linked_over_empty.
    + by eapply dir_stuck.
  - apply eret_inv in E3 as (-> & -> & ->). unfold try_bind in E. inv_effs. by eapply entry_refused.
Qed.

(** Whether the worktree gets a planning link, and to what. *)
Definition planning_installed (root path source : string) (w : HW) (t : list (SdlcEvent X)) (ok : bool) (w' : HW) : Prop :=
  exists there w1 m w2, fs_is_dir path w = (there, w1) /\
    (if there : bool then fs_metadata source w1 = (m, w2) else m = NoEntry /\ w2 = w1) /\
    match m with
    | NoEntry | MetaErr _ => t = [] /\ ok = true /\ w' = w2
    | _ => exists is_brain w3 own w4,
        match registry with
        | Some reg => same_canonical root (brain_root reg) w2 = (is_brain, w3, []) /\
            declares_non_vaulted_planning reg root w3 = (own, w4, [])
        | None => is_brain = false /\ own = false /\ w4 = w2
        end /\
        if is_brain || own : bool then t = [] /\ ok = true /\ w' = w4
        else (exists err, fs_canonicalize source w4 = (Err err, w') /\ t = [] /\ ok = false) \/
             exists target w5, fs_canonicalize source w4 = (Ok target, w5) /\
               planning_linked (path_join path "planning") target w5 t ok w'
    end.

Lemma same_canonical_silent a b : only (fun _ => false) (same_canonical a b).
Proof. unfold same_canonical. only_go. Qed.
Lemma declares_silent r path : only (fun _ => false) (declares_non_vaulted_planning r path).
Proof.
  unfold declares_non_vaulted_planning. only_step; [eauto with only nocore|]. only_step; [|eauto with only nocore].
  generalize (known_slugs r). induction l; cbn [non_vaulted_scan]; [eauto with only nocore|]. only_go; done.
Qed.
Lemma silent_nil {A} (m : SD A) w a w' t : only (fun _ => false) m -> m w = (a, w', t) -> t = [].
Proof. intros Hm E. apply Hm in E. by destruct t. Qed.

Lemma install_planning_spec root path source w r w' t :
  install_planning root path source w = (r, w', t) -> planning_installed root path source w t (okb r) w'.
Proof.
  unfold install_planning. intros (there & w1 & t1 & t2 & E1 & E & ->)%ebind_inv.
  apply esilent_inv in E1 as [Ed ->].
  apply ebind_inv in E as (m & w2 & t3 & t4 & E2 & E & ->).
  assert ((if there : bool then fs_metadata source w1 = (m, w2) else m = NoEntry /\ w2 = w1) /\ t3 = []) as [Hm ->].
  { destruct there; inv_effs; done. }
  exists there, w1, m, w2. split; [done|]. split; [done|]. cbn [app].
  destruct m; [apply eret_inv in E as (-> & -> & ->); done|apply eret_inv in E as (-> & -> & ->); done| | |].
  all: apply ebind_inv in E as (brain & w3 & t5 & t6 & E3 & E & ->);
    apply ebind_inv in E as (own & w4 & t7 & t8 & E4 & E & ->);
    exists brain, w3, own, w4.
  all: destruct registry as [reg|];
    [pose proof (silent_nil _ _ _ _ _ (same_canonical_silent _ _) E3) as ->;
     pose proof (silent_nil _ _ _ _ _ (declares_silent _ _) E4) as ->; split; [done|]
    |apply eret_inv in E3 as (-> & -> & ->); apply eret_inv in E4 as (-> & -> & ->); split; [done|]].
  all: cbn [app]; destruct (_ || _); [apply eret_inv in E as (-> & -> & ->); done|].
  all: apply link_planning_spec in E; exact E.
Qed.

(** What follows once the worktree is there: the planning link, the links to the
    sibling crates, the base commit, the policy. *)
Definition worktree_finished (ctx : SdlcCtx X) (root path branch source siblings : string)
    (w : HW) (r : result (SdlcCtx X) NodeError) (w' : HW) (t : list (SdlcEvent X)) : Prop :=
  exists t1 ok w1 t2, planning_installed root path source w t1 ok w1 /\ t = t1 ++ t2 /\
    if ok : bool then
      exists w2 t3 out w3 t4,
        efold (link_sibling siblings path) ["claude-code-rs"; "mev"; "okf-core"] tt w1 = (tt, w2, t3) /\
        Forall (fun ev => exists target p, ev = Linked target p) t3 /\
        h_run "git" ["rev-parse"; "HEAD"] path w2 = (out, w3) /\
        t2 = t3 ++ RanCommand "git" ["rev-parse"; "HEAD"] path :: t4 /\
        exists base, let ctx1 := put_setup (mkSetupResult path (Some branch) base) ctx in
          match r_policy ctx with
          | Some _ => r = Ok ctx1 /\ t4 = [] /\ w' = w3
          | None => exists rp, policy_resolver ctx1 path w3 = (rp, w', t4) /\
              r = match rp with Ok policy => Ok (put_policy policy ctx1) | Err err => Err err end
          end
    else t2 = [] /\ w' = w1 /\ exists err, r = Err err.

Lemma link_siblings_links sources path l w u w' t :
  efold (link_sibling sources path) l tt w = (u, w', t) -> Forall (fun ev => exists target p, ev = Linked target p) t.
Proof.
  revert u w w' t. assert (emits (fun ev => exists target p, ev = Linked target p) (efold (link_sibling sources path) l tt)) as Hl.
  { generalize tt. induction l as [|x l IH]; intros []; cbn [efold]; [apply emits_ret|].
    apply emits_bind; [|done]. unfold link_sibling. intros w u w' t E.
    inv_effs. destruct a; inv_effs; [constructor|].
    match goal with Hc : fs_canonicalize _ _ = (?x, _) |- _ => destruct x end; inv_effs; repeat constructor; eauto. }
  intros u w w' t E. exact (Hl _ _ _ _ E).
Qed.

Lemma worktree_finish_inv ctx root path branch source siblings w r w' t :
  (placed <~? (installed <~? install_planning root path source ;;
               efold (link_sibling siblings path) ["claude-code-rs"; "mev"; "okf-core"] tt ;~ eret (Ok tt)) ;;
   base <~ head_sha path ;;
   match r_policy (put_setup (mkSetupResult path (Some branch) base) ctx) with
   | Some _ => eret (Ok (put_setup (mkSetupResult path (Some branch) base) ctx))
   | None =>
       policy <~? policy_resolver (put_setup (mkSetupResult path (Some branch) base) ctx) path ;;
       eret (Ok (put_policy policy (put_setup (mkSetupResult path (Some branch) base) ctx)))
   end) w = (r, w', t) ->
  worktree_finished ctx root path branch source siblings w r w' t.
Proof.
  intros E. apply try_bind_inv in E as [(err & E & ->)|(u & w1 & t1 & t2 & E1 & E & ->)].
  - apply try_bind_inv in E as [(err' & E & [= <-])|(u & w1 & t1 & t2 & E1 & E & ->)].
    + apply install_planning_spec in E. exists t, false, w', []. rewrite app_nil_r. split_and!; [done..|eauto].
    + apply ebind_inv in E as (? & ? & ? & ? & _ & E & _). by apply eret_inv in E as ([=] & _).
  - apply try_bind_inv in E1 as [(err & _ & [=])|([] & w2 & t3 & t4 & E2 & E1 & ->)].
    apply install_planning_spec in E2. apply ebind_inv in E1 as ([] & w3 & t5 & t6 & E3 & E1 & ->).
    apply eret_inv in E1 as (_ & -> & ->). rewrite app_nil_r.
    apply ebind_inv in E as (base & w4 & t7 & t8 & E4 & E & ->). unfold head_sha in E4.
    apply ebind_inv in E4 as (out & w5 & t9 & t10 & E5 & E4 & ->). apply run_command_inv in E5 as [Eo ->].
    apply eret_inv in E4 as (_ & -> & ->).
    exists t3, true, w2, (t5 ++ RanCommand "git" ["rev-parse"; "HEAD"] path :: t8).
    split; [exact E2|]. split; [by rewrite <- app_assoc|].
    exists w3, t5, out, w5, t8. split; [done|]. split; [by eapply link_siblings_links|].
    split; [done|]. split; [done|]. exists base. cbv zeta.
    change (r_policy (put_setup (mkSetupResult path (Some branch) base) ctx)) with (r_policy ctx) in E.
    destruct (r_policy ctx); [by apply eret_inv in E as (-> & -> & ->)|].
    apply try_bind_inv in E as [(err & E & ->)|(policy & w6 & t11 & t12 & E1 & E & ->)]; [by exists (Err err)|].
    apply eret_inv in E as (-> & -> & ->). exists (Ok policy). by rewrite app_nil_r.
Qed.

(** The branch and its worktree are asked of git, and taken back if git fails. *)
Definition worktree_asked (path branch cwd : string) (w1 : HW) (r : result unit NodeError) (w' : HW)
    (t : list (SdlcEvent X)) : Prop :=
  exists fetched w2 added w3, h_run "git" ["fetch"; "origin"; "main"] cwd w1 = (fetched, w2) /\
    h_run "git" ["worktree"; "add"; path; "-b"; branch; "origin/main"] cwd w2 = (added, w3) /\
    let asked := [RanCommand "git" ["fetch"; "origin"; "main"] cwd;
                  RanCommand "git" ["worktree"; "add"; path; "-b"; branch; "origin/main"] cwd] in
    match added with
    | Err _ => t = asked /\ w' = w3 /\ exists err, r = Err err
    | Ok out =>
        if decide (cmd_status out = 0%Z) then t = asked /\ w' = w3 /\ r = Ok tt
        else exists removed w4 deleted,
          h_run "git" ["worktree"; "remove"; "--force"; path] cwd w3 = (removed, w4) /\
          h_run "git" ["branch"; "-D"; branch] cwd w4 = (deleted, w') /\
          t = asked ++ [RanCommand "git" ["worktree"; "remove"; "--force"; path] cwd;
                        RanCommand "git" ["branch"; "-D"; branch] cwd] /\
          exists err, r = Err err
    end.
Lemma add_worktree_spec path branch cwd w1 r w' t :
  add_worktree path branch cwd w1 = (r, w', t) -> worktree_asked path branch cwd w1 r w' t.
Proof.
  unfold add_worktree. intros (fetched & w2 & t5 & t6 & E1 & E & ->)%ebind_inv. apply run_command_inv in E1 as [Ef ->].
  apply ebind_inv in E as (added & w3 & t7 & t8 & E1 & E & ->). apply run_command_inv in E1 as [Eadd ->].
  exists fetched, w2, added, w3. split; [done|]. split; [done|]. cbv zeta.
  destruct added as [out|err].
  2: { apply try_bind_inv in E as [(err' & E & ->)|(? & ? & ? & ? & E & _ & _)]; apply eret_inv in E as ([=] & -> & ->). eauto. }
  apply try_eret_inv in E as [(err' & [=] & _)|(out' & [= <-] & E)].
  destruct (Z.eqb_spec (cmd_status out) 0); case_decide; [|done..|].
  - apply eret_inv in E as (-> & -> & ->). done.
  - unfold remove_worktree_and_branch in E. inv_effs.
    repeat match goal with Hr : run_command _ _ _ _ = _ |- _ => apply run_command_inv in Hr as [? ->] end.
    eexists _, _, _. split_and!; [done..|unfold status_failed; eauto].
Qed.

(** C10: what setting up a worktree does to the repository, call by call.  In
    the directory of the run, unless a resumed run finds its worktree there, it
    fetches origin/main and adds the worktree on a new branch; if that command
    cannot be started nothing else is done.  [git worktree remove --force] and
    [git branch -D] are run in one case, right after this very [git worktree
    add] of the same path and branch exited with something else than 0 (whether
    or not that path and branch existed before), and nothing follows them.
    Otherwise, for the planning link, of what stands at its path only a link
    that leads elsewhere or a directory just listed as empty is removed; a
    file, a directory that holds anything, or one that cannot be read fails the
    run with nothing removed.  What else is done are links to the sibling
    crates, [git rev-parse HEAD] and the policy resolver's own effects. *)
Theorem worktree_setup_spec ctx w r w' t e :
  SetupWorktreeNode_process ctx w = (r, w', t) -> parse_event = Ok e -> e_use_worktree e = true ->
  (t = [] /\ (exists err, r = Err err) /\ forall d root w0, ~ runs_in e w d root w0) \/
  exists cwd root w0 reattached w1, runs_in e w cwd root w0 /\
    let branch := default (branch_prefix +:+ e_spec_slug e) (e_branch_name e) in
    let here := match e_repo e with Some _ => false | None => true end in
    let path := if here then "trees/" +:+ branch else path_join (path_join root "trees") branch in
    let finished := worktree_finished ctx root path branch (if here then "planning" else path_join root "planning")
                      (if here then ".." else path_join root "..") in
    (if e_resume e then h_exists path w0 = (reattached, w1) else reattached = false /\ w1 = w0) /\
    if reattached : bool then finished w1 r w' t
    else exists fetched w2 added w3, h_run "git" ["fetch"; "origin"; "main"] cwd w1 = (fetched, w2) /\
      h_run "git" ["worktree"; "add"; path; "-b"; branch; "origin/main"] cwd w2 = (added, w3) /\
      let asked := [RanCommand "git" ["fetch"; "origin"; "main"] cwd;
                    RanCommand "git" ["worktree"; "add"; path; "-b"; branch; "origin/main"] cwd] in
      match added with
      | Err _ => t = asked /\ w' = w3 /\ exists err, r = Err err
      | Ok out =>
          if decide (cmd_status out = 0%Z) then exists t2, t = asked ++ t2 /\ finished w3 r w' t2
          else exists removed w4 deleted,
            h_run "git" ["worktree"; "remove"; "--force"; path] cwd w3 = (removed, w4) /\
            h_run "git" ["branch"; "-D"; branch] cwd w4 = (deleted, w') /\
            t = asked ++ [RanCommand "git" ["worktree"; "remove"; "--force"; path] cwd;
                          RanCommand "git" ["branch"; "-D"; branch] cwd] /\
            exists err, r = Err err
      end.
Proof.
  unfold SetupWorktreeNode_process. intros E He Hu.
  apply try_eret_inv in E as [(err & Hs & _)|(e' & Hs & E)]; [congruence|].
  rewrite He in Hs. injection Hs as <-. rewrite Hu in E.
  apply try_bind_inv in E as [(err & E1 & ->)|(root & w0 & t1 & t2 & E1 & E & ->)];
    apply resolve_target_root_spec in E1 as [-> Hr]; [left; eauto|right].
  apply try_eret_inv in E as [(err & [=] & _)|(u & _ & E)]. cbv zeta in E.
  unfold target_root_is_default in *. unfold attach_worktree in E. rewrite try_ebind_assoc in E.
  apply ebind_inv in E as (reattached & w1 & t1 & t3 & E1 & E & ->).
  eexists _, root, w0, reattached, w1. split; [exact Hr|]. clear Hr. cbv zeta.
  assert (match e_repo e with Some _ => false | None => true end = negb (is_some (e_repo e))) as Hd by by destruct (e_repo e).
  rewrite Hd. unfold target_root_is_default in E.
  split. { destruct (e_resume e); inv_effs; done. }
  assert (t1 = []) as -> by (by destruct (e_resume e); inv_effs). clear E1. rewrite try_try_assoc in E. cbn [app].
  destruct reattached.
  { apply try_eret_inv in E as [(err & [=] & _)|(u' & _ & E)]. by eapply worktree_finish_inv. }
  apply try_bind_inv in E as [(err & E & ->)|([] & w4 & t4 & t5 & E1 & E & ->)].
  - apply add_worktree_spec in E as (fetched & w2 & added & w3 & Ef & Ea & E).
    exists fetched, w2, added, w3. split; [done|]. split; [done|]. destruct added as [out|]; [case_decide|].
    + by destruct E as (_ & _ & [=]).
    + destruct E as (removed & w4 & deleted & Er & Eb & -> & _). exists removed, w4, deleted. split_and!; eauto.
    + destruct E as (-> & -> & _). eauto.
  - apply add_worktree_spec in E1 as (fetched & w2 & added & w3 & Ef & Ea & E1).
    apply worktree_finish_inv in E.
    exists fetched, w2, added, w3. split; [done|]. split; [done|]. destruct added as [out|]; [case_decide|].
    + destruct E1 as (-> & -> & _). eauto.
    + destruct E1 as (? & ? & ? & _ & _ & _ & ? & [=]).
    + destruct E1 as (_ & _ & ? & [=]).
Qed.

(** ** The spec a run names *)

Lemma is_dangling_spec path w b w' t :
  is_dangling path w = (b, w', t) ->
  t = [] /\ (b = true <-> exists m, h_exists path w = (false, m) /\ exists l, fs_metadata path m = (l, w') /\
               match l with NoEntry | MetaErr _ => False | _ => True end).
Proof.
  unfold is_dangling. intros (there & w1 & t1 & t2 & E1 & E & ->)%ebind_inv.
  apply esilent_inv in E1 as [Ex ->]. rewrite Ex. destruct there.
  { apply eret_inv in E as (-> & -> & ->). split; [done|]. naive_solver. }
  apply ebind_inv in E as (m & w2 & t3 & t4 & E1 & E & ->). apply esilent_inv in E1 as [Em ->].
  apply eret_inv in E as (-> & -> & ->). split; [done|]. split.
  - intros Hb. exists w1. split; [done|]. exists m. split; [done|]. by destruct m.
  - intros (m' & [= <-] & l & El & Hl). rewrite Em in El. injection El as <-. by destruct m.
Qed.

(** A run whose spec is not in its tree never reaches the planning node: the
    router passes the context on, unchanged, or fails the run. *)
Lemma spec_exists_spec ctx w r w' t :
  SpecExistsRouterNode_process ctx w = (r, w', t) ->
  match r with
  | Ok ctx' => ctx' = ctx /\ forall slug, trim <$> ev_spec_slug ctx = Some slug -> slug <> "" ->
      exists dir, (exists w0 w1, fs_is_dir dir w0 = (true, w1)) /\
        (exists w0 w1 t0, is_dangling (state_path_in dir) w0 = (false, w1, t0)) /\
        (exists w0 w1 t0, is_dangling (tasks_path_in dir) w0 = (false, w1, t0))
  | Err _ => exists slug, trim <$> ev_spec_slug ctx = Some slug /\ slug <> ""
  end.
Proof.
  unfold SpecExistsRouterNode_process. destruct (trim <$> ev_spec_slug ctx) as [slug|].
  2: { intros E. apply eret_inv in E as (-> & _). split; [done|]. by intros ? [=]. }
  destruct (String.eqb_spec slug "") as [->|Hs].
  { intros E. apply eret_inv in E as (-> & _). split; [done|]. by intros ? [= <-]. }
  intros (dir & w1 & t1 & t2 & _ & E & ->)%ebind_inv.
  apply ebind_inv in E as (there & w2 & t3 & t4 & E2 & E & ->). apply esilent_inv in E2 as [Ed _].
  destruct there; [|apply ebind_inv in E as (note & w3 & t5 & t6 & _ & E & _); apply eret_inv in E as (-> & _); eauto].
  apply ebind_inv in E as (d1 & w3 & t5 & t6 & E3 & E & _).
  destruct d1; [apply eret_inv in E as (-> & _); eauto|].
  apply ebind_inv in E as (d2 & w4 & t7 & t8 & E4 & E & _).
  destruct d2; apply eret_inv in E as (-> & _); [eauto|]. split; [done|]. intros _ _ _.
  exists dir. split_and!; repeat eexists; eassumption.
Qed.

(** ** The planning context's bound *)

Lemma floor_boundary_spec s n :
  (floor_boundary s n <= n)%nat /\ boundary s (floor_boundary s n) = true /\
  forall m, (floor_boundary s n < m <= n)%nat -> boundary s m = false.
Proof.
  induction n as [|n IH]; cbn [floor_boundary]; [split_and!; [lia|done|lia]|].
  destruct (boundary s (S n)) eqn:Eb; [split_and!; [lia|done|lia]|].
  destruct IH as (Hle & Hb & Hm). split_and!; [lia|done|]. intros m Hr.
  destruct (decide (m = S n)) as [->|]; [done|]. apply Hm. lia.
Qed.

Lemma substring_split n s :
  (n <= String.length s)%nat -> exists dropped,
    s = String.substring 0 n s +:+ dropped /\ String.length (String.substring 0 n s) = n /\
    String.length dropped = (String.length s - n)%nat.
Proof.
  revert s. induction n as [|n IH]; intros s Hn.
  { exists s. destruct s; split_and!; cbn; lia || done. }
  destruct s as [|c s]; [cbn in Hn; lia|]. cbn in Hn.
  destruct (IH s ltac:(lia)) as (dropped & Es & Hl & Hd). exists dropped.
  change (String.substring 0 (S n) (String c s)) with (String c (String.substring 0 n s)).
  rewrite str_app_cons, <- Es. cbn. rewrite Hl, Hd. split_and!; lia || done.
Qed.

(** The planning context is cut to its budget.  A section within the budget
    is kept whole; of a longer one the largest prefix that fits and ends between
    two characters is kept, followed by a notice that counts the bytes dropped. *)
Theorem truncate_context_bounds section file_name max_bytes :
  (0 <= max_bytes)%Z ->
  truncate_context_section section file_name None = section /\
  ((Z.of_nat (String.length section) <= max_bytes)%Z ->
     truncate_context_section section file_name (Some max_bytes) = section) /\
  ((max_bytes < Z.of_nat (String.length section))%Z -> exists kept dropped,
     section = kept +:+ dropped /\ (Z.of_nat (String.length kept) <= max_bytes)%Z /\
     boundary section (String.length kept) = true /\
     (forall m, (String.length kept < m)%nat -> (Z.of_nat m <= max_bytes)%Z -> boundary section m = false) /\
     truncate_context_section section file_name (Some max_bytes)
     = kept +:+ nl +:+ "...[truncated: " +:+ pretty (String.length dropped) +:+ " bytes dropped from "
       +:+ file_name +:+ "]" +:+ nl).
Proof.
  intros Hm. split; [done|]. unfold truncate_context_section, str_len. split; intros Hl.
  { by rewrite (proj2 (Z.leb_le _ _) Hl). }
  rewrite (proj2 (Z.leb_gt _ _) Hl).
  destruct (floor_boundary_spec section (Z.to_nat max_bytes)) as (Hle & Hb & Hmax).
  destruct (substring_split (floor_boundary section (Z.to_nat max_bytes)) section ltac:(lia)) as (dropped & Es & Hk & Hd).
  exists (String.substring 0 (floor_boundary section (Z.to_nat max_bytes)) section), dropped.
  rewrite Hk, Hd. split_and!; [exact Es|lia|exact Hb| |done].
  intros m H1 H2. apply Hmax. lia.
Qed.

(** ** What was saved is found again *)

(** The commit of a saved task carries the subject the next run looks for. *)
Lemma saved_subject_found (ctx : SdlcCtx X) t subjects :
  (exists q, r_queue ctx = Some q /\ current_task_id q = task_id t /\ q_title q = title t) ->
  save_state_commit_message ctx ∈ subjects -> task_status (mark_from_log subjects t) = TsDone.
Proof.
  intros (q & Hq & Hid & Ht) Hin. unfold save_state_commit_message in Hin. rewrite Hq, Hid, Ht in Hin.
  unfold mark_from_log. by rewrite bool_decide_eq_true_2.
Qed.
End Setup.
