(* ===== verification/SdlcReview.v ===== *)
(** * After the task loop: final validation, end review, docs

    crates/engine-core/src/workflows/sdlc_flow/final_validation.rs, end_review.rs
    and docs.rs: the nodes between the drained queue and the wrap-up.

    - [FinalValidationNode_process] runs the whole suite, or in the scope
      [Reconcile] only what the per-task runs did not run in full
    - [EndReviewNode_process] reviews the whole run under [EndOnly]
    - [PatchDocsNode_process].

    The serde of the documentation reply is the class [EndLibs]. *)

From stdpp Require Import pretty.
From S2P Require Import Prelude Json Sessions Node Utf8 Text ModelReply Effect Chain LaneLog SdlcPolicy SdlcState SdlcContext SdlcFeedback SdlcClock SdlcChecks TaskLoop.

Local Open Scope string_scope.
Local Open Scope list_scope.
Local Open Scope effect_scope.

Record PatchDocsOutput := mkPatchDocsOutput {
  po_summary : string; po_files_patched : list string; po_created : list string;
  po_flagged : list string }.

Class EndLibs {X : Extern} : Type := {
  docs_of_value : value -> result PatchDocsOutput string;
  docs_of_str : string -> result PatchDocsOutput string;
  DOCS_STABLE_PROMPT : string
}.
Arguments EndLibs X : clear implicits.

Section Nodes.
Context {X : Extern} {H : Host X} {UC : UnicodeCase} {RF : RustFmt} {CL : CheckLibs X}.
Context {P : Prompts} {LL : LoopLibs X} {EL : EndLibs X}.

(** ** FinalValidationNode *)

Inductive ValidationScope := FullScope | Reconcile.

(** The gating checks whose per-task run was not the authoritative one. *)
Definition needs_reconcile (check : value) : bool :=
  default false (field_bool check "gates") &&
  (let differs := match field_str check "fastCommand" ≫= nonempty with
                  | Some f => negb (bool_decide (Some f = field_str check "command"))
                  | None => false
                  end in
   differs || bool_decide (field_bool check "perTask" = Some false)).
Definition select_reconcile_checks (checks : list value) : list value :=
  List.filter needs_reconcile checks.

Definition not_run : HeavyMeta := mkHeavyMeta "disabled" None "build" 0 false.

Definition run_and_stamp (ctx : SdlcCtx X) (checks : list value) (worktree : string)
    (skipped : bool) (skip_reason : string) : SD (SdlcCtx X) :=
  out <~ (if skipped then eret ([], [], not_run)
          else
            let job := mkCheckJob "build" (default DEFAULT_REPO_SLUG (ev_repo ctx)) worktree
                         (omap (fun c => field_str c "command") checks) in
            meta <~ esilent (h_admit job) ;;
            ran <~ run_checks checks worktree (spec_dir_for_baseline ctx worktree) ;;
            let '(results, failed) := ran in
            esilent (h_record job (bool_decide (failed = [])) results) ;~
            eret (results, failed, meta)) ;;
  let '(check_results, failed_names, heavy) := out in
  let all_passed := bool_decide (failed_names = []) in
  let failure_summary := if all_passed then ""
                         else "Failed checks: " +:+ String.concat ", " failed_names in
  eret (put_final (mkFinalValidation all_passed check_results failure_summary skipped skip_reason heavy) ctx).

Definition full_depth_reason : string :=
  "test_depth=full: every check already ran authoritative on every per-task pass; reconciling again would be a pure double-run".
Definition nothing_to_reconcile : string :=
  "no gating check needed reconciling (no fastCommand substitutions, no perTask:false checks) - skipped, zero added cost".

Definition FinalValidationNode_process (scope : ValidationScope) (ctx : SdlcCtx X)
    : SD (result (SdlcCtx X) NodeError) :=
  worktree <~? eret (worktree_path ctx) ;;
  harness_path <~ resolve_harness_path ctx worktree ;;
  harness <~? load_harness_checks harness_path ;;
  let harness_checks := harness.2 in
  match scope with
  | FullScope =>
      let '(selected, _) := select_task_checks harness_checks [] Full false in
      ctx <~ run_and_stamp ctx selected worktree false "" ;;
      eret (Ok ctx)
  | Reconcile =>
      policy <~? eret (resolved_policy ctx) ;;
      if bool_decide (test_depth policy = Full) then
        ctx <~ run_and_stamp ctx [] worktree true full_depth_reason ;; eret (Ok ctx)
      else
        let checks := select_reconcile_checks harness_checks in
        if bool_decide (checks = []) then
          ctx <~ run_and_stamp ctx [] worktree true nothing_to_reconcile ;; eret (Ok ctx)
        else
          ctx <~ run_and_stamp ctx checks worktree false "" ;; eret (Ok ctx)
  end.

(** ** EndReviewNode *)

Definition FALLBACK_DIFF_BASE : string := "main".

Definition render_task_criteria (task : SDLCTask) : string :=
  nl +:+ "### Task " +:+ pretty (task_id task) +:+ ": " +:+ title task +:+ nl +:+
  match acceptance_criteria task with
  | [] => "(no acceptance criteria recorded for this task)" +:+ nl
  | cs => foldl (fun out c => out +:+ "- " +:+ c +:+ nl) "" cs
  end.
Definition render_acceptance_criteria (tasks : list SDLCTask) : string :=
  foldl (fun out t => out +:+ render_task_criteria t) ("## Acceptance Criteria" +:+ nl) tasks.

Definition end_review_prompt (state : SDLCState) (diff : string) : string :=
  REVIEW_STABLE_PROMPT +:+ "This is the END-OF-RUN review for spec " +:+ debug_str (spec_slug state)
  +:+ " — ONE review over the whole integrated tree, replacing per-task review entirely. Review the WHOLE run's accumulated diff against the COMPLETE Acceptance Criteria below — every task's criteria, not just one task's. Respond with strict JSON of the shape {"
  +:+ q "verdict" +:+ ": str, " +:+ q "summary" +:+ ": str, " +:+ q "issues" +:+ ": [str], "
  +:+ q "localized" +:+ ": bool}. " +:+ q "verdict" +:+ " must be PASS, FAIL, or PARTIAL." +:+ nl +:+ nl
  +:+ render_acceptance_criteria (tasks state) +:+ nl +:+ nl +:+ "Diff:" +:+ nl +:+ diff.

(** The entry the reply is turned into. *)
Definition end_review_of (reply : AgentReply X) (content : string) (budget : Z) (truncated : bool)
    : EndReviewResult :=
  match parse_model_verdict review_of_value review_of_str (structured reply) content with
  | Parsed p =>
      let verdict := normalize_pass_fail_partial_synonym (to_uppercase (trim (ro_verdict p))) in
      mkEndReviewResult verdict (ro_summary p) (ro_issues p) (ro_localized p) budget truncated None
        (unrecognized ["PASS"; "FAIL"; "PARTIAL"] verdict)
  | Unparseable raw_preview reason =>
      mkEndReviewResult "UNPARSEABLE"
        ("End-of-run review output could not be parsed as JSON: " +:+ reason) [] false budget truncated
        (Some raw_preview) (unrecognized ["PASS"; "FAIL"; "PARTIAL"] "UNPARSEABLE")
  end.

Definition EndReviewNode_process (config : AgentConfig X) (ctx : SdlcCtx X)
    : SD (result (SdlcCtx X) NodeError) :=
  policy <~? eret (resolved_policy ctx) ;;
  if negb (bool_decide (review_mode policy = EndOnly)) then eret (Ok ctx)
  else
    worktree <~? eret (worktree_path ctx) ;;
    stage_untracked_intent worktree ;~
    let diff_base := default FALLBACK_DIFF_BASE (r_setup ctx ≫= base_sha) in
    r <~ run_command "git" ["diff"; diff_base] worktree ;;
    let diff := match r with Ok output => cmd_stdout output | Err _ => "" end in
    let budget := review_diff_max_chars policy in
    let '(diff, truncated) := bound_review_diff diff (Z.to_nat budget) in
    state <~? eret (latest_state ctx) ;;
    let '(config, prompt) := apply_policy config (end_review_prompt state diff) policy Review in
    let config := with_schema review_output_schema (with_cwd (Some worktree) config) in
    reply <~? call_agent "EndReviewNode" config prompt (transport_retry policy) ;;
    match content reply with
    | None => eret (Err (with_sessions (NodeError_new "EndReviewNode: model returned no content")
                           (billed reply)))
    | Some content =>
        eret (Ok (put_end_review (end_review_of reply content budget truncated)
                    (add_sessions (billed reply) ctx)))
    end.

(** EndReviewRouterNode's answer: on to the documentation, or to the wrap-up. *)
Inductive EndRoute := ToDocs | ToWrapUp.
Definition route_end_review (ctx : SdlcCtx X) : EndRoute :=
  match r_end_review ctx with
  | None => ToDocs
  | Some review => if String.eqb (er_verdict review) "PASS" then ToDocs else ToWrapUp
  end.

(** ** PatchDocsNode *)

Definition patch_docs_output_schema : value :=
  let str := json_object [("type", jstr "string")] in
  let strs := [("type", jstr "array"); ("items", str)] in
  json_object
    [("type", jstr "object");
     ("properties", json_object
        [("summary", str);
         ("files_patched", json_object strs);
         ("created", json_object (strs ++
            [("description", jstr "Docs created from scratch in BOOTSTRAP MODE.")]));
         ("flagged", json_object (strs ++
            [("description", jstr "Paths flagged NEEDS_REVIEW rather than edited, each with the specific gaps: a top-level architecture/overview/index doc, or a doc needing a genuine rewrite.")]))]);
     ("required", jarray [jstr "summary"])].

Definition collect_modified_files (ctx : SdlcCtx X) : list string :=
  default [] (modified_files <$> r_implement ctx).

Definition docs_prompt (ctx : SdlcCtx X) : string :=
  DOCS_STABLE_PROMPT
  +:+ "Search docs/ for stale references to the following modified files/symbols and patch them. Respond with strict JSON of the shape {"
  +:+ q "summary" +:+ ": str, " +:+ q "files_patched" +:+ ": [str], " +:+ q "created" +:+ ": [str], "
  +:+ q "flagged" +:+ ": [str]}." +:+ nl +:+ nl +:+ "Modified files: "
  +:+ json_text (jarray (map jstr (collect_modified_files ctx))).

Definition PatchDocsNode_process (config : AgentConfig X) (ctx : SdlcCtx X)
    : SD (result (SdlcCtx X) NodeError) :=
  policy <~? eret (resolved_policy ctx) ;;
  let config := with_schema patch_docs_output_schema (apply_policy_config config policy Docs) in
  worktree <~? eret (worktree_path ctx) ;;
  let config := with_cwd (Some worktree) config in
  let prompt := apply_verbosity_directive (docs_prompt ctx) (output_verbosity policy) in
  reply <~? call_agent "PatchDocsNode" config prompt (transport_retry policy) ;;
  match content reply with
  | None => eret (Err (with_sessions (NodeError_new "PatchDocsNode: model returned no content")
                         (billed reply)))
  | Some content =>
      let '(parsed, preview) :=
        match parse_model_verdict docs_of_value docs_of_str (structured reply) content with
        | Parsed p => (p, None)
        | Unparseable raw_preview reason =>
            (mkPatchDocsOutput ("PatchDocsNode: model reply could not be parsed as JSON: " +:+ reason)
               [] [] (collect_modified_files ctx), Some raw_preview)
        end in
      eret (Ok (put_docs
        (mkDocsResult (po_summary parsed) (po_files_patched parsed) (po_created parsed) (po_flagged parsed)
           (mt_docs (model_tiers policy)) (ct_docs (timeouts policy)) (tc_docs (max_turns policy)) preview)
        (add_sessions (billed reply) ctx)))
  end.
End Nodes.

(** * Facts *)

Section Facts.
Context {X : Extern} {H : Host X} {UC : UnicodeCase} {RF : RustFmt} {CL : CheckLibs X}.
Context {P : Prompts} {LL : LoopLibs X} {EL : EndLibs X}.

(** The enabled ones of [checks] run one after the other from the world [w], in
    the heavy-work slot, and what is recorded of them. *)
Definition stamped (ctx : SdlcCtx X) (checks : list value) (worktree : string) (w : HW) (v : FinalValidation)
    (w' : HW) (t : list (SdlcEvent X)) : Prop :=
  exists job w1 w2,
    let suite := List.filter (fun c => negb (bool_decide (field_bool c "enabled" = Some false))) checks in
    h_admit job w = (fv_heavy_work v, w1) /\
    suite_ran worktree (spec_dir_for_baseline ctx worktree) suite w1 (fv_check_results v) w2 t /\
    (fv_all_passed v = true <-> gating_passed suite (fv_check_results v)) /\
    h_record job (fv_all_passed v) (fv_check_results v) w2 = (tt, w') /\ skipped v = false.

Lemma run_and_stamp_ran ctx checks worktree reason w ctx' w' t :
  run_and_stamp ctx checks worktree false reason w = (ctx', w', t) ->
  exists v, ctx' = put_final v ctx /\ stamped ctx checks worktree w v w' t.
Proof.
  intros (out & w1 & t1 & t2 & E1 & E2 & ->)%ebind_inv. cbv zeta in E1.
  apply ebind_inv in E1 as (meta & w2 & t3 & t4 & Ea & E1 & ->). apply esilent_inv in Ea as [Ea ->].
  apply ebind_inv in E1 as ([results failed] & w3 & t5 & t6 & Hr & E1 & ->).
  apply run_checks_spec in Hr as [Hr ->]. apply checks_suite_ran in Hr as [Hran Hg].
  apply ebind_inv in E1 as ([] & w4 & t7 & t8 & Erec & E1 & ->). apply esilent_inv in Erec as [Erec ->].
  apply eret_inv in E1 as (-> & -> & ->). apply eret_inv in E2 as (-> & -> & ->).
  eexists. split; [reflexivity|]. eexists _, w2, w3. cbn [fv_heavy_work fv_check_results fv_all_passed app].
  split; [exact Ea|]. rewrite !app_nil_r. split; [exact Hran|]. split; [by rewrite bool_decide_eq_true|].
  split; [exact Erec|done].
Qed.
Lemma run_and_stamp_skipped ctx checks worktree reason w ctx' w' t :
  run_and_stamp ctx checks worktree true reason w = (ctx', w', t) ->
  ctx' = put_final (mkFinalValidation true [] "" true reason not_run) ctx /\ w' = w /\ t = [].
Proof.
  intros (out & w1 & t1 & t2 & E1 & E2 & ->)%ebind_inv. apply eret_inv in E1 as (-> & -> & ->).
  by apply eret_inv in E2 as (-> & -> & ->).
Qed.

(** The final validation of a run, from the world it starts in: the harness is
    looked for and read, and the enabled ones of its checks (none, without a
    harness) are run. *)
Definition validated (ctx : SdlcCtx X) (w : HW) (v : FinalValidation) (w' : HW) (t : list (SdlcEvent X)) : Prop :=
  exists worktree path w1 there checks w2, worktree_path ctx = Ok worktree /\
    harness_at ctx worktree w path w1 /\ harness_loaded path w1 there checks w2 /\
    stamped ctx checks worktree w2 v w' t.
Lemma filter_idem {A} (f : A -> bool) l : List.filter f (List.filter f l) = List.filter f l.
Proof. apply filter_id, Forall_forall. intros x [_ Hx]%list_elem_of_In%filter_In. done. Qed.
Lemma full_selection checks :
  enabled (select_task_checks checks [] Full false).1 = enabled checks.
Proof.
  pose proof (select_loop_spec Full false checks) as Hs. cbn [select_task_checks].
  destruct (select_loop Full false checks) as [sel ex]. destruct Hs as [-> _]. cbn [fst].
  assert (map (substituted Full) (List.filter (fun c => negb (drops false c)) checks)
          = List.filter (fun c => negb (drops false c)) checks) as -> by (rewrite <- map_id; by apply map_ext).
  unfold enabled. rewrite <- (filter_idem (fun c => negb (is_disabled c)) checks). f_equal. apply filter_ext.
  intros c. unfold drops. cbn [andb]. by rewrite orb_false_r.
Qed.
Lemma final_validated ctx w ctx' w' t :
  FinalValidationNode_process FullScope ctx w = (Ok ctx', w', t) ->
  exists v, ctx' = put_final v ctx /\ validated ctx w v w' t.
Proof.
  unfold FinalValidationNode_process. intros E.
  apply try_eret_inv in E as [(e & _ & [=])|(worktree & Hwt & E)].
  apply ebind_inv in E as (path & w1 & t1 & t2 & Hp & E & ->). apply resolve_harness_spec in Hp as [Hp ->].
  apply try_bind_inv in E as [(e & _ & [=])|([there checks] & w2 & t3 & t4 & Hl & E & ->)].
  apply load_harness_spec in Hl as [Hl ->]. cbv zeta in E. cbn [snd app] in *.
  pose proof (full_selection checks) as Hsel. destruct (select_task_checks _ _ _ _) as [selected sel]. cbn [fst] in Hsel.
  apply ebind_inv in E as (c & w3 & t5 & t6 & Er & E & ->). apply eret_inv in E as ([= ->] & -> & ->).
  apply run_and_stamp_ran in Er as (v & -> & job & w4 & w5 & Ha & Hran & Hg & Hrec & Hs). rewrite app_nil_r.
  change (List.filter _ selected) with (enabled selected) in Hran, Hg. rewrite Hsel in Hran, Hg.
  exists v. split; [done|]. exists worktree, path, w1, there, checks, w2. split_and!; [done..|].
  exists job, w4, w5. by split_and!.
Qed.

(** The checks of the harness a reconcile is for: those that say they gate and
    whose command the tasks at depth fast replace, or that opt out of the
    per-task run. *)
Definition unreconciled (c : value) : bool :=
  bool_decide (field_bool c "gates" = Some true) &&
  (match field_str c "fastCommand" with
   | Some f => negb (String.eqb f "") && negb (bool_decide (field_str c "command" = Some f))
   | None => false
   end || bool_decide (field_bool c "perTask" = Some false)).
Lemma needs_reconcile_eq c : needs_reconcile c = unreconciled c.
Proof.
  unfold needs_reconcile, unreconciled, nonempty. destruct (field_bool c "gates") as [[]|]; [|done..]. cbn [default andb].
  rewrite (bool_decide_eq_true_2 (Some true = Some true)) by done. cbn [andb]. f_equal.
  destruct (field_str c "fastCommand") as [f|]; [|done]. cbn [mbind option_bind].
  destruct (String.eqb f ""); [done|]. cbn [negb andb id]. do 2 f_equal. apply bool_decide_ext. naive_solver.
Qed.

(** C20: the reconcile of a run, and what it covers.  The harness is looked for
    and read; at test depth full, or when no check calls for it, nothing is run
    and the validation is stamped as skipped and passed.  Otherwise the enabled
    ones of exactly these checks are run with the command they declare, one after
    the other: those that say they gate and whose fast command differs from
    their command, or that opt out of the per-task run; the validation passes
    exactly when all of them that gate do.  At depth fast every enabled check of
    the harness that says it gates is among these, or else the suite of each
    task without validation commands of its own (the one [test_green_spec]
    gives) holds it with the very command it declares.  Not covered are tasks
    with commands of their own, which run no check of the harness, and at depth
    full the checks that opt out of the per-task run, which nothing runs. *)
Theorem reconcile_covers {HX : ExternLaws X} ctx w ctx' w' t :
  FinalValidationNode_process Reconcile ctx w = (Ok ctx', w', t) ->
  exists worktree path w1 there checks w2 policy v,
    worktree_path ctx = Ok worktree /\ harness_at ctx worktree w path w1 /\
    harness_loaded path w1 there checks w2 /\ resolved_policy ctx = Ok policy /\ ctx' = put_final v ctx /\
    (if decide (test_depth policy = Full \/ List.filter unreconciled checks = [])
     then fv_all_passed v = true /\ fv_check_results v = [] /\ skipped v = true /\ w' = w2 /\ t = []
     else stamped ctx (List.filter unreconciled checks) worktree w2 v w' t) /\
    forall c, c ∈ checks -> field_bool c "enabled" <> Some false -> field_bool c "gates" = Some true ->
      c ∈ List.filter unreconciled checks \/
      (substituted Fast c ∈ map (substituted Fast)
         (List.filter (fun c => negb (bool_decide (field_bool c "enabled" = Some false))
                                && negb (bool_decide (field_bool c "perTask" = Some false))) checks) /\
       field_str (substituted Fast c) "command" = field_str c "command").
Proof.
  unfold FinalValidationNode_process. intros E.
  apply try_eret_inv in E as [(e & _ & [=])|(worktree & Hwt & E)].
  apply ebind_inv in E as (path & w1 & t1 & t2 & Hp & E & ->). apply resolve_harness_spec in Hp as [Hp ->].
  apply try_bind_inv in E as [(e & _ & [=])|([there checks] & w2 & t3 & t4 & Hl & E & ->)].
  apply load_harness_spec in Hl as [Hl ->]. cbv zeta in E. cbn [snd app] in *.
  apply try_eret_inv in E as [(e & _ & [=])|(policy & Hpol & E)].
  assert (select_reconcile_checks checks = List.filter unreconciled checks) as Hsel
    by (apply filter_ext, needs_reconcile_eq).
  rewrite Hsel in E. exists worktree, path, w1, there, checks, w2, policy.
  assert (exists v, ctx' = put_final v ctx /\
    if decide (test_depth policy = Full \/ List.filter unreconciled checks = [])
    then fv_all_passed v = true /\ fv_check_results v = [] /\ skipped v = true /\ w' = w2 /\ t4 = []
    else stamped ctx (List.filter unreconciled checks) worktree w2 v w' t4) as (v & -> & Hv).
  { destruct (bool_decide_reflect (test_depth policy = Full)) as [Hf|Hf];
      [|destruct (bool_decide_reflect (List.filter unreconciled checks = [])) as [Hn|Hn]].
    - apply ebind_inv in E as (c & w3 & t5 & t6 & Er & E & ->).
      apply eret_inv in E as ([= ->] & -> & ->). apply run_and_stamp_skipped in Er as (-> & -> & ->). eexists. rewrite decide_True by (by left). by split_and!.
    - apply ebind_inv in E as (c & w3 & t5 & t6 & Er & E & ->).
      apply eret_inv in E as ([= ->] & -> & ->). apply run_and_stamp_skipped in Er as (-> & -> & ->). eexists. rewrite decide_True by (by right). by split_and!.
    - apply ebind_inv in E as (c & w3 & t5 & t6 & Er & E & ->).
      apply eret_inv in E as ([= ->] & -> & ->). apply run_and_stamp_ran in Er as (v & -> & Hs).
      rewrite app_nil_r. exists v. by rewrite decide_False by tauto. }
  exists v. split_and!; [done..|]. clear E Hv. intros c Hin Hen Hg.
  rewrite !list_elem_of_In, filter_In, <- list_elem_of_In.
  destruct (unreconciled c) eqn:En; [by left|right].
  unfold unreconciled in En. rewrite Hg in En. apply orb_false_iff in En as [Hf Hpt]. split.
  - apply in_map, filter_In. split; [by apply list_elem_of_In|].
    by rewrite Hpt, bool_decide_eq_false_2.
  - unfold substituted, nonempty. destruct (field_str c "fastCommand") as [f|]; [|done]. cbn [mbind option_bind].
    destruct (String.eqb_spec f "") as [|Hne]; [done|]. cbn [negb andb] in Hf.
    destruct (is_object c) eqn:Eo; [|done].
    apply negb_false_iff, bool_decide_eq_true in Hf. rewrite Hf.
    unfold field_str. rewrite jget_set by (by apply is_object_true). rewrite String.eqb_refl. apply as_str_str.
Qed.
End Facts.
