(* ===== verification/SdlcWrapUp.v ===== *)
(** * The end of an SDLC run: its verdict, its report, its state file

    crates/engine-core/src/workflows/sdlc_flow/wrap_up.rs.

    - [derive_terminal_signal]: why the run ended early, if it did, read off
      what the nodes left in the context
    - [WrapUpNode_process]: the report, the state file and its commit
    - [write_terminal_blocked_state]: the state file of a run that failed
      outside of the graph.

    [as_task_context] is the [TaskContext] an [SdlcCtx] is the reading of; the
    telemetry is harvested from it (Telemetry.v). *)

From stdpp Require Import pretty.
From S2P Require Import Prelude Json Contract Sessions Node Telemetry Utf8 Text Effect Chain LaneLog SdlcPolicy SdlcState SdlcContext SdlcFeedback SdlcClock SdlcChecks TaskLoop SdlcReview Calendar.

Local Open Scope string_scope.
Local Open Scope list_scope.
Local Open Scope effect_scope.

Class WrapLibs {X : Extern} {H : Host X} : Type := {
  as_task_context : SdlcCtx X -> TaskContext;
  h_unix_secs : HW -> Z * HW;
  h_utc_now : HW -> instant * HW;
  h_is_dir : string -> HW -> bool * HW
}.
Arguments WrapLibs X H : clear implicits.

Record CommittedFinalValidation := mkCommittedFinalValidation {
  cv_all_passed : bool; cv_failure_summary : string; cv_check_results : list CheckResult }.

Section WrapUp.
Context {X : Extern} {H : Host X} {UC : UnicodeCase} {RF : RustFmt} {CL : CheckLibs X}.
Context {P : Prompts} {PS : PolicySerde X} {LL : LoopLibs X} {HO : HashOrder} {WL : WrapLibs X H}.
Variable build : BuildInfo.
Variable state_filename : string.

(** ** What the state file takes from the nodes *)

Definition committed_review (ctx : SdlcCtx X) : option CommittedReview :=
  match r_end_review ctx with
  | Some review => Some (mkCommittedReview (er_verdict review) (er_issues review) 1)
  | None => (fun review => mkCommittedReview (rv_verdict review) (rv_issues review) 1) <$> r_review ctx
  end.
Definition committed_docs (ctx : SdlcCtx X) : option CommittedDocs :=
  (fun docs => mkCommittedDocs (files_patched docs) []) <$> r_docs ctx.
Definition committed_pr (_ : SdlcCtx X) : option CommittedPr := None.
Definition committed_final_validation (ctx : SdlcCtx X) : option CommittedFinalValidation :=
  (fun v => mkCommittedFinalValidation (fv_all_passed v) (fv_failure_summary v) (fv_check_results v))
  <$> r_final ctx.

Definition failure_class_as_str (c : FailureClass) : string :=
  match c with Fixable => "fixable" | EscalateClass => "escalate" end.
Definition check_result_to_json (c : CheckResult) : value := json_object
  [("name", jstr (check_name c)); ("kind", jstr (check_kind c)); ("passed", jbool (passed c));
   ("output", jstr (check_output c)); ("message", jstr (check_message c));
   ("failure_class", jstr (failure_class_as_str (failure_class c)))].
Definition final_validation_to_json (v : CommittedFinalValidation) : value := json_object
  [("all_passed", jbool (cv_all_passed v)); ("failure_summary", jstr (cv_failure_summary v));
   ("check_results", jarray (map check_result_to_json (cv_check_results v)))].

(** ** Why the run ended *)

Definition triage_bail (ctx : SdlcCtx X) : option TerminalSignal :=
  triage ← r_triage ctx;
  if String.eqb (tr_verdict triage) "MAJOR_BAIL" then Some (MajorBail (tr_reason triage)) else None.

Definition is_structural (review : ReviewResult) : bool :=
  (length (rv_issues review) =? 0)%nat || (STRUCTURAL_ISSUE_THRESHOLD <? length (rv_issues review))%nat.
Definition review_bail (ctx : SdlcCtx X) : option TerminalSignal :=
  review ← r_review ctx;
  let verdict := rv_verdict review in
  if is_structural review then
    if String.eqb verdict "FAIL" then Some (ReviewFail (rv_summary review))
    else if String.eqb verdict "PARTIAL" then Some (StructuralFail (rv_summary review))
    else None
  else if String.eqb verdict "FAIL" || String.eqb verdict "PARTIAL" then
    match resolved_policy ctx with
    | Ok p => if (max_review_attempts p <=? bounded_review_attempts ctx review)%Z
              then Some (ReviewExhausted (rv_summary review)) else None
    | Err _ => None
    end
  else None.

Definition end_review_bail (ctx : SdlcCtx X) : option TerminalSignal :=
  review ← r_end_review ctx;
  if String.eqb (er_verdict review) "FAIL" || String.eqb (er_verdict review) "PARTIAL" then
    Some (EndReviewFail (match er_issues review with
                         | [] => er_summary review
                         | issues => er_summary review +:+ " (" +:+ String.concat "; " issues +:+ ")"
                         end))
  else None.

Definition validation_bail (ctx : SdlcCtx X) : option TerminalSignal :=
  v ← committed_final_validation ctx;
  if cv_all_passed v then None else Some (FinalValidationFailed (cv_failure_summary v)).

Definition unrecognized_bail (what : string) (verdict : option string) : option TerminalSignal :=
  (fun v => MajorBail ("unrecognized " +:+ what +:+ " verdict: " +:+ v)) <$> verdict.

(** The first that applies, in this order. *)
Definition first_of {A} (l : list (option A)) : option A := head (omap id l).
Definition derive_terminal_signal (ctx : SdlcCtx X) : option TerminalSignal :=
  first_of
    [triage_bail ctx; review_bail ctx; end_review_bail ctx; validation_bail ctx;
     unrecognized_bail "triage" (r_triage ctx ≫= tr_unrecognized);
     unrecognized_bail "review" (r_review ctx ≫= rv_unrecognized);
     unrecognized_bail "end-review" (r_end_review ctx ≫= er_unrecognized)].

(** ** The state file *)

Definition state_path_for (worktree slug : string) : SD (result string NodeError) :=
  let state_dir := path_join (path_join (path_join worktree "planning") slug) "sdlc" in
  made <~ esilent (h_create_dir_all state_dir) ;;
  eret (match made with
        | Ok _ => Ok (path_join state_dir state_filename)
        | Err err => Err (NodeError_new ("failed to create " +:+ state_dir +:+ ": " +:+ err))
        end).

Definition persist_state (state_path : string) (state : SDLCState) (run_meta : RunMeta)
    (review : option CommittedReview) (docs : option CommittedDocs) (pr : option CommittedPr)
    (final_validation : option CommittedFinalValidation) (signal : option TerminalSignal)
    : SD (result string NodeError) :=
  let committed := to_committed_state_json build state run_meta review docs pr
                     (final_validation_to_json <$> final_validation) signal in
  match json_pretty committed with
  | Err err => eret (Err (NodeError_new ("failed to serialize SDLCState: " +:+ err)))
  | Ok json =>
      written <~ write_file state_path json ;;
      eret (match written with
            | Ok _ => Ok state_path
            | Err err => Err (NodeError_new ("failed to write " +:+ state_path +:+ ": " +:+ err))
            end)
  end.

Definition option_of {A E} (r : result A E) : option A := match r with Ok a => Some a | Err _ => None end.
Definition write_terminal_blocked_state (ctx : SdlcCtx X) (reason : string) : SD (option string) :=
  match option_of (worktree_path ctx), option_of (latest_state ctx) with
  | Some worktree, Some state =>
      let state_dir := path_join (path_join (path_join worktree "planning") (spec_slug state)) "sdlc" in
      there <~ esilent (h_is_dir state_dir) ;;
      if negb there then eret None
      else
        let state_path := path_join state_dir state_filename in
        run_meta <~ build_run_meta ctx worktree state_path ;;
        r <~ persist_state state_path state run_meta (committed_review ctx) (committed_docs ctx)
               (committed_pr ctx) (committed_final_validation ctx) (Some (MajorBail reason)) ;;
        eret (option_of r)
  | _, _ => eret None
  end.

(** ** Outcomes *)

Definition total_retries (state : SDLCState) : Z :=
  foldl (fun n t => u32_add n (Z.max 0 (attempt_count t - 1))) 0%Z (tasks state).

Definition VERDICT_STAGES : list string := ["TriageTaskNode"; "ConsolidatedReviewNode"].
Definition COST_BEARING_STAGES : list string :=
  ["ImplementTaskNode"; "TriageTaskNode"; "ConsolidatedReviewNode"; "GenerateTasksNode"; "EndReviewNode";
   "PatchDocsNode"].

(** serde's [rename_all = "snake_case"] *)
Definition tier_str (tier : ModelTier) : string :=
  match tier with Sonnet => "sonnet" | Haiku => "haiku" | Opus => "opus" | Local => "local" end.
Definition model_tier_used (policy : SdlcPolicy) : gmap string string :=
  let tiers := model_tiers policy in
  let of_backend t := match agent_backend policy with ClaudeCli => tier_str t | _ => "local" end in
  list_to_map
    [("implement", of_backend (mt_implement tiers)); ("implement_simple", of_backend (mt_implement_simple tiers));
     ("triage", tier_str (mt_triage tiers)); ("review", tier_str (mt_review tiers));
     ("generate", tier_str (mt_generate tiers)); ("docs", tier_str (mt_docs tiers))].

Definition finalize_outcomes (ctx : SdlcCtx X) (state : SDLCState) (policy : SdlcPolicy) (now : instant)
    : RunOutcomes :=
  outcomes_of_telemetry
    (harvest (as_task_context ctx) now
       (mkRunTelemetryInputs "SetupWorktreeNode" VERDICT_STAGES COST_BEARING_STAGES
          (total_attempts (telemetry state)) (total_retries state) (tasks_passed (telemetry state))
          (tasks_failed (telemetry state)) (model_tier_used policy) COST_BEARING_STAGES)).

(** ** The report *)

Definition is_full_run (ctx : SdlcCtx X) : result bool NodeError :=
  match parse_task_range debug_str (ev_task_range ctx) with
  | Ok selected => Ok (bool_decide (selected = None))
  | Err e => Err (NodeError_new e)
  end.

Definition finish_state (state : SDLCState) (policy : SdlcPolicy) (outcomes : RunOutcomes)
    (signal : option TerminalSignal) : SDLCState :=
  mkSDLCState (spec_slug state) (phase_id state) (state_block_id state) (derive_committed_status state signal)
    (tasks state) (telemetry state) (Some policy) (Some outcomes) (branch state) (st_worktree_path state)
    (st_started_at state) (st_updated_at state) (derive_bail_reason signal) (st_run_id state)
    (claude_sessions state).

Definition run_outcome (state : SDLCState) (signal : option TerminalSignal) : string :=
  match signal with
  | Some _ => "BLOCKED"
  | None => if (tasks_failed (telemetry state) =? 0)%Z then "PASS" else "PARTIAL/FAIL"
  end.
Definition gate_note (v : option CommittedFinalValidation) : string :=
  match v with
  | Some v => if cv_all_passed v then "" else " Final validation gate FAILED: " +:+ cv_failure_summary v
  | None => ""
  end.
Definition bail_note (state : SDLCState) : string :=
  match bail_reason state with Some r => " Blocked: " +:+ r | None => "" end.
Definition bail_line (state : SDLCState) : string :=
  match bail_reason state with Some r => "- Blocked: " +:+ r +:+ nl | None => "" end.

Section Texts.
Variable date : string.
Variable state : SDLCState.
Variable v : option CommittedFinalValidation.
Variable signal : option TerminalSignal.
Let slug := spec_slug state.
Let n_passed := pretty (tasks_passed (telemetry state)).
Let n_failed := pretty (tasks_failed (telemetry state)).
Let n_total := pretty (total_attempts (telemetry state)).
Let outcome := run_outcome state signal.

Definition log_entry_text : string :=
  "## " +:+ date +:+ " — " +:+ slug +:+ nl +:+ nl +:+ "Outcome: " +:+ outcome +:+ ". " +:+ n_passed
  +:+ " task(s) passed, " +:+ n_failed +:+ " failed, " +:+ n_total
  +:+ " total implement/test attempt(s)." +:+ bail_note state +:+ gate_note v.
Definition report_text : string :=
  "# SDLC Flow Report — " +:+ slug +:+ nl +:+ nl +:+ "- Date: " +:+ date +:+ nl +:+ "- Outcome: "
  +:+ outcome +:+ nl +:+ "- Tasks passed: " +:+ n_passed +:+ nl +:+ "- Tasks failed: " +:+ n_failed +:+ nl
  +:+ "- Total attempts: " +:+ n_total +:+ nl +:+ bail_line state +:+ gate_note v.
Definition status_text : string :=
  let gate_failed := match v with Some v => negb (cv_all_passed v) | None => false end in
  if String.eqb outcome "BLOCKED" then
    slug +:+ " is BLOCKED as of " +:+ date +:+ " — the run ended on a terminal signal (" +:+ n_passed
    +:+ " passed / " +:+ n_failed +:+ " failed, " +:+ n_total +:+ " total attempt(s))." +:+ bail_note state
    +:+ gate_note v +:+ " Needs follow-up before merge."
  else if String.eqb outcome "PASS" && negb gate_failed then
    slug +:+ " completed successfully on " +:+ date +:+ " (" +:+ n_passed +:+ " task(s) passed, " +:+ n_total
    +:+ " total attempt(s)). Ready for review/merge."
  else if gate_failed then
    slug +:+ " finished its task loop on " +:+ date +:+ " (" +:+ n_passed +:+ " passed / " +:+ n_failed
    +:+ " failed, " +:+ n_total +:+ " total attempt(s)) but the final validation gate FAILED:" +:+ gate_note v
    +:+ " Needs follow-up before merge."
  else
    slug +:+ " did not complete cleanly on " +:+ date +:+ " (" +:+ n_passed +:+ " passed / " +:+ n_failed
    +:+ " failed, " +:+ n_total +:+ " total attempt(s)). Needs follow-up before merge.".
End Texts.

Definition wrap_up_message : string := "chore(sdlc): wrap-up — docs patch + terminal state".

Definition save_wrapped (ctx : SdlcCtx X) (state : SDLCState) (signal : option TerminalSignal)
    : SD (result (option string) NodeError) :=
  match option_of (worktree_path ctx) with
  | None => eret (Ok None)
  | Some worktree =>
      state_path <~? state_path_for worktree (spec_slug state) ;;
      run_meta <~ build_run_meta ctx worktree state_path ;;
      saved <~? persist_state state_path state run_meta (committed_review ctx) (committed_docs ctx)
                  (committed_pr ctx) (committed_final_validation ctx) signal ;;
      commit_all worktree wrap_up_message ;~
      eret (Ok (Some saved))
  end.

Definition WrapUpNode_process (ctx : SdlcCtx X) : SD (result (SdlcCtx X) NodeError) :=
  state <~? eret (latest_state ctx) ;;
  secs <~ esilent h_unix_secs ;;
  let date := civil_from_days (secs / 86400) in
  policy <~? eret (resolved_policy ctx) ;;
  now <~ esilent h_utc_now ;;
  let outcomes := finalize_outcomes ctx state policy now in
  let signal := derive_terminal_signal ctx in
  let state := finish_state state policy outcomes signal in
  let v := committed_final_validation ctx in
  saved_to <~? save_wrapped ctx state signal ;;
  full_run <~? eret (is_full_run ctx) ;;
  let ctx := put_wrap (mkWrapUpResult (log_entry_text date state v signal) (report_text date state v signal)
                         (status_text date state v signal) state full_run saved_to) ctx in
  eret (Ok (match signal with
            | Some _ => stamp_failure ("SDLC run ended " +:+ global_status state +:+ ": "
                                       +:+ default "terminal signal" (bail_reason state)) ctx
            | None => ctx
            end)).
End WrapUp.

(** * Facts *)

Lemma first_of_None {A} (l : list (option A)) : first_of l = None -> Forall (fun o => o = None) l.
Proof. unfold first_of. induction l as [|[a|] l IH]; cbn; [constructor|done|]. intros E. by constructor; [|apply IH]. Qed.

Section Facts.
Context {X : Extern} {H : Host X} {UC : UnicodeCase} {RF : RustFmt} {CL : CheckLibs X}.
Context {P : Prompts} {PS : PolicySerde X} {LL : LoopLibs X} {HO : HashOrder} {WL : WrapLibs X H}.
Variable build : BuildInfo.
Variable state_filename : string.

(** No reason to have ended early. *)
Record unsignalled (ctx : SdlcCtx X) : Prop := {
  u_triage : triage_bail ctx = None;
  u_review : review_bail ctx = None;
  u_end_review : end_review_bail ctx = None;
  u_validation : validation_bail ctx = None;
  u_tr : r_triage ctx ≫= tr_unrecognized = None;
  u_rv : r_review ctx ≫= rv_unrecognized = None;
  u_er : r_end_review ctx ≫= er_unrecognized = None
}.

Lemma fmap_none {A B} (f : A -> B) o : f <$> o = None -> o = None.
Proof. by destruct o. Qed.

Lemma no_signal ctx : derive_terminal_signal ctx = None -> unsignalled ctx.
Proof.
  intros E%first_of_None. unfold unrecognized_bail in E.
  repeat match goal with H : Forall _ (_ :: _) |- _ => apply Forall_cons in H as [? H] end.
  split; try done; by eapply fmap_none.
Qed.

(** What the wrap-up leaves. *)
Lemma wrap_up_spec ctx w ctx' w' t :
  WrapUpNode_process build state_filename ctx w = (Ok ctx', w', t) ->
  exists s p o wrap, latest_state ctx = Ok s /\ is_full_run ctx = Ok (full_run wrap) /\
    wu_state wrap = finish_state s p o (derive_terminal_signal ctx) /\
    ctx' = match derive_terminal_signal ctx with
           | Some _ => stamp_failure ("SDLC run ended " +:+ global_status (wu_state wrap) +:+ ": "
                         +:+ default "terminal signal" (bail_reason (wu_state wrap))) (put_wrap wrap ctx)
           | None => put_wrap wrap ctx
           end.
Proof.
  unfold WrapUpNode_process. intros E.
  apply try_eret_inv in E as [(e & _ & [=])|(s & Hs & E)].
  apply ebind_inv in E as (secs & w1 & t1 & t2 & _ & E & ->). cbv zeta in E.
  apply try_eret_inv in E as [(e & _ & [=])|(p & _ & E)].
  apply ebind_inv in E as (now & w2 & t3 & t4 & _ & E & ->).
  apply try_bind_inv in E as [(e & _ & [=])|(saved & w3 & t5 & t6 & _ & E & ->)].
  apply try_eret_inv in E as [(e & _ & [=])|(full & Hf & E)].
  apply eret_inv in E as ([= ->] & _ & _).
  match goal with |- context [put_wrap ?wrap ctx] => eexists s, p, _, wrap end.
  split; [done|]. split; [exact Hf|]. split; [reflexivity|]. by destruct (derive_terminal_signal ctx).
Qed.
End Facts.
