(* ===== verification/SdlcClose.v ===== *)
(** * Closing the block an SDLC run worked on

    crates/engine-core/src/workflows/sdlc_flow/close_block.rs, pr.rs and
    emit_state.rs: the last nodes of the graph.

    - [CloseBlockNode_process]: whether the block is closed at all, and the
      guarded write: operator gate, advisory lock, validation before and after,
      rollback on a new diagnostic
    - [commit_write_manifest]: committing what the write regenerated, per
      repository
    - [PullRequestNode_process], [EmitStateNode_process].

    The [mev] library is the class [MevLibs]; a [Report] is its list of
    diagnostics.  [Path::parent] and [Path::strip_prefix] are taken of
    canonical, absolute paths only. *)

From Stdlib Require Import Ascii.
From stdpp Require Import pretty.
From S2P Require Import Prelude Json Sessions Node Utf8 Text Effect Chain LaneLog SdlcPolicy SdlcState SdlcContext SdlcFeedback SdlcClock SdlcChecks TaskLoop SdlcReview SdlcWrapUp.

Local Open Scope string_scope.
Local Open Scope list_scope.
Local Open Scope effect_scope.

(** ** What mev answers *)

Record Diagnostic := mkDiagnostic {
  is_error : bool; severity_debug : string; dg_file : string; locator : string; dg_message : string }.
Inductive MevDep := OperatorDep | OtherDep.
Record MevBlock := mkMevBlock { mb_id : string; mb_depends_on : list MevDep }.
Record StateSource := mkStateSource { src_repo_slug : string; abs_path : string }.
Inductive LockResult := Acquired | HeldBy (holder_pid waited_secs : Z) | LockIo (path source : string).

Class MevLibs {X : Extern} {H : Host X} : Type := {
  MevConfig : Type;
  find_brain_config : string -> HW -> option MevConfig * HW;
  discover_state_files : string -> MevConfig -> HW -> list StateSource * HW;
  load_state : string -> HW -> option (list (list MevBlock)) * HW;
  find_brain_root : string -> HW -> result string string * HW;
  DEFAULT_LOCK_TIMEOUT : Z;
  acquire_lock : string -> Z -> HW -> LockResult * HW;
  release_lock : string -> HW -> unit * HW;
  set_block_status_as : string -> string -> string -> option string -> string -> HW ->
                        result (list Diagnostic) string * HW;
  list_revisions : string -> HW -> option (list Z) * HW;
  validate_brain_state : string -> HW -> result (list Diagnostic) string * HW;
  read_revision : string -> Z -> HW -> result string string * HW;
  write_atomic : string -> string -> HW -> result unit string * HW;
  h_canonicalize : string -> HW -> result string string * HW
}.
Arguments MevLibs X H : clear implicits.

(** ** Outcomes *)

Inductive CloseOutcome :=
| Closed (key : string) (committed : list string) (commit_failures : list (string * string))
| NotFound (key : string)
| Rejected (key : string) (net_new : list string)
| LockHeld (holder_pid waited_secs : Z)
| OperatorGated (key : string)
| Unvalidated (reason : string)
| Skipped (reason : string).

Definition closed (key : string) : CloseOutcome := Closed key [] [].
Definition outcome_label (o : CloseOutcome) : string :=
  match o with
  | Closed key _ _ => "CLOSED:" +:+ key
  | NotFound _ => "NOT_FOUND"
  | Rejected key _ => "REJECTED:" +:+ key
  | LockHeld _ _ => "LOCK_HELD"
  | OperatorGated _ => "OPERATOR_GATED"
  | Unvalidated reason => "UNVALIDATED:" +:+ reason
  | Skipped _ => "SKIPPED"
  end.
Definition outcome_detail (o : CloseOutcome) : string :=
  match o with
  | Closed key _ _ => "closed block '" +:+ key +:+ "'"
  | NotFound key => "no registered block matches '" +:+ key +:+ "'"
  | Rejected key net_new =>
      "close of '" +:+ key +:+ "' introduced net-new diagnostic(s), rolled back via mev's history: "
      +:+ String.concat "; " net_new
  | LockHeld pid secs =>
      "advisory .mev-emit.lock held by pid " +:+ pretty pid +:+ " after waiting " +:+ pretty secs
      +:+ "s; retry once it finishes"
  | OperatorGated key =>
      "'" +:+ key +:+ "' carries an unmet D71 operator depends_on edge (E_BLOCK_OPERATOR_GATED) — refused, not silently closed"
  | Unvalidated reason | Skipped reason => reason
  end.
Definition outcome_key (o : CloseOutcome) : option string :=
  match o with
  | Closed key _ _ | NotFound key | Rejected key _ | OperatorGated key => Some key
  | _ => None
  end.
Definition is_validated (o : CloseOutcome) : bool := match o with Closed _ _ _ => true | _ => false end.
Definition is_rejected (o : CloseOutcome) : bool := match o with Rejected _ _ => true | _ => false end.

(** ** Reports *)

Definition bar : string := "|".
Definition diagnostic_identity (d : Diagnostic) : string :=
  severity_debug d +:+ bar +:+ dg_file d +:+ bar +:+ locator d +:+ bar +:+ dg_message d.
Definition render_diagnostic (d : Diagnostic) : string :=
  "[" +:+ locator d +:+ "] " +:+ dg_message d +:+ " (" +:+ dg_file d +:+ ")".
Definition net_new_diagnostics (before after : list Diagnostic) : list string :=
  map render_diagnostic
    (List.filter (fun d => negb (bool_decide (diagnostic_identity d ∈ map diagnostic_identity before))) after).

Fixpoint manifest_loop (seen : list string) (report : list Diagnostic) : list string :=
  match report with
  | [] => []
  | d :: report =>
      if String.eqb (locator d) "I_EMIT_WROTE" && negb (bool_decide (dg_file d ∈ seen))
      then dg_file d :: manifest_loop (dg_file d :: seen) report
      else manifest_loop seen report
  end.
Definition write_manifest (report : list Diagnostic) : list string := manifest_loop [] report.

Definition classify_report (key : string) (report : list Diagnostic) : CloseOutcome :=
  if existsb (fun d => String.eqb (locator d) "E_BLOCK_NOT_FOUND") report then NotFound key
  else
    match map (fun d => "[" +:+ locator d +:+ "] " +:+ dg_message d) (List.filter is_error report) with
    | [] => closed key
    | errors => Unvalidated (String.concat "; " errors)
    end.

(** ** Paths *)

Definition slash_char : string := "/".
Definition path_parent (p : string) : string :=
  match split_last slash_char p with
  | Some (EmptyString, _) => slash_char
  | Some (a, _) => a
  | None => ""
  end.
Definition strip_path_prefix (root p : string) : option string :=
  if String.eqb root slash_char then strip_prefix slash_char p
  else if String.eqb p root then Some ""
  else strip_prefix (root +:+ slash_char) p.

Section Close.
Context {X : Extern} {H : Host X} {UC : UnicodeCase} {RF : RustFmt} {CL : CheckLibs X}.
Context {LL : LoopLibs X} {ML : MevLibs X H}.

(** ** Committing the manifest *)

Record GitOutput := mkGitOutput { success : bool; git_stdout : string; git_stderr : string }.
Definition git_run (cwd : string) (args : list string) : SD (result GitOutput string) :=
  r <~ run_command "git" args cwd ;;
  eret (match r with
        | Ok out => Ok (mkGitOutput (cmd_status out =? 0)%Z (trim (cmd_stdout out)) (trim (cmd_stderr out)))
        | Err e => Err ("failed to spawn `git " +:+ String.concat " " args +:+ "` in " +:+ cwd +:+ ": " +:+ e)
        end).

Definition MANIFEST_COMMIT_MESSAGE : string :=
  "chore: commit derived fleet state regenerated by CloseBlockNode" +:+ nl +:+ nl +:+
  "Staged and committed automatically after a validated block close — see crates/engine-core/src/workflows/sdlc_flow/close_block.rs.".

Record ManifestCommitResult := mkManifestCommitResult {
  mc_committed : list string; mc_failed : list (string * string) }.

(** The repository root and the path inside it, or why there is none. *)
Definition locate_path (path : string) : SD (result (string * string) string) :=
  c <~ esilent (h_canonicalize path) ;;
  match c with
  | Err e => eret (Err ("canonicalize failed: " +:+ e))
  | Ok canonical =>
      r <~ git_run (path_parent canonical) ["rev-parse"; "--show-toplevel"] ;;
      match r with
      | Err e => eret (Err e)
      | Ok out =>
          if negb (success out) then eret (Err ("git rev-parse --show-toplevel failed: " +:+ git_stderr out))
          else
            let toplevel := git_stdout out in
            root <~ esilent (h_canonicalize (trim toplevel)) ;;
            match root with
            | Err e => eret (Err ("could not canonicalize repo root '" +:+ toplevel +:+ "': " +:+ e))
            | Ok repo_root =>
                eret (match strip_path_prefix repo_root canonical with
                      | Some relative => Ok (repo_root, relative)
                      | None => Err ("canonicalized path " +:+ canonical
                                     +:+ " is not under its own repo toplevel " +:+ repo_root)
                      end)
            end
      end
  end.

Definition Entry : Type := string * string.
Fixpoint push_entry (root : string) (e : Entry) (groups : list (string * list Entry))
    : list (string * list Entry) :=
  match groups with
  | [] => [(root, [e])]
  | (r, es) :: groups => if String.eqb r root then (r, es ++ [e]) :: groups
                         else (r, es) :: push_entry root e groups
  end.
Definition group_path (acc : list (string * list Entry) * list (string * string)) (path : string)
    : SD (list (string * list Entry) * list (string * string)) :=
  let '(groups, failed) := acc in
  r <~ locate_path path ;;
  eret (match r with
        | Ok (root, relative) => (push_entry root (path, relative) groups, failed)
        | Err reason => (groups, failed ++ [(path, reason)])
        end).

Definition stage_entry (root : string) (acc : list Entry * list (string * string)) (e : Entry)
    : SD (list Entry * list (string * string)) :=
  let '(staged, failed) := acc in
  r <~ git_run root ["add"; "--"; e.2] ;;
  eret (match r with
        | Ok out => if success out then (staged ++ [e], failed)
                    else (staged, failed ++ [(e.1, "git add failed: " +:+ git_stderr out)])
        | Err err => (staged, failed ++ [(e.1, err)])
        end).

Definition commit_group (res : ManifestCommitResult) (g : string * list Entry) : SD ManifestCommitResult :=
  let '(root, entries) := g in
  out <~ efold (stage_entry root) entries ([], mc_failed res) ;;
  let '(staged, failed) := out in
  if bool_decide (staged = []) then eret (mkManifestCommitResult (mc_committed res) failed)
  else
    r <~ git_run root (["commit"; "-o"; "-m"; MANIFEST_COMMIT_MESSAGE; "--"] ++ map snd staged) ;;
    let all_failed reason := mkManifestCommitResult (mc_committed res)
                               (failed ++ map (fun e => (e.1, reason)) staged) in
    eret (match r with
          | Ok out => if success out then mkManifestCommitResult (mc_committed res ++ map fst staged) failed
                      else all_failed ("git commit failed: " +:+ git_stderr out)
          | Err err => all_failed err
          end).

Definition commit_write_manifest (manifest : list string) : SD ManifestCommitResult :=
  out <~ efold group_path manifest ([], []) ;;
  let '(groups, failed) := out in
  efold commit_group groups (mkManifestCommitResult [] failed).

(** ** The guarded close *)

Definition block_in (tracks : list (list MevBlock)) (block_id : string) : option MevBlock :=
  find (fun b => String.eqb (mb_id b) block_id) (concat tracks).
Fixpoint gate_scan (slug block_id : string) (sources : list StateSource) : SD (option bool) :=
  match sources with
  | [] => eret None
  | src :: sources =>
      if negb (String.eqb (src_repo_slug src) slug) then gate_scan slug block_id sources
      else
        file <~ esilent (load_state (abs_path src)) ;;
        match file ≫= (fun tracks => block_in tracks block_id) with
        | Some b => eret (Some (existsb (fun d => match d with OperatorDep => true | _ => false end)
                                  (mb_depends_on b)))
        | None => gate_scan slug block_id sources
        end
  end.
Definition colon : ascii := ":"%char.
Definition block_has_unmet_operator_gate (root key : string) : SD (option bool) :=
  match split_once colon key with
  | None => eret None
  | Some (slug, block_id) =>
      config <~ esilent (find_brain_config root) ;;
      match config with
      | None => eret None
      | Some config =>
          sources <~ esilent (discover_state_files root config) ;;
          gate_scan slug block_id sources
      end
  end.
Definition resolve_state_path (root slug : string) : SD (option string) :=
  config <~ esilent (find_brain_config root) ;;
  match config with
  | None => eret None
  | Some config =>
      sources <~ esilent (discover_state_files root config) ;;
      eret (abs_path <$> find (fun src => String.eqb (src_repo_slug src) slug) sources)
  end.

Definition set_closed (root dir key : string) (agent : option string)
    : SD (result (list Diagnostic) string) :=
  elog (SetBlockStatus root key "closed") ;~ esilent (set_block_status_as root key "closed" agent dir).
Definition errored (err : string) : CloseOutcome :=
  Unvalidated ("mev::set_block_status_as errored: " +:+ err).

(** The write itself, the lock being free again, and its validation against
    [baseline]. *)
Definition close_and_validate (root dir key : string) (agent : option string) (state_path : string)
    (seq_before : Z) (baseline : list Diagnostic) : SD CloseOutcome :=
  r <~ set_closed root dir key agent ;;
  match r with
  | Err err => eret (errored err)
  | Ok close_report =>
      match classify_report key close_report with
      | Closed key' _ _ =>
          let wrote := existsb (fun d => String.eqb (locator d) "I_EMIT_WROTE"
                                         && String.eqb (dg_file d) state_path) close_report in
          if negb wrote then eret (closed key')
          else
            after <~ esilent (validate_brain_state root) ;;
            match after with
            | Err err => eret (Unvalidated ("could not validate corpus after close: " +:+ err))
            | Ok after =>
                match net_new_diagnostics baseline after with
                | [] =>
                    res <~ commit_write_manifest (write_manifest close_report) ;;
                    eret (Closed key' (mc_committed res) (mc_failed res))
                | net_new =>
                    bytes <~ esilent (read_revision state_path (seq_before + 1)) ;;
                    restored <~ match bytes with
                                | Ok bytes => esilent (write_atomic state_path bytes)
                                | Err e => eret (Err e)
                                end ;;
                    eret (match restored with
                          | Ok _ => Rejected key net_new
                          | Err reason =>
                              Unvalidated ("close of '" +:+ key
                                +:+ "' introduced net-new diagnostic(s) but the mev-history restore failed ("
                                +:+ reason +:+ ") — " +:+ state_path
                                +:+ " may be left in the WRITTEN (not rolled back) state; net-new: "
                                +:+ String.concat "; " net_new)
                          end)
                end
            end
      | outcome => eret outcome
      end
  end.

Definition attempt_close (root dir key slug : string) (agent : option string) (lock_timeout : Z)
    : SD CloseOutcome :=
  gated <~ block_has_unmet_operator_gate root key ;;
  if default false gated then eret (OperatorGated key)
  else
    lock <~ esilent (acquire_lock root lock_timeout) ;;
    match lock with
    | HeldBy pid secs => eret (LockHeld pid secs)
    | LockIo path source =>
        eret (Unvalidated ("could not acquire advisory lock at " +:+ path +:+ ": " +:+ source))
    | Acquired =>
        state_path <~ resolve_state_path root slug ;;
        match state_path with
        | None =>
            esilent (release_lock root) ;~
            r <~ set_closed root dir key agent ;;
            eret (match r with
                  | Ok report => classify_report key report
                  | Err err => errored err
                  end)
        | Some state_path =>
            revs <~ esilent (list_revisions state_path) ;;
            let seq_before := default 0%Z (revs ≫= last) in
            baseline <~ esilent (validate_brain_state root) ;;
            esilent (release_lock root) ;~
            match baseline with
            | Err err => eret (Unvalidated ("could not validate corpus before close: " +:+ err))
            | Ok baseline => close_and_validate root dir key agent state_path seq_before baseline
            end
        end
    end.

Definition close_block_direct (root repo block_id : string) : SD CloseOutcome :=
  attempt_close root root (repo +:+ ":" +:+ block_id) repo None DEFAULT_LOCK_TIMEOUT.

(** ** CloseBlockNode *)

Definition red_run (status : string) (state : SDLCState) : option string :=
  let reason := default "no reason recorded" (bail_reason state) in
  if String.eqb status "blocked" then
    Some ("run ended blocked (" +:+ reason +:+ ") — a red run must not close its block")
  else if String.eqb status "reconcile_failed" then
    Some ("run ended reconcile_failed (" +:+ reason +:+ ") — base-template D56 CALL 2 makes this terminal; a failed reconcile must not close its block")
  else if String.eqb status "criteria_refused" then
    Some ("run ended criteria_refused (" +:+ reason +:+ ") — the end review refused the acceptance criteria; a refused run must not close its block")
  else None.

Definition evaluate_close (agent : option string) (lock_timeout : Z) (ctx : SdlcCtx X) : SD CloseOutcome :=
  match r_wrap ctx with
  | None => eret (Skipped "WrapUpNode has not run — nothing to close")
  | Some wrap =>
      let state := wu_state wrap in
      match red_run (global_status state) state with
      | Some reason => eret (Skipped reason)
      | None =>
          if negb (full_run wrap) then
            eret (Skipped "run covered only a task_range subset, not the full spec — a partial run must not close its block")
          else
            match state_block_id state, option_of (worktree_path ctx) with
            | None, _ => eret (Skipped "no block_id on this run")
            | Some _, None =>
                eret (Skipped "no worktree_path stamped by SetupWorktreeNode — cannot resolve a brain root")
            | Some block_id, Some worktree =>
                there <~ esilent (h_exists (path_join (path_join worktree "planning") "state.json")) ;;
                if negb there then eret (Skipped ("no planning/state.json under " +:+ worktree))
                else
                  root <~ esilent (find_brain_root worktree) ;;
                  match root with
                  | Err err =>
                      eret (Unvalidated ("mev unavailable: could not resolve brain.toml from " +:+ worktree
                                         +:+ ": " +:+ err))
                  | Ok root =>
                      let repo := default DEFAULT_REPO_SLUG (ev_repo ctx) in
                      attempt_close root worktree (repo +:+ ":" +:+ block_id) repo agent lock_timeout
                  end
            end
      end
  end.

Definition CloseBlockNode_process (agent : option string) (lock_timeout : Z) (ctx : SdlcCtx X)
    : SD (result (SdlcCtx X) NodeError) :=
  outcome <~ evaluate_close agent lock_timeout ctx ;;
  eret (Ok (put_close
    (mkCloseResult (outcome_label outcome) (outcome_detail outcome) (is_validated outcome)
       (is_rejected outcome) (outcome_key outcome)
       (match outcome with Closed _ c f => Some (c, f) | _ => None end)) ctx)).

(** ** PullRequestNode *)

Definition PullRequestNode_process (ctx : SdlcCtx X) : SD (result (SdlcCtx X) NodeError) :=
  match ev_spec_slug ctx with
  | None => eret (Err (NodeError_new ("invalid SDLC_FLOW event: " +:+ serde_error)))
  | Some slug =>
      if negb (default true (ev_auto_pr ctx)) then
        eret (Ok (put_pr (mkPrResult true None (branch_name ctx)) ctx))
      else
        match r_setup ctx with
        | None => eret (Err (NodeError_new "PullRequestNode requires SetupWorktreeNode to have run"))
        | Some setup =>
            match setup_branch_name setup with
            | None => eret (Err (NodeError_new "SetupWorktreeNode output missing branch_name"))
            | Some branch =>
                let cwd := setup_worktree_path setup in
                push <~ run_command "git" ["push"; "origin"; branch] cwd ;;
                match push with
                | Err err => eret (Err (NodeError_new ("git push failed to spawn: " +:+ err)))
                | Ok out =>
                    if negb (cmd_status out =? 0)%Z then
                      eret (Err (NodeError_new ("git push failed: " +:+ cmd_stderr out)))
                    else
                      pr <~ run_command "gh"
                              ["pr"; "create"; "--base"; "main"; "--head"; branch; "--title"; "SDLC: " +:+ slug;
                               "--body"; "Auto-generated PR — human review required."] cwd ;;
                      match pr with
                      | Err err => eret (Err (NodeError_new ("gh pr create failed to spawn: " +:+ err)))
                      | Ok out =>
                          if negb (cmd_status out =? 0)%Z then
                            eret (Err (NodeError_new ("gh pr create failed: " +:+ cmd_stderr out)))
                          else
                            eret (Ok (put_pr (mkPrResult false (Some (trim (cmd_stdout out))) (Some branch)) ctx))
                      end
                end
            end
        end
  end.

(** ** EmitStateNode *)

Definition parse_pr_number (url : string) : Z :=
  default 0%Z (parse_u64 (after_last slash_char (trim_end_matches "/"%char url))).

Definition patch_state (ctx : SdlcCtx X) (state_filename : string) (patch : value -> value) : SD unit :=
  match option_of (worktree_path ctx), ev_spec_slug ctx with
  | Some worktree, Some slug =>
      let state_path := path_join (path_join (path_join (path_join worktree "planning") slug) "sdlc")
                          state_filename in
      there <~ esilent (h_exists state_path) ;;
      if negb there then eret tt
      else
        r <~ esilent (h_read_to_string state_path) ;;
        match r with
        | Err _ => eret tt
        | Ok content =>
            match json_parse content with
            | Err _ => eret tt
            | Ok v =>
                if negb (is_object v) then eret tt
                else
                  match json_pretty (patch v) with
                  | Err _ => eret tt
                  | Ok patched =>
                      written <~ write_file state_path patched ;;
                      match written with
                      | Err _ => eret tt
                      | Ok _ => commit_all worktree SAVE_STATE_FALLBACK_MESSAGE ;~ eret tt
                      end
                  end
            end
        end
  | _, _ => eret tt
  end.
Definition patch_close_block_into_state (ctx : SdlcCtx X) (state_filename : string) : SD unit :=
  match r_close ctx with
  | None => eret tt
  | Some c => patch_state ctx state_filename (fun v =>
      jset (jset v "state_write_validated" (jbool (state_write_validated c)))
        "state_write_rejected" (jbool (state_write_rejected c)))
  end.
Definition patch_pr_into_state (ctx : SdlcCtx X) (state_filename : string) : SD unit :=
  match r_pr ctx with
  | None => eret tt
  | Some pr =>
      if pr_skipped pr then eret tt
      else
        match opened_url pr with
        | None => eret tt
        | Some url => patch_state ctx state_filename (fun v =>
            jset v "pr" (json_object [("url", jstr url); ("number", ju64 (parse_pr_number url))]))
        end
  end.

(** policy/emit_state.rs, then the two patches *)
Definition last_lines (n : nat) (s : string) : string :=
  String.concat nl (rev (take n (rev (lines s)))).
Definition generic_emit (agent : option string) (ctx : SdlcCtx X) : SD (result (SdlcCtx X) NodeError) :=
  let cwd := default "." (setup_worktree_path <$> r_setup ctx) in
  let args := ["emit-state"; "--write"] ++ match agent with Some a => ["--agent"; a] | None => [] end in
  r <~ run_command "mev" args cwd ;;
  eret (match r with
        | Err err => Err (NodeError_new ("mev emit-state failed to spawn: " +:+ err))
        | Ok out =>
            let ok := (cmd_status out =? 0)%Z in
            Ok (put_emit (mkEmitResult ok (last_lines 5 (cmd_stdout out))
                            (if ok then None else Some (cmd_stderr out))) ctx)
        end).
Definition EmitStateNode_process (agent : option string) (state_filename : string) (ctx : SdlcCtx X)
    : SD (result (SdlcCtx X) NodeError) :=
  ctx <~? generic_emit agent ctx ;;
  patch_close_block_into_state ctx state_filename ;~
  patch_pr_into_state ctx state_filename ;~
  eret (Ok ctx).
End Close.

(** * Facts *)

(** ** Committing the manifest accounts for every path *)

Lemma manifest_loop_spec seen report :
  NoDup (manifest_loop seen report) /\
  forall f, f ∈ manifest_loop seen report <->
    f ∉ seen /\ exists d, d ∈ report /\ locator d = "I_EMIT_WROTE" /\ dg_file d = f.
Proof.
  revert seen. induction report as [|d report IH]; intros seen; cbn [manifest_loop].
  { split; [constructor|]. intros f. split; [by intros ?%elem_of_nil|]. by intros (_ & d & ?%elem_of_nil & _). }
  destruct (String.eqb_spec (locator d) "I_EMIT_WROTE") as [Hl|Hl];
    [destruct (bool_decide_reflect (dg_file d ∈ seen)) as [Hs|Hs]|]; cbn [andb negb].
  - destruct (IH seen) as [Hnd Hin]. split; [done|]. intros f. rewrite Hin. split; intros (Hf & d' & Hd' & H').
    + split; [done|]. exists d'. split; [by right|done].
    + split; [done|]. apply elem_of_cons in Hd' as [->|Hd']; [|by exists d']. by destruct H' as [_ <-].
  - destruct (IH (dg_file d :: seen)) as [Hnd Hin]. split.
    + constructor; [|done]. rewrite Hin. intros [Hf _]. apply Hf. by left.
    + intros f. rewrite elem_of_cons, Hin, elem_of_cons. split.
      * intros [->|(Hf & d' & Hd' & H')]; [by split; [|exists d; split; [left|]]|].
        split; [by intros ?; apply Hf; right|]. exists d'. split; [by right|done].
      * intros (Hf & d' & Hd' & H'). destruct (decide (f = dg_file d)) as [->|Hne]; [by left|]. right.
        split; [by intros [|]|]. apply elem_of_cons in Hd' as [->|Hd']; [by destruct H' as [_ <-]|by exists d'].
  - destruct (IH seen) as [Hnd Hin]. split; [done|]. intros f. rewrite Hin. split; intros (Hf & d' & Hd' & H').
    + split; [done|]. exists d'. split; [by right|done].
    + split; [done|]. apply elem_of_cons in Hd' as [->|Hd']; [by destruct H' as [? _]|by exists d'].
Qed.

Section Facts.
Context {X : Extern} {H : Host X} {UC : UnicodeCase} {RF : RustFmt} {CL : CheckLibs X}.
Context {LL : LoopLibs X} {ML : MevLibs X H}.

Definition grouped (groups : list (string * list Entry)) : list string := map fst (concat (map snd groups)).

Lemma grouped_push root e groups : grouped (push_entry root e groups) ≡ₚ grouped groups ++ [e.1].
Proof.
  unfold grouped. induction groups as [|[r es] groups IH]; cbn; [done|].
  destruct (String.eqb r root); cbn; rewrite !map_app; cbn.
  - rewrite <- !app_assoc. apply Permutation_app_head, Permutation_app_comm.
  - rewrite IH. by rewrite app_assoc.
Qed.

Lemma grouping_accounts manifest w groups failed w' t :
  efold group_path manifest ([], []) w = ((groups, failed), w', t) ->
  grouped groups ++ map fst failed ≡ₚ manifest.
Proof.
  intros E. apply (efold_ind (fun done acc => grouped acc.1 ++ map fst acc.2 ≡ₚ done)) in E; [exact E|done|].
  intros seen [gs fs] path s [gs' fs'] s' t' Hi Hf. cbn [group_path] in Hf.
  apply ebind_inv in Hf as (r & s1 & t1 & t2 & _ & Hf & _).
  destruct r as [[root relative]|reason]; apply eret_inv in Hf as ([= -> ->] & _ & _); cbn [fst snd] in *.
  - rewrite grouped_push, <- Hi. cbn. rewrite <- !app_assoc. apply Permutation_app_head, Permutation_app_comm.
  - by rewrite map_app, app_assoc, Hi.
Qed.

Lemma staging_accounts root entries failed0 w staged failed w' t :
  efold (stage_entry root) entries ([], failed0) w = ((staged, failed), w', t) ->
  map fst staged ++ map fst failed ≡ₚ map fst failed0 ++ map fst entries.
Proof.
  intros E. apply (efold_ind (fun done acc => map fst acc.1 ++ map fst acc.2 ≡ₚ map fst failed0 ++ map fst done)) in E;
    [exact E|by rewrite app_nil_r|].
  intros seen [st fs] e s [st' fs'] s' t' Hi Hf. cbn [stage_entry] in Hf.
  apply ebind_inv in Hf as (r & s1 & t1 & t2 & _ & Hf & _). cbn [fst snd] in Hi.
  assert (Hstep : (st' = st ++ [e] /\ fs' = fs) \/ (st' = st /\ exists reason, fs' = fs ++ [(e.1, reason)])).
  { destruct r as [out|err]; [destruct (success out)|];
      apply eret_inv in Hf as ([= -> ->] & _ & _); eauto. }
  rewrite map_app, app_assoc, <- Hi. cbn [map].
  destruct Hstep as [[-> ->]|[-> [reason ->]]]; cbn [fst snd]; rewrite map_app; cbn [map fst].
  - rewrite <- !app_assoc. apply Permutation_app_head, Permutation_app_comm.
  - by rewrite app_assoc.
Qed.

Definition accounted_paths (res : ManifestCommitResult) : list string :=
  mc_committed res ++ map fst (mc_failed res).

Lemma commit_group_accounts res g w res' w' t :
  commit_group res g w = (res', w', t) ->
  accounted_paths res' ≡ₚ accounted_paths res ++ map fst g.2.
Proof.
  destruct g as [root entries]. unfold commit_group, accounted_paths.
  intros ([staged failed] & w1 & t1 & t2 & E1 & E2 & _)%ebind_inv. apply staging_accounts in E1.
  destruct (bool_decide_reflect (staged = [])) as [->|_].
  { apply eret_inv in E2 as (-> & _ & _). cbn in *. by rewrite <- app_assoc, E1. }
  apply ebind_inv in E2 as (r & w2 & t3 & t4 & _ & E2 & _).
  assert (Hcase : res' = mkManifestCommitResult (mc_committed res ++ map fst staged) failed \/
                  exists reason, res' = mkManifestCommitResult (mc_committed res)
                                   (failed ++ map (fun e => (e.1, reason)) staged)).
  { destruct r as [out|err]; [destruct (success out)|]; apply eret_inv in E2 as (-> & _ & _); eauto. }
  cbn [snd]. rewrite <- (app_assoc (mc_committed res)), <- E1.
  destruct Hcase as [->|[reason ->]]; cbn [mc_committed mc_failed]; [by rewrite <- app_assoc|].
  rewrite map_app, map_map. cbn [fst]. apply Permutation_app_head, Permutation_app_comm.
Qed.

(** Every path of the manifest is either committed or reported as failed, once. *)
Lemma manifest_accounted manifest w res w' t :
  commit_write_manifest manifest w = (res, w', t) -> accounted_paths res ≡ₚ manifest.
Proof.
  unfold commit_write_manifest. intros ([groups failed] & w1 & t1 & t2 & E1 & E2 & _)%ebind_inv.
  apply grouping_accounts in E1.
  apply (efold_ind (fun done r => accounted_paths r ≡ₚ map fst failed ++ grouped done)) in E2.
  - rewrite E2, <- E1. apply Permutation_app_comm.
  - unfold accounted_paths, grouped. cbn. by rewrite app_nil_r.
  - intros seen r g s r' s' t' Hi Hf. apply commit_group_accounts in Hf. rewrite Hf, Hi. unfold grouped.
    rewrite !map_app, concat_app, map_app. cbn. by rewrite app_nil_r, app_assoc.
Qed.

(** ** The guard *)

Definition no_status (e : SdlcEvent X) : bool := match e with SetBlockStatus _ _ _ => false | _ => true end.
Definition status_writes (t : list (SdlcEvent X)) : list (string * string * string) :=
  omap (fun e => match e with SetBlockStatus root key status => Some (root, key, status) | _ => None end) t.

Lemma status_writes_app t1 t2 : status_writes (t1 ++ t2) = status_writes t1 ++ status_writes t2.
Proof. apply omap_app. Qed.
Lemma no_status_writes {A} (m : SD A) w a w' t :
  only no_status m -> m w = (a, w', t) -> status_writes t = [].
Proof.
  intros Hm E. apply Hm in E. induction t as [|e t IH]; [done|]. cbn in E.
  apply andb_true_iff in E as [He Ht]. destruct e; try done; exact (IH Ht).
Qed.

Lemma net_new_nil before after :
  net_new_diagnostics before after = [] <->
  Forall (fun d => diagnostic_identity d ∈ map diagnostic_identity before) after.
Proof.
  unfold net_new_diagnostics. split.
  - intros E%map_eq_nil. apply Forall_forall. intros d Hd.
    destruct (bool_decide_reflect (diagnostic_identity d ∈ map diagnostic_identity before)) as [?|Hn]; [done|].
    assert (Hin : In d (List.filter (fun d => negb (bool_decide (diagnostic_identity d ∈ map diagnostic_identity before))) after)).
    { apply filter_In. split; [by apply list_elem_of_In|]. by rewrite bool_decide_eq_false_2. }
    by rewrite E in Hin.
  - intros Hall. enough (List.filter (fun d => negb (bool_decide (diagnostic_identity d ∈ map diagnostic_identity before))) after = []) as -> by done.
    induction Hall as [|d after Hd _ IH]; [done|]. cbn. by rewrite bool_decide_eq_true_2.
Qed.

(** ** What the close finds out *)

(** The files of a repository, in order, until one holds the block; whether the
    block awaits an operator. *)
Inductive gate_scanned (slug id : string) : list StateSource -> HW -> option bool -> HW -> Prop :=
| scanned_none w : gate_scanned slug id [] w None w
| scanned_other src srcs w g w' : src_repo_slug src <> slug -> gate_scanned slug id srcs w g w' ->
    gate_scanned slug id (src :: srcs) w g w'
| scanned_without src srcs w file w1 g w' : src_repo_slug src = slug -> load_state (abs_path src) w = (file, w1) ->
    (forall tracks b, file = Some tracks -> b ∈ concat tracks -> mb_id b <> id) ->
    gate_scanned slug id srcs w1 g w' -> gate_scanned slug id (src :: srcs) w g w'
| scanned_block src srcs w tracks w1 pre b post g : src_repo_slug src = slug ->
    load_state (abs_path src) w = (Some tracks, w1) -> concat tracks = pre ++ b :: post ->
    Forall (fun b => mb_id b <> id) pre -> mb_id b = id ->
    (g = true <-> OperatorDep ∈ mb_depends_on b) ->
    gate_scanned slug id (src :: srcs) w (Some g) w1.
(** The state files mev knows, found from the world [w]. *)
Definition sources_found (root : string) (w : HW) (sources : option (list StateSource)) (w' : HW) : Prop :=
  exists config w1, find_brain_config root w = (config, w1) /\
    match config with
    | None => sources = None /\ w' = w1
    | Some config => exists l, discover_state_files root config w1 = (l, w') /\ sources = Some l
    end.
Definition operator_gate (root key : string) (w : HW) (g : option bool) (w' : HW) : Prop :=
  match split_once ":"%char key with
  | None => g = None /\ w' = w
  | Some (slug, id) => exists sources w1, sources_found root w sources w1 /\
      match sources with
      | None => g = None /\ w' = w1
      | Some sources => gate_scanned slug id sources w1 g w'
      end
  end.
(** The first of them that is the repository's. *)
Definition state_file_of (root slug : string) (w : HW) (path : option string) (w' : HW) : Prop :=
  exists sources, sources_found root w sources w' /\
    match path with
    | None => forall srcs src, sources = Some srcs -> src ∈ srcs -> src_repo_slug src <> slug
    | Some path => exists pre src post, sources = Some (pre ++ src :: post) /\
        Forall (fun src => src_repo_slug src <> slug) pre /\ src_repo_slug src = slug /\ path = abs_path src
    end.

Definition unvalidated (o : CloseOutcome) : Prop := exists reason, o = Unvalidated reason.

(** What the report of the write comes to, where nothing is validated. *)
Definition reported (key : string) (report : result (list Diagnostic) string) (o : CloseOutcome) : Prop :=
  match report with
  | Err _ => unvalidated o
  | Ok report =>
      ((exists d, d ∈ report /\ locator d = "E_BLOCK_NOT_FOUND") /\ o = NotFound key) \/
      ((forall d, d ∈ report -> locator d <> "E_BLOCK_NOT_FOUND") /\
         (((exists d, d ∈ report /\ is_error d = true) /\ unvalidated o) \/
          ((forall d, d ∈ report -> is_error d = false) /\ o = Closed key [] [])))
  end.
(** The distinct files the write reports, each once. *)
Definition manifest_of (report : list Diagnostic) (files : list string) : Prop :=
  NoDup files /\ forall f, f ∈ files <-> exists d, d ∈ report /\ locator d = "I_EMIT_WROTE" /\ dg_file d = f.

(** A clean write that touched the state file is validated again: committed when
    every diagnostic was there before, taken back otherwise. *)
Definition validated_again (root key state_path : string) (seq_before : Z) (baseline report : list Diagnostic)
    (w : HW) (o : CloseOutcome) (w' : HW) : Prop :=
  exists after w1, validate_brain_state root w = (after, w1) /\
    match after with
    | Err _ => unvalidated o /\ w' = w1
    | Ok after =>
        let known d := exists d0, d0 ∈ baseline /\ severity_debug d0 +:+ "|" +:+ dg_file d0 +:+ "|" +:+ locator d0
            +:+ "|" +:+ dg_message d0 = severity_debug d +:+ "|" +:+ dg_file d +:+ "|" +:+ locator d +:+ "|" +:+ dg_message d in
        ((forall d, d ∈ after -> known d) /\
           exists files res t, manifest_of report files /\ commit_write_manifest files w1 = (res, w', t) /\
             o = Closed key (mc_committed res) (mc_failed res) /\
             mc_committed res ++ map fst (mc_failed res) ≡ₚ files) \/
        ((exists d, d ∈ after /\ ~ known d) /\
           exists bytes w2, read_revision state_path (seq_before + 1) w1 = (bytes, w2) /\
             match bytes with
             | Err _ => unvalidated o /\ w' = w2
             | Ok bytes => exists restored, write_atomic state_path bytes w2 = (restored, w') /\
                 match restored with
                 | Ok _ => exists net_new, o = Rejected key net_new /\
                     forall line, line ∈ net_new <-> exists d, d ∈ after /\ ~ known d /\
                       line = "[" +:+ locator d +:+ "] " +:+ dg_message d +:+ " (" +:+ dg_file d +:+ ")"
                 | Err _ => unvalidated o
                 end
             end)
    end.

(** The close of [key] from the world [w]: its outcome, the world it ends in and
    the statuses it writes. *)
Definition close_attempted (root dir key slug : string) (agent : option string) (lock_timeout : Z)
    (w : HW) (o : CloseOutcome) (w' : HW) (writes : list (string * string * string)) : Prop :=
  exists gated w1, operator_gate root key w gated w1 /\
  ((gated = Some true /\ o = OperatorGated key /\ writes = [] /\ w' = w1) \/
   gated <> Some true /\ exists lock w2, acquire_lock root lock_timeout w1 = (lock, w2) /\
   match lock with
   | HeldBy pid secs => o = LockHeld pid secs /\ writes = [] /\ w' = w2
   | LockIo _ _ => unvalidated o /\ writes = [] /\ w' = w2
   | Acquired => exists state_path w3, state_file_of root slug w2 state_path w3 /\
       match state_path with
       | None => exists w4 report, release_lock root w3 = (tt, w4) /\
           set_block_status_as root key "closed" agent dir w4 = (report, w') /\
           writes = [(root, key, "closed")] /\ reported key report o
       | Some state_path => exists revs w4 baseline w5 w6, list_revisions state_path w3 = (revs, w4) /\
           validate_brain_state root w4 = (baseline, w5) /\ release_lock root w5 = (tt, w6) /\
           match baseline with
           | Err _ => unvalidated o /\ writes = [] /\ w' = w6
           | Ok baseline => exists report w7, set_block_status_as root key "closed" agent dir w6 = (report, w7) /\
               writes = [(root, key, "closed")] /\
               ((forall r, report = Ok r ->
                   (exists d, d ∈ r /\ (locator d = "E_BLOCK_NOT_FOUND" \/ is_error d = true)) \/
                   (forall d, d ∈ r -> locator d = "I_EMIT_WROTE" -> dg_file d <> state_path)) /\
                  reported key report o /\ w' = w7 \/
                exists r, report = Ok r /\
                  (forall d, d ∈ r -> locator d <> "E_BLOCK_NOT_FOUND" /\ is_error d = false) /\
                  (exists d, d ∈ r /\ locator d = "I_EMIT_WROTE" /\ dg_file d = state_path) /\
                  validated_again root key state_path (match revs with Some l => default 0%Z (last l) | None => 0%Z end)
                    baseline r w7 o w')
           end
       end
   end).

(** The whole node: whether the run may close its block at all. *)
Definition skips (o : CloseOutcome) : Prop := exists reason, o = Skipped reason.
Definition close_decided (agent : option string) (lock_timeout : Z) (ctx : SdlcCtx X)
    (w : HW) (o : CloseOutcome) (w' : HW) (writes : list (string * string * string)) : Prop :=
  let not_now := skips o /\ writes = [] /\ w' = w in
  match r_wrap ctx with
  | None => not_now
  | Some wrap =>
      let status := global_status (wu_state wrap) in
      if decide (status ∈ ["blocked"; "reconcile_failed"; "criteria_refused"] \/ full_run wrap = false) then not_now
      else match state_block_id (wu_state wrap), worktree_path ctx with
           | Some id, Ok worktree => exists there w1,
               h_exists (path_join (path_join worktree "planning") "state.json") w = (there, w1) /\
               if there : bool then
                 exists root w2, find_brain_root worktree w1 = (root, w2) /\
                   match root with
                   | Err _ => unvalidated o /\ writes = [] /\ w' = w2
                   | Ok root =>
                       let repo := default DEFAULT_REPO_SLUG (ev_repo ctx) in
                       close_attempted root worktree (repo +:+ ":" +:+ id) repo agent lock_timeout w2 o w' writes
                   end
               else skips o /\ writes = [] /\ w' = w1
           | _, _ => not_now
           end
  end.

Lemma only_git cwd args : only no_status (git_run cwd args).
Proof. unfold git_run. only_go. Qed.
Hint Resolve only_git : only.
Lemma only_commit_manifest manifest : only no_status (commit_write_manifest manifest).
Proof. unfold commit_write_manifest, group_path, locate_path, commit_group, stage_entry. only_go. Qed.
Hint Resolve only_commit_manifest : only.

Lemma set_closed_inv root dir key agent w r w' t :
  set_closed root dir key agent w = (r, w', t) ->
  set_block_status_as root key "closed" agent dir w = (r, w') /\ t = [SetBlockStatus root key "closed"].
Proof.
  unfold set_closed. intros (u & w1 & t1 & t2 & (-> & ->)%elog_inv & (E & ->)%esilent_inv & ->)%ebind_inv. done.
Qed.

Lemma find_split {A} (f : A -> bool) l :
  match find f l with
  | Some x => exists pre post, l = pre ++ x :: post /\ Forall (fun y => f y = false) pre /\ f x = true
  | None => Forall (fun y => f y = false) l
  end.
Proof.
  induction l as [|y l IH]; cbn; [constructor|]. destruct (f y) eqn:Ey; [by exists [], l|].
  destruct (find f l) as [x|]; [|by constructor]. destruct IH as (pre & post & -> & Hp & Hx).
  exists (y :: pre), post. split; [done|]. split; [by constructor|done].
Qed.

Lemma gate_scan_scanned slug id srcs w g w' t :
  gate_scan slug id srcs w = (g, w', t) -> gate_scanned slug id srcs w g w' /\ t = [].
Proof.
  revert w g w' t. induction srcs as [|src srcs IH]; intros w g w' t; cbn [gate_scan].
  { intros E. apply eret_inv in E as (-> & -> & ->). split; [constructor|done]. }
  destruct (String.eqb_spec (src_repo_slug src) slug) as [Hs|Hs]; cbn [negb].
  2: { intros [E ->]%IH. split; [by apply scanned_other|done]. }
  intros (file & w1 & t1 & t2 & (El & ->)%esilent_inv & E & ->)%ebind_inv.
  destruct file as [tracks|]; cbn [mbind option_bind] in E.
  2: { apply IH in E as [E ->]. split; [|done]. eapply scanned_without; [done|exact El|done|done]. }
  unfold block_in in E. pose proof (find_split (fun b => String.eqb (mb_id b) id) (concat tracks)) as Hf.
  destruct (find _ _) as [b|].
  - destruct Hf as (pre & post & Hc & Hpre & Hb%String.eqb_eq). apply eret_inv in E as (-> & -> & ->).
    split; [|done]. eapply scanned_block; [done|exact El|exact Hc| |done|].
    + eapply Forall_impl; [exact Hpre|]. by intros x Hx%String.eqb_neq.
    + rewrite existsb_exists. setoid_rewrite <- list_elem_of_In. split; [intros ([] & Hin & Hd); done|eauto].
  - apply IH in E as [E ->]. split; [|done]. eapply scanned_without; [done|exact El| |done].
    intros tracks' x [= <-] Hx. rewrite Forall_forall in Hf. by apply String.eqb_neq, Hf.
Qed.
Lemma gate_spec root key w g w' t :
  block_has_unmet_operator_gate root key w = (g, w', t) -> operator_gate root key w g w' /\ t = [].
Proof.
  unfold block_has_unmet_operator_gate, operator_gate, sources_found.
  change colon with ":"%char. destruct (split_once ":"%char key) as [[slug id]|]; [|by intros (-> & -> & ->)%eret_inv].
  intros (config & w1 & t1 & t2 & (Ec & ->)%esilent_inv & E & ->)%ebind_inv. destruct config as [config|].
  - apply ebind_inv in E as (l & w2 & t3 & t4 & (El & ->)%esilent_inv & E & ->).
    apply gate_scan_scanned in E as [E ->]. split; [|done]. exists (Some l), w2. split; [|done].
    exists (Some config), w1. split; [done|]. by exists l.
  - apply eret_inv in E as (-> & -> & ->). split; [|done]. exists None, w1. split; [|done]. by exists None, w1.
Qed.
Lemma resolve_spec root slug w path w' t :
  resolve_state_path root slug w = (path, w', t) -> state_file_of root slug w path w' /\ t = [].
Proof.
  unfold resolve_state_path, state_file_of, sources_found.
  intros (config & w1 & t1 & t2 & (Ec & ->)%esilent_inv & E & ->)%ebind_inv. destruct config as [config|].
  - apply ebind_inv in E as (l & w2 & t3 & t4 & (El & ->)%esilent_inv & E & ->). apply eret_inv in E as (-> & -> & ->).
    split; [|done]. exists (Some l). split; [exists (Some config), w1; split; [done|by exists l]|].
    pose proof (find_split (fun src => String.eqb (src_repo_slug src) slug) l) as Hf.
    destruct (find _ l) as [src|]; cbn [fmap option_fmap option_map].
    + destruct Hf as (pre & post & -> & Hpre & Hs%String.eqb_eq). exists pre, src, post. split_and!; try done.
      eapply Forall_impl; [exact Hpre|]. by intros x Hx%String.eqb_neq.
    + intros srcs src [= <-] Hin. rewrite Forall_forall in Hf. by apply String.eqb_neq, Hf.
  - apply eret_inv in E as (-> & -> & ->). split; [|done]. exists None. split; [by exists None, w1|]. by intros ? ? [=].
Qed.

Lemma only_gate_scan slug block_id sources : only no_status (gate_scan slug block_id sources).
Proof. induction sources as [|src sources IH]; cbn [gate_scan]; only_go; exact IH. Qed.
Hint Resolve only_gate_scan : only.
Lemma only_gate root key : only no_status (block_has_unmet_operator_gate root key).
Proof. unfold block_has_unmet_operator_gate. only_go. Qed.
Lemma only_resolve root slug : only no_status (resolve_state_path root slug).
Proof. unfold resolve_state_path. only_go. Qed.

Lemma reported_spec key report :
  reported key report (match report with Ok r => classify_report key r | Err err => errored err end).
Proof.
  destruct report as [report|err]; [|by eexists]. unfold reported, classify_report.
  destruct (existsb _ report) eqn:Ee.
  { apply existsb_exists in Ee as (d & Hd%list_elem_of_In & Hl%String.eqb_eq). left. eauto. }
  right. split.
  { intros d Hd%list_elem_of_In Hl. assert (existsb (fun d => String.eqb (locator d) "E_BLOCK_NOT_FOUND") report = true) as Hx
      by (apply existsb_exists; exists d; by rewrite Hl, String.eqb_refl). by rewrite Ee in Hx. }
  destruct (List.filter is_error report) as [|d l] eqn:Ef; cbn [map].
  - right. split; [|done]. intros d Hd%list_elem_of_In. destruct (is_error d) eqn:Er; [|done].
    assert (In d (List.filter is_error report)) as Hin by by apply filter_In. by rewrite Ef in Hin.
  - left. assert (In d (List.filter is_error report)) as [Hd Hr]%filter_In by (rewrite Ef; by left).
    split; [exists d; by rewrite list_elem_of_In|by eexists].
Qed.

Lemma write_manifest_spec report : manifest_of report (write_manifest report).
Proof.
  destruct (manifest_loop_spec [] report) as [N E]. split; [done|]. intros f. rewrite E.
  split; [by intros [_ H1]|]. intros H1. split; [apply not_elem_of_nil|done].
Qed.

Lemma net_new_lines before after line :
  line ∈ net_new_diagnostics before after <->
  exists d, d ∈ after /\ ~ (exists d0, d0 ∈ before /\ diagnostic_identity d0 = diagnostic_identity d) /\
    line = render_diagnostic d.
Proof.
  unfold net_new_diagnostics. rewrite list_elem_of_In, in_map_iff. setoid_rewrite filter_In.
  setoid_rewrite <- list_elem_of_In. setoid_rewrite negb_true_iff. setoid_rewrite bool_decide_eq_false.
  assert (forall d, diagnostic_identity d ∈ map diagnostic_identity before <->
            exists d0, d0 ∈ before /\ diagnostic_identity d0 = diagnostic_identity d) as Hin.
  { intros d. rewrite list_elem_of_In, in_map_iff. setoid_rewrite <- list_elem_of_In. naive_solver. }
  setoid_rewrite Hin. naive_solver.
Qed.

Lemma close_and_validate_spec root dir key agent state_path n baseline w o w' t :
  close_and_validate root dir key agent state_path n baseline w = (o, w', t) ->
  status_writes t = [(root, key, "closed")] /\
  exists report w1, set_block_status_as root key "closed" agent dir w = (report, w1) /\
    ((forall r, report = Ok r ->
        (exists d, d ∈ r /\ (locator d = "E_BLOCK_NOT_FOUND" \/ is_error d = true)) \/
        (forall d, d ∈ r -> locator d = "I_EMIT_WROTE" -> dg_file d <> state_path)) /\
       reported key report o /\ w' = w1 \/
     exists r, report = Ok r /\ (forall d, d ∈ r -> locator d <> "E_BLOCK_NOT_FOUND" /\ is_error d = false) /\
       (exists d, d ∈ r /\ locator d = "I_EMIT_WROTE" /\ dg_file d = state_path) /\
       validated_again root key state_path n baseline r w1 o w').
Proof.
  unfold close_and_validate. intros (r & w1 & t1 & t2 & E1 & E & ->)%ebind_inv.
  apply set_closed_inv in E1 as [Es ->]. cbn [app]. change (status_writes (SetBlockStatus root key "closed" :: t2))
    with ((root, key, "closed") :: status_writes t2).
  pose proof (reported_spec key r) as Hrep.
  destruct r as [report|err].
  2: { apply eret_inv in E as (-> & -> & ->). split; [done|]. exists (Err err), w1. split; [done|left]. by split. }
  assert (forall w2, (exists d, d ∈ report /\ (locator d = "E_BLOCK_NOT_FOUND" \/ is_error d = true)) \/
                (forall d, d ∈ report -> locator d = "I_EMIT_WROTE" -> dg_file d <> state_path) ->
            o = classify_report key report -> w2 = w1 -> w' = w2 -> t2 = [] ->
          (root, key, "closed") :: status_writes t2 = [(root, key, "closed")] /\
          exists report0 w2, set_block_status_as root key "closed" agent dir w = (report0, w2) /\
            ((forall r, report0 = Ok r -> (exists d, d ∈ r /\ (locator d = "E_BLOCK_NOT_FOUND" \/ is_error d = true)) \/
                (forall d, d ∈ r -> locator d = "I_EMIT_WROTE" -> dg_file d <> state_path)) /\
             reported key report0 o /\ w' = w2 \/
             exists r, report0 = Ok r /\ (forall d, d ∈ r -> locator d <> "E_BLOCK_NOT_FOUND" /\ is_error d = false) /\
               (exists d, d ∈ r /\ locator d = "I_EMIT_WROTE" /\ dg_file d = state_path) /\
               validated_again root key state_path n baseline r w2 o w')) as Hstop.
  { intros w2 Hx -> -> -> ->. split; [done|]. exists (Ok report), w1. split; [done|left]. split_and!; try done. by intros r [= <-]. }
  cbn [reported] in Hrep. destruct Hrep as [[Hd Hc]|[Hd [[He [reason Hc]]|[He Hc]]]]; rewrite Hc in E.
  - apply eret_inv in E as (-> & -> & ->). apply (Hstop w1); try done. left. naive_solver.
  - apply eret_inv in E as (-> & -> & ->). apply (Hstop w1); try done. left. naive_solver.
  - cbv zeta in E. destruct (existsb _ report) eqn:Ew; cbn [negb] in E.
    2:{ apply eret_inv in E as (-> & -> & ->). apply (Hstop w1); try done. right. intros d Hin Hl Hf.
        assert (existsb (fun d => String.eqb (locator d) "I_EMIT_WROTE" && String.eqb (dg_file d) state_path) report = true) as Hex.
        { apply existsb_exists. exists d. split; [by apply list_elem_of_In|]. by rewrite Hl, Hf, !String.eqb_refl. }
        by rewrite Ew in Hex. }
    apply existsb_exists in Ew as (dw & Hdw%list_elem_of_In & [Hlw%String.eqb_eq Hfw%String.eqb_eq]%andb_true_iff).
    cut (status_writes t2 = [] /\ validated_again root key state_path n baseline report w1 o w').
    { intros [-> Hv]. split; [done|]. exists (Ok report), w1. split; [done|right]. exists report. split; [done|].
      split; [naive_solver|]. split; [|exact Hv]. by exists dw. }
    clear Hstop. apply ebind_inv in E as (after & w2 & t3 & t4 & (Ea & ->)%esilent_inv & E & ->). cbn [app].
    unfold validated_again. destruct after as [after|err].
    2: { apply eret_inv in E as (-> & -> & ->). split; [done|]. exists (Err err), w2. split; [done|]. by split; [eexists|]. }
    pose proof (net_new_lines baseline after) as Hnn. pose proof (net_new_nil baseline after) as Hnil.
    destruct (net_new_diagnostics baseline after) as [|x net_new] eqn:En.
    + apply ebind_inv in E as (res & w3 & t5 & t6 & Ec & (-> & -> & ->)%eret_inv & ->).
      rewrite app_nil_r, (no_status_writes _ _ _ _ _ (only_commit_manifest _) Ec). split; [done|].
      exists (Ok after), w2. split; [done|]. left. split.
      { intros d Hin. destruct Hnil as [Hnil _]. specialize (Hnil eq_refl). rewrite Forall_forall in Hnil.
        specialize (Hnil d Hin). apply list_elem_of_In, in_map_iff in Hnil as (d0 & Hd0 & Hi%list_elem_of_In). by exists d0. }
      exists (write_manifest report), res, t5. split; [apply write_manifest_spec|]. split; [exact Ec|]. split; [done|].
      by apply (manifest_accounted _ _ _ _ _ Ec).
    + apply ebind_inv in E as (bytes & w3 & t5 & t6 & (Eb & ->)%esilent_inv & E & ->). cbn [app].
      apply ebind_inv in E as (restored & w4 & t7 & t8 & Er & (-> & -> & ->)%eret_inv & ->).
      assert (t7 = []) as -> by (destruct bytes; [by apply esilent_inv in Er as [_ ->]|by apply eret_inv in Er as (_ & _ & ->)]).
      split; [done|]. exists (Ok after), w2. split; [done|]. right. split.
      { destruct (Hnn x) as [(d & Hin & Hk & _) _]; [by left|]. by exists d. }
      exists bytes, w3. split; [done|]. destruct bytes as [bytes|e].
      * apply esilent_inv in Er as [Er _]. exists restored. split; [done|].
        destruct restored as [[]|e]; [|by eexists]. exists (x :: net_new). by split.
      * apply eret_inv in Er as (-> & -> & _). by split; [eexists|].
Qed.

Lemma attempt_close_spec root dir key slug agent lock_timeout w o w' t :
  attempt_close root dir key slug agent lock_timeout w = (o, w', t) ->
  close_attempted root dir key slug agent lock_timeout w o w' (status_writes t).
Proof.
  unfold attempt_close, close_attempted. intros (gated & w1 & t1 & t2 & Eg & E & ->)%ebind_inv.
  apply gate_spec in Eg as [Hg ->]. cbn [app]. exists gated, w1. split; [exact Hg|].
  destruct gated as [[]|]; cbn [default] in E; [apply eret_inv in E as (-> & -> & ->); by left| |]; right; (split; [done|]).
  all: apply ebind_inv in E as (lock & w2 & t3 & t4 & (El & ->)%esilent_inv & E & ->); cbn [app]; exists lock, w2; (split; [done|]).
  all: destruct lock as [|pid secs|path source];
    [|apply eret_inv in E as (-> & -> & ->); done|apply eret_inv in E as (-> & -> & ->); by split_and!; [eexists|..]].
  all: apply ebind_inv in E as (sp & w3 & t5 & t6 & Er & E & ->); apply resolve_spec in Er as [Hr ->]; cbn [app];
    exists sp, w3; (split; [exact Hr|]).
  all: destruct sp as [state_path|].
  2, 4: apply ebind_inv in E as ([] & w4 & t7 & t8 & (Ef & ->)%esilent_inv & E & ->);
    apply ebind_inv in E as (r & w5 & t9 & t10 & Es & (-> & -> & ->)%eret_inv & ->);
    apply set_closed_inv in Es as [Es ->]; exists w4, r; split_and!; try done; apply reported_spec.
  all: apply ebind_inv in E as (revs & w4 & t7 & t8 & (Ev & ->)%esilent_inv & E & ->); cbv zeta in E;
    apply ebind_inv in E as (base & w5 & t9 & t10 & (Eb & ->)%esilent_inv & E & ->);
    apply ebind_inv in E as ([] & w6 & t11 & t12 & (Ef & ->)%esilent_inv & E & ->); cbn [app];
    exists revs, w4, base, w5, w6; (split; [done|]); (split; [done|]); (split; [done|]).
  all: destruct base as [baseline|err]; [|apply eret_inv in E as (-> & -> & ->); by split_and!; [eexists|..]].
  all: apply close_and_validate_spec in E as [Hw (report & w7 & Es & E)]; exists report, w7;
    (split; [done|]); (split; [done|]).
  all: replace (match revs with Some l => default 0%Z (last l) | None => 0%Z end) with (default 0%Z (revs ≫= last))
    by (by destruct revs); exact E.
Qed.

Lemma red_run_spec state :
  red_run (global_status state) state = None <->
  global_status state ∉ ["blocked"; "reconcile_failed"; "criteria_refused"].
Proof.
  unfold red_run. rewrite !not_elem_of_cons.
  destruct (String.eqb_spec (global_status state) "blocked"); [naive_solver|].
  destruct (String.eqb_spec (global_status state) "reconcile_failed"); [naive_solver|].
  destruct (String.eqb_spec (global_status state) "criteria_refused"); [naive_solver|].
  split; [|done]. intros _. split_and!; try done. apply not_elem_of_nil.
Qed.

Lemma evaluate_close_spec agent lock_timeout ctx w o w' t :
  evaluate_close agent lock_timeout ctx w = (o, w', t) ->
  close_decided agent lock_timeout ctx w o w' (status_writes t).
Proof.
  unfold evaluate_close, close_decided. intros E. cbv zeta in E.
  destruct (r_wrap ctx) as [wrap|] eqn:Ew; [|apply eret_inv in E as (-> & -> & ->); by split_and!; [eexists|..]].
  cbv zeta. destruct (red_run _ _) as [reason|] eqn:Er.
  { apply eret_inv in E as (-> & -> & ->). rewrite decide_True; [by split_and!; [eexists|..]|left].
    destruct (decide (global_status (wu_state wrap) ∈ ["blocked"; "reconcile_failed"; "criteria_refused"])) as [|Hn]; [done|].
    apply red_run_spec in Hn. congruence. }
  apply red_run_spec in Er.
  destruct (full_run wrap) eqn:Ef; cbn [negb] in E.
  2: { apply eret_inv in E as (-> & -> & ->). rewrite decide_True by (by right). by split_and!; [eexists|..]. }
  rewrite decide_False by naive_solver.
  destruct (state_block_id (wu_state wrap)) as [id|] eqn:Ei; [|apply eret_inv in E as (-> & -> & ->); by split_and!; [eexists|..]].
  destruct (worktree_path ctx) as [worktree|e] eqn:Et; cbn [option_of] in E;
    [|apply eret_inv in E as (-> & -> & ->); by split_and!; [eexists|..]].
  apply ebind_inv in E as (there & w1 & t1 & t2 & (Ex & ->)%esilent_inv & E & ->). cbn [app].
  exists there, w1. split; [done|].
  destruct there; cbn [negb] in E; [|apply eret_inv in E as (-> & -> & ->); by split_and!; [eexists|..]].
  apply ebind_inv in E as (root & w2 & t3 & t4 & (Erot & ->)%esilent_inv & E & ->). cbn [app].
  exists root, w2. split; [done|].
  destruct root as [root|err]; [|apply eret_inv in E as (-> & -> & ->); by split_and!; [eexists|..]].
  by apply attempt_close_spec.
Qed.

(** C7: a block is closed at most once, and only under the guard, call by call
    from the world the node starts in ([close_decided], [close_attempted],
    [validated_again]).  Nothing is written unless the run was wrapped up, its
    status is none of the three red ones, it covered the whole spec and has a
    block and a worktree with a state file in a brain; nor when the first file
    of the repository that holds the block gives it an operator dependency, when
    the lock is not had, or when the corpus cannot be validated beforehand.
    Otherwise one status is written, [closed], of that block.  A report that the
    block is unknown, or with an error, or that does not name the state file is
    the outcome.  A clean one that does is validated again at once: with no
    diagnostic that was not there before, the distinct files it wrote are
    committed and each is in the outcome once, as committed or as failed; with
    one, the revision after the last one listed before the write is read and
    written back, and only if both succeed is the outcome [Rejected], with
    exactly the new diagnostics.  Where mev knows no state file of the
    repository the status is written with no validation before or after, and
    the report alone is the outcome. *)
Theorem close_block_guarded agent lock_timeout ctx w r w' t :
  CloseBlockNode_process agent lock_timeout ctx w = (r, w', t) ->
  exists o c, r = Ok (put_close c ctx) /\ co_outcome c = outcome_label o /\
    (state_write_validated c = true <-> exists key committed failures, o = Closed key committed failures) /\
    (state_write_rejected c = true <-> exists key net_new, o = Rejected key net_new) /\
    close_decided agent lock_timeout ctx w o w' (status_writes t).
Proof.
  unfold CloseBlockNode_process. intros (o & w1 & t1 & t2 & E1 & (-> & -> & ->)%eret_inv & ->)%ebind_inv.
  rewrite app_nil_r. exists o. eexists. split; [reflexivity|]. split; [reflexivity|].
  split; [destruct o; cbn; naive_solver|]. split; [destruct o; cbn; naive_solver|].
  exact (evaluate_close_spec _ _ _ _ _ _ _ E1).
Qed.

(** What [evaluate_close] requires of the run. *)
Record may_close (ctx : SdlcCtx X) (key : string) (wrap : WrapUpResult) : Prop := {
  mc_wrapped : r_wrap ctx = Some wrap;
  mc_not_red : red_run (global_status (wu_state wrap)) (wu_state wrap) = None;
  mc_full_run : full_run wrap = true;
  mc_key : exists id, state_block_id (wu_state wrap) = Some id /\
             key = default DEFAULT_REPO_SLUG (ev_repo ctx) +:+ ":" +:+ id
}.
(** The node's only write of a status, seen from the run. *)
Lemma attempted_writes root dir key slug agent lock_timeout w o w' writes :
  close_attempted root dir key slug agent lock_timeout w o w' writes ->
  writes = [] \/ writes = [(root, key, "closed")].
Proof.
  intros (gated & w1 & _ & [(_ & _ & -> & _)|(_ & lock & w2 & _ & H1)]); [by left|].
  destruct lock; [|left; by destruct H1 as (_ & -> & _)..].
  destruct H1 as (sp & w3 & _ & H1). destruct sp.
  - destruct H1 as (? & ? & base & ? & ? & _ & _ & _ & H1).
    destruct base; [destruct H1 as (? & ? & _ & -> & _); by right|left; by destruct H1 as (_ & -> & _)].
  - destruct H1 as (? & ? & _ & _ & -> & _). by right.
Qed.
Lemma close_node_spec agent lock_timeout ctx w r w' t :
  CloseBlockNode_process agent lock_timeout ctx w = (r, w', t) ->
  (exists c, r = Ok (put_close c ctx)) /\
  (status_writes t = [] \/
   exists root key wrap, may_close ctx key wrap /\ status_writes t = [(root, key, "closed")]).
Proof.
  unfold CloseBlockNode_process. intros (o & w1 & t1 & t2 & E1 & (-> & _ & ->)%eret_inv & ->)%ebind_inv.
  split; [by eexists|]. rewrite app_nil_r. apply evaluate_close_spec in E1. unfold close_decided in E1. cbv zeta in E1.
  destruct (r_wrap ctx) as [wrap|] eqn:Ew; [|left; by destruct E1 as (_ & -> & _)].
  case_decide as Hd; [left; by destruct E1 as (_ & -> & _)|].
  destruct (state_block_id (wu_state wrap)) as [id|] eqn:Ei; [|left; by destruct E1 as (_ & -> & _)].
  destruct (worktree_path ctx) as [worktree|]; [|left; by destruct E1 as (_ & -> & _)].
  destruct E1 as (there & w2 & _ & E1). destruct there; [|left; by destruct E1 as (_ & -> & _)].
  destruct E1 as (root & w3 & _ & E1). destruct root as [root|]; [|left; by destruct E1 as (_ & -> & _)].
  apply attempted_writes in E1 as [?|Hw]; [by left|right]. exists root. eexists. exists wrap. split; [|exact Hw].
  split; [done| | |by exists id].
  - apply red_run_spec. naive_solver.
  - destruct (full_run wrap); naive_solver.
Qed.
End Facts.
