(* ===== verification/SdlcRun.v ===== *)
(** * An SDLC run from its task queue to its end

    The walk of crates/engine-core/src/workflows/sdlc_flow/graph.rs after the
    task loop: final validation, end review, docs, wrap-up, close, pull request,
    emit.  [run_from_queue] is the loop (TaskLoop.v) and then this tail.

    - [tail_ends]: the tail has no cycle
    - [bail_is_terminal]: a run that gave up on a task is blocked
    - [closed_means_done]: what has happened when a run closes its block. *)

From S2P Require Import Prelude Json Contract Sessions Node Telemetry Utf8 Text ModelReply Effect Chain LaneLog SdlcPolicy SdlcState SdlcContext SdlcFeedback SdlcClock SdlcChecks TaskLoop TaskLoopFacts SdlcReview SdlcWrapUp SdlcClose.

Local Open Scope string_scope.
Local Open Scope list_scope.
Local Open Scope effect_scope.

(** ** The tail of the graph *)

Inductive TailNode :=
| FinalNode | EndReview | EndReviewRouter | PatchDocs | WrapUp | CloseBlock | PullRequest | EmitState.
#[export] Instance TailNode_eq_dec : EqDecision TailNode.
Proof. solve_decision. Defined.

Section Run.
Context {X : Extern} {H : Host X} {UC : UnicodeCase} {RF : RustFmt} {CL : CheckLibs X}.
Context {P : Prompts} {PS : PolicySerde X} {LL : LoopLibs X} {EL : EndLibs X} {HO : HashOrder}.
Context {WL : WrapLibs X H} {ML : MevLibs X H}.
Variable implement_config triage_config review_config end_review_config docs_config : AgentConfig X.
Variable build : BuildInfo.
Variable state_filename : string.
Variable agent : option string.
Variable lock_timeout : Z.
Local Abbreviation walk_loop := (walk_loop implement_config triage_config review_config build state_filename).

Definition tail_process (n : TailNode) (ctx : SdlcCtx X) : SD (result (SdlcCtx X) NodeError) :=
  match n with
  | FinalNode => FinalValidationNode_process FullScope ctx
  | EndReview => EndReviewNode_process end_review_config ctx
  | EndReviewRouter => eret (Ok ctx)
  | PatchDocs => PatchDocsNode_process docs_config ctx
  | WrapUp => WrapUpNode_process build state_filename ctx
  | CloseBlock => CloseBlockNode_process agent lock_timeout ctx
  | PullRequest => PullRequestNode_process ctx
  | EmitState => EmitStateNode_process agent state_filename ctx
  end.

Definition tail_next (n : TailNode) (ctx : SdlcCtx X) : option TailNode :=
  match n with
  | FinalNode => Some EndReview
  | EndReview => Some EndReviewRouter
  | EndReviewRouter => Some (match route_end_review ctx with ToDocs => PatchDocs | ToWrapUp => WrapUp end)
  | PatchDocs => Some WrapUp
  | WrapUp => Some CloseBlock
  | CloseBlock => Some PullRequest
  | PullRequest => Some EmitState
  | EmitState => None
  end.

Definition tail_entry (e : LoopExit) : TailNode :=
  match e with FinalValidationNode => FinalNode | WrapUpNode => WrapUp end.

Inductive RunEnd :=
| RunDone (ctx : SdlcCtx X)
| RunParked (ctx : SdlcCtx X)
| RunFailed (n : TailNode) (e : NodeError)
| LoopEnded (e : LoopEnd (X := X)).

Fixpoint walk_tail (fuel : nat) (n : TailNode) (ctx : SdlcCtx X) : SD (option RunEnd) :=
  match fuel with
  | O => eret None
  | S fuel =>
      r <~ tail_process n ctx ;;
      match r with
      | Err e => eret (Some (RunFailed n e))
      | Ok ctx =>
          if md_suspended ctx then eret (Some (RunParked ctx))
          else match tail_next n ctx with
               | None => eret (Some (RunDone ctx))
               | Some m => walk_tail fuel m ctx
               end
      end
  end.

Definition TAIL_LENGTH : nat := 8.
Definition run_from_queue (fuel : nat) (ctx : SdlcCtx X) : SD (option RunEnd) :=
  r <~ walk_loop fuel QueueRouter ctx ;;
  match r with
  | None => eret None
  | Some (Left e ctx) => walk_tail TAIL_LENGTH (tail_entry e) ctx
  | Some ended => eret (Some (LoopEnded ended))
  end.

(** * Facts *)

(** ** Who writes a block's status *)

Local Hint Extern 1 (only _ (run_checks _ _ _)) => apply only_run_checks; done : only.
Local Hint Extern 1 (only _ (commit_all _ _)) => apply only_commit_all; done : only.
Local Hint Extern 1 (only _ (build_run_meta _ _ _)) => apply only_run_meta; done : only.

Lemma loop_no_status n ctx :
  only no_status (process_node implement_config triage_config review_config build state_filename n ctx).
Proof.
  destruct n; cbn [process_node]; [| |by apply only_test| | | | | |by apply only_save|]; try (by auto with only).
  - unfold TaskQueueRouterNode_process. only_go.
  - unfold ImplementTaskNode_process, git_worktree_head_sha, git_files_changed_since, git_worktree_changed_files,
      run_or_empty. only_go.
  - unfold TriageTaskNode_process, triage_by_model, classify_trivial, stage_untracked_intent. only_go.
  - unfold ConsolidatedReviewNode_process, stage_untracked_intent. only_go.
Qed.

Lemma walk_loop_no_status fuel n ctx : only no_status (walk_loop fuel n ctx).
Proof.
  revert n ctx. induction fuel as [|fuel IH]; intros n ctx; cbn [TaskLoop.walk_loop]; [only_go|].
  apply only_bind; [apply loop_no_status|]. intros [ctx'|e]; only_go; apply IH.
Qed.

Lemma tail_no_status n ctx : n <> CloseBlock -> only no_status (tail_process n ctx).
Proof.
  intros Hn. destruct n; cbn [tail_process]; try done.
  - unfold FinalValidationNode_process, resolve_harness_path, load_harness_checks, run_and_stamp. only_go.
  - unfold EndReviewNode_process, stage_untracked_intent. only_go.
  - only_go.
  - unfold PatchDocsNode_process. only_go.
  - unfold WrapUpNode_process, save_wrapped, state_path_for, persist_state. only_go.
  - unfold PullRequestNode_process. only_go.
  - unfold EmitStateNode_process, generic_emit, patch_close_block_into_state, patch_pr_into_state, patch_state. only_go.
Qed.

(** ** What the nodes of the tail leave *)

Lemma end_review_spec ctx w ctx' w' t :
  EndReviewNode_process end_review_config ctx w = (Ok ctx', w', t) ->
  exists p, resolved_policy ctx = Ok p /\
    ((review_mode p <> EndOnly /\ ctx' = ctx) \/
     (review_mode p = EndOnly /\ exists r ss, ctx' = put_end_review r (add_sessions ss ctx) /\
        er_unrecognized r = unrecognized REVIEW_VERDICTS (er_verdict r))).
Proof.
  unfold EndReviewNode_process. intros E.
  apply try_eret_inv in E as [(e & _ & [=])|(p & Hp & E)]. exists p. split; [done|].
  destruct (bool_decide_reflect (review_mode p = EndOnly)) as [Hm|Hm]; cbn [negb] in E.
  2:{ apply eret_inv in E as ([= ->] & _ & _). by left. }
  right. split; [done|].
  apply try_eret_inv in E as [(e & _ & [=])|(worktree & _ & E)].
  apply ebind_inv in E as (u & w1 & t1 & t2 & _ & E & ->). cbv zeta in E.
  apply ebind_inv in E as (r & w2 & t3 & t4 & _ & E & ->).
  destruct (bound_review_diff _ _) as [diff truncated].
  apply try_eret_inv in E as [(e & _ & [=])|(s & _ & E)].
  destruct (apply_policy _ _ _ _) as [config prompt].
  apply try_bind_inv in E as [(e & _ & [=])|(reply & w3 & t5 & t6 & _ & E & ->)].
  destruct (content reply) as [content|]; [|by apply eret_inv in E as ([=] & _ & _)].
  apply eret_inv in E as ([= ->] & _ & _). eexists _, _. split; [reflexivity|].
  unfold end_review_of. by destruct (parse_model_verdict _ _ _ _).
Qed.

Lemma docs_spec ctx w ctx' w' t :
  PatchDocsNode_process docs_config ctx w = (Ok ctx', w', t) ->
  exists d ss, ctx' = put_docs d (add_sessions ss ctx).
Proof.
  unfold PatchDocsNode_process. intros E.
  apply try_eret_inv in E as [(e & _ & [=])|(p & _ & E)]. cbv zeta in E.
  apply try_eret_inv in E as [(e & _ & [=])|(worktree & _ & E)].
  apply try_bind_inv in E as [(e & _ & [=])|(reply & w1 & t1 & t2 & _ & E & ->)].
  destruct (content reply) as [content|]; [|by apply eret_inv in E as ([=] & _ & _)].
  destruct (match parse_model_verdict _ _ _ _ with Parsed _ => _ | Unparseable _ _ => _ end) as [parsed preview].
  apply eret_inv in E as ([= ->] & _ & _). by eexists _, _.
Qed.

(** ** The walk of the tail *)

(** [n2] is reached from [n], with its context and in its world. *)
Inductive leads : TailNode -> SdlcCtx X -> HW -> TailNode -> SdlcCtx X -> HW -> Prop :=
| L_here n ctx w : leads n ctx w n ctx w
| L_step n ctx w ctx' w' t m n2 ctx2 w2 :
    tail_process n ctx w = (Ok ctx', w', t) -> md_suspended ctx' = false -> tail_next n ctx' = Some m ->
    leads m ctx' w' n2 ctx2 w2 -> leads n ctx w n2 ctx2 w2.

Lemma leads_inv n ctx w n2 ctx2 w2 :
  leads n ctx w n2 ctx2 w2 -> n <> n2 ->
  exists ctx' w' t m, tail_process n ctx w = (Ok ctx', w', t) /\ tail_next n ctx' = Some m /\
    leads m ctx' w' n2 ctx2 w2 /\ forall n3 ctx3 w3, leads m ctx' w' n3 ctx3 w3 -> leads n ctx w n3 ctx3 w3.
Proof.
  destruct 1 as [|n ctx w ctx' w' t m n2 ctx2 w2 E Hs Hm Hl]; [done|]. intros _.
  exists ctx', w', t, m. split_and!; try done. intros n3 ctx3 w3. by econstructor.
Qed.

Lemma tail_unfold fuel n ctx w r w' t :
  walk_tail (S fuel) n ctx w = (r, w', t) ->
  (exists e w1, tail_process n ctx w = (Err e, w1, t) /\ r = Some (RunFailed n e)) \/
  exists ctx' w1 t1, tail_process n ctx w = (Ok ctx', w1, t1) /\
    ((r = Some (RunParked ctx') /\ t = t1) \/ (tail_next n ctx' = None /\ r = Some (RunDone ctx') /\ t = t1) \/
     exists m t2, md_suspended ctx' = false /\ tail_next n ctx' = Some m /\
       walk_tail fuel m ctx' w1 = (r, w', t2) /\ t = t1 ++ t2).
Proof.
  cbn [walk_tail]. intros (x & w1 & t1 & t2 & E1 & E2 & ->)%ebind_inv.
  destruct x as [ctx'|e]; [|apply eret_inv in E2 as (-> & _ & ->); left; exists e, w1; by rewrite app_nil_r].
  right. exists ctx', w1, t1. split; [done|]. destruct (md_suspended ctx').
  - apply eret_inv in E2 as (-> & _ & ->). left. by rewrite app_nil_r.
  - right. destruct (tail_next n ctx') as [m|]; [right; by exists m, t2|].
    apply eret_inv in E2 as (-> & _ & ->). left. by rewrite app_nil_r.
Qed.

(** How far a node is from the end. *)
Definition tail_rank (n : TailNode) : nat :=
  match n with
  | FinalNode => 8 | EndReview => 7 | EndReviewRouter => 6 | PatchDocs => 5 | WrapUp => 4 | CloseBlock => 3
  | PullRequest => 2 | EmitState => 1
  end.
Lemma tail_next_rank n ctx m : tail_next n ctx = Some m -> (tail_rank m < tail_rank n)%nat.
Proof. destruct n; intros [= <-]; cbn; try lia. destruct (route_end_review ctx); cbn; lia. Qed.

Lemma tail_ends fuel n ctx w r w' t :
  (tail_rank n <= fuel)%nat -> walk_tail fuel n ctx w = (r, w', t) -> r <> None.
Proof.
  revert n ctx w r w' t. induction fuel as [|fuel IH]; intros n ctx w r w' t Hf; [destruct n; cbn in Hf; lia|].
  intros [(e & w1 & _ & ->)|(c & w1 & t1 & _ & [[-> _]|[(_ & -> & _)|(m & t2 & _ & Hm & E & _)]])]%tail_unfold; try done.
  eapply IH; [|exact E]. apply tail_next_rank in Hm. lia.
Qed.

(** After the close nothing writes a status; the close does so at most once. *)
Lemma after_close_no_status fuel n ctx : (tail_rank n < tail_rank CloseBlock)%nat -> only no_status (walk_tail fuel n ctx).
Proof.
  revert n ctx. induction fuel as [|fuel IH]; intros n ctx Hn; cbn [walk_tail]; [only_go|].
  apply only_bind; [apply tail_no_status; by intros ->; cbn in Hn; lia|].
  intros [ctx'|e]; [|only_go]. destruct (md_suspended ctx'); [only_go|].
  destruct (tail_next n ctx') as [m|] eqn:Em; [|only_go]. apply IH. apply tail_next_rank in Em. lia.
Qed.

Lemma tail_writes fuel n ctx w r w' t :
  walk_tail fuel n ctx w = (r, w', t) ->
  status_writes t = [] \/
  exists ctx2 w2 root key wrap, leads n ctx w CloseBlock ctx2 w2 /\ may_close ctx2 key wrap /\
    status_writes t = [(root, key, "closed")].
Proof.
  revert n ctx w t. induction fuel as [|fuel IH]; intros n ctx w t.
  { intros (_ & _ & ->)%eret_inv. by left. }
  destruct (decide (n = CloseBlock)) as [->|Hn]; intros E; apply tail_unfold in E.
  - destruct E as [(e & w1 & E1 & _)|(c & w1 & t1 & E1 & Hcase)];
      cbn [tail_process] in E1; apply close_node_spec in E1 as [[c' Hc'] Hw]; [done|].
    assert (Ht : status_writes t = status_writes t1).
    { destruct Hcase as [[_ ->]|[(_ & _ & ->)|(m & t2 & _ & Hm & E2 & ->)]]; try done.
      injection Hm as <-. rewrite status_writes_app.
      rewrite (no_status_writes _ _ _ _ _ (after_close_no_status _ PullRequest _ (le_n 3)) E2). by rewrite app_nil_r. }
    rewrite Ht. destruct Hw as [?|(root & key & wrap & Hm & Hw)]; [by left|right].
    exists ctx, w, root, key, wrap. split; [constructor|by split].
  - destruct E as [(e & w1 & E1 & _)|(c & w1 & t1 & E1 & Hcase)];
      pose proof (no_status_writes _ _ _ _ _ (tail_no_status _ _ Hn) E1) as Hw1; [by left|].
    destruct Hcase as [[_ ->]|[(_ & _ & ->)|(m & t2 & Hs & Hm & E2 & ->)]]; [by left|by left|].
    rewrite status_writes_app, Hw1. cbn [app].
    destruct (IH _ _ _ _ E2) as [?|(c2 & w2 & root & key & wrap & Hl & Hmc & Hw)]; [by left|right].
    exists c2, w2, root, key, wrap. split; [by econstructor|by split].
Qed.

(** ** The two ways to the wrap-up *)

Lemma red_signal s sig p o :
  red_run (global_status (finish_state s p o sig)) (finish_state s p o sig) = None -> sig = None.
Proof. by destruct sig as [[]|]. Qed.

Lemma signal_red s sig p o :
  sig <> None -> red_run (global_status (finish_state s p o sig)) (finish_state s p o sig) <> None.
Proof. by destruct sig as [[]|]. Qed.

Lemma unrecognized_None known v : unrecognized known v = None -> v ∈ known.
Proof. unfold unrecognized. by destruct (bool_decide_reflect (v ∈ known)). Qed.

(** The routers leave for the wrap-up with a reason in the context. *)
Lemma left_signalled m ctx :
  verdicts_ok ctx -> next_node m ctx = Some (Leave WrapUpNode) -> derive_terminal_signal ctx <> None.
Proof.
  intros [Hvt Hvr] Hl Hsig. apply no_signal in Hsig as [Ut Ur _ _ Utr Urv _].
  destruct m; cbn [next_node] in Hl; try done.
  - unfold route_queue in Hl. repeat case_match; simplify_eq.
  - unfold route_triage in Hl. unfold triage_bail in Ut. destruct (r_triage ctx) as [tr|]; [|done].
    cbn [mbind option_bind] in *. rewrite (Hvt tr eq_refl) in Utr. apply unrecognized_None in Utr.
    unfold TRIAGE_VERDICTS in Utr. rewrite !elem_of_cons in Utr.
    destruct Utr as [Hv|[Hv|[Hv|[]%elem_of_nil]]]; rewrite Hv in Hl, Ut; cbn in Hl, Ut; try done.
    by destruct (resolved_policy ctx).
  - unfold route_review in Hl. unfold review_bail, is_structural in Ur. destruct (r_review ctx) as [rv|]; [|done].
    cbn [mbind option_bind] in *. rewrite (Hvr rv eq_refl) in Urv. apply unrecognized_None in Urv.
    unfold REVIEW_VERDICTS in Urv. rewrite !elem_of_cons in Urv. cbv zeta in Hl, Ur.
    destruct ((length (rv_issues rv) =? 0)%nat || (STRUCTURAL_ISSUE_THRESHOLD <? length (rv_issues rv))%nat)%bool;
      destruct Urv as [Hv|[Hv|[Hv|[]%elem_of_nil]]]; rewrite Hv in Hl, Ur; cbn in Hl, Ur; try done;
      unfold bounded_review_retry_route in Hl; destruct (resolved_policy ctx); try done;
      by destruct (_ <=? _)%Z.
Qed.

(** From the wrap-up to the close. *)
Lemma wrapped_to_close ctx w ctx2 w2 :
  leads WrapUp ctx w CloseBlock ctx2 w2 -> exists t, WrapUpNode_process build state_filename ctx w = (Ok ctx2, w2, t).
Proof.
  intros (c & w' & t & m & E & [= <-] & Hl & _)%leads_inv; [|done]. exists t.
  inversion Hl as [|n0 c0 wc cc wd td me n3 c3 w3 _ _ Hme Hl2]; subst; [done|]. exfalso. clear -Hme Hl2. injection Hme as <-.
  apply leads_inv in Hl2 as (? & ? & ? & m1 & _ & [= <-] & Hl2 & _); [|done].
  by apply leads_inv in Hl2 as (? & ? & ? & m1 & _ & [=] & _).
Qed.

(** The end review, under [EndOnly], as the node gave it after the validation. *)
Definition end_reviewed (p : SdlcPolicy) (ctx : SdlcCtx X) (w : HW) (verdict : string) : Prop :=
  review_mode p = EndOnly -> exists ctx' w' t r,
    EndReviewNode_process end_review_config ctx w = (Ok ctx', w', t) /\ r_end_review ctx' = Some r /\
    er_verdict r = verdict.

(** What the validation and the review leave for the wrap-up. *)
Record verified (p : SdlcPolicy) (s : SDLCState) (ctx : SdlcCtx X) (w : HW) (c : SdlcCtx X) (wc : HW)
    (v : FinalValidation) (verdict : string) : Prop := {
  vf_leads : leads FinalNode ctx w WrapUp c wc;
  vf_state : latest_state c = Ok s;
  vf_range : ev_task_range c = ev_task_range ctx;
  vf_repo : ev_repo c = ev_repo ctx;
  vf_final : r_final c = Some v;
  vf_validated : exists w1 t, validated ctx w v w1 t /\ end_reviewed p (put_final v ctx) w1 verdict;
  vf_review : review_mode p = EndOnly ->
    exists r, r_end_review c = Some r /\ er_unrecognized r = unrecognized REVIEW_VERDICTS (er_verdict r) /\
      er_verdict r = verdict
}.

Lemma drained_to_close p s ctx w ctx2 w2 :
  resolved_policy ctx = Ok p -> latest_state ctx = Ok s -> leads FinalNode ctx w CloseBlock ctx2 w2 ->
  exists c wc t v verdict, WrapUpNode_process build state_filename c wc = (Ok ctx2, w2, t) /\
    verified p s ctx w c wc v verdict.
Proof.
  intros Hp Hs (c1 & w1 & t1 & m & E1 & [= <-] & Hl & L1)%leads_inv; [|done].
  cbn [tail_process] in E1. destruct (final_validated _ _ _ _ _ E1) as (v & -> & Hv).
  apply leads_inv in Hl as (c2 & w3 & t3 & m & E2 & [= <-] & Hl & L2); [|done].
  cbn [tail_process] in E2. destruct (end_review_spec _ _ _ _ _ E2) as (p' & Hp' & Hr).
  assert (p' = p) as -> by (change (resolved_policy ctx = Ok p') in Hp'; congruence).
  apply leads_inv in Hl as (c3 & w5 & t5 & m & E3 & Hm & Hl & L3); [|done].
  cbn [tail_process] in E3. apply eret_inv in E3 as ([= ->] & -> & _).
  set (verdict := default "" (er_verdict <$> r_end_review c2)).
  assert (Hrev : end_reviewed p (put_final v ctx) w1 verdict).
  { intros Hmode. destruct Hr as [[Hne _]|(_ & r & ss & -> & _)]; [done|]. by exists (put_end_review r (add_sessions ss (put_final v ctx))), w3, t3, r. }
  assert (Hc2 : forall c wc, (c = c2 \/ exists d ss, c = put_docs d (add_sessions ss c2)) ->
    leads FinalNode ctx w WrapUp c wc -> verified p s ctx w c wc v verdict).
  { intros c wc Hc L. assert (Hv2 : r_final c = Some v).
    { by destruct Hr as [[_ ->]|(_ & r & ss & -> & _)], Hc as [->|(d & ss' & ->)]. }
    destruct Hr as [[Hne ->]|(_ & r & ss & -> & Hu)]; destruct Hc as [->|(d & ss' & ->)];
      split; try done; try (by exists w1, t1); intros _; by exists r. }
  cbn [tail_next] in Hm. injection Hm as <-. destruct (route_end_review c2).
  - apply leads_inv in Hl as (c4 & w7 & t7 & m & E4 & [= <-] & Hl & L4); [|done].
    cbn [tail_process] in E4. destruct (docs_spec _ _ _ _ _ E4) as (d & ss & ->).
    destruct (wrapped_to_close _ _ _ _ Hl) as (tb & Ew). exists (put_docs d (add_sessions ss c2)), w7, tb, v, verdict.
    split; [done|]. apply Hc2; [right; by exists d, ss|]. apply L1, L2, L3, L4. constructor.
  - destruct (wrapped_to_close _ _ _ _ Hl) as (tb & Ew). exists c2, w3, tb, v, verdict.
    split; [done|]. apply Hc2; [by left|]. apply L1, L2, L3. constructor.
Qed.

(** ** The run *)

Lemma run_cases fuel ctx w r w' t :
  run_from_queue fuel ctx w = (r, w', t) -> status_writes t <> [] ->
  exists e ctx1 w1 t1 t2, walk_loop fuel QueueRouter ctx w = (Some (Left e ctx1), w1, t1) /\
    walk_tail TAIL_LENGTH (tail_entry e) ctx1 w1 = (r, w', t2) /\ status_writes t = status_writes t2.
Proof.
  unfold run_from_queue. intros (x & w1 & t1 & t2 & E1 & E2 & ->)%ebind_inv Hne.
  pose proof (no_status_writes _ _ _ _ _ (walk_loop_no_status _ _ _) E1) as H1.
  rewrite status_writes_app, H1 in Hne. cbn [app] in Hne.
  destruct x as [[e ctx1| | |]|]; try (by apply eret_inv in E2 as (_ & _ & ->)).
  exists e, ctx1, w1, t1, t2. split; [done|]. split; [done|]. by rewrite status_writes_app, H1.
Qed.

(** What a wrap-up that is not red says. *)
Lemma clean_wrap ctx w ctx' w' t key wrap :
  WrapUpNode_process build state_filename ctx w = (Ok ctx', w', t) -> may_close ctx' key wrap ->
  exists s id, latest_state ctx = Ok s /\ derive_terminal_signal ctx = None /\ is_full_run ctx = Ok true /\
    state_block_id s = Some id /\ key = default DEFAULT_REPO_SLUG (ev_repo ctx) +:+ ":" +:+ id.
Proof.
  intros (s & p & o & wr & Hs & Hf & Hst & ->)%wrap_up_spec [Hw Hred Hfull (id & Hid & Hkey)].
  assert (wrap = wr) as -> by (destruct (derive_terminal_signal ctx); cbn in Hw; congruence).
  rewrite Hst in Hred, Hid. apply red_signal in Hred. rewrite Hred in *.
  exists s, id. split_and!; try done. by rewrite Hf, Hfull.
Qed.

Lemma full_run_allows ctx : is_full_run ctx = Ok true -> allowed_task_ids ctx = None.
Proof.
  unfold is_full_run, allowed_task_ids. destruct (parse_task_range _ _) as [o|]; [|done]. intros [= E].
  by apply bool_decide_eq_true in E.
Qed.

(** With nothing pending, what is not terminal is stuck. *)
Lemma drained_no_pending s : next_pending s None = None -> Forall (fun t => task_status t <> TsPending) (tasks s).
Proof.
  unfold next_pending. intros Hn. apply Forall_forall. intros t Hin Ht.
  pose proof (find_none _ _ Hn t (proj1 (list_elem_of_In _ _) Hin)) as Hf. unfold is_pending in Hf.
  by rewrite Ht in Hf.
Qed.
Lemma none_stuck s :
  Forall (fun t => task_status t <> TsPending) (tasks s) -> stuck_count s = 0%Z ->
  Forall (fun t => is_terminal_task t = true) (tasks s).
Proof.
  unfold stuck_count, sum_of. intros Hn Hk. induction Hn as [|t ts Ht Hn IH]; [constructor|]. cbn in Hk.
  assert (Hnn : (0 <= foldr (fun t n => (if is_stuck t then 1 else 0) + n) 0 ts)%Z).
  { clear. induction ts as [|t ts IH]; cbn; [lia|]. destruct (is_stuck t); lia. }
  unfold is_stuck at 1, is_pending in Hk. rewrite bool_decide_eq_false_2 in Hk by done. cbn in Hk.
  destruct (is_terminal_task t) eqn:Et; cbn in Hk; [|lia]. constructor; [done|]. by apply IH.
Qed.

(** C4: the run that closes its block has done its work.  Assumed is an entry of
    the loop whose tasks have distinct ids and counters with room, and that the
    verdicts a triage or review left in the context, if any, are ones these
    nodes wrote ([verdicts_ok]).  If the status of a block is written at all by
    the run (from the task queue on), it is written once, as [closed], under the
    key of the run's own block, and the run covered the whole spec.  The task
    loop was left with none of the tasks lost and none pending; as many are in
    progress or failed as when it began, so every task is done or skipped if
    none was.  From the world the loop ended in the harness was looked for and
    read, all its enabled checks (none, without a harness) ran one after the
    other, and every one that gates passed, a command only by exit status 0.
    Under [EndOnly] the end review made in the world the validation left is
    a pass. *)
Theorem closed_means_done p ctx s fuel w r w' t :
  loop_entry p ctx s -> verdicts_ok ctx ->
  run_from_queue fuel ctx w = (r, w', t) -> status_writes t <> [] ->
  exists root id ctx1 w1 t1 s1,
    status_writes t = [(root, default DEFAULT_REPO_SLUG (ev_repo ctx) +:+ ":" +:+ id, "closed")] /\
    state_block_id s1 = Some id /\ is_full_run ctx = Ok true /\
    walk_loop fuel QueueRouter ctx w = (Some (Left FinalValidationNode ctx1), w1, t1) /\
    latest_state ctx1 = Ok s1 /\ map task_id (tasks s1) = map task_id (tasks s) /\
    Forall (fun t => task_status t <> TsPending) (tasks s1) /\ stuck_count s1 = stuck_count s /\
    (stuck_count s = 0%Z -> Forall (fun t => task_status t = TsDone \/ task_status t = TsSkipped) (tasks s1)) /\
    exists v worktree path w2 there checks w3 job w4 w5 w6 tv,
      let suite := List.filter (fun c => negb (bool_decide (field_bool c "enabled" = Some false))) checks in
      worktree_path ctx1 = Ok worktree /\ harness_at ctx1 worktree w1 path w2 /\
      harness_loaded path w2 there checks w3 /\ h_admit job w3 = (fv_heavy_work v, w4) /\
      suite_ran worktree (spec_dir_for_baseline ctx1 worktree) suite w4 (fv_check_results v) w5 tv /\
      gating_passed suite (fv_check_results v) /\ h_record job true (fv_check_results v) w5 = (tt, w6) /\
      end_reviewed p (put_final v ctx1) w6 "PASS".
Proof.
  intros He Hv E Hne. destruct (run_cases _ _ _ _ _ _ E Hne) as (e & ctx1 & w1 & t1 & t2 & E1 & E2 & Ht).
  destruct (tail_writes _ _ _ _ _ _ _ E2) as [?|(c2 & w2 & root & key & wrap & Hl & Hm & Hw)]; [congruence|].
  edestruct walk_accounts as (m & s1 & Hs1 & Hleave & Hacc); [by apply entry_config|exact E1|].
  edestruct walk_framed as ((F1 & F2 & F3 & F4) & Hv1 & _); [exact E1|].
  rewrite (e_policy _ _ _ He) in F1. destruct e.
  - destruct (drained_to_close _ _ _ _ _ _ F1 Hs1 Hl)
      as (c & wc & tc & v & verdict & Ec & [Hlead Hsc Hrange Hrepo Hv2 (w6 & tv & Hval & Hend) Hrev]).
    destruct (clean_wrap _ _ _ _ _ _ _ Ec Hm) as (s1' & id & Hs1' & Hsig & Hfull & Hid & ->).
    rewrite Hsc in Hs1'. injection Hs1' as <-. apply no_signal in Hsig as [_ _ Uer Uv _ _ Uur].
    assert (Hfull1 : is_full_run ctx = Ok true) by (unfold is_full_run in *; by rewrite <- F3, <- Hrange).
    assert (Hnp : Forall (fun t => task_status t <> TsPending) (tasks s1)).
    { apply drained_no_pending. rewrite <- (left_drained _ _ _ Hs1 Hleave). f_equal. symmetry.
      unfold allowed_task_ids. rewrite F3. by apply full_run_allows. }
    assert (Hpass : fv_all_passed v = true).
    { unfold validation_bail, committed_final_validation in Uv. rewrite Hv2 in Uv. cbn in Uv.
      by destruct (fv_all_passed v). }
    exists root, id, ctx1, w1, t1, s1. rewrite Ht, Hw, Hrepo, F4. split_and!; try done.
    + by destruct Hacc.
    + by rewrite (a_stuck _ _ _ _ Hacc).
    + intros Hst. eapply Forall_impl; [apply none_stuck; [done|by rewrite (a_stuck _ _ _ _ Hacc)]|].
      intros u Hu. unfold is_terminal_task in Hu. destruct (task_status u); try done; auto.
    + destruct Hval as (worktree & path & w3 & there & checks & w4 & Hwt & Hat & Hload & job & w5 & w7 & Ha & Hran & Hg & Hrec & _).
      rewrite Hpass in Hrec. exists v, worktree, path, w3, there, checks, w4, job, w5, w7, w6, tv.
      split_and!; try done; [by apply Hg|].
      intros Hmode. destruct (Hrev Hmode) as (r0 & Hr & Hu & Hvd).
      assert (er_verdict r0 = "PASS") as Hp.
      { unfold end_review_bail in Uer. rewrite Hr in Uer, Uur. cbn [mbind option_bind] in Uer, Uur.
        rewrite Hu in Uur. apply unrecognized_None in Uur. unfold REVIEW_VERDICTS in Uur. rewrite !elem_of_cons in Uur.
        by destruct Uur as [?|[Hx|[Hx|[]%elem_of_nil]]]; [|rewrite Hx in Uer..]. }
      rewrite <- Hp, Hvd. by apply Hend.
  - destruct (wrapped_to_close _ _ _ _ Hl) as (tb & Ew).
    destruct (clean_wrap _ _ _ _ _ _ _ Ew Hm) as (_ & _ & _ & Hsig & _).
    by destruct (left_signalled _ _ (Hv1 Hv) Hleave).
Qed.

(** C8: a run that gives up is blocked.  When the task loop is left for the
    wrap-up, the wrap-up finds the reason in the context whatever it was (a
    bail, a failed or exhausted review, a verdict nobody knows): it stamps the
    run failed, and the state it writes is not one the close accepts; the run
    writes the status of no block. *)
Theorem bail_is_terminal p ctx s fuel w ctx1 w1 t1 :
  loop_entry p ctx s -> verdicts_ok ctx ->
  walk_loop fuel QueueRouter ctx w = (Some (Left WrapUpNode ctx1), w1, t1) ->
  (forall ctx2 w2 t2, WrapUpNode_process build state_filename ctx1 w1 = (Ok ctx2, w2, t2) ->
     md_failure ctx2 <> None /\
     exists wrap, r_wrap ctx2 = Some wrap /\ red_run (global_status (wu_state wrap)) (wu_state wrap) <> None) /\
  forall r w' t, run_from_queue fuel ctx w = (r, w', t) -> status_writes t = [].
Proof.
  intros He Hv E1.
  edestruct walk_accounts as (m & s1 & Hs1 & Hleave & _); [by apply entry_config|exact E1|].
  edestruct walk_framed as (_ & Hv1 & _); [exact E1|].
  pose proof (left_signalled _ _ (Hv1 Hv) Hleave) as Hsig. split.
  - intros ctx2 w2 t2 (s2 & p' & o & wrap & _ & _ & Hst & ->)%wrap_up_spec.
    destruct (derive_terminal_signal ctx1) as [sig|] eqn:Es; [|done]. split; [done|].
    exists wrap. split; [done|]. rewrite Hst. by apply signal_red.
  - intros r w' t E. destruct (decide (status_writes t = [])) as [|Hne]; [done|].
    destruct (run_cases _ _ _ _ _ _ E Hne) as (e & ctx1' & w1' & t1' & t2 & E1' & E2 & Ht).
    rewrite E1 in E1'. injection E1' as <- <- <- <-.
    destruct (tail_writes _ _ _ _ _ _ _ E2) as [?|(c2 & w2 & root & key & wrap & Hl & Hm & Hw)]; [congruence|].
    destruct (wrapped_to_close _ _ _ _ Hl) as (tb & Ew).
    by destruct (clean_wrap _ _ _ _ _ _ _ Ew Hm) as (_ & _ & _ & ? & _).
Qed.
End Run.
