(* ===== verification/SdlcExamples.v ===== *)
(** * A run of the SDLC task loop to compute with

    A world in which the first check fails and every later one passes, and the
    properties of SdlcState.v, SdlcFeedback.v, SdlcChecks.v and TaskLoopFacts.v
    at runs in it. *)

From stdpp Require Import pretty.
From S2P Require Import Prelude Json Sessions Node Utf8 Text ModelReply Effect Chain LaneLog SdlcPolicy SdlcState SdlcContext SdlcFeedback SdlcClock SdlcChecks TaskLoop TaskLoopFacts ChainModel.

Local Open Scope string_scope.
Local Open Scope list_scope.
Local Open Scope Z_scope.

Import JsonModel.
#[local] Existing Instances ChainModel.rust_fmt.

(** ** The seams *)

(** The world counts the checks that ran; [status] is what the next one exits
    with, [found] whether a path exists. *)
Definition host_of (status : nat -> Z) (found : string -> bool) : Host extern := {|
  HW := nat;
  h_run := fun program args cwd n =>
    if String.eqb program "sh"
    then (Ok (mkCommandOutput (status n) "FAIL one" ""), S n)
    else (Ok (mkCommandOutput 0 "M	src/a.rs" ""), n);
  h_agent := fun node config prompt retry n =>
    (Ok (mkAgentReply (Some "PASS") None []), n);
  h_exists := fun path n => (found path, n);
  h_read_to_string := fun path n => (Err "not found", n);
  h_write := fun path contents n => (Ok tt, n);
  h_create_dir_all := fun path n => (Ok tt, n);
  h_now := fun n => ("1970-01-01T00:00:00Z", n);
  h_new_v4 := fun n => ("u", n);
  h_class_configured := fun class => true;
  h_submit := fun id job n => (tt, n);
  h_admit := fun job n => (mkHeavyMeta "inline" None "test" 0 false, n);
  h_record := fun job ok rs n => (tt, n)
|}.
#[local] Instance host : Host extern := host_of (fun n => if (n =? 0)%nat then 1 else 0) (fun _ => false).
#[local] Instance unicode_case : UnicodeCase := {| to_lowercase := fun s => s; to_uppercase := fun s => s |}.
#[local] Instance check_libs : CheckLibs extern := {|
  as_i64 := fun v => match v with JU64 n => Some n | _ => None end;
  json_text := fun _ => "{}";
  json_parse := fun s => Ok (JStr s);
  regex_new := fun _ => None
|}.
#[local] Instance prompts : Prompts := {|
  STABLE_SYSTEM_PROMPT := "system"; PATH_DISCIPLINE_PREAMBLE := "paths";
  IMPLEMENT_STANDARDS_PREAMBLE := "standards"; TRIAGE_STABLE_PROMPT := "triage"; REVIEW_STABLE_PROMPT := "review"
|}.
#[local] Instance policy_serde : PolicySerde extern := {|
  policy_to_json := fun _ => JStr "default";
  policy_of_json := fun v => match v with JStr _ => Some SdlcPolicy_default | _ => None end;
  outcomes_to_json := fun _ => JNull;
  outcomes_of_json := fun _ => None
|}.

(** The entries of an object, each key once. *)
Fixpoint entries_of (seen : list string) (kvs : list (string * jval)) : list (string * jval) :=
  match kvs with
  | [] => []
  | (k, x) :: kvs => if bool_decide (k ∈ seen) then entries_of seen kvs else (k, x) :: entries_of (k :: seen) kvs
  end.
Definition object_entries (v : @value extern) : option (list (string * @value extern)) :=
  match v with JObj kvs => Some (entries_of [] kvs) | _ => None end.

#[local] Instance loop_libs : LoopLibs extern := {|
  implement_of_value := fun _ => Err "no value";
  implement_of_str := fun s => Ok (mkImplementOutput s ["src/a.rs"] []);
  triage_of_value := fun _ => Err "no value";
  triage_of_str := fun s => Ok (mkTriageOutput s "" "" false false);
  review_of_value := fun _ => Err "no value";
  review_of_str := fun s => Ok (mkReviewOutput s "good" [] false);
  json_pretty := fun _ => Ok "{}";
  as_object := object_entries;
  serde_error := "bad json"
|}.

Lemma entries_spec kvs seen :
  NoDup (entries_of seen kvs).*1 /\
  forall k x, (k, x) ∈ entries_of seen kvs <-> k ∉ seen /\ assoc_get k kvs = Some x.
Proof.
  revert seen. induction kvs as [|[k0 y] kvs IH]; intros seen; cbn; [set_solver by constructor|].
  case_bool_decide as Hin.
  - destruct (IH seen) as [H1 H2]. split; [done|]. intros k x. rewrite H2.
    destruct (String.eqb_spec k0 k) as [->|]; [|done]. tauto.
  - destruct (IH (k0 :: seen)) as [H1 H2]. split.
    + cbn. constructor; [|done]. rewrite list_elem_of_fmap. intros ([k x] & -> & Hk%H2). set_solver.
    + intros k x. rewrite elem_of_cons, H2. destruct (String.eqb_spec k0 k) as [->|Hne]; set_solver.
Qed.

Lemma object_entries_law : map_law object_entries.
Proof.
  intros [] Hk; try discriminate Hk. destruct (entries_spec kvs []) as [H1 H2].
  exists (entries_of [] kvs). split_and!; [done|done|]. intros k x. rewrite H2. set_solver.
Qed.

(** ** The run *)

Definition task (id : Z) : SDLCTask :=
  mkSDLCTask id "t" "d" ["a"] TsPending ["true"] 0 3 0 true [].
Definition start : SDLCState := set_tasks (fun _ => [task 1; task 2]) (SDLCState_new "s").
Definition policy : SdlcPolicy := SdlcPolicy_default.
Definition ctx0 : SdlcCtx extern :=
  mkSdlcCtx (Some "s") None None None None (Some (Ok policy)) (Some (mkSetupResult "/w" (Some "b") None)) None (Some start) None
    None None None None None None None None None None None None None None None [] None false None.
Definition config : AgentConfig extern := mkAgentConfig None None None None false None None [].
Definition build : BuildInfo := mkBuildInfo "sha" "now" "0" "host" 1.

Local Abbreviation run := (walk_loop config config config build "state.json" 40 QueueRouter ctx0 (0%nat : HW)).

Definition drained (r : option (LoopEnd (X := extern))) : bool :=
  match r with Some (Left FinalValidationNode _) => true | _ => false end.
Definition ended : SDLCState :=
  set_telemetry (fun _ => mkSDLCTelemetry 3 f64_zero 2 0 2)
    (set_tasks (fun _ => [done_task (retried (task 1)); done_task (task 2)]) start).
Definition left_of (r : option (LoopEnd (X := extern))) : SdlcCtx extern :=
  match r with Some (Left _ c) => c | _ => ctx0 end.
Local Abbreviation left_ctx := (left_of run.1.1).

Lemma drained_shape {A B} (r : option (LoopEnd (X := extern)) * A * B) :
  drained r.1.1 = true -> r = (Some (Left FinalValidationNode (left_of r.1.1)), r.1.2, r.2).
Proof. by destruct r as [[[[[] c| | |]|] w] t]. Qed.

(** Two tasks, three attempts, two reviews. *)
Lemma run_value :
  run = (Some (Left FinalValidationNode left_ctx), run.1.2, run.2) /\ run.1.2 = 3%nat /\
  latest_of (candidates left_ctx) = Some ended.
Proof.
  split; [|split; vm_compute; reflexivity].
  apply drained_shape. vm_compute. reflexivity.
Qed.

Lemma entry : loop_entry policy ctx0 start.
Proof.
  split; [done|done|apply latest_state_Ok; vm_compute; reflexivity| |].
  - repeat constructor; cbn; rewrite ?elem_of_cons, ?elem_of_nil; lia.
  - change (10 * work_left (max_review_attempts policy) start + 10) with 150.
    unfold room, counter_room, u32_max, u32_modulus. cbn. rewrite !Forall_cons, Forall_nil. cbn. lia.
Qed.

Lemma task_loop_ends_witness :
  exists r w' t, walk_loop config config config build "state.json" 150 QueueRouter ctx0 0%nat = (Some r, w', t).
Proof.
  apply (task_loop_ends config config config build "state.json" policy ctx0 start _ 150%nat entry).
  vm_compute. discriminate.
Defined.

Lemma walk_value : exists w t, run = (Some (Left FinalValidationNode left_ctx), w, t).
Proof. destruct run_value as [H _]. eexists _, _. exact H. Qed.

Lemma loop_conserves_witness :
  exists s' t, latest_state left_ctx = Ok s' /\
    calls "ImplementTaskNode" t
      = (done_count s' - done_count start) + (attempts_sum (tasks s') - attempts_sum (tasks start)) + 0 /\
    next_pending s' (allowed_task_ids left_ctx) = None.
Proof.
  destruct walk_value as (w & t & E).
  destruct (loop_conserves config config config build "state.json" policy ctx0 start _ 40%nat FinalValidationNode
    _ w t entry E) as (s' & Hs & Hc & _ & _ & _ & _ & Hn).
  exists s', t. split; [exact Hs|]. split; [exact Hc|by apply Hn].
Defined.

(** The first task's second attempt, about to be marked done. *)
Local Abbreviation at_update :=
  (loop_at config config config build "state.json" 12 QueueRouter ctx0 (0%nat : HW)).
Definition context_of {A} (r : option (LoopNode * SdlcCtx extern * A)) : SdlcCtx extern :=
  match r with Some (_, c, _) => c | None => ctx0 end.

Definition updating {A} (r : option (LoopNode * SdlcCtx extern * A)) : bool :=
  match r with Some (UpdateNode, _, _) => true | _ => false end.

Lemma at_update_shape {A} (r : option (LoopNode * SdlcCtx extern * A)) :
  updating r = true -> exists w, r = Some (UpdateNode, context_of r, w).
Proof. destruct r as [[[[] c] w]|]; try discriminate. by exists w. Qed.

Lemma at_update_value : updating at_update = true.
Proof. vm_compute. reflexivity. Qed.

Lemma done_means_green_witness :
  green (context_of at_update) /\ approved config (context_of at_update) /\
  q_attempt_count <$> r_queue (context_of at_update) = Some 1.
Proof.
  destruct (at_update_shape _ at_update_value) as [w Hw].
  pose proof (loop_at_reached config config config build "state.json" ctx0 _ _ _ _ _ _ _
    (R_start config config config build "state.json" ctx0) Hw) as Hr.
  destruct (done_means_green config config config build "state.json" policy ctx0 _ eq_refl
    (ex_intro _ policy (conj eq_refl eq_refl)) Hr) as [Hg Ha].
  split; [exact Hg|]. split; [exact (Ha eq_refl)|]. vm_compute. reflexivity.
Defined.

(** ** Single properties *)

Definition saved_state : SDLCState :=
  mkSDLCState "s" (Some "p") None "pending" [task 2; done_task (task 1)] (mkSDLCTelemetry 3 f64_zero 1 0 1)
    (Some policy) None None None None None None None [].
Definition saved_meta : RunMeta := mkRunMeta "b" "/w" "t0" "t1" (Some "r") [].

Lemma committed_state_roundtrip_witness :
  from_committed_state_json object_entries (fun s => s) "bad json"
    (to_committed_state_json build saved_state saved_meta None None None None None)
  = Ok (mkSDLCState "s" (Some "p") None (derive_committed_status saved_state None)
          [done_task (task 1); task 2] (mkSDLCTelemetry 3 f64_zero 1 0 1) (Some policy) None (Some "b")
          (Some "/w") (Some "t0") (Some "t1") None (Some "r") []).
Proof.
  destruct (committed_state_roundtrip object_entries object_entries_law (fun s => s) "bad json" build
    saved_state saved_meta None None None None None) as [E _]; try exact E; try done.
  - repeat constructor; cbn; rewrite ?elem_of_cons, ?elem_of_nil; lia.
  - cbn [tasks saved_state]. unfold task_wire_ok, u32_ok, u32_modulus. rewrite !Forall_cons, Forall_nil. cbn. lia.
Defined.

Lemma feedback_block_bound_witness :
  match render_feedback_block "Feedback:" [mkFeedbackEntry "check: " "it failed"] 40 with
  | Some block => (chars_count block <= 40)%nat
  | None => False
  end.
Proof.
  destruct (render_feedback_block "Feedback:" [mkFeedbackEntry "check: " "it failed"] 40) as [block|] eqn:E;
    [|discriminate E].
  by destruct (feedback_block_bound _ _ _ _ E) as [H _].
Defined.

(** A task with one command, its implementation in place. *)
Definition test_ctx : SdlcCtx extern :=
  put_implement (mkImplementResult "" ["src/a.rs"] [] Sonnet (Some "abc") 1 (Some "abc") start)
    (put_queue (queue_entry (task 1)) ctx0).
Definition context_after {A B} (r : result (SdlcCtx extern) NodeError * A * B) : SdlcCtx extern :=
  match r.1.1 with Ok c => c | Err _ => ctx0 end.
Definition green_results (o : option TestResult) : option (list CheckResult) :=
  match o with Some (TestRan true cs _ _ _ _ _) => Some cs | _ => None end.

Definition green_count {A B} (r : result (SdlcCtx extern) NodeError * A * B) : option nat :=
  length <$> green_results (r_test (context_after r)).

Lemma green_shape {A B} (r : result (SdlcCtx extern) NodeError * A * B) n :
  green_count r = Some n ->
  exists c w t cs sm d src ex hw, r = (Ok c, w, t) /\ r_test c = Some (TestRan true cs sm d src ex hw) /\ length cs = n.
Proof.
  destruct r as [[[c|] w] t]; [|discriminate]. unfold green_count. cbn [context_after fst].
  destruct (r_test c) as [[|[] cs sm d src ex hw]|] eqn:E; try discriminate. intros [= <-]. by do 9 eexists.
Qed.

Lemma test_green_spec_witness :
  exists cs checks wt tk w1 w3 w4 w5 t, length cs = 1%nat /\
    current_task_state test_ctx "TestTaskNode" = Ok tk /\ guard_passed test_ctx tk wt (1%nat : HW) w1 /\
    (exists path w2 there, harness_loaded path w2 there checks w3) /\
    exists suite, suite_passed wt (spec_dir_for_baseline test_ctx wt) suite w4 cs w5 t.
Proof.
  assert (Hg : green_count (TestTaskNode_process test_ctx (1%nat : HW)) = Some 1%nat) by (vm_compute; reflexivity).
  apply green_shape in Hg as (c & w' & t & cs & sm & d & src & ex & hw & E & Er & Hl).
  destruct (test_green_spec test_ctx c _ w' t cs sm d src ex hw E Er)
    as (wt & p & tk & w1 & path & w2 & there & checks & w3 & job & w4 & w5 & t1 & t2 & _ & Hp & Ht & Hok & Hat & Hload & _ & _ & Hs & _).
  exists cs, checks, wt, tk, w1, w3, w4, w5, t2. split; [exact Hl|]. split; [exact Ht|]. split; [exact Hok|].
  split; [exists path, w2, there; exact Hload|eexists; exact Hs].
Defined.
