(* ===== verification/SdlcRunExamples.v ===== *)
(** * SDLC runs to compute with, to their end

    A run that closes its block and one that gives up on a task, and the
    properties of SdlcReview.v, SdlcClose.v and SdlcRun.v at them. *)

From S2P Require Import Prelude Json Contract Sessions Node Telemetry Utf8 Text ModelReply Effect Chain LaneLog SdlcPolicy SdlcState SdlcContext SdlcFeedback SdlcClock SdlcChecks TaskLoop TaskLoopFacts SdlcReview SdlcWrapUp SdlcClose SdlcRun ChainModel SdlcExamples.

Local Open Scope string_scope.
Local Open Scope list_scope.
Local Open Scope Z_scope.

Import JsonModel.
#[local] Existing Instances ChainModel.rust_fmt unicode_case check_libs prompts policy_serde loop_libs.

(** ** A reconcile *)

Section Reconciling.
(** Three checks: one with a faster command for the tasks, one they all run as
    it is, and one switched off. *)
Definition fast_check : value :=
  json_object [("gates", jbool true); ("command", jstr "cargo nextest"); ("fastCommand", jstr "cargo check")].
Definition plain_check : value := json_object [("gates", jbool true); ("command", jstr "cargo fmt")].
Definition off_check : value :=
  json_object [("gates", jbool true); ("command", jstr "x"); ("perTask", jbool false); ("enabled", jbool false)].
#[local] Instance harness_libs : CheckLibs extern := {|
  as_i64 := fun v => match v with JU64 n => Some n | _ => None end;
  json_text := fun _ => "{}";
  json_parse := fun _ =>
    Ok (json_object [("validation", json_object [("checks", jarray [fast_check; plain_check; off_check])])]);
  regex_new := fun _ => None
|}.
#[local] Instance harness_host : Host extern := {|
  HW := nat;
  h_run := fun program args cwd n => (Ok (mkCommandOutput 0 "" ""), S n);
  h_agent := fun node config prompt retry n => (Ok (mkAgentReply None None []), n);
  h_exists := fun path n => (true, n);
  h_read_to_string := fun path n => (Ok "harness", n);
  h_write := fun path contents n => (Ok tt, n);
  h_create_dir_all := fun path n => (Ok tt, n);
  h_now := fun n => ("now", n);
  h_new_v4 := fun n => ("u", n);
  h_class_configured := fun class => true;
  h_submit := fun id job n => (tt, n);
  h_admit := fun job n => (mkHeavyMeta "inline" None "build" 0 false, n);
  h_record := fun job ok rs n => (tt, n)
|}.
Definition fast_policy : SdlcPolicy :=
  mkSdlcPolicy Normal false EndOnly 2 40 Fast Inline ModelTiers_default CallTimeouts_default
    StageTurnCeilings_default LocalConfig_default PiConfig_default false 3 3
    RetryFeedback_default TransportRetry_default 120000 65536 None ClaudeCli true.
Definition reconcile_ctx : SdlcCtx extern :=
  mkSdlcCtx (Some "s") None None None None (Some (Ok fast_policy)) (Some (mkSetupResult "/w" (Some "b") None)) None None
    None None None None None None None None None None None None None None None None [] None false None.
Local Abbreviation reconcile_run :=
  (FinalValidationNode_process Reconcile reconcile_ctx (0%nat : @HW extern harness_host)).
Definition ran_ctx (r : result (SdlcCtx extern) NodeError) : SdlcCtx extern :=
  match r with Ok c => c | Err _ => reconcile_ctx end.
Definition ran_ok (r : result (SdlcCtx extern) NodeError) : bool := match r with Ok _ => true | Err _ => false end.
Lemma ran_shape {A B} (r : result (SdlcCtx extern) NodeError * A * B) :
  ran_ok r.1.1 = true -> r = (Ok (ran_ctx r.1.1), r.1.2, r.2).
Proof. by destruct r as [[[]]]. Qed.
Lemma reconcile_value : ran_ok reconcile_run.1.1 = true.
Proof. vm_compute. reflexivity. Qed.
(** Only the check the tasks replaced is run again, with its own command. *)
Definition commands_of (t : list (SdlcEvent extern)) : list (string * list string * string) :=
  omap (fun e => match e with RanCommand p args cwd => Some (p, args, cwd) | _ => None end) t.
Lemma reconcile_commands : commands_of reconcile_run.2 = [("sh", ["-c"; "cargo nextest"], "/w")].
Proof. vm_compute. reflexivity. Qed.
Lemma reconcile_covers_witness :
  exists checks w2 v, harness_loaded "/w/planning/s/harness.json" (0%nat : @HW extern harness_host) true checks w2 /\
    stamped reconcile_ctx (List.filter unreconciled checks) "/w" w2 v reconcile_run.1.2 reconcile_run.2.
Proof.
  pose proof (ran_shape _ reconcile_value) as E.
  destruct (reconcile_covers _ _ _ _ _ E) as (wt & path & w1 & there & checks & w2 & policy & v & Hwt & Hat & Hl & Hp & _ & Hv & _).
  injection Hwt as <-. injection Hp as <-. destruct Hat as (b & Hb & ->). injection Hb as <- <-.
  assert (there = true) as -> by (destruct Hl as (? & Hx & _); by injection Hx as <-).
  exists checks, w2, v. split; [exact Hl|]. case_decide as Hd; [|exact Hv].
  destruct Hv as (_ & _ & _ & _ & Ht). pose proof reconcile_commands as Hc. rewrite Ht in Hc. discriminate Hc.
Defined.
End Reconciling.

(** ** A run that closes its block *)

Definition brain (path : string) : bool := String.eqb path "/w/planning/state.json".
#[local] Instance end_libs : EndLibs extern := {|
  docs_of_value := fun _ => Err "no value";
  docs_of_str := fun s => Ok (mkPatchDocsOutput s [] [] []);
  DOCS_STABLE_PROMPT := "docs"
|}.
Definition wrap_of status : WrapLibs extern (host_of status brain) := {|
  as_task_context := fun _ => Node.RuntimeModel.empty_ctx;
  h_unix_secs := fun n => (0, n);
  h_utc_now := fun n => (0, n);
  h_is_dir := fun _ n => (true, n)
|}.
(** The write regenerates one file; the corpus stays clean. *)
Definition mev_of status : MevLibs extern (host_of status brain) := {|
  MevConfig := unit;
  find_brain_config := fun _ n => (Some tt, n);
  discover_state_files := fun root _ n => ([mkStateSource "engine-rs" "/w/planning/state.json"], n);
  load_state := fun _ n => (Some [[mkMevBlock "EN.1" []]], n);
  find_brain_root := fun w n => (Ok w, n);
  DEFAULT_LOCK_TIMEOUT := 30;
  acquire_lock := fun _ _ n => (Acquired, n);
  release_lock := fun _ n => (tt, n);
  set_block_status_as := fun _ _ _ _ _ n =>
    (Ok [mkDiagnostic false "Info" "/w/planning/state.json" "I_EMIT_WROTE" "wrote"], n);
  list_revisions := fun _ n => (Some [1; 2], n);
  validate_brain_state := fun _ n => (Ok [], n);
  read_revision := fun _ _ n => (Err "none", n);
  write_atomic := fun _ _ n => (Ok tt, n);
  h_canonicalize := fun p n => (Ok p, n)
|}.

Definition end_only : SdlcPolicy :=
  mkSdlcPolicy Normal false EndOnly 2 40 Full Inline ModelTiers_default CallTimeouts_default
    StageTurnCeilings_default LocalConfig_default PiConfig_default false 3 3
    RetryFeedback_default TransportRetry_default 120000 65536 None ClaudeCli true.
Definition block_start : SDLCState :=
  mkSDLCState "s" None (Some "EN.1") "pending" [task 1; task 2] (telemetry start) None None None None None None
    None None [].
Definition block_ctx : SdlcCtx extern :=
  mkSdlcCtx (Some "s") None None None None (Some (Ok end_only)) (Some (mkSetupResult "/w" (Some "b") None)) None (Some block_start)
    None None None None None None None None None None None None None None None None [] None false None.

Lemma block_entry : loop_entry end_only block_ctx block_start.
Proof.
  split; [done|done|apply latest_state_Ok; vm_compute; reflexivity| |].
  - repeat constructor; cbn; rewrite ?elem_of_cons, ?elem_of_nil; lia.
  - change (10 * work_left (max_review_attempts end_only) block_start + 10) with 150.
    unfold room, counter_room, u32_max, u32_modulus. cbn. rewrite !Forall_cons, Forall_nil. cbn. lia.
Qed.

Section Closing.
#[local] Instance closing_host : Host extern := host_of (fun _ => 0) brain.
Definition zero : @HW extern closing_host := 0%nat.
#[local] Instance closing_wrap : WrapLibs extern closing_host := wrap_of _.
#[local] Instance closing_mev : MevLibs extern closing_host := mev_of _.

Local Abbreviation closing_run :=
  (run_from_queue config config config config config build "state.json" None 30 40 block_ctx zero).

Lemma closing_writes : length (status_writes closing_run.2) = 1%nat.
Proof. vm_compute. reflexivity. Qed.

Lemma closed_means_done_witness :
  exists root id ctx1 w1 t1 s1,
    status_writes closing_run.2 = [(root, "engine-rs:" +:+ id, "closed")] /\
    walk_loop config config config build "state.json" 40 QueueRouter block_ctx zero
      = (Some (Left FinalValidationNode ctx1), w1, t1) /\
    Forall (fun t => task_status t = TsDone \/ task_status t = TsSkipped) (tasks s1) /\
    exists v w6 ctx2 w7 t7 r, EndReviewNode_process config (put_final v ctx1) w6 = (Ok ctx2, w7, t7) /\
      r_end_review ctx2 = Some r /\ er_verdict r = "PASS".
Proof.
  destruct (closed_means_done config config config config config build "state.json" None 30 end_only block_ctx
    block_start 40%nat zero closing_run.1.1 closing_run.1.2 closing_run.2 block_entry)
    as (root & id & ctx1 & w1 & t1 & s1 & Hw & _ & _ & E & _ & _ & _ & _ & Hterm & v & ? & ? & ? & ? & ? & ? & ? & ? & ? & w6 & ? & Hend).
  - by split.
  - by rewrite <- !surjective_pairing.
  - intros Hn. pose proof closing_writes as Hc. rewrite Hn in Hc. discriminate Hc.
  - destruct Hend as (_ & _ & _ & _ & _ & _ & _ & Hend). destruct (Hend eq_refl) as (ctx2 & w7 & t7 & r & Hr).
    exists root, id, ctx1, w1, t1, s1. split; [exact Hw|]. split; [exact E|]. split; [apply Hterm; reflexivity|].
    by exists v, w6, ctx2, w7, t7, r.
Defined.

Definition wrapped_ctx : SdlcCtx extern :=
  put_wrap (mkWrapUpResult "" "" "" (set_tasks (fun _ => [done_task (task 1)]) block_start) true None) block_ctx.
Local Abbreviation close_run := (CloseBlockNode_process None 30 wrapped_ctx zero).

Lemma close_writes : length (status_writes close_run.2) = 1%nat.
Proof. vm_compute. reflexivity. Qed.

Lemma close_block_guarded_witness :
  exists o c, close_run.1.1 = Ok (put_close c wrapped_ctx) /\ co_outcome c = outcome_label o /\
    exists w2, close_attempted "/w" "/w" "engine-rs:EN.1" "engine-rs" None 30 w2 o close_run.1.2
                 (status_writes close_run.2).
Proof.
  destruct (close_block_guarded None 30 wrapped_ctx zero close_run.1.1 close_run.1.2 close_run.2)
    as (o & c & Hr & Ho & _ & _ & Hd); [by rewrite <- !surjective_pairing|].
  exists o, c. split; [exact Hr|]. split; [exact Ho|]. unfold close_decided in Hd. cbn [r_wrap wrapped_ctx put_wrap] in Hd.
  pose proof close_writes as Hl.
  case_decide as Hc; [destruct Hd as (_ & Hn & _); rewrite Hn in Hl; discriminate Hl|].
  destruct Hd as (there & w1 & Hx & Hd). destruct there;
    [|destruct Hd as (_ & Hn & _); rewrite Hn in Hl; discriminate Hl].
  destruct Hd as (root & w2 & Hroot & Hd). injection Hroot as <- <-. exists w1. exact Hd.
Defined.
End Closing.

(** ** A run that gives up *)

Section Bailing.
#[local] Instance failing_host : Host extern := host_of (fun _ => 1) brain.
Definition nought : @HW extern failing_host := 0%nat.
#[local] Instance failing_wrap : WrapLibs extern failing_host := wrap_of _.
#[local] Instance failing_mev : MevLibs extern failing_host := mev_of _.

Local Abbreviation bailing_loop :=
  (walk_loop config config config build "state.json" 40 QueueRouter block_ctx nought).

Definition gave_up (r : option (LoopEnd (X := extern))) : bool :=
  match r with Some (Left WrapUpNode _) => true | _ => false end.
Lemma gave_up_shape {A B} (r : option (LoopEnd (X := extern)) * A * B) :
  gave_up r.1.1 = true -> r = (Some (Left WrapUpNode (left_of r.1.1)), r.1.2, r.2).
Proof. by destruct r as [[[[[] c| | |]|] w] t]. Qed.
Lemma bailing_value : gave_up bailing_loop.1.1 = true.
Proof. vm_compute. reflexivity. Qed.

Lemma bail_is_terminal_witness :
  exists w1 t1, bailing_loop = (Some (Left WrapUpNode (left_of bailing_loop.1.1)), w1, t1) /\
    forall r w' t, run_from_queue config config config config config build "state.json" None 30 40 block_ctx nought
      = (r, w', t) -> status_writes t = [].
Proof.
  pose proof (gave_up_shape _ bailing_value) as E. eexists _, _. split; [exact E|].
  destruct (bail_is_terminal config config config config config build "state.json" None 30 end_only block_ctx
    block_start 40%nat nought _ _ _ block_entry ltac:(by split) E) as [_ H]. exact H.
Defined.
End Bailing.
