(* ===== verification/SdlcSetupExamples.v ===== *)
(** * The start of an SDLC run to compute with

    A host whose file system holds a committed state and a tasks.json, with the
    history of one saved task, and the properties of SdlcSetup.v in it. *)

From S2P Require Import Prelude Json Sessions Node Utf8 Text ModelReply Effect Chain LaneLog SdlcPolicy SdlcState SdlcContext SdlcFeedback SdlcClock SdlcChecks TaskLoop TaskLoopFacts SdlcSetup ChainModel SdlcExamples.

Local Open Scope string_scope.
Local Open Scope list_scope.
Local Open Scope Z_scope.

Import JsonModel.
#[local] Existing Instances ChainModel.rust_fmt unicode_case prompts policy_serde loop_libs.

(** The text of tasks.json, and of the committed state. *)
#[local] Instance parsed : CheckLibs extern := {|
  as_i64 := fun v => match v with JU64 n => Some n | _ => None end;
  json_text := fun _ => "{}";
  json_parse := fun s =>
    if String.eqb s "tasks" then Ok (JArr (map task_to_json [task 1; task 2]))
    else Ok (JObj [("run_id", JStr "r1")]);
  regex_new := fun _ => None
|}.
(** The world is whether the committed state is still at its place. *)
#[local] Instance setup_host : Host extern := {|
  HW := bool;
  h_run := fun program args cwd w => (Ok (mkCommandOutput 0 (match args with "log" :: _ => "feat(sdlc): 1 — t" | _ => "" end) ""), w);
  h_agent := fun _ _ _ _ w => (Ok (mkAgentReply None None []), w);
  h_exists := fun path w =>
    (if String.eqb path "/r/planning/s/sdlc/state.json" then w
     else String.eqb path "/r/planning/s/tasks.json", w);
  h_read_to_string := fun path w =>
    (Ok (if String.eqb path "/r/planning/s/tasks.json" then "tasks" else "state"), w);
  h_write := fun _ _ w => (Ok tt, w);
  h_create_dir_all := fun _ w => (Ok tt, w);
  h_now := fun w => ("now", w);
  h_new_v4 := fun w => ("u", w);
  h_class_configured := fun _ => true;
  h_submit := fun _ _ w => (tt, w);
  h_admit := fun _ w => (mkHeavyMeta "inline" None "test" 0 false, w);
  h_record := fun _ _ _ w => (tt, w)
|}.
#[local] Instance setup_fs : SetupFs extern setup_host := {|
  fs_current_dir := fun w => (Ok "/r", w);
  fs_is_dir := fun _ w => (true, w);
  fs_metadata := fun _ w => (SymlinkEntry, w);
  fs_canonicalize := fun p w => (Ok p, w);
  fs_remove_file := fun _ w => (Ok tt, w);
  fs_remove_dir := fun _ w => (Ok tt, w);
  fs_read_dir := fun _ w => (Ok [], w);
  fs_symlink := fun _ _ w => (Ok tt, w);
  fs_rename := fun _ _ w => (Ok tt, false);
  generated_of_value := fun _ => Err "none";
  generated_of_str := fun _ => Err "none"
|}.

Definition event_of (use_worktree : bool) : result SDLCFlowEventSchema string :=
  Ok (mkSDLCFlowEventSchema "s" None false None use_worktree None None None).
Definition resolver (ctx : SdlcCtx extern) (worktree : string) : @SD extern setup_host (result SdlcPolicy NodeError) :=
  eret (Ok policy).
Definition setup_ctx : SdlcCtx extern :=
  mkSdlcCtx (Some "s") None None None None (Some (Ok policy)) (Some (mkSetupResult "/r" (Some "b") None)) None None
    None None None None None None None None None None None None None None None None [] None false None.
Definition standing : @HW extern setup_host := true.

Local Abbreviation load_run := (LoadTaskStateNode_process (event_of false) "state.json" setup_ctx standing).

Definition loaded_ctx (r : result (SdlcCtx extern) NodeError) : SdlcCtx extern :=
  match r with Ok c => c | Err _ => setup_ctx end.
Definition loaded_ok (r : result (SdlcCtx extern) NodeError) : bool := match r with Ok _ => true | Err _ => false end.
Lemma loaded_shape {A B} (r : result (SdlcCtx extern) NodeError * A * B) :
  loaded_ok r.1.1 = true -> r = (Ok (loaded_ctx r.1.1), r.1.2, r.2).
Proof. by destruct r as [[[]]]. Qed.
Lemma load_value : loaded_ok load_run.1.1 = true.
Proof. vm_compute. reflexivity. Qed.
(** One commit is in the history: its task is done, the other is not. *)
Lemma load_tasks : task_status <$> (default [] (tasks <$> r_load (loaded_ctx load_run.1.1))) = [TsDone; TsPending].
Proof. vm_compute. reflexivity. Qed.
Definition renames (t : list (SdlcEvent extern)) : list (string * string) :=
  omap (fun e => match e with Renamed p target => Some (p, target) | _ => None end) t.
Lemma load_renames :
  renames load_run.2
  = [("/r/planning/s/sdlc/state.json", "/r/planning/s/sdlc/state.json.superseded-r1.bak")].
Proof. vm_compute. reflexivity. Qed.
Lemma load_not_harmless : forallb harmless load_run.2 = false.
Proof. vm_compute. reflexivity. Qed.

Local Abbreviation live_event := (mkSDLCFlowEventSchema "s" None false None false None None None).
Local Abbreviation tree_event := (mkSDLCFlowEventSchema "s" None false None true None None None).

(** A run that restarts keeps the state that stood there under a free name. *)
Lemma load_state_spec_witness :
  exists dir w1 s t, r_load (loaded_ctx load_run.1.1) = Some s /\
    (exists w' t3, started_from live_event (tasks_path_in dir) setup_ctx w1 s w' t3) /\
    exists target, load_run.2 = t ++ [Renamed (state_path_in "state.json" dir) target;
                                      RanCommand "git" ["log"; "--format=%s"] "/r"].
Proof.
  pose proof (loaded_shape _ load_value) as E.
  destruct (load_state_spec _ _ _ _ _ _ _ E) as (e & dir & w1 & w2 & t1 & has & w3 & s & t2 & He & _ & _ & Hh & _ & Ht & Hs & H).
  injection He as <-. cbn in H. pose proof load_not_harmless as Hn. rewrite Ht, forallb_app, Hh in Hn.
  destruct has.
  - destruct H as (raw & v & w4 & _ & _ & [(_ & -> & _)|(_ & w5 & target & w6 & w7 & t3 & _ & _ & _ & Hst & Ht2)]);
      [discriminate Hn|].
    exists dir, w7, s, t1. split; [exact Hs|]. split; [by eexists _, _|]. exists target. rewrite Ht, Ht2.
    destruct Hst as (? & ? & ? & ? & ? & ? & ? & _ & _ & _ & _ & Hl & _). destruct Hl as (? & _ & -> & _). reflexivity.
  - destruct H as (w4 & _ & Hst).
    destruct Hst as (? & ? & ? & ? & ? & ? & ? & _ & _ & _ & _ & Hl & _). destruct Hl as (? & _ & -> & _).
    discriminate Hn.
Defined.

(** A worktree of one's own: the branch is asked of git, and the run goes on. *)
Local Abbreviation tree_run :=
  (SetupWorktreeNode_process (event_of true) None "sdlc/" resolver setup_ctx standing).
Lemma tree_value : length tree_run.2 = 8%nat.
Proof. vm_compute. reflexivity. Qed.
Lemma worktree_setup_spec_witness :
  exists t2, tree_run.2 = [RanCommand "git" ["fetch"; "origin"; "main"] ".";
    RanCommand "git" ["worktree"; "add"; "trees/sdlc/s"; "-b"; "sdlc/s"; "origin/main"] "."] ++ t2 /\ length t2 = 6%nat.
Proof.
  pose proof tree_value as Hl.
  destruct (worktree_setup_spec (event_of true) None "sdlc/" resolver setup_ctx standing
    tree_run.1.1 tree_run.1.2 tree_run.2 tree_event)
    as [(Hn & _)|(cwd & root & w0 & reattached & w1 & Hr & Hre & H)];
    [by rewrite <- !surjective_pairing|reflexivity|reflexivity|rewrite Hn in Hl; discriminate Hl|].
  destruct Hre as [-> _]. destruct H as (? & w2 & ? & w3 & _ & Ha & H).
  injection Ha as <- <-. cbv zeta in H. rewrite decide_True in H by reflexivity. destruct H as (t2 & Ht & _).
  assert (cwd = ".") as -> by (inversion Hr; congruence).
  exists t2. split; [exact Ht|]. rewrite Ht in Hl. by injection Hl.
Defined.

(** A live checkout whose tree is clean. *)
Local Abbreviation setup_run :=
  (SetupWorktreeNode_process (event_of false) None "sdlc/" resolver setup_ctx standing).
Lemma setup_value : length setup_run.2 = 4%nat.
Proof. vm_compute. reflexivity. Qed.
Lemma live_checkout_guarded_witness :
  exists t', setup_run.2 = RanCommand "git" ["status"; "--porcelain"] "."
    :: RanCommand "git" ["fetch"; "origin"; "main"] "." :: t' /\ length t' = 2%nat.
Proof.
  pose proof setup_value as Hl.
  destruct (live_checkout_guarded (event_of false) None "sdlc/" resolver setup_ctx standing
    setup_run.1.1 setup_run.1.2 setup_run.2 live_event)
    as [(Hn & _)|(cwd & root & w0 & outcome & w1 & t' & Hr & Ho & Ht & H)];
    [by rewrite <- !surjective_pairing|reflexivity|reflexivity|rewrite Hn in Hl; discriminate Hl|].
  assert (cwd = ".") as -> by (inversion Hr; congruence).
  injection Ho as <- <-. rewrite decide_True in H by (split; reflexivity).
  destruct H as (t'' & ->). exists t''. split; [exact Ht|]. rewrite Ht in Hl. by injection Hl.
Defined.

Lemma truncate_context_bounds_witness :
  exists kept dropped, "## a.md" = kept +:+ dropped /\ (Z.of_nat (String.length kept) <= 4).
Proof.
  destruct (truncate_context_bounds "## a.md" "a.md" 4 ltac:(lia)) as (_ & _ & H).
  destruct H as (kept & dropped & Hs & Hk & _); [cbn; lia|]. exists kept, dropped. by split.
Defined.
