(* ===== verification/Examples.v ===== *)
(** * Worked examples of the orchestration

    The properties of Chain.v, Ledger.v, Execute.v and Inbox.v at concrete
    inputs, with the seams of ChainModel.v where a runtime is needed. *)

From S2P Require Import Prelude Json Contract Budget Markers Node Workflow Utf8 Effect Escalate Chain Ledger Execute Inbox Preflight ChainModel.

Local Open Scope string_scope.
Local Open Scope list_scope.

#[local] Existing Instances ChainModel.hash_order ChainModel.rust_fmt ChainModel.regex_crate.
Import JsonModel RuntimeModel.

Definition raw_block (lane id : string) (segment position : Z) : RawBlockPosition :=
  mkRawBlockPosition "rm" lane "x" id Block 1 segment position None None.

(** Two lanes, out of order. *)
Definition lane_file : list RawBlockPosition :=
  [raw_block "a" "B2" 1 2; raw_block "b" "C1" 1 1; raw_block "a" "B3" 2 1; raw_block "a" "B1" 1 1].

Lemma resolve_lane_chain_spec_witness :
  exists order, resolve_lane_chain (Ok "") (fun _ => Ok lane_file) "lane-segments.json" "rm" "a"
      (fun _ => false) = Ok (map raw_to_step order) /\
    map raw_id order = ["B1"; "B2"; "B3"] /\ order ≡ₚ lane_blocks "rm" "a" lane_file.
Proof.
  pose proof (resolve_lane_chain_spec (Ok "") (fun _ => Ok lane_file) "lane-segments.json" "rm" "a"
    (fun _ => false) "" lane_file eq_refl eq_refl) as H. simpl in H.
  destruct H as (order & Ho & Hp & _). exists order. split; [by rewrite <- Ho|]. split; [|exact Hp].
  transitivity (map block_id (map raw_to_step order)); [by rewrite map_map|by rewrite <- Ho].
Defined.

Lemma permissions_narrow_witness :
  decide_permission Standard PushToMain = Permit /\
  (decide_permission Locked PushToMain = Permit -> decide_permission Standard PushToMain = Permit) /\
  decide_permission Locked Notify = Deny.
Proof.
  destruct (permissions_narrow (Err "unreadable") Locked (Some (ConfigLoad "unreadable")) Standard
    (Some Locked) Locked eq_refl eq_refl) as (H1 & _ & H3 & _).
  split; [reflexivity|]. split; [apply H3|by eapply H1].
Defined.

(** A step with two dependencies, the second unmet. *)
Definition two_edges (_ _ : string) : eff nat string (list DependencyEdge) :=
  eret [EdgeBlock "x" "A"; EdgeBlock "y" "B"].
Definition asks (_ id : string) : eff nat string bool :=
  ebind (elog id) (fun _ => eret (String.eqb id "A")).

Lemma check_dependencies_spec_witness :
  exists pre post, [EdgeBlock "x" "A"; EdgeBlock "y" "B"] = pre ++ EdgeBlock "y" "B" :: post /\
    Forall (answered asks true) pre /\ answered asks false (EdgeBlock "y" "B").
Proof.
  destruct (check_dependencies_spec two_edges asks (ChainModel.step "C") None 0%nat
    (Err (UnmetDependency "x" "C" (EdgeBlock "y" "B"))) None 0%nat ["A"; "B"] eq_refl)
    as (_ & edges & s1 & t1 & H1 & _ & _ & H2).
  injection H1 as <- <- <-. exact H2.
Defined.

(** A write that is cut short, then one that is done. *)
Definition saved : Checkpoint := mkCheckpoint "c1" [mkCheckpointStep "x" "B1" 1 true None].

Lemma checkpoint_atomic_witness :
  let fs : gmap string string := {[checkpoint_path "/rm" "c1" := "old"]} in
  let '(r, fs', ops) := write_checkpoint (fun _ => Ok "new") (FsFailed "disk full" (Some "ne")) FsDone
                          "/rm" saved fs in
  r <> Ok tt /\ fs' !! checkpoint_path "/rm" "c1" = Some "old" /\
  let '(r, fs', _) := write_checkpoint (fun _ => Ok "new") FsDone FsDone "/rm" saved fs in
  r = Ok tt /\ read_checkpoint (fun _ => Ok saved) (fun _ => None) "/rm" "c1" fs' = Ok (Found saved).
Proof.
  set (fs := {[checkpoint_path "/rm" "c1" := "old"]} : gmap string string). cbv zeta.
  destruct (write_checkpoint _ (FsFailed _ _) _ _ _ _) as [[r fs'] ops] eqn:E.
  destruct (checkpoint_atomic (fun _ => Ok "new") (fun _ => Ok saved) _ _ "/rm" saved fs r fs' ops fs E)
    as (_ & H & _); [apply crash_now|].
  assert (Hr : r = Err (CpWriteTempFailed (tmp_path "/rm" "c1") "disk full")) by (by injection E as <- _ _).
  split; [by rewrite Hr|]. split; [apply (H _ Hr)|].
  destruct (write_checkpoint _ FsDone FsDone _ _ _) as [[r2 fs2] ops2] eqn:E2.
  destruct (checkpoint_atomic (fun _ => Ok "new") (fun _ => Ok saved) _ _ "/rm" saved fs r2 fs2 ops2 fs E2)
    as (_ & _ & H2 & _); [apply crash_now|].
  assert (Hr2 : r2 = Ok tt) by (by injection E2 as <- _ _).
  split; [exact Hr2|]. by apply H2.
Defined.

(** One new capability in a ledger that holds another. *)
Definition ledger_args (id : string) : NewLedgerEntry :=
  mkNewLedgerEntry id "cap" Untested "local" "run it" "src/lib.rs" "" Uncovered [] None None.
Definition ledger_doc : jval :=
  JObj [("entries", JArr [JObj [("id", JStr "x-old")]]); ("repo", JStr "x")].

Lemma ledger_merge_appends_witness :
  let new := [mkLedgerEntry "B1" (ledger_args "x-old"); mkLedgerEntry "B1" (ledger_args "x-new")] in
  exists entries, jget (ledger_doc : @value extern) "entries" ≫= as_array = Some entries /\
    length entries = 1%nat /\ length (merged entries new) = 2%nat /\
    merged (merged entries new) new = merged entries new.
Proof.
  set (new := [mkLedgerEntry "B1" (ledger_args "x-old"); mkLedgerEntry "B1" (ledger_args "x-new")]).
  destruct (ledger_merge_appends (X := extern) (S := nat) (E := unit) (fun _ => eret (Ok "doc")) (fun _ _ => eret (Ok tt))
    (fun _ => Ok ledger_doc) (fun _ => Ok "") "ledger.json" new 0%nat 1%nat 0%nat [])
    as (raw & doc & entries & rendered & s1 & t1 & t2 & _ & Hd & He & _ & _ & _ & _ & Hl & _ & Hm);
    [vm_compute; reflexivity|].
  injection Hd as <-. exists entries. split; [exact He|]. injection He as <-.
  split; [reflexivity|]. split; [exact Hl|exact Hm].
Defined.

(** A slug listed twice: the second entry's path counts; a path outside the
    root does not. *)
Lemma registry_resolves_witness :
  let repos := [mkRepoEntry "x" "old" false; mkRepoEntry "x" "new" false; mkRepoEntry "y" "../y" false] in
  let admitted p := negb (String.eqb p "/brain/../y") in
  exists r, from_brain_root (Ok repos) "/brain" None admitted = Ok r /\
    registry_resolve r "x" = Ok "/brain/new" /\
    registry_resolve r "y" = Err (UnknownSlug "y" (known_slugs r)).
Proof.
  intros repos admitted. destruct (from_brain_root (Ok repos) "/brain" None admitted) as [r|] eqn:E;
    [|discriminate E].
  exists r. split; [reflexivity|].
  split; [exact (proj2 (registry_resolves _ _ _ _ r repos "x" eq_refl E))
         |exact (proj2 (registry_resolves _ _ _ _ r repos "y" eq_refl E))].
Defined.

(** A block step whose child ends well. *)
Definition brain : RepoRegistry := mkRepoRegistry "/brain" {["x" := "/brain/x"]} ∅.
Definition runs_child (i : FlowInvocation) : eff Z string (result TaskContext WorkflowError) :=
  ebind (elog (fi_repo_path i)) (fun _ => eret (Ok (ChainModel.child_ctx (fi_block_id i)))).

Lemma execute_step_spec_witness :
  let '(r, s', t) := execute_step (fun _ _ => eret Flow) brain runs_child (fun p => eret (Some p))
    (ChainModel.step "B1") false true "c1" None None Standard (Some Locked) None None 0%Z in
  t = ["/brain/x"] /\ exists o i, r = Ok o /\ fi_permission_profile i = Locked /\
    fi_repo_path i = "/brain/x" /\ derive_terminal_status (eo_ctx o) <> "failed".
Proof.
  destruct (execute_step _ _ _ _ _ _ _ _ _ _ _ _ _ _ _) as [[r s'] t] eqn:E.
  pose proof (execute_step_spec (fun _ _ => eret Flow) brain runs_child (fun p => eret (Some p))
    (ChainModel.step "B1") false true "c1" None None Standard (Some Locked) None None 0%Z r s' t E) as H.
  assert (Ht : t = ["/brain/x"] /\ exists o, r = Ok o).
  { injection E as <- _ <-. split; [reflexivity|by eexists]. }
  destruct Ht as [Ht [o ->]]. split; [exact Ht|]. destruct H as (i & s1 & t1 & t2 & _ & H1 & H2 & H).
  exists o, i. split; [reflexivity|]. injection H1 as <-. injection H2 as <-. split; [reflexivity|].
  split; [reflexivity|]. by apply H.
Defined.

(** An EDGE_RELEASED for a skipped step whose one dependency is now met. *)
Definition released : MessageRecord :=
  mkMessageRecord "m1" EdgeReleased "y" "lane" "x" (Some "A") "A has landed".

Lemma process_drained_message_spec_witness :
  let '((pm, requeue, esc), s', t) := process_drained_message (fun _ _ => eret [EdgeBlock "x" "A"]) asks
    (eret "now") (fun _ _ => eret (TriageJudgmentFailed JudgmentTimeout)) (fun _ body => eret (Some body))
    "lane" released [ChainModel.step "B2"] "" (mkEscalationContext "rm" "abc1234") 0%nat in
  requeue = Some (ChainModel.step "B2") /\ pm_verdict pm = Some Accepted /\ esc = None.
Proof.
  destruct (process_drained_message _ _ _ _ _ _ _ _ _ _ _) as [[[[pm requeue] esc] s'] t] eqn:E.
  destruct (process_drained_message_spec _ _ _ _ _ _ _ _ _ _ _ pm requeue esc s' t E) as (_ & _ & _ & Hr & He).
  assert (H : requeue = Some (ChainModel.step "B2")) by (by injection E).
  destruct (Hr _ H) as (_ & _ & Hv & _). split; [exact H|]. split; [exact Hv|].
  destruct esc as [r|]; [|reflexivity]. by destruct (He r eq_refl) as [Hk _].
Defined.

(** A notification with two options. *)
Definition page : NewEscalation :=
  mkNewEscalation "2026-01-01T00:00:00Z" "x" "lane" BailKind Blocking
    (match EscalationOption_new "ack" "Seen", EscalationOption_new "later" "Later" with
     | Ok a, Ok b => match notification [a; b] with Ok c => c | Err _ => Session "x" end
     | _, _ => Session "x" end)
    (Some "B1") "rm/x/B1" "a summary" ("cargo test" +:+ String (Ascii.ascii_of_nat 10) "1 failed") (JObj [("channel", JStr "lane-log")])
    "abc1234" None None.

Lemma escalation_well_typed_witness :
  exists r, EscalationRecord_new page = Ok r /\
    line_of page (Some [("ack", "Seen"); ("later", "Later")]) (escalation_to_json r).
Proof.
  assert (Hok : is_ok (EscalationRecord_new page) = true) by (vm_compute; reflexivity).
  destruct (EscalationRecord_new page) as [r|e] eqn:E; [|discriminate Hok].
  exists r. split; [reflexivity|]. apply (proj2 (escalation_well_typed page) r _ E).
  exists [mkEscalationOption "ack" "Seen"; mkEscalationOption "later" "Later"].
  split; [reflexivity|]. repeat constructor.
Defined.

(** A model that proposes a listing and a deletion: the listing runs. *)
Definition proposals : list JudgedClaim :=
  [mkJudgedClaim "src exists" true ["ls"; "-1"; "src"] ExitZero None;
   mkJudgedClaim "clean" true ["rm"; "-rf"; "/"] ExitZero None].

Lemma validate_argv_exact_witness :
  validate_argv ["rg"; "--no-ignore"; "x"] None <> Ok tt /\
  screened ["git"; "log"; "--oneline"; "-5"; "--"; "src/lib.rs"] /\ ~ screened ["ls"; "../other"].
Proof.
  split; [vm_compute; discriminate|]. split.
  - by apply (proj1 (validate_argv_exact ["git"; "log"; "--oneline"; "-5"; "--"; "src/lib.rs"] None)).
  - intros H. assert (Hv : validate_argv ["ls"; "../other"] None = Ok tt).
    { apply validate_argv_exact. split; [exact H|]. exists "ls", ["../other"]. by split. }
    vm_compute in Hv. discriminate Hv.
Defined.

